(* ===== verification/_CoqProject ===== *)
-Q . S2P
Prelude.v
RingQ.v
PriorityQueue.v
DeltaList.v
Graph.v
UnionFind.v
Dfs.v
Dag.v
Dags.v
DagValid.v
Cpu.v
Sched.v
SchedInv.v
SchedSafe.v
SchedInst.v
SchedProps.v
SchedCount.v
SchedBugs.v
Critical.v
Disk.v
DiskLaws.v
FatTime.v
FatBoot.v
FatTable.v
FatTableLaws.v
FatChain.v
FatEntry.v
FatFs.v
FatFile.v
FatFsLaws.v
FatVolume.v
FatAlloc.v
FatFileLaws.v
FatFileWrite.v
FatTruncate.v
FatLayout.v
FatCodec.v
FatExample.v
FatProps.v
FatBugs.v
Channel.v
ChannelSys.v
Unbounded.v
AsyncLock.v
Ports.v
PortHandles.v
NetAddr.v
Assembler.v
AssemblerLaws.v
RingBuffer.v
RingBufferLaws.v
TcpWire.v
TcpState.v
TcpSocket.v
TcpProcess.v
TcpDispatch.v
TcpLogic.v
TcpInv.v
TcpSegment.v
TcpSend.v
TcpRun.v
TcpStream.v
TcpOut.v
TcpWorld.v
TcpChange.v
TcpWorldInv.v
TcpProps.v
TcpBugs.v
Wire.v
TcpPacket.v
TcpPacketLaws.v
UdpPacket.v
Ipv4Packet.v
PacketBuffer.v
PacketBufferLaws.v
IfaceAddr.v
IfaceAddrLaws.v
UdpSocket.v
UdpPath.v
