(* ===== verification/Prelude.v ===== *)
(** * Verification of Awkernel

    Awkernel is an operating system for asynchronous tasks.  A task is a future;
    the workers, one per CPU, take tasks from the run queues of several
    schedulers, poll them, and put them to sleep until a waker makes them
    runnable again.  On top of this are reactors connected by topics into
    directed acyclic graphs (DAGs) with deadlines, channels and locks between
    tasks, a FAT file system on a disk in memory, local ports for sockets, and
    the TCP sockets of the network stack, a copy of smoltcp.  This library
    models these parts as Rocq functions translated from the sources under
    [src/] and proves what makes them correct.

    ** Conventions

    A call that cannot fail is a function; one that may panic returns
    [outcome] ([Ret] or [Panic], which is also an out of range index, a failed
    assertion and a division by zero); one that changes a state is in [st]; one
    that returns a [Result] is in [res] or, for code that takes locks, in the
    [io] monad of [Critical].  Integers are [Z] with [wrap w] where the source
    computes at width [w], as the release build does; sizes and indices that
    cannot come near the end of their range are [nat].  Maps are [gmap].
    Third-party code is a class of operations with a class of laws that state
    its documented behaviour ([FixedBitSet], [CpuMask], the affinity queue and
    [ByteOrder]); [SchedInst], [Dfs] and [Wire] have concrete instances, and
    every theorem that rests on such laws is applied to one.

    A call under a lock, or with interrupts disabled, is one step on the shared
    state; what CPUs and tasks do at once is any sequence of such steps.  Clock
    readings, the outcome of a poll and the CPU that makes a call are arguments.

    ** The files

    - [Prelude] (this file): panics, state, results, fixed-width arithmetic,
      tactics and the hint database [awk].
    - [RingQ] ([awkernel_lib_verified/src/ringq.rs]) and [PriorityQueue]
      ([awkernel_lib/src/priority_queue.rs]): each refines an abstract queue, a
      bounded FIFO and a stable priority queue.
    - [DeltaList] ([delta_list.rs], [time.rs] and [SleepingTasks] of
      [scheduler.rs]): timers fire in order, once, and not early.
    - [Graph], [UnionFind], [Dfs] ([awkernel_async_lib/src/dag/]): the linked
      adjacency lists agree with the list of edges, the count of components is
      right, and the cycle test decides cycles.  [Dag], [Dags], [DagValid]
      ([dag.rs]): job deadlines, registration, validation and spawning; a DAG
      that passes is acyclic, connected, with one source and one sink.
    - [Cpu], [Sched] ([cpu.rs], [task.rs], [scheduler.rs], [scheduler/*.rs],
      [task/preempt.rs]): the state [World] and every call of the executor.
      [SchedInv] and [SchedSafe] prove the invariant that a task is in exactly
      one place while it is runnable, running or preempted; [SchedProps] the
      choice of the next task, of the CPU to preempt and the wake-up of
      workers; [SchedCount] the counter of queued tasks; [SchedInst] the
      instances; [SchedBugs] histories in which the counters or deadlines go
      wrong.
    - [Critical]: code as a sequence of critical sections, with a logic [wp] of
      total correctness and interleavings.
    - [Disk], [DiskLaws] ([file/io.rs], [memfs.rs], [DiskSlice] of [fs.rs]):
      storage, and the two interfaces [PosLaws] and [FlatLaws] against which
      the file system is proved.
    - [FatTime], [FatBoot], [FatTable], [FatEntry], [FatFs], [FatFile]
      ([awkernel_lib/src/file/fatfs/]): the operations.  [FatTableLaws],
      [FatChain], [FatFsLaws], [FatVolume], [FatAlloc], [FatFileLaws],
      [FatFileWrite], [FatTruncate]: their specifications, from entries of the
      table over chains of clusters to the bytes of files.  [FatLayout],
      [FatCodec]: the layout of a formatted volume and round trips of the
      structures on the disk.  [FatExample], [FatProps], [FatBugs]: a concrete
      volume, the theorems on it, and two histories that lose clusters.
    - [Channel], [ChannelSys] ([channel/bounded.rs], [yield_task.rs]) and
      [Unbounded] ([channel/unbounded.rs]): the channels as state machines of
      their futures, and the histories of their two ends: order, no loss, no
      lost wake-up, and the uses for which a wake-up is lost.
    - [AsyncLock] ([sync/mutex.rs]): mutual exclusion, and wake-ups when tasks
      poll only after being woken.
    - [Ports], [PortHandles] ([net/port_bitmap.rs], [port_alloc.rs], handles of
      [tcp.rs]): counts of ports equal the handles alive.  [NetAddr]
      ([in_cksum.rs], [ip_addr.rs], [multicast.rs]): the checksum of the pseudo
      header and the conversion of addresses.
    - [Assembler], [AssemblerLaws] and [RingBuffer], [RingBufferLaws]
      ([smoltcp/src/storage/]): the reassembly map as a set of octets, the ring
      buffer as a bounded queue with room behind it.
    - [TcpWire] ([wire/tcp.rs], [wire/ip.rs], [time.rs], [rand.rs] of smoltcp),
      [TcpState], [TcpSocket], [TcpProcess], [TcpDispatch]
      ([smoltcp/src/socket/tcp.rs]): the socket, the calls of its user, the
      segments it receives and those it sends.  [TcpLogic], [TcpInv],
      [TcpSegment], [TcpSend]: a logic for the parts of a call, the invariant of
      a socket, and what receiving and sending a segment do.  [TcpRun]: the
      events of a socket and their effects.  [TcpStream], [TcpOut]: the stream
      that is received and the one that is sent.  [TcpWorld], [TcpChange],
      [TcpWorldInv]: two sockets and a network that loses, delays, reorders and
      repeats packets.  [TcpProps]: the theorems.  [TcpBugs]: histories in which
      a socket loses or damages what it carries.
    - [Wire] ([mod checksum] of [wire/ip.rs]): integers in network order and the
      Internet checksum.  [TcpPacket], [TcpPacketLaws] ([wire/tcp.rs]),
      [UdpPacket] ([wire/udp.rs]), [Ipv4Packet] ([wire/ipv4.rs]): the octets of
      segments, datagrams and headers, which are read back as they were written;
      parsing of anything a peer sends; blocks of addresses.
    - [PacketBuffer], [PacketBufferLaws] ([storage/packet_buffer.rs]): a queue of
      packets.  [IfaceAddr], [IfaceAddrLaws] ([wire/ipv6.rs], [iface/route.rs],
      [iface/interface/mod.rs]): addresses of an interface, routes, the choice of
      a source address.  [UdpSocket] ([socket/udp.rs]) and [UdpPath]
      ([iface/interface/mod.rs], [ipv4.rs], [iface/packet.rs]): the UDP socket,
      and a datagram from one socket over the wire to another.

    ** How the parts interact

    The executor composes [PriorityQueue] and the affinity queue into the run
    queues and asks [Dag] for the deadlines of EDF tasks.  [Dags] calls the
    executor through the parameter [spawn_with_dag_info].  [Channel] stores its
    messages in a [RingQ] and is proved from the laws of [RingQ.repr].  Open
    files use the mounted file system, that the table, and that the storage,
    each through the interface of the one below.  A TCP socket is proved from
    the laws of its two ring buffers and of its reassembly map; it sends and
    receives the representations of segments that [TcpPacket] writes as octets.
    [UdpPath] composes the packet buffers, the sockets, the interface and the two
    wire formats a datagram passes.

    ** Bounds and fuel

    Loops that are not structural take fuel, and running out of it is [Panic]
    or a failure that the total-correctness statements exclude, so that the
    theorems also show termination.  The fuel is the number of the things the
    loop consumes: messages in [garbage_loop], nodes in [dfs_visitor], clusters
    in the walks of the table, bytes in the loops of [read_exact] and
    [write_all], identifiers in [unused_id].  Counters of histories are bounded
    where the code would wrap: fewer than 2^64 handles of ports.  Sequence
    numbers of TCP wrap around; the theorems on streams bound no stream, only
    the age of a packet, which is not delivered any more when a side has written
    more than 2^30 octets since, the bound that the size of the numbers needs.

    ** What is not modelled

    Hardware and what only drives it: boot, paging, interrupts, timers, device
    memory, the drivers, consoles, heaps, and the stacks and contexts of
    threads.  The futures inside spawned reactors, publish and subscribe beyond
    the names the DAG checks use, the barrier (it is built on publish and
    subscribe), session types, timeouts and intervals.  Directories and paths of
    the file system (searching, creating and removing entries by name).  Of
    the network stack: IPv6 packets, ICMP, IGMP, neighbour discovery, fragments,
    the loop of the interface over its devices, and the files that drive it;
    segments of TCP go between two sockets as representations.  Code behind features
    that no target enables (perf, chrono, long file names).  Formatting and
    mounting are proved by their parts (layout, boot sector, table), not as one
    statement. *)

From stdpp Require Export base tactics list gmap.
From Stdlib Require Export ZArith Lia.

(** ** Outcomes: a Rust call either returns or panics *)

(** [Panic] is what an [assert!], an [unwrap] on [None], an out of range index
    or an [unreachable!] gives. *)
Inductive outcome (A : Type) : Type :=
| Ret (a : A)
| Panic.
Arguments Ret {A} a.
Arguments Panic {A}.

#[export] Instance outcome_ret : MRet outcome := @Ret.
#[export] Instance outcome_bind : MBind outcome := fun A B f m =>
  match m with Ret a => f a | Panic => Panic end.

(** Rust's [Option::unwrap] and [Option::expect]. *)
Definition unwrap {A} (o : option A) : outcome A :=
  match o with Some a => Ret a | None => Panic end.

(** Rust's [assert!]. *)
Definition assert_true (b : bool) : outcome unit :=
  if b then Ret tt else Panic.

(** [v[i]], a bounds-checked read of a slice. *)
Definition index {A} (v : list A) (i : nat) : outcome A := unwrap (v !! i).

(** [v[i] = x], a bounds-checked write. *)
Definition index_set {A} (v : list A) (i : nat) (x : A) : outcome (list A) :=
  if decide (i < length v) then Ret (<[i:=x]> v) else Panic.

(** ** Calls that change a state *)

(** A call on the state [W] that returns an [A] or panics. *)
Definition st (W A : Type) : Type := W -> outcome (W * A).

#[export] Instance st_ret {W} : MRet (st W) := fun A a w => Ret (w, a).
#[export] Instance st_bind {W} : MBind (st W) := fun A B f m w =>
  match m w with Ret (w', a) => f a w' | Panic => Panic end.

(** Reading, changing and the calls that touch no state. *)
Definition gets {W A} (f : W -> A) : st W A := fun w => Ret (w, f w).
Definition modify {W} (f : W -> W) : st W unit := fun w => Ret (f w, tt).
Definition lift {W A} (m : outcome A) : st W A := fun w => a ← m; Ret (w, a).
Definition panic {W A} : st W A := fun _ => Panic.

(** A [for] loop. *)
Fixpoint for_each {W A} (l : list A) (body : A -> st W unit) : st W unit :=
  match l with
  | [] => mret tt
  | x :: l' => body x;; for_each l' body
  end.

(** Rust's [Result<A, E>]. *)
Inductive result (A E : Type) : Type :=
| Ok (a : A)
| Err (e : E).
Arguments Ok {A E} a.
Arguments Err {A E} e.

(** Calls that return a [Result], with [?] as bind. *)
Definition res (E A : Type) : Type := outcome (result A E).

#[export] Instance res_ret {E} : MRet (res E) := fun A a => Ret (Ok a).
#[export] Instance res_bind {E} : MBind (res E) := fun A B f m =>
  match m with Ret (Ok a) => f a | Ret (Err e) => Ret (Err e) | Panic => Panic end.

Definition err {E A} (e : E) : res E A := Ret (Err e).

(** A call that returns no [Result]. *)
Definition call {E A} (m : outcome A) : res E A :=
  match m with Ret a => Ret (Ok a) | Panic => Panic end.

(** [core::task::Poll]. *)
Inductive Poll (A : Type) : Type :=
| Ready (a : A)
| Pending.
Arguments Ready {A} a.
Arguments Pending {A}.

Create HintDb awk.

Lemma index_Some {A} (v : list A) i x : v !! i = Some x -> index v i = Ret x.
Proof. intros H. unfold index. by rewrite H. Qed.

Lemma index_set_lt {A} (v : list A) i x :
  i < length v -> index_set v i x = Ret (<[i:=x]> v).
Proof. intros H. unfold index_set. by rewrite decide_True. Qed.

#[export] Hint Resolve index_Some index_set_lt : awk.

(** ** Invariants of calls *)

(** [m] keeps [I]. *)
Definition keeps {W A} (I : W -> Prop) (m : st W A) : Prop :=
  forall w w' a, I w -> m w = Ret (w', a) -> I w'.

Section keeps.
Context {W : Type} (I : W -> Prop).

Lemma keeps_ret {A} (a : A) : keeps I (mret a).
Proof. intros w w' x H [= <- <-]. done. Qed.

Lemma keeps_gets {A} (f : W -> A) : keeps I (gets f).
Proof. intros w w' x H [= <- <-]. done. Qed.

Lemma keeps_lift {A} (m : outcome A) : keeps I (lift m).
Proof. intros w w' x H. unfold lift. destruct m; [|done]. intros [= <- <-]. done. Qed.

Lemma keeps_panic {A} : keeps I (panic (A:=A)).
Proof. by intros w w' x H. Qed.

Lemma keeps_modify (f : W -> W) : (forall w, I w -> I (f w)) -> keeps I (modify f).
Proof. intros Hf w w' x H [= <- <-]. auto. Qed.

Lemma keeps_bind {A B} (m : st W A) (f : A -> st W B) :
  keeps I m -> (forall a, keeps I (f a)) -> keeps I (m ≫= f).
Proof.
  intros Hm Hf w w' b H. unfold mbind, st_bind. destruct (m w) as [[w1 a]|] eqn:Hw; [|done].
  intros Hb. eapply Hf; [|exact Hb]. by eapply Hm.
Qed.

Lemma keeps_for_each {A} (l : list A) (f : A -> st W unit) :
  (forall a, keeps I (f a)) -> keeps I (for_each l f).
Proof.
  intros Hf. induction l as [|x l IH]; simpl; [apply keeps_ret|].
  apply keeps_bind; [apply Hf|]. intros _. apply IH.
Qed.

End keeps.

#[export] Hint Resolve keeps_ret keeps_gets keeps_lift keeps_panic keeps_modify : awk.

(** Peel the binds off a call and solve the leaves. *)
Ltac keeps_step :=
  match goal with
  | |- keeps _ (mbind _ _) => apply keeps_bind; [|intros ?]
  | |- keeps _ (for_each _ _) => apply keeps_for_each; intros ?
  | |- keeps _ (match ?x with _ => _ end) => destruct x
  | |- keeps _ (if ?x then _ else _) => destruct x
  end.
Ltac keeps_tac := repeat keeps_step; auto with awk.

(** Conclude the invariant after the returned call [Hr] from the one before. *)
Ltac keeps_from Hw Hr :=
  match type of Hr with
  | ?m ?w = Ret (?w', ?a) =>
      match type of Hw with
      | ?I w => let Hk := fresh in
          assert (Hk : keeps I m); [clear Hr|exact (Hk w w' a Hw Hr)]
      end
  end.

(** Take a returned bind apart: the state and result after its first call. *)
Lemma st_bind_ret {W A B} (m : st W A) (f : A -> st W B) w w' b :
  (m ≫= f) w = Ret (w', b) -> exists w1 a, m w = Ret (w1, a) /\ f a w1 = Ret (w', b).
Proof.
  unfold mbind, st_bind. destruct (m w) as [[w1 a]|]; [|done]. eauto.
Qed.

Lemma st_ret_ret {W A} (a : A) (w w' : W) b : (mret a : st W A) w = Ret (w', b) -> w' = w /\ b = a.
Proof. by intros [= <- <-]. Qed.

Lemma lift_ret {W A} (m : outcome A) (w w' : W) a :
  lift m w = Ret (w', a) -> w' = w /\ m = Ret a.
Proof. unfold lift. destruct m; [|done]. by intros [= <- <-]. Qed.

Lemma gets_ret {W A} (f : W -> A) (w w' : W) a :
  gets f w = Ret (w', a) -> w' = w /\ a = f w.
Proof. by intros [= <- <-]. Qed.

Lemma bind_ret {A B} (m : outcome A) (f : A -> outcome B) b :
  (m ≫= f) = Ret b -> exists a, m = Ret a /\ f a = Ret b.
Proof. destruct m; [|done]. eauto. Qed.

(** ** Unsigned machine integers *)

Declare Scope uint_scope.
Delimit Scope uint_scope with uint.

Section uint.
Local Open Scope Z_scope.

(** The values of a [w]-bit unsigned integer. *)
Definition is_uint (w : Z) (z : Z) : Prop := 0 <= z < 2 ^ w.

(** The value an operation that wraps around keeps. *)
Definition wrap (w : Z) (z : Z) : Z := z mod 2 ^ w.

(** Bitwise negation [!x] at width [w]. *)
Definition bnot (w : Z) (z : Z) : Z := Z.lxor z (Z.ones w).

Lemma wrap_id w z : is_uint w z -> wrap w z = z.
Proof. intros H. unfold wrap. by apply Z.mod_small. Qed.

Lemma wrap_uint w z : 0 <= w -> is_uint w (wrap w z).
Proof. intros H. apply Z.mod_pos_bound. lia. Qed.

Lemma testbit_above w z i : is_uint w z -> 0 <= w <= i -> Z.testbit z i = false.
Proof.
  intros [H1 H2] [H3 H4]. destruct (decide (z = 0)) as [->|Hz]; [apply Z.testbit_0_l|].
  apply Z.bits_above_log2; [lia|]. apply Z.log2_lt_pow2; [lia|].
  eapply Z.lt_le_trans; [done|]. apply Z.pow_le_mono_r; lia.
Qed.

Lemma is_uint_testbit w z :
  0 <= w -> 0 <= z -> (forall i, w <= i -> Z.testbit z i = false) -> is_uint w z.
Proof.
  intros Hw Hz Hb. split; [done|]. destruct (decide (z = 0)) as [->|Hn]; [lia|].
  apply Z.log2_lt_pow2; [lia|]. destruct (decide (w <= Z.log2 z)) as [Hl|]; [|lia].
  specialize (Hb _ Hl). rewrite Z.bit_log2 in Hb; [done|lia].
Qed.

Lemma testbit_bnot w z i : 0 <= i < w -> Z.testbit (bnot w z) i = negb (Z.testbit z i).
Proof.
  intros H. unfold bnot. rewrite Z.lxor_spec, Z.ones_spec_low by lia.
  by destruct (Z.testbit z i).
Qed.

Lemma testbit_bit p i : 0 <= p -> Z.testbit (Z.shiftl 1 p) i = bool_decide (i = p).
Proof.
  intros Hp. rewrite Z.shiftl_1_l. case_bool_decide as Hi.
  - subst. by apply Z.pow2_bits_true.
  - apply Z.pow2_bits_false; lia.
Qed.

(** A field above [n] bits joined with a value of [n] bits is their sum. *)
Lemma lor_mul_add a b n : 0 <= n -> is_uint n b -> Z.lor (a * 2 ^ n) b = a * 2 ^ n + b.
Proof.
  intros Hn Hb. assert (Hl : Z.land (a * 2 ^ n) b = 0).
  { apply Z.bits_inj'. intros i Hi. rewrite Z.land_spec, Z.bits_0.
    destruct (decide (i < n)); [by rewrite Z.mul_pow2_bits_low|].
    rewrite (testbit_above n b) by (done || lia). apply andb_false_r. }
  rewrite <- Z.lxor_lor by done. symmetry. by apply Z.add_nocarry_lxor.
Qed.

(** [x & (2^n - 1)] and [x & !(2^n - 1)] at width [w]. *)
Lemma land_mask_mod x n : 0 <= n -> Z.land x (2 ^ n - 1) = x mod 2 ^ n.
Proof.
  intros Hn. rewrite <- Z.land_ones by done. f_equal. by rewrite Z.ones_equiv, Z.sub_1_r.
Qed.

End uint.

(** ** Looking for an unused identifier *)

(** The [k]th identifier after [id] in the cycle [1 .. P]. *)
Section cycle.
Local Open Scope Z_scope.

Definition cyc (P id : Z) (k : nat) : Z := (id - 1 + Z.of_nat k) mod P + 1.

Lemma cyc_0 P id : 1 <= id <= P -> cyc P id 0 = id.
Proof. intros H. unfold cyc. rewrite Z.mod_small; lia. Qed.

Lemma cyc_range P id k : 0 < P -> 1 <= cyc P id k <= P.
Proof. intros H. unfold cyc. pose proof (Z.mod_pos_bound (id - 1 + Z.of_nat k) P H). lia. Qed.

Lemma cyc_S P id k : 0 < P -> cyc P id (S k) = if cyc P id k =? P then 1 else cyc P id k + 1.
Proof.
  intros H. unfold cyc. pose proof (Z.mod_pos_bound (id - 1 + Z.of_nat k) P H) as Hb.
  rewrite Nat2Z.inj_succ. unfold Z.succ. rewrite Z.add_assoc, (Z.add_mod _ 1) by lia.
  destruct (Z.eqb_spec ((id - 1 + Z.of_nat k) mod P + 1) P) as [He|Hn].
  - destruct (decide (P = 1)) as [->|]; [by rewrite !Z.mod_1_r|].
    rewrite (Z.mod_small 1 P), He, Z.mod_same; lia.
  - rewrite (Z.mod_small 1 P), (Z.mod_small (_ + 1)); lia.
Qed.

Lemma cyc_next P id k :
  1 <= id <= P -> cyc P (if id =? P then 1 else id + 1) k = cyc P id (S k).
Proof.
  intros H. unfold cyc. f_equal. destruct (Z.eqb_spec id P) as [->|Hn].
  - replace (P - 1 + Z.of_nat (S k)) with (1 - 1 + Z.of_nat k + 1 * P) by lia.
    by rewrite Z_mod_plus_full.
  - f_equal. lia.
Qed.

Lemma cyc_inj P id k k' :
  0 < P -> Z.of_nat k < P -> Z.of_nat k' < P -> cyc P id k = cyc P id k' -> k = k'.
Proof.
  intros HP Hk Hk' He. unfold cyc in He. assert (Hm : (id - 1 + Z.of_nat k) mod P = (id - 1 + Z.of_nat k') mod P) by lia.
  pose proof (Z.div_mod (id - 1 + Z.of_nat k) P ltac:(lia)).
  pose proof (Z.div_mod (id - 1 + Z.of_nat k') P ltac:(lia)).
  rewrite Hm in *. assert (Hd : (id - 1 + Z.of_nat k) / P = (id - 1 + Z.of_nat k') / P) by nia. nia.
Qed.

(** A map with fewer than [P] entries leaves an identifier free within
    [size m + 1] steps. *)
Lemma cyc_unused {V} (m : gmap Z V) P id :
  Z.of_nat (size m) < P -> exists k, (k <= size m)%nat /\ m !! cyc P id k = None.
Proof.
  intros HP. set (l := cyc P id <$> seq 0 (S (size m))).
  destruct (decide (Exists (fun i => m !! i = None) l)) as [Hx|Hx].
  - apply Exists_exists in Hx as (i & (k & -> & Hk%elem_of_seq)%list_elem_of_fmap & Hi).
    exists k. split; [lia|done].
  - exfalso. assert (Hnd : NoDup l).
    { apply NoDup_fmap_2_strong; [|apply NoDup_seq]. intros x y Hx'%elem_of_seq Hy%elem_of_seq.
      apply cyc_inj; lia. }
    assert (Hsub : l ⊆+ elements (dom m)).
    { apply NoDup_submseteq; [done|]. intros i Hi. apply elem_of_elements, elem_of_dom.
      destruct (m !! i) eqn:Hm; [by eexists|]. destruct Hx. apply Exists_exists. by exists i. }
    apply submseteq_length in Hsub. unfold l in Hsub. rewrite length_fmap, length_seq in Hsub.
    change (length (elements (dom m))) with (size (dom m)) in Hsub. rewrite size_dom in Hsub. lia.
Qed.

End cycle.

(** [case_match] for the boolean comparisons the Rust code branches on. *)
Ltac case_if :=
  match goal with
  | |- context [if ?b then _ else _] => destruct b eqn:?
  | H : context [if ?b then _ else _] |- _ => destruct b eqn:?
  end.

Ltac case_in H :=
  match type of H with context [if ?b then _ else _] => destruct b eqn:? end.

(** Run the binds whose first part has returned, and nothing else. *)
Ltac rbind := cbn [mbind mret outcome_bind outcome_ret st_bind st_ret unwrap].

(** The same for calls on a state. *)
Ltac sbind :=
  unfold mbind, st_bind, outcome_bind, mret, st_ret, outcome_ret, gets, modify, lift, panic;
  cbn beta iota zeta.

(** [lia] with division by constants. *)
Ltac dlia := Z.to_euclidean_division_equations; lia.

(** Turn boolean tests in the context into propositions. *)
Ltac b2p :=
  repeat match goal with
  | H : (_ =? _)%nat = true |- _ => apply Nat.eqb_eq in H
  | H : (_ =? _)%nat = false |- _ => apply Nat.eqb_neq in H
  | H : (_ <? _)%nat = true |- _ => apply Nat.ltb_lt in H
  | H : (_ <? _)%nat = false |- _ => apply Nat.ltb_ge in H
  | H : (_ <=? _)%nat = true |- _ => apply Nat.leb_le in H
  | H : (_ <=? _)%nat = false |- _ => apply Nat.leb_gt in H
  | H : (_ =? _)%Z = true |- _ => apply Z.eqb_eq in H
  | H : (_ =? _)%Z = false |- _ => apply Z.eqb_neq in H
  | H : (_ <? _)%Z = true |- _ => apply Z.ltb_lt in H
  | H : (_ <? _)%Z = false |- _ => apply Z.ltb_ge in H
  | H : (_ <=? _)%Z = true |- _ => apply Z.leb_le in H
  | H : (_ <=? _)%Z = false |- _ => apply Z.leb_gt in H
  | H : negb _ = true |- _ => apply negb_true_iff in H
  | H : negb _ = false |- _ => apply negb_false_iff in H
  | H : (_ && _)%bool = true |- _ => apply andb_true_iff in H as [? ?]
  | H : (_ || _)%bool = false |- _ => apply orb_false_iff in H as [? ?]
  | H : bool_decide _ = true |- _ => apply bool_decide_eq_true in H
  | H : bool_decide _ = false |- _ => apply bool_decide_eq_false in H
  end.
