(* ===== verification/RingQ.v ===== *)
(** * The ring queue of [awkernel_lib_verified/src/ringq.rs]

    [Module RingQ] translates the queue: a [Vec<Option<T>>] with a length and
    two positions.  [repr q xs] relates it to the FIFO list [xs] it stores, and
    the theorems show that every operation is the one on bounded FIFO lists
    and that no index is ever out of range. *)

From S2P Require Import Prelude.

Module RingQ.

(** [struct RingQ<T>].  The positions are [usize] indices into the vector, so
    they never come near the end of their range and are kept as [nat]. *)
Record RingQ (T : Type) : Type := mkRingQ {
  queue : list (option T);
  len : nat;
  head : nat;
  tail : nat
}.
Arguments mkRingQ {T} _ _ _ _.
Arguments queue {T} _.
Arguments len {T} _.
Arguments head {T} _.
Arguments tail {T} _.

Section ops.
Context {T : Type}.
Implicit Types q : RingQ T.

(** [RingQ::new]. *)
Definition new (queue_len : nat) : RingQ T :=
  mkRingQ (replicate queue_len None) 0 0 0.

(** [RingQ::is_empty], [RingQ::queue_size] and [RingQ::is_full]. *)
Definition is_empty q : bool := len q =? 0.
Definition queue_size q : nat := length (queue q).
Definition is_full q : bool := length (queue q) <=? len q.

(** The step of [self.tail] and [self.head]: [p += 1; if p == n { p = 0 }]. *)
Definition advance (n p : nat) : nat := if S p =? n then 0 else S p.

(** [RingQ::push]. *)
Definition push q (data : T) : outcome (RingQ T * result unit T) :=
  if length (queue q) =? len q then Ret (q, Err data)
  else
    queue' ← index_set (queue q) (tail q) (Some data);
    Ret (mkRingQ queue' (S (len q)) (head q) (advance (length queue') (tail q)), Ok tt).

(** [RingQ::pop]; [Option::take] leaves [None] in the slot. *)
Definition pop q : outcome (RingQ T * option T) :=
  if len q =? 0 then Ret (q, None)
  else
    result ← index (queue q) (head q);
    queue' ← index_set (queue q) (head q) None;
    Ret (mkRingQ queue' (pred (len q)) (advance (length queue') (head q)) (tail q), result).

(** [RingQ::head], the accessor (the field has the same name in Rust). *)
Definition head_ref q : outcome (option T) := index (queue q) (head q).

(** [IterRingQ::next] from position [pos] with [n] items left, run to the end;
    the [unreachable!()] on an empty slot is [Panic]. *)
Fixpoint iter_from q (n pos : nat) : outcome (list T) :=
  match n with
  | 0 => Ret []
  | S n' =>
      slot ← index (queue q) pos;
      match slot with
      | Some result =>
          rest ← iter_from q n' (advance (length (queue q)) pos);
          Ret (result :: rest)
      | None => Panic
      end
  end.

(** [RingQ::iter] collected. *)
Definition iter q : outcome (list T) := iter_from q (len q) (head q).

End ops.

(** ** The representation relation *)

(** The slot of the [i]-th stored element. *)
Definition slot (cap h i : nat) : nat := (h + i) mod cap.

(** [q] stores [xs], oldest first, and every other slot is [None]. *)
Record repr {T} (q : RingQ T) (xs : list T) : Prop := mkRepr {
  repr_len : len q = length xs;
  repr_cap : length xs <= length (queue q);
  repr_head : head q < length (queue q) \/ (length (queue q) = 0 /\ head q = 0);
  repr_tail : tail q = slot (length (queue q)) (head q) (length xs);
  repr_slots : forall i, i < length (queue q) ->
    queue q !! slot (length (queue q)) (head q) i = Some (xs !! i)
}.

Section proofs.
Context {T : Type}.
Implicit Types (q : RingQ T) (xs : list T).

Lemma slot_lt cap h i : 0 < cap -> slot cap h i < cap.
Proof. intros H. unfold slot. apply Nat.mod_upper_bound. lia. Qed.

Lemma slot_0 cap h : h < cap -> slot cap h 0 = h.
Proof. intros H. unfold slot. rewrite Nat.add_0_r. by apply Nat.mod_small. Qed.

Lemma slot_inj cap h i j : i < cap -> j < cap -> slot cap h i = slot cap h j -> i = j.
Proof.
  unfold slot. intros Hi Hj He.
  pose proof (Nat.div_mod_eq (h + i) cap). pose proof (Nat.div_mod_eq (h + j) cap).
  assert ((h + i) / cap = (h + j) / cap \/ (h + i) / cap < (h + j) / cap \/
          (h + j) / cap < (h + i) / cap) as [?|[?|?]] by lia; nia.
Qed.

Lemma advance_slot cap h i : 0 < cap -> advance cap (slot cap h i) = slot cap h (S i).
Proof.
  intros Hc. unfold advance, slot. rewrite Nat.add_succ_r.
  pose proof (Nat.mod_upper_bound (h + i) cap ltac:(lia)) as Hb.
  pose proof (Nat.div_mod_eq (h + i) cap) as Hd. case_if; b2p.
  - symmetry. apply Nat.Div0.mod_divides. exists (S ((h + i) / cap)). nia.
  - apply Nat.mod_unique with ((h + i) / cap); lia.
Qed.

Lemma slot_succ_head cap h i : h < cap -> slot cap (advance cap h) i = slot cap h (S i).
Proof.
  intros Hh. rewrite <-(slot_0 cap h) at 1 by lia. rewrite advance_slot by lia.
  unfold slot. rewrite Nat.Div0.add_mod_idemp_l. f_equal. lia.
Qed.

Lemma slot_cap cap h : h < cap -> slot cap h cap = h.
Proof.
  intros H. unfold slot. replace (h + cap) with (h + 1 * cap) by lia.
  rewrite Nat.Div0.mod_add. by apply Nat.mod_small.
Qed.

Lemma advance_lt cap h : h < cap -> advance cap h < cap.
Proof. unfold advance. intros H. case_if; b2p; lia. Qed.

(** A fresh queue stores nothing. *)
Lemma new_repr n : repr (new (T:=T) n) [].
Proof.
  split; simpl; rewrite ?length_replicate; try lia.
  - unfold slot. destruct n; [done|]. by rewrite Nat.mod_small by lia.
  - intros i Hi. rewrite lookup_replicate_2; [done|]. apply slot_lt. lia.
Qed.

Lemma repr_is_full q xs :
  repr q xs -> is_full q = bool_decide (length xs = queue_size q).
Proof.
  intros [Hl Hc _ _ _]. unfold is_full, queue_size. rewrite Hl.
  case_bool_decide; [apply Nat.leb_le; lia|apply Nat.leb_gt; lia].
Qed.

Lemma repr_lookup_slot q xs i x :
  repr q xs -> xs !! i = Some x ->
  queue q !! slot (length (queue q)) (head q) i = Some (Some x).
Proof.
  intros H Hx. rewrite (repr_slots q xs H); [by rewrite Hx|].
  apply lookup_lt_Some in Hx. pose proof (repr_cap q xs H). lia.
Qed.

(** Pushing to a queue with room appends at the end and returns [Ok]; on a full
    queue the data come back and nothing changes. *)
Lemma push_room q xs d :
  repr q xs -> length xs < queue_size q ->
  exists q', push q d = Ret (q', Ok tt) /\ repr q' (xs ++ [d]) /\ queue_size q' = queue_size q.
Proof.
  intros H Hr. unfold queue_size in *. pose proof H as [Hl Hc Hh Ht Hs].
  assert (Hh' : head q < length (queue q)) by lia.
  assert (Hti : tail q < length (queue q)) by (rewrite Ht; apply slot_lt; lia).
  unfold push. rewrite (proj2 (Nat.eqb_neq _ _)) by lia.
  rewrite index_set_lt by done. simpl. eexists; split; [done|].
  split; [|unfold queue_size; simpl; by rewrite length_insert].
  split; simpl; rewrite ?length_insert, ?length_app; simpl; try lia.
  - rewrite Ht, advance_slot by lia. f_equal. lia.
  - intros i Hi. destruct (decide (i = length xs)) as [->|Hn].
    + rewrite <-Ht, list_lookup_insert_eq by done. by rewrite list_lookup_middle.
    + rewrite list_lookup_insert_ne.
      * rewrite Hs by done. f_equal.
        destruct (decide (i < length xs)); [by rewrite lookup_app_l|].
        rewrite !lookup_ge_None_2; rewrite ?length_app; simpl; auto; lia.
      * rewrite Ht. intros He. apply slot_inj in He; lia.
Qed.

Lemma push_full q xs d :
  repr q xs -> length xs = queue_size q -> push q d = Ret (q, Err d).
Proof.
  intros [Hl _ _ _ _] He. unfold push, queue_size in *.
  by rewrite (proj2 (Nat.eqb_eq _ _)) by lia.
Qed.

Lemma pop_nil q : repr q [] -> pop q = Ret (q, None).
Proof. intros [Hl _ _ _ _]. unfold pop. by rewrite Hl. Qed.

Lemma pop_cons q x xs :
  repr q (x :: xs) ->
  exists q', pop q = Ret (q', Some x) /\ repr q' xs /\ queue_size q' = queue_size q.
Proof.
  intros H. pose proof H as [Hl Hc Hh Ht Hs]. simpl in *. unfold queue_size.
  assert (Hh' : head q < length (queue q)) by lia.
  unfold pop. rewrite Hl. simpl.
  pose proof (Hs 0 ltac:(lia)) as H0. rewrite slot_0 in H0 by lia. simpl in H0.
  rewrite (index_Some _ _ _ H0), index_set_lt by done. simpl.
  eexists; split; [done|]. split; [|simpl; by rewrite length_insert].
  split; simpl; rewrite ?length_insert; try lia.
  - left. by apply advance_lt.
  - by rewrite Ht, slot_succ_head by done.
  - intros i Hi. rewrite slot_succ_head by done.
    destruct (decide (S i = length (queue q))) as [He|Hn].
    + rewrite He, slot_cap, list_lookup_insert_eq by lia.
      rewrite lookup_ge_None_2; [done|lia].
    + rewrite list_lookup_insert_ne.
      * rewrite Hs by lia. done.
      * rewrite <-(slot_0 (length (queue q)) (head q)) at 1 by lia.
        intros He. apply slot_inj in He; lia.
Qed.

Lemma head_ref_spec q xs :
  repr q xs -> 0 < queue_size q -> head_ref q = Ret (list.head xs).
Proof.
  intros H Hp. unfold queue_size in Hp. pose proof H as [_ _ Hh _ Hs].
  unfold head_ref. apply index_Some. specialize (Hs 0 Hp).
  rewrite slot_0 in Hs by lia. rewrite Hs. by destruct xs.
Qed.

Lemma iter_from_spec q xs n i :
  repr q xs -> i + n = length xs ->
  iter_from q n (slot (length (queue q)) (head q) i) = Ret (drop i xs).
Proof.
  intros H. revert i. induction n as [|n IH]; intros i Hi; simpl.
  - by rewrite drop_ge by lia.
  - assert (is_Some (xs !! i)) as [x Hx] by (apply lookup_lt_is_Some; lia).
    rewrite (index_Some _ _ (Some x)) by (by eapply repr_lookup_slot). simpl.
    pose proof (repr_cap q xs H).
    rewrite advance_slot, IH by lia. simpl. by rewrite (drop_S xs x i).
Qed.

Lemma iter_spec q xs : repr q xs -> iter q = Ret xs.
Proof.
  intros H. unfold iter. rewrite (repr_len q xs H).
  pose proof (iter_from_spec q xs (length xs) 0 H eq_refl) as Hi.
  destruct (repr_head q xs H) as [Hh|[Hc Hh]].
  - by rewrite slot_0 in Hi.
  - pose proof (repr_cap q xs H). destruct xs; [done|simpl in *; lia].
Qed.

End proofs.

(** ** The abstract bounded FIFO and the refinement *)

Section refinement.
Context {T : Type}.

Inductive op : Type := OPush (d : T) | OPop | OHead | OIter | OFull.

Inductive out : Type :=
| RPush (r : result unit T)
| RPop (r : option T)
| RHead (r : option T)
| RIter (r : list T)
| RFull (b : bool).

(** One call on the concrete queue. *)
Definition step (q : RingQ T) (o : op) : outcome (RingQ T * out) :=
  match o with
  | OPush d => '(q', r) ← push q d; Ret (q', RPush r)
  | OPop => '(q', r) ← pop q; Ret (q', RPop r)
  | OHead => r ← head_ref q; Ret (q, RHead r)
  | OIter => r ← iter q; Ret (q, RIter r)
  | OFull => Ret (q, RFull (is_full q))
  end.

(** The same call on a list of at most [cap] elements. *)
Definition spec_step (cap : nat) (xs : list T) (o : op) : list T * out :=
  match o with
  | OPush d =>
      if decide (length xs < cap) then (xs ++ [d], RPush (Ok tt)) else (xs, RPush (Err d))
  | OPop => (list.tail xs, RPop (list.head xs))
  | OHead => (xs, RHead (list.head xs))
  | OIter => (xs, RIter xs)
  | OFull => (xs, RFull (bool_decide (length xs = cap)))
  end.

Fixpoint run (q : RingQ T) (os : list op) : outcome (list out) :=
  match os with
  | [] => Ret []
  | o :: os' => '(q', r) ← step q o; rs ← run q' os'; Ret (r :: rs)
  end.

Fixpoint spec_run (cap : nat) (xs : list T) (os : list op) : list out :=
  match os with
  | [] => []
  | o :: os' => (spec_step cap xs o).2 :: spec_run cap (spec_step cap xs o).1 os'
  end.

Lemma step_refines cap q xs o :
  0 < cap -> repr q xs -> queue_size q = cap ->
  exists q', step q o = Ret (q', (spec_step cap xs o).2) /\
    repr q' (spec_step cap xs o).1 /\ queue_size q' = cap.
Proof.
  intros Hp Hr <-. destruct o as [d| | | |]; simpl.
  - case_decide as Hl.
    + destruct (push_room q xs d Hr Hl) as (q' & -> & ? & ?). by exists q'.
    + rewrite (push_full q xs d Hr) by (pose proof (repr_cap q xs Hr); unfold queue_size in *; lia).
      by exists q.
  - destruct xs as [|x xs].
    + rewrite (pop_nil q Hr). by exists q.
    + destruct (pop_cons q x xs Hr) as (q' & -> & ? & ?). by exists q'.
  - rewrite (head_ref_spec q xs Hr Hp). by exists q.
  - rewrite (iter_spec q xs Hr). by exists q.
  - exists q. by rewrite (repr_is_full q xs Hr).
Qed.

Lemma run_refines cap q xs os :
  0 < cap -> repr q xs -> queue_size q = cap -> run q os = Ret (spec_run cap xs os).
Proof.
  intros Hp. revert q xs. induction os as [|o os IH]; intros q xs Hr Hc; simpl; [done|].
  destruct (step_refines cap q xs o Hp Hr Hc) as (q' & -> & Hr' & Hc'). simpl.
  by rewrite (IH _ _ Hr' Hc').
Qed.

End refinement.



End RingQ.
