(* ===== verification/PriorityQueue.v ===== *)
(** * The priority queue of [awkernel_lib/src/priority_queue.rs]

    32 FIFO levels and a [u32] with one bit per level that has an entry.
    [pop] finds the level with [leading_zeros].  The queue refines a list of
    prioritised values in arrival order from which [pop] takes the first value
    of the highest priority. *)

From S2P Require Import Prelude.

Module PriorityQueue.

Definition HIGHEST_PRIORITY : nat := 31.
Definition NLEVELS : nat := S HIGHEST_PRIORITY.

(** [struct PriorityQueue<T>]; [has_entry] is a [u32]. *)
Record PriorityQueue (T : Type) : Type := mkPQ {
  queue : list (list T);
  has_entry : Z
}.
Arguments mkPQ {T} _ _.
Arguments queue {T} _.
Arguments has_entry {T} _.

(** [u32::leading_zeros]. *)
Definition leading_zeros32 (x : Z) : Z :=
  (if x =? 0 then 32 else 31 - Z.log2 x)%Z.

Section ops.
Context {T : Type}.

(** [PriorityQueue::new]. *)
Definition new : PriorityQueue T := mkPQ (replicate NLEVELS []) 0.

(** [PriorityQueue::push]; the priority is a [u8]. *)
Definition push (q : PriorityQueue T) (priority : nat) (val : T) : outcome (PriorityQueue T) :=
  let priority := Nat.min priority HIGHEST_PRIORITY in
  level ← index (queue q) priority;
  queue' ← index_set (queue q) priority (level ++ [val]);
  Ret (mkPQ queue' (Z.lor (has_entry q) (Z.shiftl 1 (Z.of_nat priority)))).

(** [PriorityQueue::pop]. *)
Definition pop (q : PriorityQueue T) : outcome (PriorityQueue T * option T) :=
  if (has_entry q =? 0)%Z then Ret (q, None)
  else
    let next_priority := ((32 - 1) - leading_zeros32 (has_entry q))%Z in
    level ← index (queue q) (Z.to_nat next_priority);
    match level with
    | [] => Panic (* [assert!(next.is_some())] *)
    | next :: level' =>
        queue' ← index_set (queue q) (Z.to_nat next_priority) level';
        let has_entry' :=
          match level' with
          | [] => Z.land (has_entry q) (bnot 32 (Z.shiftl 1 next_priority))
          | _ => has_entry q
          end in
        Ret (mkPQ queue' has_entry', Some next)
    end.

End ops.

(** ** Invariant *)

Record wf {T} (q : PriorityQueue T) : Prop := mkWf {
  wf_levels : length (queue q) = NLEVELS;
  wf_u32 : is_uint 32 (has_entry q);
  wf_bits : forall i level, queue q !! i = Some level ->
    Z.testbit (has_entry q) (Z.of_nat i) = bool_decide (level <> [])
}.

Section proofs.
Context {T : Type}.
Implicit Types q : PriorityQueue T.

Lemma new_wf : wf (new (T:=T)).
Proof.
  split; [done|unfold is_uint; simpl; lia|].
  intros i level Hi. change (has_entry new) with 0%Z. rewrite Z.testbit_0_l.
  change (queue new) with (replicate (A:=list T) NLEVELS []) in Hi.
  apply lookup_replicate in Hi as [-> _]. done.
Qed.

Lemma wf_level q i : wf q -> i < NLEVELS -> exists level, queue q !! i = Some level.
Proof. intros H Hi. apply lookup_lt_is_Some. by rewrite (wf_levels q H). Qed.

Lemma push_spec q p v :
  wf q -> exists level,
    let p' := Nat.min p HIGHEST_PRIORITY in
    queue q !! p' = Some level /\
    push q p v =
      Ret (mkPQ (<[p' := level ++ [v]]> (queue q))
                (Z.lor (has_entry q) (Z.shiftl 1 (Z.of_nat p')))).
Proof.
  intros H. assert (Hp : Nat.min p HIGHEST_PRIORITY < NLEVELS)
    by (unfold NLEVELS, HIGHEST_PRIORITY; lia).
  destruct (wf_level q _ H Hp) as [level Hl]. exists level. split; [done|].
  unfold push. rewrite (index_Some _ _ _ Hl). simpl.
  rewrite index_set_lt by (by rewrite (wf_levels q H)). done.
Qed.

Lemma push_wf q p v q' : wf q -> push q p v = Ret q' -> wf q'.
Proof.
  intros H. destruct (push_spec q p v H) as (level & Hl & ->). intros [= <-].
  set (p' := Nat.min p HIGHEST_PRIORITY) in *.
  assert (Hp : p' <= 31) by (unfold p', HIGHEST_PRIORITY; lia).
  split; simpl.
  - rewrite length_insert. apply H.
  - pose proof (wf_u32 q H) as Hu. apply is_uint_testbit; [lia| |].
    + apply Z.lor_nonneg. split; [apply Hu|]. rewrite Z.shiftl_1_l. lia.
    + intros i Hi. rewrite Z.lor_spec, (testbit_above 32 _ i Hu), testbit_bit by lia.
      apply bool_decide_eq_false. lia.
  - intros i l Hi. rewrite Z.lor_spec, testbit_bit by lia.
    destruct (decide (i = p')) as [->|Hn].
    + rewrite list_lookup_insert_eq in Hi by (by eapply lookup_lt_Some).
      injection Hi as <-. rewrite (bool_decide_eq_true_2 (_ = _)), orb_true_r by done.
      symmetry. apply bool_decide_eq_true. by destruct level.
    + rewrite list_lookup_insert_ne in Hi by done.
      rewrite (wf_bits q H _ _ Hi), (bool_decide_eq_false_2 (Z.of_nat i = _)) by lia.
      by rewrite orb_false_r.
Qed.

(** The highest set bit is the highest non-empty level. *)
Lemma highest_level q :
  wf q -> has_entry q <> 0%Z ->
  let h := Z.to_nat (Z.log2 (has_entry q)) in
  h < NLEVELS /\
  (exists x level, queue q !! h = Some (x :: level)) /\
  (forall i level, queue q !! i = Some level -> h < i -> level = []).
Proof.
  intros H Hne h. pose proof (wf_u32 q H) as [Hu1 Hu2].
  assert (Hlog : (0 <= Z.log2 (has_entry q) < 32)%Z).
  { split; [apply Z.log2_nonneg|]. apply Z.log2_lt_pow2; lia. }
  assert (Hh : h < NLEVELS) by (unfold h, NLEVELS, HIGHEST_PRIORITY; lia).
  split; [done|]. split.
  - destruct (wf_level q h H Hh) as [level Hl].
    pose proof (wf_bits q H _ _ Hl) as Hb. unfold h in Hb.
    rewrite Z2Nat.id, Z.bit_log2 in Hb by lia. symmetry in Hb.
    apply bool_decide_eq_true in Hb. destruct level as [|x level]; [done|]. eauto.
  - intros i level Hi Hlt. pose proof (wf_bits q H _ _ Hi) as Hb.
    rewrite Z.bits_above_log2 in Hb by lia. symmetry in Hb.
    apply bool_decide_eq_false in Hb. by apply dec_stable.
Qed.

Lemma pop_none q : wf q -> has_entry q = 0%Z -> pop q = Ret (q, None).
Proof. intros _ H. unfold pop. by rewrite H. Qed.

Lemma pop_some q :
  wf q -> has_entry q <> 0%Z ->
  let h := Z.to_nat (Z.log2 (has_entry q)) in
  exists x level,
    queue q !! h = Some (x :: level) /\
    pop q = Ret (mkPQ (<[h := level]> (queue q))
      (match level with
       | [] => Z.land (has_entry q) (bnot 32 (Z.shiftl 1 (Z.log2 (has_entry q))))
       | _ => has_entry q
       end), Some x).
Proof.
  intros H Hne h. destruct (highest_level q H Hne) as (Hh & (x & level & Hl) & _).
  exists x, level. split; [done|]. unfold pop, leading_zeros32.
  rewrite (proj2 (Z.eqb_neq _ _)) by done.
  replace (32 - 1 - (31 - Z.log2 (has_entry q)))%Z with (Z.log2 (has_entry q)) by lia.
  rewrite (index_Some _ _ _ Hl). simpl.
  rewrite index_set_lt by (by rewrite (wf_levels q H)). done.
Qed.

Lemma pop_wf q q' r : wf q -> pop q = Ret (q', r) -> wf q'.
Proof.
  intros H. destruct (decide (has_entry q = 0%Z)) as [Hz|Hz].
  { rewrite pop_none by done. by intros [= <- <-]. }
  destruct (pop_some q H Hz) as (x & level & Hl & ->). intros [= <- <-].
  pose proof (highest_level q H Hz) as (Hh & _ & _).
  set (h := Z.to_nat (Z.log2 (has_entry q))) in *.
  assert (Hlog : (0 <= Z.log2 (has_entry q) < 32)%Z).
  { unfold h, NLEVELS, HIGHEST_PRIORITY in Hh. pose proof (Z.log2_nonneg (has_entry q)). lia. }
  assert (Hsame : forall i l, i <> h -> <[h:=level]> (queue q) !! i = Some l ->
    Z.testbit (has_entry q) (Z.of_nat i) = bool_decide (l <> [])).
  { intros i l Hn Hi. rewrite list_lookup_insert_ne in Hi by done. by apply (wf_bits q H). }
  pose proof (wf_u32 q H) as Hu.
  assert (Hlen : h < length (queue q)) by (by rewrite (wf_levels q H)).
  destruct level as [|y level]; split; simpl; rewrite ?length_insert; try apply H.
  - apply is_uint_testbit; [lia|apply Z.land_nonneg; left; apply Hu|].
    intros i Hi. by rewrite Z.land_spec, (testbit_above 32 _ i Hu) by lia.
  - intros i l Hi. rewrite Z.land_spec.
    assert (i < 32)%nat as Hi32.
    { apply lookup_lt_Some in Hi. rewrite length_insert, (wf_levels q H) in Hi. apply Hi. }
    rewrite testbit_bnot, testbit_bit by lia.
    destruct (decide (i = h)) as [->|Hn].
    + rewrite list_lookup_insert_eq in Hi by done. injection Hi as <-.
      rewrite (bool_decide_eq_true_2 (Z.of_nat h = _)) by (unfold h; lia).
      by rewrite andb_false_r.
    + rewrite (Hsame i l Hn Hi), (bool_decide_eq_false_2 (Z.of_nat i = _)), andb_true_r;
        [done|unfold h in Hn; lia].
  - intros i l Hi. destruct (decide (i = h)) as [->|Hn]; [|by apply Hsame].
    rewrite list_lookup_insert_eq in Hi by done. injection Hi as <-.
    by rewrite (wf_bits q H _ _ Hl).
Qed.

(** ** Refinement of a stable priority list *)

(** The abstract queue: values with their (clamped) priority in arrival order. *)
Definition level_of (i : nat) (l : list (nat * T)) : list T :=
  (filter (fun pv => pv.1 = i) l).*2.

Definition repr q (l : list (nat * T)) : Prop :=
  wf q /\ Forall (fun pv => pv.1 <= HIGHEST_PRIORITY) l /\
  forall i, i < NLEVELS -> queue q !! i = Some (level_of i l).

Definition spec_push (l : list (nat * T)) (p : nat) (v : T) : list (nat * T) :=
  l ++ [(Nat.min p HIGHEST_PRIORITY, v)].

(** [v], of priority [p], is the first element of the highest priority of [l]
    and [l'] is what is left. *)
Definition spec_pop (l : list (nat * T)) (v : T) (l' : list (nat * T)) : Prop :=
  exists p l1 l2, l = l1 ++ (p, v) :: l2 /\ l' = l1 ++ l2 /\
    Forall (fun pv => pv.1 < p) l1 /\ Forall (fun pv => pv.1 <= p) l2.

Lemma level_of_app i l1 l2 : level_of i (l1 ++ l2) = level_of i l1 ++ level_of i l2.
Proof. unfold level_of. by rewrite filter_app, fmap_app. Qed.

Lemma level_of_cons i p v l :
  level_of i ((p, v) :: l) = (if decide (p = i) then [v] else []) ++ level_of i l.
Proof.
  unfold level_of. rewrite filter_cons. simpl. by case_decide.
Qed.

Lemma level_of_nil_iff i l : level_of i l = [] <-> Forall (fun pv => pv.1 <> i) l.
Proof.
  induction l as [|[p v] l IH]; [done|]. rewrite level_of_cons, Forall_cons, <-IH. simpl.
  case_decide; naive_solver.
Qed.

Lemma level_of_cons_inv i l x xs :
  level_of i l = x :: xs ->
  exists l1 l2, l = l1 ++ (i, x) :: l2 /\ level_of i l1 = [] /\ level_of i l2 = xs.
Proof.
  induction l as [|[p v] l IH]; [done|]. rewrite level_of_cons. case_decide as Hp; simpl.
  - intros [= -> <-]. subst. by exists [], l.
  - intros Hx. destruct (IH Hx) as (l1 & l2 & -> & H1 & H2).
    exists ((p, v) :: l1), l2. rewrite level_of_cons, decide_False by done. done.
Qed.

Lemma repr_new : repr new [].
Proof.
  split; [apply new_wf|]. split; [done|]. intros i Hi.
  change (queue new) with (replicate (A:=list T) NLEVELS []).
  by rewrite lookup_replicate_2.
Qed.

Lemma repr_push q l p v :
  repr q l -> exists q', push q p v = Ret q' /\ repr q' (spec_push l p v).
Proof.
  intros (H & Hb & Hl). destruct (push_spec q p v H) as (level & Hp & He).
  eexists; split; [done|]. split; [by eapply push_wf|].
  set (p' := Nat.min p HIGHEST_PRIORITY) in *.
  assert (Hp' : p' <= HIGHEST_PRIORITY) by (unfold p'; lia).
  split; [apply Forall_app; split; [done|]; by constructor|].
  intros i Hi. simpl. unfold spec_push. rewrite level_of_app. simpl.
  rewrite level_of_cons. fold p'. destruct (decide (p' = i)) as [<-|Hn].
  - rewrite list_lookup_insert_eq by (by eapply lookup_lt_Some).
    rewrite Hl in Hp by (unfold NLEVELS; lia). injection Hp as <-. by rewrite !app_nil_r.
  - rewrite list_lookup_insert_ne, Hl by done. simpl. by rewrite app_nil_r.
Qed.

Lemma repr_pop_nil q : repr q [] -> pop q = Ret (q, None).
Proof.
  intros (H & _ & Hl). apply pop_none; [done|]. apply dec_stable. intros Hz.
  destruct (highest_level q H Hz) as (Hh & (x & level & Hx) & _).
  rewrite Hl in Hx by done. done.
Qed.

Lemma repr_pop_cons q l :
  repr q l -> l <> [] ->
  exists q' v l', pop q = Ret (q', Some v) /\ spec_pop l v l' /\ repr q' l'.
Proof.
  intros (H & Hb & Hl) Hne.
  assert (Hz : has_entry q <> 0%Z).
  { destruct l as [|[p v] l]; [done|]. intros Hz.
    inversion Hb as [|? ? Hp _]; subst. simpl in Hp.
    pose proof (wf_bits q H p _ (Hl p ltac:(unfold NLEVELS; lia))) as Hbit.
    rewrite Hz, Z.testbit_0_l in Hbit. symmetry in Hbit. apply bool_decide_eq_false in Hbit.
    apply Hbit. by rewrite level_of_cons, decide_True. }
  pose proof (highest_level q H Hz) as (Hh & _ & Habove).
  destruct (pop_some q H Hz) as (x & level & Hx & He).
  set (h := Z.to_nat (Z.log2 (has_entry q))) in *.
  pose proof (Hl h Hh) as Hlh. rewrite Hx in Hlh. injection Hlh as Hlh. symmetry in Hlh.
  destruct (level_of_cons_inv h l x level Hlh) as (l1 & l2 & -> & H1 & H2).
  assert (Hle : Forall (fun pv => pv.1 <= h) (l1 ++ (h, x) :: l2)).
  { apply Forall_forall. intros [p v] Hin.
    assert (Hp : p < NLEVELS).
    { rewrite Forall_forall in Hb. specialize (Hb _ Hin). unfold NLEVELS. simpl in *. lia. }
    destruct (decide (h < p)) as [Hlt|]; [|simpl; lia].
    specialize (Habove p _ (Hl p Hp) Hlt). rewrite level_of_nil_iff, Forall_forall in Habove.
    by destruct (Habove _ Hin). }
  eexists _, x, (l1 ++ l2). split; [done|]. apply Forall_app in Hle as [Hle1 Hle2].
  apply Forall_cons in Hle2 as [_ Hle2]. split.
  - exists h, l1, l2. repeat split; try done. apply Forall_forall. intros pv Hin.
    apply level_of_nil_iff in H1. rewrite Forall_forall in H1, Hle1.
    specialize (H1 _ Hin). specialize (Hle1 _ Hin). simpl in *. lia.
  - split; [by eapply pop_wf|]. split.
    { apply Forall_app in Hb as [Hb1 Hb2]. apply Forall_cons in Hb2 as [_ Hb2].
      by apply Forall_app. }
    intros i Hi. simpl. destruct (decide (i = h)) as [->|Hn].
    + rewrite list_lookup_insert_eq by (by rewrite (wf_levels q H)).
      by rewrite level_of_app, H1, H2.
    + rewrite list_lookup_insert_ne, Hl by done.
      by rewrite !level_of_app, level_of_cons, decide_False by done.
Qed.

End proofs.

(** ** Runs *)

Section runs.
Context {T : Type}.

Inductive op : Type := OPush (p : nat) (v : T) | OPop.

(** What the calls of a run return, [None] for a push. *)
Fixpoint run (q : PriorityQueue T) (os : list op) : outcome (list (option T)) :=
  match os with
  | [] => Ret []
  | OPush p v :: os' => q' ← push q p v; run q' os'
  | OPop :: os' => '(q', r) ← pop q; rs ← run q' os'; Ret (r :: rs)
  end.

(** The runs of the abstract queue. *)
Inductive spec_run : list (nat * T) -> list op -> list (option T) -> Prop :=
| spec_run_nil l : spec_run l [] []
| spec_run_push l p v os rs :
    spec_run (spec_push l p v) os rs -> spec_run l (OPush p v :: os) rs
| spec_run_pop_none os rs : spec_run [] os rs -> spec_run [] (OPop :: os) (None :: rs)
| spec_run_pop_some l v l' os rs :
    spec_pop l v l' -> spec_run l' os rs -> spec_run l (OPop :: os) (Some v :: rs).

Lemma run_spec q l os : repr q l -> exists rs, run q os = Ret rs /\ spec_run l os rs.
Proof.
  revert q l. induction os as [|[p v|] os IH]; intros q l H; simpl.
  - eexists; split; [done|constructor].
  - destruct (repr_push q l p v H) as (q' & -> & H'). simpl.
    destruct (IH q' _ H') as (rs & -> & Hrs). eexists; split; [done|by constructor].
  - destruct (decide (l = [])) as [->|Hne].
    + rewrite (repr_pop_nil q H). simpl. destruct (IH q [] H) as (rs & -> & Hrs).
      eexists; split; [done|by constructor].
    + destruct (repr_pop_cons q l H Hne) as (q' & v & l' & -> & Hp & H'). simpl.
      destruct (IH q' l' H') as (rs & -> & Hrs). eexists; split; [done|].
      by econstructor.
Qed.

End runs.

(** C6: every sequence of pushes and pops on a fresh priority queue returns
    without a panic (the [assert!] of [pop] never fails and no level index is out
    of range), and each pop gives the first arrived value among those of the
    highest priority, priorities above 31 counting as 31, or [None] exactly when
    nothing is queued. *)
Theorem priority_queue_refines_stable_priority {T} (os : list (@op T)) :
  exists rs, run new os = Ret rs /\ spec_run [] os rs.
Proof. apply run_spec, repr_new. Qed.

End PriorityQueue.
