(* ===== verification/DeltaList.v ===== *)
(** * The delta list and the sleeping tasks built on it

    [Module DeltaList] translates [awkernel_lib_verified/src/delta_list.rs]: a
    list of timers in which each element holds the time from its predecessor.
    [Module Instant] has the arithmetic of [awkernel_lib/src/time.rs] and
    [Module Sleeping] the [SleepingTasks] of
    [awkernel_async_lib/src/scheduler.rs], which keep a base time next to the
    list.  Times are nanoseconds. *)

From S2P Require Import Prelude.
From Stdlib Require Import Sorting.Sorted.
Local Open Scope Z_scope.

Module DeltaList.

(** [enum DeltaList<T>]; the delta is a [u64]. *)
Inductive DeltaList (T : Type) : Type :=
| Cons (delta : Z) (data : T) (next : DeltaList T)
| Nil.
Arguments Cons {T} _ _ _.
Arguments Nil {T}.

Section ops.
Context {T : Type}.

(** [insert_delta]: the loop walks the list, subtracting what it passes. *)
Fixpoint insert_delta (dl : DeltaList T) (delta : Z) (data : T) : DeltaList T :=
  match dl with
  | Nil => Cons delta data Nil
  | Cons d x next =>
      if delta <? d then Cons delta data (Cons (d - delta) x next)
      else Cons d x (insert_delta next (delta - d) data)
  end.

(** [DeltaList::insert]. *)
Definition insert (dl : DeltaList T) (dur : Z) (data : T) : DeltaList T :=
  insert_delta dl dur data.

(** [DeltaList::front]. *)
Definition front (dl : DeltaList T) : option (Z * T) :=
  match dl with Cons d x _ => Some (d, x) | Nil => None end.

(** [DeltaList::pop]: the head, cut off, and the list that stays. *)
Definition pop (dl : DeltaList T) : option (DeltaList T) * DeltaList T :=
  match dl with Cons d x next => (Some (Cons d x Nil), next) | Nil => (None, Nil) end.

(** [DeltaList::is_empty]. *)
Definition is_empty (dl : DeltaList T) : bool :=
  match dl with Nil => true | _ => false end.

(** ** The timers a list stands for *)

(** Absolute expiry times, [b] being the time the first delta counts from. *)
Fixpoint expiries (b : Z) (dl : DeltaList T) : list (Z * T) :=
  match dl with
  | Nil => []
  | Cons d x next => (b + d, x) :: expiries (b + d) next
  end.

(** Every delta is a [u64]. *)
Fixpoint deltas_ok (dl : DeltaList T) : Prop :=
  match dl with
  | Nil => True
  | Cons d _ next => is_uint 64 d /\ deltas_ok next
  end.

(** Insertion into a list sorted by time, after the entries of equal time. *)
Fixpoint insert_sorted (t : Z) (x : T) (l : list (Z * T)) : list (Z * T) :=
  match l with
  | [] => [(t, x)]
  | (t', y) :: l' => if t <? t' then (t, x) :: l else (t', y) :: insert_sorted t x l'
  end.

Definition by_time (a b : Z * T) : Prop := a.1 <= b.1.

Lemma expiries_insert b dl dur x :
  expiries b (insert dl dur x) = insert_sorted (b + dur) x (expiries b dl).
Proof.
  unfold insert. revert b dur. induction dl as [d y next IH|]; intros b dur; simpl; [|done].
  destruct (Z.ltb_spec dur d) as [Hlt|Hge]; simpl.
  - rewrite (proj2 (Z.ltb_lt _ _)) by lia. by replace (b + dur + (d - dur)) with (b + d) by lia.
  - rewrite (proj2 (Z.ltb_ge (b + dur) (b + d))) by lia. rewrite IH.
    by replace (b + d + (dur - d)) with (b + dur) by lia.
Qed.

Lemma deltas_ok_insert dl dur x :
  is_uint 64 dur -> deltas_ok dl -> deltas_ok (insert dl dur x).
Proof.
  unfold insert, is_uint. revert dur.
  induction dl as [d y next IH|]; intros dur Hd Hok; simpl; [|done].
  destruct Hok as [Hd' Hok]. unfold is_uint in *. destruct (Z.ltb_spec dur d); simpl.
  - unfold is_uint. repeat split; try lia. done.
  - split; [done|]. apply IH; [lia|done].
Qed.

Lemma expiries_le b dl t x : deltas_ok dl -> (t, x) ∈ expiries b dl -> b <= t.
Proof.
  revert b. induction dl as [d y next IH|]; simpl; intros b Hok Hin; [|by apply elem_of_nil in Hin].
  destruct Hok as [[Hd _] Hok]. apply elem_of_cons in Hin as [[= -> ->]|Hin]; [lia|].
  specialize (IH _ Hok Hin). lia.
Qed.

Lemma expiries_sorted b dl : deltas_ok dl -> StronglySorted by_time (expiries b dl).
Proof.
  revert b. induction dl as [d y next IH|]; simpl; intros b Hok; [|constructor].
  destruct Hok as [[Hd _] Hok]. constructor; [by apply IH|].
  apply Forall_forall. intros [t x] Hin. by apply (expiries_le _ _ _ _ Hok Hin).
Qed.

Lemma insert_sorted_perm t x (l : list (Z * T)) : insert_sorted t x l ≡ₚ (t, x) :: l.
Proof.
  induction l as [|[t' y] l IH]; simpl; [done|]. case_if; [done|]. rewrite IH. apply Permutation_swap.
Qed.

End ops.

(** The list after inserting timers one by one. *)
Definition insert_all {T} (ts : list (Z * T)) : DeltaList T :=
  fold_left (fun l t => insert l t.1 t.2) ts Nil.

(** The timers a run of [front] and [pop] meets, oldest first; each delta is
    read from [front] and counted on. *)
Fixpoint drain {T} (fuel : nat) (b : Z) (l : DeltaList T) : list (Z * T) :=
  match fuel, front l with
  | S fuel', Some (d, x) => (b + d, x) :: drain fuel' (b + d) (pop l).2
  | _, _ => []
  end.

Lemma drain_expiries {T} fuel b (l : DeltaList T) :
  (length (expiries b l) <= fuel)%nat -> drain fuel b l = expiries b l.
Proof.
  revert b l. induction fuel as [|fuel IH]; intros b [d x next|]; simpl; intros Hl; try done; [lia|].
  f_equal. apply IH. lia.
Qed.

Lemma insert_all_spec {T} (ts : list (Z * T)) (l : DeltaList T) b :
  Forall (fun t => is_uint 64 t.1) ts -> deltas_ok l ->
  let l' := fold_left (fun l t => insert l t.1 t.2) ts l in
  deltas_ok l' /\ expiries b l' ≡ₚ ((fun t => (b + t.1, t.2)) <$> ts) ++ expiries b l.
Proof.
  revert l. induction ts as [|[t x] ts IH]; intros l Hts Hl; simpl; [done|].
  apply Forall_cons in Hts as [Ht Hts].
  destruct (IH (insert l t x) Hts (deltas_ok_insert l t x Ht Hl)) as [H1 H2].
  split; [done|]. rewrite H2, expiries_insert, insert_sorted_perm. simpl.
  by rewrite Permutation_middle.
Qed.

(** After any sequence of [insert] calls with [u64] durations, reading and
    popping the list from the front gives every inserted timer exactly once, at
    the absolute time it was inserted with, in order of expiry; no delta leaves
    the range of [u64]. *)
Theorem delta_list_sorts_timers {T} (ts : list (Z * T)) :
  Forall (fun t => is_uint 64 t.1) ts ->
  deltas_ok (insert_all ts) /\
  drain (length ts) 0 (insert_all ts) ≡ₚ ts /\
  StronglySorted by_time (drain (length ts) 0 (insert_all ts)).
Proof.
  intros Hts. destruct (insert_all_spec ts Nil 0 Hts I) as [Hok Hp].
  fold (insert_all ts) in Hok, Hp. simpl in Hp. rewrite app_nil_r in Hp.
  rewrite (list_fmap_ext _ id) in Hp by (by intros ? []). rewrite list_fmap_id in Hp.
  rewrite drain_expiries by (by rewrite Hp).
  split; [done|]. split; [done|]. by apply expiries_sorted.
Qed.

Lemma delta_list_sorts_timers_witness :
  Forall (fun t : Z * nat => is_uint 64 t.1) [(10, 0%nat); (30, 1%nat); (13, 2%nat); (10, 3%nat)] /\
  drain 4 0 (insert_all [(10, 0%nat); (30, 1%nat); (13, 2%nat); (10, 3%nat)]) =
    [(10, 0%nat); (10, 3%nat); (13, 2%nat); (30, 1%nat)] /\
  deltas_ok (insert_all [(10, 0%nat); (30, 1%nat); (13, 2%nat); (10, 3%nat)]).
Proof.
  assert (H : Forall (fun t : Z * nat => is_uint 64 t.1)
    [(10, 0%nat); (30, 1%nat); (13, 2%nat); (10, 3%nat)])
    by (repeat constructor; simpl; lia).
  split; [exact H|]. split; [reflexivity|].
  exact (proj1 (delta_list_sorts_timers _ H)).
Defined.

End DeltaList.

Module Instant.

(** [Instant::elapsed] with the clock reading [now]; the difference is cut to
    [u64]. *)
Definition elapsed (uptime now : Z) : Z :=
  if uptime <? now then wrap 64 (now - uptime) else 0.

(** [Instant::saturating_duration_since], which is [Instant - Instant]. *)
Definition saturating_duration_since (uptime earlier : Z) : Z :=
  if earlier <? uptime then Z.min (uptime - earlier) (2 ^ 64 - 1) else 0.

(** [Instant::checked_sub]. *)
Definition checked_sub (uptime duration : Z) : option Z :=
  if duration <=? uptime then Some (uptime - duration) else None.

Lemma elapsed_spec uptime now :
  0 <= uptime -> now < 2 ^ 64 -> elapsed uptime now = Z.max 0 (now - uptime).
Proof.
  intros H1 H2. unfold elapsed. destruct (Z.ltb_spec uptime now); [|lia].
  rewrite wrap_id; [lia|]. unfold is_uint. lia.
Qed.

End Instant.

Module Sleeping.
Import DeltaList.

(** [struct SleepingTasks]; a handler is its identity [H]. *)
Record SleepingTasks (H : Type) : Type := mkSleeping {
  delta_list : DeltaList H;
  base_time : Z
}.
Arguments mkSleeping {H} _ _.
Arguments delta_list {H} _.
Arguments base_time {H} _.

(** The greatest [core::time::Duration], in nanoseconds. *)
Definition DURATION_MAX : Z := (2 ^ 64 - 1) * 1000000000 + 999999999.

(** [Duration + Duration], which panics on overflow. *)
Definition duration_add (a b : Z) : outcome Z :=
  if a + b <=? DURATION_MAX then Ret (a + b) else Panic.

Section ops.
Context {H : Type}.
Implicit Types st : SleepingTasks H.

(** [SleepingTasks::new]. *)
Definition new : SleepingTasks H := mkSleeping Nil 0.

(** [SleepingTasks::sleep_task]; either branch reads the clock once. *)
Definition sleep_task st (handler : H) (dur : Z) (now : Z) : outcome (SleepingTasks H) :=
  if is_empty (delta_list st) then
    Ret (mkSleeping (insert (delta_list st) (wrap 64 dur) handler) now)
  else
    let diff := Instant.elapsed (base_time st) now in
    dur ← duration_add dur diff;
    Ret (mkSleeping (insert (delta_list st) (wrap 64 dur) handler) (base_time st)).

(** [SleepingTasks::sleep_until_task]. *)
Definition sleep_until_task st (handler : H) (next : Z) (now : Z) : SleepingTasks H :=
  let base := if is_empty (delta_list st) then now else base_time st in
  let dur := Instant.saturating_duration_since next base in
  mkSleeping (insert (delta_list st) (wrap 64 dur) handler) base.

(** [SleepingTasks::wake_task].  [clk i] is the [i]-th clock reading of the
    call; the loop reads the clock once per element.  The third component are
    the handlers invoked, in order. *)
Fixpoint wake_loop (l : DeltaList H) (base : Z) (clk : nat -> Z) : DeltaList H * Z * list H :=
  match l with
  | Nil => (Nil, base, [])
  | Cons dur handler next =>
      let elapsed := Instant.elapsed base (clk 0%nat) in
      if dur <=? elapsed then
        let '(l', base', fired) := wake_loop next (base + dur) (fun i => clk (S i)) in
        (l', base', handler :: fired)
      else (l, base, [])
  end.

Definition wake_task st (clk : nat -> Z) : SleepingTasks H * list H :=
  let '(l', base', fired) := wake_loop (delta_list st) (base_time st) clk in
  (mkSleeping l' base', fired).

(** [SleepingTasks::time_to_wait]. *)
Definition time_to_wait st (now : Z) : option Z :=
  match front (delta_list st) with
  | None => None
  | Some (dur, _) =>
      let elapsed := Instant.elapsed (base_time st) now in
      Some (if dur <=? elapsed then 0 else dur - elapsed)
  end.

(** ** What the state means *)

(** The pending handlers with the absolute times they are due at. *)
Definition deadlines st : list (Z * H) := expiries (base_time st) (delta_list st).

(** [now] is a current reading of a clock below [2^64] ns (584 years): the
    base time is not in the future. *)
Definition inv (now : Z) st : Prop :=
  0 <= base_time st /\ (delta_list st = Nil \/ base_time st <= now) /\ deltas_ok (delta_list st).

Lemma inv_later st now now' : inv now st -> now <= now' -> inv now' st.
Proof. intros (H1 & [H2|H2] & H3) Hle; repeat split; auto. right. lia. Qed.

Lemma sleep_task_spec st handler dur now :
  inv now st -> 0 <= now -> 0 <= dur -> now + dur < 2 ^ 64 ->
  exists st', sleep_task st handler dur now = Ret st' /\ inv now st' /\
    deadlines st' = insert_sorted (now + dur) handler (deadlines st).
Proof.
  intros (H1 & H2 & H3) Hn Hd Hb. unfold sleep_task.
  destruct (is_empty (delta_list st)) eqn:He.
  - destruct st as [[d x n|] b]; [done|]. eexists; split; [done|].
    rewrite wrap_id by (unfold is_uint; lia). split; [|done].
    repeat split; simpl; try lia.
  - assert (Hle : base_time st <= now).
    { destruct H2 as [H2|]; [|done]. by rewrite H2 in He. }
    rewrite Instant.elapsed_spec by lia. unfold duration_add.
    rewrite (proj2 (Z.leb_le _ _)) by (unfold DURATION_MAX; lia). simpl.
    eexists; split; [done|]. rewrite wrap_id by (unfold is_uint; lia). split.
    + repeat split; simpl; auto. apply deltas_ok_insert; [unfold is_uint; lia|done].
    + unfold deadlines. simpl. rewrite expiries_insert. f_equal. lia.
Qed.

(** The due time of a [sleep_until_task] call: [next], or the base time when
    [next] lies before it. *)
Definition until_due st (next now : Z) : Z :=
  Z.max (if is_empty (delta_list st) then now else base_time st) next.

Lemma sleep_until_task_spec st handler next now :
  inv now st -> 0 <= now -> next < 2 ^ 64 ->
  let st' := sleep_until_task st handler next now in
  inv now st' /\ deadlines st' = insert_sorted (until_due st next now) handler (deadlines st).
Proof.
  intros (H1 & H2 & H3) Hn Hb. unfold sleep_until_task.
  set (base := if is_empty (delta_list st) then now else base_time st).
  assert (Hbase : 0 <= base <= now).
  { unfold base. destruct (is_empty (delta_list st)) eqn:He; [lia|].
    destruct H2 as [H2|]; [|done]. by rewrite H2 in He. }
  assert (Hdur : Instant.saturating_duration_since next base = Z.max base next - base).
  { unfold Instant.saturating_duration_since. destruct (Z.ltb_spec base next); lia. }
  rewrite Hdur, wrap_id by (unfold is_uint; lia). split.
  - repeat split; simpl; [lia|right; lia|]. apply deltas_ok_insert; [unfold is_uint; lia|done].
  - unfold deadlines. simpl. rewrite expiries_insert.
    replace (base + (Z.max base next - base)) with (Z.max base next) by lia.
    unfold until_due, base. destruct st as [[d x n|] b]; done.
Qed.

(** The clock of one call is read in order and does not go back. *)
Definition monotone_from (now : Z) (clk : nat -> Z) : Prop :=
  now <= clk 0%nat /\ (forall i, clk i <= clk (S i)) /\ forall i, clk i < 2 ^ 64.

Lemma monotone_le now clk i : monotone_from now clk -> now <= clk i.
Proof. intros (H1 & H2 & _). induction i as [|i IH]; [done|]. specialize (H2 i). lia. Qed.

Lemma wake_loop_spec l base clk now :
  0 <= base <= now -> deltas_ok l -> monotone_from now clk ->
  let '(l', base', fired) := wake_loop l base clk in
  exists due,
    expiries base l = due ++ expiries base' l' /\ fired = due.*2 /\
    Forall (fun tx => tx.1 <= clk (length fired)) due /\
    (forall t x, head (expiries base' l') = Some (t, x) -> clk (length fired) < t) /\
    0 <= base' <= clk (length fired) /\ deltas_ok l'.
Proof.
  revert base clk now. induction l as [d x next IH|]; intros base clk now Hb Hok Hm; simpl.
  2:{ exists []. repeat split; simpl; try done; try lia. pose proof (monotone_le _ _ 0 Hm). lia. }
  destruct Hok as [[Hd1 Hd2] Hok]. pose proof (monotone_le _ _ 0 Hm) as H0.
  pose proof (proj2 (proj2 Hm) 0%nat) as Hc0.
  rewrite Instant.elapsed_spec by lia. destruct (Z.leb_spec d (Z.max 0 (clk 0%nat - base))) as [Hle|Hgt].
  - assert (Hm' : monotone_from (clk 0%nat) (fun i => clk (S i))).
    { destruct Hm as (_ & H2 & H3). repeat split; auto. }
    specialize (IH (base + d) (fun i => clk (S i)) (clk 0%nat) ltac:(lia) Hok Hm').
    destruct (wake_loop next (base + d) (fun i => clk (S i))) as [[l' base'] fired].
    destruct IH as (due & He & Hf & Hdue & Hhd & Hb' & Hok').
    exists ((base + d, x) :: due). simpl in *. rewrite He, Hf. repeat split; auto; try lia.
    + constructor; [|by rewrite <-Hf]. simpl.
      pose proof (monotone_le _ _ (length due.*2) Hm'). simpl in *. lia.
    + rewrite <-Hf. by apply Hhd.
    + rewrite <-Hf. lia.
  - exists []. simpl. repeat split; simpl; try done; try lia.
    intros t y [= <- <-]. lia.
Qed.

Lemma wake_task_inv st clk now :
  inv now st -> 0 <= now -> monotone_from now clk ->
  inv (clk (length (wake_task st clk).2)) (wake_task st clk).1.
Proof.
  intros (H1 & H2 & H3) Hn Hm. unfold wake_task. destruct H2 as [H2|H2].
  { rewrite H2. simpl. repeat split; auto. }
  pose proof (wake_loop_spec (delta_list st) (base_time st) clk now ltac:(lia) H3 Hm) as Hw.
  destruct (wake_loop _ _ _) as [[l' base'] fired].
  destruct Hw as (due & _ & _ & _ & _ & Hb & Hok). repeat split; simpl; auto; lia.
Qed.

End ops.

(** ** Histories of sleeps and wake-ups *)

Section histories.
Context {H : Type}.

(** [history now st log]: at clock reading [now] the state is [st], and [log]
    holds every handler invoked so far with its due time and the reading at
    which the call that invoked it stopped. *)
Inductive history : Z -> SleepingTasks H -> list (H * Z * Z) -> list (H * Z) -> Prop :=
| hist_init now : 0 <= now -> history now new [] []
| hist_time now now' st log reqs :
    history now st log reqs -> now <= now' -> history now' st log reqs
| hist_sleep now st st' log reqs h dur :
    history now st log reqs -> 0 <= dur -> now + dur < 2 ^ 64 ->
    sleep_task st h dur now = Ret st' ->
    history now st' log ((h, now + dur) :: reqs)
| hist_until now st log reqs h next :
    history now st log reqs -> next < 2 ^ 64 ->
    history now (sleep_until_task st h next now) log ((h, until_due st next now) :: reqs)
| hist_wake now st log reqs clk :
    history now st log reqs -> monotone_from now clk ->
    history (clk (length (wake_task st clk).2)) (wake_task st clk).1
      (zip_with (fun h t => (h, t, clk (length (wake_task st clk).2)))
         (wake_task st clk).2 (deadlines st).*1 ++ log) reqs.

Lemma zip_with_app_prefix {A B C} (f : A -> B -> C) (l1 : list A) (k1 k2 : list B) :
  length l1 = length k1 -> zip_with f l1 (k1 ++ k2) = zip_with f l1 k1.
Proof.
  revert k1. induction l1 as [|a l1 IH]; intros [|b k1]; simpl; try done; intros [=].
  by rewrite IH.
Qed.

Lemma history_inv now (st : SleepingTasks H) log reqs :
  history now st log reqs -> 0 <= now /\ inv now st.
Proof.
  induction 1 as [now Hn|now now' st log reqs _ [IH1 IH2] Hle
                 |now st st' log reqs h dur _ [IH1 IH2] Hd Hb Hs
                 |now st log reqs h next _ [IH1 IH2] Hx
                 |now st log reqs clk _ [IH1 IH2] Hm].
  - split; [done|]. repeat split; simpl; auto. lia.
  - split; [lia|]. by eapply inv_later.
  - split; [done|]. destruct (sleep_task_spec st h dur now IH2 IH1 Hd Hb) as (st2 & He & Hi & _).
    rewrite Hs in He. by injection He as <-.
  - split; [done|]. by apply sleep_until_task_spec.
  - split; [|by eapply wake_task_inv]. pose proof (monotone_le _ _ (length (wake_task st clk).2) Hm). lia.
Qed.

Lemma wake_task_due (st : SleepingTasks H) clk now :
  inv now st -> 0 <= now -> monotone_from now clk ->
  exists due, deadlines st = due ++ deadlines (wake_task st clk).1 /\
    (wake_task st clk).2 = due.*2 /\
    Forall (fun tx => tx.1 <= clk (length (wake_task st clk).2)) due /\
    (forall t x, (t, x) ∈ deadlines (wake_task st clk).1 -> clk (length (wake_task st clk).2) < t).
Proof.
  intros (H1 & H2 & H3) Hn Hm. unfold wake_task, deadlines.
  destruct H2 as [H2|H2].
  { rewrite H2. simpl. exists []. repeat split; try done. by intros ? ? ?%elem_of_nil. }
  pose proof (wake_loop_spec (delta_list st) (base_time st) clk now ltac:(lia) H3 Hm) as Hw.
  destruct (wake_loop _ _ _) as [[l' base'] fired]. simpl.
  destruct Hw as (due & He & Hf & Hdue & Hhd & _ & Hok). exists due. repeat split; auto.
  intros t x Hin. destruct (expiries base' l') as [|[t0 x0] rest] eqn:Ee;
    [by apply elem_of_nil in Hin|].
  specialize (Hhd t0 x0 eq_refl). pose proof (expiries_sorted base' l' Hok) as Hs.
  rewrite Ee in Hs. inversion Hs as [|? ? _ Hall]; subst.
  apply elem_of_cons in Hin as [[= -> ->]|Hin]; [done|].
  rewrite Forall_forall in Hall. specialize (Hall _ Hin). unfold by_time in Hall. simpl in Hall. lia.
Qed.

Lemma log_entries (due rest : list (Z * H)) (c : Z) :
  zip_with (fun (h : H) (t : Z) => (h, t, c)) due.*2 (due ++ rest).*1 = (fun tx : Z * H => (tx.2, tx.1, c)) <$> due.
Proof.
  induction due as [|[t x] due IH]; simpl; [done|]. f_equal. apply IH.
Qed.

Lemma history_requests now (st : SleepingTasks H) log reqs :
  history now st log reqs ->
  ((fun e : H * Z * Z => (e.1.1, e.1.2)) <$> log) ++ ((fun tx : Z * H => (tx.2, tx.1)) <$> deadlines st) ≡ₚ reqs.
Proof.
  induction 1 as [now Hn|now now' st log reqs Hh IH Hle
                 |now st st' log reqs h dur Hh IH Hd Hb Hs
                 |now st log reqs h next Hh IH Hx
                 |now st log reqs clk Hh IH Hm].
  - done.
  - done.
  - destruct (history_inv _ _ _ _ Hh) as [Hn Hi].
    destruct (sleep_task_spec st h dur now Hi Hn Hd Hb) as (st2 & He & _ & Hdl).
    rewrite Hs in He. injection He as <-. rewrite Hdl, insert_sorted_perm. simpl.
    by rewrite <-Permutation_middle, IH.
  - destruct (history_inv _ _ _ _ Hh) as [Hn Hi].
    destruct (sleep_until_task_spec st h next now Hi Hn Hx) as [_ Hdl].
    rewrite Hdl, insert_sorted_perm. simpl. by rewrite <-Permutation_middle, IH.
  - destruct (history_inv _ _ _ _ Hh) as [Hn Hi].
    destruct (wake_task_due st clk now Hi Hn Hm) as (due & He & Hf & _ & _).
    rewrite Hf at 1. rewrite He at 1. rewrite log_entries, fmap_app, <-list_fmap_compose.
    rewrite <-IH, He, !fmap_app. rewrite (app_assoc _ _ (_ <$> deadlines _)).
    apply Permutation_app_tail. rewrite Permutation_app_comm. by apply Permutation_app_head.
Qed.

Lemma history_not_early now (st : SleepingTasks H) log reqs :
  history now st log reqs -> Forall (fun e : H * Z * Z => e.1.2 <= e.2 <= now) log.
Proof.
  induction 1 as [now Hn|now now' st log reqs Hh IH Hle
                 |now st st' log reqs h dur Hh IH Hd Hb Hs
                 |now st log reqs h next Hh IH Hx
                 |now st log reqs clk Hh IH Hm].
  - done.
  - eapply Forall_impl; [done|]. simpl. lia.
  - done.
  - done.
  - destruct (history_inv _ _ _ _ Hh) as [Hn Hi].
    destruct (wake_task_due st clk now Hi Hn Hm) as (due & He & Hf & Hdue & _).
    pose proof (monotone_le _ _ (length (wake_task st clk).2) Hm) as Hc.
    apply Forall_app. split.
    + rewrite Hf at 1. rewrite He, log_entries. apply Forall_fmap. eapply Forall_impl; [done|].
      simpl. lia.
    + eapply Forall_impl; [done|]. simpl. lia.
Qed.

End histories.



(** A call of [wake_task] invokes, in order of due time, every handler due
    at the first clock reading of the call, stops at the first handler not due
    at the last reading, and leaves the due times of the others as they were;
    [time_to_wait] then gives the time until the next one. *)
Theorem wake_task_fires_exactly_the_due {H} (st : SleepingTasks H) clk now :
  inv now st -> 0 <= now -> monotone_from now clk ->
  let st' := (wake_task st clk).1 in
  let fired := (wake_task st clk).2 in
  let last := clk (length fired) in
  exists due, deadlines st = due ++ deadlines st' /\ fired = due.*2 /\
    Forall (fun tx => tx.1 <= last) due /\
    (forall t x, (t, x) ∈ deadlines st -> t <= clk 0%nat -> x ∈ fired) /\
    time_to_wait st' last = (fun tx : Z * H => tx.1 - last) <$> head (deadlines st').
Proof.
  intros Hi Hn Hm st' fired last.
  destruct (wake_task_due st clk now Hi Hn Hm) as (due & He & Hf & Hdue & Hrest).
  exists due. repeat split; auto.
  - intros t x Hin Ht. rewrite He in Hin. apply elem_of_app in Hin as [Hin|Hin].
    + unfold fired. rewrite Hf. apply list_elem_of_fmap. by exists (t, x).
    + specialize (Hrest t x Hin). pose proof Hm as (_ & Hmono & _).
      assert (clk 0%nat <= last); [|unfold last, fired in *; lia].
      unfold last. generalize (length fired). intros n.
      induction n as [|n IHn]; [done|]. specialize (Hmono n). lia.
  - pose proof (wake_task_inv st clk now Hi Hn Hm) as Hi'. fold fired last st' in Hi'.
    assert (Hl : last < 2 ^ 64) by apply Hm.
    unfold time_to_wait. fold fired last st' in Hrest. unfold deadlines in *.
    destruct Hi' as (Hb1 & Hb2 & Hok). destruct st' as [[d x next|] b]; simpl in *; [|done].
    destruct Hb2 as [?|Hb2]; [done|]. rewrite Instant.elapsed_spec by lia.
    specialize (Hrest (b + d) x ltac:(by left)).
    rewrite (proj2 (Z.leb_gt _ _)) by lia. f_equal. lia.
Qed.

Lemma wake_task_fires_exactly_the_due_witness :
  let st := mkSleeping (Cons 10 1%nat (Cons 0 2%nat (Cons 10 3%nat Nil))) 10 in
  inv 15 st /\ (wake_task st (fun _ => 25)).2 = [1%nat; 2%nat] /\
  exists due, deadlines st = due ++ deadlines (wake_task st (fun _ => 25)).1.
Proof.
  intros st. assert (Hi : inv 15 st).
  { repeat split; simpl; try lia. }
  split; [exact Hi|]. split; [reflexivity|].
  destruct (wake_task_fires_exactly_the_due st (fun _ => 25) 15 Hi ltac:(lia)
    ltac:(repeat split; intros; lia)) as (due & H & _).
  exists due. exact H.
Defined.

End Sleeping.
