(* ===== verification/Graph.v ===== *)
(** * The adjacency-list graph of [awkernel_async_lib/src/dag/graph.rs]

    Nodes and edges live in two vectors; every node heads one linked list of
    edge indices per direction and every edge carries the next index of both
    lists.  Indices are [u32] and [u32::MAX] ends a list.  [Module Graph]
    translates the construction and the iterators; [wf] says that the linked
    lists of a node are exactly the edges at it, newest first, and the theorems
    show that the iterators agree with the plain list of edges. *)

From S2P Require Import Prelude.
Local Open Scope Z_scope.

Module Graph.

(** [enum Direction] and [Direction::index]. *)
Inductive Direction : Type := Outgoing | Incoming.

Definition dir_index (d : Direction) : nat :=
  match d with Outgoing => 0 | Incoming => 1 end.

(** [EdgeIndex::end()] and [NodeIndex::end()]: [u32::MAX]. *)
Definition END : Z := 2 ^ 32 - 1.

(** [struct Node]; [next] is a pair instead of an array of two. *)
Record Node (N : Type) : Type := mkNode { node_weight : N; node_next : Z * Z }.
Arguments mkNode {N} _ _.
Arguments node_weight {N} _.
Arguments node_next {N} _.

(** [struct Edge]; [edge_node] is the start and the end node. *)
Record Edge (E : Type) : Type := mkEdge {
  edge_weight : E; edge_next : Z * Z; edge_node : Z * Z }.
Arguments mkEdge {E} _ _ _.
Arguments edge_weight {E} _.
Arguments edge_next {E} _.
Arguments edge_node {E} _.

(** [struct Graph]. *)
Record Graph (N E : Type) : Type := mkGraph {
  nodes : list (Node N); edges : list (Edge E) }.
Arguments mkGraph {N E} _ _.
Arguments nodes {N E} _.
Arguments edges {N E} _.

(** The component of an array of two at a direction. *)
Definition at_dir {A} (p : A * A) (d : Direction) : A :=
  match d with Outgoing => p.1 | Incoming => p.2 end.

(** [slice::get] at a [u32] index. *)
Definition get {A} (l : list A) (i : Z) : option A :=
  if (0 <=? i) && (i <? Z.of_nat (length l)) then l !! Z.to_nat i else None.

Section ops.
Context {N E : Type}.
Implicit Types g : Graph N E.

(** [Graph::new], [Graph::node_count] and [Graph::edge_count]. *)
Definition new : Graph N E := mkGraph [] [].
Definition node_count g : nat := length (nodes g).
Definition edge_count g : nat := length (edges g).

(** [Graph::add_node]. *)
Definition add_node g (weight : N) : outcome (Graph N E * Z) :=
  let node_idx := wrap 32 (Z.of_nat (length (nodes g))) in
  assert_true (negb (node_idx =? END));;
  Ret (mkGraph (nodes g ++ [mkNode weight (END, END)]) (edges g), node_idx).

(** [Graph::node_weight]. *)
Definition weight_of g (a : Z) : option N := node_weight <$> get (nodes g) a.

(** Writing through [Graph::node_weight_mut]. *)
Definition update_weight g (a : Z) (f : N -> N) : Graph N E :=
  match get (nodes g) a with
  | Some n =>
      mkGraph (<[Z.to_nat a := mkNode (f (node_weight n)) (node_next n)]> (nodes g)) (edges g)
  | None => g
  end.

(** [Graph::add_edge]; the three cases are those of [index_twice]. *)
Definition add_edge g (a b : Z) (weight : E) : outcome (Graph N E * Z) :=
  let edge_idx := wrap 32 (Z.of_nat (length (edges g))) in
  assert_true (negb (edge_idx =? END));;
  match get (nodes g) (Z.max a b), get (nodes g) a, get (nodes g) b with
  | Some _, Some an, Some bn =>
      if a =? b then
        let edge := mkEdge weight (node_next an) (a, b) in
        let an' := mkNode (node_weight an) (edge_idx, edge_idx) in
        Ret (mkGraph (<[Z.to_nat a := an']> (nodes g)) (edges g ++ [edge]), edge_idx)
      else
        let edge := mkEdge weight ((node_next an).1, (node_next bn).2) (a, b) in
        let an' := mkNode (node_weight an) (edge_idx, (node_next an).2) in
        let bn' := mkNode (node_weight bn) ((node_next bn).1, edge_idx) in
        Ret (mkGraph (<[Z.to_nat b := bn']> (<[Z.to_nat a := an']> (nodes g)))
                     (edges g ++ [edge]), edge_idx)
  | _, _, _ => Panic
  end.

(** [struct Neighbors], the iterator of [Graph::neighbors_directed]. *)
Record Neighbors : Type := mkNeighbors { skip_start : Z; iter_next : Z * Z }.

(** [Graph::neighbors_undirected]. *)
Definition neighbors_undirected g (a : Z) : Neighbors :=
  mkNeighbors a (match get (nodes g) a with None => (END, END) | Some n => node_next n end).

(** [Graph::neighbors_directed]. *)
Definition neighbors_directed g (a : Z) (dir : Direction) : Neighbors :=
  let it := neighbors_undirected g a in
  mkNeighbors END
    (match dir with
     | Outgoing => ((iter_next it).1, END)
     | Incoming => (END, (iter_next it).2)
     end).

(** [Graph::neighbors]. *)
Definition neighbors g (a : Z) : Neighbors := neighbors_directed g a Outgoing.

(** The [while let] loop of [Neighbors::next] over the incoming edges. *)
Fixpoint next_incoming g (fuel : nat) (skip e : Z) : option (Z * Z) :=
  match fuel with
  | O => None
  | S fuel' =>
      match get (edges g) e with
      | None => None
      | Some edge =>
          if (edge_node edge).1 =? skip then next_incoming g fuel' skip (edge_next edge).2
          else Some ((edge_node edge).1, (edge_next edge).2)
      end
  end.

(** [Neighbors::next].  The loop meets each edge at most once, so the number of
    edges is enough fuel. *)
Definition neighbors_next g (it : Neighbors) : option (Z * Neighbors) :=
  match get (edges g) (iter_next it).1 with
  | Some edge =>
      Some ((edge_node edge).2,
            mkNeighbors (skip_start it) ((edge_next edge).1, (iter_next it).2))
  | None =>
      match next_incoming g (S (edge_count g)) (skip_start it) (iter_next it).2 with
      | Some (n, e') => Some (n, mkNeighbors (skip_start it) ((iter_next it).1, e'))
      | None => None
      end
  end.

(** The iterator run to its end: what [count] counts and [for] visits. *)
Fixpoint collect g (fuel : nat) (it : Neighbors) : list Z :=
  match fuel with
  | O => []
  | S fuel' =>
      match neighbors_next g it with
      | None => []
      | Some (n, it') => n :: collect g fuel' it'
      end
  end.

(** All neighbours of [a] in direction [dir], in the order of the iterator; each
    edge is met once, so one step per edge and one to stop are enough. *)
Definition neighbors_list g (a : Z) (dir : Direction) : list Z :=
  collect g (S (edge_count g)) (neighbors_directed g a dir).

(** [Graph::node_indices] and [Graph::node_identifiers]. *)
Definition node_indices g : list Z := Z.of_nat <$> seq 0 (node_count g).

(** The test of [Externals::next]. *)
Definition is_external g (dir : Direction) (i : Z) : bool :=
  match get (nodes g) i with
  | Some n => at_dir (node_next n) dir =? END
  | None => false
  end.

(** [Graph::externals], run to the end. *)
Definition externals g (dir : Direction) : list Z :=
  filter (fun i => is_external g dir i = true) (node_indices g).

(** [Graph::edge_references] as source, target and weight in index order. *)
Definition edge_references g : list (Z * Z * E) :=
  (fun e => ((edge_node e).1, (edge_node e).2, edge_weight e)) <$> edges g.

End ops.

(** ** Well-formed graphs *)

Section wf.
Context {N E : Type}.
Implicit Types (g : Graph N E) (es : list (Edge E)).

(** The indices of the edges of [es] that have [a] at their [dir] end, oldest
    first; [k] is the index of the first edge of [es]. *)
Fixpoint ids_from (k : nat) es (dir : Direction) (a : Z) : list Z :=
  match es with
  | [] => []
  | e :: es' =>
      (if at_dir (edge_node e) dir =? a then [Z.of_nat k] else []) ++ ids_from (S k) es' dir a
  end.

(** [chain es dir e l]: following the [dir] links from index [e] visits [l]. *)
Inductive chain es (dir : Direction) : Z -> list Z -> Prop :=
| chain_nil : chain es dir END []
| chain_cons e edge l :
    get es e = Some edge -> chain es dir (at_dir (edge_next edge) dir) l ->
    chain es dir e (e :: l).

Record wf g : Prop := mkWf {
  wf_nodes : Z.of_nat (node_count g) <= END;
  wf_edges : Z.of_nat (edge_count g) <= END;
  wf_ends : Forall (fun e => forall dir, 0 <= at_dir (edge_node e) dir < Z.of_nat (node_count g))
              (edges g);
  wf_chain : forall a n dir, get (nodes g) a = Some n ->
    chain (edges g) dir (at_dir (node_next n) dir) (reverse (ids_from 0 (edges g) dir a))
}.

Lemma get_Some {A} (l : list A) i x :
  get l i = Some x <-> 0 <= i /\ l !! Z.to_nat i = Some x.
Proof.
  unfold get. split.
  - case_if; [|done]. b2p. intros Hx. split; [lia|done].
  - intros [Hi Hx]. pose proof (lookup_lt_Some _ _ _ Hx).
    rewrite (proj2 (andb_true_iff _ _)); [done|]. split; [apply Z.leb_le|apply Z.ltb_lt]; lia.
Qed.

Lemma get_lt {A} (l : list A) i x : get l i = Some x -> 0 <= i < Z.of_nat (length l).
Proof. intros [Hi Hx]%get_Some. apply lookup_lt_Some in Hx. lia. Qed.

Lemma get_is_Some {A} (l : list A) i : 0 <= i < Z.of_nat (length l) -> is_Some (get l i).
Proof.
  intros Hi. destruct (lookup_lt_is_Some_2 l (Z.to_nat i)) as [x Hx]; [lia|].
  exists x. apply get_Some. split; [lia|done].
Qed.

Lemma get_app_l {A} (l k : list A) i x : get l i = Some x -> get (l ++ k) i = Some x.
Proof. rewrite !get_Some. intros [Hi Hx]. split; [done|]. by apply lookup_app_l_Some. Qed.

Lemma get_snoc {A} (l : list A) x : get (l ++ [x]) (Z.of_nat (length l)) = Some x.
Proof. apply get_Some. split; [lia|]. rewrite Nat2Z.id. by apply list_lookup_middle. Qed.

Lemma get_snoc_Some {A} (l : list A) x i y :
  get (l ++ [x]) i = Some y <-> get l i = Some y \/ (i = Z.of_nat (length l) /\ x = y).
Proof.
  rewrite !get_Some, lookup_snoc_Some. split.
  - intros [Hi [[? ?]|[? ?]]]; [by left|right]. split; [lia|done].
  - intros [[Hi Hx]|[-> ->]].
    + split; [done|]. left. split; [by eapply lookup_lt_Some|done].
    + split; [lia|]. right. by rewrite Nat2Z.id.
Qed.

Lemma get_insert {A} (l : list A) i j x y :
  get l i = Some y -> 0 <= j ->
  get (<[Z.to_nat i := x]> l) j = if i =? j then Some x else get l j.
Proof.
  intros Hi Hj. pose proof (get_lt _ _ _ Hi). unfold get. rewrite length_insert.
  destruct (Z.eqb_spec i j) as [->|Hn].
  - rewrite (proj2 (andb_true_iff _ _)).
    + apply list_lookup_insert_eq. lia.
    + split; [apply Z.leb_le|apply Z.ltb_lt]; lia.
  - case_if; [|done]. b2p. apply list_lookup_insert_ne. intros ?%Z2Nat.inj; lia.
Qed.

Lemma chain_app es k dir e l : chain es dir e l -> chain (es ++ k) dir e l.
Proof.
  induction 1 as [|e edge l He _ IH]; [constructor|]. econstructor; [by apply get_app_l|done].
Qed.

Lemma ids_from_app k es1 es2 dir a :
  ids_from k (es1 ++ es2) dir a = ids_from k es1 dir a ++ ids_from (k + length es1) es2 dir a.
Proof.
  revert k. induction es1 as [|e es1 IH]; intros k; simpl.
  - by rewrite Nat.add_0_r.
  - by rewrite IH, app_assoc, Nat.add_succ_comm.
Qed.

Lemma ids_from_snoc es e dir a :
  reverse (ids_from 0 (es ++ [e]) dir a) =
    (if at_dir (edge_node e) dir =? a then [Z.of_nat (length es)] else []) ++
    reverse (ids_from 0 es dir a).
Proof.
  rewrite ids_from_app, reverse_app. simpl. rewrite app_nil_r. by case_if.
Qed.

Lemma ids_from_length k es dir a : (length (ids_from k es dir a) <= length es)%nat.
Proof.
  revert k. induction es as [|e es IH]; intros k; simpl; [lia|].
  rewrite length_app. specialize (IH (S k)). case_if; simpl; lia.
Qed.

(** ** The constructors keep graphs well formed *)

Lemma graph_new_wf : wf (new (N:=N) (E:=E)).
Proof. split; simpl; [done|done|done|]. intros a n dir [_ H]%get_Some. done. Qed.

Lemma add_node_spec g w g' i :
  wf g -> add_node g w = Ret (g', i) ->
  wf g' /\ i = Z.of_nat (node_count g) /\ edges g' = edges g /\
  nodes g' = nodes g ++ [mkNode w (END, END)].
Proof.
  intros H. unfold add_node.
  assert (Hw : wrap 32 (Z.of_nat (length (nodes g))) = Z.of_nat (length (nodes g))).
  { apply wrap_id. pose proof (wf_nodes g H). unfold is_uint, node_count, END in *. lia. }
  rewrite Hw. unfold assert_true. destruct (Z.eqb_spec (Z.of_nat (length (nodes g))) END) as [|Hne];
    simpl; [done|]. intros [= <- <-]. simpl. repeat split; auto; unfold node_count, edge_count in *; simpl.
  - pose proof (wf_nodes g H) as Hn. unfold node_count in Hn. rewrite length_app. simpl. lia.
  - apply (wf_edges g H).
  - eapply Forall_impl; [apply (wf_ends g H)|]. intros e He dir. specialize (He dir).
    unfold node_count in He. rewrite length_app. simpl. lia.
  - intros a n dir Hg. pose proof (get_lt _ _ _ Hg) as Hlt. rewrite length_app in Hlt. simpl in Hlt.
    destruct (decide (a = Z.of_nat (length (nodes g)))) as [->|Hn].
    + rewrite get_snoc in Hg. injection Hg as <-. simpl.
      assert (Hids : ids_from 0 (edges g) dir (Z.of_nat (length (nodes g))) = []).
      { generalize 0%nat. pose proof (wf_ends g H) as Hends. unfold node_count in Hends.
        induction Hends as [|e es He _ IH]; intros k; simpl; [done|]. rewrite IH.
        specialize (He dir). by rewrite (proj2 (Z.eqb_neq _ _)) by lia. }
      rewrite Hids. destruct dir; constructor.
    + apply (wf_chain g H a). destruct (get_is_Some (nodes g) a) as [m Hm]; [lia|].
      rewrite (get_app_l _ _ _ _ Hm) in Hg. by rewrite Hm.
Qed.

Lemma update_weight_wf g a f : wf g -> wf (update_weight g a f).
Proof.
  intros H. unfold update_weight. destruct (get (nodes g) a) as [m|] eqn:Hm; [|done].
  split; unfold node_count, edge_count in *; simpl; rewrite ?length_insert; try apply H.
  intros b n dir Hb. rewrite (get_insert _ _ _ _ m Hm) in Hb by (apply get_lt in Hb; lia).
  destruct (Z.eqb_spec a b) as [->|_]; [|by apply (wf_chain g H b)].
  injection Hb as <-. simpl. by apply (wf_chain g H b).
Qed.

(** Appending one edge and making it the head of the lists of its two ends. *)
Lemma push_edge_wf g a b w nx nds an bn :
  wf g -> Z.of_nat (length (edges g)) <> END ->
  get (nodes g) a = Some an -> get (nodes g) b = Some bn ->
  length nds = length (nodes g) ->
  nx.1 = (node_next an).1 -> nx.2 = (node_next bn).2 ->
  (forall c n dir, get nds c = Some n ->
     exists n0, get (nodes g) c = Some n0 /\
       at_dir (node_next n) dir =
         if at_dir (a, b) dir =? c then Z.of_nat (length (edges g)) else at_dir (node_next n0) dir) ->
  wf (mkGraph nds (edges g ++ [mkEdge w nx (a, b)])).
Proof.
  intros H Hne Ha Hb Hlen Hx1 Hx2 Hnds.
  pose proof (get_lt _ _ _ Ha) as Hla. pose proof (get_lt _ _ _ Hb) as Hlb.
  split; unfold node_count, edge_count; simpl; rewrite ?Hlen, ?length_app; simpl.
  - apply (wf_nodes g H).
  - pose proof (wf_edges g H). unfold edge_count in *. lia.
  - apply Forall_app. split; [apply (wf_ends g H)|]. constructor; [|done].
    intros []; simpl; lia.
  - intros c n dir Hc. destruct (Hnds c n dir Hc) as (n0 & Hn0 & ->).
    rewrite ids_from_snoc. simpl. pose proof (wf_chain g H c n0 dir Hn0) as Hch.
    destruct (Z.eqb_spec (at_dir (a, b) dir) c) as [Hd|Hd]; simpl; [|by apply chain_app].
    apply chain_cons with (mkEdge w nx (a, b)); [apply get_snoc|]. apply chain_app. simpl.
    destruct dir; simpl in *; subst c.
    + rewrite Hx1. by assert (n0 = an) as <- by congruence.
    + rewrite Hx2. by assert (n0 = bn) as <- by congruence.
Qed.

Lemma weight_of_update g a f b :
  weight_of (update_weight g a f) b = if a =? b then f <$> weight_of g b else weight_of g b.
Proof.
  unfold weight_of, update_weight. destruct (get (nodes g) a) as [n|] eqn:Ha.
  - simpl. destruct (decide (0 <= b)) as [Hb|Hb].
    + rewrite (get_insert _ _ _ _ n Ha) by done. destruct (Z.eqb_spec a b) as [<-|]; [|done].
      by rewrite Ha.
    + unfold get. rewrite (proj2 (Z.leb_gt _ _)) by lia. simpl. by case_if.
  - destruct (Z.eqb_spec a b) as [<-|]; [|done]. by rewrite Ha.
Qed.

Lemma node_count_update g a f : node_count (update_weight g a f) = node_count g.
Proof.
  unfold update_weight, node_count. destruct (get (nodes g) a); [|done]. apply length_insert.
Qed.

(** Weights have no part in the adjacency lists. *)
Lemma neighbors_update g a f b dir :
  neighbors_directed (update_weight g a f) b dir = neighbors_directed g b dir.
Proof.
  unfold neighbors_directed, neighbors_undirected, update_weight.
  destruct (get (nodes g) a) as [n|] eqn:Ha; [|done]. simpl.
  destruct (decide (0 <= b)) as [Hb|Hb].
  - rewrite (get_insert _ _ _ _ n Ha) by done. destruct (Z.eqb_spec a b) as [<-|]; [|done].
    by rewrite Ha.
  - assert (Hn : forall A (l : list A), get l b = None).
    { intros A l. unfold get. by rewrite (proj2 (Z.leb_gt _ _)) by lia. }
    by rewrite !Hn.
Qed.

Lemma neighbors_next_edges g g' it :
  edges g = edges g' -> neighbors_next g it = neighbors_next g' it.
Proof.
  intros He. unfold neighbors_next, edge_count. rewrite He.
  assert (Hin : forall fuel s e, next_incoming g fuel s e = next_incoming g' fuel s e).
  { induction fuel as [|fuel IH]; intros s e; simpl; [done|]. rewrite He.
    destruct (get (edges g') e); [|done]. by rewrite IH. }
  by rewrite Hin.
Qed.

Lemma edges_update g a f : edges (update_weight g a f) = edges g.
Proof. unfold update_weight. by destruct (get (nodes g) a). Qed.

Lemma add_edge_spec g a b w g' i :
  wf g -> add_edge g a b w = Ret (g', i) ->
  wf g' /\ edge_references g' = edge_references g ++ [(a, b, w)] /\
  node_weight <$> nodes g' = node_weight <$> nodes g.
Proof.
  intros H. unfold add_edge.
  assert (Hw : wrap 32 (Z.of_nat (length (edges g))) = Z.of_nat (length (edges g))).
  { apply wrap_id. pose proof (wf_edges g H). unfold is_uint, edge_count, END in *. lia. }
  rewrite Hw. unfold assert_true. destruct (Z.eqb_spec (Z.of_nat (length (edges g))) END) as [|Hne];
    simpl; [done|].
  destruct (get (nodes g) (Z.max a b)) as [mn|] eqn:Hmax; [|done].
  destruct (get (nodes g) a) as [an|] eqn:Ha; [|done].
  destruct (get (nodes g) b) as [bn|] eqn:Hb; [|done].
  pose proof (get_lt _ _ _ Ha) as Hla. pose proof (get_lt _ _ _ Hb) as Hlb.
  set (ei := Z.of_nat (length (edges g))) in *.
  assert (Hup := fun nx nds => push_edge_wf g a b w nx nds an bn H Hne Ha Hb).
  destruct (Z.eqb_spec a b) as [<-|Hab]; intros [= <- <-]; simpl.
  - assert (bn = an) as -> by congruence. split.
    + apply Hup; [apply length_insert|done|done|]. intros c n dir Hc.
      rewrite (get_insert _ _ _ _ an Ha) in Hc by (apply get_lt in Hc; lia).
      destruct (Z.eqb_spec a c) as [<-|Hac].
      * injection Hc as <-. exists an. split; [done|]. destruct dir; simpl; by rewrite Z.eqb_refl.
      * exists n. split; [done|]. destruct dir; simpl; by rewrite (proj2 (Z.eqb_neq _ _)).
    + split; [unfold edge_references; simpl; by rewrite fmap_app|].
      rewrite list_fmap_insert. simpl. apply list_insert_id.
      apply get_Some in Ha as [_ Ha]. by rewrite list_lookup_fmap, Ha.
  - assert (Hb' : get (<[Z.to_nat a := mkNode (node_weight an) (ei, (node_next an).2)]> (nodes g)) b
                  = Some bn).
    { rewrite (get_insert _ _ _ _ an Ha) by lia. by rewrite (proj2 (Z.eqb_neq _ _)). }
    split.
    + apply Hup; [by rewrite !length_insert|done|done|]. intros c n dir Hc.
      pose proof (get_lt _ _ _ Hc) as Hlc.
      rewrite (get_insert _ _ _ _ bn Hb'), (get_insert _ _ _ _ an Ha) in Hc by lia.
      destruct (Z.eqb_spec b c) as [<-|Hbc].
      * injection Hc as <-. exists bn. split; [done|].
        destruct dir; simpl; [by rewrite (proj2 (Z.eqb_neq _ _))|by rewrite Z.eqb_refl].
      * destruct (Z.eqb_spec a c) as [<-|Hac].
        -- injection Hc as <-. exists an. split; [done|].
           destruct dir; simpl; [by rewrite Z.eqb_refl|by rewrite (proj2 (Z.eqb_neq _ _))].
        -- exists n. split; [done|]. destruct dir; simpl; by rewrite (proj2 (Z.eqb_neq _ _)).
    + split; [unfold edge_references; simpl; by rewrite fmap_app|].
      rewrite !list_fmap_insert. simpl. apply get_Some in Ha as [_ Ha]. apply get_Some in Hb as [_ Hb].
      rewrite (list_insert_id (node_weight <$> nodes g)) by (by rewrite list_lookup_fmap, Ha).
      apply list_insert_id. by rewrite list_lookup_fmap, Hb.
Qed.

(** The constructors return while there is room for another index. *)
Lemma add_node_returns g w :
  wf g -> Z.of_nat (node_count g) < END -> exists r, add_node g w = Ret r.
Proof.
  intros H Hn. unfold add_node, node_count in *.
  rewrite wrap_id by (unfold is_uint, END in *; lia).
  rewrite (proj2 (Z.eqb_neq _ _)) by lia. by eexists.
Qed.

Lemma add_edge_returns g a b w :
  wf g -> Z.of_nat (edge_count g) < END ->
  0 <= a < Z.of_nat (node_count g) -> 0 <= b < Z.of_nat (node_count g) ->
  exists r, add_edge g a b w = Ret r.
Proof.
  intros H He Ha Hb. unfold add_edge, edge_count in *.
  rewrite wrap_id by (unfold is_uint, END in *; lia).
  rewrite (proj2 (Z.eqb_neq (Z.of_nat (length (edges g))) END)) by lia. simpl.
  destruct (get_is_Some (nodes g) (Z.max a b)) as [? ->]; [unfold node_count in *; lia|].
  destruct (get_is_Some (nodes g) a Ha) as [? ->].
  destruct (get_is_Some (nodes g) b Hb) as [? ->]. case_if; by eexists.
Qed.

End wf.

(** ** The iterators *)

(** The other end. *)
Definition flip_dir (d : Direction) : Direction :=
  match d with Outgoing => Incoming | Incoming => Outgoing end.

Section iterators.
Context {N E : Type}.
Implicit Types (g : Graph N E) (es : list (Edge E)).

(** The far ends of the edges at [a], in edge order. *)
Definition far_ends es (dir : Direction) (a : Z) : list Z :=
  (fun e => at_dir (edge_node e) (flip_dir dir)) <$>
    filter (fun e => at_dir (edge_node e) dir = a) es.

(** The iterator state that walks one list. *)
Definition one_list (dir : Direction) (e : Z) : Neighbors :=
  mkNeighbors END (match dir with Outgoing => (e, END) | Incoming => (END, e) end).

Lemma get_END g : wf g -> get (edges g) END = None.
Proof.
  intros H. destruct (get (edges g) END) eqn:He; [|done]. apply get_lt in He.
  pose proof (wf_edges g H). unfold edge_count in *. lia.
Qed.

Lemma chain_END g dir l : wf g -> chain (edges g) dir END l -> l = [].
Proof.
  intros H Hc. inversion Hc as [|? ? ? Hg]; [done|]. by rewrite (get_END g H) in Hg.
Qed.

Lemma neighbors_next_END g dir : wf g -> neighbors_next g (one_list dir END) = None.
Proof.
  intros H. unfold neighbors_next. destruct dir; simpl; by rewrite !(get_END g H).
Qed.

Lemma neighbors_next_edge g dir e edge :
  wf g -> get (edges g) e = Some edge ->
  neighbors_next g (one_list dir e) =
    Some (at_dir (edge_node edge) (flip_dir dir), one_list dir (at_dir (edge_next edge) dir)).
Proof.
  intros H He. unfold neighbors_next. destruct dir; simpl.
  - by rewrite He.
  - rewrite (get_END g H), He.
    pose proof (wf_ends g H) as Hends. apply get_Some in He as [_ He].
    rewrite Forall_lookup in Hends. specialize (Hends _ _ He Outgoing). simpl in Hends.
    pose proof (wf_nodes g H). by rewrite (proj2 (Z.eqb_neq _ _)) by lia.
Qed.

Lemma collect_chain g dir e l fuel :
  wf g -> chain (edges g) dir e l -> (length l < fuel)%nat ->
  collect g fuel (one_list dir e) =
    omap (fun i => (fun ed => at_dir (edge_node ed) (flip_dir dir)) <$> get (edges g) i) l.
Proof.
  intros H Hc. revert fuel. induction Hc as [|e edge l He _ IH]; intros [|fuel] Hl; simpl in *; try lia.
  - by rewrite neighbors_next_END.
  - rewrite (neighbors_next_edge g dir e edge H He), He. simpl. f_equal. apply IH. lia.
Qed.

Lemma omap_ids pre es dir a f :
  omap (fun i => f <$> get (pre ++ es) i) (ids_from (length pre) es dir a) =
    f <$> filter (fun e => at_dir (edge_node e) dir = a) es :> list Z.
Proof.
  revert pre. induction es as [|e es IH]; intros pre; simpl; [done|].
  specialize (IH (pre ++ [e])). rewrite length_app in IH. simpl in IH.
  rewrite Nat.add_1_r, <-(assoc_L (++)) in IH. simpl in IH.
  rewrite omap_app, IH, filter_cons. destruct (Z.eqb_spec (at_dir (edge_node e) dir) a) as [Ha|Ha].
  - rewrite decide_True by done. simpl.
    assert (get (pre ++ e :: es) (Z.of_nat (length pre)) = Some e) as ->; [|done].
    apply get_Some. split; [lia|]. rewrite Nat2Z.id. by apply list_lookup_middle.
  - rewrite decide_False by done. done.
Qed.

Lemma ids_nil k es dir a : ids_from k es dir a = [] <-> far_ends es dir a = [].
Proof.
  unfold far_ends. revert k. induction es as [|e es IH]; intros k; simpl; [done|].
  rewrite filter_cons. destruct (Z.eqb_spec (at_dir (edge_node e) dir) a).
  - rewrite decide_True by done. done.
  - rewrite decide_False by done. apply IH.
Qed.

Lemma omap_reverse {A B} (f : A -> option B) (l : list A) :
  omap f (reverse l) = reverse (omap f l).
Proof.
  induction l as [|x l IH]; [done|]. rewrite reverse_cons, omap_app, IH. simpl.
  destruct (f x); simpl; [by rewrite reverse_cons|by rewrite app_nil_r].
Qed.

(** The iterator gives the neighbours, newest edge first. *)
Lemma neighbors_list_spec g a dir :
  wf g -> neighbors_list g a dir = reverse (far_ends (edges g) dir a).
Proof.
  intros H. unfold neighbors_list.
  assert (Hnd : neighbors_directed g a dir =
    one_list dir (match get (nodes g) a with
                  | Some n => at_dir (node_next n) dir | None => END end)).
  { unfold neighbors_directed, one_list, neighbors_undirected.
    destruct dir, (get (nodes g) a); done. }
  rewrite Hnd. destruct (get (nodes g) a) as [n|] eqn:Hn.
  - rewrite (collect_chain _ _ _ _ _ H (wf_chain g H a n dir Hn)).
    + rewrite omap_reverse. f_equal. apply (omap_ids []).
    + rewrite length_reverse. pose proof (ids_from_length 0 (edges g) dir a). unfold edge_count. lia.
  - simpl. rewrite neighbors_next_END by done. unfold far_ends.
    assert (filter (fun e => at_dir (edge_node e) dir = a) (edges g) = []) as ->; [|done].
    pose proof (wf_ends g H) as Hends. induction Hends as [|e es He _ IH]; [done|].
    rewrite filter_cons, decide_False; [done|]. intros <-. specialize (He dir).
    apply get_is_Some in He as [x Hx]. by rewrite Hx in Hn.
Qed.

Lemma elem_of_node_indices g i : i ∈ node_indices g <-> 0 <= i < Z.of_nat (node_count g).
Proof.
  unfold node_indices. rewrite list_elem_of_fmap. split.
  - intros (k & -> & Hk%elem_of_seq). lia.
  - intros Hi. exists (Z.to_nat i). rewrite elem_of_seq. split; lia.
Qed.

(** [externals] are the nodes without an edge in that direction. *)
Lemma externals_spec g dir i :
  wf g -> i ∈ externals g dir <->
    0 <= i < Z.of_nat (node_count g) /\ far_ends (edges g) dir i = [].
Proof.
  intros H. unfold externals. rewrite list_elem_of_filter, elem_of_node_indices.
  assert (Hx : 0 <= i < Z.of_nat (node_count g) ->
    is_external g dir i = true <-> far_ends (edges g) dir i = []); [|tauto].
  intros Hi. unfold is_external. destruct (get_is_Some (nodes g) i Hi) as [n Hn]. rewrite Hn.
  pose proof (wf_chain g H i n dir Hn) as Hc.
  rewrite <-(ids_nil 0 (edges g) dir i), Z.eqb_eq. split.
  - intros He. rewrite He in Hc. apply (chain_END g _ _ H) in Hc.
    by rewrite <-(reverse_involutive (ids_from _ _ _ _)), Hc.
  - intros Hr. rewrite Hr in Hc. by inversion Hc.
Qed.


(** ** Graphs built by calls *)

(** [built g log]: the calls made so far gave [g], and the [add_edge] calls
    among them were [log]. *)
Inductive built : Graph N E -> list (Z * Z * E) -> Prop :=
| built_new : built new []
| built_node g log w g' i : built g log -> add_node g w = Ret (g', i) -> built g' log
| built_weight g log a f : built g log -> built (update_weight g a f) log
| built_edge g log a b w g' i :
    built g log -> add_edge g a b w = Ret (g', i) -> built g' (log ++ [(a, b, w)]).

Lemma built_spec g log : built g log -> wf g /\ edge_references g = log.
Proof.
  induction 1 as [|g log w g' i _ [IH1 IH2] Hadd|g log a f _ [IH1 IH2]|
                  g log a b w g' i _ [IH1 IH2] Hadd].
  - split; [apply graph_new_wf|done].
  - destruct (add_node_spec _ _ _ _ IH1 Hadd) as (? & _ & He & _). split; [done|].
    unfold edge_references. by rewrite He.
  - split; [by apply update_weight_wf|]. rewrite <-IH2. unfold update_weight.
    by destruct (get (nodes g) a).
  - destruct (add_edge_spec _ _ _ _ _ _ IH1 Hadd) as (? & -> & _). by rewrite IH2.
Qed.

(** The far ends at [a] of a list of calls [add_edge]. *)
Definition log_ends (log : list (Z * Z * E)) (dir : Direction) (a : Z) : list Z :=
  (fun e : Z * Z * E => at_dir e.1 (flip_dir dir)) <$>
    filter (fun e : Z * Z * E => at_dir e.1 dir = a) log.

Lemma log_ends_references g dir a :
  log_ends (edge_references g) dir a = far_ends (edges g) dir a.
Proof.
  unfold log_ends, far_ends, edge_references. induction (edges g) as [|e es IH]; [done|].
  destruct e as [w nx [s t]]. rewrite fmap_cons, !filter_cons. cbn [edge_node fst snd edge_weight].
  destruct (decide (at_dir (s, t) dir = a)); [|done]. rewrite !fmap_cons. by rewrite IH.
Qed.

(** On a graph made by any sequence of [add_node], [add_edge] and weight
    updates, the neighbour iterator of a node in a direction yields the far ends
    of exactly the edges added there, newest first, and [externals] are exactly
    the nodes where no edge was added in that direction. *)
Theorem graph_iterators_agree_with_edges g log :
  built g log ->
  edge_references g = log /\
  (forall a dir, neighbors_list g a dir = reverse (log_ends log dir a)) /\
  (forall i dir, i ∈ externals g dir <->
     0 <= i < Z.of_nat (node_count g) /\ log_ends log dir i = []).
Proof.
  intros [H <-]%built_spec. split; [done|]. split; intros a dir; rewrite log_ends_references.
  - by apply neighbors_list_spec.
  - by apply externals_spec.
Qed.

End iterators.

(** Two nodes, a self loop and two parallel edges. *)
Definition sample : outcome (Graph unit nat) :=
  '(g, a) ← add_node new tt;
  '(g, b) ← add_node g tt;
  '(g, _) ← add_edge g a b 0%nat;
  '(g, _) ← add_edge g a a 1%nat;
  '(g, _) ← add_edge g a b 2%nat;
  Ret g.

Lemma sample_built g : sample = Ret g -> exists log, built g log.
Proof.
  unfold sample. destruct (add_node new tt) as [[g1 a]|] eqn:H1; [|done]. simpl.
  destruct (add_node g1 tt) as [[g2 b]|] eqn:H2; [|done]. simpl.
  destruct (add_edge g2 a b 0%nat) as [[g3 e1]|] eqn:H3; [|done]. simpl.
  destruct (add_edge g3 a a 1%nat) as [[g4 e2]|] eqn:H4; [|done]. simpl.
  destruct (add_edge g4 a b 2%nat) as [[g5 e3]|] eqn:H5; [|done]. simpl.
  intros [= <-]. eexists. eapply built_edge, H5. eapply built_edge, H4. eapply built_edge, H3.
  eapply built_node, H2. eapply built_node, H1. apply built_new.
Qed.

Lemma graph_iterators_agree_with_edges_witness : exists g,
  sample = Ret g /\ neighbors_list g 0 Outgoing = [1; 0; 1] /\
  neighbors_list g 0 Incoming = [0] /\ is_external g Outgoing 1 = true.
Proof.
  eexists. split; [vm_compute; reflexivity|].
  match goal with |- neighbors_list ?g _ _ = _ /\ _ =>
    assert (Hs : sample = Ret g) by (vm_compute; reflexivity);
    destruct (sample_built g Hs) as [log Hb];
    destruct (graph_iterators_agree_with_edges g log Hb) as (He & Hn & _) end.
  rewrite !Hn, <-He. vm_compute. auto.
Defined.

End Graph.
