(* ===== verification/UnionFind.v ===== *)
(** * Disjoint sets and the count of connected components

    [awkernel_async_lib/src/dag/unionfind.rs] and [connected_components] of
    [dag/graph/algo.rs], which the validation of a DAG uses.  Indices are
    [usize] (the instance the code makes); ranks are bytes that wrap.  An
    unchecked read out of range is [Panic], so the theorems also show that the
    [unsafe] accesses stay in range, and that a byte is enough for a rank. *)

From S2P Require Import Prelude Graph.
From stdpp Require Import sorting relations.

Module UnionFind.

(** [struct UnionFind<usize>]. *)
Record UnionFind : Type := mkUF { parent : list nat; rank : list Z }.

(** [UnionFind::new] and [UnionFind::len]. *)
Definition new (n : nat) : UnionFind := mkUF (seq 0 n) (replicate n 0%Z).
Definition len (u : UnionFind) : nat := length (parent u).

(** The [while] loop of [find_mut_recursive]. *)
Fixpoint find_loop (fuel : nat) (p : list nat) (x px : nat) : outcome (list nat * nat) :=
  match fuel with
  | O => Panic
  | S fuel' =>
      if px =? x then Ret (p, x)
      else
        grandparent ← index p px;
        p' ← index_set p x grandparent;
        find_loop fuel' p' px grandparent
  end.

(** [UnionFind::find_mut_recursive].  Ranks are bytes and grow along the path,
    so 257 rounds are enough. *)
Definition find_mut_recursive (u : UnionFind) (x : nat) : outcome (UnionFind * nat) :=
  px ← index (parent u) x;
  '(p, r) ← find_loop 257 (parent u) x px;
  Ret (mkUF p (rank u), r).

(** [UnionFind::try_find_mut]. *)
Definition try_find_mut (u : UnionFind) (x : nat) : outcome (UnionFind * option nat) :=
  if len u <=? x then Ret (u, None)
  else '(u', r) ← find_mut_recursive u x; Ret (u', Some r).

(** The [match xrank.cmp(&yrank)] of [try_union]. *)
Definition link (u : UnionFind) (xrep yrep : nat) : outcome UnionFind :=
  xrank ← index (rank u) xrep;
  yrank ← index (rank u) yrep;
  match Z.compare xrank yrank with
  | Lt => p ← index_set (parent u) xrep yrep; Ret (mkUF p (rank u))
  | Gt => p ← index_set (parent u) yrep xrep; Ret (mkUF p (rank u))
  | Eq =>
      p ← index_set (parent u) yrep xrep;
      rk ← index_set (rank u) xrep (wrap 8 (xrank + 1));
      Ret (mkUF p rk)
  end.

(** [UnionFind::try_union]. *)
Definition try_union (u : UnionFind) (x y : nat) : outcome (UnionFind * result bool nat) :=
  if x =? y then Ret (u, Ok false)
  else
    '(u, ox) ← try_find_mut u x;
    match ox with
    | None => Ret (u, Err x)
    | Some xrep =>
        '(u, oy) ← try_find_mut u y;
        match oy with
        | None => Ret (u, Err y)
        | Some yrep =>
            if xrep =? yrep then Ret (u, Ok false)
            else u' ← link u xrep yrep; Ret (u', Ok true)
        end
    end.

(** [UnionFind::union]. *)
Definition union (u : UnionFind) (x y : nat) : outcome (UnionFind * bool) :=
  '(u', r) ← try_union u x y;
  match r with Ok b => Ret (u', b) | Err _ => Panic end.

(** The [for] loop of [into_labeling], from index [ix] for [k] rounds. *)
Fixpoint label_loop (u : UnionFind) (ix k : nat) : outcome UnionFind :=
  match k with
  | O => Ret u
  | S k' =>
      px ← index (parent u) ix;
      '(u, xrep) ← find_mut_recursive u px;
      p ← index_set (parent u) ix xrep;
      label_loop (mkUF p (rank u)) (S ix) k'
  end.

(** [UnionFind::into_labeling]. *)
Definition into_labeling (u : UnionFind) : outcome (list nat) :=
  u' ← label_loop u 0 (len u); Ret (parent u').

(** [Vec::dedup]: of a run of equal elements one stays. *)
Fixpoint dedup {A} `{EqDecision A} (l : list A) : list A :=
  match l with
  | [] => []
  | x :: l' =>
      match dedup l' with
      | y :: d => if decide (x = y) then y :: d else x :: y :: d
      | [] => [x]
      end
  end.

(** The loop of [connected_components] over the edges. *)
Fixpoint union_all (u : UnionFind) (es : list (nat * nat)) : outcome UnionFind :=
  match es with
  | [] => Ret u
  | (a, b) :: es' => '(u', _) ← union u a b; union_all u' es'
  end.

(** The source and target indices of the edges, in index order. *)
Definition edge_indices {N E} (g : Graph.Graph N E) : list (nat * nat) :=
  (fun e : Z * Z * E => (Z.to_nat e.1.1, Z.to_nat e.1.2)) <$> Graph.edge_references g.

(** [connected_components]; [sort_unstable] on [usize] gives the one sorted
    permutation. *)
Definition connected_components {N E} (g : Graph.Graph N E) : outcome nat :=
  u ← union_all (new (Graph.node_count g)) (edge_indices g);
  labels ← into_labeling u;
  Ret (length (dedup (merge_sort (≤) labels))).

(** ** Roots *)

(** [root p x r]: following the parents from [x] ends at [r]. *)
Inductive root (p : list nat) : nat -> nat -> Prop :=
| root_self x : p !! x = Some x -> root p x x
| root_step x y r : p !! x = Some y -> x <> y -> root p y r -> root p x r.

Lemma root_fun p x r r' : root p x r -> root p x r' -> r = r'.
Proof.
  intros H. revert r'. induction H as [x Hx|x y r Hx Hn _ IH]; intros r' H';
    inversion H'; simplify_eq; auto.
Qed.

Lemma root_parent p x y r : root p x r -> p !! x = Some y -> root p y r.
Proof.
  destruct 1 as [x Hx|x z r Hx Hn Hr]; intros Hy; rewrite Hx in Hy; injection Hy as <-; [|done].
  by apply root_self.
Qed.

Lemma root_is_root p x r : root p x r -> p !! r = Some r.
Proof. induction 1; done. Qed.

(** Links lead from lower to higher ranks, which are bytes. *)
Record ranked (p : list nat) (rk : list Z) : Prop := mkRanked {
  rk_len : length rk = length p;
  rk_byte : Forall (is_uint 8) rk;
  rk_up : forall x y, p !! x = Some y ->
    y < length p /\ (x <> y -> (rk !!! x < rk !!! y)%Z)
}.

(** Every root has at least [2 ^ rank] elements below it. *)
Record uf (u : UnionFind) : Prop := mkUf {
  uf_ranked : ranked (parent u) (rank u);
  uf_size : forall r, parent u !! r = Some r -> exists X : gset nat,
    (forall x, x ∈ X -> root (parent u) x r) /\ (2 ^ (rank u !!! r) <= Z.of_nat (size X))%Z
}.

(** The nodes of [u] keep their roots in [p']. *)
Definition same_roots (p p' : list nat) : Prop :=
  length p' = length p /\ forall x r, root p x r -> root p' x r.

#[export] Instance same_roots_pre : PreOrder same_roots.
Proof.
  split; [by intros p|]. intros p q s [H1 H2] [H3 H4]. split; [congruence|]. auto.
Qed.

Lemma rank_byte p rk x : ranked p rk -> x < length p -> (0 <= rk !!! x < 256)%Z.
Proof.
  intros H Hx. rewrite <-(rk_len _ _ H) in Hx. apply lookup_lt_is_Some_2 in Hx as [z Hz].
  rewrite (list_lookup_total_correct _ _ _ Hz).
  exact (proj1 (Forall_lookup _ _) (rk_byte _ _ H) _ _ Hz).
Qed.

(** Induction from a node to nodes of higher rank. *)
Lemma rank_ind p rk (P : nat -> Prop) :
  ranked p rk ->
  (forall x, x < length p ->
     (forall y, y < length p -> (rk !!! x < rk !!! y)%Z -> P y) -> P x) ->
  forall x, x < length p -> P x.
Proof.
  intros H Hstep.
  assert (Hk : forall k x, x < length p -> (256 - rk !!! x <= Z.of_nat k)%Z -> P x).
  { induction k as [|k IH]; intros x Hx Hk; pose proof (rank_byte _ _ _ H Hx); [lia|].
    apply Hstep; [done|]. intros y Hy Hlt. apply IH; [done|lia]. }
  intros x Hx. pose proof (rank_byte _ _ _ H Hx). apply (Hk 256%nat); [done|lia].
Qed.

Lemma root_total p rk x : ranked p rk -> x < length p -> exists r, root p x r.
Proof.
  intros H. revert x. apply (rank_ind _ _ _ H). intros x Hx IH.
  apply lookup_lt_is_Some_2 in Hx as [y Hy]. destruct (rk_up _ _ H _ _ Hy) as [Hlt Hup].
  destruct (decide (x = y)) as [<-|Hn]; [eauto using root|].
  destruct (IH y Hlt (Hup Hn)) as [r Hr]. eauto using root.
Qed.

Lemma root_lt p rk x r : ranked p rk -> root p x r -> x < length p /\ r < length p.
Proof.
  intros H. induction 1 as [x Hx|x y r Hx _ _ [_ IH]].
  - apply lookup_lt_Some in Hx. lia.
  - apply lookup_lt_Some in Hx. lia.
Qed.

Lemma root_rank p rk x r : ranked p rk -> root p x r -> x = r \/ (rk !!! x < rk !!! r)%Z.
Proof.
  intros H. induction 1 as [x Hx|x y r Hx Hn _ IH]; [by left|]. right.
  destruct (rk_up _ _ H _ _ Hx) as [_ Hup]. specialize (Hup Hn). destruct IH as [<-|]; lia.
Qed.

Lemma same_roots_iff p rk p' x r :
  ranked p rk -> same_roots p p' -> root p' x r -> x < length p -> root p x r.
Proof.
  intros H [_ Hs] Hr Hx. destruct (root_total _ _ _ H Hx) as [r' Hr'].
  by rewrite (root_fun _ _ _ _ Hr (Hs _ _ Hr')).
Qed.

(** Redirecting a node to another one of its class with a higher rank. *)
Lemma redirect p rk x w r :
  ranked p rk -> x <> r -> root p x r -> root p w r -> (rk !!! x < rk !!! w)%Z ->
  ranked (<[x := w]> p) rk /\ same_roots p (<[x := w]> p).
Proof.
  intros H Hnr Hx Hw Hlt. destruct (root_lt _ _ _ _ H Hw) as [Hwl _].
  destruct (root_lt _ _ _ _ H Hx) as [Hxl _]. split.
  - split; [rewrite length_insert; apply H|apply H|]. rewrite length_insert. intros a b Hab.
    destruct (decide (a = x)) as [->|Ha].
    + rewrite list_lookup_insert_eq in Hab by done. by simplify_eq.
    + rewrite list_lookup_insert_ne in Hab by done. by apply H.
  - split; [apply length_insert|]. intros a b Hab.
    assert (Ha : a < length p) by apply (root_lt _ _ _ _ H Hab). revert b Hab.
    pattern a. revert a Ha. apply (rank_ind _ _ _ H). intros a Ha IH b Hab.
    destruct (decide (a = x)) as [->|Hax].
    + rewrite (root_fun _ _ _ _ Hab Hx). apply root_step with w.
      * by apply list_lookup_insert_eq.
      * intros <-. lia.
      * by apply IH.
    + inversion Hab as [? Haa|? y ? Hay Hne Hyb]; subst.
      * apply root_self. by rewrite list_lookup_insert_ne.
      * destruct (rk_up _ _ H _ _ Hay) as [Hyl Hup].
        apply root_step with y; [by rewrite list_lookup_insert_ne|done|]. apply IH; auto.
Qed.

(** ** Finding *)

Lemma find_loop_spec fuel p rk x px :
  ranked p rk -> p !! x = Some px -> (256 - rk !!! x < Z.of_nat fuel)%Z ->
  exists p' r, find_loop fuel p x px = Ret (p', r) /\
    root p x r /\ ranked p' rk /\ same_roots p p'.
Proof.
  revert p x px. induction fuel as [|fuel IH]; intros p x px H Hx Hf.
  - pose proof (rank_byte _ _ x H (lookup_lt_Some _ _ _ Hx)). lia.
  - destruct (rk_up _ _ H _ _ Hx) as [Hpl Hup]. pose proof (lookup_lt_Some _ _ _ Hx) as Hxl.
    simpl. destruct (Nat.eqb_spec px x) as [->|Hne].
    { exists p, x. split_and!; [done|by apply root_self|done|reflexivity]. }
    specialize (Hup ltac:(done)). destruct (lookup_lt_is_Some_2 _ _ Hpl) as [gp Hgp].
    rewrite (index_Some _ _ _ Hgp). simpl. rewrite index_set_lt by done. simpl.
    destruct (root_total _ _ _ H Hpl) as [r Hr]. assert (Hxr : root p x r) by eauto using root.
    assert (x <> r). { intros <-. destruct (root_rank _ _ _ _ H Hr); [congruence|lia]. }
    destruct (rk_up _ _ H _ _ Hgp) as [Hgl Hgup].
    pose proof (root_parent _ _ _ _ Hr Hgp) as Hgr.
    assert ((rk !!! x < rk !!! gp)%Z).
    { destruct (decide (px = gp)) as [<-|Hpg]; [done|]. specialize (Hgup Hpg). lia. }
    destruct (redirect p rk x gp r) as [H' Hs]; [done..|].
    destruct (IH (<[x:=gp]> p) px gp) as (p' & r' & -> & Hr' & Hp' & Hs');
      [done|by rewrite list_lookup_insert_ne|lia|].
    exists p', r'. split; [done|]. split; [|split; [done|by etrans]].
    pose proof (same_roots_iff p rk _ _ _ H Hs Hr' Hpl) as Hr''. by rewrite (root_fun _ _ _ _ Hr'' Hr).
Qed.

Lemma uf_same_roots u p' :
  uf u -> ranked p' (rank u) -> same_roots (parent u) p' -> uf (mkUF p' (rank u)).
Proof.
  intros H H' Hs. split; [done|]. simpl. intros r Hr.
  assert (Hrr : root (parent u) r r).
  { apply (same_roots_iff _ (rank u) p'); [apply H|done|by apply root_self|].
    rewrite <-(proj1 Hs). by eapply lookup_lt_Some. }
  destruct (uf_size u H r (root_is_root _ _ _ Hrr)) as (X & HX & Hsz).
  exists X. split; [|done]. intros x Hx. by apply Hs, HX.
Qed.

Lemma find_mut_recursive_spec u x :
  uf u -> x < len u ->
  exists u' r, find_mut_recursive u x = Ret (u', r) /\ uf u' /\
    root (parent u) x r /\ rank u' = rank u /\ same_roots (parent u) (parent u').
Proof.
  intros H Hx. unfold find_mut_recursive.
  destruct (lookup_lt_is_Some_2 _ _ Hx) as [px Hpx]. rewrite (index_Some _ _ _ Hpx). rbind.
  pose proof (uf_ranked u H) as Hr. pose proof (rank_byte _ _ x Hr Hx) as Hb.
  destruct (find_loop_spec 257 _ _ x px Hr Hpx) as (p' & r & -> & Hroot & Hp' & Hs); [lia|].
  exists (mkUF p' (rank u)), r. simpl. split; [done|]. split; [by apply uf_same_roots|done].
Qed.

Lemma try_find_mut_spec u x :
  uf u -> x < len u ->
  exists u' r, try_find_mut u x = Ret (u', Some r) /\ uf u' /\
    root (parent u) x r /\ rank u' = rank u /\ same_roots (parent u) (parent u').
Proof.
  intros H Hx. unfold try_find_mut. rewrite (proj2 (Nat.leb_gt _ _) Hx).
  destruct (find_mut_recursive_spec u x H Hx) as (u' & r & -> & ?). by exists u', r.
Qed.

(** ** Joining *)

(** Hanging the root [y] below the root [x]. *)
Lemma hang_root p x y a b :
  p !! x = Some x -> p !! y = Some y -> x <> y -> root p a b ->
  root (<[y := x]> p) a (if decide (b = y) then x else b).
Proof.
  intros Hx Hy Hn. pose proof (lookup_lt_Some _ _ _ Hy).
  induction 1 as [a Ha|a c b Ha Hac Hcb IH].
  - destruct (decide (a = y)) as [->|Hay].
    + apply root_step with x; [by apply list_lookup_insert_eq|done|].
      apply root_self. by rewrite list_lookup_insert_ne.
    + apply root_self. by rewrite list_lookup_insert_ne.
  - apply root_step with c; [|done|done]. rewrite list_lookup_insert_ne; [done|]. intros <-. congruence.
Qed.

Lemma hang_uf u x y rk' :
  uf u -> parent u !! x = Some x -> parent u !! y = Some y -> x <> y ->
  length rk' = length (rank u) -> Forall (is_uint 8) rk' ->
  (forall a, a <> x -> rk' !!! a = rank u !!! a) ->
  (rank u !!! x <= rk' !!! x)%Z -> (rank u !!! y < rk' !!! x)%Z ->
  (2 ^ (rk' !!! x) <= 2 ^ (rank u !!! x) + 2 ^ (rank u !!! y))%Z ->
  uf (mkUF (<[y := x]> (parent u)) rk').
Proof.
  intros H Hx Hy Hxy Hlen Hbyte Hother Hge Hgt Hsum. pose proof (uf_ranked u H) as Hr.
  pose proof (lookup_lt_Some _ _ _ Hx). pose proof (lookup_lt_Some _ _ _ Hy). split; simpl.
  - split; rewrite ?length_insert; [rewrite Hlen; apply Hr|done|]. intros a b Hab.
    destruct (decide (a = y)) as [->|Hay].
    + rewrite list_lookup_insert_eq in Hab by done. simplify_eq. split; [done|].
      intros _. by rewrite Hother.
    + rewrite list_lookup_insert_ne in Hab by done. destruct (rk_up _ _ Hr _ _ Hab) as [Hb Hup].
      split; [done|]. intros Hne. specialize (Hup Hne).
      assert (a <> x) by (intros ->; congruence). rewrite (Hother a) by done.
      destruct (decide (b = x)) as [->|]; [lia|by rewrite Hother].
  - intros r Hrr. destruct (decide (r = y)) as [->|Hry].
    { rewrite list_lookup_insert_eq in Hrr by done. congruence. }
    rewrite list_lookup_insert_ne in Hrr by done.
    destruct (uf_size u H r Hrr) as (X & HX & Hsz).
    destruct (decide (r = x)) as [->|Hrx].
    + destruct (uf_size u H y Hy) as (Y & HY & Hsy). exists (X ∪ Y). split.
      * intros a [Ha|Ha]%elem_of_union.
        -- apply HX in Ha. apply (hang_root _ x y) in Ha; [|done..]. by rewrite decide_False in Ha.
        -- apply HY in Ha. apply (hang_root _ x y) in Ha; [|done..]. by rewrite decide_True in Ha.
      * rewrite size_union; [lia|]. intros a Ha Hb. apply HX in Ha. apply HY in Hb.
        apply Hxy. by rewrite (root_fun _ _ _ _ Ha Hb).
    + rewrite Hother by done. exists X. split; [|done]. intros a Ha. apply HX in Ha.
      apply (hang_root _ x y) in Ha; [|done..]. by rewrite decide_False in Ha.
Qed.

(** Ranks are at most logarithmic: the comment in the source that a byte is more
    than enough. *)
Lemma rank_log u r : uf u -> parent u !! r = Some r -> (2 ^ (rank u !!! r) <= Z.of_nat (len u))%Z.
Proof.
  intros H Hr. destruct (uf_size u H r Hr) as (X & HX & Hsz). etrans; [done|]. apply Nat2Z.inj_le.
  rewrite <-(size_set_seq (C:=gset nat) 0 (len u)). apply subseteq_size. intros x Hx.
  apply elem_of_set_seq. destruct (root_lt _ _ _ _ (uf_ranked u H) (HX x Hx)). unfold len. lia.
Qed.

Lemma link_spec u x y :
  uf u -> (Z.of_nat (len u) < 2 ^ 255)%Z ->
  parent u !! x = Some x -> parent u !! y = Some y -> x <> y ->
  exists u', link u x y = Ret u' /\ uf u' /\ len u' = len u /\
    (parent u' = <[y := x]> (parent u) \/ parent u' = <[x := y]> (parent u)).
Proof.
  intros H Hlen Hx Hy Hxy. pose proof (uf_ranked u H) as Hr. unfold link.
  pose proof (lookup_lt_Some _ _ _ Hx) as Hxl. pose proof (lookup_lt_Some _ _ _ Hy) as Hyl.
  rewrite <-(rk_len _ _ Hr) in Hxl, Hyl.
  rewrite (index_Some _ _ _ (list_lookup_lookup_total_lt _ _ Hxl)). simpl.
  rewrite (index_Some _ _ _ (list_lookup_lookup_total_lt _ _ Hyl)). simpl.
  rewrite (rk_len _ _ Hr) in Hxl, Hyl. rewrite !index_set_lt by (by rewrite ?(rk_len _ _ Hr)). simpl.
  pose proof (rank_byte _ _ _ Hr Hxl). pose proof (rank_byte _ _ _ Hr Hyl).
  pose proof (Z.pow_pos_nonneg 2 (rank u !!! x)). pose proof (Z.pow_pos_nonneg 2 (rank u !!! y)).
  destruct (Z.compare_spec (rank u !!! x) (rank u !!! y)) as [He|Hlt|Hgt].
  - assert (rank u !!! x < 255)%Z.
    { apply (Z.pow_lt_mono_r_iff 2); [lia|lia|]. pose proof (rank_log u x H Hx). lia. }
    rewrite wrap_id by (unfold is_uint; lia).
    eexists. split; [done|]. split; [|split; [apply length_insert|by left]].
    assert (Hxr : x < length (rank u)) by (by rewrite (rk_len _ _ Hr)).
    apply hang_uf; try done; rewrite ?list_lookup_total_insert_eq by done.
    + by rewrite length_insert.
    + apply Forall_insert; [apply Hr|]. unfold is_uint. lia.
    + intros a Ha. by rewrite list_lookup_total_insert_ne.
    + lia.
    + lia.
    + rewrite <-He, Z.pow_add_r by lia. lia.
  - eexists. split; [done|]. split; [|split; [apply length_insert|by right]].
    apply hang_uf; try done; [apply Hr|lia].
  - eexists. split; [done|]. split; [|split; [apply length_insert|by left]].
    apply hang_uf; try done; [apply Hr|lia].
Qed.

(** ** Classes *)

(** Two elements are in the same set. *)
Definition same (u : UnionFind) (x y : nat) : Prop :=
  exists r, root (parent u) x r /\ root (parent u) y r.

Lemma same_iff u a b ra rb :
  root (parent u) a ra -> root (parent u) b rb -> same u a b <-> ra = rb.
Proof.
  intros Ha Hb. split; [|intros <-; by exists ra]. intros (r & H1 & H2).
  by rewrite (root_fun _ _ _ _ Ha H1), (root_fun _ _ _ _ Hb H2).
Qed.

Lemma same_sym u a b : same u a b -> same u b a.
Proof. intros (r & ? & ?). by exists r. Qed.

Lemma same_trans u a b c : same u a b -> same u b c -> same u a c.
Proof.
  intros (r & H1 & H2) (r' & H3 & H4). rewrite (root_fun _ _ _ _ H3 H2) in H4. by exists r.
Qed.

Lemma same_refl u a : uf u -> a < len u -> same u a a.
Proof. intros H Ha. destruct (root_total _ _ _ (uf_ranked u H) Ha) as [r Hr]. by exists r. Qed.

(** [u'] has joined the classes of [x] and [y] of [u]. *)
Definition joins (u u' : UnionFind) (x y : nat) : Prop :=
  uf u' /\ len u' = len u /\ same u' x y /\
  (forall a b, same u a b -> same u' a b) /\
  (forall a b, a < len u -> b < len u -> same u' a b ->
     same u a b \/ (same u a x /\ same u y b) \/ (same u a y /\ same u x b)).

Lemma joins_same u u' x y :
  uf u -> uf u' -> same_roots (parent u) (parent u') -> same u x y -> joins u u' x y.
Proof.
  intros H H' [Hl Hs] Hxy. split_and!; [done|done| | |].
  - destruct Hxy as (r & ? & ?). exists r. auto.
  - intros a b (r & ? & ?). exists r. auto.
  - intros a b Ha Hb (r & H1 & H2). left. exists r.
    split; eapply same_roots_iff; eauto using uf_ranked; by split.
Qed.

Lemma joins_sym u u' x y : joins u u' x y -> joins u u' y x.
Proof.
  intros (? & ? & Hxy & ? & Hinv). split_and!; [done|done|by apply same_sym|done|].
  intros a b Ha Hb Hs. destruct (Hinv a b Ha Hb Hs) as [|[|]]; auto.
Qed.

(** Hanging a root below another joins their classes. *)
Lemma joins_hang u u' x y rx ry :
  uf u -> uf u' -> root (parent u) x rx -> root (parent u) y ry -> rx <> ry ->
  parent u' = <[ry := rx]> (parent u) -> joins u u' x y.
Proof.
  intros H H' Hx Hy Hn Hp. pose proof (uf_ranked u H) as Hr.
  assert (Hh : forall a b, root (parent u) a b ->
    root (parent u') a (if decide (b = ry) then rx else b)).
  { intros a b. rewrite Hp. apply hang_root; eauto using root_is_root. }
  split_and!; [done|unfold len; by rewrite Hp, length_insert| | |].
  - apply Hh in Hx, Hy. rewrite decide_False in Hx by done. rewrite decide_True in Hy by done.
    by exists rx.
  - intros a b (r & Ha%Hh & Hb%Hh). by eexists.
  - intros a b Ha Hb Hab.
    destruct (root_total _ _ _ Hr Ha) as [ra Hra]. destruct (root_total _ _ _ Hr Hb) as [rb Hrb].
    rewrite (same_iff _ _ _ _ _ (Hh _ _ Hra) (Hh _ _ Hrb)) in Hab.
    rewrite (same_iff u a b ra rb), (same_iff u a x ra rx), (same_iff u y b ry rb),
      (same_iff u a y ra ry), (same_iff u x b rx rb) by done.
    repeat case_decide; subst; auto.
Qed.

Lemma joins_pre u u1 u' x y :
  uf u -> uf u1 -> same_roots (parent u) (parent u1) -> x < len u -> y < len u ->
  joins u1 u' x y -> joins u u' x y.
Proof.
  intros H H1 Hs Hx Hy (H' & Hl & Hxy & Hm & Hinv).
  assert (Hlen : len u1 = len u) by apply Hs.
  assert (Hback : forall a b, a < len u -> b < len u -> same u1 a b -> same u a b).
  { intros a b Ha Hb (r & H2 & H3). exists r.
    split; eapply same_roots_iff; eauto using uf_ranked. }
  split_and!; [done|congruence|done| |].
  - intros a b (r & H2 & H3). apply Hm. exists r. split; by apply Hs.
  - intros a b Ha Hb Hab. rewrite Hlen in Hinv.
    destruct (Hinv a b Ha Hb Hab) as [?|[[??]|[??]]]; auto 10.
Qed.

Lemma union_spec u x y :
  uf u -> (Z.of_nat (len u) < 2 ^ 255)%Z -> x < len u -> y < len u ->
  exists u' b, union u x y = Ret (u', b) /\ joins u u' x y.
Proof.
  intros H Hlen Hx Hy. unfold union, try_union. destruct (Nat.eqb_spec x y) as [<-|Hxy].
  { exists u, false. split; [done|]. apply joins_same; [done..|reflexivity|by apply same_refl]. }
  destruct (try_find_mut_spec u x H Hx) as (u1 & rx & -> & H1 & Hrx & Hk1 & Hs1). rbind.
  assert (Hl1 : len u1 = len u) by apply Hs1.
  destruct (try_find_mut_spec u1 y H1) as (u2 & ry & -> & H2 & Hry & Hk2 & Hs2); [lia|]. rbind.
  assert (Hl2 : len u2 = len u1) by apply Hs2.
  apply Hs1, Hs2 in Hrx. apply Hs2 in Hry. assert (Hs : same_roots (parent u) (parent u2)) by by etrans.
  destruct (Nat.eqb_spec rx ry) as [<-|Hr]; rbind.
  - exists u2, false. split; [done|]. apply joins_pre with u2; [done..|].
    apply joins_same; [done..|reflexivity|by exists rx].
  - destruct (link_spec u2 rx ry) as (u3 & -> & H3 & Hl3 & Hp);
      [done|by rewrite Hl2, Hl1|by eapply root_is_root..|done|]. rbind.
    exists u3, true. split; [done|]. apply joins_pre with u2; [done..|].
    destruct Hp as [Hp|Hp]; [by eapply joins_hang|apply joins_sym; by eapply joins_hang].
Qed.

Lemma new_uf n : uf (new n).
Proof.
  assert (Hs : forall x y, seq 0 n !! x = Some y -> y = x /\ x < n).
  { intros x y [? ?]%lookup_seq. lia. }
  split; simpl.
  - split; [by rewrite length_replicate, length_seq|by apply Forall_replicate|].
    intros x y [-> Hx]%Hs. by rewrite length_seq.
  - intros r Hr. destruct (Hs _ _ Hr) as [_ Hlt]. exists {[ r ]}. split.
    + intros x ->%elem_of_singleton. by apply root_self.
    + by rewrite lookup_total_replicate_2, size_singleton.
Qed.

(** The loop over the edges: the edges seen are inside classes, and classes are
    inside the components. *)
Lemma union_all_spec es u (R : relation nat) :
  uf u -> (Z.of_nat (len u) < 2 ^ 255)%Z ->
  Forall (fun e => e.1 < len u /\ e.2 < len u /\ R e.1 e.2) es ->
  (forall a b, a < len u -> b < len u -> same u a b -> rtsc R a b) ->
  exists u', union_all u es = Ret u' /\ uf u' /\ len u' = len u /\
    (forall a b, same u a b -> same u' a b) /\
    (forall a b, (a, b) ∈ es -> same u' a b) /\
    (forall a b, a < len u -> b < len u -> same u' a b -> rtsc R a b).
Proof.
  revert u. induction es as [|[x y] es IH]; intros u H Hlen Hes Hsound.
  { exists u. split_and!; try done. by intros a b ?%not_elem_of_nil. }
  apply Forall_cons in Hes as [(Hx & Hy & HR) Hes]. simpl in *.
  destruct (union_spec u x y H Hlen Hx Hy) as (u1 & b & -> & H1 & Hl1 & Hxy & Hm & Hinv). rbind.
  assert (HRxy : rtsc R x y) by (by apply rtc_once, sc_lr).
  destruct (IH u1) as (u' & -> & H' & Hl' & Hm' & He' & Hs'); rewrite ?Hl1; [done..| |].
  - intros a c Ha Hc [?|[[??]|[??]]]%Hinv; [auto| | |done|done].
    + trans x; [by apply Hsound|]. trans y; [done|by apply Hsound].
    + trans y; [by apply Hsound|]. trans x; [by symmetry|by apply Hsound].
  - rewrite Hl1 in *. exists u'. split_and!; auto.
    intros a c [[= -> ->]|?]%elem_of_cons; auto.
Qed.

(** ** Labels *)

(** A node whose parent is a root keeps it through a search. *)
Lemma find_loop_flat fuel p x px p' r i q :
  p !! x = Some px -> find_loop fuel p x px = Ret (p', r) ->
  p !! i = Some q -> p !! q = Some q -> p' !! i = Some q /\ p' !! q = Some q.
Proof.
  revert p x px. induction fuel as [|fuel IH]; intros p x px Hx Hf Hi Hq; simpl in Hf; [done|].
  destruct (Nat.eqb_spec px x) as [->|Hne]; [by simplify_eq|].
  unfold index in Hf. destruct (p !! px) as [gp|] eqn:Hgp; [|done]. simpl in Hf.
  pose proof (lookup_lt_Some _ _ _ Hx). rewrite index_set_lt in Hf by done. simpl in Hf.
  assert (q <> x) by congruence.
  apply (IH _ _ _) in Hf; [done|by rewrite list_lookup_insert_ne| |by rewrite list_lookup_insert_ne].
  destruct (decide (i = x)) as [->|]; [|by rewrite list_lookup_insert_ne].
  rewrite list_lookup_insert_eq by done. congruence.
Qed.

Lemma root_flat p i q : p !! i = Some q -> p !! q = Some q -> root p i q.
Proof.
  intros Hi Hq. destruct (decide (i = q)) as [<-|]; [by apply root_self|].
  eapply root_step; [done..|by apply root_self].
Qed.

(** Writing the root of a node as its parent. *)
Lemma relabel_uf u ix r :
  uf u -> root (parent u) ix r ->
  uf (mkUF (<[ix := r]> (parent u)) (rank u)) /\ same_roots (parent u) (<[ix := r]> (parent u)).
Proof.
  intros H Hr. pose proof (root_is_root _ _ _ Hr).
  destruct (decide (ix = r)) as [->|Hne]; [rewrite list_insert_id by done; by destruct u|].
  destruct (redirect (parent u) (rank u) ix r r) as [Hr1 Hs1]; auto using uf_ranked, root_self.
  - by destruct (root_rank _ _ _ _ (uf_ranked u H) Hr).
  - split; [by apply uf_same_roots|done].
Qed.

Lemma relabel_flat p ix r j q :
  ix < length p -> root p ix r -> p !! j = Some q -> p !! q = Some q -> <[ix := r]> p !! j = Some q.
Proof.
  intros Hl Hr Hj Hq. destruct (decide (ix = j)) as [<-|Hne]; [|by rewrite list_lookup_insert_ne].
  rewrite list_lookup_insert_eq by done. f_equal. eapply root_fun; [done|by apply root_flat].
Qed.

(** One round of [into_labeling]. *)
Lemma label_step u ix :
  uf u -> ix < len u ->
  exists px u1 r p, index (parent u) ix = Ret px /\ find_mut_recursive u px = Ret (u1, r) /\
    index_set (parent u1) ix r = Ret p /\ uf (mkUF p (rank u1)) /\
    same_roots (parent u) p /\ p !! ix = Some r /\ p !! r = Some r /\
    (forall i q, parent u !! i = Some q -> parent u !! q = Some q ->
       p !! i = Some q /\ p !! q = Some q).
Proof.
  intros H Hix. destruct (lookup_lt_is_Some_2 _ _ Hix) as [px Hpx].
  destruct (rk_up _ _ (uf_ranked u H) _ _ Hpx) as [Hpl _].
  destruct (find_mut_recursive_spec u px H Hpl) as (u1 & r & Hf & H1 & Hr & Hk & Hs).
  assert (Hrx : root (parent u) ix r).
  { destruct (decide (ix = px)) as [<-|]; [done|by eapply root_step]. }
  pose proof (proj2 Hs _ _ Hrx) as Hrx1. pose proof (root_is_root _ _ _ Hrx1) as Hrr1.
  assert (Hl1 : ix < length (parent u1)) by (rewrite (proj1 Hs); done).
  exists px, u1, r, (<[ix := r]> (parent u1)). rewrite (index_Some _ _ _ Hpx), index_set_lt by done.
  destruct (relabel_uf u1 ix r H1 Hrx1) as [Hu Hs1].
  split_and!; try done; [by etrans|by apply list_lookup_insert_eq|by apply relabel_flat|].
  intros i q Hi Hq. unfold find_mut_recursive in Hf.
  destruct (lookup_lt_is_Some_2 _ _ Hpl) as [ppx Hppx]. rewrite (index_Some _ _ _ Hppx) in Hf.
  cbn [mbind outcome_bind] in Hf. destruct (find_loop _ _ _ _) as [[p' r']|] eqn:Hfl; [|done].
  injection Hf as <- <-. destruct (find_loop_flat _ _ _ _ _ _ i q Hppx Hfl Hi Hq).
  split; by apply relabel_flat.
Qed.

Lemma label_loop_spec k ix u :
  uf u -> ix + k = len u ->
  (forall i, i < ix -> exists q, parent u !! i = Some q /\ parent u !! q = Some q) ->
  exists u', label_loop u ix k = Ret u' /\ uf u' /\ same_roots (parent u) (parent u') /\
    forall i, i < len u -> exists q, parent u' !! i = Some q /\ parent u' !! q = Some q.
Proof.
  revert ix u. induction k as [|k IH]; intros ix u H Hk Hflat; simpl.
  - exists u. split_and!; [done|done|reflexivity|]. intros i Hi. apply Hflat. lia.
  - destruct (label_step u ix H) as (px & u1 & r & p & -> & Hf & Hset & Hu & Hs & Hix & Hr & Hkeep);
      [lia|]. rbind. rewrite Hf. rbind. rewrite Hset. rbind.
    destruct (IH (S ix) (mkUF p (rank u1)) Hu) as (u' & -> & H' & Hs' & Hall).
    + unfold len in *. simpl. rewrite (proj1 Hs). lia.
    + simpl. intros i Hi. destruct (decide (i = ix)) as [->|Hne]; [by exists r|].
      destruct (Hflat i) as (q & Hq1 & Hq2); [lia|]. exists q. by apply Hkeep.
    + exists u'. split_and!; [done|done|by etrans|]. unfold len in *. simpl in Hall.
      rewrite (proj1 Hs) in Hall. done.
Qed.

(** Every element is labelled with its root. *)
Lemma into_labeling_spec u :
  uf u -> exists labels, into_labeling u = Ret labels /\ length labels = len u /\
    forall x r, labels !! x = Some r <-> root (parent u) x r.
Proof.
  intros H. unfold into_labeling.
  destruct (label_loop_spec (len u) 0 u H) as (u' & -> & H' & Hs & Hall); [lia|lia|].
  exists (parent u'). split_and!; [done|apply Hs|]. intros x r.
  assert (Hx : x < len u -> forall q, root (parent u) x q -> parent u' !! x = Some q).
  { intros Hx q Hq. destruct (Hall x Hx) as (q' & H1 & H2). rewrite H1. f_equal.
    apply (root_fun (parent u') x); [|by apply Hs].
    destruct (decide (x = q')) as [<-|]; [by apply root_self|].
    eapply root_step; [done..|by apply root_self]. }
  split.
  - intros Hxr. assert (Hlt : x < len u) by (unfold len; rewrite <-(proj1 Hs); by eapply lookup_lt_Some).
    destruct (root_total _ _ _ (uf_ranked u H) Hlt) as [q Hq].
    pose proof (Hx Hlt q Hq). by simplify_eq.
  - intros Hr. apply Hx; [|done]. by apply (root_lt _ _ _ _ (uf_ranked u H) Hr).
Qed.

(** ** The count *)

Lemma dedup_spec {A} `{EqDecision A} (R : relation A) `{!AntiSymm (=) R} l :
  StronglySorted R l ->
  (forall x, x ∈ dedup l <-> x ∈ l) /\ NoDup (dedup l) /\ StronglySorted R (dedup l).
Proof.
  induction 1 as [|x l Hs (He & Hnd & Hd) Hx]; simpl; [split_and!; [done|constructor..]|].
  destruct (dedup l) as [|y d].
  - split_and!; [|apply NoDup_singleton|by repeat constructor]. intros z.
    by rewrite !elem_of_cons, <-He.
  - rewrite Forall_forall in Hx.
    destruct (decide (x = y)) as [->|Hne].
    + split_and!; [|done|done]. intros z. rewrite (elem_of_cons l), <-He, elem_of_cons. tauto.
    + inversion Hd as [|? ? _ Hyd]; subst. rewrite Forall_forall in Hyd. split_and!.
      * intros z. by rewrite !(elem_of_cons _ z x), <-He.
      * constructor; [|done]. intros [->|Hin]%elem_of_cons; [done|]. apply Hne, (anti_symm R).
        -- apply Hx, He. left.
        -- by apply Hyd.
      * constructor; [done|]. apply Forall_forall. intros z Hz. by apply Hx, He.
Qed.

(** The distinct elements, in order. *)
Definition distinct {A} `{EqDecision A} (R : relation A) `{!forall x y, Decision (R x y)}
    (l : list A) : list A := dedup (merge_sort R l).

Lemma distinct_spec {A} `{EqDecision A} (R : relation A) `{!forall x y, Decision (R x y)}
    `{!AntiSymm (=) R, !Transitive R, !Total R} l :
  NoDup (distinct R l) /\ forall x, x ∈ distinct R l <-> x ∈ l.
Proof.
  unfold distinct. destruct (dedup_spec R (merge_sort R l)) as (He & Hnd & _).
  { apply StronglySorted_merge_sort; apply _. }
  split; [done|]. intros x. rewrite He. by rewrite merge_sort_Permutation.
Qed.

(** ** Components *)

(** An edge between two nodes. *)
Definition adjacent {N E} (g : Graph.Graph N E) (a b : nat) : Prop := (a, b) ∈ edge_indices g.

Lemma edge_indices_lt {N E} (g : Graph.Graph N E) a b :
  Graph.wf g -> adjacent g a b -> a < Graph.node_count g /\ b < Graph.node_count g.
Proof.
  intros H. unfold adjacent, edge_indices, Graph.edge_references.
  intros ([[s t] w] & [= -> ->] & (e & [= -> -> ->] & He)%list_elem_of_fmap)%list_elem_of_fmap.
  pose proof (proj1 (Forall_forall _ _) (Graph.wf_ends g H) e He) as Hd.
  pose proof (Hd Graph.Outgoing). pose proof (Hd Graph.Incoming). simpl in *. lia.
Qed.

(** The classes at the end are the weakly connected components. *)
Lemma union_all_components {N E} (g : Graph.Graph N E) :
  Graph.wf g ->
  exists u, union_all (new (Graph.node_count g)) (edge_indices g) = Ret u /\
    uf u /\ len u = Graph.node_count g /\
    forall a b, a < len u -> b < len u -> same u a b <-> rtsc (adjacent g) a b.
Proof.
  intros H. set (n := Graph.node_count g).
  assert (Hn : len (new n) = n) by apply length_seq.
  destruct (union_all_spec (edge_indices g) (new n) (adjacent g)) as (u & -> & Hu & Hl & _ & He & Hs).
  - apply new_uf.
  - rewrite Hn. pose proof (Graph.wf_nodes g H). unfold Graph.END in *. lia.
  - rewrite Hn. apply Forall_forall. intros [a b] Hab. simpl.
    destruct (edge_indices_lt g a b H Hab). done.
  - rewrite Hn. intros a b Ha Hb (r & Hra & Hrb).
    assert (Hid : forall x y, root (seq 0 n) x y -> x = y).
    { induction 1 as [|x y r' Hxy Hne _ _]; [done|]. apply lookup_seq in Hxy. lia. }
    by rewrite (Hid _ _ Hra), (Hid _ _ Hrb).
  - rewrite Hn in *. exists u. split_and!; [done..|]. intros a b Ha Hb. rewrite Hl in *.
    split; [by apply Hs|]. intros Hab. revert Ha. induction Hab as [a|a c b Hac _ IH]; intros Ha.
    + apply same_refl; [done|]. by rewrite Hl.
    + assert (Hsame : same u a c).
      { destruct Hac as [Hac|Hac]; [by apply He|by apply same_sym, He]. }
      apply same_trans with c; [done|]. apply IH; [done|].
      destruct Hac as [Hac|Hac]; apply (edge_indices_lt g _ _ H) in Hac; unfold n; tauto.
Qed.

(** One node of every weakly connected component. *)
Definition represents {N E} (g : Graph.Graph N E) (reps : list nat) : Prop :=
  NoDup reps /\
  (forall r, r ∈ reps -> r < Graph.node_count g) /\
  (forall a, a < Graph.node_count g -> exists r, r ∈ reps /\ rtsc (adjacent g) a r) /\
  (forall r r', r ∈ reps -> r' ∈ reps -> rtsc (adjacent g) r r' -> r = r').

(** Components are counted: there are as many representatives as the result. *)
Lemma connected_components_spec {N E} (g : Graph.Graph N E) :
  Graph.wf g -> exists reps : list nat,
    connected_components g = Ret (length reps) /\ represents g reps.
Proof.
  intros H. unfold connected_components.
  destruct (union_all_components g H) as (u & -> & Hu & Hl & Hsame). rbind.
  destruct (into_labeling_spec u Hu) as (labels & -> & Hlab & Hroot). rbind.
  destruct (distinct_spec (≤) labels) as [Hnd Hin]. exists (distinct (≤) labels).
  assert (Hrep : forall r, r ∈ distinct (≤) labels -> root (parent u) r r).
  { intros r [x Hx]%Hin%list_elem_of_lookup_1. apply Hroot in Hx.
    by apply root_self, (root_is_root _ x). }
  assert (Hlt : forall r, r ∈ distinct (≤) labels -> r < len u).
  { intros r Hr%Hrep. by apply (root_lt _ _ _ _ (uf_ranked u Hu) Hr). }
  unfold represents. split_and!; [done|done|by rewrite <-Hl| |].
  - intros a Ha. rewrite <-Hl in Ha. destruct (root_total _ _ _ (uf_ranked u Hu) Ha) as [r Hr].
    assert (Hrd : r ∈ distinct (≤) labels).
    { apply Hin. eapply list_elem_of_lookup_2. by apply Hroot. }
    exists r. split; [done|]. apply Hsame; auto. exists r. auto.
  - intros r r' Hr Hr' Hrr. apply Hsame in Hrr; auto.
    exact (proj1 (same_iff u r r' r r' (Hrep r Hr) (Hrep r' Hr')) Hrr).
Qed.

(** C37: on a well-formed graph [connected_components] returns, without an
    access out of range and without a rank overflowing, and its result is the
    number of weakly connected components: there is a list of that many pairwise
    unconnected nodes such that every node is connected to one of them. *)
Theorem connected_components_counts {N E} (g : Graph.Graph N E) :
  Graph.wf g -> exists reps : list nat,
    connected_components g = Ret (length reps) /\ represents g reps.
Proof. apply connected_components_spec. Qed.

(** The case the validation asks for. *)
Lemma connected_components_one {N E} (g : Graph.Graph N E) :
  Graph.wf g ->
  connected_components g = Ret 1 <->
    0 < Graph.node_count g /\
    forall a b, a < Graph.node_count g -> b < Graph.node_count g -> rtsc (adjacent g) a b.
Proof.
  intros H. destruct (connected_components_spec g H) as (reps & -> & Hnd & Hlt & Hex & Huniq).
  destruct reps as [|r [|r' reps]]; simpl.
  - split; [done|]. intros [Hn _]. destruct (Hex 0 Hn) as (? & []%not_elem_of_nil & _).
  - split; [|done]. intros _. split; [specialize (Hlt r ltac:(left)); lia|].
    intros a b Ha Hb. destruct (Hex a Ha) as (? & ->%list_elem_of_singleton & Har).
    destruct (Hex b Hb) as (? & ->%list_elem_of_singleton & Hbr). trans r; [done|by symmetry].
  - split; [done|]. intros [_ Hall]. exfalso. apply NoDup_cons in Hnd as [Hn _]. apply Hn.
    rewrite (Huniq r r'); [left|left|right; left|]. apply Hall; apply Hlt; [left|right; left].
Qed.

(** Two joined nodes and a third one on its own. *)
Definition two_parts : Graph.Graph unit unit :=
  Graph.mkGraph [Graph.mkNode tt (0, Graph.END)%Z; Graph.mkNode tt (Graph.END, 0)%Z;
                 Graph.mkNode tt (Graph.END, Graph.END)]
    [Graph.mkEdge tt (Graph.END, Graph.END) (0, 1)%Z].

Lemma connected_components_counts_witness :
  connected_components two_parts = Ret 2 /\ exists reps : list nat, length reps = 2 /\ NoDup reps.
Proof.
  assert (Hw : Graph.wf two_parts).
  { split; [done|done|constructor; [intros []; vm_compute; split; congruence|constructor]|].
    intros a n dir Ha. pose proof (Graph.get_lt _ _ _ Ha) as Hlt. simpl in Hlt.
    assert (Hc : a = 0%Z \/ a = 1%Z \/ a = 2%Z) by lia.
    destruct Hc as [->|[->| ->]]; injection Ha as <-; destruct dir; simpl;
      try apply Graph.chain_nil; eapply Graph.chain_cons; try done; apply Graph.chain_nil. }
  destruct (connected_components_counts two_parts Hw) as (reps & Hr & Hnd & _).
  assert (Hv : connected_components two_parts = Ret 2) by (vm_compute; reflexivity).
  split; [done|]. exists reps. split; [congruence|done].
Defined.

End UnionFind.
