(* ===== verification/Dfs.v ===== *)
(** * Depth-first search and the test for cycles

    [awkernel_async_lib/src/dag/visit/dfsvisit.rs], the [VisitMap] of
    [dag/visit.rs] and [is_cyclic_directed] of [dag/graph/algo.rs].  The search
    is generic in the control values ([ControlFlow]) and in the visitor, whose
    captured state is passed along.  The bit set of the visit maps is the
    external crate [fixedbitset]: the class [FixedBitSet] has its operations and
    [FixedBitSetLaws] what its documentation promises. *)

From S2P Require Import Prelude Graph.
From stdpp Require Import relations.

(** The parts of [fixedbitset::FixedBitSet] the visit maps use. *)
Class FixedBitSet (M : Type) : Type := {
  with_capacity : nat -> M;
  put : M -> nat -> outcome (bool * M);
  contains : M -> nat -> bool
}.

(** [put] enables a bit below the capacity and gives its previous value; a new
    set has no bit. *)
Class FixedBitSetLaws (M : Type) `{FixedBitSet M} : Type := {
  bits : M -> nat;
  bits_with_capacity n : bits (with_capacity n) = n;
  contains_with_capacity n i : contains (with_capacity n) i = false;
  put_in_range m i : i < bits m -> exists m', put m i = Ret (contains m i, m') /\
    bits m' = bits m /\ forall j, contains m' j = bool_decide (j = i) || contains m j
}.

Module Dfs.

(** [impl VisitMap for FixedBitSet]. *)
Section visit_map.
Context {M : Type} `{FixedBitSet M}.

Definition visit (m : M) (x : Z) : outcome (bool * M) :=
  '(b, m') ← put m (Z.to_nat x); Ret (negb b, m').
Definition is_visited (m : M) (x : Z) : bool := contains m (Z.to_nat x).

(** [Graph::visit_map]. *)
Definition visit_map {N E} (g : Graph.Graph N E) : M := with_capacity (Graph.node_count g).

End visit_map.

(** [enum DfsEvent]; [Time] is a [usize]. *)
Inductive DfsEvent : Type :=
| Discover (n : Z) (t : Z)
| TreeEdge (u v : Z)
| BackEdge (u v : Z)
| CrossForwardEdge (u v : Z)
| Finish (n : Z) (t : Z).

(** [enum Control]. *)
Inductive Control (B : Type) : Type := Continue | Prune | Break (b : B).
Arguments Continue {B}.
Arguments Prune {B}.
Arguments Break {B} b.

(** [Control::break_value]. *)
Definition break_value {B} (c : Control B) : option B :=
  match c with Continue | Prune => None | Break b => Some b end.

(** [trait ControlFlow] and its three implementations. *)
Class ControlFlow (C : Type) : Type := {
  continuing : C;
  should_break : C -> bool;
  should_prune : C -> bool
}.

#[export] Instance unit_flow : ControlFlow unit := {|
  continuing := tt; should_break _ := false; should_prune _ := false |}.

#[export] Instance control_flow B : ControlFlow (Control B) := {|
  continuing := Continue;
  should_break c := match c with Break _ => true | _ => false end;
  should_prune c := match c with Prune => true | _ => false end |}.

#[export] Instance result_flow C E `{ControlFlow C} : ControlFlow (result C E) := {|
  continuing := Ok continuing;
  should_break r := match r with Ok c => should_break c | Err _ => true end;
  should_prune r := match r with Ok c => should_prune c | Err _ => false end |}.

Section search.
Context {N E M C V : Type} `{FixedBitSet M, ControlFlow C}.
Variable g : Graph.Graph N E.
Variable visitor : V -> DfsEvent -> V * C.

(** What the search carries: the visitor's state, the two maps and the time. *)
Record St : Type := mkSt { vst : V; discovered : M; finished : M; time : Z }.

(** One call of the visitor. *)
Definition call (st : St) (e : DfsEvent) : St * C :=
  let '(v, c) := visitor (vst st) e in
  (mkSt v (discovered st) (finished st) (time st), c).

(** [time_post_inc], as the time of an event and the state after it. *)
Definition time_post_inc (st : St) : Z * St :=
  (time st, mkSt (vst st) (discovered st) (finished st) (wrap 64 (time st + 1))).

(** The [for] loop over the neighbours of [u]; [Some c] is a [return c] and
    [rec] the recursive call. *)
Fixpoint edges_loop (rec : Z -> St -> outcome (C * St)) (u : Z) (vs : list Z) (st : St)
    : outcome (option C * St) :=
  match vs with
  | [] => Ret (None, st)
  | v :: vs' =>
      if negb (is_visited (discovered st) v) then
        let '(st, x) := call st (TreeEdge u v) in
        if should_break x then Ret (Some x, st)
        else if should_prune x then edges_loop rec u vs' st
        else
          '(x, st) ← rec v st;
          if should_break x then Ret (Some x, st)
          else if should_prune x then Panic
          else edges_loop rec u vs' st
      else
        let ev := if negb (is_visited (finished st) v) then BackEdge u v
                  else CrossForwardEdge u v in
        let '(st, x) := call st ev in
        if should_break x then Ret (Some x, st) else edges_loop rec u vs' st
  end.

(** The end of [dfs_visitor]: [u] is finished. *)
Definition finish (u : Z) (st : St) : outcome (C * St) :=
  '(first_finish, fin) ← visit (finished st) u;
  assert_true first_finish;;
  let st := mkSt (vst st) (discovered st) fin (time st) in
  let '(t, st) := time_post_inc st in
  let '(st, x) := call st (Finish u t) in
  if should_break x then Ret (x, st)
  else if should_prune x then Panic
  else Ret (continuing, st).

(** [dfs_visitor].  A call that goes past its first test discovers a node, so one
    more than the number of nodes is enough fuel. *)
Fixpoint dfs_visitor (fuel : nat) (u : Z) (st : St) : outcome (C * St) :=
  match fuel with
  | O => Panic
  | S fuel' =>
      '(first, disc) ← visit (discovered st) u;
      let st := mkSt (vst st) disc (finished st) (time st) in
      if negb first then Ret (continuing, st)
      else
        let '(t, st) := time_post_inc st in
        let '(st, x) := call st (Discover u t) in
        if should_break x then Ret (x, st)
        else
          '(r, st) ← (if should_prune x then Ret (None, st)
                      else edges_loop (dfs_visitor fuel') u
                             (Graph.neighbors_list g u Graph.Outgoing) st);
          match r with
          | Some c => Ret (c, st)
          | None => finish u st
          end
  end.

(** The loop of [depth_first_search] over the start nodes. *)
Fixpoint starts_loop (starts : list Z) (st : St) : outcome (C * St) :=
  match starts with
  | [] => Ret (continuing, st)
  | s :: starts' =>
      '(x, st) ← dfs_visitor (S (Graph.node_count g)) s st;
      if should_break x then Ret (x, st)
      else if should_prune x then Panic
      else starts_loop starts' st
  end.

(** [depth_first_search]. *)
Definition depth_first_search (starts : list Z) (v0 : V) : outcome (C * V) :=
  '(c, st) ← starts_loop starts (mkSt v0 (visit_map g) (visit_map g) 0);
  Ret (c, vst st).

End search.
Arguments mkSt {M V} _ _ _ _.
Arguments vst {M V} _.
Arguments discovered {M V} _.
Arguments finished {M V} _.
Arguments time {M V} _.
Arguments St M V : clear implicits.

(** The closure of [is_cyclic_directed], which captures nothing. *)
Definition cyclic_visitor (v : unit) (e : DfsEvent) : unit * result unit unit :=
  match e with BackEdge _ _ => (tt, Err tt) | _ => (tt, Ok tt) end.

(** [is_cyclic_directed]. *)
Definition is_cyclic_directed {N E} (M : Type) `{FixedBitSet M} (g : Graph.Graph N E)
    : outcome bool :=
  '(r, _) ← depth_first_search (M:=M) g cyclic_visitor (Graph.node_indices g) tt;
  Ret (match r with Ok _ => false | Err _ => true end).

(** ** Correctness of the cycle test *)

Section cyclic.
Context {N E M : Type} `{FixedBitSetLaws M}.
Variable g : Graph.Graph N E.
Hypothesis Hg : Graph.wf g.
Local Abbreviation n := (Graph.node_count g).
Local Abbreviation St := (St M unit).
Implicit Types st : St.

(** The nodes and the edges of the search. *)
Definition node (a : Z) : Prop := (0 <= a < Z.of_nat n)%Z.
Definition edge (u v : Z) : Prop := v ∈ Graph.neighbors_list g u Graph.Outgoing.

Lemma edge_iff u v : edge u v <-> exists w, (u, v, w) ∈ Graph.edge_references g.
Proof.
  unfold edge. rewrite (Graph.neighbors_list_spec g u _ Hg), elem_of_reverse.
  unfold Graph.far_ends, Graph.edge_references. rewrite list_elem_of_fmap. split.
  - intros ([w nx [s t]] & -> & [Hs He]%list_elem_of_filter). simpl in Hs. subst s. exists w.
    apply list_elem_of_fmap. exists (Graph.mkEdge w nx (u, t)). done.
  - intros (w & ([w' nx [s t]] & [= -> -> ->] & He)%list_elem_of_fmap). eexists.
    split; [|apply list_elem_of_filter; split; [|exact He]]; reflexivity.
Qed.

Lemma edge_nodes u v : edge u v -> node u /\ node v.
Proof.
  intros [w Hw]%edge_iff. unfold Graph.edge_references in Hw.
  apply list_elem_of_fmap in Hw as (e & [= -> -> _] & He).
  pose proof (proj1 (Forall_forall _ _) (Graph.wf_ends g Hg) e He) as Hd.
  split; [apply (Hd Graph.Outgoing)|apply (Hd Graph.Incoming)].
Qed.

Definition D st (a : Z) : bool := is_visited (discovered st) a.
Definition F st (a : Z) : bool := is_visited (finished st) a.

(** Finished nodes are discovered, lead to finished nodes and are on no cycle. *)
Record inv st : Prop := mkInv {
  inv_disc : bits (discovered st) = n;
  inv_fin : bits (finished st) = n;
  inv_sub : forall a, node a -> F st a = true -> D st a = true;
  inv_closed : forall a b, edge a b -> F st a = true -> F st b = true;
  inv_acyclic : forall a, node a -> F st a = true -> ~ tc edge a a
}.

(** The search went on: more is finished, and the open nodes are the same. *)
Record later st st' : Prop := mkLater {
  later_inv : inv st';
  later_D : forall a, node a -> D st a = true -> D st' a = true;
  later_F : forall a, node a -> F st a = true -> F st' a = true;
  later_open : forall a, node a -> D st' a = true -> F st' a = false ->
    D st a = true /\ F st a = false;
  later_keep : forall a, node a -> D st a = true -> F st a = false -> F st' a = false
}.

Lemma later_refl st : inv st -> later st st.
Proof. intros Hi. by split. Qed.

Lemma later_trans st1 st2 st3 : later st1 st2 -> later st2 st3 -> later st1 st3.
Proof.
  intros H1 H2. split; [apply H2| | | |].
  - intros a Hn Ha. by apply (later_D _ _ H2), (later_D _ _ H1).
  - intros a Hn Ha. by apply (later_F _ _ H2), (later_F _ _ H1).
  - intros a Ha H3 H4. destruct (later_open _ _ H2 a Ha H3 H4). by apply (later_open _ _ H1).
  - intros a Ha H3 H4. apply (later_keep _ _ H2); [done|by apply (later_D _ _ H1)|].
    by apply (later_keep _ _ H1).
Qed.

(** All open nodes lead to [u]. *)
Definition open_reach st (u : Z) : Prop :=
  forall a, node a -> D st a = true -> F st a = false -> rtc edge a u.

(** The number of nodes not yet discovered. *)
Definition undisc st : nat :=
  length (filter (fun i => contains (discovered st) i = false) (seq 0 n)).

Lemma visit_spec (m : M) u :
  node u -> bits m = n -> exists m', visit m u = Ret (negb (is_visited m u), m') /\
    bits m' = n /\ forall a, node a -> is_visited m' a = bool_decide (a = u) || is_visited m a.
Proof.
  intros Hu Hm. unfold visit. destruct (put_in_range m (Z.to_nat u)) as (m' & -> & Hb & Hc).
  { rewrite Hm. destruct Hu. lia. }
  exists m'. split; [done|]. split; [congruence|]. intros a Ha. unfold is_visited. rewrite Hc.
  f_equal. apply bool_decide_ext. unfold node in *. split; [|by intros ->]. intros ?%Z2Nat.inj; lia.
Qed.

Lemma filter_length_le (P Q : nat -> Prop) `{!forall x, Decision (P x), !forall x, Decision (Q x)} l :
  (forall x, x ∈ l -> P x -> Q x) -> length (filter P l) <= length (filter Q l).
Proof.
  induction l as [|x l IH]; intros Hpq; [done|]. rewrite !filter_cons.
  assert (length (filter P l) <= length (filter Q l)) by (apply IH; intros; apply Hpq; [by right|done]).
  repeat case_decide; simpl; try lia. match goal with HQ : ~ Q x |- _ => destruct HQ; apply Hpq; [left|done] end.
Qed.

Lemma filter_length_lt (P Q : nat -> Prop) `{!forall x, Decision (P x), !forall x, Decision (Q x)} l y :
  (forall x, x ∈ l -> P x -> Q x) -> y ∈ l -> Q y -> ~ P y ->
  length (filter P l) < length (filter Q l).
Proof.
  intros Hpq Hy HQ HP. apply elem_of_Permutation in Hy as [l' Hl].
  assert (Hpq' : forall x, x ∈ l' -> P x -> Q x).
  { intros x Hx. apply Hpq. rewrite Hl. by right. }
  rewrite Hl, !filter_cons, decide_False, decide_True by done. simpl.
  pose proof (filter_length_le P Q l' Hpq'). lia.
Qed.

Lemma undisc_le st st' : later st st' -> undisc st' <= undisc st.
Proof.
  intros Hl. apply filter_length_le. intros i [_ Hlt]%elem_of_seq Hi.
  destruct (contains (discovered st) i) eqn:Hc; [|done].
  pose proof (later_D _ _ Hl (Z.of_nat i)) as Hd. unfold D, is_visited in Hd.
  rewrite Nat2Z.id in Hd. rewrite Hd in Hi; [done|unfold node; lia|done].
Qed.


(** Discovering [u] lowers the number of undiscovered nodes. *)
Lemma undisc_lt st m' u :
  node u -> D st u = false ->
  (forall a, node a -> is_visited m' a = bool_decide (a = u) || D st a) ->
  forall v f t, undisc (mkSt v m' f t) < undisc st.
Proof.
  intros Hu Hd Hm v f t. unfold undisc. simpl. unfold D, is_visited, node in *.
  assert (Hc : forall i, i < n -> contains m' i = bool_decide (Z.of_nat i = u) || contains (discovered st) i).
  { intros i Hi. specialize (Hm (Z.of_nat i)). rewrite Nat2Z.id in Hm. apply Hm. lia. }
  apply (filter_length_lt _ _ _ (Z.to_nat u)).
  - intros i [_ Hi]%elem_of_seq. rewrite Hc by done. by intros [_ ?]%orb_false_iff.
  - apply elem_of_seq. lia.
  - done.
  - rewrite Hc by lia. rewrite Z2Nat.id by lia. by rewrite bool_decide_true.
Qed.

(** What a call of [dfs_visitor] on an undiscovered node does. *)
Definition visits (rec : Z -> St -> outcome (result unit unit * St)) (k : nat) : Prop :=
  forall u st, inv st -> node u -> D st u = false -> open_reach st u -> undisc st < k ->
  exists r st', rec u st = Ret (r, st') /\
    match r with
    | Err _ => exists x, tc edge x x
    | Ok _ => later st st' /\ F st' u = true
    end.

Lemma edges_loop_spec rec k u vs st :
  visits rec k -> inv st -> undisc st < k -> node u -> D st u = true -> F st u = false ->
  open_reach st u -> Forall (edge u) vs ->
  exists r st', edges_loop cyclic_visitor rec u vs st = Ret (r, st') /\
    match r with
    | Some (Err _) => exists x, tc edge x x
    | Some (Ok _) => False
    | None => later st st' /\ Forall (fun v => F st' v = true) vs
    end.
Proof.
  intros Hrec. revert st. induction vs as [|v vs IH]; intros st Hi Hk Hu HD HF Ho Hvs.
  { exists None, st. split; [done|]. split; [by apply later_refl|constructor]. }
  apply Forall_cons in Hvs as [Huv Hvs]. destruct (edge_nodes u v Huv) as [_ Hv].
  destruct st as [[] dm fm tm]. simpl.
  assert (Hgo : forall st', later (mkSt tt dm fm tm) st' -> F st' v = true ->
    exists r st'', edges_loop cyclic_visitor rec u vs st' = Ret (r, st'') /\
      match r with
      | Some (Err _) => exists x, tc edge x x
      | Some (Ok _) => False
      | None => later (mkSt tt dm fm tm) st'' /\ Forall (fun v => F st'' v = true) (v :: vs)
      end).
  { intros st' Hl Hfv. destruct (IH st') as (r & st'' & -> & Hr); [apply Hl|..|done|].
    - pose proof (undisc_le _ _ Hl). lia.
    - done.
    - by apply (later_D _ _ Hl).
    - by apply (later_keep _ _ Hl).
    - intros a Ha Hda Hfa. destruct (later_open _ _ Hl a Ha Hda Hfa). by apply Ho.
    - exists r, st''. split; [done|]. destruct r as [[]|]; [done..|]. destruct Hr as [Hl' Hall].
      split; [by eapply later_trans|]. constructor; [by apply (later_F _ _ Hl')|done]. }
  destruct (is_visited dm v) eqn:Hdv; simpl; [destruct (is_visited fm v) eqn:Hfv; simpl|].
  - apply Hgo; [by apply later_refl|done].
  - exists (Some (Err tt)). eexists. split; [done|]. exists v.
    eapply tc_rtc_l; [by apply Ho|by apply tc_once].
  - destruct (Hrec v (mkSt tt dm fm tm)) as (r & st' & -> & Hr); [done..| |done|].
    + intros a Ha Hda Hfa. eapply rtc_r; [by apply Ho|done].
    + destruct r as [[]|[]]; rbind; simpl; [|by eauto]. destruct Hr. by apply Hgo.
Qed.

(** What finished nodes lead to is finished. *)
Lemma finished_reach st a b : inv st -> rtc edge a b -> F st a = true -> F st b = true.
Proof.
  intros Hi. induction 1 as [|a c b Hac _ IH]; [done|]. intros Ha.
  by apply IH, (inv_closed st Hi a c).
Qed.

(** Finishing a node all of whose neighbours are finished. *)
Lemma finish_inv st u fm t :
  inv st -> node u -> D st u = true -> F st u = false ->
  (forall v, edge u v -> F st v = true) -> bits fm = n ->
  (forall a, node a -> is_visited fm a = bool_decide (a = u) || F st a) ->
  inv (mkSt tt (discovered st) fm t).
Proof.
  intros Hi Hu Hd Hf Hn Hb Hm. split; [apply Hi|done|..]; simpl; unfold F, D in *; simpl.
  - intros a Ha. rewrite Hm by done. intros [->%bool_decide_eq_true|Hfa]%orb_true_iff; [done|].
    by apply (inv_sub st Hi).
  - intros a b Hab. destruct (edge_nodes a b Hab) as [Ha Hbn]. rewrite !Hm by done.
    intros [->%bool_decide_eq_true|Hfa]%orb_true_iff; apply orb_true_iff; right; [by apply Hn|].
    by apply (inv_closed st Hi a b).
  - intros a Ha. rewrite Hm by done. intros [->%bool_decide_eq_true|Hfa]%orb_true_iff;
      [|by apply (inv_acyclic st Hi)]. intros Hc.
    assert (Hv : exists v, edge u v /\ rtc edge v u).
    { inversion Hc; subst; eauto using tc_rtc, rtc_refl. }
    destruct Hv as (v & Huv & Hvu). apply Hn in Huv. 
    pose proof (finished_reach st v u Hi Hvu Huv) as Hx. unfold F in *. congruence.
Qed.

Lemma finish_spec st u :
  inv st -> node u -> D st u = true -> F st u = false ->
  (forall v, edge u v -> F st v = true) ->
  exists st', finish cyclic_visitor u st = Ret (Ok tt, st') /\ inv st' /\
    discovered st' = discovered st /\
    forall a, node a -> F st' a = bool_decide (a = u) || F st a.
Proof.
  intros Hi Hu Hd Hf Hn. unfold finish.
  destruct (visit_spec (finished st) u Hu) as (fm & -> & Hb & Hm); [apply Hi|]. rbind.
  unfold F in Hf. rewrite Hf. simpl. destruct st as [[] dm fm0 t]. simpl in *.
  eexists. split; [done|]. split; [|done].
  by apply (finish_inv (mkSt tt dm fm0 t) u).
Qed.

Lemma later_finish st st1 st2 st3 u :
  D st u = false -> node u ->
  (forall a, node a -> D st1 a = bool_decide (a = u) || D st a) ->
  (forall a, F st1 a = F st a) ->
  later st1 st2 -> inv st3 -> discovered st3 = discovered st2 ->
  (forall a, node a -> F st3 a = bool_decide (a = u) || F st2 a) ->
  later st st3.
Proof.
  intros Hdu Hu HD1 HF1 Hl Hi3 Hd3 HF3.
  assert (HD : forall a, D st3 a = D st2 a) by (intros a; unfold D; by rewrite Hd3).
  assert (HD1' : forall a, node a -> D st a = true -> D st1 a = true).
  { intros a Ha Hd. rewrite HD1 by done. by rewrite Hd, orb_true_r. }
  split; [done|..].
  - intros a Hn Ha. rewrite HD. by apply (later_D _ _ Hl), HD1'.
  - intros a Hn Ha. rewrite HF3 by done. apply orb_true_iff. right.
    apply (later_F _ _ Hl); [done|]. by rewrite HF1.
  - intros a Ha. rewrite HD, HF3 by done. intros Hd [Hne Hf]%orb_false_iff.
    destruct (later_open _ _ Hl a Ha Hd Hf) as [Hd1 Hf1]. rewrite HF1 in Hf1.
    rewrite HD1, Hne in Hd1 by done. done.
  - intros a Ha Hd Hf. rewrite HF3 by done. apply orb_false_iff. split.
    + apply bool_decide_eq_false. congruence.
    + apply (later_keep _ _ Hl); [done|by apply HD1'|by rewrite HF1].
Qed.

(** Discovering a node. *)
Lemma discover_inv st u dm t :
  inv st -> bits dm = n ->
  (forall a, node a -> is_visited dm a = bool_decide (a = u) || D st a) ->
  inv (mkSt tt dm (finished st) t).
Proof.
  intros Hi Hb Hm. split; [done|apply Hi|..]; unfold D, F in *; simpl.
  - intros a Ha Hf. rewrite Hm by done. apply orb_true_iff. right. by apply (inv_sub st Hi).
  - apply (inv_closed st Hi).
  - apply (inv_acyclic st Hi).
Qed.

Lemma dfs_visitor_visits fuel : visits (dfs_visitor g cyclic_visitor fuel) fuel.
Proof.
  induction fuel as [|fuel IH]; intros u st Hi Hu Hd Ho Hk; [lia|]. simpl.
  destruct (visit_spec (discovered st) u Hu) as (dm & -> & Hb & Hm); [apply Hi|]. rbind.
  unfold D in Hd. rewrite Hd. simpl. destruct st as [[] dm0 fm t]. simpl in *.
  set (st1 := mkSt tt dm fm (wrap 64 (t + 1))).
  assert (Hi1 : inv st1) by (by apply (discover_inv (mkSt tt dm0 fm t) u)).
  assert (Hfu : is_visited fm u = false).
  { destruct (is_visited fm u) eqn:Hf; [|done].
    pose proof (inv_sub _ Hi u Hu Hf) as Hx. unfold D in Hx. simpl in Hx. congruence. }
  destruct (edges_loop_spec _ fuel u (Graph.neighbors_list g u Graph.Outgoing) st1 IH Hi1)
    as (r & st2 & -> & Hr); rbind.
  - pose proof (undisc_lt (mkSt tt dm0 fm t) dm u Hu Hd Hm tt fm (wrap 64 (t + 1))) as Hlt.
    fold st1 in Hlt. lia.
  - done.
  - unfold D. simpl. rewrite Hm by done. by rewrite bool_decide_true.
  - done.
  - intros a Ha Hda Hfa. unfold D in Hda. simpl in Hda. rewrite Hm in Hda by done.
    apply orb_true_iff in Hda as [->%bool_decide_eq_true|Hda]; [done|by apply Ho].
  - apply Forall_forall. by intros v.
  - destruct r as [[]|]; [done|by exists (Err e), st2|].
    destruct Hr as [Hl Hall]. rewrite Forall_forall in Hall.
    assert (Hd1 : D st1 u = true).
    { unfold D. simpl. rewrite Hm by done. by rewrite bool_decide_true. }
    destruct (finish_spec st2 u) as (st3 & -> & Hi3 & Hd3 & HF3); [apply Hl|done|..|done|].
    + by apply (later_D _ _ Hl).
    + by apply (later_keep _ _ Hl).
    + exists (Ok tt), st3. split; [done|]. split.
      * by apply (later_finish _ st1 st2 st3 u).
      * rewrite HF3 by done. by rewrite bool_decide_true.
Qed.

(** The start loop: nothing is open between two searches. *)
Lemma starts_loop_spec starts st :
  inv st -> (forall a, node a -> D st a = true -> F st a = true) -> Forall node starts ->
  exists r st', starts_loop g cyclic_visitor starts st = Ret (r, st') /\
    match r with
    | Err _ => exists x, tc edge x x
    | Ok _ => later st st' /\ Forall (fun a => F st' a = true) starts
    end.
Proof.
  revert st. induction starts as [|s starts IH]; intros st Hi Hc Hs.
  { exists (Ok tt), st. split; [done|]. split; [by apply later_refl|constructor]. }
  apply Forall_cons in Hs as [Hsn Hs]. cbn [starts_loop].
  assert (Hgo : forall st', later st st' -> F st' s = true ->
    exists r st'', starts_loop g cyclic_visitor starts st' = Ret (r, st'') /\
      match r with
      | Err _ => exists x, tc edge x x
      | Ok _ => later st st'' /\ Forall (fun a => F st'' a = true) (s :: starts)
      end).
  { intros st' Hl Hf. destruct (IH st') as (r & st'' & -> & Hr); [apply Hl| |done|].
    - intros a Ha Hd. destruct (F st' a) eqn:Hfa; [done|].
      destruct (later_open _ _ Hl a Ha Hd Hfa) as [Hd0 Hf0]. by rewrite Hc in Hf0.
    - exists r, st''. split; [done|]. destruct r; [|done]. destruct Hr as [Hl' Hall].
      split; [by eapply later_trans|]. constructor; [by apply (later_F _ _ Hl')|done]. }
  destruct (D st s) eqn:Hd.
  - cbn [dfs_visitor]. destruct (visit_spec (discovered st) s Hsn) as (dm & -> & Hb & Hm);
      [apply Hi|]. rbind. unfold D in Hd. rewrite Hd. simpl. destruct st as [[] dm0 fm t]. simpl in *.
    assert (Hsame : forall a, node a -> is_visited dm a = is_visited dm0 a).
    { intros a Ha. rewrite Hm by done. case_bool_decide; [by subst|done]. }
    apply Hgo; [|by apply (Hc s)].
    split; [by apply (discover_inv (mkSt tt dm0 fm t) s)|..]; unfold D, F; simpl; [|done|..|done];
      intros a Ha; rewrite ?Hsame by done; done.
  - destruct (dfs_visitor_visits (S n) s st Hi Hsn Hd) as (r & st' & -> & Hr).
    + intros a Ha Hd' Hf'. by rewrite Hc in Hf'.
    + unfold undisc. pose proof (length_filter (fun i => contains (discovered st) i = false) (seq 0 n)) as Hlen.
      rewrite length_seq in Hlen. lia.
    + rbind. destruct r as [[]|[]]; simpl; [|by eauto]. destruct Hr. by apply Hgo.
Qed.

Lemma search_result :
  exists b, is_cyclic_directed M g = Ret b /\ (b = true <-> exists x, tc edge x x).
Proof.
  unfold is_cyclic_directed, depth_first_search.
  set (st0 := mkSt tt (visit_map g) (visit_map g) 0).
  assert (Hempty : forall a, is_visited (visit_map (M:=M) g) a = false).
  { intros a. apply contains_with_capacity. }
  destruct (starts_loop_spec (Graph.node_indices g) st0) as (r & st & -> & Hr); rbind.
  - split; [apply bits_with_capacity..| | |]; unfold D, F; simpl; intros; by rewrite Hempty in *.
  - intros a _. unfold D. simpl. by rewrite Hempty.
  - apply Forall_forall. intros a. by rewrite Graph.elem_of_node_indices.
  - exists (match r with Ok _ => false | Err _ => true end). split; [by destruct r as [[]|[]]|].
    destruct r; [|done]. split; [done|]. intros [x Hx]. exfalso. destruct Hr as [Hl Hall].
    rewrite Forall_forall in Hall.
    assert (Hn : node x) by (inversion Hx as [? ? Hxy|? ? ? Hxy]; apply edge_nodes in Hxy; tauto).
    apply (inv_acyclic st (later_inv _ _ Hl) x Hn); [|done].
    by apply Hall, Graph.elem_of_node_indices.
Qed.

End cyclic.

(** The edges of a graph as a relation on node indices. *)
Definition arrow {N E} (g : Graph.Graph N E) (u v : Z) : Prop :=
  exists w, (u, v, w) ∈ Graph.edge_references g.

Lemma is_cyclic_directed_spec {N E} M `{FixedBitSetLaws M} (g : Graph.Graph N E) :
  Graph.wf g ->
  exists b, is_cyclic_directed M g = Ret b /\ (b = true <-> exists x, tc (arrow g) x x).
Proof.
  intros Hg. destruct (search_result (M:=M) g Hg) as (b & Hb & Hc). exists b. split; [done|].
  rewrite Hc. apply exist_proper. intros x. split; apply tc_congruence with (f := id);
    intros u v; simpl; by rewrite edge_iff.
Qed.

(** A bit set as a list of booleans. *)
#[export] Instance list_bits : FixedBitSet (list bool) := {|
  with_capacity n := replicate n false;
  put m i := b ← index m i; Ret (b, <[i := true]> m);
  contains m i := default false (m !! i) |}.

#[export] Instance list_bits_laws : FixedBitSetLaws (list bool).
Proof.
  refine {| bits := length |}.
  - intros n. apply length_replicate.
  - intros n i. simpl. destruct (replicate n false !! i) as [b|] eqn:Hb; [|done].
    by apply lookup_replicate in Hb as [-> _].
  - intros m i Hi. destruct (lookup_lt_is_Some_2 m i Hi) as [b Hb]. exists (<[i := true]> m).
    simpl. rewrite (index_Some _ _ _ Hb), Hb. split; [done|]. split; [apply length_insert|].
    intros j. case_bool_decide as Hj.
    + subst. by rewrite list_lookup_insert_eq.
    + by rewrite list_lookup_insert_ne.
Defined.

(** C36: the depth-first search behind [is_cyclic_directed] returns on every
    well-formed graph (it neither panics nor runs out of fuel, and no node is
    finished twice), and it answers [true] exactly when the edges of the graph
    have a directed cycle. *)
Theorem is_cyclic_directed_decides_cycles {N E} M `{FixedBitSetLaws M} (g : Graph.Graph N E) :
  Graph.wf g ->
  exists b, is_cyclic_directed M g = Ret b /\ (b = true <-> exists x, tc (arrow g) x x).
Proof. apply (is_cyclic_directed_spec M g). Qed.

(** The graph with a self loop of [Graph.sample]. *)
Lemma is_cyclic_directed_decides_cycles_witness : exists g,
  Graph.sample = Ret g /\ is_cyclic_directed (list bool) g = Ret true /\
  exists x, tc (arrow g) x x.
Proof.
  eexists. split; [vm_compute; reflexivity|].
  match goal with |- is_cyclic_directed _ ?g = _ /\ _ =>
    assert (Hs : Graph.sample = Ret g) by (vm_compute; reflexivity);
    destruct (Graph.sample_built g Hs) as [log Hb];
    destruct (is_cyclic_directed_decides_cycles (list bool) g (proj1 (Graph.built_spec g log Hb)))
      as (b & Hc & Hi);
    assert (Ht : is_cyclic_directed (list bool) g = Ret true) by (vm_compute; reflexivity) end.
  split; [done|]. apply Hi. congruence.
Defined.

End Dfs.
