(* ===== verification/Dag.v ===== *)
(** * DAGs of reactors: one DAG

    [struct Dag] of [awkernel_async_lib/src/dag.rs]: the graph whose edges are
    the topics one node publishes and another subscribes to, and the table of
    absolute deadlines of the released jobs that EDF scheduling reads.  The
    registry of all DAGs and the validation are in [Dags]. *)

From S2P Require Import Prelude Graph.
From stdpp Require Import strings.
Local Open Scope Z_scope.

Module Dag.

(** [struct NodeInfo]. *)
Record NodeInfo : Type := mkNodeInfo {
  task_id : Z;
  subscribe_topic_names : list string;
  publish_topic_names : list string;
  relative_deadline : option Z;
  num_finished : Z;
  deadline_job : option Z
}.

(** [struct Dag]; an [EdgeInfo] is its topic. *)
Record Dag : Type := mkDag {
  id : Z;
  graph : Graph.Graph NodeInfo string;
  absolute_deadlines : gmap Z Z
}.

Definition set_graph (d : Dag) g : Dag := mkDag (id d) g (absolute_deadlines d).
Definition set_deadlines (d : Dag) m : Dag := mkDag (id d) (graph d) m.

(** [Dag::get_source_nodes] and [Dag::get_sink_nodes]. *)
Definition get_source_nodes (d : Dag) : list Z := Graph.externals (graph d) Graph.Incoming.
Definition get_sink_nodes (d : Dag) : list Z := Graph.externals (graph d) Graph.Outgoing.

(** [Dag::get_sink_relative_deadline]. *)
Definition get_sink_relative_deadline (d : Dag) : option Z :=
  sink ← head (get_sink_nodes d);
  info ← Graph.weight_of (graph d) sink;
  relative_deadline info.

(** [Graph::node_weight_mut] with [unwrap], and a write through it. *)
Definition with_node (g : Graph.Graph NodeInfo string) (i : Z) (f : NodeInfo -> NodeInfo)
    : outcome (Graph.Graph NodeInfo string * NodeInfo) :=
  info ← unwrap (Graph.weight_of g i);
  Ret (Graph.update_weight g i f, info).

(** [Dag::set_relative_deadline]. *)
Definition set_relative_deadline (d : Dag) (node_idx deadline : Z) : outcome Dag :=
  '(g, _) ← with_node (graph d) node_idx (fun n =>
    mkNodeInfo (task_id n) (subscribe_topic_names n) (publish_topic_names n) (Some deadline)
      (num_finished n) (deadline_job n));
  Ret (set_graph d g).

(** [Graph::node_references]. *)
Definition node_references (g : Graph.Graph NodeInfo string) : list (Z * NodeInfo) :=
  zip (Graph.node_indices g) (Graph.node_weight <$> Graph.nodes g).

(** The edges that [add_node_with_topic_edges] finds between a node and the new
    one: [edges_to] before [edges_from]. *)
Definition edges_with (add_idx : Z) (subs pubs : list string) (r : Z * NodeInfo)
    : list (Z * Z * string) :=
  let edges_from :=
    (fun t => (add_idx, r.1, t)) <$>
      filter (fun t => t ∈ pubs) (subscribe_topic_names r.2) in
  let edges_to :=
    (fun t => (r.1, add_idx, t)) <$>
      filter (fun t => t ∈ subs) (publish_topic_names r.2) in
  edges_to ++ edges_from.

(** The loop that adds them. *)
Fixpoint add_edges (g : Graph.Graph NodeInfo string) (es : list (Z * Z * string))
    : outcome (Graph.Graph NodeInfo string) :=
  match es with
  | [] => Ret g
  | (a, b, t) :: es' => '(g', _) ← Graph.add_edge g a b t; add_edges g' es'
  end.

(** The part of [Dag::add_node_with_topic_edges] that changes the graph.  The
    sets of topics are looked up as the lists they are made from. *)
Definition add_node_with_topic_edges (d : Dag) (subs pubs : list string) : outcome (Dag * Z) :=
  let info := mkNodeInfo 0 subs pubs None 0 None in
  '(g, add_idx) ← Graph.add_node (graph d) info;
  let edges_to_add := node_references g ≫= edges_with add_idx subs pubs in
  g' ← add_edges g edges_to_add;
  Ret (set_graph d g', add_idx).

(** ** Deadlines of jobs *)

(** [Iterator::min] on integers. *)
Definition list_min (l : list Z) : option Z :=
  match l with [] => None | x :: l' => Some (foldr Z.min x l') end.

(** The keys of a map, and [BTreeMap::pop_first]. *)
Definition keys (m : gmap Z Z) : list Z := (map_to_list m).*1.
Definition pop_first (m : gmap Z Z) : gmap Z Z :=
  match list_min (keys m) with Some k => base.delete k m | None => m end.

(** The [is_source] of [get_or_release_absolute_deadline]: no incoming edge. *)
Definition is_source (g : Graph.Graph NodeInfo string) (node_idx : Z) : bool :=
  match Graph.neighbors_next g (Graph.neighbors_directed g node_idx Graph.Incoming) with
  | None => true
  | Some _ => false
  end.

(** [Dag::get_or_release_absolute_deadline]; [deadline] is what the closure
    [release_deadline] gives. *)
Definition get_or_release_absolute_deadline (d : Dag) (node_idx : Z) (release : bool)
    (deadline : Z) : outcome (Dag * Z) :=
  node_info ← unwrap (Graph.weight_of (graph d) node_idx);
  let job := num_finished node_info in
  let release := release && is_source (graph d) node_idx in
  let got := if release || bool_decide (is_Some (absolute_deadlines d !! job))
             then Some job else None in
  let g := Graph.update_weight (graph d) node_idx (fun n =>
    mkNodeInfo (task_id n) (subscribe_topic_names n) (publish_topic_names n)
      (relative_deadline n) (num_finished n) got) in
  match absolute_deadlines d !! job with
  | Some dl => Ret (set_graph d g, dl)
  | None =>
      let m := if release then <[job := deadline]> (absolute_deadlines d)
               else absolute_deadlines d in
      Ret (mkDag (id d) g m, deadline)
  end.

(** [Dag::has_stale_deadline]. *)
Definition has_stale_deadline (d : Dag) (node_idx : Z) : outcome bool :=
  info ← unwrap (Graph.weight_of (graph d) node_idx);
  Ret (negb (bool_decide (deadline_job info = Some (num_finished info))) &&
       bool_decide (is_Some (absolute_deadlines d !! num_finished info))).

(** [Attribute::default().queue_size]. *)
Definition default_queue_size : nat := 10.

(** The [while] loop at the end of [finish_job]. *)
Fixpoint trim (fuel : nat) (max_unfinished : nat) (m : gmap Z Z) : gmap Z Z :=
  match fuel with
  | O => m
  | S fuel' =>
      if (max_unfinished <? size m)%nat then trim fuel' max_unfinished (pop_first m) else m
  end.

Definition max_unfinished (g : Graph.Graph NodeInfo string) : nat :=
  Graph.node_count g * (default_queue_size + 1) + 1.

(** [Dag::finish_job]; every round of the loop removes an entry. *)
Definition finish_job (d : Dag) (node_idx : Z) : outcome Dag :=
  '(g, _) ← with_node (graph d) node_idx (fun n =>
    mkNodeInfo (task_id n) (subscribe_topic_names n) (publish_topic_names n)
      (relative_deadline n) (wrap 64 (num_finished n + 1)) (deadline_job n));
  oldest_unfinished ←
    unwrap (list_min (num_finished <$> omap (Graph.weight_of g) (Graph.node_indices g)));
  let m := filter (fun kv => oldest_unfinished <= kv.1) (absolute_deadlines d) in
  Ret (mkDag (id d) g (trim (size m) (max_unfinished g) m)).

(** ** The table of deadlines *)

Lemma list_min_spec l m : list_min l = Some m -> m ∈ l /\ forall x, x ∈ l -> m <= x.
Proof.
  destruct l as [|y l]; [done|]. intros [= <-]. induction l as [|x l [IH1 IH2]]; simpl.
  - split; [left|]. intros x ->%list_elem_of_singleton. lia.
  - split.
    + destruct (Z.min_spec x (foldr Z.min y l)) as [[_ ->]|[_ ->]]; [right; left|].
      apply elem_of_cons in IH1 as [->|]; [left|by right; right].
    + intros z [->|[->|Hz]%elem_of_cons]%elem_of_cons.
      * specialize (IH2 y ltac:(left)). lia.
      * lia.
      * specialize (IH2 z ltac:(by right)). lia.
Qed.

Lemma list_min_is_Some l x : x ∈ l -> is_Some (list_min l).
Proof. destruct l; [by intros ?%not_elem_of_nil|]. by eexists. Qed.

Lemma elem_of_keys m k : k ∈ keys m <-> is_Some (m !! k).
Proof.
  unfold keys. rewrite list_elem_of_fmap. split.
  - intros ([k' v] & -> & Hkv%elem_of_map_to_list). by exists v.
  - intros [v Hv]. exists (k, v). split; [done|by apply elem_of_map_to_list].
Qed.

Lemma pop_first_spec m j v :
  m !! j = Some v -> exists k, is_Some (m !! k) /\ pop_first m = base.delete k m /\
    forall i, is_Some (m !! i) -> k <= i.
Proof.
  intros Hj. unfold pop_first.
  destruct (list_min_is_Some (keys m) j) as [k Hk]; [apply elem_of_keys; by eexists|].
  rewrite Hk. apply list_min_spec in Hk as [Hin Hmin]. exists k.
  split; [by apply elem_of_keys|]. split; [done|]. intros i Hi. by apply Hmin, elem_of_keys.
Qed.

(** The entries of the highest jobs stay. *)
Definition keeps_latest (cap : nat) (m m' : gmap Z Z) : Prop :=
  m' ⊆ m /\ forall j v, m !! j = Some v -> m' !! j = None ->
    (cap <= size m')%nat /\ forall k, is_Some (m' !! k) -> j < k.

Lemma trim_ge fuel cap m : (cap <= size m)%nat -> (cap <= size (trim fuel cap m))%nat.
Proof.
  revert m. induction fuel as [|fuel IH]; intros m Hs; simpl; [done|]. case_if; b2p; [|done].
  apply IH. unfold pop_first. destruct (list_min (keys m)) as [k|]; [|lia].
  rewrite map_size_delete. destruct (m !! k); simpl in *; lia.
Qed.

Lemma trim_spec fuel cap m :
  (size m <= fuel + cap)%nat ->
  keeps_latest cap m (trim fuel cap m) /\ (size (trim fuel cap m) <= cap)%nat.
Proof.
  revert m. induction fuel as [|fuel IH]; intros m Hs; simpl.
  { split; [|lia]. split; [done|]. intros j v Hj Hn. congruence. }
  case_if; b2p; [|split; [split; [done|intros j v Hj Hn; congruence]|lia]].
  destruct (map_choose m) as (i & x & Hix); [intros ->; by rewrite map_size_empty in *; lia|].
  destruct (pop_first_spec m i x Hix) as (k & [y Hk] & -> & Hmin).
  assert (Hd : size (base.delete k m) = pred (size m)) by (apply map_size_delete_Some; by eexists).
  destruct (IH (base.delete k m)) as [[Hsub Hlate] Hle]; [lia|].
  split; [|done]. split; [etrans; [done|apply delete_subseteq]|]. intros j v Hj Hn.
  destruct (decide (j = k)) as [->|Hne].
  - split; [apply trim_ge; lia|].
    intros k' [z Hz]. assert (Hz' := lookup_weaken _ _ _ _ Hz Hsub).
    apply lookup_delete_Some in Hz' as [Hne Hz']. specialize (Hmin k' ltac:(by eexists)). lia.
  - apply (Hlate j v); [by rewrite lookup_delete_ne|done].
Qed.

(** The update of a node that [finish_job] makes. *)
Definition bump (n : NodeInfo) : NodeInfo :=
  mkNodeInfo (task_id n) (subscribe_topic_names n) (publish_topic_names n)
    (relative_deadline n) (wrap 64 (num_finished n + 1)) (deadline_job n).

(** The nodes' counts of finished jobs. *)
Definition counts (g : Graph.Graph NodeInfo string) : list Z :=
  num_finished <$> omap (Graph.weight_of g) (Graph.node_indices g).

Lemma elem_of_counts g c :
  c ∈ counts g <-> exists i n, Graph.weight_of g i = Some n /\ num_finished n = c.
Proof.
  unfold counts. rewrite list_elem_of_fmap. split.
  - intros (n & -> & (i & _ & Hn)%list_elem_of_omap). by exists i, n.
  - intros (i & n & Hn & <-). exists n. split; [done|]. apply list_elem_of_omap. exists i.
    split; [|done]. apply Graph.elem_of_node_indices. unfold Graph.weight_of in Hn.
    destruct (Graph.get (Graph.nodes g) i) eqn:Hg; [|done]. by apply Graph.get_lt in Hg.
Qed.

Lemma finish_job_spec d i :
  is_Some (Graph.weight_of (graph d) i) ->
  exists d' oldest, finish_job d i = Ret d' /\ id d' = id d /\
    graph d' = Graph.update_weight (graph d) i bump /\
    oldest ∈ counts (graph d') /\ (forall c, c ∈ counts (graph d') -> oldest <= c) /\
    keeps_latest (max_unfinished (graph d))
      (filter (fun kv => oldest <= kv.1) (absolute_deadlines d)) (absolute_deadlines d') /\
    (size (absolute_deadlines d') <= max_unfinished (graph d))%nat.
Proof.
  intros [n Hn]. unfold finish_job, with_node. rewrite Hn. rbind.
  set (g := Graph.update_weight _ _ _). fold bump in g.
  assert (Hi : num_finished (bump n) ∈ counts g).
  { apply elem_of_counts. exists i, (bump n). unfold g.
    by rewrite Graph.weight_of_update, Z.eqb_refl, Hn. }
  destruct (list_min_is_Some _ _ Hi) as [o Ho]. fold (counts g). rewrite Ho. rbind.
  apply list_min_spec in Ho as [Ho1 Ho2].
  assert (Hm : max_unfinished g = max_unfinished (graph d)).
  { unfold max_unfinished, g. by rewrite Graph.node_count_update. }
  set (m := filter _ (absolute_deadlines d)).
  destruct (trim_spec (size m) (max_unfinished g) m) as [Hk Hs]; [lia|].
  rewrite Hm in *. by exists (mkDag (id d) g (trim (size m) (max_unfinished (graph d)) m)), o.
Qed.

(** ** Runs of a DAG *)

(** What the nodes of a DAG do to the table: a wake of a node, and the end of a
    job of a node. *)
Inductive Event : Type :=
| Wake (node_idx : Z) (release : bool) (deadline : Z)
| Finish (node_idx : Z).

(** One event; a wake that got the deadline of a released job is logged with the
    job and the deadline. *)
Definition step (d : Dag) (e : Event) : outcome (Dag * list (Z * Z)) :=
  match e with
  | Wake i release deadline =>
      '(d', v) ← get_or_release_absolute_deadline d i release deadline;
      Ret (d', match Graph.weight_of (graph d') i with
               | Some n => match deadline_job n with Some j => [(j, v)] | None => [] end
               | None => []
               end)
  | Finish i => d' ← finish_job d i; Ret (d', [])
  end.

Fixpoint run (d : Dag) (evs : list Event) : outcome (Dag * list (Z * Z)) :=
  match evs with
  | [] => Ret (d, [])
  | e :: evs' =>
      '(d', l) ← step d e;
      '(d'', l') ← run d' evs';
      Ret (d'', l ++ l')
  end.

Definition event_node (e : Event) : Z := match e with Wake i _ _ => i | Finish i => i end.

Section run_proofs.
Variables (s : Z) (g0 : Graph.Graph NodeInfo string).

(** [s] is the only source of [g0]. *)
Hypothesis only_source : forall i,
  is_Some (Graph.weight_of g0 i) -> is_source g0 i = true -> i = s.

(** The state after [k] events with the log [log]. *)
Record inv (k : nat) (log : list (Z * Z)) (d : Dag) : Prop := mkInv {
  inv_count : Graph.node_count (graph d) = Graph.node_count g0;
  inv_node : forall i, is_Some (Graph.weight_of (graph d) i) <-> is_Some (Graph.weight_of g0 i);
  inv_source : forall i, is_source (graph d) i = is_source g0 i;
  inv_finished : forall i n, Graph.weight_of (graph d) i = Some n ->
    0 <= num_finished n <= Z.of_nat k;
  inv_table : forall j v, absolute_deadlines d !! j = Some v -> (j, v) ∈ log;
  inv_fun : forall j v v', (j, v) ∈ log -> (j, v') ∈ log -> v = v';
  inv_now : forall j v n, (j, v) ∈ log -> Graph.weight_of (graph d) s = Some n ->
    j <= num_finished n /\ (j = num_finished n -> is_Some (absolute_deadlines d !! j));
  inv_size : (size (absolute_deadlines d) <= max_unfinished g0)%nat \/
    (size (absolute_deadlines d) <= S (max_unfinished g0))%nat /\
    forall n, Graph.weight_of (graph d) s = Some n ->
      is_Some (absolute_deadlines d !! num_finished n)
}.

Lemma is_source_update g i f j : is_source (Graph.update_weight g i f) j = is_source g j.
Proof.
  unfold is_source. rewrite Graph.neighbors_update.
  by rewrite (Graph.neighbors_next_edges _ g) by apply Graph.edges_update.
Qed.

Lemma is_Some_update (g : Graph.Graph NodeInfo string) i f j :
  is_Some (Graph.weight_of (Graph.update_weight g i f) j) <-> is_Some (Graph.weight_of g j).
Proof. rewrite Graph.weight_of_update. case_if; [apply fmap_is_Some|done]. Qed.

(** A weight update that keeps [num_finished]. *)
Lemma inv_update k log d i f m l :
  inv k log d ->
  (forall n, num_finished (f n) = num_finished n) ->
  (forall j v, m !! j = Some v -> (j, v) ∈ log ++ l) ->
  (forall j v v', (j, v) ∈ log ++ l -> (j, v') ∈ log ++ l -> v = v') ->
  (forall j v n, (j, v) ∈ log ++ l -> Graph.weight_of (graph d) s = Some n ->
    j <= num_finished n /\ (j = num_finished n -> is_Some (m !! j))) ->
  (size m <= max_unfinished g0)%nat \/ (size m <= S (max_unfinished g0))%nat /\
    (forall n, Graph.weight_of (graph d) s = Some n -> is_Some (m !! num_finished n)) ->
  inv (S k) (log ++ l) (mkDag (id d) (Graph.update_weight (graph d) i f) m).
Proof.
  intros H Hf Htab Hfun Hnow Hsz.
  assert (Hw : forall j n, Graph.weight_of (Graph.update_weight (graph d) i f) j = Some n ->
    exists n0, Graph.weight_of (graph d) j = Some n0 /\ num_finished n = num_finished n0).
  { intros j n. rewrite Graph.weight_of_update. case_if; [|by eauto].
    intros (n0 & -> & ->)%fmap_Some. eauto. }
  split; simpl; auto.
  - rewrite Graph.node_count_update. apply H.
  - intros j. rewrite is_Some_update. apply H.
  - intros j. rewrite is_source_update. apply H.
  - intros j n (n0 & Hn & ->)%Hw. pose proof (inv_finished _ _ _ H _ _ Hn). lia.
  - intros j v n Hin (n0 & Hn & ->)%Hw. by eapply Hnow.
  - destruct Hsz as [?|[? Hs]]; [by left|right]. split; [done|].
    intros n (n0 & Hn & ->)%Hw. by apply Hs.
Qed.

Lemma step_wake k log d i release dl :
  inv k log d -> is_Some (Graph.weight_of g0 i) ->
  exists d' l, step d (Wake i release dl) = Ret (d', l) /\ inv (S k) (log ++ l) d'.
Proof.
  intros H Hi. unfold step, get_or_release_absolute_deadline.
  destruct (proj2 (inv_node _ _ _ H i) Hi) as [n Hn]. rewrite Hn. rbind.
  set (rel := release && is_source (graph d) i).
  set (f := fun got n => mkNodeInfo (task_id n) (subscribe_topic_names n) (publish_topic_names n)
    (relative_deadline n) (num_finished n) got).
  destruct (absolute_deadlines d !! num_finished n) as [v|] eqn:Hv.
  - rewrite bool_decide_true, orb_true_r by (by eexists). rbind. simpl.
    rewrite Graph.weight_of_update, Z.eqb_refl, Hn. simpl.
    eexists _, _. split; [done|]. pose proof (inv_table _ _ _ H _ _ Hv) as Hin.
    assert (Hadd : forall x, x ∈ log ++ [(num_finished n, v)] -> x ∈ log).
    { intros x [?| ->%list_elem_of_singleton]%elem_of_app; done. }
    apply (inv_update _ _ _ i (f (Some (num_finished n)))); [done|done|..].
    + intros j w Hj. apply elem_of_app. left. by apply (inv_table _ _ _ H).
    + intros j w w' Hj%Hadd Hj'%Hadd. by eapply (inv_fun _ _ _ H).
    + intros j w n' Hj%Hadd. by eapply (inv_now _ _ _ H).
    + apply (inv_size _ _ _ H).
  - rewrite bool_decide_false, orb_false_r by (by intros []). rbind. simpl.
    rewrite Graph.weight_of_update, Z.eqb_refl, Hn. simpl.
    eexists _, _. split; [done|]. destruct rel eqn:Hrel; simpl.
    + apply andb_true_iff in Hrel as [_ Hsrc]. rewrite (inv_source _ _ _ H) in Hsrc.
      assert (i = s) as -> by (by apply only_source).
      assert (Hfresh : forall w, (num_finished n, w) ∈ log -> False).
      { intros w Hw. destruct (inv_now _ _ _ H _ _ _ Hw Hn) as [_ Hx]. specialize (Hx eq_refl).
        rewrite Hv in Hx. by destruct Hx. }
      apply (inv_update _ _ _ s (f (Some (num_finished n)))); [done|done|..].
      * intros j w. rewrite lookup_insert_Some, elem_of_app. intros [[<- <-]|[_ Hj]].
        -- right. left.
        -- left. by apply (inv_table _ _ _ H).
      * intros j w w'. rewrite !elem_of_app, !list_elem_of_singleton.
        intros [Hw|[= -> ->]] [Hw'|E]; simplify_eq; try done.
        -- by eapply (inv_fun _ _ _ H).
        -- by apply Hfresh in Hw.
        -- by apply Hfresh in Hw'.
      * intros j w n' Hw Hn'. assert (n' = n) as -> by congruence.
        apply elem_of_app in Hw as [Hw|[= -> ->]%list_elem_of_singleton].
        -- destruct (inv_now _ _ _ H _ _ _ Hw Hn) as [? _]. split; [done|]. intros ->.
           rewrite lookup_insert_eq. by eexists.
        -- split; [done|]. intros _. rewrite lookup_insert_eq. by eexists.
      * right. rewrite map_size_insert_None by done. split.
        -- destruct (inv_size _ _ _ H) as [?|[_ Hx]]; [lia|]. specialize (Hx n Hn).
           rewrite Hv in Hx. by destruct Hx.
        -- intros n' Hn'. assert (n' = n) as -> by congruence. rewrite lookup_insert_eq. by eexists.
    + rewrite app_nil_r. rewrite <-(app_nil_r log).
      apply (inv_update _ _ _ i (f None)); rewrite ?app_nil_r; auto; apply H.
Qed.

Lemma step_finish k log d i :
  Z.of_nat k < 2 ^ 64 - 1 -> inv k log d -> is_Some (Graph.weight_of g0 i) ->
  exists d', step d (Finish i) = Ret (d', []) /\ inv (S k) log d'.
Proof.
  intros Hk H Hi. destruct (finish_job_spec d i) as (d' & o & Hd' & _ & Hg & Ho1 & Ho2 & Hkeep & Hs).
  { by apply (inv_node _ _ _ H). }
  exists d'. split; [unfold step; by rewrite Hd'|].
  assert (Hm : max_unfinished (graph d) = max_unfinished g0).
  { unfold max_unfinished. by rewrite (inv_count _ _ _ H). }
  rewrite Hm in *.
  assert (Hw : forall j n, Graph.weight_of (graph d') j = Some n ->
    exists n0, Graph.weight_of (graph d) j = Some n0 /\
      num_finished n = num_finished n0 + if i =? j then 1 else 0).
  { intros j n. rewrite Hg, Graph.weight_of_update. case_if.
    - intros (n0 & Hn0 & ->)%fmap_Some. exists n0. split; [done|]. simpl. apply wrap_id.
      pose proof (inv_finished _ _ _ H _ _ Hn0). unfold is_uint. lia.
    - intros Hn0. exists n. split; [done|lia]. }
  assert (Hsub : forall j v, absolute_deadlines d' !! j = Some v -> absolute_deadlines d !! j = Some v).
  { intros j v Hj. destruct Hkeep as [Hsub _]. pose proof (lookup_weaken _ _ _ _ Hj Hsub) as Hf.
    by apply map_lookup_filter_Some in Hf as [Hf _]. }
  split.
  - rewrite Hg, Graph.node_count_update. apply H.
  - intros j. rewrite Hg, is_Some_update. apply H.
  - intros j. rewrite Hg, is_source_update. apply H.
  - intros j n (n0 & Hn & ->)%Hw. pose proof (inv_finished _ _ _ H _ _ Hn). case_if; lia.
  - intros j v Hj%Hsub. by apply (inv_table _ _ _ H).
  - apply H.
  - intros j v n Hj Hn. destruct (Hw _ _ Hn) as (n0 & Hn0 & Heq).
    destruct (inv_now _ _ _ H _ _ _ Hj Hn0) as [Hle Hnow]. rewrite Heq.
    destruct (Z.eqb_spec i s) as [->|Hne]; [split; lia|]. rewrite Z.add_0_r in *.
    split; [done|]. intros ->. destruct (Hnow eq_refl) as [w Hw'].
    destruct (absolute_deadlines d' !! num_finished n0) as [x|] eqn:Hx; [by eexists|exfalso].
    destruct Hkeep as [Hsub' Hlate].
    destruct (Hlate (num_finished n0) w) as [Hcap Hlt]; [|done|].
    + apply map_lookup_filter_Some. split; [done|]. simpl. apply Ho2, elem_of_counts.
      exists s, n. split; [done|lia].
    + destruct (map_choose (absolute_deadlines d')) as (j' & y & Hj').
      { intros He. rewrite He, map_size_empty in Hcap. unfold max_unfinished in Hcap. lia. }
      specialize (Hlt j' ltac:(by eexists)).
      pose proof (inv_table _ _ _ H _ _ (Hsub _ _ Hj')) as Hin.
      destruct (inv_now _ _ _ H _ _ _ Hin Hn0). lia.
  - by left.
Qed.

Lemma run_inv evs k log d :
  Z.of_nat (k + length evs) < 2 ^ 64 -> inv k log d ->
  Forall (fun e => is_Some (Graph.weight_of g0 (event_node e))) evs ->
  exists d' l, run d evs = Ret (d', l) /\ inv (k + length evs) (log ++ l) d'.
Proof.
  revert k log d. induction evs as [|e evs IH]; intros k log d Hk H Hv; simpl in *.
  { exists d, []. rewrite app_nil_r, Nat.add_0_r. done. }
  apply Forall_cons in Hv as [He Hv].
  assert (Hst : exists d1 l1, step d e = Ret (d1, l1) /\ inv (S k) (log ++ l1) d1).
  { destruct e as [i release dl|i].
    - by apply step_wake.
    - destruct (step_finish k log d i) as (d1 & ? & ?); [lia|done|done|].
      exists d1, []. by rewrite app_nil_r. }
  destruct Hst as (d1 & l1 & -> & H1). rbind.
  destruct (IH (S k) (log ++ l1) d1) as (d' & l & -> & H'); [lia|done|done|]. rbind.
  exists d', (l1 ++ l). split; [done|]. by rewrite (assoc_L (++)), <-Nat.add_succ_comm.
Qed.

End run_proofs.

(** No node has worked yet. *)
Definition fresh (d : Dag) : Prop :=
  absolute_deadlines d = ∅ /\
  forall i n, Graph.weight_of (graph d) i = Some n -> num_finished n = 0.

(** In a DAG with one source, every sequence of wakes and finished jobs of
    its nodes runs without a panic, and all wakes that get the deadline of a
    released job get the same deadline for it, whatever nodes they are of and
    whatever is released, finished or dropped in between; the table of deadlines
    never has more than one entry above the cap that [finish_job] enforces. *)
Theorem dag_jobs_have_one_deadline d s evs :
  fresh d ->
  (forall i, is_Some (Graph.weight_of (graph d) i) -> is_source (graph d) i = true -> i = s) ->
  Forall (fun e => is_Some (Graph.weight_of (graph d) (event_node e))) evs ->
  Z.of_nat (length evs) < 2 ^ 64 ->
  exists d' log, run d evs = Ret (d', log) /\
    (forall j v v', (j, v) ∈ log -> (j, v') ∈ log -> v = v') /\
    (size (absolute_deadlines d') <= max_unfinished (graph d) + 1)%nat.
Proof.
  intros [Hd Hn] Hs Hv Hlen.
  destruct (run_inv s (graph d) Hs evs 0 [] d) as (d' & log & Hr & H); [done| |done|].
  - split; try done.
    + intros i n Hi. rewrite (Hn i n Hi). lia.
    + intros j v. by rewrite Hd, lookup_empty.
    + by intros j v v' ?%not_elem_of_nil.
    + by intros j v n ?%not_elem_of_nil.
    + left. rewrite Hd, map_size_empty. lia.
  - exists d', log. split; [done|]. split; [apply H|]. destruct (inv_size _ _ _ _ _ H); lia.
Qed.

(** [finish_job] counts the job of its node and keeps the deadline of every
    job that some node has not finished, except that beyond the cap only the
    latest jobs stay. *)
Theorem finish_job_keeps_unfinished d i :
  is_Some (Graph.weight_of (graph d) i) ->
  exists d' oldest, finish_job d i = Ret d' /\
    graph d' = Graph.update_weight (graph d) i bump /\
    (exists j n, Graph.weight_of (graph d') j = Some n /\ num_finished n = oldest) /\
    (forall j n, Graph.weight_of (graph d') j = Some n -> oldest <= num_finished n) /\
    (size (absolute_deadlines d') <= max_unfinished (graph d))%nat /\
    (forall j v, absolute_deadlines d' !! j = Some v -> oldest <= j /\ absolute_deadlines d !! j = Some v) /\
    (forall j v, absolute_deadlines d !! j = Some v -> oldest <= j ->
      absolute_deadlines d' !! j = Some v \/
      size (absolute_deadlines d') = max_unfinished (graph d) /\
      forall j', is_Some (absolute_deadlines d' !! j') -> j < j').
Proof.
  intros Hi. destruct (finish_job_spec d i Hi) as (d' & o & Hf & _ & Hg & Ho1 & Ho2 & [Hsub Hlate] & Hs).
  exists d', o. split_and!; [done|done|by apply elem_of_counts| |done| |].
  - intros j n Hj. apply Ho2, elem_of_counts. by eexists _, _.
  - intros j v Hj. pose proof (lookup_weaken _ _ _ _ Hj Hsub) as Hx.
    by apply map_lookup_filter_Some in Hx as [??].
  - intros j v Hj Hle. destruct (absolute_deadlines d' !! j) as [w|] eqn:Hw.
    + left. pose proof (lookup_weaken _ _ _ _ Hw Hsub) as Hx.
      apply map_lookup_filter_Some in Hx as [? _]. congruence.
    + right. destruct (Hlate j v) as [? ?]; [by apply map_lookup_filter_Some|done|]. split; [lia|done].
Qed.

(** ** The edges are the topics *)

(** A DAG without nodes, and the nodes of a list added to it in order, each
    with the topics it subscribes to and publishes. *)
Definition new (id : Z) : Dag := mkDag id Graph.new ∅.

Fixpoint assemble (d : Dag) (specs : list (list string * list string)) : outcome Dag :=
  match specs with
  | [] => Ret d
  | (subs, pubs) :: specs' =>
      '(d', _) ← add_node_with_topic_edges d subs pubs; assemble d' specs'
  end.

Local Abbreviation topics := (list string * list string)%type.
Local Abbreviation graph_t := (Graph.Graph NodeInfo string).

Definition topics_of (n : NodeInfo) : topics := (subscribe_topic_names n, publish_topic_names n).

(** The graph of the nodes [specs]: its nodes have their topics, and there is an
    edge for a topic exactly from a publisher to a subscriber. *)
Record topic_graph (g : graph_t) (specs : list topics) : Prop := mkTopicGraph {
  tg_wf : Graph.wf g;
  tg_nodes : (fun x => topics_of (Graph.node_weight x)) <$> Graph.nodes g = specs;
  tg_edges : forall a b t, (a, b, t) ∈ Graph.edge_references g <->
    exists pa sb, Graph.get specs a = Some pa /\ Graph.get specs b = Some sb /\
      t ∈ pa.2 /\ t ∈ sb.1
}.

(** Weights other than the topics may change. *)
Lemma topic_graph_update (g : graph_t) specs i f :
  (forall n, topics_of (f n) = topics_of n) ->
  topic_graph g specs -> topic_graph (Graph.update_weight g i f) specs.
Proof.
  intros Hf [Hwf Hn He]. split; [by apply Graph.update_weight_wf| |].
  - unfold Graph.update_weight. destruct (Graph.get (Graph.nodes g) i) as [n|] eqn:Hi; [|done].
    simpl. rewrite list_fmap_insert. simpl. rewrite Hf, Hn. apply list_insert_id.
    apply Graph.get_Some in Hi as [_ Hi]. by rewrite <-Hn, list_lookup_fmap, Hi.
  - intros a b t. unfold Graph.edge_references. rewrite Graph.edges_update. apply He.
Qed.

Lemma step_topic_graph d e d' l specs :
  step d e = Ret (d', l) -> topic_graph (graph d) specs ->
  topic_graph (graph d') specs /\ id d' = id d.
Proof.
  intros Hs Ht. destruct e as [i release dl|i]; unfold step in Hs.
  - apply bind_ret in Hs as ([d1 v] & Hg & [= <- <-]). unfold get_or_release_absolute_deadline in Hg.
    apply bind_ret in Hg as (n & _ & Hg).
    destruct (absolute_deadlines d !! num_finished n); injection Hg as <- <-;
      (split; [by apply topic_graph_update|done]).
  - apply bind_ret in Hs as (d1 & Hg & [= <- <-]). unfold finish_job, with_node in Hg.
    apply bind_ret in Hg as ([g n] & Hn & Hg). apply bind_ret in Hn as (n' & _ & [= <- <-]).
    apply bind_ret in Hg as (o & _ & [= <-]). split; [by apply topic_graph_update|done].
Qed.

Lemma set_relative_deadline_topic_graph d i dl d' specs :
  set_relative_deadline d i dl = Ret d' -> topic_graph (graph d) specs ->
  topic_graph (graph d') specs /\ id d' = id d.
Proof.
  intros Hs Ht. unfold set_relative_deadline, with_node in Hs.
  apply bind_ret in Hs as ([g n] & Hn & [= <-]). apply bind_ret in Hn as (n' & _ & [= <- <-]).
  split; [by apply topic_graph_update|done].
Qed.

Lemma add_edges_ret g es g' :
  Graph.wf g -> add_edges g es = Ret g' ->
  Graph.wf g' /\ Graph.edge_references g' = Graph.edge_references g ++ es /\
  Graph.node_weight <$> Graph.nodes g' = Graph.node_weight <$> Graph.nodes g.
Proof.
  revert g. induction es as [|[[a b] t] es IH]; intros g H Hes; simpl in *.
  { simplify_eq. by rewrite app_nil_r. }
  destruct (Graph.add_edge g a b t) as [[g1 e]|] eqn:He; [|done]. simpl in Hes.
  destruct (Graph.add_edge_spec _ _ _ _ _ _ H He) as (H1 & Hr & Hw).
  destruct (IH g1 H1 Hes) as (H' & Hr' & Hw').
  split_and!; [done|by rewrite Hr', Hr, <-(assoc_L (++))|congruence].
Qed.

Lemma edge_count_references (g : graph_t) :
  Graph.edge_count g = length (Graph.edge_references g).
Proof. unfold Graph.edge_references. by rewrite length_fmap. Qed.

Lemma node_count_weights (g : graph_t) :
  Graph.node_count g = length (Graph.node_weight <$> Graph.nodes g).
Proof. by rewrite length_fmap. Qed.

Lemma add_edges_returns g es :
  Graph.wf g ->
  Forall (fun e => (0 <= e.1.1 < Z.of_nat (Graph.node_count g)) /\
                   (0 <= e.1.2 < Z.of_nat (Graph.node_count g))) es ->
  Z.of_nat (Graph.edge_count g + length es) <= Graph.END ->
  exists g', add_edges g es = Ret g'.
Proof.
  revert g. induction es as [|[[a b] t] es IH]; intros g H Hes Hn; simpl in *; [by eexists|].
  apply Forall_cons in Hes as [[Ha Hb] Hes]. simpl in *.
  destruct (Graph.add_edge_returns g a b t H) as [[g1 e] He]; [lia|done|done|].
  rewrite He. rbind. destruct (Graph.add_edge_spec _ _ _ _ _ _ H He) as (H1 & Hr & Hw).
  apply IH; [done|by rewrite node_count_weights, Hw, <-node_count_weights|].
  rewrite edge_count_references, Hr, length_app, <-edge_count_references. simpl. lia.
Qed.

Lemma elem_of_node_references (g : graph_t) i n :
  (i, n) ∈ node_references g <-> Graph.weight_of g i = Some n.
Proof.
  unfold node_references, Graph.node_indices, Graph.weight_of, Graph.node_count.
  rewrite list_elem_of_lookup. split.
  - intros [k [Hx Hy]%lookup_zip_Some].
    apply list_lookup_fmap_Some in Hx as (k' & -> & Hk). apply lookup_seq in Hk as [-> _].
    apply list_lookup_fmap_Some in Hy as (nd & -> & Hnd).
    rewrite (proj2 (Graph.get_Some _ _ nd)); [done|]. rewrite Nat2Z.id. split; [lia|done].
  - intros (nd & Hnd & ->)%fmap_Some. apply Graph.get_Some in Hnd as [Hi Hnd].
    exists (Z.to_nat i). apply lookup_zip_Some. rewrite !list_lookup_fmap, Hnd. split; [|done].
    rewrite lookup_seq_lt by (by eapply lookup_lt_Some). simpl. f_equal. lia.
Qed.

Lemma elem_of_edges_with add_idx subs pubs r a b t :
  (a, b, t) ∈ edges_with add_idx subs pubs r <->
    (a = r.1 /\ b = add_idx /\ t ∈ publish_topic_names r.2 /\ t ∈ subs) \/
    (a = add_idx /\ b = r.1 /\ t ∈ subscribe_topic_names r.2 /\ t ∈ pubs).
Proof.
  unfold edges_with. rewrite elem_of_app, !list_elem_of_fmap.
  setoid_rewrite list_elem_of_filter. split.
  - intros [(u & [= -> -> ->] & ? & ?)|(u & [= -> -> ->] & ? & ?)]; auto.
  - intros [(-> & -> & ? & ?)|(-> & -> & ? & ?)]; eauto.
Qed.

(** The number of topic names. *)
Definition names (specs : list topics) : nat :=
  sum_list_with (fun x : topics => length x.1 + length x.2)%nat specs.

Lemma length_bind_le {A B} (f : A -> list B) (h : A -> nat) l :
  (forall x, length (f x) <= h x)%nat -> (length (l ≫= f) <= sum_list_with h l)%nat.
Proof.
  intros Hf. induction l as [|x l IH]; [done|]. rewrite bind_cons, length_app. simpl.
  specialize (Hf x). lia.
Qed.

Lemma sum_list_with_snd {A B} (h : B -> nat) (l : list (A * B)) :
  sum_list_with (fun x => h x.2) l = sum_list_with h l.*2.
Proof. induction l as [|x l IH]; simpl; [done|]. by rewrite IH. Qed.

Lemma new_edges_length (g : graph_t) i subs pubs :
  (length (node_references g ≫= edges_with i subs pubs) <=
    names ((fun x => topics_of (Graph.node_weight x)) <$> Graph.nodes g))%nat.
Proof.
  set (h := fun n => (length (subscribe_topic_names n) + length (publish_topic_names n))%nat).
  etrans; [apply (length_bind_le _ (fun r : Z * NodeInfo => h r.2))|].
  - intros r. unfold edges_with. rewrite length_app, !length_fmap.
    pose proof (length_filter (fun t => t ∈ subs) (publish_topic_names r.2)).
    pose proof (length_filter (fun t => t ∈ pubs) (subscribe_topic_names r.2)). unfold h. lia.
  - rewrite (sum_list_with_snd h). unfold node_references. rewrite snd_zip.
    + unfold names. induction (Graph.nodes g) as [|n l IH]; [done|]. rewrite !fmap_cons. simpl.
      apply Nat.add_le_mono; [done|exact IH].
    + unfold Graph.node_indices, Graph.node_count. by rewrite !length_fmap, length_seq.
Qed.

Lemma topics_weights (g : graph_t) :
  (fun x => topics_of (Graph.node_weight x)) <$> Graph.nodes g =
    topics_of <$> (Graph.node_weight <$> Graph.nodes g).
Proof. by rewrite <-list_fmap_compose. Qed.

Lemma get_topics (g : graph_t) i :
  Graph.get ((fun x => topics_of (Graph.node_weight x)) <$> Graph.nodes g) i =
    topics_of <$> Graph.weight_of g i.
Proof.
  unfold Graph.weight_of, Graph.get. rewrite length_fmap. case_if; [|done].
  rewrite list_lookup_fmap. by destruct (Graph.nodes g !! Z.to_nat i).
Qed.

(** The new edges, in terms of the topics. *)
Definition new_edge (specs : list topics) (subs pubs : list string) (a b : Z) (t : string) : Prop :=
  exists r : Z * topics, Graph.get (specs ++ [(subs, pubs)]) r.1 = Some r.2 /\
    ((a = r.1 /\ b = Z.of_nat (length specs) /\ t ∈ r.2.2 /\ t ∈ subs) \/
     (a = Z.of_nat (length specs) /\ b = r.1 /\ t ∈ r.2.1 /\ t ∈ pubs)).

Lemma elem_of_new_edges (g : graph_t) specs subs pubs :
  (fun x => topics_of (Graph.node_weight x)) <$> Graph.nodes g = specs ++ [(subs, pubs)] ->
  forall a b t,
    (a, b, t) ∈ node_references g ≫= edges_with (Z.of_nat (length specs)) subs pubs <->
    new_edge specs subs pubs a b t.
Proof.
  intros Hg a b t. rewrite list_elem_of_bind. setoid_rewrite elem_of_edges_with. split.
  - intros ([j n] & Hc & Hr%elem_of_node_references). exists (j, topics_of n). split; [|done].
    simpl. by rewrite <-Hg, get_topics, Hr.
  - intros ([j u] & Hr & Hc). simpl in Hr. rewrite <-Hg, get_topics in Hr.
    apply fmap_Some in Hr as (n & Hr & ->). exists (j, n).
    split; [done|by apply elem_of_node_references].
Qed.

Lemma snoc_edges (specs : list topics) subs pubs a b t :
  ((exists pa sb, Graph.get specs a = Some pa /\ Graph.get specs b = Some sb /\ t ∈ pa.2 /\ t ∈ sb.1) \/
   new_edge specs subs pubs a b t) <->
  exists pa sb, Graph.get (specs ++ [(subs, pubs)]) a = Some pa /\
    Graph.get (specs ++ [(subs, pubs)]) b = Some sb /\ t ∈ pa.2 /\ t ∈ sb.1.
Proof.
  pose proof (Graph.get_snoc specs (subs, pubs)) as Hk. split.
  - intros [(pa & sb & Ha & Hb & ?)|([j u] & Hr & [(-> & -> & ? & ?)|(-> & -> & ? & ?)])].
    + exists pa, sb. by rewrite (Graph.get_app_l _ _ _ _ Ha), (Graph.get_app_l _ _ _ _ Hb).
    + by exists u, (subs, pubs).
    + by exists (subs, pubs), u.
  - intros (pa & sb & Ha & Hb & Hpa & Hsb).
    pose proof Ha as Ha'. pose proof Hb as Hb'.
    apply Graph.get_snoc_Some in Ha' as [Ha'|[-> <-]]; apply Graph.get_snoc_Some in Hb' as [Hb'|[-> <-]].
    + left. by exists pa, sb.
    + right. exists (a, pa). split; [done|]. left. done.
    + right. exists (b, sb). split; [done|]. right. done.
    + right. exists (Z.of_nat (length specs), (subs, pubs)). split; [done|]. left. done.
Qed.

Lemma add_node_topic_graph d specs subs pubs d' i :
  topic_graph (graph d) specs -> add_node_with_topic_edges d subs pubs = Ret (d', i) ->
  i = Z.of_nat (length specs) /\ id d' = id d /\
  absolute_deadlines d' = absolute_deadlines d /\
  topic_graph (graph d') (specs ++ [(subs, pubs)]) /\
  (Graph.edge_count (graph d') <= Graph.edge_count (graph d) + names (specs ++ [(subs, pubs)]))%nat.
Proof.
  intros [Hwf Hnodes Hedges] Hret. unfold add_node_with_topic_edges in Hret.
  destruct (Graph.add_node _ _) as [[g1 k]|] eqn:Hadd; [|done]. simpl in Hret.
  apply Graph.add_node_spec in Hadd as (Hwf1 & -> & Hed & Hnd); [|done].
  assert (Hlen : Graph.node_count (graph d) = length specs) by (by rewrite <-Hnodes, length_fmap).
  rewrite Hlen in Hret. set (es := node_references g1 ≫= _) in Hret.
  destruct (add_edges g1 es) as [g'|] eqn:Hes'; [|done]. simpl in Hret. injection Hret as <- <-.
  assert (Ht1 : (fun x => topics_of (Graph.node_weight x)) <$> Graph.nodes g1 = specs ++ [(subs, pubs)]).
  { by rewrite Hnd, fmap_app, Hnodes. }
  assert (Hle : (length es <= names (specs ++ [(subs, pubs)]))%nat).
  { rewrite <-Ht1. apply new_edges_length. }
  pose proof (elem_of_new_edges g1 specs subs pubs Ht1) as Hes. fold es in Hes.
  destruct (add_edges_ret _ _ _ Hwf1 Hes') as (Hwf' & Hr' & Hw').
  assert (Hr1 : Graph.edge_references g1 = Graph.edge_references (graph d)).
  { unfold Graph.edge_references. by rewrite Hed. }
  rewrite Hr1 in Hr'. split_and!; [done|done|done| |].
  - split; [done|simpl; rewrite <-Ht1, !topics_weights; by rewrite Hw'|].
    intros a b t. simpl. rewrite Hr', elem_of_app, Hes, (Hedges a b t). apply snoc_edges.
  - simpl. rewrite !edge_count_references, Hr', length_app. lia.
Qed.

Lemma add_node_topic_returns d specs subs pubs :
  topic_graph (graph d) specs ->
  Z.of_nat (length specs) < Graph.END ->
  Z.of_nat (Graph.edge_count (graph d) + names (specs ++ [(subs, pubs)])) <= Graph.END ->
  exists d' i, add_node_with_topic_edges d subs pubs = Ret (d', i).
Proof.
  intros [Hwf Hnodes Hedges] Hn He. unfold add_node_with_topic_edges.
  assert (Hlen : Graph.node_count (graph d) = length specs) by (by rewrite <-Hnodes, length_fmap).
  set (info := mkNodeInfo 0 subs pubs None 0 None).
  destruct (Graph.add_node_returns (graph d) info Hwf) as [[g1 i] Hadd]; [by rewrite Hlen|].
  rewrite Hadd. rbind. apply Graph.add_node_spec in Hadd as (Hwf1 & -> & Hed & Hnd); [|done].
  rewrite Hlen.
  assert (Ht1 : (fun x => topics_of (Graph.node_weight x)) <$> Graph.nodes g1 = specs ++ [(subs, pubs)]).
  { by rewrite Hnd, fmap_app, Hnodes. }
  assert (Hc1 : Graph.node_count g1 = S (length specs)).
  { apply (f_equal length) in Ht1. rewrite length_fmap, length_app in Ht1. simpl in Ht1.
    unfold Graph.node_count. lia. }
  pose proof (new_edges_length g1 (Z.of_nat (length specs)) subs pubs) as Hle. rewrite Ht1 in Hle.
  pose proof (elem_of_new_edges g1 specs subs pubs Ht1) as Hes.
  destruct (add_edges_returns g1 (node_references g1 ≫= edges_with (Z.of_nat (length specs)) subs pubs))
    as (g' & ->); [done|..|rbind; by eexists _, _].
  - apply Forall_forall. intros [[a b] t] (r & Hr & Hc)%Hes. apply Graph.get_lt in Hr.
    rewrite length_app in Hr. simpl in *. destruct Hc as [(-> & -> & _)|(-> & -> & _)]; lia.
  - unfold Graph.edge_count in *. rewrite Hed. lia.
Qed.

Lemma names_app l k : names (l ++ k) = (names l + names k)%nat.
Proof. apply sum_list_with_app. Qed.

Lemma assemble_spec specs d specs0 :
  topic_graph (graph d) specs0 ->
  Z.of_nat (length (specs0 ++ specs)) <= Graph.END ->
  Z.of_nat (Graph.edge_count (graph d) + length specs * names (specs0 ++ specs)) <= Graph.END ->
  exists d', assemble d specs = Ret d' /\ id d' = id d /\
    absolute_deadlines d' = absolute_deadlines d /\ topic_graph (graph d') (specs0 ++ specs).
Proof.
  revert d specs0. induction specs as [|[subs pubs] specs IH]; intros d specs0 H Hn He; simpl in *.
  { exists d. by rewrite app_nil_r. }
  assert (Hs : specs0 ++ (subs, pubs) :: specs = (specs0 ++ [(subs, pubs)]) ++ specs)
    by (by rewrite <-(assoc_L (++))).
  rewrite Hs in *. set (all := (specs0 ++ [(subs, pubs)]) ++ specs) in *.
  assert (Hle : (names (specs0 ++ [(subs, pubs)]) <= names all)%nat).
  { unfold all. rewrite (names_app _ specs). lia. }
  destruct (add_node_topic_returns d specs0 subs pubs H) as (d1 & i & Hd1).
  { unfold all in Hn. rewrite !length_app in Hn. simpl in Hn. lia. }
  { lia. }
  destruct (add_node_topic_graph d specs0 subs pubs d1 i H Hd1) as (-> & Hid & Hab & H1 & He1).
  rewrite Hd1. rbind. destruct (IH d1 (specs0 ++ [(subs, pubs)]) H1 Hn) as (d' & -> & Hid' & Hab' & H');
    [fold all; lia|].
  exists d'. split_and!; [done|congruence|congruence|done].
Qed.

Lemma new_topic_graph i : topic_graph (graph (new i)) [].
Proof.
  split; [apply Graph.graph_new_wf|done|]. intros a b t. simpl. split.
  - by intros ?%not_elem_of_nil.
  - intros (pa & _ & Ha%Graph.get_lt & _). simpl in Ha. lia.
Qed.

(** Adding nodes one after another to a new DAG with
    [add_node_with_topic_edges] never panics while the indices have room, the
    nodes keep the topics they were given, and there is an edge labelled with a
    topic from one node to another exactly when the first publishes the topic and
    the second subscribes to it, whichever of them was added first. *)
Theorem dag_edges_are_topics i specs :
  Z.of_nat (length specs) <= Graph.END ->
  Z.of_nat (length specs * names specs) <= Graph.END ->
  exists d, assemble (new i) specs = Ret d /\ Graph.wf (graph d) /\
    (fun x => topics_of (Graph.node_weight x)) <$> Graph.nodes (graph d) = specs /\
    forall a b t, (a, b, t) ∈ Graph.edge_references (graph d) <->
      exists pa sb, Graph.get specs a = Some pa /\ Graph.get specs b = Some sb /\
        t ∈ pa.2 /\ t ∈ sb.1.
Proof.
  intros Hn He. destruct (assemble_spec specs (new i) []) as (d & Hd & _ & _ & [H1 H2 H3]);
    [apply new_topic_graph|done|simpl; lia|]. by exists d.
Qed.

(** A source, a node in the middle and a sink, the middle one added last. *)
Definition three_nodes : list (list string * list string) :=
  [([], ["a"]); (["b"], []); (["a"], ["b"])]%string.

Lemma dag_edges_are_topics_witness : exists d,
  assemble (new 1) three_nodes = Ret d /\ (0, 2, "a"%string) ∈ Graph.edge_references (graph d).
Proof.
  destruct (dag_edges_are_topics 1 three_nodes) as (d & Hd & _ & _ & He);
    [vm_compute; congruence|vm_compute; congruence|].
  exists d. split; [done|]. apply He. exists ([], ["a"%string]), (["a"%string], ["b"%string]).
  split_and!; [reflexivity|reflexivity|left|left].
Defined.

(** A source and a sink. *)
Definition two_nodes : list (list string * list string) := [([], ["t"]); (["t"], [])]%string.

(** The wakes and jobs of the unit test [late_node_keeps_the_deadline_of_its_job]. *)
Definition late_node : list Event :=
  [Wake 1 true 5; Wake 0 true 10; Wake 0 true 11; Finish 0; Wake 0 false 15; Wake 0 true 20;
   Wake 1 true 21; Finish 1; Wake 1 true 22].

Definition two_node_dag : Dag :=
  match assemble (new 1) two_nodes with Ret d => d | Panic => new 1 end.

Lemma two_node_dag_nodes i : is_Some (Graph.weight_of (graph two_node_dag) i) -> i = 0 \/ i = 1.
Proof.
  intros [n Hn]. unfold Graph.weight_of in Hn. apply fmap_Some in Hn as (x & Hx & _).
  apply Graph.get_lt in Hx.
  assert (Hl : length (Graph.nodes (graph two_node_dag)) = 2%nat) by (vm_compute; reflexivity).
  rewrite Hl in Hx. lia.
Qed.

Lemma dag_jobs_have_one_deadline_witness : exists d',
  run two_node_dag late_node = Ret (d', [(0, 10); (0, 10); (1, 20); (0, 10); (1, 20)]) /\
  (size (absolute_deadlines d') <= 24)%nat.
Proof.
  destruct (dag_jobs_have_one_deadline two_node_dag 0 late_node) as (d' & log & Hr & _ & Hs).
  - split; [reflexivity|]. intros i n Hn.
    destruct (two_node_dag_nodes i) as [->| ->]; [by eexists|..];
      vm_compute in Hn; injection Hn as <-; reflexivity.
  - intros i Hi. destruct (two_node_dag_nodes i Hi) as [->| ->]; [done|]. vm_compute. congruence.
  - repeat constructor; eexists; vm_compute; reflexivity.
  - vm_compute. reflexivity.
  - exists d'. split; [|exact Hs].
    assert (Hl : exists x, run two_node_dag late_node =
      Ret (x, [(0, 10); (0, 10); (1, 20); (0, 10); (1, 20)])) by (eexists; vm_compute; reflexivity).
    destruct Hl as [x Hx]. congruence.
Defined.

Lemma finish_job_keeps_unfinished_witness : exists d',
  finish_job two_node_dag 0 = Ret d' /\ (size (absolute_deadlines d') <= 23)%nat.
Proof.
  destruct (finish_job_keeps_unfinished two_node_dag 0) as (d' & o & Hf & _ & _ & _ & Hs & _).
  - eexists. vm_compute. reflexivity.
  - by exists d'.
Defined.

End Dag.
