(* ===== verification/Dags.v ===== *)
(** * The registry of DAGs, registration and validation

    The statics and the functions of [awkernel_async_lib/src/dag.rs]: creating a
    DAG, registering reactors, the validation of [finish_create_dags] and the
    spawning of the reactors of a validated DAG.  A [Dag] is shared by reference
    in the code, so DAGs live in a heap and the registry holds addresses.  A
    closure that spawns a reactor is the record of what it captures; the call it
    makes into the task component is the parameter [spawn_with_dag_info]. *)

From S2P Require Import Prelude Graph UnionFind Dfs Dag.
From stdpp Require Import strings sorting relations.
Local Open Scope Z_scope.

Module Dags.

(** [enum DagError]. *)
Inductive DagError : Type :=
| NotWeaklyConnected (dag_id : Z)
| ContainsCycle (dag_id : Z)
| MissingPendingTasks (dag_id : Z)
| MultipleSourceNodes (dag_id : Z)
| MultipleSinkNodes (dag_id : Z)
| NoPublisherFound (dag_id node_id : Z)
| NoSubscriberFound (dag_id node_id : Z)
| SubscribeArityMismatch (dag_id node_id : Z)
| PublishArityMismatch (dag_id node_id : Z)
| DuplicateSubscribe (dag_id node_id : Z)
| DuplicatePublish (dag_id node_id : Z)
| TopicHasMultiplePublishers (dag_id : Z) (topic : string)
| InterDagTopicConflict (topic : string) (dag_ids : list Z).

(** Which of the three [spawn_*_reactor] functions a closure calls. *)
Inductive ReactorKind : Type := General | Periodic (period : Z) | Sink.

(** What the closure of a pending task captures; [T] is [SchedulerType]. *)
Record Reactor (T : Type) : Type := mkReactor {
  kind : ReactorKind;
  reactor_name : string;
  subscribe_topics : list string;
  publish_topics : list string;
  sched_type : T;
  dag_info : Z * Z
}.
Arguments mkReactor {T} _ _ _ _ _ _.
Arguments kind {T} _.
Arguments subscribe_topics {T} _.
Arguments publish_topics {T} _.
Arguments dag_info {T} _.

(** [struct PendingTask]. *)
Record PendingTask (T : Type) : Type := mkPending { node_idx : Z; spawn : Reactor T }.
Arguments mkPending {T} _ _.
Arguments node_idx {T} _.
Arguments spawn {T} _.

(** The statics, the heap of DAGs and the state [S] of the task component. *)
Record World (T S : Type) : Type := mkWorld {
  heap : list Dag.Dag;
  candidate_id : Z;
  id_to_dag : gmap Z nat;
  PENDING_TASKS : gmap Z (list (PendingTask T));
  SOURCE_PENDING_TASKS : gmap Z (PendingTask T);
  MISMATCH_SUBSCRIBE_NODES : gmap Z (list Z);
  MISMATCH_PUBLISH_NODES : gmap Z (list Z);
  DUPLICATE_SUBSCRIBE_NODES : gmap Z (list Z);
  DUPLICATE_PUBLISH_NODES : gmap Z (list Z);
  tasks : S
}.
Arguments mkWorld {T S} _ _ _ _ _ _ _ _ _ _.
Arguments heap {T S} _.
Arguments candidate_id {T S} _.
Arguments id_to_dag {T S} _.
Arguments PENDING_TASKS {T S} _.
Arguments SOURCE_PENDING_TASKS {T S} _.
Arguments MISMATCH_SUBSCRIBE_NODES {T S} _.
Arguments MISMATCH_PUBLISH_NODES {T S} _.
Arguments DUPLICATE_SUBSCRIBE_NODES {T S} _.
Arguments DUPLICATE_PUBLISH_NODES {T S} _.
Arguments tasks {T S} _.

(** [map.entry(k).or_default().push(x)]. *)
Definition entry_push {A} (m : gmap Z (list A)) (k : Z) (x : A) : gmap Z (list A) :=
  <[k := default [] (m !! k) ++ [x]]> m.

Section ops.
Context {T S : Type} {M : Type} `{FixedBitSet M}.
Variable spawn_with_dag_info : Reactor T -> S -> outcome (S * Z).
Implicit Types w : World T S.

Definition with_heap w h : World T S := mkWorld h (candidate_id w) (id_to_dag w) (PENDING_TASKS w)
  (SOURCE_PENDING_TASKS w) (MISMATCH_SUBSCRIBE_NODES w) (MISMATCH_PUBLISH_NODES w)
  (DUPLICATE_SUBSCRIBE_NODES w) (DUPLICATE_PUBLISH_NODES w) (tasks w).
Definition with_dags w h c m : World T S := mkWorld h c m (PENDING_TASKS w)
  (SOURCE_PENDING_TASKS w) (MISMATCH_SUBSCRIBE_NODES w) (MISMATCH_PUBLISH_NODES w)
  (DUPLICATE_SUBSCRIBE_NODES w) (DUPLICATE_PUBLISH_NODES w) (tasks w).
Definition with_pending w p q : World T S := mkWorld (heap w) (candidate_id w) (id_to_dag w) p q
  (MISMATCH_SUBSCRIBE_NODES w) (MISMATCH_PUBLISH_NODES w)
  (DUPLICATE_SUBSCRIBE_NODES w) (DUPLICATE_PUBLISH_NODES w) (tasks w).
Definition with_mismatch w a b : World T S := mkWorld (heap w) (candidate_id w) (id_to_dag w)
  (PENDING_TASKS w) (SOURCE_PENDING_TASKS w) a b
  (DUPLICATE_SUBSCRIBE_NODES w) (DUPLICATE_PUBLISH_NODES w) (tasks w).
Definition with_duplicate w a b : World T S := mkWorld (heap w) (candidate_id w) (id_to_dag w)
  (PENDING_TASKS w) (SOURCE_PENDING_TASKS w) (MISMATCH_SUBSCRIBE_NODES w)
  (MISMATCH_PUBLISH_NODES w) a b (tasks w).
Definition with_tasks w s : World T S := mkWorld (heap w) (candidate_id w) (id_to_dag w)
  (PENDING_TASKS w) (SOURCE_PENDING_TASKS w) (MISMATCH_SUBSCRIBE_NODES w)
  (MISMATCH_PUBLISH_NODES w) (DUPLICATE_SUBSCRIBE_NODES w) (DUPLICATE_PUBLISH_NODES w) s.

(** Dereferencing an [Arc<Dag>] and changing it under its locks. *)
Definition dag_at (a : nat) : st (World T S) Dag.Dag := fun w => d ← index (heap w) a; Ret (w, d).
Definition set_dag (a : nat) (d : Dag.Dag) : st (World T S) unit :=
  fun w => h ← index_set (heap w) a d; Ret (with_heap w h, tt).

(** The loop of [Dags::create] that looks for an unused id. *)
Fixpoint unused_id (fuel : nat) (m : gmap Z nat) (id : Z) : outcome Z :=
  match fuel with
  | O => Panic
  | Datatypes.S fuel' =>
      match m !! id with
      | None => Ret id
      | Some _ => unused_id fuel' m (Z.max (wrap 32 (id + 1)) 1)
      end
  end.

(** [create_dag]; every round of the loop meets another used id. *)
Definition create_dag : st (World T S) nat := fun w =>
  id ← unused_id (Datatypes.S (size (id_to_dag w))) (id_to_dag w) (candidate_id w);
  let a := length (heap w) in
  Ret (with_dags w (heap w ++ [Dag.new id]) id (<[id := a]> (id_to_dag w)), a).

(** [get_dag]. *)
Definition get_dag (id : Z) : st (World T S) (option nat) := gets (fun w => id_to_dag w !! id).

(** [Dag::add_node_with_topic_edges] with its notes on duplicates. *)
Definition add_node_with_topic_edges (a : nat) (subs pubs : list string) : st (World T S) Z :=
  d ← dag_at a;
  '(d', add_node_idx) ← lift (Dag.add_node_with_topic_edges d subs pubs);
  set_dag a d';;
  (if decide (length subs = size (list_to_set subs : gset string)) then mret tt
   else modify (fun w => with_duplicate w
          (entry_push (DUPLICATE_SUBSCRIBE_NODES w) (Dag.id d) add_node_idx)
          (DUPLICATE_PUBLISH_NODES w)));;
  (if decide (length pubs = size (list_to_set pubs : gset string)) then mret tt
   else modify (fun w => with_duplicate w (DUPLICATE_SUBSCRIBE_NODES w)
          (entry_push (DUPLICATE_PUBLISH_NODES w) (Dag.id d) add_node_idx)));;
  mret add_node_idx.

(** [Dag::check_subscribe_mismatch] and [Dag::check_publish_mismatch]; [size] is
    the [TupleSize] of the reactor's argument or result. *)
Definition check_subscribe_mismatch (a : nat) (size : nat) (subs : list string) (idx : Z)
    : st (World T S) unit :=
  d ← dag_at a;
  if (size =? length subs)%nat then mret tt
  else modify (fun w => with_mismatch w
         (entry_push (MISMATCH_SUBSCRIBE_NODES w) (Dag.id d) idx) (MISMATCH_PUBLISH_NODES w)).

Definition check_publish_mismatch (a : nat) (size : nat) (pubs : list string) (idx : Z)
    : st (World T S) unit :=
  d ← dag_at a;
  if (size =? length pubs)%nat then mret tt
  else modify (fun w => with_mismatch w (MISMATCH_SUBSCRIBE_NODES w)
         (entry_push (MISMATCH_PUBLISH_NODES w) (Dag.id d) idx)).

Definition push_pending (id : Z) (p : PendingTask T) : st (World T S) unit :=
  modify (fun w => with_pending w (entry_push (PENDING_TASKS w) id p) (SOURCE_PENDING_TASKS w)).

(** [Dag::register_reactor]. *)
Definition register_reactor (a : nat) (name : string) (args_size ret_size : nat)
    (subs pubs : list string) (sched : T) : st (World T S) unit :=
  idx ← add_node_with_topic_edges a subs pubs;
  check_subscribe_mismatch a args_size subs idx;;
  check_publish_mismatch a ret_size pubs idx;;
  d ← dag_at a;
  push_pending (Dag.id d)
    (mkPending idx (mkReactor General name subs pubs sched (Dag.id d, wrap 32 idx))).

(** [Dag::register_periodic_reactor]. *)
Definition register_periodic_reactor (a : nat) (name : string) (ret_size : nat)
    (pubs : list string) (sched : T) (period : Z) : st (World T S) unit :=
  idx ← add_node_with_topic_edges a [] pubs;
  check_publish_mismatch a ret_size pubs idx;;
  d ← dag_at a;
  modify (fun w => with_pending w (PENDING_TASKS w)
    (<[Dag.id d := mkPending idx
        (mkReactor (Periodic period) name [] pubs sched (Dag.id d, wrap 32 idx))]>
      (SOURCE_PENDING_TASKS w))).

(** [Dag::register_sink_reactor]. *)
Definition register_sink_reactor (a : nat) (name : string) (args_size : nat)
    (subs : list string) (sched : T) (relative_deadline : Z) : st (World T S) unit :=
  idx ← add_node_with_topic_edges a subs [];
  d ← dag_at a;
  d' ← lift (Dag.set_relative_deadline d idx relative_deadline);
  set_dag a d';;
  check_subscribe_mismatch a args_size subs idx;;
  push_pending (Dag.id d)
    (mkPending idx (mkReactor Sink name subs [] sched (Dag.id d, wrap 32 idx))).

(** ** Validation *)

(** [check_for_arity_mismatches] and [check_for_pubsub_duplicates]: the notes of
    the DAG are taken out of the statics and become errors. *)
Definition check_for_arity_mismatches (id : Z) : st (World T S) (result unit (list DagError)) :=
  fun w =>
    let errors := (SubscribeArityMismatch id <$> default [] (MISMATCH_SUBSCRIBE_NODES w !! id)) ++
                  (PublishArityMismatch id <$> default [] (MISMATCH_PUBLISH_NODES w !! id)) in
    Ret (with_mismatch w (base.delete id (MISMATCH_SUBSCRIBE_NODES w))
           (base.delete id (MISMATCH_PUBLISH_NODES w)),
         match errors with [] => Ok tt | _ => Err errors end).

Definition check_for_pubsub_duplicates (id : Z) : st (World T S) (result unit (list DagError)) :=
  fun w =>
    let errors := (DuplicateSubscribe id <$> default [] (DUPLICATE_SUBSCRIBE_NODES w !! id)) ++
                  (DuplicatePublish id <$> default [] (DUPLICATE_PUBLISH_NODES w !! id)) in
    Ret (with_duplicate w (base.delete id (DUPLICATE_SUBSCRIBE_NODES w))
           (base.delete id (DUPLICATE_PUBLISH_NODES w)),
         match errors with [] => Ok tt | _ => Err errors end).

(** The error of a missing partner in a direction. *)
Definition edge_error (dir : Graph.Direction) : Z -> Z -> DagError :=
  match dir with Graph.Incoming => NoPublisherFound | Graph.Outgoing => NoSubscriberFound end.

(** The topics a node has in a direction. *)
Definition expected (dir : Graph.Direction) (n : Dag.NodeInfo) : list string :=
  match dir with
  | Graph.Incoming => Dag.subscribe_topic_names n
  | Graph.Outgoing => Dag.publish_topic_names n
  end.

(** [validate_edge_connect]: the loop over the nodes and both directions. *)
Fixpoint edge_connect_loop (d : Dag.Dag) (todo : list (Z * Graph.Direction))
    : outcome (result unit DagError) :=
  match todo with
  | [] => Ret (Ok tt)
  | (i, dir) :: todo' =>
      node_info ← unwrap (Graph.weight_of (Dag.graph d) i);
      if (length (Graph.neighbors_list (Dag.graph d) i dir) <? length (expected dir node_info))%nat
      then Ret (Err (edge_error dir (Dag.id d) i))
      else edge_connect_loop d todo'
  end.

Definition validate_edge_connect (d : Dag.Dag) : outcome (result unit DagError) :=
  edge_connect_loop d
    (Graph.node_indices (Dag.graph d) ≫= fun i => [(i, Graph.Incoming); (i, Graph.Outgoing)]).

(** [validate_dag]. *)
Definition validate_dag (a : nat) : st (World T S) (result unit DagError) := fun w =>
  d ← index (heap w) a;
  let dag_id := Dag.id d in
  assert_true (bool_decide (is_Some (id_to_dag w !! dag_id)));;
  match PENDING_TASKS w !! dag_id with
  | None => Ret (w, Err (MissingPendingTasks dag_id))
  | Some _ =>
      cc ← UnionFind.connected_components (Dag.graph d);
      if negb (cc =? 1)%nat then Ret (w, Err (NotWeaklyConnected dag_id))
      else
        cyclic ← Dfs.is_cyclic_directed M (Dag.graph d);
        if (cyclic : bool) then Ret (w, Err (ContainsCycle dag_id))
        else if (1 <? length (Dag.get_source_nodes d))%nat then
          Ret (w, Err (MultipleSourceNodes dag_id))
        else if (1 <? length (Dag.get_sink_nodes d))%nat then
          Ret (w, Err (MultipleSinkNodes dag_id))
        else r ← validate_edge_connect d; Ret (w, r)
  end.

(** A [BTreeMap] with [str] keys in the order of its keys. *)
Definition str_le (a b : string) : Prop := String.leb a b = true.
#[export] Instance str_le_dec a b : Decision (str_le a b).
Proof. unfold str_le. apply _. Defined.

Definition in_order {A} (m : gmap string A) : list (string * A) :=
  merge_sort (fun x y : string * A => str_le x.1 y.1) (map_to_list m).

(** The [fold] of [validate_single_publisher_per_topic]: for every topic the
    number of edges that carry it. *)
Definition publisher_counts (d : Dag.Dag) : gmap string nat :=
  foldl (fun acc (e : Z * Z * string) =>
           <[e.2 := (default O (acc !! e.2) + 1)%nat]> acc) ∅
    (Graph.edge_references (Dag.graph d)).

(** [validate_single_publisher_per_topic]. *)
Definition validate_single_publisher_per_topic (d : Dag.Dag) : result unit (list DagError) :=
  let errors := (fun p : string * nat => TopicHasMultiplePublishers (Dag.id d) p.1) <$>
    filter (fun p : string * nat => (1 < p.2)%nat) (in_order (publisher_counts d)) in
  match errors with [] => Ok tt | _ => Err errors end.

(** The order of the ids in the registry. *)
Definition id_le (x y : Z * nat) : Prop := x.1 <= y.1.
#[export] Instance id_le_dec x y : Decision (id_le x y) := decide (x.1 <= y.1).

(** The map [topic_to_dags]: the ids of the DAGs of the edges of a topic. *)
Definition topic_to_dags (w : World T S) : gmap string (list Z) :=
  let dags := omap (fun a => heap w !! a)
    (snd <$> merge_sort id_le (map_to_list (id_to_dag w))) in
  foldl (fun acc (p : string * Z) => <[p.1 := default [] (acc !! p.1) ++ [p.2]]> acc) ∅
    (dags ≫= fun d => (fun e : Z * Z * string => (e.2, Dag.id d)) <$>
                        Graph.edge_references (Dag.graph d)).

(** [validate_dag_topic_conflicts]. *)
Definition validate_dag_topic_conflicts (w : World T S) : result unit (list DagError) :=
  let errors := omap (fun p : string * list Z =>
      let dag_ids := UnionFind.dedup (merge_sort Z.le p.2) in
      if (1 <? length dag_ids)%nat then Some (InterDagTopicConflict p.1 dag_ids) else None)
    (in_order (topic_to_dags w)) in
  match errors with [] => Ok tt | _ => Err errors end.

(** The body of the loop of [validate_all_rules]. *)
Definition validate_one (a : nat) : st (World T S) (list DagError) :=
  d ← dag_at a;
  r1 ← check_for_arity_mismatches (Dag.id d);
  match r1 with
  | Err es => mret es
  | Ok _ =>
      r2 ← validate_dag a;
      match r2 with
      | Err e => mret [e]
      | Ok _ =>
          r3 ← check_for_pubsub_duplicates (Dag.id d);
          match r3 with
          | Err es => mret es
          | Ok _ =>
              match validate_single_publisher_per_topic d with
              | Err es => mret es
              | Ok _ => mret []
              end
          end
      end
  end.

Fixpoint validate_loop (dags : list nat) : st (World T S) (list DagError) :=
  match dags with
  | [] => mret []
  | a :: dags' => es ← validate_one a; es' ← validate_loop dags'; mret (es ++ es')
  end.

(** [validate_all_rules]. *)
Definition validate_all_rules (dags : list nat) : st (World T S) (result unit (list DagError)) :=
  errors ← validate_loop dags;
  match errors with
  | [] => gets validate_dag_topic_conflicts
  | _ => mret (Err errors)
  end.

(** ** Starting and removing *)

(** [remove_dag]. *)
Definition remove_dag (id : Z) : st (World T S) unit := modify (fun w =>
  with_pending (with_dags w (heap w) (candidate_id w) (base.delete id (id_to_dag w)))
    (base.delete id (PENDING_TASKS w)) (base.delete id (SOURCE_PENDING_TASKS w))).

(** The call of [crate::task::spawn_with_dag_info]. *)
Definition call_spawn (r : Reactor T) : st (World T S) Z := fun w =>
  '(s, task_id) ← spawn_with_dag_info r (tasks w); Ret (with_tasks w s, task_id).

(** [spawn_reactor], [spawn_periodic_reactor] and [spawn_sink_reactor] up to the
    call into the task component. *)
Definition spawn_reactor (r : Reactor T) : st (World T S) Z :=
  o ← get_dag (dag_info r).1;
  lift (unwrap o);;
  call_spawn r.

(** A spawned task's id is written into its node. *)
Definition spawn_pending (a : nat) (p : PendingTask T) : st (World T S) unit :=
  task_id ← spawn_reactor (spawn p);
  d ← dag_at a;
  set_dag a (Dag.set_graph d (Graph.update_weight (Dag.graph d) (node_idx p) (fun n =>
    Dag.mkNodeInfo task_id (Dag.subscribe_topic_names n) (Dag.publish_topic_names n)
      (Dag.relative_deadline n) (Dag.num_finished n) (Dag.deadline_job n)))).

(** [spawn_dag]. *)
Definition spawn_dag (a : nat) : st (World T S) unit :=
  d ← dag_at a;
  let dag_id := Dag.id d in
  o ← gets (fun w => PENDING_TASKS w !! dag_id);
  modify (fun w => with_pending w (base.delete dag_id (PENDING_TASKS w)) (SOURCE_PENDING_TASKS w));;
  pending ← lift (unwrap o);
  for_each pending (spawn_pending a);;
  o ← gets (fun w => SOURCE_PENDING_TASKS w !! dag_id);
  modify (fun w => with_pending w (PENDING_TASKS w) (base.delete dag_id (SOURCE_PENDING_TASKS w)));;
  source ← lift (unwrap o);
  spawn_pending a source.

(** [finish_create_dags]. *)
Definition finish_create_dags (dags : list nat) : st (World T S) (result unit (list DagError)) :=
  r ← validate_all_rules dags;
  match r with
  | Ok _ => for_each dags spawn_dag;; mret (Ok tt)
  | Err errors =>
      for_each dags (fun a => d ← dag_at a; remove_dag (Dag.id d));;
      mret (Err errors)
  end.

End ops.
End Dags.
