(* ===== verification/DagValid.v ===== *)
(** * What a validated DAG satisfies

    Soundness of the checks of [finish_create_dags] ([Dags]) on every world that
    creating, registering, validating, spawning and running DAGs can reach. *)

From S2P Require Import Prelude Graph UnionFind Dfs Dag Dags.
From stdpp Require Import strings sorting relations.
Local Open Scope Z_scope.

Module DagValid.
Import Dags.

Local Abbreviation graph_t := (Graph.Graph Dag.NodeInfo string).

(** The promises of the module documentation: acyclic, weakly connected, one
    source and one sink, and every topic of a node is carried by exactly one edge,
    which is at that node. *)
Record valid (d : Dag.Dag) : Prop := mkValid {
  valid_acyclic : ~ exists x, tc (Dfs.arrow (Dag.graph d)) x x;
  valid_connected : forall a b, (a < Graph.node_count (Dag.graph d))%nat ->
    (b < Graph.node_count (Dag.graph d))%nat -> rtsc (UnionFind.adjacent (Dag.graph d)) a b;
  valid_source : exists s, Dag.get_source_nodes d = [s];
  valid_sink : exists s, Dag.get_sink_nodes d = [s];
  valid_topics : forall i n dir t, Graph.weight_of (Dag.graph d) i = Some n -> t ∈ expected dir n ->
    exists e, e ∈ Graph.edge_references (Dag.graph d) /\ e.2 = t /\ Graph.at_dir e.1 dir = i /\
      forall e', e' ∈ Graph.edge_references (Dag.graph d) -> e'.2 = t -> e' = e
}.

(** ** Sources and sinks of acyclic graphs *)

Lemma external_iff (g : graph_t) dir i :
  Graph.wf g -> i ∈ Graph.externals g dir <->
    0 <= i < Z.of_nat (Graph.node_count g) /\
    forall e, e ∈ Graph.edge_references g -> Graph.at_dir e.1 dir <> i.
Proof.
  intros H. rewrite (Graph.externals_spec g dir i H), <-Graph.log_ends_references.
  unfold Graph.log_ends. apply and_iff_compat_l. split.
  - intros Hn e He Hi. apply fmap_nil_inv in Hn.
    assert (Hin : e ∈ filter (fun e : Z * Z * string => Graph.at_dir e.1 dir = i)
      (Graph.edge_references g)) by (by apply list_elem_of_filter).
    rewrite Hn in Hin. by apply not_elem_of_nil in Hin.
  - intros Hall. induction (Graph.edge_references g) as [|e es IH]; [done|].
    rewrite filter_cons, decide_False; [|by apply Hall; left].
    apply IH. intros e' He'. apply Hall. by right.
Qed.

(** The arrows towards a direction. *)
Definition towards (g : graph_t) (dir : Graph.Direction) (x y : Z) : Prop :=
  match dir with
  | Graph.Incoming => Dfs.arrow g y x
  | Graph.Outgoing => Dfs.arrow g x y
  end.

Lemma tc_towards g dir x : tc (towards g dir) x x -> tc (Dfs.arrow g) x x.
Proof.
  destruct dir; [done|]. intros Hc.
  assert (Hf : forall a b, tc (towards g Graph.Incoming) a b -> tc (Dfs.arrow g) b a).
  { induction 1 as [a b Hab|a b c Hab _ IH]; [by apply tc_once|]. eapply tc_r; [done|exact Hab]. }
  by apply Hf.
Qed.

Lemma arrow_nodes (g : graph_t) x y :
  Graph.wf g -> Dfs.arrow g x y ->
  0 <= x < Z.of_nat (Graph.node_count g) /\ 0 <= y < Z.of_nat (Graph.node_count g).
Proof.
  intros H [w Hw]. unfold Graph.edge_references in Hw.
  apply list_elem_of_fmap in Hw as (e & [= -> -> _] & He).
  pose proof (proj1 (Forall_forall _ _) (Graph.wf_ends g H) e He) as Hd.
  split; [apply (Hd Graph.Outgoing)|apply (Hd Graph.Incoming)].
Qed.

Lemma tc_towards_node g dir x y :
  Graph.wf g -> tc (towards g dir) x y -> 0 <= y < Z.of_nat (Graph.node_count g).
Proof.
  intros H. induction 1 as [x y Hxy|]; [|done].
  destruct dir; apply (arrow_nodes _ _ _ H) in Hxy; tauto.
Qed.

Lemma sn_external g dir x :
  Graph.wf g -> sn (towards g dir) x -> 0 <= x < Z.of_nat (Graph.node_count g) ->
  exists i, i ∈ Graph.externals g dir.
Proof.
  intros H. induction 1 as [x _ IH]. intros Hx.
  destruct (decide (Exists (fun e => Graph.at_dir e.1 dir = x) (Graph.edge_references g)))
    as [([[a b] t] & He & Hd)%Exists_exists|Hnx].
  - destruct dir; simpl in Hd; subst.
    + assert (Hab : Dfs.arrow g x b) by (by exists t).
      apply (IH b); [exact Hab|]. apply (arrow_nodes _ _ _ H) in Hab; tauto.
    + assert (Hab : Dfs.arrow g a x) by (by exists t).
      apply (IH a); [exact Hab|]. apply (arrow_nodes _ _ _ H) in Hab; tauto.
  - exists x. apply external_iff; [done|]. split; [done|]. intros e He Hd.
    apply Hnx, Exists_exists. by exists e.
Qed.

(** An acyclic graph with nodes has a node without edges in a direction. *)
Lemma acyclic_external (g : graph_t) dir :
  Graph.wf g -> (0 < Graph.node_count g)%nat -> ~ (exists x, tc (Dfs.arrow g) x x) ->
  exists i, i ∈ Graph.externals g dir.
Proof.
  intros H Hn Hac. apply (sn_external g dir 0); [done| |lia]. apply tc_finite_sn.
  - intros x Hx. apply Hac. exists x. by apply (tc_towards _ dir).
  - exists (Graph.node_indices g). intros y Hy. apply Graph.elem_of_node_indices.
    by eapply tc_towards_node.
Qed.

(** ** Topics *)

Lemma foldl_count (l : list (Z * Z * string)) (acc : gmap string nat) t :
  default O (foldl (fun acc (e : Z * Z * string) =>
      <[e.2 := (default O (acc !! e.2) + 1)%nat]> acc) acc l !! t) =
  (default O (acc !! t) + length (filter (fun e : Z * Z * string => e.2 = t) l))%nat.
Proof.
  revert acc. induction l as [|e l IH]; intros acc; simpl; [lia|]. rewrite IH, filter_cons.
  destruct (decide (e.2 = t)) as [<-|Hne].
  - rewrite lookup_insert_eq. simpl. lia.
  - by rewrite lookup_insert_ne.
Qed.

Lemma elem_of_in_order {A} (m : gmap string A) k x : (k, x) ∈ in_order m <-> m !! k = Some x.
Proof. unfold in_order. by rewrite merge_sort_Permutation, elem_of_map_to_list. Qed.

Lemma NoDup_of_counts {A} (l : list (A * string)) :
  (forall t, (length (filter (fun e : A * string => e.2 = t) l) <= 1)%nat) -> NoDup l.*2.
Proof.
  induction l as [|e l IH]; intros Hc; simpl; [constructor|]. constructor.
  - intros (e' & Ht & He')%list_elem_of_fmap. specialize (Hc e.2).
    rewrite filter_cons, decide_True in Hc by done. simpl in Hc.
    assert (Hin : e' ∈ filter (fun x : A * string => x.2 = e.2) l) by (by apply list_elem_of_filter).
    destruct (filter _ l); [by apply not_elem_of_nil in Hin|simpl in Hc; lia].
  - apply IH. intros t. specialize (Hc t). rewrite filter_cons in Hc. case_decide; simpl in Hc; lia.
Qed.

Lemma errors_nil {A} (es : list A) : match es with [] => Ok tt | _ => Err es end = Ok tt -> es = [].
Proof. by destruct es. Qed.

Lemma errors_not_nil {A} (es : list A) :
  match es with [] => Ok tt | _ => Err es end = Err [] -> False.
Proof. by destruct es. Qed.

(** No topic is on two edges. *)
Lemma single_publisher_sound d :
  validate_single_publisher_per_topic d = Ok tt ->
  NoDup (Graph.edge_references (Dag.graph d)).*2.
Proof.
  unfold validate_single_publisher_per_topic. intros Hok%errors_nil%fmap_nil_inv.
  apply NoDup_of_counts. intros t.
  pose proof (foldl_count (Graph.edge_references (Dag.graph d)) ∅ t) as Hf.
  rewrite lookup_empty in Hf. simpl in Hf. fold (publisher_counts d) in Hf. rewrite <-Hf.
  destruct (publisher_counts d !! t) as [k|] eqn:Hk; simpl; [|lia].
  destruct (decide (1 < k)%nat) as [Hlt|]; [|lia]. exfalso.
  assert (Hin : (t, k) ∈ filter (fun p : string * nat => (1 < p.2)%nat) (in_order (publisher_counts d))).
  { apply list_elem_of_filter. split; [done|by apply elem_of_in_order]. }
  rewrite Hok in Hin. by apply not_elem_of_nil in Hin.
Qed.

Lemma NoDup_fst_inj {A} (l : list (A * string)) e e' :
  NoDup l.*2 -> e ∈ l -> e' ∈ l -> e.2 = e'.2 -> e = e'.
Proof.
  intros Hnd [i Hi]%list_elem_of_lookup [j Hj]%list_elem_of_lookup Ht.
  assert (i = j) as ->; [|congruence]. eapply (NoDup_lookup l.*2); [done|..];
    rewrite list_lookup_fmap, ?Hi, ?Hj; simpl; [done|by rewrite Ht].
Qed.

Lemma edge_connect_sound d i n dir :
  validate_edge_connect d = Ret (Ok tt) ->
  Graph.weight_of (Dag.graph d) i = Some n ->
  (length (expected dir n) <= length (Graph.neighbors_list (Dag.graph d) i dir))%nat.
Proof.
  unfold validate_edge_connect. intros Hok Hi.
  assert (Hin : (i, dir) ∈ (Graph.node_indices (Dag.graph d) ≫=
    fun i => [(i, Graph.Incoming); (i, Graph.Outgoing)])).
  { apply list_elem_of_bind. exists i. split.
    - destruct dir; [right; left|left].
    - apply Graph.elem_of_node_indices. apply fmap_Some in Hi as (x & Hx & _).
      by apply Graph.get_lt in Hx. }
  revert Hok Hin. generalize (Graph.node_indices (Dag.graph d) ≫=
    fun i => [(i, Graph.Incoming); (i, Graph.Outgoing)]) as todo.
  induction todo as [|[j dr] todo IH]; intros Hok Hin; [by apply not_elem_of_nil in Hin|].
  simpl in Hok. apply bind_ret in Hok as (n' & Hn' & Hok). case_if; [done|]. b2p.
  apply elem_of_cons in Hin as [[= <- <-]|Hin]; [|by apply IH].
  rewrite Hi in Hn'. injection Hn' as <-. lia.
Qed.

Lemma neighbors_length (g : graph_t) i dir :
  Graph.wf g -> length (Graph.neighbors_list g i dir) =
    length (filter (fun e : Z * Z * string => Graph.at_dir e.1 dir = i) (Graph.edge_references g)).
Proof.
  intros H. rewrite (Graph.neighbors_list_spec g i dir H), <-Graph.log_ends_references.
  unfold Graph.log_ends. by rewrite length_reverse, length_fmap.
Qed.

(** The topics of a node in a direction are those of its edges there. *)
Lemma topics_sound d specs i n dir :
  Dag.topic_graph (Dag.graph d) specs ->
  validate_edge_connect d = Ret (Ok tt) -> validate_single_publisher_per_topic d = Ok tt ->
  Graph.weight_of (Dag.graph d) i = Some n ->
  (filter (fun e : Z * Z * string => Graph.at_dir e.1 dir = i)
    (Graph.edge_references (Dag.graph d))).*2 ≡ₚ expected dir n.
Proof.
  intros Ht Hec Hsp Hi. pose proof (edge_connect_sound d i n dir Hec Hi) as Hlen.
  rewrite neighbors_length in Hlen by apply Ht. apply submseteq_length_Permutation.
  - apply NoDup_submseteq.
    + eapply sublist_NoDup; [by apply single_publisher_sound|]. apply fmap_sublist, sublist_filter.
    + intros t (e & -> & [Hd He]%list_elem_of_filter)%list_elem_of_fmap.
      destruct e as [[a b] t]. apply (Dag.tg_edges _ _ Ht) in He as (pa & sb & Ha & Hb & Hpa & Hsb).
      assert (Hg : Graph.get specs i = Some (Dag.topics_of n)).
      { rewrite <-(Dag.tg_nodes _ _ Ht), Dag.get_topics, Hi. done. }
      destruct dir; simpl in *; subst; rewrite Hg in *; simplify_eq; done.
  - by rewrite length_fmap.
Qed.

(** ** Reachable worlds *)

Section worlds.
Context {T S M : Type} `{FixedBitSetLaws M}.
Variable spawn_with_dag_info : Reactor T -> S -> outcome (S * Z).
Local Abbreviation W := (World T S).
Local Abbreviation finish_create_dags := (finish_create_dags (M:=M) spawn_with_dag_info).

(** The statics at boot. *)
Definition initial (s : S) : W := mkWorld [] 1 ∅ ∅ ∅ ∅ ∅ ∅ ∅ s.

Inductive reachable : W -> Prop :=
| reach_init s : reachable (initial s)
| reach_create w w' a : reachable w -> create_dag w = Ret (w', a) -> reachable w'
| reach_reactor w w' a name n m subs pubs sched :
    reachable w -> register_reactor a name n m subs pubs sched w = Ret (w', tt) -> reachable w'
| reach_periodic w w' a name m pubs sched period :
    reachable w -> register_periodic_reactor a name m pubs sched period w = Ret (w', tt) ->
    reachable w'
| reach_sink w w' a name n subs sched dl :
    reachable w -> register_sink_reactor a name n subs sched dl w = Ret (w', tt) -> reachable w'
| reach_finish w w' dags r :
    reachable w -> finish_create_dags dags w = Ret (w', r) -> reachable w'
| reach_event w a d e d' l :
    reachable w -> heap w !! a = Some d -> Dag.step d e = Ret (d', l) ->
    reachable (with_heap w (<[a := d']> (heap w))).

(** A DAG whose edges are its topics. *)
Definition good (d : Dag.Dag) : Prop := exists specs, Dag.topic_graph (Dag.graph d) specs.

(** The registry points to DAGs with the id of their entry; ids are not 0. *)
Record wf_world (w : W) : Prop := mkWfWorld {
  ww_good : Forall good (heap w);
  ww_reg : forall id a, id_to_dag w !! id = Some a ->
    1 <= id < 2 ^ 32 /\ exists d, heap w !! a = Some d /\ Dag.id d = id;
  ww_cand : 1 <= candidate_id w < 2 ^ 32
}.

Lemma wf_set w a d d' :
  wf_world w -> heap w !! a = Some d -> (good d -> good d') -> Dag.id d' = Dag.id d ->
  wf_world (with_heap w (<[a := d']> (heap w))).
Proof.
  intros [Hg Hr Hc] Hd Hd' Hid. split; simpl; [|intros id b Hb|done].
  - apply Forall_insert; [done|]. apply Hd'. by eapply Forall_lookup_1.
  - destruct (Hr id b Hb) as (? & e & He & Hie). split; [done|].
    destruct (decide (a = b)) as [<-|Hne].
    + exists d'. rewrite list_lookup_insert_eq by (by eapply lookup_lt_Some).
      split; [done|]. simplify_eq. congruence.
    + exists e. by rewrite list_lookup_insert_ne.
Qed.

Lemma keeps_with_dag {A} a (m : Dag.Dag -> st W A) :
  (forall w d w' x, wf_world w -> heap w !! a = Some d -> m d w = Ret (w', x) -> wf_world w') ->
  keeps wf_world (d ← dag_at a; m d).
Proof.
  intros Hm w w' x Hw (w1 & d & Hd & Hr)%st_bind_ret. unfold dag_at, index in Hd.
  destruct (heap w !! a) as [d0|] eqn:Ha; [|done]. injection Hd as <- <-. by eapply Hm.
Qed.

(** The parts that leave the heap and the registry alone. *)
Lemma keeps_frame (f : W -> W) :
  (forall w, heap (f w) = heap w /\ id_to_dag (f w) = id_to_dag w /\
             candidate_id (f w) = candidate_id w) -> keeps wf_world (modify f).
Proof.
  intros Hf. apply keeps_modify. intros w [Hg Hr Hc]. destruct (Hf w) as (H1 & H2 & H3).
  split; rewrite ?H1, ?H2, ?H3; done.
Qed.

Local Hint Extern 0 (keeps wf_world (modify _)) => apply keeps_frame; done : awk.

Lemma set_dag_ret a d (w w' : W) x :
  set_dag a d w = Ret (w', x) -> w' = with_heap w (<[a := d]> (heap w)).
Proof.
  unfold set_dag, index_set. case_decide; [|done]. by intros [= <- <-].
Qed.

Lemma keeps_add_node a subs pubs : keeps wf_world (add_node_with_topic_edges a subs pubs).
Proof.
  apply keeps_with_dag. intros w d w' x Hw Hd (w1 & [d' i] & Hl & Hr)%st_bind_ret.
  apply bind_ret in Hl as ([d1 i1] & Hadd & [= <- <- <-]).
  apply st_bind_ret in Hr as (w2 & [] & Hset & Hr). apply set_dag_ret in Hset as ->.
  assert (Hw2 : wf_world (with_heap w (<[a := d1]> (heap w)))).
  { destruct (Forall_lookup_1 _ _ _ _ (ww_good w Hw) Hd) as [specs Hs].
    destruct (Dag.add_node_topic_graph _ _ _ _ _ _ Hs Hadd) as (_ & Hid & _ & Ht & _).
    apply (wf_set w a d); [done|done| |done]. intros _. by eexists. }
  keeps_from Hw2 Hr. keeps_tac.
Qed.

Lemma keeps_check_subscribe a n subs i : keeps wf_world (check_subscribe_mismatch a n subs i).
Proof.
  apply keeps_with_dag. intros w d w' x Hw Hd Hr. keeps_from Hw Hr. keeps_tac.
Qed.

Lemma keeps_check_publish a n pubs i : keeps wf_world (check_publish_mismatch a n pubs i).
Proof.
  apply keeps_with_dag. intros w d w' x Hw Hd Hr. keeps_from Hw Hr. keeps_tac.
Qed.

Lemma keeps_dag_at a : keeps wf_world (dag_at a).
Proof. intros w w' x Hw (d & _ & [= <- <-])%bind_ret. done. Qed.

Local Hint Resolve keeps_add_node keeps_check_subscribe keeps_check_publish keeps_dag_at : awk.

Lemma keeps_register_reactor a name n m subs pubs sched :
  keeps wf_world (register_reactor a name n m subs pubs sched).
Proof. unfold register_reactor, push_pending. keeps_tac. Qed.

Lemma keeps_register_periodic a name m pubs sched period :
  keeps wf_world (register_periodic_reactor a name m pubs sched period).
Proof. unfold register_periodic_reactor. keeps_tac. Qed.

Lemma keeps_register_sink a name n subs sched dl :
  keeps wf_world (register_sink_reactor a name n subs sched dl).
Proof.
  unfold register_sink_reactor, push_pending. apply keeps_bind; [auto with awk|]. intros i.
  apply keeps_with_dag. intros w d w' x Hw Hd (w1 & d' & Hl & Hr)%st_bind_ret.
  apply bind_ret in Hl as (d1 & Hset & [= <- <-]).
  apply st_bind_ret in Hr as (w2 & [] & Hw2 & Hr). apply set_dag_ret in Hw2 as ->.
  assert (Hk : wf_world (with_heap w (<[a := d1]> (heap w)))).
  { destruct (Forall_lookup_1 _ _ _ _ (ww_good w Hw) Hd) as [specs Hs].
    destruct (Dag.set_relative_deadline_topic_graph _ _ _ _ _ Hset Hs) as [Ht Hid].
    apply (wf_set w a d); [done|done| |done]. intros _. by eexists. }
  keeps_from Hk Hr. keeps_tac.
Qed.

(** ** Identifiers *)

Lemma next_id i : 1 <= i < 2 ^ 32 ->
  Z.max (wrap 32 (i + 1)) 1 = if i =? 2 ^ 32 - 1 then 1 else i + 1.
Proof.
  intros Hi. destruct (Z.eqb_spec i (2 ^ 32 - 1)) as [->|Hn]; [done|].
  rewrite wrap_id by (unfold is_uint; lia). lia.
Qed.

Lemma unused_id_range fuel m id i :
  1 <= id < 2 ^ 32 -> unused_id fuel m id = Ret i -> 1 <= i < 2 ^ 32 /\ m !! i = None.
Proof.
  revert id. induction fuel as [|fuel IH]; intros id Hid Hi; simpl in Hi; [done|].
  destruct (m !! id) eqn:Hm; [|by simplify_eq]. apply IH in Hi; [done|].
  rewrite next_id by done. case_if; b2p; lia.
Qed.

Lemma unused_id_returns m id k :
  1 <= id < 2 ^ 32 -> m !! cyc (2 ^ 32 - 1) id k = None ->
  forall fuel, (k < fuel)%nat -> exists i, unused_id fuel m id = Ret i.
Proof.
  revert id. induction k as [|k IH]; intros id Hid Hk fuel Hf; destruct fuel as [|fuel]; try lia; simpl.
  - rewrite cyc_0 in Hk by lia. rewrite Hk. by eexists.
  - destruct (m !! id); [|by eexists]. rewrite next_id by done.
    apply IH; [case_if; b2p; lia| |lia]. by rewrite cyc_next by lia.
Qed.

Lemma keeps_create : keeps wf_world create_dag.
Proof.
  intros w w' a [Hg Hr Hc] (id & Hid & [= <- <-])%bind_ret.
  apply unused_id_range in Hid as [Hid Hn]; [|done]. split; simpl; [|intros i b Hb|done].
  - apply Forall_app. split; [done|]. constructor; [|done]. eexists. apply Dag.new_topic_graph.
  - apply lookup_insert_Some in Hb as [[<- <-]|[Hne Hb]].
    + split; [done|]. exists (Dag.new id). split; [|done]. by apply list_lookup_middle.
    + destruct (Hr i b Hb) as (? & d & Hd & Hi). split; [done|]. exists d.
      split; [by apply lookup_app_l_Some|done].
Qed.

(** ** Validation leaves the DAGs alone *)

Definition frame (w w' : W) : Prop :=
  heap w' = heap w /\ id_to_dag w' = id_to_dag w /\ candidate_id w' = candidate_id w /\
  tasks w' = tasks w.

Lemma validate_dag_pure a (w w' : W) r : validate_dag (M:=M) a w = Ret (w', r) -> w' = w.
Proof.
  intros (d & Hd & Hv)%bind_ret. apply bind_ret in Hv as ([] & _ & Hv).
  destruct (PENDING_TASKS w !! Dag.id d); [|by simplify_eq].
  apply bind_ret in Hv as (cc & _ & Hv). case_if; [by simplify_eq|].
  apply bind_ret in Hv as (c & _ & Hv). repeat (case_if; [by simplify_eq|]).
  apply bind_ret in Hv as (x & _ & Hv). by simplify_eq.
Qed.

Lemma keeps_validate_one w a : keeps (frame w) (validate_one (M:=M) a).
Proof.
  assert (Hd : keeps (frame w) (dag_at a)).
  { intros w1 w2 x Hw (d & _ & [= <- <-])%bind_ret. done. }
  assert (Ha : forall id, keeps (frame w) (check_for_arity_mismatches id)).
  { intros id w1 w2 x Hw [= <- <-]. done. }
  assert (Hp : forall id, keeps (frame w) (check_for_pubsub_duplicates id)).
  { intros id w1 w2 x Hw [= <- <-]. done. }
  assert (Hv : keeps (frame w) (validate_dag (M:=M) a)).
  { intros w1 w2 x Hw ->%validate_dag_pure. done. }
  unfold validate_one. keeps_tac.
Qed.

Lemma keeps_validate_loop w dags : keeps (frame w) (validate_loop (M:=M) dags).
Proof.
  induction dags as [|a dags IH]; simpl; [apply keeps_ret|]. pose proof (keeps_validate_one w a).
  keeps_tac.
Qed.

Lemma validate_all_frame dags (w w' : W) r :
  validate_all_rules (M:=M) dags w = Ret (w', r) -> frame w w'.
Proof.
  intros Hr. assert (Hw : frame w w) by done. pose proof (keeps_validate_loop w dags).
  keeps_from Hw Hr. unfold validate_all_rules. keeps_tac.
Qed.

(** ** Spawning and removing *)

Lemma keeps_spawn_pending a p : keeps wf_world (spawn_pending spawn_with_dag_info a p).
Proof.
  unfold spawn_pending, spawn_reactor, get_dag.
  apply keeps_bind; [apply keeps_bind; [apply keeps_gets|intros o]|].
  { apply keeps_bind; [apply keeps_lift|intros _]. intros w w' x Hw ([s i] & _ & [= <- <-])%bind_ret.
    destruct Hw. by split. }
  intros i. apply keeps_with_dag. intros w d w' x Hw Hd Hr. apply set_dag_ret in Hr as ->.
  apply (wf_set w a d); [done|done| |done]. intros [specs Hs]. exists specs.
  by apply Dag.topic_graph_update.
Qed.

Local Hint Resolve keeps_spawn_pending : awk.

Lemma keeps_spawn_dag a : keeps wf_world (spawn_dag spawn_with_dag_info a).
Proof. unfold spawn_dag. keeps_tac. Qed.

Lemma keeps_remove_dag id : keeps wf_world (remove_dag id).
Proof.
  apply keeps_modify. intros w [Hg Hr Hc]. split; simpl; [done| |done].
  intros i b [_ Hb]%lookup_delete_Some. by apply Hr.
Qed.

Local Hint Resolve keeps_spawn_dag keeps_remove_dag : awk.

Lemma keeps_finish dags : keeps wf_world (finish_create_dags dags).
Proof.
  unfold finish_create_dags. apply keeps_bind; [|intros r; keeps_tac].
  intros w w' r Hw (H1 & H2 & H3 & _)%validate_all_frame. destruct Hw.
  split; rewrite ?H1, ?H2, ?H3; done.
Qed.

Lemma reachable_wf w : reachable w -> wf_world w.
Proof.
  induction 1 as [s|w w' a _ IH Hr|w w' a name n m subs pubs sched _ IH Hr|
    w w' a name m pubs sched period _ IH Hr|w w' a name n subs sched dl _ IH Hr|
    w w' dags r _ IH Hr|w a d e d' l _ IH Hd Hs].
  - split; simpl; [constructor|by intros|lia].
  - by eapply keeps_create.
  - by eapply keeps_register_reactor.
  - by eapply keeps_register_periodic.
  - by eapply keeps_register_sink.
  - by eapply keeps_finish.
  - apply (wf_set w a d); [done|done|..].
    + intros [specs Ht]. exists specs. by apply (Dag.step_topic_graph _ _ _ _ _ Hs).
    + destruct (Forall_lookup_1 _ _ _ _ (ww_good w IH) Hd) as [specs Ht].
      by apply (Dag.step_topic_graph _ _ _ _ specs Hs).
Qed.

(** ** Soundness of the validation *)

Lemma validate_dag_sound a (w w' : W) d specs :
  heap w !! a = Some d -> Dag.topic_graph (Dag.graph d) specs ->
  validate_dag (M:=M) a w = Ret (w', Ok tt) ->
  validate_single_publisher_per_topic d = Ok tt -> valid d.
Proof.
  intros Hd Ht (d' & Hd' & Hv)%bind_ret Hsp. unfold index in Hd'. rewrite Hd in Hd'.
  injection Hd' as <-. apply bind_ret in Hv as ([] & _ & Hv).
  destruct (PENDING_TASKS w !! Dag.id d); [|done].
  apply bind_ret in Hv as (cc & Hcc & Hv). destruct (Nat.eqb_spec cc 1) as [->|]; [|done]. simpl in Hv.
  apply bind_ret in Hv as (c & Hc & Hv). destruct c; [done|].
  destruct (Nat.ltb_spec 1 (length (Dag.get_source_nodes d))) as [|Hsrc]; [done|].
  destruct (Nat.ltb_spec 1 (length (Dag.get_sink_nodes d))) as [|Hsnk]; [done|].
  apply bind_ret in Hv as (r & Hec & [= <- ->]).
  pose proof (Dag.tg_wf _ _ Ht) as Hwf.
  apply UnionFind.connected_components_one in Hcc as [Hpos Hconn]; [|done].
  destruct (Dfs.is_cyclic_directed_spec M _ Hwf) as (b & Hb & Hcyc).
  assert (Hac : ~ exists x, tc (Dfs.arrow (Dag.graph d)) x x).
  { intros Hx. apply Hcyc in Hx. congruence. }
  split; [done|done|..].
  - destruct (acyclic_external _ Graph.Incoming Hwf Hpos Hac) as [i Hi].
    unfold Dag.get_source_nodes in *.
    destruct (Graph.externals _ _) as [|s [|? ?]]; [by apply not_elem_of_nil in Hi|by exists s|simpl in *; lia].
  - destruct (acyclic_external _ Graph.Outgoing Hwf Hpos Hac) as [i Hi].
    unfold Dag.get_sink_nodes in *.
    destruct (Graph.externals _ _) as [|s [|? ?]]; [by apply not_elem_of_nil in Hi|by exists s|simpl in *; lia].
  - intros i n dir t Hi Hte. rewrite <-(topics_sound d specs i n dir Ht Hec Hsp Hi) in Hte.
    apply list_elem_of_fmap in Hte as (e & -> & [Hdir He]%list_elem_of_filter).
    exists e. split_and!; [done..|]. intros e' He' Heq. apply single_publisher_sound in Hsp.
    by apply (NoDup_fst_inj (Graph.edge_references (Dag.graph d))).
Qed.

Lemma validate_one_sound a (w w' : W) :
  Forall good (heap w) -> validate_one (M:=M) a w = Ret (w', []) ->
  exists d, heap w !! a = Some d /\ valid d.
Proof.
  intros Hg Hv. apply st_bind_ret in Hv as (w1 & d & Hd & Hv).
  apply bind_ret in Hd as (d1 & Hd & [= <- <-]). unfold index in Hd.
  destruct (heap w !! a) as [d0|] eqn:Ha; [|done]. injection Hd as ->.
  destruct (Forall_lookup_1 _ _ _ _ Hg Ha) as [specs Hs]. exists d1. split; [done|].
  apply st_bind_ret in Hv as (w2 & r1 & [= <- Hr1] & Hv).
  destruct r1 as [[]|es]; [|injection Hv as _ ->; by apply errors_not_nil in Hr1].
  apply st_bind_ret in Hv as (w3 & r2 & Hdag & Hv). destruct r2 as [[]|e]; [|done].
  apply st_bind_ret in Hv as (w4 & r3 & [= <- Hr3] & Hv).
  destruct r3 as [[]|es]; [|injection Hv as _ ->; by apply errors_not_nil in Hr3].
  destruct (validate_single_publisher_per_topic d1) as [[]|es] eqn:Hsp.
  - eapply (validate_dag_sound a _ _ d1 specs); [|exact Hs|exact Hdag|done]. done.
  - injection Hv as _ ->. by apply errors_not_nil in Hsp.
Qed.

Lemma validate_loop_sound dags (w w' : W) :
  Forall good (heap w) -> validate_loop (M:=M) dags w = Ret (w', []) ->
  Forall (fun a => exists d, heap w !! a = Some d /\ valid d) dags.
Proof.
  revert w. induction dags as [|a dags IH]; intros w Hg Hv; [constructor|]. simpl in Hv.
  apply st_bind_ret in Hv as (w1 & es & Hone & Hv). apply st_bind_ret in Hv as (w2 & es' & Hl & Hv).
  injection Hv as -> [-> ->]%app_nil. constructor; [by eapply validate_one_sound|].
  assert (Hf : frame w w1) by (by apply (keeps_validate_one w a w w1 [])).
  destruct Hf as (Hh & _). specialize (IH w1). rewrite Hh in IH. by apply IH.
Qed.

(** ** Topics of different DAGs *)

Lemma foldl_push_in (l : list (string * Z)) (acc : gmap string (list Z)) t x :
  x ∈ default [] (acc !! t) \/ (t, x) ∈ l ->
  x ∈ default [] (foldl (fun acc (p : string * Z) =>
    <[p.1 := default [] (acc !! p.1) ++ [p.2]]> acc) acc l !! t).
Proof.
  revert acc. induction l as [|[k y] l IH]; intros acc Hx; simpl.
  { destruct Hx as [|[]%not_elem_of_nil]; done. }
  apply IH. destruct Hx as [Hx|[[= -> ->]|Hx]%elem_of_cons]; [left|left|by right].
  - destruct (decide (k = t)) as [->|Hn]; [|by rewrite lookup_insert_ne].
    rewrite lookup_insert_eq. simpl. apply elem_of_app. by left.
  - rewrite lookup_insert_eq. simpl. apply elem_of_app. right. left.
Qed.

Lemma topic_to_dags_in (w : W) id a d e :
  id_to_dag w !! id = Some a -> heap w !! a = Some d ->
  e ∈ Graph.edge_references (Dag.graph d) ->
  Dag.id d ∈ default [] (topic_to_dags w !! e.2).
Proof.
  intros Ha Hd He. unfold topic_to_dags. apply foldl_push_in. right. apply list_elem_of_bind.
  exists d. split.
  - apply list_elem_of_fmap. by exists e.
  - apply list_elem_of_omap. exists a. split; [|done]. apply list_elem_of_fmap. exists (id, a).
    split; [done|]. by rewrite merge_sort_Permutation, elem_of_map_to_list.
Qed.

Lemma topic_conflicts_sound (w : W) t x y :
  validate_dag_topic_conflicts w = Ok tt ->
  x ∈ default [] (topic_to_dags w !! t) -> y ∈ default [] (topic_to_dags w !! t) -> x = y.
Proof.
  unfold validate_dag_topic_conflicts. intros Hok%errors_nil Hx Hy.
  destruct (topic_to_dags w !! t) as [ids|] eqn:Ht; simpl in *; [|by apply not_elem_of_nil in Hx].
  destruct (UnionFind.distinct_spec Z.le ids) as [Hnd Hin].
  apply Hin in Hx, Hy. unfold UnionFind.distinct in *.
  destruct (Nat.ltb_spec 1 (length (UnionFind.dedup (merge_sort Z.le ids)))) as [Hlt|Hle].
  - exfalso. assert (Hc : InterDagTopicConflict t (UnionFind.dedup (merge_sort Z.le ids)) ∈ []).
    { rewrite <-Hok. apply list_elem_of_omap. exists (t, ids). split; [by apply elem_of_in_order|].
      simpl. by rewrite (proj2 (Nat.ltb_lt _ _) Hlt). }
    by apply not_elem_of_nil in Hc.
  - destruct (UnionFind.dedup _) as [|z [|z' l]]; simpl in *; [by apply not_elem_of_nil in Hx| |lia].
    apply list_elem_of_singleton in Hx, Hy. congruence.
Qed.

Lemma finish_ok_validated dags (w w' : W) :
  finish_create_dags dags w = Ret (w', Ok tt) ->
  exists w1, validate_loop (M:=M) dags w = Ret (w1, []) /\ validate_dag_topic_conflicts w1 = Ok tt.
Proof.
  intros (w1 & r & Hv & Hr)%st_bind_ret. destruct r as [[]|es].
  - apply st_bind_ret in Hv as (w2 & es & Hl & Hv). exists w2. destruct es; [|done].
    injection Hv as -> ->. done.
  - by apply st_bind_ret in Hr as (w2 & [] & _ & [=]).
Qed.

(** C31: when [finish_create_dags] succeeds, every DAG it was given is acyclic,
    weakly connected, has one source and one sink, and every topic that a node
    subscribes to or publishes is carried by exactly one edge of the DAG, at that
    node; and no topic is shared by two registered DAGs.  This holds in every
    world that creating, registering, finishing and running DAGs can reach. *)
Theorem finish_create_dags_sound dags w w' :
  reachable w -> finish_create_dags dags w = Ret (w', Ok tt) ->
  Forall (fun a => exists d, heap w !! a = Some d /\ valid d) dags /\
  forall id1 id2 a1 a2 d1 d2 e1 e2,
    id_to_dag w !! id1 = Some a1 -> heap w !! a1 = Some d1 ->
    id_to_dag w !! id2 = Some a2 -> heap w !! a2 = Some d2 ->
    e1 ∈ Graph.edge_references (Dag.graph d1) -> e2 ∈ Graph.edge_references (Dag.graph d2) ->
    e1.2 = e2.2 -> id1 = id2.
Proof.
  intros Hw%reachable_wf (w1 & Hl & Hc)%finish_ok_validated.
  split; [by eapply validate_loop_sound; [apply Hw|]|].
  intros id1 id2 a1 a2 d1 d2 e1 e2 Hi1 Hd1 Hi2 Hd2 He1 He2 Het.
  assert (Hf : frame w w1) by (by apply (keeps_validate_loop w dags w w1 [])).
  destruct Hf as (Hh & Hreg & _). rewrite <-Hh in Hd1, Hd2. rewrite <-Hreg in Hi1, Hi2.
  assert (Hid : forall id a d, id_to_dag w1 !! id = Some a -> heap w1 !! a = Some d -> Dag.id d = id).
  { intros id a d. rewrite Hreg, Hh. intros Hi Hd. destruct (ww_reg w Hw id a Hi) as (_ & d' & ? & ?).
    congruence. }
  rewrite <-(Hid _ _ _ Hi1 Hd1), <-(Hid _ _ _ Hi2 Hd2).
  apply (topic_conflicts_sound w1 e1.2); [done|exact (topic_to_dags_in _ _ _ _ _ Hi1 Hd1 He1)|].
  rewrite Het. exact (topic_to_dags_in _ _ _ _ _ Hi2 Hd2 He2).
Qed.

(** ** Failure *)

Lemma remove_all_spec dags (w w' : W) :
  for_each dags (fun a => d ← dag_at a; remove_dag (Dag.id d)) w = Ret (w', tt) ->
  heap w' = heap w /\ tasks w' = tasks w /\
  (forall id, id_to_dag w !! id = None -> id_to_dag w' !! id = None) /\
  (forall id, PENDING_TASKS w !! id = None -> PENDING_TASKS w' !! id = None) /\
  (forall id, SOURCE_PENDING_TASKS w !! id = None -> SOURCE_PENDING_TASKS w' !! id = None) /\
  (forall a d, a ∈ dags -> heap w !! a = Some d -> id_to_dag w' !! Dag.id d = None /\
    PENDING_TASKS w' !! Dag.id d = None /\ SOURCE_PENDING_TASKS w' !! Dag.id d = None).
Proof.
  revert w. induction dags as [|a dags IH]; intros w Hr; simpl in Hr.
  { injection Hr as <-. split_and!; try done. by intros a d ?%not_elem_of_nil. }
  apply st_bind_ret in Hr as (w1 & [] & Ha & Hr). apply st_bind_ret in Ha as (w0 & d & Hd & Hrm).
  apply bind_ret in Hd as (d0 & Hd & [= <- <-]). injection Hrm as <-. unfold index in Hd.
  destruct (heap w !! a) as [d1|] eqn:Hha; [|done]. injection Hd as ->.
  destruct (IH _ Hr) as (Hh & Ht & H1 & H2 & H3 & H4). simpl in *.
  split_and!; [done|done|..].
  - intros id Hid. apply H1. apply lookup_delete_None. by right.
  - intros id Hid. apply H2. apply lookup_delete_None. by right.
  - intros id Hid. apply H3. apply lookup_delete_None. by right.
  - intros b e [->|Hb]%elem_of_cons He.
    + rewrite Hha in He. injection He as <-.
      split_and!; [apply H1|apply H2|apply H3]; apply lookup_delete_eq.
    + by apply (H4 b e).
Qed.

(** When [finish_create_dags] reports errors there is at least one, no task
    was spawned, the DAG objects are as before, and none of the given DAGs is
    registered or has a pending task any more. *)
Theorem finish_create_dags_rejects dags (w w' : W) errors :
  Dags.finish_create_dags (M:=M) spawn_with_dag_info dags w = Ret (w', Err errors) ->
  errors <> [] /\ tasks w' = tasks w /\ heap w' = heap w /\
  forall a d, a ∈ dags -> heap w !! a = Some d ->
    id_to_dag w' !! Dag.id d = None /\ PENDING_TASKS w' !! Dag.id d = None /\
    SOURCE_PENDING_TASKS w' !! Dag.id d = None.
Proof.
  intros (w1 & r & Hv & Hr)%st_bind_ret. pose proof (validate_all_frame _ _ _ _ Hv) as (Hh & _ & _ & Ht).
  destruct r as [[]|es]; [by apply st_bind_ret in Hr as (w2 & [] & _ & [=])|].
  apply st_bind_ret in Hr as (w2 & [] & Hrm & [= -> ->]).
  destruct (remove_all_spec _ _ _ Hrm) as (Hh' & Ht' & _ & _ & _ & Hall).
  rewrite Hh in *. split_and!; [|congruence|done|done]. intros ->.
  apply st_bind_ret in Hv as (w3 & es & Hl & Hv). destruct es; [|done].
  injection Hv as _ Hv. by apply errors_not_nil in Hv.
Qed.

(** While fewer than [2 ^ 32 - 1] DAGs are registered, [create_dag] finds
    an unused identifier other than 0 (the search ends), and registers a new
    empty DAG under it without touching the other entries. *)
Theorem create_dag_fresh w :
  reachable w -> Z.of_nat (size (id_to_dag w)) < 2 ^ 32 - 1 ->
  exists w' a id, create_dag w = Ret (w', a) /\
    id_to_dag w !! id = None /\ 1 <= id < 2 ^ 32 /\
    id_to_dag w' = <[id := a]> (id_to_dag w) /\ heap w' = heap w ++ [Dag.new id] /\
    heap w' !! a = Some (Dag.new id).
Proof.
  intros Hw%reachable_wf Hsz. pose proof (ww_cand w Hw) as Hc.
  destruct (cyc_unused (id_to_dag w) (2 ^ 32 - 1) (candidate_id w)) as (k & Hk & Hn); [lia|].
  destruct (unused_id_returns (id_to_dag w) (candidate_id w) k Hc Hn
    (Datatypes.S (size (id_to_dag w)))) as [id Hid]; [lia|].
  destruct (unused_id_range _ _ _ _ Hc Hid) as [Hrange Hnone]. unfold create_dag. rewrite Hid. rbind.
  eexists _, _, id. split_and!; [reflexivity|done|lia|lia|done|done|]. by apply list_lookup_middle.
Qed.

End worlds.
(** ** Order of spawning *)

(** A task component that only notes what it is asked to spawn. *)
Definition log_spawn {T} (r : Reactor T) (l : list (Reactor T)) : outcome (list (Reactor T) * Z) :=
  Ret (l ++ [r], Z.of_nat (Datatypes.S (length l))).

Section order.
Context {T : Type}.
Local Abbreviation W := (World T (list (Reactor T))).
Implicit Types w : W.

(** What spawning one reactor leaves. *)
Definition spawned w w' (rs : list (Reactor T)) : Prop :=
  tasks w' = tasks w ++ rs /\ id_to_dag w' = id_to_dag w /\
  PENDING_TASKS w' = PENDING_TASKS w /\ SOURCE_PENDING_TASKS w' = SOURCE_PENDING_TASKS w /\
  length (heap w') = length (heap w).

Lemma spawn_pending_spec a p w :
  (a < length (heap w))%nat -> is_Some (id_to_dag w !! (dag_info (spawn p)).1) ->
  exists w', spawn_pending log_spawn a p w = Ret (w', tt) /\ spawned w w' [spawn p].
Proof.
  intros Ha [b Hb]. destruct (lookup_lt_is_Some_2 _ _ Ha) as [d Hd].
  unfold spawn_pending, spawn_reactor, call_spawn, get_dag, dag_at, set_dag, log_spawn. sbind.
  rewrite Hb. simpl. rewrite (index_Some _ _ _ Hd), index_set_lt by done.
  eexists. split; [reflexivity|]. split_and!; try done. simpl. by rewrite length_insert.
Qed.

Lemma spawn_all_spec a ps w :
  (a < length (heap w))%nat ->
  Forall (fun p => is_Some (id_to_dag w !! (dag_info (spawn p)).1)) ps ->
  exists w', for_each ps (spawn_pending log_spawn a) w = Ret (w', tt) /\ spawned w w' (spawn <$> ps).
Proof.
  revert w. induction ps as [|p ps IH]; intros w Ha Hp; simpl.
  { exists w. split; [done|]. split_and!; try done. by rewrite app_nil_r. }
  apply Forall_cons in Hp as [Hp Hps].
  destruct (spawn_pending_spec a p w Ha Hp) as (w1 & Hw1 & Ht & Hr & Hpe & Hs & Hl).
  destruct (IH w1) as (w' & Hw' & Ht' & Hr' & Hpe' & Hs' & Hl'); [by rewrite Hl|by rewrite Hr|].
  exists w'. sbind. rewrite Hw1, Hw'. split; [done|]. split_and!; try congruence.
  by rewrite Ht', Ht, <-(assoc_L (++)).
Qed.

(** [spawn_dag] spawns the reactors of a DAG in the order they were
    registered and the periodic source reactor after all of them, so that no
    message of the source is published before its subscribers exist; afterwards
    nothing of the DAG is pending. *)
Theorem spawn_dag_source_last a d ps src w :
  heap w !! a = Some d ->
  PENDING_TASKS w !! Dag.id d = Some ps -> SOURCE_PENDING_TASKS w !! Dag.id d = Some src ->
  Forall (fun p => is_Some (id_to_dag w !! (dag_info (spawn p)).1)) (ps ++ [src]) ->
  exists w', spawn_dag log_spawn a w = Ret (w', tt) /\
    tasks w' = tasks w ++ (spawn <$> ps) ++ [spawn src] /\
    PENDING_TASKS w' !! Dag.id d = None /\ SOURCE_PENDING_TASKS w' !! Dag.id d = None.
Proof.
  intros Hd Hps Hsrc Hreg. apply Forall_app in Hreg as [Hr1 Hr2].
  apply Forall_cons in Hr2 as [Hr2 _].
  pose proof (lookup_lt_Some _ _ _ Hd) as Ha. unfold spawn_dag, dag_at. sbind.
  rewrite (index_Some _ _ _ Hd). cbn beta iota. rewrite Hps. cbn beta iota.
  set (w1 := with_pending w (base.delete (Dag.id d) (PENDING_TASKS w)) (SOURCE_PENDING_TASKS w)).
  destruct (spawn_all_spec a ps w1 Ha Hr1) as (w2 & Hw2 & Ht2 & Hreg2 & Hp2 & Hs2 & Hl2).
  simpl. fold w1. rewrite Hw2, Hs2. simpl. rewrite Hsrc. simpl.
  set (w3 := with_pending w2 (PENDING_TASKS w2) (base.delete (Dag.id d) (SOURCE_PENDING_TASKS w))).
  destruct (spawn_pending_spec a src w3) as (w4 & Hw4 & Ht4 & _ & Hp4 & Hs4 & _).
  { simpl. rewrite Hl2. exact Ha. }
  { simpl. rewrite Hreg2. exact Hr2. }
  exists w4. split; [exact Hw4|]. rewrite Ht4, Hp4, Hs4. simpl. rewrite Ht2, Hp2. simpl.
  rewrite <-(assoc_L (++)). split_and!; [done|apply lookup_delete_eq|apply lookup_delete_eq].
Qed.

End order.
(** ** Examples *)

#[local] Existing Instances Dfs.list_bits Dfs.list_bits_laws.

Local Abbreviation W0 := (World unit (list (Reactor unit))).
Definition start : W0 := initial [].

(** A periodic source and a sink. *)
Definition small : st W0 nat :=
  a ← create_dag;
  register_periodic_reactor a "src" 1 ["t"] tt 100;;
  register_sink_reactor a "snk" 1 ["t"] tt 50;;
  mret a.

Definition small_world : W0 := match small start with Ret (w, _) => w | Panic => start end.

Lemma small_reachable : reachable (M:=list bool) log_spawn small_world.
Proof.
  assert (Hs : small start = Ret (small_world, O)) by (vm_compute; reflexivity).
  unfold small in Hs. apply st_bind_ret in Hs as (w1 & a & H1 & Hs).
  apply st_bind_ret in Hs as (w2 & [] & H2 & Hs). apply st_bind_ret in Hs as (w3 & [] & H3 & Hs).
  injection Hs as Hw _. rewrite Hw in H3. eapply reach_sink; [|exact H3]. eapply reach_periodic; [|exact H2].
  eapply reach_create; [|exact H1]. apply reach_init.
Qed.

Definition finish_small : outcome (W0 * result unit (list DagError)) :=
  finish_create_dags (M:=list bool) log_spawn [O] small_world.

Lemma finish_create_dags_sound_witness : exists w' d,
  finish_small = Ret (w', Ok tt) /\ heap small_world !! O = Some d /\ valid d.
Proof.
  assert (Hr : exists w', finish_small = Ret (w', Ok tt)) by (eexists; vm_compute; reflexivity).
  destruct Hr as [w' Hr]. exists w'. unfold finish_small in *.
  destruct (finish_create_dags_sound (M:=list bool) log_spawn [O] small_world w' small_reachable Hr)
    as [Hv _].
  apply Forall_cons in Hv as [(d & Hd & Hv) _]. exists d.
  exact (conj Hr (conj Hd Hv)).
Defined.

(** A DAG of one node that publishes a topic nobody subscribes to. *)
Definition lonely : st W0 nat :=
  a ← create_dag;
  register_reactor a "n" 0 1 [] ["t"] tt;;
  mret a.

Definition lonely_world : W0 := match lonely start with Ret (w, _) => w | Panic => start end.

Lemma finish_create_dags_rejects_witness : exists w',
  finish_create_dags (M:=list bool) log_spawn [O] lonely_world = Ret (w', Err [NoSubscriberFound 1 0]) /\
  id_to_dag w' !! 1 = None.
Proof.
  assert (Hr : exists w', finish_create_dags (M:=list bool) log_spawn [O] lonely_world =
    Ret (w', Err [NoSubscriberFound 1 0])) by (eexists; vm_compute; reflexivity).
  destruct Hr as [w' Hr]. exists w'. split; [exact Hr|].
  destruct (finish_create_dags_rejects (M:=list bool) log_spawn _ _ _ _ Hr) as (_ & _ & _ & Hall).
  apply (Hall O (match heap lonely_world with d :: _ => d | [] => Dag.new 1 end)); [left|].
  vm_compute. reflexivity.
Defined.

Lemma create_dag_fresh_witness : exists w' a id,
  create_dag small_world = Ret (w', a) /\ id_to_dag small_world !! id = None /\ 1 <= id < 2 ^ 32.
Proof.
  destruct (create_dag_fresh (M:=list bool) log_spawn small_world small_reachable)
    as (w' & a & id & Hc & Hn & Hr & _); [vm_compute; reflexivity|].
  exists w', a, id. exact (conj Hc (conj Hn Hr)).
Defined.

Lemma spawn_dag_source_last_witness : exists w',
  spawn_dag log_spawn O small_world = Ret (w', tt) /\
  kind <$> tasks w' = [Sink; Periodic 100].
Proof.
  destruct (spawn_dag_source_last O (match heap small_world with d :: _ => d | [] => Dag.new 0 end)
    (default [] (PENDING_TASKS small_world !! 1))
    (default (mkPending 0 (mkReactor Sink "" [] [] tt (0, 0)))
       (SOURCE_PENDING_TASKS small_world !! 1)) small_world) as (w' & Hs & Ht & _).
  - vm_compute. reflexivity.
  - vm_compute. reflexivity.
  - vm_compute. reflexivity.
  - repeat constructor; eexists; vm_compute; reflexivity.
  - exists w'. split; [exact Hs|]. rewrite Ht. vm_compute. reflexivity.
Defined.

(** A diamond: one publisher of [t] with two subscribers. *)
Definition diamond : st W0 nat :=
  a ← create_dag;
  register_periodic_reactor a "src" 1 ["t"] tt 100;;
  register_reactor a "left" 1 1 ["t"] ["l"] tt;;
  register_reactor a "right" 1 1 ["t"] ["r"] tt;;
  register_sink_reactor a "snk" 2 ["l"; "r"] tt 50;;
  mret a.

(** A DAG in which one node publishes a topic and two nodes subscribe to it
    is rejected with [TopicHasMultiplePublishers]: the check counts the edges of a
    topic, not its publishers. *)
Theorem one_publisher_two_subscribers_rejected :
  match diamond start with
  | Ret (w, a) =>
      match finish_create_dags (M:=list bool) log_spawn [a] w with
      | Ret (_, r) => r = Err [TopicHasMultiplePublishers 1 "t"]
      | Panic => False
      end
  | Panic => False
  end.
Proof. vm_compute. reflexivity. Qed.

(** A disconnected DAG with a duplicate subscription is rejected, and then a
    DAG without any duplicate is built in its place. *)
Definition stale : st W0 (result unit (list DagError) * result unit (list DagError)) :=
  a ← create_dag;
  register_reactor a "dup" 2 0 ["x"; "x"] [] tt;;
  register_periodic_reactor a "src" 1 ["y"] tt 100;;
  r ← finish_create_dags (M:=list bool) log_spawn [a];
  b ← small;
  r' ← finish_create_dags (M:=list bool) log_spawn [b];
  mret (r, r').

(** The notes of duplicate subscriptions outlive a rejected DAG.  After a
    rejection the identifier is reused, and a correct DAG created next is rejected
    with the [DuplicateSubscribe] error of the DAG before it. *)
Theorem stale_duplicate_rejects_next_dag :
  match stale start with
  | Ret (_, (r, r')) =>
      r = Err [NotWeaklyConnected 1] /\ r' = Err [DuplicateSubscribe 1 0]
  | Panic => False
  end.
Proof. vm_compute. auto. Qed.

(** A DAG whose source is a plain reactor. *)
Definition no_periodic : st W0 nat :=
  a ← create_dag;
  register_reactor a "src" 0 1 [] ["t"] tt;;
  register_sink_reactor a "snk" 1 ["t"] tt 50;;
  mret a.

(** A DAG that passes every check but has no periodic reactor makes
    [finish_create_dags] panic: [spawn_dag] unwraps the missing source task. *)
Theorem validated_dag_without_periodic_panics :
  match no_periodic start with
  | Ret (w, a) =>
      match validate_all_rules (M:=list bool) [a] w with Ret (_, r) => r = Ok tt | Panic => False end /\
      finish_create_dags (M:=list bool) log_spawn [a] w = Panic
  | Panic => False
  end.
Proof. vm_compute. auto. Qed.

End DagValid.
