(* ===== verification/Cpu.v ===== *)
(** * CPU sets and scheduler types

    [awkernel_lib/src/cpu.rs] and the types of
    [awkernel_async_lib/src/scheduler.rs].  [CpuSet] is the mask type of the
    external crate [affinity_btree_queue]; the class [CpuMask] has the operations
    the kernel uses and [CpuMaskLaws] what their names promise. *)

From S2P Require Import Prelude.
Local Open Scope Z_scope.

(** The operations of [affinity_btree_queue::CpuMask]. *)
Class CpuMask (C : Type) : Type := {
  empty : C;
  all : C;
  contains : C -> nat -> bool;
  without : C -> nat -> C;
  masked_below : C -> nat -> C;
  union : C -> C -> C;
  is_empty : C -> bool;
  iter : C -> list nat;
  mask_eqb : C -> C -> bool
}.

(** The mask is a set of CPUs below [NUM_MAX_CPU], iterated in ascending order. *)
Class CpuMaskLaws (C : Type) `{CpuMask C} : Prop := {
  contains_empty i : contains empty i = false;
  contains_all i : contains all i = (i <? 512)%nat;
  contains_without s j i : contains (without s j) i = contains s i && negb (i =? j)%nat;
  contains_masked_below s n i : contains (masked_below s n) i = contains s i && (i <? n)%nat;
  contains_union s t i : contains (union s t) i = contains s i || contains t i;
  is_empty_spec s : is_empty s = true <-> forall i, contains s i = false;
  elem_of_iter s i : i ∈ iter s <-> contains s i = true;
  mask_eqb_spec s t : mask_eqb s t = true <-> forall i, contains s i = contains t i
}.

Module Cpu.
Section cpu.
Context {C : Type} `{CpuMaskLaws C}.

(** [NUM_MAX_CPU]. *)
Definition NUM_MAX_CPU : nat := 512.

(** [masked_workers] and [all_workers]. *)
Definition masked_workers (set : C) (num_cpus : nat) : C := without (masked_below set num_cpus) 0.
Definition all_workers (num_cpus : nat) : C := masked_workers all num_cpus.

(** [sanity_check]. *)
Definition sanity_check (num_cpu : nat) : outcome unit := assert_true (2 <=? num_cpu)%nat.

Lemma contains_masked_workers s n i :
  contains (masked_workers s n) i = true <-> contains s i = true /\ (1 <= i < n)%nat.
Proof.
  unfold masked_workers. rewrite contains_without, contains_masked_below.
  rewrite !andb_true_iff, negb_true_iff, Nat.eqb_neq, Nat.ltb_lt. intuition lia.
Qed.

Lemma contains_all_workers n i :
  (n <= NUM_MAX_CPU)%nat -> contains (all_workers n) i = true <-> (1 <= i < n)%nat.
Proof.
  intros Hn. unfold all_workers. rewrite contains_masked_workers, contains_all, Nat.ltb_lt.
  unfold NUM_MAX_CPU in Hn. lia.
Qed.

(** A set of worker CPUs that is not empty. *)
Definition normalized (s : C) (n : nat) : Prop :=
  is_empty s = false /\ mask_eqb (masked_workers s n) s = true.

Lemma normalized_spec s n :
  normalized s n <->
    (exists i, contains s i = true) /\ forall i, contains s i = true -> (1 <= i < n)%nat.
Proof.
  unfold normalized. split.
  - intros [He Hm]. rewrite mask_eqb_spec in Hm. split.
    + destruct (iter s) as [|i l] eqn:Hi.
      * assert (is_empty s = true); [|congruence]. apply is_empty_spec. intros i.
        destruct (contains s i) eqn:Hc; [|done]. apply elem_of_iter in Hc. rewrite Hi in Hc.
        by apply not_elem_of_nil in Hc.
      * exists i. apply elem_of_iter. rewrite Hi. left.
    + intros i Hi. rewrite <-Hm in Hi. by apply contains_masked_workers in Hi as [_ ?].
  - intros [[i Hi] Hall]. split.
    + destruct (is_empty s) eqn:He; [|done]. rewrite is_empty_spec in He. by rewrite He in Hi.
    + apply mask_eqb_spec. intros j. destruct (contains s j) eqn:Hj.
      * apply contains_masked_workers. auto.
      * destruct (contains (masked_workers s n) j) eqn:Hm; [|done].
        apply contains_masked_workers in Hm as [? _]. congruence.
Qed.

(** Masking a normalized set changes nothing. *)
Lemma masked_normalized s n :
  is_empty (masked_workers s n) = false -> normalized (masked_workers s n) n.
Proof.
  intros He. split; [done|]. apply mask_eqb_spec. intros i.
  destruct (contains (masked_workers s n) i) eqn:Hi.
  - apply contains_masked_workers. split; [done|]. by apply contains_masked_workers in Hi as [_ ?].
  - destruct (contains (masked_workers (masked_workers s n) n) i) eqn:Hj; [|done].
    apply contains_masked_workers in Hj as [? _]. congruence.
Qed.

Lemma all_workers_normalized n :
  (2 <= n <= NUM_MAX_CPU)%nat -> normalized (all_workers n) n.
Proof.
  intros Hn. apply masked_normalized. destruct (is_empty _) eqn:He; [|done].
  rewrite is_empty_spec in He. specialize (He 1%nat).
  assert (Hc : contains (all_workers n) 1 = true) by (apply contains_all_workers; lia).
  unfold all_workers in Hc. congruence.
Qed.

End cpu.

(** [enum SchedulerType]. *)
Inductive SchedulerType (C : Type) : Type :=
| ClusteredEDF (relative_deadline : Z) (cpu_set : C)
| GEDF (relative_deadline : Z)
| PrioritizedFIFO (priority : Z)
| PrioritizedRR (priority : Z)
| Panicked.
Arguments ClusteredEDF {C} _ _.
Arguments GEDF {C} _.
Arguments PrioritizedFIFO {C} _.
Arguments PrioritizedRR {C} _.
Arguments Panicked {C}.

Section types.
Context {C : Type} `{CpuMask C}.
Implicit Types t u : SchedulerType C.

(** [SchedulerType::equals], [SchedulerType::cpu_set] and
    [SchedulerType::is_clustered]. *)
Definition equals t u : bool :=
  match t, u with
  | GEDF _, GEDF _ | ClusteredEDF _ _, ClusteredEDF _ _
  | PrioritizedFIFO _, PrioritizedFIFO _ | PrioritizedRR _, PrioritizedRR _
  | Panicked, Panicked => true
  | _, _ => false
  end.

Definition cpu_set t : option C := match t with ClusteredEDF _ set => Some set | _ => None end.

Definition is_clustered t : bool := match t with ClusteredEDF _ _ => true | _ => false end.

(** [PRIORITY_LIST]. *)
Definition PRIORITY_LIST : list (SchedulerType C) :=
  [ClusteredEDF 0 empty; GEDF 0; PrioritizedFIFO 0; PrioritizedRR 0; Panicked].

(** [get_num_clustered_schedulers]: the length of the clustered prefix. *)
Fixpoint clustered_prefix (l : list (SchedulerType C)) : nat :=
  match l with
  | t :: l' => if is_clustered t then S (clustered_prefix l') else O
  | [] => O
  end.
Definition get_num_clustered_schedulers : nat := clustered_prefix PRIORITY_LIST.

(** [get_priority]: the distance from the end of the list. *)
Fixpoint priority_from (l : list (SchedulerType C)) t : outcome Z :=
  match l with
  | u :: l' => if equals u t then Ret (Z.of_nat (length l')) else priority_from l' t
  | [] => Panic
  end.
Definition get_priority t : outcome Z := priority_from PRIORITY_LIST t.

(** The compile-time check that the clustered schedulers are a prefix, and that
    every scheduler has a priority. *)
Lemma clustered_strict_prefix :
  forall i t, PRIORITY_LIST !! i = Some t ->
    is_clustered t = (i <? get_num_clustered_schedulers)%nat.
Proof. intros i t Hi. do 5 (destruct i as [|i]; [by injection Hi as <-|]). done. Qed.

Lemma get_priority_total t : exists p, get_priority t = Ret p /\ 0 <= p < 5.
Proof. destruct t; eexists; (split; [reflexivity|simpl; lia]). Qed.

End types.
End Cpu.
