(* ===== verification/Sched.v ===== *)
(** * Tasks and schedulers

    [awkernel_async_lib/src/task.rs], [scheduler.rs], [scheduler/*.rs] and
    [task/preempt.rs]: the task objects and their registry, the five run queues,
    the requests for preemption and the turns of the workers.  A call that holds
    [GLOBAL_WAKE_GET_MUTEX], or runs with interrupts disabled, is one call on the
    [World]; the interleavings of CPUs are the sequences of such calls.  The CPU
    that makes a call is an argument.  A poll is two events, its start and its
    end, and other calls may happen between them.  The per-CPU arrays are maps
    from CPU numbers with the arrays' initial value as default. *)

From S2P Require Import Prelude PriorityQueue Graph Dag Cpu.
Local Open Scope Z_scope.

(** [affinity_btree_queue::AffinityBTreeQueue] with keys [(u64, u64)] and tasks
    as values. *)
Class AffinityQueue (C Q : Type) : Type := {
  aq_new : nat -> Q;
  aq_push : Q -> Z * Z -> C -> nat -> option Q;
  aq_pop_for_cpu : Q -> nat -> option (nat * Q);
  aq_affinity_mask : Q -> C;
  aq_len : Q -> nat
}.

Module Sched.

(** [enum State]. *)
Inductive State : Type :=
| Initialized | Running | Runnable | Waiting | Preempted | Terminated | Panicked.

#[export] Instance State_eq_dec : EqDecision State.
Proof. solve_decision. Defined.

(** The schedulers that [get_scheduler] gives. *)
Inductive Scheduler : Type := SClusteredEDF | SGEDF | SFIFO | SRR | SPanicked.

#[export] Instance Scheduler_eq_dec : EqDecision Scheduler.
Proof. solve_decision. Defined.

(** [struct Task] with its [TaskInfo].  [thread] says whether the context of a
    preempted thread is stored, [locked] whether the mutex of the future is held,
    and [is_terminated] is [Fuse::is_terminated] of the future. *)
Record Task (C : Type) : Type := mkTask {
  id : Z;
  scheduler : Scheduler;
  priority : Z;
  cpu_set : option C;
  state : State;
  scheduler_type : Cpu.SchedulerType C;
  num_preempt : Z;
  last_executed_time : Z;
  absolute_deadline : option Z;
  need_sched : bool;
  need_preemption : bool;
  panicked : bool;
  dag_info : option (Z * Z);
  thread : bool;
  locked : bool;
  is_terminated : bool
}.
Arguments mkTask {C} _ _ _ _ _ _ _ _ _ _ _ _ _ _ _ _.
Arguments id {C} _.
Arguments scheduler {C} _.
Arguments priority {C} _.
Arguments cpu_set {C} _.
Arguments state {C} _.
Arguments scheduler_type {C} _.
Arguments num_preempt {C} _.
Arguments last_executed_time {C} _.
Arguments absolute_deadline {C} _.
Arguments need_sched {C} _.
Arguments need_preemption {C} _.
Arguments panicked {C} _.
Arguments dag_info {C} _.
Arguments thread {C} _.
Arguments locked {C} _.
Arguments is_terminated {C} _.

(** [struct GEDFTask]. *)
Record GEDFTask : Type := mkGEDFTask {
  g_task : nat;
  g_absolute_deadline : Z;
  g_wake_time : Z
}.

(** The statics.  [polling] gives the task whose poll has begun and not ended on a
    CPU, [clock] is the time in nanoseconds, [ipis] and [woken] record the calls
    of [send_ipi] and [wake_cpu]. *)
Record World (C Q : Type) : Type := mkWorld {
  tasks : list (Task C);
  id_to_task : gmap Z nat;
  candidate_id : Z;
  dags : list Dag.Dag;
  id_to_dag : gmap Z nat;
  RUNNING : gmap nat Z;
  PREEMPTION_REQUEST : gmap nat bool;
  NUM_TASK_IN_QUEUE : Z;
  NUM_CLUSTERED_TASKS_IN_QUEUE : Z;
  PREEMPTION_PENDING_TASKS : gmap nat (list nat);
  NEXT_TASK : gmap nat (list nat);
  PREEMPTED_TASKS : gmap nat (list nat);
  fifo : option (PriorityQueue.PriorityQueue nat);
  rr : option (PriorityQueue.PriorityQueue nat);
  gedf : option (list GEDFTask);
  clustered : option Q;
  panicked_queue : option (list nat);
  polling : gmap nat nat;
  NUM_PREEMPTION : Z;
  clock : Z;
  ipis : list nat;
  woken : list nat
}.
Arguments mkWorld {C Q} _ _ _ _ _ _ _ _ _ _ _ _ _ _ _ _ _ _ _ _ _ _.
Arguments tasks {C Q} _.
Arguments id_to_task {C Q} _.
Arguments candidate_id {C Q} _.
Arguments dags {C Q} _.
Arguments id_to_dag {C Q} _.
Arguments RUNNING {C Q} _.
Arguments PREEMPTION_REQUEST {C Q} _.
Arguments NUM_TASK_IN_QUEUE {C Q} _.
Arguments NUM_CLUSTERED_TASKS_IN_QUEUE {C Q} _.
Arguments PREEMPTION_PENDING_TASKS {C Q} _.
Arguments NEXT_TASK {C Q} _.
Arguments PREEMPTED_TASKS {C Q} _.
Arguments fifo {C Q} _.
Arguments rr {C Q} _.
Arguments gedf {C Q} _.
Arguments clustered {C Q} _.
Arguments panicked_queue {C Q} _.
Arguments polling {C Q} _.
Arguments NUM_PREEMPTION {C Q} _.
Arguments clock {C Q} _.
Arguments ipis {C Q} _.
Arguments woken {C Q} _.

Section setters.
Context {C Q : Type}.
Implicit Types (t : Task C) (w : World C Q).

Definition with_priority t v : Task C := mkTask (id t) (scheduler t) v (cpu_set t) (state t)
    (scheduler_type t) (num_preempt t) (last_executed_time t) (absolute_deadline t) (need_sched
    t) (need_preemption t) (panicked t) (dag_info t) (thread t) (locked t) (is_terminated t).
Definition with_state t v : Task C := mkTask (id t) (scheduler t) (priority t) (cpu_set t) v
    (scheduler_type t) (num_preempt t) (last_executed_time t) (absolute_deadline t) (need_sched
    t) (need_preemption t) (panicked t) (dag_info t) (thread t) (locked t) (is_terminated t).
Definition with_scheduler_type t v : Task C := mkTask (id t) (scheduler t) (priority t) (cpu_set
    t) (state t) v (num_preempt t) (last_executed_time t) (absolute_deadline t) (need_sched t)
    (need_preemption t) (panicked t) (dag_info t) (thread t) (locked t) (is_terminated t).
Definition with_num_preempt t v : Task C := mkTask (id t) (scheduler t) (priority t) (cpu_set t)
    (state t) (scheduler_type t) v (last_executed_time t) (absolute_deadline t) (need_sched t)
    (need_preemption t) (panicked t) (dag_info t) (thread t) (locked t) (is_terminated t).
Definition with_last_executed_time t v : Task C := mkTask (id t) (scheduler t) (priority t)
    (cpu_set t) (state t) (scheduler_type t) (num_preempt t) v (absolute_deadline t) (need_sched
    t) (need_preemption t) (panicked t) (dag_info t) (thread t) (locked t) (is_terminated t).
Definition with_absolute_deadline t v : Task C := mkTask (id t) (scheduler t) (priority t)
    (cpu_set t) (state t) (scheduler_type t) (num_preempt t) (last_executed_time t) v
    (need_sched t) (need_preemption t) (panicked t) (dag_info t) (thread t) (locked t)
    (is_terminated t).
Definition with_need_sched t v : Task C := mkTask (id t) (scheduler t) (priority t) (cpu_set t)
    (state t) (scheduler_type t) (num_preempt t) (last_executed_time t) (absolute_deadline t) v
    (need_preemption t) (panicked t) (dag_info t) (thread t) (locked t) (is_terminated t).
Definition with_need_preemption t v : Task C := mkTask (id t) (scheduler t) (priority t)
    (cpu_set t) (state t) (scheduler_type t) (num_preempt t) (last_executed_time t)
    (absolute_deadline t) (need_sched t) v (panicked t) (dag_info t) (thread t) (locked t)
    (is_terminated t).
Definition with_panicked t v : Task C := mkTask (id t) (scheduler t) (priority t) (cpu_set t)
    (state t) (scheduler_type t) (num_preempt t) (last_executed_time t) (absolute_deadline t)
    (need_sched t) (need_preemption t) v (dag_info t) (thread t) (locked t) (is_terminated t).
Definition with_thread t v : Task C := mkTask (id t) (scheduler t) (priority t) (cpu_set t)
    (state t) (scheduler_type t) (num_preempt t) (last_executed_time t) (absolute_deadline t)
    (need_sched t) (need_preemption t) (panicked t) (dag_info t) v (locked t) (is_terminated t).
Definition with_locked t v : Task C := mkTask (id t) (scheduler t) (priority t) (cpu_set t)
    (state t) (scheduler_type t) (num_preempt t) (last_executed_time t) (absolute_deadline t)
    (need_sched t) (need_preemption t) (panicked t) (dag_info t) (thread t) v (is_terminated t).
Definition with_is_terminated t v : Task C := mkTask (id t) (scheduler t) (priority t) (cpu_set
    t) (state t) (scheduler_type t) (num_preempt t) (last_executed_time t) (absolute_deadline t)
    (need_sched t) (need_preemption t) (panicked t) (dag_info t) (thread t) (locked t) v.
Definition set_tasks w v : World C Q := mkWorld v (id_to_task w) (candidate_id w) (dags w)
    (id_to_dag w) (RUNNING w) (PREEMPTION_REQUEST w) (NUM_TASK_IN_QUEUE w)
    (NUM_CLUSTERED_TASKS_IN_QUEUE w) (PREEMPTION_PENDING_TASKS w) (NEXT_TASK w) (PREEMPTED_TASKS
    w) (fifo w) (rr w) (gedf w) (clustered w) (panicked_queue w) (polling w) (NUM_PREEMPTION w)
    (clock w) (ipis w) (woken w).
Definition set_id_to_task w v : World C Q := mkWorld (tasks w) v (candidate_id w) (dags w)
    (id_to_dag w) (RUNNING w) (PREEMPTION_REQUEST w) (NUM_TASK_IN_QUEUE w)
    (NUM_CLUSTERED_TASKS_IN_QUEUE w) (PREEMPTION_PENDING_TASKS w) (NEXT_TASK w) (PREEMPTED_TASKS
    w) (fifo w) (rr w) (gedf w) (clustered w) (panicked_queue w) (polling w) (NUM_PREEMPTION w)
    (clock w) (ipis w) (woken w).
Definition set_candidate_id w v : World C Q := mkWorld (tasks w) (id_to_task w) v (dags w)
    (id_to_dag w) (RUNNING w) (PREEMPTION_REQUEST w) (NUM_TASK_IN_QUEUE w)
    (NUM_CLUSTERED_TASKS_IN_QUEUE w) (PREEMPTION_PENDING_TASKS w) (NEXT_TASK w) (PREEMPTED_TASKS
    w) (fifo w) (rr w) (gedf w) (clustered w) (panicked_queue w) (polling w) (NUM_PREEMPTION w)
    (clock w) (ipis w) (woken w).
Definition set_dags w v : World C Q := mkWorld (tasks w) (id_to_task w) (candidate_id w) v
    (id_to_dag w) (RUNNING w) (PREEMPTION_REQUEST w) (NUM_TASK_IN_QUEUE w)
    (NUM_CLUSTERED_TASKS_IN_QUEUE w) (PREEMPTION_PENDING_TASKS w) (NEXT_TASK w) (PREEMPTED_TASKS
    w) (fifo w) (rr w) (gedf w) (clustered w) (panicked_queue w) (polling w) (NUM_PREEMPTION w)
    (clock w) (ipis w) (woken w).
Definition set_id_to_dag w v : World C Q := mkWorld (tasks w) (id_to_task w) (candidate_id w)
    (dags w) v (RUNNING w) (PREEMPTION_REQUEST w) (NUM_TASK_IN_QUEUE w)
    (NUM_CLUSTERED_TASKS_IN_QUEUE w) (PREEMPTION_PENDING_TASKS w) (NEXT_TASK w) (PREEMPTED_TASKS
    w) (fifo w) (rr w) (gedf w) (clustered w) (panicked_queue w) (polling w) (NUM_PREEMPTION w)
    (clock w) (ipis w) (woken w).
Definition set_RUNNING w v : World C Q := mkWorld (tasks w) (id_to_task w) (candidate_id w)
    (dags w) (id_to_dag w) v (PREEMPTION_REQUEST w) (NUM_TASK_IN_QUEUE w)
    (NUM_CLUSTERED_TASKS_IN_QUEUE w) (PREEMPTION_PENDING_TASKS w) (NEXT_TASK w) (PREEMPTED_TASKS
    w) (fifo w) (rr w) (gedf w) (clustered w) (panicked_queue w) (polling w) (NUM_PREEMPTION w)
    (clock w) (ipis w) (woken w).
Definition set_PREEMPTION_REQUEST w v : World C Q := mkWorld (tasks w) (id_to_task w)
    (candidate_id w) (dags w) (id_to_dag w) (RUNNING w) v (NUM_TASK_IN_QUEUE w)
    (NUM_CLUSTERED_TASKS_IN_QUEUE w) (PREEMPTION_PENDING_TASKS w) (NEXT_TASK w) (PREEMPTED_TASKS
    w) (fifo w) (rr w) (gedf w) (clustered w) (panicked_queue w) (polling w) (NUM_PREEMPTION w)
    (clock w) (ipis w) (woken w).
Definition set_NUM_TASK_IN_QUEUE w v : World C Q := mkWorld (tasks w) (id_to_task w)
    (candidate_id w) (dags w) (id_to_dag w) (RUNNING w) (PREEMPTION_REQUEST w) v
    (NUM_CLUSTERED_TASKS_IN_QUEUE w) (PREEMPTION_PENDING_TASKS w) (NEXT_TASK w) (PREEMPTED_TASKS
    w) (fifo w) (rr w) (gedf w) (clustered w) (panicked_queue w) (polling w) (NUM_PREEMPTION w)
    (clock w) (ipis w) (woken w).
Definition set_NUM_CLUSTERED_TASKS_IN_QUEUE w v : World C Q := mkWorld (tasks w) (id_to_task w)
    (candidate_id w) (dags w) (id_to_dag w) (RUNNING w) (PREEMPTION_REQUEST w)
    (NUM_TASK_IN_QUEUE w) v (PREEMPTION_PENDING_TASKS w) (NEXT_TASK w) (PREEMPTED_TASKS w) (fifo
    w) (rr w) (gedf w) (clustered w) (panicked_queue w) (polling w) (NUM_PREEMPTION w) (clock w)
    (ipis w) (woken w).
Definition set_PREEMPTION_PENDING_TASKS w v : World C Q := mkWorld (tasks w) (id_to_task w)
    (candidate_id w) (dags w) (id_to_dag w) (RUNNING w) (PREEMPTION_REQUEST w)
    (NUM_TASK_IN_QUEUE w) (NUM_CLUSTERED_TASKS_IN_QUEUE w) v (NEXT_TASK w) (PREEMPTED_TASKS w)
    (fifo w) (rr w) (gedf w) (clustered w) (panicked_queue w) (polling w) (NUM_PREEMPTION w)
    (clock w) (ipis w) (woken w).
Definition set_NEXT_TASK w v : World C Q := mkWorld (tasks w) (id_to_task w) (candidate_id w)
    (dags w) (id_to_dag w) (RUNNING w) (PREEMPTION_REQUEST w) (NUM_TASK_IN_QUEUE w)
    (NUM_CLUSTERED_TASKS_IN_QUEUE w) (PREEMPTION_PENDING_TASKS w) v (PREEMPTED_TASKS w) (fifo w)
    (rr w) (gedf w) (clustered w) (panicked_queue w) (polling w) (NUM_PREEMPTION w) (clock w)
    (ipis w) (woken w).
Definition set_PREEMPTED_TASKS w v : World C Q := mkWorld (tasks w) (id_to_task w) (candidate_id
    w) (dags w) (id_to_dag w) (RUNNING w) (PREEMPTION_REQUEST w) (NUM_TASK_IN_QUEUE w)
    (NUM_CLUSTERED_TASKS_IN_QUEUE w) (PREEMPTION_PENDING_TASKS w) (NEXT_TASK w) v (fifo w) (rr
    w) (gedf w) (clustered w) (panicked_queue w) (polling w) (NUM_PREEMPTION w) (clock w) (ipis
    w) (woken w).
Definition set_fifo w v : World C Q := mkWorld (tasks w) (id_to_task w) (candidate_id w) (dags
    w) (id_to_dag w) (RUNNING w) (PREEMPTION_REQUEST w) (NUM_TASK_IN_QUEUE w)
    (NUM_CLUSTERED_TASKS_IN_QUEUE w) (PREEMPTION_PENDING_TASKS w) (NEXT_TASK w) (PREEMPTED_TASKS
    w) v (rr w) (gedf w) (clustered w) (panicked_queue w) (polling w) (NUM_PREEMPTION w) (clock
    w) (ipis w) (woken w).
Definition set_rr w v : World C Q := mkWorld (tasks w) (id_to_task w) (candidate_id w) (dags w)
    (id_to_dag w) (RUNNING w) (PREEMPTION_REQUEST w) (NUM_TASK_IN_QUEUE w)
    (NUM_CLUSTERED_TASKS_IN_QUEUE w) (PREEMPTION_PENDING_TASKS w) (NEXT_TASK w) (PREEMPTED_TASKS
    w) (fifo w) v (gedf w) (clustered w) (panicked_queue w) (polling w) (NUM_PREEMPTION w)
    (clock w) (ipis w) (woken w).
Definition set_gedf w v : World C Q := mkWorld (tasks w) (id_to_task w) (candidate_id w) (dags
    w) (id_to_dag w) (RUNNING w) (PREEMPTION_REQUEST w) (NUM_TASK_IN_QUEUE w)
    (NUM_CLUSTERED_TASKS_IN_QUEUE w) (PREEMPTION_PENDING_TASKS w) (NEXT_TASK w) (PREEMPTED_TASKS
    w) (fifo w) (rr w) v (clustered w) (panicked_queue w) (polling w) (NUM_PREEMPTION w) (clock
    w) (ipis w) (woken w).
Definition set_clustered w v : World C Q := mkWorld (tasks w) (id_to_task w) (candidate_id w)
    (dags w) (id_to_dag w) (RUNNING w) (PREEMPTION_REQUEST w) (NUM_TASK_IN_QUEUE w)
    (NUM_CLUSTERED_TASKS_IN_QUEUE w) (PREEMPTION_PENDING_TASKS w) (NEXT_TASK w) (PREEMPTED_TASKS
    w) (fifo w) (rr w) (gedf w) v (panicked_queue w) (polling w) (NUM_PREEMPTION w) (clock w)
    (ipis w) (woken w).
Definition set_panicked_queue w v : World C Q := mkWorld (tasks w) (id_to_task w) (candidate_id
    w) (dags w) (id_to_dag w) (RUNNING w) (PREEMPTION_REQUEST w) (NUM_TASK_IN_QUEUE w)
    (NUM_CLUSTERED_TASKS_IN_QUEUE w) (PREEMPTION_PENDING_TASKS w) (NEXT_TASK w) (PREEMPTED_TASKS
    w) (fifo w) (rr w) (gedf w) (clustered w) v (polling w) (NUM_PREEMPTION w) (clock w) (ipis
    w) (woken w).
Definition set_polling w v : World C Q := mkWorld (tasks w) (id_to_task w) (candidate_id w)
    (dags w) (id_to_dag w) (RUNNING w) (PREEMPTION_REQUEST w) (NUM_TASK_IN_QUEUE w)
    (NUM_CLUSTERED_TASKS_IN_QUEUE w) (PREEMPTION_PENDING_TASKS w) (NEXT_TASK w) (PREEMPTED_TASKS
    w) (fifo w) (rr w) (gedf w) (clustered w) (panicked_queue w) v (NUM_PREEMPTION w) (clock w)
    (ipis w) (woken w).
Definition set_NUM_PREEMPTION w v : World C Q := mkWorld (tasks w) (id_to_task w) (candidate_id
    w) (dags w) (id_to_dag w) (RUNNING w) (PREEMPTION_REQUEST w) (NUM_TASK_IN_QUEUE w)
    (NUM_CLUSTERED_TASKS_IN_QUEUE w) (PREEMPTION_PENDING_TASKS w) (NEXT_TASK w) (PREEMPTED_TASKS
    w) (fifo w) (rr w) (gedf w) (clustered w) (panicked_queue w) (polling w) v (clock w) (ipis
    w) (woken w).
Definition set_clock w v : World C Q := mkWorld (tasks w) (id_to_task w) (candidate_id w) (dags
    w) (id_to_dag w) (RUNNING w) (PREEMPTION_REQUEST w) (NUM_TASK_IN_QUEUE w)
    (NUM_CLUSTERED_TASKS_IN_QUEUE w) (PREEMPTION_PENDING_TASKS w) (NEXT_TASK w) (PREEMPTED_TASKS
    w) (fifo w) (rr w) (gedf w) (clustered w) (panicked_queue w) (polling w) (NUM_PREEMPTION w)
    v (ipis w) (woken w).
Definition set_ipis w v : World C Q := mkWorld (tasks w) (id_to_task w) (candidate_id w) (dags
    w) (id_to_dag w) (RUNNING w) (PREEMPTION_REQUEST w) (NUM_TASK_IN_QUEUE w)
    (NUM_CLUSTERED_TASKS_IN_QUEUE w) (PREEMPTION_PENDING_TASKS w) (NEXT_TASK w) (PREEMPTED_TASKS
    w) (fifo w) (rr w) (gedf w) (clustered w) (panicked_queue w) (polling w) (NUM_PREEMPTION w)
    (clock w) v (woken w).
Definition set_woken w v : World C Q := mkWorld (tasks w) (id_to_task w) (candidate_id w) (dags
    w) (id_to_dag w) (RUNNING w) (PREEMPTION_REQUEST w) (NUM_TASK_IN_QUEUE w)
    (NUM_CLUSTERED_TASKS_IN_QUEUE w) (PREEMPTION_PENDING_TASKS w) (NEXT_TASK w) (PREEMPTED_TASKS
    w) (fifo w) (rr w) (gedf w) (clustered w) (panicked_queue w) (polling w) (NUM_PREEMPTION w)
    (clock w) (ipis w) v.
End setters.

(** ** Priorities *)

Section priority.

(** [MAX_TASK_PRIORITY]. *)
Definition MAX_TASK_PRIORITY : Z := Z.shiftl 1 56 - 1.

(** [PriorityInfo::combine_priority] on 64-bit targets and on 32-bit targets. *)
Definition combine_priority (scheduler_priority task_priority : Z) : outcome Z :=
  assert_true (task_priority <? Z.shiftl 1 56);;
  Ret (Z.lor (wrap 64 (Z.shiftl scheduler_priority 56))
             (Z.land task_priority (Z.shiftl 1 56 - 1))).

Definition combine_priority_32 (scheduler_priority task_priority : Z) : outcome Z :=
  let task_priority_32 := wrap 32 task_priority in
  assert_true (task_priority_32 <? Z.shiftl 1 24);;
  Ret (Z.lor (wrap 32 (Z.shiftl scheduler_priority 24))
             (Z.land task_priority_32 (Z.shiftl 1 24 - 1))).

End priority.

(** ** Calls on tasks and the registry *)

Section ops.
Context {C : Type} `{CpuMask C} {Q : Type} `{AffinityQueue C Q}.
(** The number of CPUs, the feature flag, and which of several entries with equal
    keys the binary heap of the GEDF scheduler gives. *)
Context (num_cpu : nat) (PREEMPTION_ENABLED : bool) (tie : list GEDFTask -> nat).
Local Abbreviation M := (st (World C Q)).
Implicit Types (w : World C Q) (a cpu : nat).

(** Reading and writing a task object through its [Arc]. *)
Definition task_at a : M (Task C) := o ← gets (fun w => tasks w !! a); lift (unwrap o).
Definition upd_task a (f : Task C -> Task C) : M unit :=
  modify (fun w => set_tasks w (alter f a (tasks w))).

(** [get_current_task], [set_current_task], [get_task_running] and
    [get_tasks_running]. *)
Definition running w cpu : Z := default 0 (RUNNING w !! cpu).
Definition get_current_task cpu : M (option Z) :=
  gets (fun w => if running w cpu =? 0 then None else Some (running w cpu)).
Definition set_current_task cpu (task_id : Z) : M unit :=
  modify (fun w => set_RUNNING w (<[cpu := task_id]> (RUNNING w))).
Definition get_tasks_running w : list (nat * Z) :=
  (fun cpu => (cpu, running w cpu)) <$> seq 0 num_cpu.

(** [get_task]. *)
Definition get_task (task_id : Z) : M (option nat) := gets (fun w => id_to_task w !! task_id).

(** [TaskInfo::get_scheduler_type] and the two reads by task ID. *)
Definition get_scheduler_type (t : Task C) : Cpu.SchedulerType C :=
  if panicked t then Cpu.Panicked else scheduler_type t.
Definition get_last_executed_by_task_id (task_id : Z) : M (option Z) :=
  gets (fun w => a ← id_to_task w !! task_id; last_executed_time <$> tasks w !! a).
Definition get_scheduler_type_by_task_id (task_id : Z) : M (option (Cpu.SchedulerType C)) :=
  gets (fun w => a ← id_to_task w !! task_id; get_scheduler_type <$> tasks w !! a).

(** [set_need_preemption]. *)
Definition set_need_preemption (task_id : Z) cpu : M unit :=
  o ← get_task task_id;
  (match o with
   | Some a => upd_task a (fun t => with_need_preemption t true)
   | None => mret tt
   end);;
  modify (fun w => set_PREEMPTION_REQUEST w (<[cpu := true]> (PREEMPTION_REQUEST w))).

(** [Ord for Task]: priority, then ID; [Ord::max]; [Task::preempts]. *)
Definition key w a : Z * Z :=
  match tasks w !! a with Some t => (priority t, id t) | None => (0, 0) end.
Definition key_ltb (x y : Z * Z) : bool := (x.1 <? y.1) || ((x.1 =? y.1) && (x.2 <? y.2)).
Definition task_max w a b : nat := if key_ltb (key w b) (key w a) then a else b.
Definition preempts w a b : bool := (key w b).1 <? (key w a).1.

(** ** The preemption-pending heaps *)

(** [BinaryHeap::peek], on tasks. *)
Definition heap_peek w (heap : list nat) : option nat :=
  match heap with [] => None | a :: l => Some (foldl (task_max w) a l) end.

(** The heap without one occurrence of [a]. *)
Fixpoint remove_one a (l : list nat) : list nat :=
  match l with
  | [] => []
  | b :: l' => if decide (a = b) then l' else b :: remove_one a l'
  end.

Definition pending w cpu : list nat := default [] (PREEMPTION_PENDING_TASKS w !! cpu).
Definition set_pending w cpu (l : list nat) : World C Q :=
  set_PREEMPTION_PENDING_TASKS w (<[cpu := l]> (PREEMPTION_PENDING_TASKS w)).

(** [peek_preemption_pending], [remove_preemption_pending],
    [push_preemption_pending], [pop_preemption_pending] and
    [move_preemption_pending]. *)
Definition peek_pending w cpu : option nat := heap_peek w (pending w cpu).
Definition peek_preemption_pending cpu : M (option nat) := gets (fun w => peek_pending w cpu).

Definition remove_preemption_pending cpu (task_id : Z) : M unit :=
  modify (fun w =>
    match PREEMPTION_PENDING_TASKS w !! cpu with
    | Some heap => set_pending w cpu (filter (fun a => (key w a).2 <> task_id) heap)
    | None => w
    end).

Definition push_preemption_pending cpu a : M unit :=
  modify (fun w => set_pending w cpu (a :: pending w cpu)).

Definition pop_preemption_pending cpu : M (option nat) :=
  o ← peek_preemption_pending cpu;
  match o with
  | Some a => modify (fun w => set_pending w cpu (remove_one a (pending w cpu)));; mret (Some a)
  | None => mret None
  end.

Definition move_preemption_pending cpu : M (option (list nat)) :=
  o ← gets (fun w => PREEMPTION_PENDING_TASKS w !! cpu);
  modify (fun w => set_PREEMPTION_PENDING_TASKS w (base.delete cpu (PREEMPTION_PENDING_TASKS w)));;
  mret o.

(** What follows the choice of a victim in every [invoke_preemption]. *)
Definition request_preemption a (target : nat * nat) : M bool :=
  t ← task_at target.1;
  push_preemption_pending target.2 a;;
  set_need_preemption (id t) target.2;;
  modify (fun w => set_ipis w (ipis w ++ [target.2]));;
  mret true.

(** ** [invoke_preemption] *)

(** [Ord] on pairs of a task and a CPU, and [Iterator::min]. *)
Definition target_ltb w (x y : nat * nat) : bool :=
  key_ltb (key w x.1) (key w y.1) ||
  (negb (key_ltb (key w y.1) (key w x.1)) && (x.2 <? y.2)%nat).
Definition min_target w (l : list (nat * nat)) : option (nat * nat) :=
  match l with
  | [] => None
  | x :: l' => Some (foldl (fun m y => if target_ltb w y m then y else m) x l')
  end.

(** The task that a preemption of a busy CPU would have to beat. *)
Definition candidate w (rt : nat * Z) : option (nat * nat) :=
  t ← id_to_task w !! rt.2;
  let highest_pending := default t (peek_pending w rt.1) in
  Some (task_max w t highest_pending, rt.1).

(** [PrioritizedFIFOScheduler::invoke_preemption]. *)
Definition invoke_preemption a : M bool :=
  if negb PREEMPTION_ENABLED then mret false else
  t ← task_at a;
  w ← gets (fun w => w);
  let tasks_running := filter (fun rt : nat * Z => rt.2 <> 0) (get_tasks_running w) in
  if bool_decide (tasks_running = []) ||
     bool_decide (Exists (fun rt : nat * Z => rt.2 = id t) tasks_running)
  then mret false else
  target ← lift (unwrap (min_target w (omap (candidate w) tasks_running)));
  if preempts w a target.1 then request_preemption a target else mret false.

(** [PrioritizedRRScheduler::invoke_preemption_wake] and
    [GEDFScheduler::invoke_preemption] repeat the code. *)
Definition invoke_preemption_wake a : M bool := invoke_preemption a.
Definition gedf_invoke_preemption a : M bool := invoke_preemption a.

(** The lower of the victim so far and the target of the next CPU. *)
Definition lower w (victim : option (nat * nat)) (target : nat * nat) : option (nat * nat) :=
  match victim with
  | Some (lowest, c) =>
      if negb (key_ltb (key w target.1) (key w lowest)) then Some (lowest, c) else Some target
  | None => Some target
  end.

(** The loop of [ClusteredEDFScheduler::invoke_preemption]; [None] is its
    [return false]. *)
Fixpoint find_victim w (task_id : Z) (cpus : list nat) (victim : option (nat * nat))
    : option (option (nat * nat)) :=
  match cpus with
  | [] => Some victim
  | cpu :: cpus' =>
      if running w cpu =? task_id then None else
      if running w cpu =? 0 then None else
      match id_to_task w !! running w cpu, peek_pending w cpu with
      | None, None => None
      | Some r, Some p => find_victim w task_id cpus' (lower w victim (task_max w r p, cpu))
      | Some r, None => find_victim w task_id cpus' (lower w victim (r, cpu))
      | None, Some p => find_victim w task_id cpus' (lower w victim (p, cpu))
      end
  end.

(** [ClusteredEDFScheduler::invoke_preemption]. *)
Definition clustered_invoke_preemption a : M bool :=
  if negb PREEMPTION_ENABLED then mret false else
  t ← task_at a;
  set ← lift (unwrap (cpu_set t));
  w ← gets (fun w => w);
  match find_victim w (id t) (iter set) None with
  | Some (Some victim) =>
      if preempts w a victim.1 then request_preemption a victim else mret false
  | _ => mret false
  end.

(** ** [wake_task] of the schedulers *)

(** [delay::uptime], in microseconds. *)
Definition uptime : M Z := gets (fun w => clock w / 1000).

(** [calculate_and_update_dag_deadline]; a [Duration] is in nanoseconds. *)
Definition calculate_and_update_dag_deadline (info : Z * Z) (wake_time : Z) (s : State) : M Z :=
  o ← gets (fun w => id_to_dag w !! info.1);
  d ← lift (unwrap o);
  o' ← gets (fun w => dags w !! d);
  dag ← lift (unwrap o');
  node ← lift (unwrap (Graph.weight_of (Dag.graph dag) info.2));
  release_deadline ← lift
    (match Dag.absolute_deadlines dag !! Dag.num_finished node,
           Dag.get_sink_relative_deadline dag with
     | Some dl, _ => Ret dl (* the closure is not called *)
     | None, Some deadline => Ret (wrap 64 (wake_time + deadline / 1000))
     | None, None => Panic
     end);
  '(dag', dl) ← lift (Dag.get_or_release_absolute_deadline dag info.2
    (negb (bool_decide (s = Preempted))) release_deadline);
  modify (fun w => set_dags w (<[d := dag']> (dags w)));;
  mret dl.

(** [Scheduler::priority]. *)
Definition scheduler_priority (s : Scheduler) : outcome Z :=
  Cpu.get_priority (C:=C)
    match s with
    | SClusteredEDF => Cpu.ClusteredEDF 0 empty
    | SGEDF => Cpu.GEDF 0
    | SFIFO => Cpu.PrioritizedFIFO 0
    | SRR => Cpu.PrioritizedRR 0
    | SPanicked => Cpu.Panicked
    end.

(** The first part of [wake_task] of both EDF schedulers: the absolute deadline,
    which also becomes the priority.  The differences are [u64]. *)
Definition edf_deadline (s : Scheduler) a (relative_deadline : Z) : M (Z * Z) :=
  t ← task_at a;
  wake_time ← uptime;
  absolute_deadline ←
    match dag_info t with
    | Some info => calculate_and_update_dag_deadline info wake_time (state t)
    | None => mret (wrap 64 (wake_time + relative_deadline))
    end;
  p ← lift (scheduler_priority s);
  priority ← lift (combine_priority p (wrap 64 (MAX_TASK_PRIORITY - absolute_deadline)));
  upd_task a (fun t => with_absolute_deadline (with_priority t priority) (Some absolute_deadline));;
  mret (absolute_deadline, wake_time).

(** [PrioritizedFIFOScheduler::wake_task]. *)
Definition fifo_wake_task a : M unit :=
  t ← task_at a;
  p ← lift (match scheduler_type t with Cpu.PrioritizedFIFO p => Ret p | _ => Panic end);
  b ← invoke_preemption a;
  if (b : bool) then mret tt else
  q ← gets (fun w => default PriorityQueue.new (fifo w));
  q' ← lift (PriorityQueue.push q (Z.to_nat p) a);
  modify (fun w => set_fifo w (Some q')).

(** [PrioritizedRRScheduler::wake_task]. *)
Definition rr_wake_task a : M unit :=
  t ← task_at a;
  p ← lift (match scheduler_type t with Cpu.PrioritizedRR p => Ret p | _ => Panic end);
  b ← invoke_preemption_wake a;
  if (b : bool) then mret tt else
  q ← gets (fun w => default PriorityQueue.new (rr w));
  q' ← lift (PriorityQueue.push q (Z.to_nat p) a);
  modify (fun w => set_rr w (Some q')).

(** [GEDFScheduler::wake_task]. *)
Definition gedf_wake_task a : M unit :=
  t ← task_at a;
  r ← lift (match scheduler_type t with Cpu.GEDF r => Ret r | _ => Panic end);
  dl ← edf_deadline SGEDF a r;
  b ← gedf_invoke_preemption a;
  if (b : bool) then mret tt else
  modify (fun w => set_gedf w (Some (mkGEDFTask a dl.1 dl.2 :: default [] (gedf w)))).

(** [ClusteredTask::new] and [ClusteredTask::take] on the counter. *)
Definition clustered_new : M unit :=
  modify (fun w => set_NUM_CLUSTERED_TASKS_IN_QUEUE w
    (wrap 32 (NUM_CLUSTERED_TASKS_IN_QUEUE w + 1))).
Definition clustered_take : M unit :=
  modify (fun w => set_NUM_CLUSTERED_TASKS_IN_QUEUE w
    (wrap 32 (NUM_CLUSTERED_TASKS_IN_QUEUE w - 1))).

(** [ClusteredEDFScheduler::wake_task]. *)
Definition clustered_wake_task a : M unit :=
  t ← task_at a;
  r ← lift (match scheduler_type t with Cpu.ClusteredEDF r _ => Ret r | _ => Panic end);
  dl ← edf_deadline SClusteredEDF a r;
  set ← lift (unwrap (cpu_set t));
  (if is_empty set || negb (mask_eqb (Cpu.masked_workers set num_cpu) set) then panic
   else mret tt);;
  b ← clustered_invoke_preemption a;
  if (b : bool) then mret tt else
  q ← gets (fun w => default (aq_new num_cpu) (clustered w));
  clustered_new;;
  q' ← lift (unwrap (aq_push q dl set a));
  modify (fun w => set_clustered w (Some q')).

(** [PanickedScheduler::wake_task]. *)
Definition panicked_wake_task a : M unit :=
  modify (fun w => set_panicked_queue w (Some (default [] (panicked_queue w) ++ [a]))).

(** The call through [Task::scheduler]. *)
Definition wake_task (s : Scheduler) a : M unit :=
  match s with
  | SFIFO => fifo_wake_task a
  | SRR => rr_wake_task a
  | SGEDF => gedf_wake_task a
  | SClusteredEDF => clustered_wake_task a
  | SPanicked => panicked_wake_task a
  end.

(** [p.scheduler.wake_task(p)]. *)
Definition rewake a : M unit := t ← task_at a; wake_task (scheduler t) a.

(** [cpu::wake_cpu]. *)
Definition wake_cpu cpu : M unit := modify (fun w => set_woken w (woken w ++ [cpu])).

(** The part of [Task::wake] for a task that was not runnable. *)
Definition wake_runnable (t : Task C) a : M unit :=
  upd_task a (fun t => with_state t Runnable);;
  (if panicked t || bool_decide (cpu_set t = None)
   then modify (fun w => set_NUM_TASK_IN_QUEUE w (wrap 32 (NUM_TASK_IN_QUEUE w + 1)))
   else mret tt);;
  (if panicked t then panicked_wake_task a else wake_task (scheduler t) a);;
  wake_cpu 0.

(** [Task::wake]. *)
Definition wake a : M unit :=
  t ← task_at a;
  match state t with
  | Running | Runnable | Preempted => upd_task a (fun t => with_need_sched t true)
  | Terminated | Panicked => mret tt
  | Initialized | Waiting => wake_runnable t a
  end.

(** ** [get_next] of the schedulers *)

(** What every [get_next] does with a task it has popped; [false] is its
    [continue]. *)
Definition claim cpu (execution_ensured : bool) a : M bool :=
  t ← task_at a;
  if bool_decide (state t = Terminated) || bool_decide (state t = Panicked) then mret false else
  (if bool_decide (state t = Preempted)
   then upd_task a (fun t => with_need_preemption t false) else mret tt);;
  (if execution_ensured
   then upd_task a (fun t => with_state t Running);; set_current_task cpu (id t)
   else mret tt);;
  mret true.

(** The loop of every [get_next], with one round more than the queue has entries. *)
Fixpoint next_loop (fuel : nat) (pop : M (option nat)) cpu (execution_ensured : bool)
    : M (option nat) :=
  match fuel with
  | O => mret None
  | S fuel' =>
      o ← pop;
      match o with
      | None => mret None
      | Some a =>
          b ← claim cpu execution_ensured a;
          if (b : bool) then mret (Some a) else next_loop fuel' pop cpu execution_ensured
      end
  end.

(** [data.queue.pop()] of the FIFO, the RR and the panicked scheduler. *)
Definition pop_fifo : M (option nat) :=
  o ← gets fifo;
  match o with
  | None => mret None
  | Some q =>
      '(q', r) ← lift (PriorityQueue.pop q);
      modify (fun w => set_fifo w (Some q'));; mret r
  end.
Definition pop_rr : M (option nat) :=
  o ← gets rr;
  match o with
  | None => mret None
  | Some q =>
      '(q', r) ← lift (PriorityQueue.pop q);
      modify (fun w => set_rr w (Some q'));; mret r
  end.
Definition pop_panicked : M (option nat) :=
  o ← gets panicked_queue;
  match o with
  | Some (a :: l) => modify (fun w => set_panicked_queue w (Some l));; mret (Some a)
  | _ => mret None
  end.

(** [Ord for GEDFTask]: the earlier deadline, then the earlier wake, is greater. *)
Definition gedf_ltb (x y : GEDFTask) : bool :=
  key_ltb (g_absolute_deadline y, g_wake_time y) (g_absolute_deadline x, g_wake_time x).

(** [BinaryHeap::pop] gives one of the maximal entries. *)
Definition is_max (l : list GEDFTask) (i : nat) : Prop :=
  match l !! i with Some x => Forall (fun y => gedf_ltb x y = false) l | None => False end.
#[export] Instance is_max_dec l i : Decision (is_max l i).
Proof. unfold is_max. destruct (l !! i); apply _. Defined.
Definition gedf_heap_pop (l : list GEDFTask) : option (GEDFTask * list GEDFTask) :=
  let maxima := filter (is_max l) (seq 0 (length l)) in
  i ← maxima !! (tie l mod length maxima)%nat;
  x ← l !! i;
  Some (x, take i l ++ drop (S i) l).
Definition pop_gedf : M (option nat) :=
  o ← gets gedf;
  match o ≫= gedf_heap_pop with
  | Some (x, l) => modify (fun w => set_gedf w (Some l));; mret (Some (g_task x))
  | None => mret None
  end.

(** [queue.pop_for_cpu(cpu_id)] and the [take] of the entry. *)
Definition pop_clustered cpu : M (option nat) :=
  o ← gets clustered;
  match o ≫= (fun q => aq_pop_for_cpu q cpu) with
  | Some (a, q) => modify (fun w => set_clustered w (Some q));; clustered_take;; mret (Some a)
  | None => mret None
  end.

(** The lengths of the queues. *)
Definition pq_len (q : PriorityQueue.PriorityQueue nat) : nat :=
  length (concat (PriorityQueue.queue q)).
Definition queue_len w (s : Scheduler) : nat :=
  match s with
  | SFIFO => from_option pq_len O (fifo w)
  | SRR => from_option pq_len O (rr w)
  | SGEDF => from_option length O (gedf w)
  | SClusteredEDF => from_option aq_len O (clustered w)
  | SPanicked => from_option length O (panicked_queue w)
  end.

(** The pop of a scheduler. *)
Definition pop_of (s : Scheduler) cpu : M (option nat) :=
  match s with
  | SFIFO => pop_fifo
  | SRR => pop_rr
  | SGEDF => pop_gedf
  | SClusteredEDF => pop_clustered cpu
  | SPanicked => pop_panicked
  end.
Definition get_next_of (s : Scheduler) cpu (execution_ensured : bool) : M (option nat) :=
  n ← gets (fun w => queue_len w s);
  next_loop (S n) (pop_of s cpu) cpu execution_ensured.

(** [Scheduler::get_next] of the five schedulers, and the call through the trait. *)
Definition clustered_get_next cpu e : M (option nat) := get_next_of SClusteredEDF cpu e.
Definition gedf_get_next cpu e : M (option nat) := get_next_of SGEDF cpu e.
Definition fifo_get_next cpu e : M (option nat) := get_next_of SFIFO cpu e.
Definition rr_get_next cpu e : M (option nat) := get_next_of SRR cpu e.
Definition panicked_get_next cpu e : M (option nat) := get_next_of SPanicked cpu e.
Definition get_next (s : Scheduler) cpu (execution_ensured : bool) : M (option nat) :=
  match s with
  | SFIFO => fifo_get_next cpu execution_ensured
  | SRR => rr_get_next cpu execution_ensured
  | SGEDF => gedf_get_next cpu execution_ensured
  | SClusteredEDF => clustered_get_next cpu execution_ensured
  | SPanicked => panicked_get_next cpu execution_ensured
  end.

(** [get_scheduler]. *)
Definition get_scheduler (t : Cpu.SchedulerType C) : Scheduler :=
  match t with
  | Cpu.PrioritizedFIFO _ => SFIFO
  | Cpu.PrioritizedRR _ => SRR
  | Cpu.GEDF _ => SGEDF
  | Cpu.ClusteredEDF _ _ => SClusteredEDF
  | Cpu.Panicked => SPanicked
  end.

(** [find_map] over a part of [PRIORITY_LIST]. *)
Fixpoint find_next (l : list (Cpu.SchedulerType C)) cpu (execution_ensured : bool)
    : M (option nat) :=
  match l with
  | [] => mret None
  | t :: l' =>
      o ← get_next (get_scheduler t) cpu execution_ensured;
      match o with
      | Some a => mret (Some a)
      | None => find_next l' cpu execution_ensured
      end
  end.

(** [scheduler::get_next_task]. *)
Definition clustered_prefix : list (Cpu.SchedulerType C) :=
  take (Cpu.get_num_clustered_schedulers (C:=C)) Cpu.PRIORITY_LIST.
Definition global_suffix : list (Cpu.SchedulerType C) :=
  drop (Cpu.get_num_clustered_schedulers (C:=C)) Cpu.PRIORITY_LIST.

Definition get_next_global cpu (execution_ensured : bool) : M (option nat) :=
  o ← find_next global_suffix cpu execution_ensured;
  match o with
  | Some a =>
      modify (fun w => set_NUM_TASK_IN_QUEUE w (wrap 32 (NUM_TASK_IN_QUEUE w - 1)));;
      mret (Some a)
  | None => mret None
  end.

Definition scheduler_get_next_task cpu (execution_ensured : bool) : M (option nat) :=
  num_clustered_tasks ← gets NUM_CLUSTERED_TASKS_IN_QUEUE;
  o ← (if 0 <? num_clustered_tasks then find_next clustered_prefix cpu execution_ensured
       else mret None);
  match o with
  | Some a => mret (Some a)
  | None => get_next_global cpu execution_ensured
  end.

(** [preempt::get_next_task]. *)
Definition next_task w cpu : list nat := default [] (NEXT_TASK w !! cpu).
Definition preempt_get_next_task cpu : M (option nat) :=
  l ← gets (fun w => next_task w cpu);
  match l with
  | a :: l' => modify (fun w => set_NEXT_TASK w (<[cpu := l']> (NEXT_TASK w)));; mret (Some a)
  | [] => mret None
  end.

(** [task::get_next_task]. *)
Definition get_next_task cpu (execution_ensured : bool) : M (option nat) :=
  o ← (if PREEMPTION_ENABLED then preempt_get_next_task cpu else mret None);
  match o with
  | Some a =>
      t ← task_at a;
      (if execution_ensured then set_current_task cpu (id t) else mret tt);;
      mret (Some a)
  | None => scheduler_get_next_task cpu execution_ensured
  end.

(** ** The time quantum of the RR scheduler *)

(** [PrioritizedRRScheduler::invoke_preemption_tick]; the quantum is 4 ms.  It
    runs on the primary CPU. *)
Definition interval : Z := 4000.
Definition invoke_preemption_tick cpu (task_id : Z) : M unit :=
  o ← get_last_executed_by_task_id task_id;
  match o with
  | None => mret tt
  | Some last_executed =>
      now ← gets clock;
      if interval <? (now - last_executed) / 1000 then
        o' ← scheduler_get_next_task 0 false;
        match o' with
        | None => mret tt
        | Some next =>
            push_preemption_pending cpu next;;
            set_need_preemption task_id cpu;;
            modify (fun w => set_ipis w (ipis w ++ [cpu]))
        end
      else mret tt
  end.

(** The first loop of [scheduler::wake_task]. *)
Definition tick_cpu cpu : M unit :=
  o ← get_current_task cpu;
  match o with
  | None => mret tt
  | Some task_id =>
      o' ← get_scheduler_type_by_task_id task_id;
      match o' with
      | Some (Cpu.PrioritizedRR _) => invoke_preemption_tick cpu task_id
      | _ => mret tt
      end
  end.
Definition tick : M unit :=
  if PREEMPTION_ENABLED then for_each (seq 1 (num_cpu - 1)) tick_cpu else mret tt.

(** ** Spawning *)

(** The search of [Tasks::spawn] for an unused ID, a [u32]. *)
Fixpoint find_id (fuel : nat) (m : gmap Z nat) (task_id : Z) : option Z :=
  match fuel with
  | O => None
  | S fuel' =>
      let task_id := if task_id =? 0 then 1 else task_id in
      match m !! task_id with
      | None => Some task_id
      | Some _ => find_id fuel' m (wrap 32 (task_id + 1))
      end
  end.

(** The normalisation of the CPU set. *)
Definition normalize (t : Cpu.SchedulerType C) : Cpu.SchedulerType C :=
  match t with
  | Cpu.ClusteredEDF deadline set =>
      let masked := Cpu.masked_workers set num_cpu in
      Cpu.ClusteredEDF deadline
        (if is_empty masked then Cpu.all_workers num_cpu else masked)
  | _ => t
  end.

(** [Tasks::spawn], with enough rounds for the number of registered tasks. *)
Definition tasks_spawn (s : Scheduler) (scheduler_type : Cpu.SchedulerType C)
    (dag_info : option (Z * Z)) : M Z :=
  o ← gets (fun w => find_id (S (size (id_to_task w))) (id_to_task w) (candidate_id w));
  task_id ← lift (unwrap o);
  let scheduler_type := normalize scheduler_type in
  let task_priority := match scheduler_type with
    | Cpu.PrioritizedFIFO p | Cpu.PrioritizedRR p => p
    | _ => MAX_TASK_PRIORITY
    end in
  p ← lift (scheduler_priority s);
  priority ← lift (combine_priority p task_priority);
  modify (fun w =>
    let task := mkTask task_id s priority (Cpu.cpu_set scheduler_type) Initialized
      scheduler_type 0 (clock w) None false false false dag_info false false false in
    set_candidate_id (set_id_to_task (set_tasks w (tasks w ++ [task]))
      (<[task_id := length (tasks w)]> (id_to_task w))) task_id);;
  mret task_id.

(** [inner_spawn]; [spawn] and [spawn_with_dag_info] only call it. *)
Definition inner_spawn (sched_type : Cpu.SchedulerType C) (dag_info : option (Z * Z)) : M Z :=
  task_id ← tasks_spawn (get_scheduler sched_type) sched_type dag_info;
  o ← get_task task_id;
  (match o with Some a => wake a | None => mret tt end);;
  mret task_id.

(** [task::wake]. *)
Definition wake_id (task_id : Z) : M unit :=
  o ← get_task task_id;
  match o with Some a => wake a | None => mret tt end.

(** ** Preemption *)

(** The part of [re_schedule] that concerns tasks. *)
Definition preempted w cpu : list nat := default [] (PREEMPTED_TASKS w !! cpu).
Definition set_preempted w cpu l : World C Q :=
  set_PREEMPTED_TASKS w (<[cpu := l]> (PREEMPTED_TASKS w)).
Definition re_schedule cpu : M unit :=
  l ← gets (fun w => preempted w cpu);
  for_each l (fun a => modify (fun w => set_preempted w cpu (tail (preempted w cpu)));; rewake a).

(** [yield_preempted_and_wake_task] until the switch, and what runs after it on
    the thread of [next]: the poll of [next] where it was preempted, or a worker
    thread about to take it from [NEXT_TASK]. *)
Definition yield_preempted_and_wake_task cpu (current : nat) (resumed : option nat) : M unit :=
  t ← task_at current;
  lift (assert_true (negb (thread t)));;
  upd_task current (fun t => with_num_preempt
    (with_state (with_thread t true) Preempted) (wrap 64 (num_preempt t + 1)));;
  modify (fun w => set_preempted w cpu (current :: preempted w cpu));;
  modify (fun w => set_NUM_PREEMPTION w (wrap 64 (NUM_PREEMPTION w + 1)));;
  modify (fun w => set_polling w
    (match resumed with
     | Some a => <[cpu := a]> (polling w)
     | None => base.delete cpu (polling w)
     end));;
  re_schedule cpu.

(** The loop over the heap that was moved out. *)
Fixpoint rewake_all (fuel : nat) (heap : list nat) : M unit :=
  match fuel with
  | O => mret tt
  | S fuel' =>
      o ← gets (fun w => heap_peek w heap);
      match o with
      | None => mret tt
      | Some p => rewake p;; rewake_all fuel' (remove_one p heap)
      end
  end.

(** [do_preemption] after the decision to preempt. *)
Definition switch_to_pending cpu (thread_ok : bool) (current_task_id : Z) : M unit :=
  o ← move_preemption_pending cpu;
  heap ← lift (unwrap o);
  o' ← gets (fun w => heap_peek w heap);
  next ← lift (unwrap o');
  n ← task_at next;
  set_current_task cpu (id n);;
  rewake_all (length heap) (remove_one next heap);;
  o'' ← get_task current_task_id;
  current ← lift (unwrap o'');
  n' ← task_at next;
  if thread n' then
    upd_task next (fun t => with_thread t false);;
    yield_preempted_and_wake_task cpu current (Some next)
  else if thread_ok then
    modify (fun w => set_NEXT_TASK w (<[cpu := next_task w cpu ++ [next]]> (NEXT_TASK w)));;
    yield_preempted_and_wake_task cpu current None
  else rewake next.

(** [do_preemption]; [thread_ok] says whether [take_pooled_thread] or
    [create_thread] gives a thread. *)
Definition do_preemption cpu (thread_ok : bool) : M unit :=
  o ← peek_preemption_pending cpu;
  match o with
  | None => mret tt
  | Some next =>
      n ← task_at next;
      c ← get_current_task cpu;
      match c with
      | None => remove_preemption_pending cpu (id n);; rewake next
      | Some current_task_id =>
          o' ← get_task current_task_id;
          current ← lift (unwrap o');
          t ← task_at current;
          w ← gets (fun w => w);
          let quantum_rotation := negb (preempts w current next) &&
            bool_decide (scheduler t = SRR) in
          if negb (preempts w next current) && negb quantum_rotation
          then remove_preemption_pending cpu (id n);; rewake next
          else switch_to_pending cpu thread_ok current_task_id
      end
  end.

(** [preemption]. *)
Definition preemption cpu (thread_ok : bool) : M unit :=
  modify (fun w => set_PREEMPTION_REQUEST w (<[cpu := false]> (PREEMPTION_REQUEST w)));;
  do_preemption cpu thread_ok.

(** [voluntary_preemption]. *)
Definition voluntary_preemption cpu (thread_ok : bool) : M unit :=
  r ← gets (fun w => running w cpu);
  if r =? 0 then mret tt else
  req ← gets (fun w => default false (PREEMPTION_REQUEST w !! cpu));
  if negb req then mret tt else preemption cpu thread_ok.

(** [panicking]. *)
Definition panicking cpu (thread_ok : bool) : M unit :=
  c ← get_current_task cpu;
  match c with
  | None => mret tt
  | Some task_id =>
      o ← get_task task_id;
      match o with
      | None => mret tt
      | Some a =>
          upd_task a (fun t => with_panicked (with_scheduler_type t Cpu.Panicked) true);;
          if PREEMPTION_ENABLED then preemption cpu thread_ok else mret tt
      end
  end.

(** ** The turns of a worker *)

(** The [while] loop at the top of [run_main]. *)
Fixpoint rewake_pending (fuel : nat) cpu : M unit :=
  match fuel with
  | O => mret tt
  | S fuel' =>
      o ← pop_preemption_pending cpu;
      match o with
      | None => mret tt
      | Some p => rewake p;; rewake_pending fuel' cpu
      end
  end.

(** What a turn comes to: a poll has begun, the loop is continued, or the CPU
    goes to sleep. *)
Inductive Turn : Type := TPoll (a : nat) | TContinue | TSleep.

(** The part of [run_main] that begins the poll of [a]. *)
Definition begin_poll cpu a : M Turn :=
  t ← task_at a;
  if locked t then set_current_task cpu 0;; wake a;; mret TContinue else
  if is_terminated t then set_current_task cpu 0;; mret TContinue else
  if bool_decide (state t = Terminated) || bool_decide (state t = Panicked)
  then set_current_task cpu 0;; mret TContinue else
  now ← gets clock;
  upd_task a (fun t => with_locked (with_last_executed_time t now) true);;
  set_current_task cpu (id t);;
  modify (fun w => set_polling w (<[cpu := a]> (polling w)));;
  mret (TPoll a).

(** A turn of [run_main] up to the poll.  A task with a stored context is resumed
    on its own thread, which first calls [re_schedule]. *)
Definition run_main cpu : M Turn :=
  w ← gets (fun w => w);
  (if PREEMPTION_ENABLED && (running w cpu =? 0)
   then rewake_pending (length (pending w cpu)) cpu else mret tt);;
  o ← get_next_task cpu true;
  match o with
  | None => mret TSleep
  | Some a =>
      modify (fun w => set_PREEMPTION_REQUEST w (<[cpu := false]> (PREEMPTION_REQUEST w)));;
      t ← task_at a;
      if PREEMPTION_ENABLED && thread t then
        now ← gets clock;
        upd_task a (fun t => with_last_executed_time (with_thread t false) now);;
        modify (fun w => set_polling w (<[cpu := a]> (polling w)));;
        re_schedule cpu;;
        mret (TPoll a)
      else begin_poll cpu a
  end.

(** What a poll gives: [Pending], [Ready], or a panic that was caught. *)
Inductive PollResult : Type := RPending | RReady | RPanic.

Definition remove (task_id : Z) : M unit :=
  modify (fun w => set_id_to_task w (base.delete task_id (id_to_task w))).

(** The part of [run_main] after the poll. *)
Definition end_poll cpu a (r : PollResult) : M unit :=
  t ← task_at a;
  modify (fun w => set_polling w (base.delete cpu (polling w)));;
  upd_task a (fun t => with_is_terminated (with_locked t false)
    (is_terminated t || match r with RReady => true | _ => false end));;
  running_id ← gets (fun w => running w cpu);
  set_current_task cpu 0;;
  lift (assert_true (running_id =? id t));;
  match r with
  | RPending =>
      upd_task a (fun t => with_state t Waiting);;
      t' ← task_at a;
      if need_sched t' then upd_task a (fun t => with_need_sched t false);; wake a else mret tt
  | RReady => upd_task a (fun t => with_state t Terminated);; remove (id t)
  | RPanic => upd_task a (fun t => with_state t Panicked);; remove (id t)
  end.

(** [clustered_queued_cpu_mask]. *)
Definition clustered_queued_cpu_mask w : C :=
  foldl (fun mask t =>
    union mask match get_scheduler t with
      | SClusteredEDF => from_option aq_affinity_mask empty (clustered w)
      | _ => empty
      end) empty clustered_prefix.

(** The loop of [wake_workers]; [asleep] is what [wake_cpu] returns. *)
Fixpoint wake_loop (mask : C) (asleep : nat -> bool) (num_tasks : Z) (cpus : list nat)
    : list nat :=
  match cpus with
  | [] => []
  | i :: cpus' =>
      if contains mask i then i :: wake_loop mask asleep num_tasks cpus' else
      if num_tasks =? 0 then wake_loop mask asleep num_tasks cpus' else
      i :: wake_loop mask asleep (if asleep i then num_tasks - 1 else num_tasks) cpus'
  end.
Definition wake_workers (asleep : nat -> bool) : M unit :=
  modify (fun w => set_woken w (woken w ++
    wake_loop (clustered_queued_cpu_mask w) asleep (NUM_TASK_IN_QUEUE w)
      (seq 1 (num_cpu - 1)))).

End ops.

(** The five have the same loop over their own queue. *)
Lemma get_next_loop {C} `{AffinityQueue C Q} tie s cpu e (w w' : World C Q) o :
  get_next tie s cpu e w = Ret (w', o) ->
  next_loop (S (queue_len w s)) (pop_of tie s cpu) cpu e w = Ret (w', o).
Proof. by destruct s. Qed.

(** The statics at boot. *)
Definition boot {C Q : Type} : World C Q :=
  mkWorld [] ∅ 1 [] ∅ ∅ ∅ 0 0 ∅ ∅ ∅ None None None None None ∅ 0 0 [] [].

End Sched.
