(* ===== verification/SchedInv.v ===== *)
(** * Every runnable task is in exactly one place

    Where a task can be: the five run queues, the preemption-pending heaps, the
    lists of tasks to run next and to re-schedule, and the polls in progress.  The
    development shows that no sequence of calls on the schedulers loses a task
    or puts it in two places. *)

From S2P Require Import Prelude PriorityQueue Cpu Sched.
Local Open Scope Z_scope.

(** What [affinity_btree_queue] documents of its queue: entries in arrival order,
    [pop_for_cpu] takes the smallest key whose set has the CPU, the first to
    arrive among equal keys, and the mask is the union of the sets. *)
Class AffinityQueueLaws (C Q : Type) `{CpuMask C} `{AffinityQueue C Q} : Type := {
  aq_entries : Q -> list (Z * Z * C * nat);
  aq_cpus : Q -> nat;
  aq_entries_new n : aq_entries (aq_new n) = [] /\ aq_cpus (aq_new n) = n;
  aq_len_spec q : aq_len q = length (aq_entries q);
  aq_push_ok q k s a :
    is_empty s = false -> (forall i, contains s i = true -> (i < aq_cpus q)%nat) ->
    exists q', aq_push q k s a = Some q';
  aq_push_spec q k s a q' :
    aq_push q k s a = Some q' ->
    aq_entries q' = aq_entries q ++ [(k, s, a)] /\ aq_cpus q' = aq_cpus q;
  aq_pop_some q cpu a q' :
    aq_pop_for_cpu q cpu = Some (a, q') ->
    exists l1 l2 k s, aq_entries q = l1 ++ (k, s, a) :: l2 /\ aq_entries q' = l1 ++ l2 /\
      aq_cpus q' = aq_cpus q /\ contains s cpu = true /\
      Forall (fun e => contains e.1.2 cpu = true -> Sched.key_ltb k e.1.1 = true) l1 /\
      Forall (fun e => contains e.1.2 cpu = true -> Sched.key_ltb e.1.1 k = false) l2;
  aq_pop_none q cpu :
    aq_pop_for_cpu q cpu = None ->
    Forall (fun e => contains e.1.2 cpu = false) (aq_entries q);
  aq_mask_spec q i :
    contains (aq_affinity_mask q) i = true <->
    Exists (fun e => contains e.1.2 i = true) (aq_entries q)
}.

Module SchedInv.
Import Sched.

(** ** Lists of tasks by CPU *)

Section contents.
Local Open Scope nat_scope.

Definition contents (m : gmap nat (list nat)) : list nat := concat (map_to_list m).*2.

Lemma contents_insert m k l : contents (<[k := l]> m) ≡ₚ l ++ contents (base.delete k m).
Proof.
  unfold contents. rewrite <-insert_delete_eq.
  by rewrite (map_to_list_insert _ k l) by (by rewrite lookup_delete_eq).
Qed.

Lemma contents_default m k : contents m ≡ₚ default [] (m !! k) ++ contents (base.delete k m).
Proof.
  destruct (m !! k) as [l|] eqn:Hk; simpl; [|by rewrite delete_id].
  by rewrite <-contents_insert, insert_id.
Qed.

Lemma polling_insert (m : gmap nat nat) k a :
  m !! k = None -> (map_to_list (<[k := a]> m)).*2 ≡ₚ a :: (map_to_list m).*2.
Proof. intros Hk. by rewrite map_to_list_insert. Qed.

Lemma polling_delete (m : gmap nat nat) k a :
  m !! k = Some a -> (map_to_list m).*2 ≡ₚ a :: (map_to_list (base.delete k m)).*2.
Proof.
  intros Hk. rewrite <-polling_insert with (k:=k) by apply lookup_delete_eq.
  by rewrite insert_delete_eq, insert_id.
Qed.

Lemma elem_of_polling (m : gmap nat nat) a :
  a ∈ (map_to_list m).*2 <-> exists k, m !! k = Some a.
Proof.
  rewrite list_elem_of_fmap. split.
  - intros ([k b] & -> & Hkb). exists k. by apply elem_of_map_to_list.
  - intros [k Hk]. exists (k, a). split; [done|]. by apply elem_of_map_to_list.
Qed.

Lemma concat_insert (ls : list (list nat)) i l l' :
  ls !! i = Some l -> concat (<[i := l']> ls) ++ l ≡ₚ concat ls ++ l'.
Proof.
  revert i. induction ls as [|x ls IH]; intros [|i] Hi; simplify_eq/=.
  - rewrite <-!(assoc_L (++)), (Permutation_app_comm (concat ls)). 
    rewrite (Permutation_app_comm l'), <-(assoc_L (++)). solve_Permutation.
  - by rewrite <-!(assoc_L (++)), (IH i Hi).
Qed.

Lemma pq_push_contents (q q' : PriorityQueue.PriorityQueue nat) p v :
  PriorityQueue.wf q -> PriorityQueue.push q p v = Ret q' ->
  PriorityQueue.wf q' /\
  concat (PriorityQueue.queue q') ≡ₚ v :: concat (PriorityQueue.queue q).
Proof.
  intros Hq Hp. split; [by eapply PriorityQueue.push_wf|].
  destruct (PriorityQueue.push_spec (T:=nat) q p v Hq) as (level & Hl & He).
  rewrite Hp in He. injection He as ->. simpl.
  pose proof (concat_insert _ _ _ (level ++ [v]) Hl) as Hc.
  rewrite (assoc_L (++)) in Hc. apply (Permutation_app_inv_r level).
  rewrite Hc. solve_Permutation.
Qed.

Lemma pq_pop_contents (q q' : PriorityQueue.PriorityQueue nat) r :
  PriorityQueue.wf q -> PriorityQueue.pop q = Ret (q', r) ->
  PriorityQueue.wf q' /\
  match r with
  | Some v => concat (PriorityQueue.queue q) ≡ₚ v :: concat (PriorityQueue.queue q')
  | None => q' = q
  end.
Proof.
  intros Hq Hp. split; [by eapply PriorityQueue.pop_wf|].
  destruct (decide (PriorityQueue.has_entry q = 0)%Z) as [Hz|Hz].
  { rewrite PriorityQueue.pop_none in Hp by done. by simplify_eq. }
  destruct (PriorityQueue.pop_some (T:=nat) q Hq Hz) as (x & level & Hl & He).
  rewrite Hp in He. injection He as -> ->. simpl.
  pose proof (concat_insert _ _ _ level Hl) as Hc.
  apply (Permutation_app_inv_r level). rewrite <-Hc. solve_Permutation.
Qed.

End contents.
(** ** The places of a world *)

Section places.
Context {C : Type} {HC : CpuMask C} {HCL : CpuMaskLaws C}
  {Q : Type} {HQ : AffinityQueue C Q} {HQL : AffinityQueueLaws C Q}.
Context (num_cpu : nat) (PREEMPTION_ENABLED : bool) (tie : list GEDFTask -> nat).
Implicit Types (w : World C Q) (a cpu : nat).

Definition pq_list (o : option (PriorityQueue.PriorityQueue nat)) : list nat :=
  from_option (fun q => concat (PriorityQueue.queue q)) [] o.
Definition gedf_list (o : option (list GEDFTask)) : list nat := g_task <$> default [] o.
Definition clustered_list (o : option Q) : list nat :=
  from_option (fun q => snd <$> aq_entries q) [] o.

(** The run queues that [NUM_TASK_IN_QUEUE] counts. *)
Definition queued w : list nat :=
  pq_list (fifo w) ++ pq_list (rr w) ++ gedf_list (gedf w) ++ default [] (panicked_queue w).

(** Every place a task can be in. *)
Definition placed w : list nat :=
  queued w ++ clustered_list (clustered w) ++ contents (PREEMPTION_PENDING_TASKS w) ++
  contents (NEXT_TASK w) ++ contents (PREEMPTED_TASKS w) ++ (map_to_list (polling w)).*2.

(** The queues are well formed, the counter of the clustered tasks is exact and
    the next task ID is a [u32]. *)
Record wfq w : Prop := mkWfq {
  wfq_fifo : forall q, fifo w = Some q -> PriorityQueue.wf q;
  wfq_rr : forall q, rr w = Some q -> PriorityQueue.wf q;
  wfq_clustered : NUM_CLUSTERED_TASKS_IN_QUEUE w =
    wrap 32 (Z.of_nat (length (clustered_list (clustered w))));
  wfq_id : is_uint 32 (candidate_id w)
}.

(** The part of a task that enqueuing it leaves alone. *)
Record Skel : Type := mkSkel {
  sk_id : Z;
  sk_scheduler : Scheduler;
  sk_state : State;
  sk_thread : bool;
  sk_locked : bool;
  sk_done : bool;
  sk_clustered : bool
}.
Definition skel (t : Task C) : Skel :=
  mkSkel (id t) (scheduler t) (state t) (thread t) (locked t) (is_terminated t)
    (bool_decide (is_Some (cpu_set t))).

(** What enqueuing does not change. *)
Record frame w w' : Prop := mkFrame {
  fr_tasks : skel <$> tasks w' = skel <$> tasks w;
  fr_reg : id_to_task w' = id_to_task w;
  fr_polling : polling w' = polling w;
  fr_running : RUNNING w' = RUNNING w;
  fr_next : NEXT_TASK w' = NEXT_TASK w;
  fr_preempted : PREEMPTED_TASKS w' = PREEMPTED_TASKS w
}.

Lemma frame_refl w : frame w w.
Proof. done. Qed.

Lemma frame_trans w1 w2 w3 : frame w1 w2 -> frame w2 w3 -> frame w1 w3.
Proof. intros [] []. split; congruence. Qed.

Lemma frame_upd w a (f : Task C -> Task C) :
  (forall t, skel (f t) = skel t) -> frame w (set_tasks w (alter f a (tasks w))).
Proof.
  intros Hf. split; try done. simpl. apply list_eq. intros i.
  rewrite !list_lookup_fmap. destruct (decide (a = i)) as [->|Hi].
  - rewrite list_lookup_alter_eq. destruct (tasks w !! i); simpl; [by rewrite Hf|done].
  - by rewrite list_lookup_alter_ne.
Qed.

Lemma fmap_alter_skel (f : Task C -> Task C) g a (ts : list (Task C)) :
  (forall t, skel (f t) = g (skel t)) -> skel <$> alter f a ts = alter g a (skel <$> ts).
Proof.
  intros Hf. apply list_eq. intros i. rewrite list_lookup_fmap.
  destruct (decide (a = i)) as [->|Hi].
  - rewrite !list_lookup_alter_eq, list_lookup_fmap. destruct (ts !! i); simpl; congruence.
  - by rewrite !list_lookup_alter_ne, list_lookup_fmap.
Qed.

(** A call that puts [l] in a place and keeps the rest. *)
Definition enq (l : list nat) w w' : Prop :=
  (wfq w -> wfq w') /\ frame w w' /\ (wfq w -> placed w' ≡ₚ l ++ placed w).

Lemma enq_trans l l' w1 w2 w3 : enq l w1 w2 -> enq l' w2 w3 -> enq (l' ++ l) w1 w3.
Proof.
  intros (H1 & H2 & H3) (H4 & H5 & H6). split; [auto|]. split; [by eapply frame_trans|].
  intros Hw. rewrite H6, H3 by auto. by rewrite (assoc_L (++)).
Qed.

(** A change of the state outside of the places. *)
Record quiet w w' : Prop := mkQuiet {
  qt_fifo : fifo w' = fifo w;
  qt_rr : rr w' = rr w;
  qt_gedf : gedf w' = gedf w;
  qt_clustered : clustered w' = clustered w;
  qt_panicked : panicked_queue w' = panicked_queue w;
  qt_pending : PREEMPTION_PENDING_TASKS w' = PREEMPTION_PENDING_TASKS w;
  qt_next : NEXT_TASK w' = NEXT_TASK w;
  qt_preempted : PREEMPTED_TASKS w' = PREEMPTED_TASKS w;
  qt_polling : polling w' = polling w;
  qt_count : NUM_CLUSTERED_TASKS_IN_QUEUE w' = NUM_CLUSTERED_TASKS_IN_QUEUE w;
  qt_id : candidate_id w' = candidate_id w
}.

Lemma quiet_placed w w' : quiet w w' -> placed w' = placed w.
Proof.
  intros []. unfold placed, queued. congruence.
Qed.

Lemma quiet_wfq w w' : quiet w w' -> wfq w -> wfq w'.
Proof.
  intros [E1 E2 _ E4 _ _ _ _ _ E10 E11] [W1 W2 W3 W4].
  split; by rewrite ?E1, ?E2, ?E4, ?E10, ?E11.
Qed.

Lemma quiet_enq w w' : quiet w w' -> frame w w' -> enq [] w w'.
Proof.
  intros Hq Hf. split; [by apply quiet_wfq|]. split; [done|]. intros _.
  by rewrite (quiet_placed _ _ Hq).
Qed.

Lemma quiet_upd w a f : quiet w (set_tasks w (alter f a (tasks w))).
Proof. done. Qed.

(** ** Enqueuing *)

Lemma task_at_ret w w' a t :
  task_at a w = Ret (w', t) -> w' = w /\ tasks w !! a = Some t.
Proof.
  unfold task_at. sbind. destruct (tasks w !! a); simpl; [|done]. intros [= <- <-]. done.
Qed.

Lemma push_pending_enq w w' cpu a u :
  push_preemption_pending cpu a w = Ret (w', u) -> enq [a] w w'.
Proof.
  intros [= <- _]. split; [by intros []|]. split; [done|]. intros _.
  unfold placed, set_pending, queued. simpl.
  rewrite contents_insert, (contents_default (PREEMPTION_PENDING_TASKS w) cpu).
  unfold pending. solve_Permutation.
Qed.

Lemma set_need_preemption_enq w w' i cpu u :
  set_need_preemption i cpu w = Ret (w', u) -> enq [] w w'.
Proof.
  unfold set_need_preemption, get_task, upd_task. sbind.
  destruct (id_to_task w !! i) as [b|]; intros [= <- _]; [|by apply quiet_enq].
  apply (enq_trans [] [] _ (set_tasks w (alter (fun t => with_need_preemption t true) b (tasks w)))).
  - apply quiet_enq; [apply quiet_upd|by apply frame_upd].
  - by apply quiet_enq.
Qed.

Lemma request_preemption_enq w w' a target b :
  request_preemption a target w = Ret (w', b) -> b = true /\ enq [a] w w'.
Proof.
  unfold request_preemption. intros Hr.
  apply st_bind_ret in Hr as (w1 & t & [-> Ht]%task_at_ret & Hr).
  apply st_bind_ret in Hr as (w1 & u1 & H1%push_pending_enq & Hr).
  apply st_bind_ret in Hr as (w2 & u2 & H2%set_need_preemption_enq & Hr).
  revert Hr. sbind. intros [= <- <-]. split; [done|].
  apply (enq_trans [a] [] _ w2); [exact (enq_trans [a] [] _ _ _ H1 H2)|]. by apply quiet_enq.
Qed.

Lemma invoke_preemption_enq w w' a b :
  invoke_preemption num_cpu PREEMPTION_ENABLED a w = Ret (w', b) ->
  enq (if b then [a] else []) w w'.
Proof.
  unfold invoke_preemption. destruct (negb PREEMPTION_ENABLED).
  { intros [= <- <-]. by apply quiet_enq. }
  intros Hr. apply st_bind_ret in Hr as (w1 & t & [-> Ht]%task_at_ret & Hr).
  apply st_bind_ret in Hr as (w1 & w2 & [= <- <-] & Hr). case_in Hr.
  { apply st_ret_ret in Hr as [-> ->]. by apply quiet_enq. }
  apply st_bind_ret in Hr as (w1 & target & Hm & Hr). unfold lift in Hm.
  destruct (unwrap _) as [x|]; [|done]. injection Hm as <- <-. case_in Hr.
  - by apply request_preemption_enq in Hr as [-> ?].
  - apply st_ret_ret in Hr as [-> ->]. by apply quiet_enq.
Qed.

Lemma clustered_invoke_preemption_enq w w' a b :
  clustered_invoke_preemption PREEMPTION_ENABLED a w = Ret (w', b) ->
  enq (if b then [a] else []) w w'.
Proof.
  unfold clustered_invoke_preemption. destruct (negb PREEMPTION_ENABLED).
  { intros [= <- <-]. by apply quiet_enq. }
  intros Hr. apply st_bind_ret in Hr as (w1 & t & [-> Ht]%task_at_ret & Hr).
  apply st_bind_ret in Hr as (w1 & set & Hm & Hr). unfold lift in Hm.
  destruct (unwrap _) as [x|]; [|done]. injection Hm as <- <-.
  apply st_bind_ret in Hr as (w1 & w2 & [= <- <-] & Hr).
  destruct (find_victim _ _ _ _) as [[v|]|]; [case_in Hr| |].
  - by apply request_preemption_enq in Hr as [-> ?].
  - apply st_ret_ret in Hr as [-> ->]. by apply quiet_enq.
  - apply st_ret_ret in Hr as [-> ->]. by apply quiet_enq.
  - apply st_ret_ret in Hr as [-> ->]. by apply quiet_enq.
Qed.

Lemma dag_deadline_enq w w' info t s dl :
  calculate_and_update_dag_deadline (C:=C) (Q:=Q) info t s w = Ret (w', dl) ->
  enq [] w w' /\ tasks w' = tasks w.
Proof.
  unfold calculate_and_update_dag_deadline. intros Hr.
  apply st_bind_ret in Hr as (w1 & o & [= <- <-] & Hr).
  apply st_bind_ret in Hr as (w1 & d & [-> _]%lift_ret & Hr).
  apply st_bind_ret in Hr as (w1 & o & [= <- <-] & Hr).
  apply st_bind_ret in Hr as (w1 & dag & [-> _]%lift_ret & Hr).
  apply st_bind_ret in Hr as (w1 & n & [-> _]%lift_ret & Hr).
  apply st_bind_ret in Hr as (w1 & r & [-> _]%lift_ret & Hr).
  apply st_bind_ret in Hr as (w1 & [dag' dl'] & [-> _]%lift_ret & Hr).
  revert Hr. sbind. intros [= <- <-]. split; [by apply quiet_enq|done].
Qed.

Lemma edf_deadline_enq w w' s a r dl :
  edf_deadline (C:=C) (Q:=Q) s a r w = Ret (w', dl) -> enq [] w w'.
Proof.
  unfold edf_deadline. intros Hr.
  apply st_bind_ret in Hr as (w1 & t & [-> Ht]%task_at_ret & Hr).
  apply st_bind_ret in Hr as (w1 & wt & [= <- <-] & Hr).
  apply st_bind_ret in Hr as (w1 & ad & Hd & Hr).
  assert (H1 : enq [] w w1).
  { destruct (dag_info t); [by apply dag_deadline_enq in Hd as [? _]|].
    apply st_ret_ret in Hd as [-> _]. by apply quiet_enq. }
  apply st_bind_ret in Hr as (w2 & p & [-> _]%lift_ret & Hr).
  apply st_bind_ret in Hr as (w2 & pr & [-> _]%lift_ret & Hr).
  revert Hr. unfold upd_task. sbind. intros [= <- <-].
  eapply (enq_trans [] []); [exact H1|]. apply quiet_enq; [apply quiet_upd|by apply frame_upd].
Qed.

(** Placing [a] after the decision not to preempt. *)
Lemma enq_queue w w1 w2 w' a (b : bool) :
  enq [] w w1 -> enq (if b then [a] else []) w1 w2 ->
  (if b then w' = w2 else enq [a] w2 w') -> enq [a] w w'.
Proof.
  intros H1 H2 H3. destruct b.
  - subst. exact (enq_trans [] [a] _ _ _ H1 H2).
  - exact (enq_trans [] [a] _ _ _ (enq_trans [] [] _ _ _ H1 H2) H3).
Qed.

Lemma enq_self w : enq [] w w.
Proof. by apply quiet_enq. Qed.
Hint Resolve enq_self : core.

Lemma fifo_wake_task_enq w w' a u :
  fifo_wake_task num_cpu PREEMPTION_ENABLED a w = Ret (w', u) -> enq [a] w w'.
Proof.
  unfold fifo_wake_task. intros Hr.
  apply st_bind_ret in Hr as (w1 & t & [-> Ht]%task_at_ret & Hr).
  apply st_bind_ret in Hr as (w1 & p & [-> _]%lift_ret & Hr).
  apply st_bind_ret in Hr as (w1 & b & Hb%invoke_preemption_enq & Hr).
  apply (enq_queue w w w1 w' a b); [done|done|].
  destruct b; [by apply st_ret_ret in Hr as [-> _]|].
  apply st_bind_ret in Hr as (w2 & q & [= <- <-] & Hr).
  apply st_bind_ret in Hr as (w2 & q' & [-> Hq]%lift_ret & Hr).
  injection Hr as <- <-.
  assert (Hp : wfq w1 -> PriorityQueue.wf q' /\
    concat (PriorityQueue.queue q') ≡ₚ a :: pq_list (fifo w1)).
  { intros [Hf _ _ _]. destruct (fifo w1) as [q|]; simpl in *.
    - by eapply pq_push_contents; [apply Hf|].
    - eapply pq_push_contents in Hq; [|apply PriorityQueue.new_wf]. done. }
  split; [|split; [done|]]; intros Hw; destruct (Hp Hw) as [Hq' Hc].
  - destruct Hw. split; simpl; [by intros ? [= <-]|done|done|done].
  - unfold placed, queued. simpl. by rewrite Hc.
Qed.

Lemma rr_wake_task_enq w w' a u :
  rr_wake_task num_cpu PREEMPTION_ENABLED a w = Ret (w', u) -> enq [a] w w'.
Proof.
  unfold rr_wake_task. intros Hr.
  apply st_bind_ret in Hr as (w1 & t & [-> Ht]%task_at_ret & Hr).
  apply st_bind_ret in Hr as (w1 & p & [-> _]%lift_ret & Hr).
  apply st_bind_ret in Hr as (w1 & b & Hb%invoke_preemption_enq & Hr).
  apply (enq_queue w w w1 w' a b); [done|done|].
  destruct b; [by apply st_ret_ret in Hr as [-> _]|].
  apply st_bind_ret in Hr as (w2 & q & [= <- <-] & Hr).
  apply st_bind_ret in Hr as (w2 & q' & [-> Hq]%lift_ret & Hr).
  injection Hr as <- <-.
  assert (Hp : wfq w1 -> PriorityQueue.wf q' /\
    concat (PriorityQueue.queue q') ≡ₚ a :: pq_list (rr w1)).
  { intros [_ Hf _ _]. destruct (rr w1) as [q|]; simpl in *.
    - by eapply pq_push_contents; [apply Hf|].
    - eapply pq_push_contents in Hq; [|apply PriorityQueue.new_wf]. done. }
  split; [|split; [done|]]; intros Hw; destruct (Hp Hw) as [Hq' Hc].
  - destruct Hw. split; simpl; [done|by intros ? [= <-]|done|done].
  - unfold placed, queued. simpl. rewrite Hc. solve_Permutation.
Qed.

Lemma gedf_wake_task_enq w w' a u :
  gedf_wake_task num_cpu PREEMPTION_ENABLED a w = Ret (w', u) -> enq [a] w w'.
Proof.
  unfold gedf_wake_task. intros Hr.
  apply st_bind_ret in Hr as (w1 & t & [-> Ht]%task_at_ret & Hr).
  apply st_bind_ret in Hr as (w1 & p & [-> _]%lift_ret & Hr).
  apply st_bind_ret in Hr as (w1 & dl & Hd%edf_deadline_enq & Hr).
  apply st_bind_ret in Hr as (w2 & b & Hb%invoke_preemption_enq & Hr).
  apply (enq_queue w w1 w2 w' a b); [done|done|].
  destruct b; [by apply st_ret_ret in Hr as [-> _]|]. injection Hr as <- <-.
  split; [by intros []|split; [done|]]. intros Hw. unfold placed, queued, gedf_list. simpl.
  solve_Permutation.
Qed.

Lemma wrap_succ n : wrap 32 (wrap 32 n + 1) = wrap 32 (n + 1).
Proof. unfold wrap. by rewrite Zplus_mod_idemp_l. Qed.

Lemma wrap_pred n : wrap 32 (wrap 32 (n + 1) - 1) = wrap 32 n.
Proof. unfold wrap. rewrite Zminus_mod_idemp_l. f_equal. lia. Qed.

Lemma clustered_wake_task_enq w w' a u :
  clustered_wake_task num_cpu PREEMPTION_ENABLED a w = Ret (w', u) -> enq [a] w w'.
Proof.
  unfold clustered_wake_task. intros Hr.
  apply st_bind_ret in Hr as (w1 & t & [-> Ht]%task_at_ret & Hr).
  apply st_bind_ret in Hr as (w1 & p & [-> _]%lift_ret & Hr).
  apply st_bind_ret in Hr as (w1 & dl & Hd%edf_deadline_enq & Hr).
  apply st_bind_ret in Hr as (w2 & set & [-> _]%lift_ret & Hr).
  apply st_bind_ret in Hr as (w2 & u1 & Hn & Hr).
  assert (w2 = w1) as ->. { destruct (is_empty set || _); [done|]. by apply st_ret_ret in Hn as [-> _]. }
  apply st_bind_ret in Hr as (w2 & b & Hb%clustered_invoke_preemption_enq & Hr).
  apply (enq_queue w w1 w2 w' a b); [done|done|].
  destruct b; [by apply st_ret_ret in Hr as [-> _]|].
  apply st_bind_ret in Hr as (w3 & q & [= <- <-] & Hr).
  apply st_bind_ret in Hr as (w3 & u2 & [= <- _] & Hr).
  apply st_bind_ret in Hr as (w3 & q' & [-> Hq]%lift_ret & Hr).
  injection Hr as <- <-.
  destruct (aq_push _ _ _ _) as [q1|] eqn:Hp; [|done]. injection Hq as ->.
  apply aq_push_spec in Hp as [Hp _].
  assert (Hc : clustered_list (Some q') = clustered_list (clustered w2) ++ [a]).
  { simpl. rewrite Hp, fmap_app. destruct (clustered w2); [done|]. simpl.
    by rewrite (proj1 (aq_entries_new num_cpu)). }
  split; [|split; [done|]].
  - intros [W1 W2 W3 W4]. split; [done|done| |done].
    change (clustered (set_clustered _ _)) with (Some q'). rewrite Hc, length_app. simpl.
    rewrite W3, wrap_succ. f_equal. lia.
  - intros Hw. unfold placed, queued.
    change (clustered (set_clustered _ _)) with (Some q'). rewrite Hc. simpl. solve_Permutation.
Qed.

Lemma wake_task_enq w w' s a u :
  wake_task num_cpu PREEMPTION_ENABLED s a w = Ret (w', u) -> enq [a] w w'.
Proof.
  destruct s; simpl.
  - apply clustered_wake_task_enq.
  - apply gedf_wake_task_enq.
  - apply fifo_wake_task_enq.
  - apply rr_wake_task_enq.
  - intros [= <- <-]. split; [by intros []|split; [done|]]. intros _.
    unfold placed, queued. simpl. solve_Permutation.
Qed.

Lemma rewake_enq w w' a u :
  rewake num_cpu PREEMPTION_ENABLED a w = Ret (w', u) -> enq [a] w w'.
Proof.
  unfold rewake. intros Hr. apply st_bind_ret in Hr as (w1 & t & [-> Ht]%task_at_ret & Hr).
  by eapply wake_task_enq.
Qed.

(** ** Dequeuing *)

(** A call that takes [l] out of its places and keeps the rest. *)
Definition deq (l : list nat) w w' : Prop :=
  (wfq w -> wfq w') /\ frame w w' /\ (wfq w -> placed w ≡ₚ l ++ placed w').

Lemma deq_self w : deq [] w w.
Proof. done. Qed.
Hint Resolve deq_self : core.

(** Taking out and putting back. *)
Lemma deq_enq l w1 w2 w3 : deq l w1 w2 -> enq l w2 w3 -> enq [] w1 w3.
Proof.
  intros (H1 & H2 & H3) (H4 & H5 & H6). split; [auto|]. split; [by eapply frame_trans|].
  intros Hw. rewrite H6, H3 by auto. done.
Qed.

Lemma pop_fifo_deq w w' o : pop_fifo w = Ret (w', o) -> deq (option_list o) w w'.
Proof.
  unfold pop_fifo. intros Hr. apply st_bind_ret in Hr as (w1 & o1 & [= <- <-] & Hr).
  destruct (fifo w) as [q|] eqn:Hq; [|by apply st_ret_ret in Hr as [-> ->]].
  apply st_bind_ret in Hr as (w1 & [q' r] & [-> Hp]%lift_ret & Hr).
  revert Hr. sbind. intros [= <- <-].
  assert (Hc : wfq w -> PriorityQueue.wf q' /\
    pq_list (fifo w) ≡ₚ option_list r ++ pq_list (Some q')).
  { intros [Hw _ _ _]. apply pq_pop_contents in Hp as [? Hp]; [|by apply Hw]. split; [done|].
    rewrite Hq. simpl. destruct r; [by rewrite Hp|by subst]. }
  split; [|split; [done|]]; intros Hw; destruct (Hc Hw) as [Hq' Hl].
  - destruct Hw. split; simpl; [by intros ? [= <-]|done|done|done].
  - unfold placed, queued. rewrite Hl. simpl. by rewrite <-!(assoc_L (++)).
Qed.

Lemma pop_rr_deq w w' o : pop_rr w = Ret (w', o) -> deq (option_list o) w w'.
Proof.
  unfold pop_rr. intros Hr. apply st_bind_ret in Hr as (w1 & o1 & [= <- <-] & Hr).
  destruct (rr w) as [q|] eqn:Hq; [|by apply st_ret_ret in Hr as [-> ->]].
  apply st_bind_ret in Hr as (w1 & [q' r] & [-> Hp]%lift_ret & Hr).
  revert Hr. sbind. intros [= <- <-].
  assert (Hc : wfq w -> PriorityQueue.wf q' /\
    pq_list (rr w) ≡ₚ option_list r ++ pq_list (Some q')).
  { intros [_ Hw _ _]. apply pq_pop_contents in Hp as [? Hp]; [|by apply Hw]. split; [done|].
    rewrite Hq. simpl. destruct r; [by rewrite Hp|by subst]. }
  split; [|split; [done|]]; intros Hw; destruct (Hc Hw) as [Hq' Hl].
  - destruct Hw. split; simpl; [done|by intros ? [= <-]|done|done].
  - unfold placed, queued. rewrite Hl. simpl. solve_Permutation.
Qed.

Lemma pop_panicked_deq w w' o : pop_panicked w = Ret (w', o) -> deq (option_list o) w w'.
Proof.
  unfold pop_panicked. sbind.
  destruct (panicked_queue w) as [[|a l]|] eqn:Hq; intros [= <- <-]; try done.
  split; [by intros []|split; [done|]]. intros _. unfold placed, queued. rewrite Hq. simpl.
  solve_Permutation.
Qed.

Lemma gedf_heap_pop_spec l x l' :
  gedf_heap_pop tie l = Some (x, l') ->
  x ∈ l /\ Forall (fun y => gedf_ltb x y = false) l /\ l ≡ₚ x :: l'.
Proof.
  unfold gedf_heap_pop. set (ms := filter _ _). intros Hp.
  destruct (ms !! _) as [i|] eqn:Hi; simpl in Hp; [|done].
  destruct (l !! i) as [y|] eqn:Hy; simpl in Hp; [|done]. simplify_eq.
  apply list_elem_of_lookup_2 in Hi. apply list_elem_of_filter in Hi as [Hm _].
  unfold is_max in Hm. rewrite Hy in Hm.
  split; [by eapply list_elem_of_lookup_2|]. split; [done|].
  rewrite <-(take_drop_middle l i x Hy) at 1. solve_Permutation.
Qed.

Lemma pop_gedf_deq w w' o : pop_gedf tie w = Ret (w', o) -> deq (option_list o) w w'.
Proof.
  unfold pop_gedf. sbind. destruct (gedf w) as [l|] eqn:Hq; simpl; [|by intros [= <- <-]].
  destruct (gedf_heap_pop tie l) as [[x l']|] eqn:Hp; intros [= <- <-]; [|done].
  apply gedf_heap_pop_spec in Hp as (_ & _ & Hp).
  split; [by intros []|split; [done|]]. intros _. unfold placed, queued, gedf_list. rewrite Hq.
  simpl. rewrite Hp. simpl. solve_Permutation.
Qed.

Lemma pop_clustered_deq w w' cpu o :
  pop_clustered cpu w = Ret (w', o) -> deq (option_list o) w w'.
Proof.
  unfold pop_clustered. sbind. destruct (clustered w) as [q|] eqn:Hq; simpl; [|by intros [= <- <-]].
  destruct (aq_pop_for_cpu q cpu) as [[x q']|] eqn:Hp; intros [= <- <-]; [|done].
  apply aq_pop_some in Hp as (l1 & l2 & k & s & He & He' & _).
  assert (Hc : clustered_list (clustered w) ≡ₚ x :: clustered_list (Some q')).
  { rewrite Hq. simpl. rewrite He, He', !fmap_app. simpl. solve_Permutation. }
  split; [|split; [done|]].
  - intros [W1 W2 W3 W4]. split; [done|done| |done].
    cbn [NUM_CLUSTERED_TASKS_IN_QUEUE set_NUM_CLUSTERED_TASKS_IN_QUEUE set_clustered clustered].
    rewrite W3, Hc. simpl length.
    rewrite Nat2Z.inj_succ, <-Z.add_1_r. apply wrap_pred.
  - intros _. unfold placed, queued. simpl.
    change (snd <$> aq_entries q') with (clustered_list (Some q')). rewrite Hc. solve_Permutation.
Qed.

Lemma pop_of_deq w w' s cpu o : pop_of tie s cpu w = Ret (w', o) -> deq (option_list o) w w'.
Proof.
  destruct s; simpl.
  - apply pop_clustered_deq.
  - apply pop_gedf_deq.
  - apply pop_fifo_deq.
  - apply pop_rr_deq.
  - apply pop_panicked_deq.
Qed.

Lemma remove_one_perm a l : a ∈ l -> l ≡ₚ a :: remove_one a l.
Proof.
  induction l as [|b l IH]; [by intros ?%not_elem_of_nil|]. intros Hin. simpl.
  case_decide as Hab; [by subst|]. apply elem_of_cons in Hin as [?|Hin]; [done|].
  rewrite (IH Hin) at 1. solve_Permutation.
Qed.

Lemma heap_peek_elem w l a : heap_peek w l = Some a -> a ∈ l.
Proof.
  destruct l as [|x l]; [done|]. simpl. intros [= <-]. revert x.
  induction l as [|y l IH]; intros x; simpl; [left|].
  specialize (IH (task_max w x y)). unfold task_max in *. case_if; set_solver.
Qed.

Lemma pop_pending_deq w w' cpu o :
  pop_preemption_pending cpu w = Ret (w', o) -> deq (option_list o) w w'.
Proof.
  unfold pop_preemption_pending, peek_preemption_pending. sbind.
  destruct (peek_pending w cpu) as [a|] eqn:Hp; intros [= <- <-]; [|done].
  apply heap_peek_elem in Hp. split; [by intros []|split; [done|]]. intros _.
  unfold placed, queued, set_pending. simpl. rewrite contents_insert.
  rewrite (contents_default (PREEMPTION_PENDING_TASKS w) cpu). fold (pending w cpu).
  rewrite (remove_one_perm a (pending w cpu)) at 1 by done. solve_Permutation.
Qed.

Lemma rewake_pending_enq w w' fuel cpu u :
  rewake_pending num_cpu PREEMPTION_ENABLED fuel cpu w = Ret (w', u) -> enq [] w w'.
Proof.
  revert w. induction fuel as [|fuel IH]; intros w; simpl.
  { intros Hr. by apply st_ret_ret in Hr as [-> _]. }
  intros Hr. apply st_bind_ret in Hr as (w1 & o & Hp%pop_pending_deq & Hr).
  destruct o as [p|].
  - apply st_bind_ret in Hr as (w2 & u1 & Hw%rewake_enq & Hr).
    exact (enq_trans [] [] _ _ _ (deq_enq _ _ _ _ Hp Hw) (IH _ Hr)).
  - apply st_ret_ret in Hr as [-> _]. destruct Hp as (H1 & H2 & H3). split; [done|].
    split; [done|]. intros Hw. by rewrite H3.
Qed.

Lemma rewake_all_enq w w' fuel l u :
  rewake_all num_cpu PREEMPTION_ENABLED fuel l w = Ret (w', u) ->
  (length l <= fuel)%nat -> enq l w w'.
Proof.
  revert w l. induction fuel as [|fuel IH]; intros w l; simpl.
  { intros Hr Hl. apply st_ret_ret in Hr as [-> _]. destruct l; [done|simpl in Hl; lia]. }
  intros Hr Hl. apply st_bind_ret in Hr as (w1 & o & [= <- <-] & Hr).
  destruct (heap_peek w l) as [p|] eqn:Hp.
  - apply heap_peek_elem in Hp. apply remove_one_perm in Hp.
    apply st_bind_ret in Hr as (w2 & u1 & Hw%rewake_enq & Hr).
    apply IH in Hr; [|rewrite Hp in Hl; simpl in Hl; lia].
    destruct (enq_trans _ _ _ _ _ Hw Hr) as (H1 & H2 & H3). split; [done|]. split; [done|].
    intros Hwf. rewrite H3 by done. rewrite Hp at 2. solve_Permutation.
  - apply st_ret_ret in Hr as [-> _]. by destruct l.
Qed.
End places.
End SchedInv.
