(* ===== verification/SchedSafe.v ===== *)
(** * Safety of the schedulers

    The invariant of all the calls on the schedulers and the workers: a task is
    in exactly one place while it is runnable, running or preempted and in none
    otherwise, it is registered until it has finished, [RUNNING] names the task a
    CPU polls, and the mutex of a future is held exactly by a poll in progress
    or by a preempted thread. *)

From S2P Require Import Prelude PriorityQueue Cpu Sched SchedInv.
Local Open Scope Z_scope.

Module SchedSafe.
Import Sched SchedInv.

(** The states in which a task has a place, and those of an unfinished task. *)
Definition active (s : State) : bool :=
  match s with Running | Runnable | Preempted => true | _ => false end.
Definition live (s : State) : bool :=
  match s with Terminated | Panicked => false | _ => true end.

Lemma active_live s : active s = true -> live s = true.
Proof. by destruct s. Qed.

(** ** The invariant, on the skeletons of the tasks *)

Section invariant.
Implicit Types (sk : list Skel) (reg : gmap Z nat) (P : list nat).

(** [P] are the places, the tasks that a call holds in its hands included. *)
Record inv1 sk reg P : Prop := mkInv1 {
  i1_nodup : NoDup P;
  i1_placed : forall a, a ∈ P <-> exists s, sk !! a = Some s /\ active (sk_state s) = true;
  i1_live : forall a s, sk !! a = Some s -> live (sk_state s) = true ->
    reg !! sk_id s = Some a;
  i1_reg : forall i a, reg !! i = Some a ->
    i <> 0 /\ exists s, sk !! a = Some s /\ sk_id s = i /\ live (sk_state s) = true
}.

Record inv2 (pe : bool) sk (pol : gmap nat nat) (run : gmap nat Z) : Prop := mkInv2 {
  i2_poll : forall c a s, pol !! c = Some a -> sk !! a = Some s ->
    default 0 (run !! c) = sk_id s;
  i2_lock : forall a s, sk !! a = Some s ->
    sk_locked s = true <-> (exists c, pol !! c = Some a) \/ sk_thread s = true;
  i2_thread : forall a s, sk !! a = Some s -> sk_thread s = true ->
    pe = true /\ active (sk_state s) = true /\ forall c, pol !! c <> Some a;
  i2_done : forall a s, sk !! a = Some s -> sk_done s = true -> sk_state s = Terminated
}.

Lemma inv1_perm sk reg P P' : P ≡ₚ P' -> inv1 sk reg P -> inv1 sk reg P'.
Proof.
  intros HP [H1 H2 H3 H4]. split; [by rewrite <-HP| |done|done].
  intros a. by rewrite <-HP.
Qed.

(** A change of one task that keeps its ID and its being active. *)
Lemma inv1_alter sk reg P f a :
  (forall s, sk !! a = Some s ->
    sk_id (f s) = sk_id s /\ active (sk_state (f s)) = active (sk_state s) /\
    live (sk_state (f s)) = live (sk_state s)) ->
  inv1 sk reg P -> inv1 (alter f a sk) reg P.
Proof.
  intros Hf [H1 H2 H3 H4].
  assert (Hl : forall b s, alter f a sk !! b = Some s -> exists s0, sk !! b = Some s0 /\
    sk_id s = sk_id s0 /\ active (sk_state s) = active (sk_state s0) /\
    live (sk_state s) = live (sk_state s0)).
  { intros b s Hs. destruct (decide (a = b)) as [->|Hn].
    - rewrite list_lookup_alter_eq in Hs. destruct (sk !! b) as [s0|] eqn:Hb; [|done].
      injection Hs as <-. exists s0. split; [done|]. by apply Hf.
    - rewrite list_lookup_alter_ne in Hs by done. by exists s. }
  assert (Hr : forall b s0, sk !! b = Some s0 -> exists s, alter f a sk !! b = Some s /\
    sk_id s = sk_id s0 /\ active (sk_state s) = active (sk_state s0) /\
    live (sk_state s) = live (sk_state s0)).
  { intros b s0 Hb. destruct (decide (a = b)) as [->|Hn].
    - exists (f s0). rewrite list_lookup_alter_eq, Hb. split; [done|]. by apply Hf.
    - exists s0. by rewrite list_lookup_alter_ne. }
  split; [done| | |].
  - intros b. rewrite H2. split.
    + intros (s0 & Hb & Ha). destruct (Hr _ _ Hb) as (s & Hs & _ & E & _). exists s. by rewrite E.
    + intros (s & Hs & Ha). destruct (Hl _ _ Hs) as (s0 & Hb & _ & E & _). exists s0.
      by rewrite <-E.
  - intros b s Hs Hlv. destruct (Hl _ _ Hs) as (s0 & Hb & -> & _ & E). apply H3; [done|].
    by rewrite <-E.
  - intros i b Hi. destruct (H4 _ _ Hi) as (Hz & s0 & Hb & <- & Hlv).
    destruct (Hr _ _ Hb) as (s & Hs & E1 & _ & E2). split; [done|]. exists s.
    by rewrite E2.
Qed.

Lemma alter_lookup sk a f s b :
  sk !! a = Some s -> alter f a sk !! b = if decide (a = b) then Some (f s) else sk !! b.
Proof.
  intros Ha. case_decide as Hb; [subst; by rewrite list_lookup_alter_eq, Ha|].
  by rewrite list_lookup_alter_ne.
Qed.

(** A task becomes active and gets a place. *)
Lemma inv1_activate sk reg P f a s :
  sk !! a = Some s -> active (sk_state s) = false -> live (sk_state s) = true ->
  sk_id (f s) = sk_id s -> active (sk_state (f s)) = true ->
  inv1 sk reg P -> inv1 (alter f a sk) reg (a :: P).
Proof.
  intros Ha Hact Hlv Hid Hact' [H1 H2 H3 H4].
  assert (HaP : a ∉ P). { rewrite H2. intros (s' & Hs' & ?). congruence. }
  pose proof (fun b => alter_lookup sk a f s b Ha) as Hlook.
  split.
  - by constructor.
  - intros b. rewrite elem_of_cons, H2, Hlook. case_decide; naive_solver.
  - intros b s' Hs' Hl'. rewrite Hlook in Hs'. case_decide as Hb; [|by apply H3].
    subst. injection Hs' as <-. rewrite Hid. by apply H3.
  - intros i b Hi. destruct (H4 _ _ Hi) as (Hz & s' & Hb & Hi' & Hl'). split; [done|].
    rewrite Hlook. case_decide as Hab; [|by exists s'].
    subst. exists (f s). simplify_eq. split; [done|]. split; [done|]. by apply active_live.
Qed.

(** A task gives up its place and stays alive. *)
Lemma inv1_deactivate sk reg P f a s :
  sk !! a = Some s -> sk_id (f s) = sk_id s -> active (sk_state (f s)) = false ->
  live (sk_state (f s)) = true ->
  inv1 sk reg (a :: P) -> inv1 (alter f a sk) reg P.
Proof.
  intros Ha Hid Hact' Hlv' [H1 H2 H3 H4].
  pose proof (fun b => alter_lookup sk a f s b Ha) as Hlook.
  apply NoDup_cons in H1 as [HaP H1].
  assert (Hlv : live (sk_state s) = true).
  { destruct (H2 a) as [(s' & Hs' & Hact) _]; [left|]. simplify_eq. by apply active_live. }
  split.
  - done.
  - intros b. specialize (H2 b). rewrite elem_of_cons in H2. rewrite Hlook.
    case_decide as Hb; [subst b|]; naive_solver congruence.
  - intros b s' Hs' Hl'. rewrite Hlook in Hs'. case_decide as Hb; [|by apply H3].
    subst. injection Hs' as <-. rewrite Hid. by apply H3.
  - intros i b Hi. destruct (H4 _ _ Hi) as (Hz & s' & Hb & Hi' & Hl'). split; [done|].
    rewrite Hlook. case_decide as Hab; [|by exists s'].
    subst. exists (f s). simplify_eq. done.
Qed.

(** A task finishes and is removed from the registry. *)
Lemma inv1_finish sk reg P f a s :
  sk !! a = Some s -> sk_id (f s) = sk_id s -> live (sk_state (f s)) = false ->
  inv1 sk reg (a :: P) -> inv1 (alter f a sk) (base.delete (sk_id s) reg) P.
Proof.
  intros Ha Hid Hlv' [H1 H2 H3 H4].
  pose proof (fun b => alter_lookup sk a f s b Ha) as Hlook.
  assert (Hact' : active (sk_state (f s)) = false) by (by destruct (sk_state (f s))).
  apply NoDup_cons in H1 as [HaP H1].
  assert (Hra : reg !! sk_id s = Some a).
  { apply H3; [done|]. destruct (H2 a) as [(s' & Hs' & Hact) _]; [left|].
    simplify_eq. by apply active_live. }
  split.
  - done.
  - intros b. specialize (H2 b). rewrite elem_of_cons in H2. rewrite Hlook.
    case_decide as Hb; [subst b|]; naive_solver congruence.
  - intros b s' Hs' Hl'. rewrite Hlook in Hs'. case_decide as Hb.
    { subst. injection Hs' as <-. congruence. }
    rewrite lookup_delete_ne; [by apply H3|]. intros Hs. pose proof (H3 b s' Hs' Hl'). congruence.
  - intros i b Hi. apply lookup_delete_Some in Hi as [Hne Hi].
    destruct (H4 _ _ Hi) as (Hz & s' & Hb & Hi' & Hl'). split; [done|].
    rewrite Hlook. case_decide as Hab; [|by exists s']. subst. simplify_eq.
Qed.

(** A new task, waiting. *)
Lemma inv1_spawn sk reg P s :
  sk_id s <> 0 -> reg !! sk_id s = None -> active (sk_state s) = false ->
  live (sk_state s) = true ->
  inv1 sk reg P -> inv1 (sk ++ [s]) (<[sk_id s := length sk]> reg) P.
Proof.
  intros Hz Hn Hact Hlv [H1 H2 H3 H4]. split.
  - done.
  - intros b. rewrite H2. split.
    + intros (s' & Hb & Ha). exists s'. split; [|done].
      rewrite lookup_app_l; [done|by eapply lookup_lt_Some].
    + intros (s' & [Hb|[Hb Hs]]%lookup_app_Some & Ha); [by exists s'|].
      apply list_lookup_singleton_Some in Hs as [_ <-]. congruence.
  - intros b s' [Hb|[Hb Hs]]%lookup_app_Some Hl'.
    + rewrite lookup_insert_ne; [by apply H3|]. intros Hs. pose proof (H3 b s' Hb Hl'). congruence.
    + apply list_lookup_singleton_Some in Hs as [Hb' <-]. rewrite lookup_insert_eq. f_equal. lia.
  - intros i b [[Hi Hb]|[Hne Hi]]%lookup_insert_Some; [subst i b|].
    + split; [done|]. exists s. split; [|done]. rewrite lookup_app_r, Nat.sub_diag; done.
    + destruct (H4 _ _ Hi) as (Hz' & s' & Hb & Hi' & Hl'). split; [done|]. exists s'.
      split; [|done]. rewrite lookup_app_l; [done|by eapply lookup_lt_Some].
Qed.

(** IDs of placed tasks are distinct. *)
Lemma inv1_id_inj sk reg P a b s s' :
  inv1 sk reg P -> a ∈ P -> b ∈ P -> sk !! a = Some s -> sk !! b = Some s' ->
  sk_id s = sk_id s' -> a = b.
Proof.
  intros [_ H2 H3 _] Ha Hb Hs Hs' He.
  apply H2 in Ha as (t & Ht & Hta%active_live). apply H2 in Hb as (t' & Ht' & Htb%active_live).
  pose proof (H3 a t Ht Hta). pose proof (H3 b t' Ht' Htb).
  congruence.
Qed.

(** ** Changes of what the CPUs poll *)

Lemma polling_inj (pol : gmap nat nat) c c' a :
  NoDup (map_to_list pol).*2 -> pol !! c = Some a -> pol !! c' = Some a -> c = c'.
Proof.
  intros Hnd Hc Hc'. destruct (decide (c = c')) as [|Hn]; [done|]. exfalso.
  rewrite (polling_delete pol c a Hc) in Hnd. apply NoDup_cons in Hnd as [Hnd _].
  apply Hnd, elem_of_polling. exists c'. by rewrite lookup_delete_ne.
Qed.

(** A poll of [a] begins, or goes on where it was preempted. *)
Lemma inv2_begin pe sk pol run a s cpu f :
  sk !! a = Some s -> pol !! cpu = None -> (forall c, pol !! c <> Some a) ->
  sk_id (f s) = sk_id s -> sk_locked (f s) = true -> sk_thread (f s) = false ->
  sk_done (f s) = false ->
  inv2 pe sk pol run -> inv2 pe (alter f a sk) (<[cpu := a]> pol) (<[cpu := sk_id s]> run).
Proof.
  intros Ha Hcpu Hpol Hid Hlk Hth Hdn [H1 H2 H3 H4].
  pose proof (fun b => alter_lookup sk a f s b Ha) as Hlook. split.
  - intros c b s' [[<- <-]|[Hn Hc]]%lookup_insert_Some Hs'; rewrite Hlook in Hs'.
    + rewrite lookup_insert_eq. rewrite decide_True in Hs' by done. injection Hs' as <-. done.
    + rewrite lookup_insert_ne by done. case_decide as Hab; [by subst; destruct (Hpol c)|].
      by apply (H1 c b).
  - intros b s' Hs'. rewrite Hlook in Hs'. case_decide as Hab.
    + subst. injection Hs' as <-. rewrite Hlk, Hth. split; [|done]. intros _. left. exists cpu.
      by rewrite lookup_insert_eq.
    + rewrite (H2 b s' Hs'). split; intros [[c Hc]|?]; try (by right); left.
      * exists c. rewrite lookup_insert_ne; [done|]. by intros ->; rewrite Hcpu in Hc.
      * apply lookup_insert_Some in Hc as [[_ ?]|[_ Hc]]; [by subst|by exists c].
  - intros b s' Hs' Ht. rewrite Hlook in Hs'. case_decide as Hab; [simplify_eq; congruence|].
    destruct (H3 b s' Hs' Ht) as (? & ? & Hc). do 2 (split; [done|]). intros c.
    destruct (decide (cpu = c)) as [->|?]; [rewrite lookup_insert_eq; congruence|].
    rewrite lookup_insert_ne by done. apply Hc.
  - intros b s' Hs' Ht. rewrite Hlook in Hs'. case_decide as Hab; [simplify_eq; congruence|].
    by apply (H4 b).
Qed.

(** The poll of [a] stops, at its end or because it is preempted. *)
Lemma inv2_stop pe sk pol run a s cpu f id' :
  sk !! a = Some s -> pol !! cpu = Some a -> NoDup (map_to_list pol).*2 ->
  sk_locked (f s) = sk_thread (f s) ->
  (sk_thread (f s) = true -> pe = true /\ active (sk_state (f s)) = true) ->
  (sk_done (f s) = true -> sk_state (f s) = Terminated) ->
  inv2 pe sk pol run -> inv2 pe (alter f a sk) (base.delete cpu pol) (<[cpu := id']> run).
Proof.
  intros Ha Hcpu Hnd Hlk Hth Hdn [H1 H2 H3 H4].
  pose proof (fun b => alter_lookup sk a f s b Ha) as Hlook.
  assert (Hpol : forall c, base.delete cpu pol !! c <> Some a).
  { intros c [Hn Hc]%lookup_delete_Some. apply Hn. by eapply polling_inj. }
  split.
  - intros c b s' Hc Hs'. pose proof Hc as [Hn Hc']%lookup_delete_Some.
    rewrite Hlook in Hs'. case_decide; [by subst; destruct (Hpol c)|].
    rewrite lookup_insert_ne by done. by apply (H1 c b).
  - intros b s' Hs'. rewrite Hlook in Hs'. case_decide as Hab.
    + subst. injection Hs' as <-. rewrite Hlk. split; [by right|]. intros [[c Hc]|?]; [|done].
      by destruct (Hpol c).
    + rewrite (H2 b s' Hs'). split; intros [[c Hc]|?]; try (by right); left; exists c.
      * apply lookup_delete_Some. split; [|done]. intros ->. congruence.
      * by apply lookup_delete_Some in Hc as [_ ?].
  - intros b s' Hs' Ht. rewrite Hlook in Hs'. case_decide as Hab.
    + subst. injection Hs' as <-. destruct (Hth Ht). auto.
    + destruct (H3 b s' Hs' Ht) as (? & ? & Hc). do 2 (split; [done|]).
      intros c [_ Hc']%lookup_delete_Some. by apply (Hc c).
  - intros b s' Hs' Ht. rewrite Hlook in Hs'. case_decide as Hab; [simplify_eq; auto|].
    by apply (H4 b).
Qed.

(** A change that concerns none of this. *)
Lemma inv2_alter pe sk pol run f a :
  (forall s, sk !! a = Some s -> sk_id (f s) = sk_id s /\ sk_locked (f s) = sk_locked s /\
    sk_thread (f s) = sk_thread s /\ sk_done (f s) = sk_done s /\
    (sk_thread s = true -> active (sk_state (f s)) = true) /\
    (sk_done s = true -> sk_state (f s) = Terminated)) ->
  inv2 pe sk pol run -> inv2 pe (alter f a sk) pol run.
Proof.
  intros Hf [H1 H2 H3 H4].
  assert (Hl : forall b s, alter f a sk !! b = Some s -> exists s0, sk !! b = Some s0 /\
    sk_id s = sk_id s0 /\ sk_locked s = sk_locked s0 /\ sk_thread s = sk_thread s0 /\
    sk_done s = sk_done s0 /\ (sk_thread s0 = true -> active (sk_state s) = true) /\
    (sk_done s0 = true -> sk_state s = Terminated)).
  { intros b s Hs. destruct (decide (a = b)) as [->|Hn].
    - rewrite list_lookup_alter_eq in Hs. destruct (sk !! b) as [s0|] eqn:Hb; [|done].
      injection Hs as <-. exists s0. split; [done|]. by apply Hf.
    - rewrite list_lookup_alter_ne in Hs by done. exists s. repeat (split; [done|]).
      split; intros ?; [by apply (H3 b)|by apply (H4 b)]. }
  split.
  - intros c b s Hc Hs. destruct (Hl _ _ Hs) as (s0 & Hb & -> & _). by apply (H1 c b).
  - intros b s Hs. destruct (Hl _ _ Hs) as (s0 & Hb & _ & -> & -> & _). by apply H2.
  - intros b s Hs Ht. destruct (Hl _ _ Hs) as (s0 & Hb & _ & _ & E & _ & Hact & _).
    rewrite E in Ht. destruct (H3 b s0 Hb Ht) as (? & _ & ?). auto.
  - intros b s Hs Ht. destruct (Hl _ _ Hs) as (s0 & Hb & _ & _ & _ & E & _ & Hd).
    rewrite E in Ht. auto.
Qed.

(** A new task. *)
Lemma inv2_spawn pe sk pol run s :
  (forall c a, pol !! c = Some a -> (a < length sk)%nat) ->
  sk_locked s = false -> sk_thread s = false -> sk_done s = false ->
  inv2 pe sk pol run -> inv2 pe (sk ++ [s]) pol run.
Proof.
  intros Hpol Hlk Hth Hdn [H1 H2 H3 H4].
  assert (Hl : forall b s', (sk ++ [s]) !! b = Some s' ->
    sk !! b = Some s' \/ s' = s /\ (forall c, pol !! c <> Some b)).
  { intros b s' [Hb|[Hb Hs]]%lookup_app_Some; [by left|right].
    apply list_lookup_singleton_Some in Hs as [_ <-]. split; [done|]. intros c Hc.
    specialize (Hpol _ _ Hc). lia. }
  split.
  - intros c b s' Hc Hs'. destruct (Hl _ _ Hs') as [?|[-> Hn]]; [by apply (H1 c b)|].
    by destruct (Hn c).
  - intros b s' Hs'. destruct (Hl _ _ Hs') as [?|[-> Hn]]; [by apply H2|].
    rewrite Hlk, Hth. naive_solver.
  - intros b s' Hs' Ht. destruct (Hl _ _ Hs') as [?|[-> Hn]]; [by apply (H3 b)|congruence].
  - intros b s' Hs' Ht. destruct (Hl _ _ Hs') as [?|[-> Hn]]; [by apply (H4 b)|congruence].
Qed.

End invariant.

(** ** The invariant of a world *)

Section safety.
Context {C : Type} {HC : CpuMask C} {HCL : CpuMaskLaws C}
  {Q : Type} {HQ : AffinityQueue C Q} {HQL : AffinityQueueLaws C Q}.
Context (num_cpu : nat) (PREEMPTION_ENABLED : bool) (tie : list GEDFTask -> nat).
Implicit Types (w : World C Q) (a cpu : nat).

(** The invariant while a call holds the tasks [hand]. *)
Definition inv_hand (hand : list nat) w : Prop :=
  wfq w /\ inv1 (skel <$> tasks w) (id_to_task w) (hand ++ placed w).
Definition inv w : Prop :=
  inv_hand [] w /\ inv2 PREEMPTION_ENABLED (skel <$> tasks w) (polling w) (RUNNING w).

Lemma enq_hand l l' w w' : enq l w w' -> inv_hand (l ++ l') w -> inv_hand l' w'.
Proof.
  intros (H1 & H2 & H3) [Hw Hi]. split; [auto|].
  rewrite (fr_tasks _ _ H2), (fr_reg _ _ H2). eapply inv1_perm; [|exact Hi].
  rewrite H3 by done. solve_Permutation.
Qed.

Lemma deq_hand l l' w w' : deq l w w' -> inv_hand l' w -> inv_hand (l ++ l') w'.
Proof.
  intros (H1 & H2 & H3) [Hw Hi]. split; [auto|].
  rewrite (fr_tasks _ _ H2), (fr_reg _ _ H2). eapply inv1_perm; [|exact Hi].
  rewrite H3 by done. solve_Permutation.
Qed.

Lemma enq_inv w w' : enq [] w w' -> inv w -> inv w'.
Proof.
  intros He [H1 H2]. split; [by apply (enq_hand [] [] w w')|].
  destruct He as (_ & Hf & _). by rewrite (fr_tasks _ _ Hf), (fr_polling _ _ Hf), (fr_running _ _ Hf).
Qed.

Lemma skel_lookup w a t : tasks w !! a = Some t -> (skel <$> tasks w) !! a = Some (skel t).
Proof. intros Ha. by rewrite list_lookup_fmap, Ha. Qed.

Lemma lookup_skel w a s :
  (skel <$> tasks w) !! a = Some s -> exists t, tasks w !! a = Some t /\ s = skel t.
Proof. rewrite list_lookup_fmap. destruct (tasks w !! a); simpl; [|done]. intros [= <-]. eauto. Qed.

(** A task in a place or a hand is active. *)
Lemma hand_active l w a :
  inv_hand l w -> a ∈ l ++ placed w ->
  exists t, tasks w !! a = Some t /\ active (state t) = true.
Proof.
  intros [_ Hi] Ha. apply (i1_placed _ _ _ Hi) in Ha as (s & (t & Ht & ->)%lookup_skel & Hact).
  by exists t.
Qed.

(** ** Taking the next task *)

(** [a] leaves its queue; its state is [st] now, and [RUNNING] names it if
    [ensured]. *)
Record taken (ensured : bool) cpu a w w' : Prop := mkTaken {
  tk_wfq : wfq w';
  tk_placed : placed w ≡ₚ a :: placed w';
  tk_tasks : exists st, active st = true /\
    skel <$> tasks w' = alter (fun s => mkSkel (sk_id s) (sk_scheduler s) st (sk_thread s)
      (sk_locked s) (sk_done s) (sk_clustered s)) a (skel <$> tasks w);
  tk_reg : id_to_task w' = id_to_task w;
  tk_polling : polling w' = polling w;
  tk_running : forall t, tasks w !! a = Some t ->
    RUNNING w' = if ensured then <[cpu := id t]> (RUNNING w) else RUNNING w
}.

Lemma alter_same_state (st : State) a (sk : list Skel) s :
  sk !! a = Some s -> sk_state s = st ->
  alter (fun s => mkSkel (sk_id s) (sk_scheduler s) st (sk_thread s)
      (sk_locked s) (sk_done s) (sk_clustered s)) a sk = sk.
Proof.
  intros Ha Hs. apply list_eq. intros b. rewrite (alter_lookup _ _ _ s b Ha).
  case_decide as Hb; [|done]. subst b. rewrite Ha. destruct s; simpl in *. by subst.
Qed.

Lemma claim_spec w w' cpu ensured a b t :
  tasks w !! a = Some t -> active (state t) = true ->
  claim cpu ensured a w = Ret (w', b) ->
  b = true /\ quiet w w' /\ id_to_task w' = id_to_task w /\
  (exists st, active st = true /\
    skel <$> tasks w' = alter (fun s => mkSkel (sk_id s) (sk_scheduler s) st (sk_thread s)
      (sk_locked s) (sk_done s) (sk_clustered s)) a (skel <$> tasks w)) /\
  RUNNING w' = if ensured then <[cpu := id t]> (RUNNING w) else RUNNING w.
Proof.
  intros Ht Hact. unfold claim. intros Hr.
  apply st_bind_ret in Hr as (w1 & t' & [-> Ht']%task_at_ret & Hr).
  assert (t' = t) as -> by congruence.
  rewrite (bool_decide_eq_false_2 (state t = Terminated)) in Hr by (by intros E; rewrite E in Hact).
  rewrite (bool_decide_eq_false_2 (state t = Panicked)) in Hr by (by intros E; rewrite E in Hact).
  simpl in Hr. apply st_bind_ret in Hr as (w1 & u & H1 & Hr).
  assert (Hw1 : quiet w w1 /\ frame w w1).
  { case_in H1.
    - injection H1 as <- <-. split; [apply quiet_upd|by apply frame_upd].
    - by apply st_ret_ret in H1 as [-> _]. }
  destruct Hw1 as [Hq Hf]. apply st_bind_ret in Hr as (w2 & u' & H2 & Hr).
  apply st_ret_ret in Hr as [-> ->]. split; [done|]. destruct ensured.
  - revert H2. unfold upd_task, set_current_task. sbind. intros [= <- <-].
    simpl. rewrite (fr_reg _ _ Hf), (fr_running _ _ Hf).
    split; [by destruct Hq|]. split; [done|]. split; [|done]. exists Running. split; [done|].
    rewrite <-(fr_tasks _ _ Hf). by apply fmap_alter_skel.
  - apply st_ret_ret in H2 as [-> _].
    rewrite (fr_reg _ _ Hf), (fr_running _ _ Hf), (fr_tasks _ _ Hf).
    split; [done|]. split; [done|]. split; [|done]. exists (state t). split; [done|].
    symmetry. eapply alter_same_state; [by apply skel_lookup|done].
Qed.

Lemma next_loop_spec w w' s fuel cpu ensured o :
  inv_hand [] w -> next_loop fuel (pop_of tie s cpu) cpu ensured w = Ret (w', o) ->
  match o with Some a => taken ensured cpu a w w' | None => deq [] w w' end.
Proof.
  intros Hi. destruct fuel as [|fuel]; simpl; intros Hr.
  { by apply st_ret_ret in Hr as [-> ->]. }
  apply st_bind_ret in Hr as (w1 & o1 & Hp%pop_of_deq & Hr).
  destruct o1 as [a|]; [|apply st_ret_ret in Hr as [-> ->]; exact Hp].
  pose proof (deq_hand _ _ _ _ Hp Hi) as Hi1.
  destruct (hand_active _ _ a Hi1) as (t & Ht & Hact); [left|].
  apply st_bind_ret in Hr as (w2 & b & Hc & Hr).
  destruct (claim_spec _ _ _ _ _ _ _ Ht Hact Hc) as (-> & Hq & Hreg & Htk & Hrun).
  apply st_ret_ret in Hr as [-> ->]. destruct Hp as (_ & Hf & Hpl).
  split.
  - apply (quiet_wfq _ _ Hq), Hi1.
  - rewrite (quiet_placed _ _ Hq). apply Hpl, Hi.
  - destruct Htk as (st & Hst & Htk). exists st. by rewrite <-(fr_tasks _ _ Hf).
  - by rewrite Hreg, (fr_reg _ _ Hf).
  - by rewrite (qt_polling _ _ Hq), (fr_polling _ _ Hf).
  - intros t' Ht'. assert (id t' = id t) as ->.
    { apply skel_lookup in Ht, Ht'. rewrite (fr_tasks _ _ Hf) in Ht. by simplify_eq/=. }
    by rewrite Hrun, (fr_running _ _ Hf).
Qed.

Lemma deq_taken w w1 w2 ensured cpu a :
  inv_hand [] w -> deq [] w w1 -> taken ensured cpu a w1 w2 -> taken ensured cpu a w w2.
Proof.
  intros [Hw _] (_ & Hf & Hp) [T1 T2 T3 T4 T5 T6]. split; [done| | | | |].
  - rewrite (Hp Hw). exact T2.
  - by rewrite <-(fr_tasks _ _ Hf).
  - by rewrite T4, (fr_reg _ _ Hf).
  - by rewrite T5, (fr_polling _ _ Hf).
  - intros t Ht. apply skel_lookup in Ht. rewrite <-(fr_tasks _ _ Hf) in Ht.
    apply lookup_skel in Ht as (t1 & Ht1 & He). rewrite (T6 t1 Ht1), (fr_running _ _ Hf).
    by injection He as -> _ _ _ _ _ _.
Qed.

Lemma taken_quiet w w1 w2 ensured cpu a :
  taken ensured cpu a w w1 -> quiet w1 w2 -> frame w1 w2 -> taken ensured cpu a w w2.
Proof.
  intros [T1 T2 T3 T4 T5 T6] Hq Hf. split.
  - by apply (quiet_wfq w1).
  - by rewrite (quiet_placed _ _ Hq).
  - by rewrite (fr_tasks _ _ Hf).
  - by rewrite (fr_reg _ _ Hf).
  - by rewrite (fr_polling _ _ Hf).
  - by rewrite (fr_running _ _ Hf).
Qed.

Lemma find_next_spec w w' l cpu ensured o :
  inv_hand [] w -> find_next tie l cpu ensured w = Ret (w', o) ->
  match o with Some a => taken ensured cpu a w w' | None => deq [] w w' end.
Proof.
  revert w. induction l as [|t l IH]; intros w Hi; simpl; intros Hr.
  { by apply st_ret_ret in Hr as [-> ->]. }
  apply st_bind_ret in Hr as (w1 & o1 & Hn & Hr). apply get_next_loop, next_loop_spec in Hn; [|done]. destruct o1 as [a|].
  - by apply st_ret_ret in Hr as [-> ->].
  - pose proof (deq_hand _ _ _ _ Hn Hi) as Hi1. apply IH in Hr; [|done].
    destruct o as [a|]; [by eapply deq_taken|].
    destruct Hn as (N1 & N2 & N3), Hr as (R1 & R2 & R3).
    split; [auto|]. split; [by eapply frame_trans|]. intros Hw. rewrite N3, R3; auto.
Qed.

Lemma scheduler_get_next_task_spec w w' cpu ensured o :
  inv_hand [] w -> scheduler_get_next_task tie cpu ensured w = Ret (w', o) ->
  match o with Some a => taken ensured cpu a w w' | None => deq [] w w' end.
Proof.
  intros Hi. unfold scheduler_get_next_task. intros Hr.
  apply st_bind_ret in Hr as (w1 & n & [= <- _] & Hr).
  apply st_bind_ret in Hr as (w1 & o1 & Hn & Hr).
  assert (Hn' : match o1 with Some a => taken ensured cpu a w w1 | None => deq [] w w1 end).
  { case_in Hn; [by eapply find_next_spec|]. by apply st_ret_ret in Hn as [-> ->]. }
  destruct o1 as [a|]; [by apply st_ret_ret in Hr as [-> ->]|].
  pose proof (deq_hand _ _ _ _ Hn' Hi) as Hi1. unfold get_next_global in Hr.
  apply st_bind_ret in Hr as (w2 & o2 & Hg & Hr). apply find_next_spec in Hg; [|done].
  destruct o2 as [a|].
  - revert Hr. sbind. intros [= <- <-]. eapply taken_quiet; [by eapply deq_taken|done|done].
  - apply st_ret_ret in Hr as [-> ->].
    destruct Hn' as (N1 & N2 & N3), Hg as (R1 & R2 & R3).
    split; [auto|]. split; [by eapply frame_trans|]. intros Hw. rewrite N3, R3; auto.
Qed.

(** [task::get_next_task] with [execution_ensured]. *)
Lemma get_next_task_spec w w' cpu o :
  inv_hand [] w -> get_next_task PREEMPTION_ENABLED tie cpu true w = Ret (w', o) ->
  match o with Some a => taken true cpu a w w' | None => deq [] w w' end.
Proof.
  intros Hi. unfold get_next_task. intros Hr.
  apply st_bind_ret in Hr as (w1 & o1 & Hn & Hr).
  destruct o1 as [a|].
  - destruct PREEMPTION_ENABLED; [|done]. unfold preempt_get_next_task in Hn.
    apply st_bind_ret in Hn as (w2 & l & [= <- <-] & Hn).
    destruct (next_task w cpu) as [|b l'] eqn:Hl; [done|]. revert Hn. sbind. intros [= <- ->].
    apply st_bind_ret in Hr as (w2 & t & [-> Ht]%task_at_ret & Hr).
    revert Hr. unfold set_current_task. sbind. intros [= <- <-]. simpl in Ht.
    assert (Hp : placed w ≡ₚ a :: placed (set_NEXT_TASK w (<[cpu:=l']> (NEXT_TASK w)))).
    { unfold placed, queued. simpl. rewrite contents_insert, (contents_default (NEXT_TASK w) cpu).
      unfold next_task in Hl. rewrite Hl. solve_Permutation. }
    split; simpl.
    + by destruct Hi as [[] _].
    + exact Hp.
    + destruct (hand_active [] w a Hi) as (t' & Ht' & Hact); [rewrite Hp; left|].
      exists (state t'). split; [done|]. symmetry.
      eapply alter_same_state; [by apply skel_lookup|done].
    + done.
    + done.
    + intros t' Ht'. by simplify_eq.
  - assert (w1 = w) as ->.
    { destruct PREEMPTION_ENABLED; [|by apply st_ret_ret in Hn as [-> _]].
      revert Hn. unfold preempt_get_next_task. sbind. by destruct (next_task w cpu); intros [= <-]. }
    by eapply scheduler_get_next_task_spec.
Qed.

Lemma taken_hand w w' ensured cpu a :
  inv_hand [] w -> taken ensured cpu a w w' -> inv_hand [a] w'.
Proof.
  intros [Hw Hi] [T1 T2 (st & Hst & T3) T4 _ _]. split; [done|]. rewrite T3, T4.
  apply inv1_alter; [|by eapply inv1_perm; [|exact Hi]; rewrite T2].
  intros s Hs. simpl. split; [done|].
  assert (Ha : a ∈ [] ++ placed w) by (simpl; rewrite T2; left).
  apply (i1_placed _ _ _ Hi) in Ha as (s' & Hs' & Hact). simplify_eq.
  by rewrite Hact, Hst, (active_live _ Hact), (active_live _ Hst).
Qed.

(** Putting the task in the hand back. *)
Lemma enq_hand_inv w w' a :
  enq [a] w w' -> inv_hand [a] w -> inv2 PREEMPTION_ENABLED (skel <$> tasks w) (polling w) (RUNNING w) -> inv w'.
Proof.
  intros He H1 H2. split; [by apply (enq_hand [a] [] w)|].
  destruct He as (_ & Hf & _). by rewrite (fr_tasks _ _ Hf), (fr_polling _ _ Hf), (fr_running _ _ Hf).
Qed.

(** ** The calls keep the invariant *)

Lemma wake_runnable_enq w w' a t u :
  wfq w -> tasks w !! a = Some t -> wake_runnable num_cpu PREEMPTION_ENABLED t a w = Ret (w', u) ->
  enq [a] (set_tasks w (alter (fun t => with_state t Runnable) a (tasks w))) w'.
Proof.
  intros Hw Ht Hr. unfold wake_runnable in Hr.
  apply st_bind_ret in Hr as (w1 & u1 & [= <- _] & Hr). set (w1 := set_tasks w _) in Hr |- *.
  apply st_bind_ret in Hr as (w2 & u2 & Hc & Hr).
  assert (E1 : enq [] w1 w2).
  { case_in Hc; [injection Hc as <- _|apply st_ret_ret in Hc as [-> _]]; by apply quiet_enq. }
  apply st_bind_ret in Hr as (w3 & u3 & He & Hr).
  assert (E2 : enq [a] w2 w3).
  { case_in He; [apply (wake_task_enq num_cpu PREEMPTION_ENABLED _ _ SPanicked a u3); exact He|].
    by eapply wake_task_enq. }
  injection Hr as <- _.
  apply (enq_trans [a] [] _ w3); [exact (enq_trans [] [a] _ _ _ E1 E2)|]. by apply quiet_enq.
Qed.

(** A task that waits or is new becomes runnable and gets a place. *)
Lemma wake_runnable_inv w w' a t u :
  inv w -> tasks w !! a = Some t -> active (state t) = false -> live (state t) = true ->
  wake_runnable num_cpu PREEMPTION_ENABLED t a w = Ret (w', u) -> inv w'.
Proof.
  intros Hi Ht Hact Hlv Hr. destruct Hi as [[Hw H1] H2].
  pose proof (wake_runnable_enq _ _ _ _ _ Hw Ht Hr) as E. set (w1 := set_tasks w _) in E.
  set (f := fun s => mkSkel (sk_id s) (sk_scheduler s) Runnable (sk_thread s)
    (sk_locked s) (sk_done s) (sk_clustered s)).
  assert (Hsk : skel <$> tasks w1 = alter f a (skel <$> tasks w)) by (by apply fmap_alter_skel).
  eapply enq_hand_inv; [exact E| |].
  - split; [by destruct Hw|]. rewrite Hsk.
    eapply inv1_activate; [by apply skel_lookup|done|done|done|done|exact H1].
  - rewrite Hsk. apply inv2_alter; [|done]. intros s Hs. repeat (split; [done|]).
    intros Hd. pose proof (i2_done _ _ _ _ H2 _ _ Hs Hd) as Hd'.
    apply skel_lookup in Ht. simplify_eq. simpl in Hd'. by rewrite Hd' in Hlv.
Qed.

Lemma wake_inv w w' a u : inv w -> wake num_cpu PREEMPTION_ENABLED a w = Ret (w', u) -> inv w'.
Proof.
  intros Hi. unfold wake. intros Hr.
  apply st_bind_ret in Hr as (w1 & t & [-> Ht]%task_at_ret & Hr).
  assert (Hflag : forall w1 u1, upd_task a (fun t => with_need_sched t true) w = Ret (w1, u1) -> inv w1).
  { intros w1 u1 [= <- <-]. eapply enq_inv; [|exact Hi]. apply quiet_enq; [apply quiet_upd|by apply frame_upd]. }
  destruct (state t) eqn:Hs; try (by apply (Hflag w' u));
    try (by apply st_ret_ret in Hr as [-> _]);
    (eapply wake_runnable_inv; [exact Hi|exact Ht| | |exact Hr]; by rewrite Hs).
Qed.

Lemma deq_inv w w' : deq [] w w' -> inv w -> inv w'.
Proof.
  intros Hd [H1 H2]. split; [by apply (deq_hand [] [] w)|].
  destruct Hd as (_ & Hf & _). by rewrite (fr_tasks _ _ Hf), (fr_polling _ _ Hf), (fr_running _ _ Hf).
Qed.

(** An active task is not done, and one in the hand is not polled. *)
Lemma active_not_done w a t :
  inv w -> tasks w !! a = Some t -> active (state t) = true -> is_terminated t = false.
Proof.
  intros [_ H2] Ht Hact. destruct (is_terminated t) eqn:Hd; [|done].
  pose proof (i2_done _ _ _ _ H2 _ _ (skel_lookup _ _ _ Ht) Hd) as Hs. simpl in Hs.
  by rewrite Hs in Hact.
Qed.

Lemma hand_not_polled l w a c : inv_hand (a :: l) w -> polling w !! c <> Some a.
Proof.
  intros [_ [Hnd _ _ _]] Hc. simpl in Hnd. apply NoDup_cons in Hnd as [Hnd _]. apply Hnd.
  unfold placed. rewrite !elem_of_app. do 6 right. apply elem_of_polling. by exists c.
Qed.

Lemma taken_active w w' ensured cpu a :
  inv w -> taken ensured cpu a w w' ->
  exists t, tasks w !! a = Some t /\ active (state t) = true /\ is_terminated t = false /\
    forall c, polling w !! c <> Some a.
Proof.
  intros Hi Ht. destruct (hand_active [] w a (proj1 Hi)) as (t & Ha & Hact).
  { simpl. rewrite (tk_placed _ _ _ _ _ Ht). left. }
  exists t. split; [done|]. split; [done|]. split; [by eapply active_not_done|].
  intros c. rewrite <-(tk_polling _ _ _ _ _ Ht). eapply (hand_not_polled []).
  apply (taken_hand w w' ensured cpu a); [apply Hi|done].
Qed.

Lemma taken_inv2 w w' cpu a :
  inv w -> taken false cpu a w w' -> inv2 PREEMPTION_ENABLED (skel <$> tasks w') (polling w') (RUNNING w').
Proof.
  intros Hi Ht. destruct (taken_active _ _ _ _ _ Hi Ht) as (t & Ha & Hact & Hd & _).
  destruct Ht as [_ _ (st & Hst & T3) _ T5 T6]. rewrite T3, T5, (T6 t Ha).
  apply inv2_alter; [|apply Hi]. intros s Hs. repeat (split; [done|]). intros Hs'.
  apply skel_lookup in Ha. simplify_eq. by simpl in Hs'; rewrite Hd in Hs'.
Qed.

Lemma tick_cpu_inv cpu : keeps inv (tick_cpu tie cpu).
Proof.
  intros w w' u Hi Hr. unfold tick_cpu in Hr.
  apply st_bind_ret in Hr as (w1 & o & [= <- _] & Hr).
  destruct o as [i|]; [|by apply st_ret_ret in Hr as [-> _]].
  apply st_bind_ret in Hr as (w1 & o & [= <- _] & Hr).
  destruct o as [[]|]; try (by apply st_ret_ret in Hr as [-> _]).
  unfold invoke_preemption_tick in Hr.
  apply st_bind_ret in Hr as (w1 & o & [= <- _] & Hr).
  destruct o as [last|]; [|by apply st_ret_ret in Hr as [-> _]].
  apply st_bind_ret in Hr as (w1 & now & [= <- _] & Hr).
  case_in Hr; [|by apply st_ret_ret in Hr as [-> _]].
  apply st_bind_ret in Hr as (w1 & o & Hn & Hr).
  apply scheduler_get_next_task_spec in Hn; [|apply Hi].
  destruct o as [next|]; [|apply st_ret_ret in Hr as [-> _]; by eapply deq_inv].
  apply st_bind_ret in Hr as (w2 & u2 & E1%push_pending_enq & Hr).
  apply st_bind_ret in Hr as (w3 & u3 & E2%set_need_preemption_enq & Hr).
  injection Hr as <- _.
  eapply (enq_hand_inv w1); [|eapply taken_hand; [apply Hi|done]|by eapply taken_inv2].
  apply (enq_trans [next] [] _ w3); [exact (enq_trans [next] [] _ _ _ E1 E2)|]. by apply quiet_enq.
Qed.

Lemma tick_inv : keeps inv (tick num_cpu PREEMPTION_ENABLED tie).
Proof.
  unfold tick. destruct PREEMPTION_ENABLED; [|apply keeps_ret]. apply keeps_for_each.
  intros cpu. apply tick_cpu_inv.
Qed.

Lemma re_schedule_inv cpu : keeps inv (re_schedule num_cpu PREEMPTION_ENABLED cpu).
Proof.
  intros w w' u Hi Hr. unfold re_schedule in Hr.
  apply st_bind_ret in Hr as (w1 & l & [= <- <-] & Hr).
  remember (preempted w cpu) as l eqn:Hl. symmetry in Hl.
  revert w Hl Hi Hr. induction l as [|a l IH]; intros w Hl Hi Hr; simpl in Hr.
  { by apply st_ret_ret in Hr as [-> _]. }
  apply st_bind_ret in Hr as (w1 & u1 & Hw & Hr).
  apply st_bind_ret in Hw as (w2 & u2 & [= <- _] & Hw). rewrite Hl in Hw. simpl in Hw.
  pose proof (rewake_enq _ _ _ _ _ _ Hw) as He. apply (IH w1); [| |done].
  - unfold preempted. rewrite (fr_preempted _ _ (proj1 (proj2 He))). simpl.
    by rewrite lookup_insert_eq.
  - eapply enq_hand_inv; [exact He| |apply Hi]. destruct Hi as [[Hwf H1] _].
    split; [by destruct Hwf|]. simpl. eapply inv1_perm; [|exact H1]. simpl.
    unfold placed, queued, set_preempted. simpl.
    rewrite contents_insert, (contents_default (PREEMPTED_TASKS w) cpu).
    fold (preempted w cpu). rewrite Hl. solve_Permutation.
Qed.

(** The poll of the task that was taken begins: [f] is what the turn changes of
    it. *)
Lemma begin_inv w w1 w2 cpu a t f :
  inv w -> taken true cpu a w w1 -> polling w !! cpu = None -> tasks w1 !! a = Some t ->
  wfq w2 ->
  skel <$> tasks w2 = alter f a (skel <$> tasks w1) -> id_to_task w2 = id_to_task w1 ->
  placed w2 ≡ₚ a :: placed w1 ->
  polling w2 = <[cpu := a]> (polling w1) -> RUNNING w2 = <[cpu := id t]> (RUNNING w1) ->
  (forall s, sk_id (f s) = sk_id s /\ sk_state (f s) = sk_state s /\
    sk_locked (f s) = true /\ sk_done (f s) = sk_done s) ->
  sk_thread (f (skel t)) = false -> inv w2.
Proof.
  intros Hi Ht Hcpu Ha Hw2 Htk Hreg Hpl Hpol Hrun Hf Hth.
  pose proof (taken_hand _ _ _ _ _ (proj1 Hi) Ht) as [_ H1].
  destruct (taken_active _ _ _ _ _ Hi Ht) as (t0 & Ha0 & Hact & Hd & Hnp).
  destruct Ht as [_ _ (st & Hst & T3) _ T5 T6]. split.
  - split; [done|]. rewrite Htk, Hreg. apply inv1_alter.
    { intros s Hs. destruct (Hf s) as (-> & -> & _). done. }
    eapply inv1_perm; [|exact H1]. by rewrite Hpl.
  - set (g := fun s => mkSkel _ _ st _ _ _ _) in T3.
    pose proof (skel_lookup _ _ _ Ha) as Ha'. rewrite T3 in Ha'.
    rewrite (alter_lookup _ _ _ _ a (skel_lookup _ _ _ Ha0)), decide_True in Ha' by done.
    apply (inj Some) in Ha'. assert (id t = id t0) as Hid.
    { change (sk_id (skel t) = sk_id (g (skel t0))). by rewrite Ha'. }
    rewrite Htk, T3, list_alter_alter_eq, Hpol, Hrun, T5, (T6 t0 Ha0), insert_insert_eq, Hid.
    destruct (Hf (g (skel t0))) as (F1 & _ & F3 & F4).
    apply (inv2_begin _ _ _ _ _ (skel t0)); try done; try apply Hi.
    + by apply skel_lookup.
    + unfold compose. by rewrite Ha'.
    + unfold compose. by rewrite F4.
Qed.

(** What is known of the task that was taken. *)
Lemma taken_task w w1 cpu a :
  inv w -> taken true cpu a w w1 ->
  exists t, tasks w1 !! a = Some t /\ active (state t) = true /\ is_terminated t = false /\
    locked t = thread t /\ (thread t = true -> PREEMPTION_ENABLED = true) /\
    RUNNING w1 = <[cpu := id t]> (RUNNING w1).
Proof.
  intros Hi Ht. pose proof (taken_hand _ _ _ _ _ (proj1 Hi) Ht) as H2.
  destruct (taken_active _ _ _ _ _ Hi Ht) as (t0 & Ha0 & _ & Hd & Hnp).
  destruct (hand_active _ _ a H2) as (t & Ha & Hact); [left|].
  exists t. split; [done|]. split; [done|].
  destruct (tk_tasks _ _ _ _ _ Ht) as (st & _ & T3).
  pose proof (skel_lookup _ _ _ Ha) as Hs. rewrite T3 in Hs.
  rewrite (alter_lookup _ _ _ _ a (skel_lookup _ _ _ Ha0)), decide_True in Hs by done.
  injection Hs as Es1 Es2 Es3 Es4 Es5 Es6 Es7.
  rewrite (tk_running _ _ _ _ _ Ht _ Ha0), insert_insert_eq, <-Es1, <-Es4, <-Es5, <-Es6.
  split; [done|]. split; [|split; [|done]].
  - pose proof (i2_lock _ _ _ _ (proj2 Hi) _ _ (skel_lookup _ _ _ Ha0)) as Hlk. simpl in Hlk.
    destruct (locked t0), (thread t0); naive_solver.
  - intros Hth. by destruct (i2_thread _ _ _ _ (proj2 Hi) _ _ (skel_lookup _ _ _ Ha0) Hth).
Qed.

Lemma resume_inv w w1 w' cpu a t now :
  inv w -> taken true cpu a w w1 -> polling w !! cpu = None ->
  tasks w1 !! a = Some t -> thread t = true ->
  w' = set_polling (set_tasks w1 (alter (fun t => with_last_executed_time (with_thread t false) now)
    a (tasks w1))) (<[cpu := a]> (polling w1)) ->
  inv w'.
Proof.
  intros Hi Ht Hcpu Ha Hth ->.
  destruct (taken_task _ _ _ _ Hi Ht) as (t' & Ha' & Hact & Hd & Hlk & _ & Hrun).
  assert (t' = t) as -> by congruence. pose proof (tk_wfq _ _ _ _ _ Ht) as Hwf.
  eapply (begin_inv w w1 _ cpu a t (fun s => mkSkel (sk_id s) (sk_scheduler s) (sk_state s) false
    true (sk_done s) (sk_clustered s))); try done; simpl.
  - by destruct Hwf.
  - apply list_eq. intros b. rewrite list_lookup_fmap.
    rewrite (alter_lookup (skel <$> tasks w1) a _ _ b (skel_lookup _ _ _ Ha)).
    case_decide as Hb; [subst b; rewrite list_lookup_alter_eq, Ha; simpl; f_equal|].
    + unfold skel. simpl. by rewrite Hlk, Hth.
    + by rewrite list_lookup_alter_ne, list_lookup_fmap.
  - unfold placed, queued. simpl. rewrite polling_insert; [solve_Permutation|].
    by rewrite (tk_polling _ _ _ _ _ Ht).
Qed.

Lemma begin_poll_inv w w1 w' cpu a turn t :
  inv w -> taken true cpu a w w1 -> polling w !! cpu = None ->
  tasks w1 !! a = Some t -> thread t = false ->
  begin_poll num_cpu PREEMPTION_ENABLED cpu a w1 = Ret (w', turn) ->
  inv w' /\ turn = TPoll a.
Proof.
  intros Hi Ht Hcpu Ha Hth Hr.
  destruct (taken_task _ _ _ _ Hi Ht) as (t' & Ha' & Hact & Hd & Hlk & _ & Hrun).
  assert (t' = t) as -> by congruence. pose proof (tk_wfq _ _ _ _ _ Ht) as Hwf.
  unfold begin_poll in Hr. apply st_bind_ret in Hr as (w2 & t' & [-> Ht']%task_at_ret & Hr).
  assert (t' = t) as -> by congruence. rewrite Hlk, Hth, Hd in Hr.
  rewrite (bool_decide_eq_false_2 (state t = Terminated)) in Hr by (by intros E; rewrite E in Hact).
  rewrite (bool_decide_eq_false_2 (state t = Panicked)) in Hr by (by intros E; rewrite E in Hact).
  revert Hr. simpl. unfold upd_task, set_current_task. sbind. intros [= <- <-]. split; [|done].
  eapply (begin_inv w w1 _ cpu a t (fun s => mkSkel (sk_id s) (sk_scheduler s) (sk_state s)
    (sk_thread s) true (sk_done s) (sk_clustered s))); try done; simpl.
  - by destruct Hwf.
  - by apply fmap_alter_skel.
  - unfold placed, queued. simpl. rewrite polling_insert; [solve_Permutation|].
    by rewrite (tk_polling _ _ _ _ _ Ht).
Qed.

Lemma run_main_inv w w' cpu turn :
  polling w !! cpu = None -> inv w ->
  run_main num_cpu PREEMPTION_ENABLED tie cpu w = Ret (w', turn) ->
  inv w' /\ turn <> TContinue.
Proof.
  intros Hcpu Hi Hr. unfold run_main in Hr.
  apply st_bind_ret in Hr as (w0 & w0' & [= <- <-] & Hr).
  apply st_bind_ret in Hr as (w1 & u1 & Hp & Hr).
  assert (E1 : enq [] w w1).
  { case_in Hp; [by eapply rewake_pending_enq|]. apply st_ret_ret in Hp as [-> _]. by apply quiet_enq. }
  pose proof (enq_inv _ _ E1 Hi) as Hi1.
  rewrite <-(fr_polling _ _ (proj1 (proj2 E1))) in Hcpu.
  apply st_bind_ret in Hr as (w2 & o & Hn & Hr).
  apply get_next_task_spec in Hn; [|apply Hi1].
  destruct o as [a|]; [|apply st_ret_ret in Hr as [-> ->]; split; [by eapply deq_inv|done]].
  apply st_bind_ret in Hr as (w3 & u3 & Hw3 & Hr).
  assert (Ht : taken true cpu a w1 w3) by (injection Hw3 as <- _; by eapply taken_quiet).
  clear Hn Hw3. destruct (taken_task _ _ _ _ Hi1 Ht) as (t & Ha & _ & _ & _ & Hpe & _).
  apply st_bind_ret in Hr as (w4 & t' & [-> Ha']%task_at_ret & Hr).
  assert (t' = t) as -> by congruence. case_in Hr.
  - apply andb_true_iff in Heqb as [_ Hth].
    apply st_bind_ret in Hr as (w4 & now & [= <- _] & Hr).
    apply st_bind_ret in Hr as (w4 & u4 & [= <- _] & Hr).
    apply st_bind_ret in Hr as (w5 & u5 & [= <- _] & Hr).
    apply st_bind_ret in Hr as (w5 & u6 & Hre & Hr). apply st_ret_ret in Hr as [-> ->].
    split; [|done]. eapply (re_schedule_inv cpu); [|exact Hre]. by eapply (resume_inv w1 w3).
  - assert (Hth : thread t = false).
    { destruct (thread t); [|done]. by rewrite Hpe in Heqb. }
    by destruct (begin_poll_inv _ _ _ _ _ _ _ Hi1 Ht Hcpu Ha Hth Hr) as [? ->].
Qed.

(** What is known of a task that is polled. *)
Lemma polled_task w cpu a :
  inv w -> polling w !! cpu = Some a ->
  exists t, tasks w !! a = Some t /\ active (state t) = true /\ is_terminated t = false /\
    thread t = false /\ locked t = true /\ running w cpu = id t /\
    id_to_task w !! id t = Some a /\ id t <> 0.
Proof.
  intros Hi Hcpu. destruct (hand_active [] w a (proj1 Hi)) as (t & Ha & Hact).
  { simpl. unfold placed. rewrite !elem_of_app. do 5 right. apply elem_of_polling. by exists cpu. }
  pose proof (skel_lookup _ _ _ Ha) as Hs.
  exists t. split; [done|]. split; [done|]. split; [by eapply active_not_done|].
  assert (Hreg : id_to_task w !! id t = Some a).
  { apply (i1_live _ _ _ (proj2 (proj1 Hi)) a (skel t) Hs). by apply active_live. }
  split; [|split; [|split; [|split; [done|]]]].
  - destruct (thread t) eqn:Hth; [|done].
    destruct (i2_thread _ _ _ _ (proj2 Hi) _ _ Hs Hth) as (_ & _ & Hc). by destruct (Hc cpu).
  - apply (i2_lock _ _ _ _ (proj2 Hi) _ _ Hs). left. by exists cpu.
  - by apply (i2_poll _ _ _ _ (proj2 Hi) cpu a (skel t)).
  - by apply (i1_reg _ _ _ (proj2 (proj1 Hi)) (id t) a).
Qed.

Lemma placed_polling_nodup w : inv w -> NoDup (map_to_list (polling w)).*2.
Proof.
  intros [[_ [Hnd _ _ _]] _]. simpl in Hnd. unfold placed in Hnd.
  by do 5 apply NoDup_app in Hnd as (_ & _ & Hnd).
Qed.

Lemma end_inv w w' cpu a t st d :
  inv w -> polling w !! cpu = Some a -> tasks w !! a = Some t -> wfq w' ->
  skel <$> tasks w' = alter (fun s => mkSkel (sk_id s) (sk_scheduler s) st (sk_thread s) false d
    (sk_clustered s)) a (skel <$> tasks w) ->
  placed w ≡ₚ a :: placed w' ->
  polling w' = base.delete cpu (polling w) -> RUNNING w' = <[cpu := 0]> (RUNNING w) ->
  (d = true -> st = Terminated) ->
  st = Waiting /\ id_to_task w' = id_to_task w \/
  live st = false /\ id_to_task w' = base.delete (id t) (id_to_task w) ->
  inv w'.
Proof.
  intros Hi Hcpu Ha Hwf Htk Hpl Hpol Hrun Hd Hreg.
  destruct (polled_task _ _ _ Hi Hcpu) as (t' & Ha' & Hact & Hdn & Hth & _).
  assert (t' = t) as -> by congruence. pose proof (skel_lookup _ _ _ Ha) as Hs. split.
  - split; [done|]. rewrite Htk. simpl.
    assert (H1 : inv1 (skel <$> tasks w) (id_to_task w) (a :: placed w')).
    { eapply inv1_perm; [|apply Hi]. by rewrite Hpl. }
    destruct Hreg as [[-> ->]|[Hlv ->]].
    + by eapply inv1_deactivate.
    + change (id t) with (sk_id (skel t)). by eapply inv1_finish.
  - rewrite Htk, Hpol, Hrun. eapply inv2_stop; try done; try apply Hi; simpl.
    + by apply placed_polling_nodup.
    + by rewrite Hth.
Qed.

(** The state when a poll has ended, before its result is looked at. *)
Definition ended w cpu a (r : PollResult) : World C Q :=
  set_RUNNING (set_tasks (set_polling w (base.delete cpu (polling w)))
    (alter (fun t => with_is_terminated (with_locked t false)
      (is_terminated t || match r with RReady => true | _ => false end)) a (tasks w)))
    (<[cpu := 0]> (RUNNING w)).

Lemma ended_inv w w2 cpu a t r st :
  inv w -> polling w !! cpu = Some a -> tasks w !! a = Some t ->
  (r = RReady -> st = Terminated) ->
  tasks w2 = alter (fun t => with_state t st) a (tasks (ended w cpu a r)) ->
  quiet (ended w cpu a r) w2 -> RUNNING w2 = RUNNING (ended w cpu a r) ->
  st = Waiting /\ id_to_task w2 = id_to_task w \/
  live st = false /\ id_to_task w2 = base.delete (id t) (id_to_task w) -> inv w2.
Proof.
  intros Hi Hcpu Ha Hst Htk Hq Hrun Hreg.
  destruct (polled_task _ _ _ Hi Hcpu) as (t' & Ha' & _ & Hdn & _).
  assert (t' = t) as -> by congruence.
  eapply (end_inv w w2 cpu a t st (match r with RReady => true | _ => false end)); try done.
  - apply (quiet_wfq _ _ Hq). by destruct Hi as [[[] _] _].
  - rewrite Htk. unfold ended. simpl. rewrite list_alter_alter_eq.
    apply list_eq. intros b. rewrite list_lookup_fmap.
    rewrite (alter_lookup (skel <$> tasks w) a _ _ b (skel_lookup _ _ _ Ha)).
    case_decide as Hb; [subst b; rewrite list_lookup_alter_eq, Ha; simpl; f_equal|].
    + unfold skel. simpl. by rewrite Hdn.
    + by rewrite list_lookup_alter_ne, list_lookup_fmap.
  - rewrite (quiet_placed _ _ Hq). unfold ended, placed, queued. simpl.
    rewrite (polling_delete _ _ _ Hcpu). solve_Permutation.
  - by rewrite (qt_polling _ _ Hq).
  - intros Hd. apply Hst. by destruct r.
Qed.

(** The task waits, ready to be woken. *)
Definition waiting w cpu a : World C Q :=
  set_tasks (ended w cpu a RPending)
    (alter (fun t => with_state t Waiting) a (tasks (ended w cpu a RPending))).

Lemma waiting_inv w cpu a :
  inv w -> polling w !! cpu = Some a ->
  inv (waiting w cpu a) /\
  inv (set_tasks (waiting w cpu a) (alter (fun t => with_need_sched t false) a (tasks (waiting w cpu a)))).
Proof.
  intros Hi Hcpu. destruct (polled_task _ _ _ Hi Hcpu) as (t & Ha & _).
  assert (Hi2 : inv (waiting w cpu a)).
  { apply (ended_inv w _ cpu a t RPending Waiting); try done. by left. }
  split; [done|]. eapply enq_inv; [|exact Hi2]. apply quiet_enq; [apply quiet_upd|by apply frame_upd].
Qed.

(** What the end of a poll comes to. *)
Lemma end_poll_cases w w' cpu a r u :
  end_poll num_cpu PREEMPTION_ENABLED cpu a r w = Ret (w', u) ->
  exists t, tasks w !! a = Some t /\
  let w1 := ended w cpu a r in
  let finished st := set_id_to_task
    (set_tasks w1 (alter (fun t => with_state t st) a (tasks w1)))
    (base.delete (id t) (id_to_task w1)) in
  match r with
  | RPending => w' = waiting w cpu a \/
      wake num_cpu PREEMPTION_ENABLED a (set_tasks (waiting w cpu a)
        (alter (fun t => with_need_sched t false) a (tasks (waiting w cpu a)))) = Ret (w', u)
  | RReady => w' = finished Terminated
  | RPanic => w' = finished Panicked
  end.
Proof.
  intros Hr. unfold end_poll in Hr.
  apply st_bind_ret in Hr as (w0 & t & [-> Ha]%task_at_ret & Hr).
  apply st_bind_ret in Hr as (w1 & u1 & [= <- _] & Hr).
  apply st_bind_ret in Hr as (w1 & u2 & [= <- _] & Hr).
  apply st_bind_ret in Hr as (w1 & rid & [= <- _] & Hr).
  apply st_bind_ret in Hr as (w1 & u3 & [= <- _] & Hr).
  apply st_bind_ret in Hr as (w1 & u4 & [-> _]%lift_ret & Hr).
  exists t. split; [done|]. simpl. destruct r.
  - apply st_bind_ret in Hr as (w2 & u5 & [= <- _] & Hr).
    apply st_bind_ret in Hr as (w3 & t' & [-> Ht']%task_at_ret & Hr).
    case_in Hr; [right|left; by apply st_ret_ret in Hr as [-> _]].
    by apply st_bind_ret in Hr as (w3 & u6 & [= <- _] & Hr).
  - revert Hr. unfold upd_task, remove. sbind. by intros [= <- _].
  - revert Hr. unfold upd_task, remove. sbind. by intros [= <- _].
Qed.

Lemma end_poll_inv w w' cpu a r u :
  polling w !! cpu = Some a -> inv w ->
  end_poll num_cpu PREEMPTION_ENABLED cpu a r w = Ret (w', u) -> inv w'.
Proof.
  intros Hcpu Hi Hr. apply end_poll_cases in Hr as (t & Ha & Hr). simpl in Hr.
  destruct (waiting_inv _ _ _ Hi Hcpu) as [Hw1 Hw2]. destruct r.
  - destruct Hr as [->|Hr]; [done|]. by eapply wake_inv.
  - subst w'. apply (ended_inv w _ cpu a t RReady Terminated); try done. by right.
  - subst w'. apply (ended_inv w _ cpu a t RPanic Panicked); try done. by right.
Qed.

(** ** Preemption *)

Lemma st_if {W A} (b : bool) (m m' : st W A) (w : W) r :
  (if b then m else m') w = r -> b = true /\ m w = r \/ b = false /\ m' w = r.
Proof. destruct b; auto. Qed.

Lemma pending_placed w cpu : pending w cpu ⊆+ placed w.
Proof.
  unfold placed, queued. rewrite (contents_default (PREEMPTION_PENDING_TASKS w) cpu).
  fold (pending w cpu). do 2 apply submseteq_inserts_l. apply submseteq_inserts_r.
  by apply submseteq_inserts_r.
Qed.

Lemma filter_all {A} (P : A -> Prop) `{!forall x, Decision (P x)} (l : list A) :
  (forall x, x ∈ l -> P x) -> filter P l = l.
Proof.
  induction l as [|x l IH]; intros Hl; [done|]. rewrite filter_cons_True by (apply Hl; left).
  f_equal. apply IH. intros y Hy. apply Hl. by right.
Qed.

Lemma heap_ids w cpu next n :
  inv_hand [] w -> next ∈ pending w cpu -> tasks w !! next = Some n ->
  pending w cpu ≡ₚ next :: filter (fun a => (key w a).2 <> id n) (pending w cpu).
Proof.
  intros Hi Hin Hn. pose proof (remove_one_perm _ _ Hin) as Hp.
  pose proof (pending_placed w cpu) as Hpl.
  assert (Hkey : forall b, b ∈ pending w cpu -> b <> next -> (key w b).2 <> id n).
  { intros b Hb Hne Hk. apply Hne.
    assert (HbP : b ∈ [] ++ placed w) by (by eapply elem_of_submseteq).
    assert (HnP : next ∈ [] ++ placed w) by (by eapply elem_of_submseteq).
    destruct (hand_active [] w b Hi HbP) as (tb & Htb & _). unfold key in Hk. rewrite Htb in Hk.
    by apply (inv1_id_inj _ _ _ b next (skel tb) (skel n) (proj2 Hi)); try apply skel_lookup. }
  assert (Hnd : NoDup (next :: remove_one next (pending w cpu))).
  { rewrite <-Hp. apply submseteq_Permutation in Hpl as [k Hk].
    destruct Hi as [_ [Hnd _ _ _]]. simpl in Hnd. rewrite Hk in Hnd. by apply NoDup_app in Hnd as [? _]. }
  apply NoDup_cons in Hnd as [Hnn _]. rewrite Hp at 1. f_equiv.
  rewrite Hp at 2. rewrite filter_cons_False.
  2:{ unfold key. rewrite Hn. simpl. naive_solver. }
  rewrite filter_all; [done|]. intros b Hb. apply Hkey; [|set_solver].
  rewrite Hp. by right.
Qed.

Lemma remove_pending_deq w w' cpu next n u :
  inv_hand [] w -> next ∈ pending w cpu -> tasks w !! next = Some n ->
  remove_preemption_pending cpu (id n) w = Ret (w', u) -> deq [next] w w'.
Proof.
  intros Hi Hin Hn [= <- _]. pose proof (heap_ids _ _ _ _ Hi Hin Hn) as Hp.
  unfold pending in Hin, Hp. destruct (PREEMPTION_PENDING_TASKS w !! cpu) as [heap|] eqn:Hh.
  2:{ by apply not_elem_of_nil in Hin. }
  split; [by intros []|]. split; [done|]. intros _. unfold placed, queued, set_pending. simpl.
  rewrite contents_insert, (contents_default (PREEMPTION_PENDING_TASKS w) cpu), Hh. simpl in *.
  rewrite Hp at 1. solve_Permutation.
Qed.

(** The skeleton of a task that is preempted, and of one whose context is taken. *)
Definition sk_preempt (s : Skel) : Skel :=
  mkSkel (sk_id s) (sk_scheduler s) Preempted true (sk_locked s) (sk_done s) (sk_clustered s).
Definition sk_resume (s : Skel) : Skel :=
  mkSkel (sk_id s) (sk_scheduler s) (sk_state s) false (sk_locked s) (sk_done s) (sk_clustered s).

(** The state after [yield_preempted_and_wake_task] has switched. *)
Definition switched w cpu cu (pol : gmap nat nat) : World C Q :=
  set_polling (set_NUM_PREEMPTION (set_preempted
    (set_tasks w (alter (fun t => with_num_preempt (with_state (with_thread t true) Preempted)
      (wrap 64 (num_preempt t + 1))) cu (tasks w)))
    cpu (cu :: preempted w cpu)) (wrap 64 (NUM_PREEMPTION w + 1))) pol.

Lemma yield_switched w w' cpu cu resumed u :
  yield_preempted_and_wake_task num_cpu PREEMPTION_ENABLED cpu cu resumed w = Ret (w', u) ->
  re_schedule num_cpu PREEMPTION_ENABLED cpu (switched w cpu cu
    (match resumed with
     | Some a => <[cpu := a]> (polling w)
     | None => base.delete cpu (polling w)
     end)) = Ret (w', u).
Proof.
  unfold yield_preempted_and_wake_task. intros Hr.
  apply st_bind_ret in Hr as (w1 & t & [-> _]%task_at_ret & Hr).
  apply st_bind_ret in Hr as (w1 & u1 & [-> _]%lift_ret & Hr).
  exact Hr.
Qed.

Lemma switched_skel w cpu cu pol :
  skel <$> tasks (switched w cpu cu pol) = alter sk_preempt cu (skel <$> tasks w).
Proof. unfold switched. simpl. by apply fmap_alter_skel. Qed.

(** The facts about a world in which [next] has been taken to replace [cu]. *)
Record replacing w w1 cpu cu next : Prop := mkReplacing {
  rp_inv : inv w;
  rp_poll : polling w !! cpu = Some cu;
  rp_hand : inv_hand [next] w1;
  rp_tasks : skel <$> tasks w1 = skel <$> tasks w;
  rp_polling : polling w1 = polling w;
  rp_running : forall n, tasks w1 !! next = Some n -> RUNNING w1 = <[cpu := id n]> (RUNNING w)
}.

Lemma replacing_ne w w1 cpu cu next : replacing w w1 cpu cu next -> cu <> next.
Proof.
  intros [_ Hp Hh _ Hpol _] ->. apply (hand_not_polled [] w1 next cpu Hh). by rewrite Hpol.
Qed.

Lemma replacing_stop w w1 cpu cu next n :
  PREEMPTION_ENABLED = true -> replacing w w1 cpu cu next -> tasks w1 !! next = Some n ->
  inv2 PREEMPTION_ENABLED (alter sk_preempt cu (skel <$> tasks w)) (base.delete cpu (polling w))
    (<[cpu := id n]> (RUNNING w)).
Proof.
  intros Hpe [Hi Hp _ _ _ _] Hn.
  destruct (polled_task _ _ _ Hi Hp) as (t & Ha & Hact & Hd & Hth & Hlk & _).
  apply (inv2_stop _ _ _ _ cu (skel t)); try apply Hi; try done; simpl.
  - by apply skel_lookup.
  - by apply placed_polling_nodup.
  - by rewrite Hd.
Qed.

Lemma preempt_inv1 w w1 cpu cu next :
  replacing w w1 cpu cu next ->
  inv1 (alter sk_preempt cu (skel <$> tasks w1)) (id_to_task w1) (next :: placed w1).
Proof.
  intros [Hi Hp [Hw H1] Htk _ _]. apply inv1_alter; [|exact H1]. intros s Hs. split; [done|].
  destruct (polled_task _ _ _ Hi Hp) as (t & Ha & Hact & _).
  rewrite Htk, (skel_lookup _ _ _ Ha) in Hs. injection Hs as <-. simpl.
  by rewrite Hact, (active_live _ Hact).
Qed.

(** [next] runs on a worker thread, which takes it from [NEXT_TASK]. *)
Lemma switch_next_inv w w1 cpu cu next n :
  PREEMPTION_ENABLED = true -> replacing w w1 cpu cu next -> tasks w1 !! next = Some n ->
  let w2 := set_NEXT_TASK w1 (<[cpu := next_task w1 cpu ++ [next]]> (NEXT_TASK w1)) in
  inv (switched w2 cpu cu (base.delete cpu (polling w2))).
Proof.
  intros Hpe Hrp Hn w2. pose proof (replacing_stop _ _ _ _ _ _ Hpe Hrp Hn) as H2.
  pose proof (preempt_inv1 _ _ _ _ _ Hrp) as H1.
  destruct Hrp as [Hi Hp [Hwf _] Htk Hpol Hrun]. split.
  - split; [by destruct Hwf|]. rewrite switched_skel. eapply inv1_perm; [|exact H1].
    rewrite <-Hpol in Hp. unfold switched, w2, placed, queued. simpl.
    rewrite !contents_insert, (contents_default (NEXT_TASK w1) cpu),
      (contents_default (PREEMPTED_TASKS w1) cpu), (polling_delete _ _ _ Hp).
    unfold next_task, preempted. simpl. solve_Permutation.
  - rewrite switched_skel. simpl. rewrite Htk, Hpol, (Hrun n Hn). exact H2.
Qed.

(** [next] goes on where it was preempted. *)
Lemma switch_resume_inv w w1 cpu cu next n :
  PREEMPTION_ENABLED = true -> replacing w w1 cpu cu next -> tasks w1 !! next = Some n ->
  thread n = true ->
  let w2 := set_tasks w1 (alter (fun t => with_thread t false) next (tasks w1)) in
  inv (switched w2 cpu cu (<[cpu := next]> (polling w2))).
Proof.
  intros Hpe Hrp Hn Hth w2. pose proof (replacing_stop _ _ _ _ _ _ Hpe Hrp Hn) as H2.
  pose proof (preempt_inv1 _ _ _ _ _ Hrp) as H1. pose proof (replacing_ne _ _ _ _ _ Hrp) as Hne.
  destruct Hrp as [Hi Hp Hh Htk Hpol Hrun].
  assert (Hsk : skel <$> tasks (switched w2 cpu cu (<[cpu := next]> (polling w2))) =
    alter sk_resume next (alter sk_preempt cu (skel <$> tasks w))).
  { rewrite switched_skel, <-Htk. unfold w2. simpl.
    rewrite (fmap_alter_skel _ sk_resume) by done. by rewrite list_alter_alter_ne. }
  pose proof (skel_lookup _ _ _ Hn) as Hs. rewrite Htk in Hs.
  assert (Hs' : alter sk_preempt cu (skel <$> tasks w) !! next = Some (skel n)).
  { by rewrite list_lookup_alter_ne. }
  pose proof (i2_lock _ _ _ _ (proj2 Hi) _ _ Hs) as Hlk.
  split.
  - split; [by destruct Hh as [[] _]|]. rewrite Hsk. apply inv1_alter; [done|].
    rewrite <-Htk. eapply inv1_perm; [|exact H1].
    rewrite <-Hpol in Hp. unfold switched, w2, placed, queued. simpl.
    rewrite !contents_insert, (contents_default (PREEMPTED_TASKS w1) cpu).
    rewrite <-insert_delete_eq, polling_insert by apply lookup_delete_eq.
    rewrite (polling_delete _ _ _ Hp). unfold preempted. simpl. solve_Permutation.
  - rewrite Hsk. simpl. rewrite Hpol, (Hrun n Hn), <-insert_delete_eq,
      <-(insert_insert_eq (RUNNING w) cpu (id n) (id n)).
    apply (inv2_begin _ _ _ _ _ (skel n)); try done.
    + apply lookup_delete_eq.
    + intros c [_ Hc]%lookup_delete_Some.
      by apply (hand_not_polled [] w1 next c Hh); rewrite Hpol.
    + apply Hlk. by right.
    + destruct (hand_active _ _ next Hh) as (n' & Hn' & Hact); [left|].
      assert (n' = n) as -> by congruence. simpl.
      destruct (is_terminated n) eqn:Hd; [|done].
      pose proof (i2_done _ _ _ _ (proj2 Hi) _ _ Hs Hd) as E. simpl in E. by rewrite E in Hact.
Qed.

Lemma switch_to_pending_inv w w' cpu cu u :
  PREEMPTION_ENABLED = true -> inv w -> polling w !! cpu = Some cu ->
  switch_to_pending num_cpu PREEMPTION_ENABLED cpu true (running w cpu) w = Ret (w', u) -> inv w'.
Proof.
  intros Hpe Hi Hp Hr. unfold switch_to_pending in Hr.
  apply st_bind_ret in Hr as (w1 & o & Hm & Hr). revert Hm. unfold move_preemption_pending. sbind.
  intros [= <- <-]. set (w1 := set_PREEMPTION_PENDING_TASKS w _) in Hr.
  apply st_bind_ret in Hr as (w2 & heap & [-> Hh]%lift_ret & Hr).
  destruct (PREEMPTION_PENDING_TASKS w !! cpu) as [heap'|] eqn:Hheap; [|done].
  injection Hh as ->.
  apply st_bind_ret in Hr as (w2 & o' & [= <- <-] & Hr).
  apply st_bind_ret in Hr as (w2 & next & [-> Hnx]%lift_ret & Hr).
  destruct (heap_peek w1 heap) as [next'|] eqn:Hpk; [|done]. injection Hnx as ->.
  apply heap_peek_elem in Hpk. apply remove_one_perm in Hpk.
  apply st_bind_ret in Hr as (w2 & n & [-> Hn]%task_at_ret & Hr). simpl in Hn.
  apply st_bind_ret in Hr as (w2 & u2 & [= <- _] & Hr). set (w2 := set_RUNNING w1 _) in Hr.
  apply st_bind_ret in Hr as (w3 & u3 & Hall & Hr).
  pose proof (Permutation_length Hpk) as Hlen. simpl in Hlen.
  apply rewake_all_enq in Hall; [|lia].
  assert (Hh2 : inv_hand (remove_one next heap ++ [next]) w2).
  { destruct Hi as [[Hwf H1] _]. split; [by destruct Hwf|]. eapply inv1_perm; [|exact H1].
    unfold w2, w1, placed, queued. simpl.
    rewrite (contents_default (PREEMPTION_PENDING_TASKS w) cpu), Hheap. simpl.
    rewrite Hpk at 1. solve_Permutation. }
  pose proof (enq_hand _ _ _ _ Hall Hh2) as Hh3. destruct Hall as (_ & Hf & _).
  assert (Hrp : replacing w w3 cpu cu next).
  { split; [done|done|done|by rewrite (fr_tasks _ _ Hf)|by rewrite (fr_polling _ _ Hf)|].
    intros n3 Hn3. rewrite (fr_running _ _ Hf). unfold w2. simpl. f_equal.
    apply skel_lookup in Hn3. rewrite (fr_tasks _ _ Hf) in Hn3. unfold w2 in Hn3. simpl in Hn3.
    rewrite list_lookup_fmap, Hn in Hn3. by injection Hn3 as -> _ _ _ _ _ _. }
  apply st_bind_ret in Hr as (w4 & o'' & [= <- <-] & Hr).
  apply st_bind_ret in Hr as (w4 & cu' & [-> Hcu]%lift_ret & Hr).
  destruct (polled_task _ _ _ Hi Hp) as (t & Ha & _ & _ & _ & _ & Hrun & Hreg & _).
  rewrite (fr_reg _ _ Hf), Hrun in Hcu. unfold w2, w1 in Hcu. simpl in Hcu. rewrite Hreg in Hcu.
  injection Hcu as ->. apply st_bind_ret in Hr as (w4 & n' & [-> Hn']%task_at_ret & Hr).
  case_in Hr.
  - apply st_bind_ret in Hr as (w5 & u5 & [= <- _] & Hr). apply yield_switched in Hr.
    eapply re_schedule_inv; [|exact Hr]. by eapply (switch_resume_inv w w3).
  - apply st_bind_ret in Hr as (w5 & u5 & [= <- _] & Hr). apply yield_switched in Hr.
    eapply re_schedule_inv; [|exact Hr]. by eapply (switch_next_inv w w3).
Qed.

Lemma do_preemption_inv w w' cpu u :
  PREEMPTION_ENABLED = true -> inv w -> is_Some (polling w !! cpu) \/ running w cpu = 0 ->
  do_preemption num_cpu PREEMPTION_ENABLED cpu true w = Ret (w', u) -> inv w'.
Proof.
  intros Hpe Hi Hc Hr. unfold do_preemption in Hr.
  apply st_bind_ret in Hr as (w1 & o & [= <- <-] & Hr).
  destruct (peek_pending w cpu) as [next|] eqn:Hpk; [|by apply st_ret_ret in Hr as [-> _]].
  apply heap_peek_elem in Hpk.
  apply st_bind_ret in Hr as (w1 & n & [-> Hn]%task_at_ret & Hr).
  assert (Hback : forall w1, (remove_preemption_pending cpu (id n);;
    rewake num_cpu PREEMPTION_ENABLED next) w = Ret (w1, u) -> inv w1).
  { intros w1 Hb. apply st_bind_ret in Hb as (w2 & u2 & Hrm & Hb%rewake_enq).
    eapply remove_pending_deq in Hrm; [|apply Hi|done|done].
    eapply enq_inv; [|exact Hi]. by eapply deq_enq. }
  apply st_bind_ret in Hr as (w1 & c & [= <- <-] & Hr).
  destruct (running w cpu =? 0) eqn:Hz; [by apply Hback|].
  apply Z.eqb_neq in Hz. destruct Hc as [[cu Hcu]|?]; [|done].
  apply st_bind_ret in Hr as (w1 & o' & [= <- <-] & Hr).
  apply st_bind_ret in Hr as (w1 & cu' & [-> _]%lift_ret & Hr).
  apply st_bind_ret in Hr as (w1 & t & [-> _]%task_at_ret & Hr).
  apply st_bind_ret in Hr as (w1 & w2 & [= <- <-] & Hr).
  case_in Hr; [by apply Hback|]. by eapply switch_to_pending_inv.
Qed.

Lemma preemption_inv w w' cpu u :
  PREEMPTION_ENABLED = true -> inv w -> is_Some (polling w !! cpu) \/ running w cpu = 0 ->
  preemption num_cpu PREEMPTION_ENABLED cpu true w = Ret (w', u) -> inv w'.
Proof.
  intros Hpe Hi Hc Hr. unfold preemption in Hr.
  apply st_bind_ret in Hr as (w1 & u1 & [= <- _] & Hr).
  eapply do_preemption_inv; [done| | |exact Hr]; [|exact Hc].
  eapply enq_inv; [|exact Hi]. by apply quiet_enq.
Qed.

Lemma panicking_inv w w' cpu u :
  inv w -> is_Some (polling w !! cpu) ->
  panicking num_cpu PREEMPTION_ENABLED cpu true w = Ret (w', u) -> inv w'.
Proof.
  intros Hi Hc Hr. unfold panicking in Hr.
  apply st_bind_ret in Hr as (w1 & c & [= <- <-] & Hr).
  case_in Hr; [by apply st_ret_ret in Hr as [-> _]|].
  apply st_bind_ret in Hr as (w1 & o & [= <- <-] & Hr).
  destruct (id_to_task w !! _) as [a|]; [|by apply st_ret_ret in Hr as [-> _]].
  apply st_bind_ret in Hr as (w1 & u1 & [= <- _] & Hr).
  set (w1 := set_tasks w _) in Hr.
  assert (Hi1 : inv w1).
  { eapply enq_inv; [|exact Hi]. apply quiet_enq; [apply quiet_upd|by apply frame_upd]. }
  apply st_if in Hr as [[Hpe Hr]|[_ Hr]]; [|by apply st_ret_ret in Hr as [-> _]].
  eapply preemption_inv; [done|exact Hi1| |exact Hr]. by left.
Qed.

(** ** Spawning *)

Lemma find_id_spec fuel m i j :
  0 <= i < 2 ^ 32 -> find_id fuel m i = Some j -> m !! j = None /\ 0 < j < 2 ^ 32.
Proof.
  revert i. induction fuel as [|fuel IH]; intros i Hi; simpl; [done|].
  set (i' := if i =? 0 then 1 else i).
  assert (Hi' : 0 < i' < 2 ^ 32) by (unfold i'; destruct (Z.eqb_spec i 0); lia).
  destruct (m !! i') eqn:Hm; [|by intros [= <-]]. apply IH. apply wrap_uint. lia.
Qed.

Lemma find_id_total m i :
  0 <= i < 2 ^ 32 -> Z.of_nat (size m) < 2 ^ 32 - 1 ->
  exists j, find_id (S (size m)) m i = Some j.
Proof.
  intros Hi Hsz. set (P := 2 ^ 32 - 1) in *. set (i' := if i =? 0 then 1 else i).
  assert (Hi' : 1 <= i' <= P) by (unfold i', P; destruct (Z.eqb_spec i 0); lia).
  destruct (cyc_unused m P i' Hsz) as (k & Hk & Hm).
  assert (Hfind : forall k fuel i, 0 <= i < 2 ^ 32 -> (k < fuel)%nat ->
    m !! cyc P (if i =? 0 then 1 else i) k = None -> exists j, find_id fuel m i = Some j).
  { clear. intros k. induction k as [|k IH]; intros [|fuel] i Hi Hf Hm; try lia; simpl.
    - set (i' := if i =? 0 then 1 else i) in *.
      rewrite cyc_0 in Hm by (unfold i', P; destruct (Z.eqb_spec i 0); lia). rewrite Hm. eauto.
    - set (i' := if i =? 0 then 1 else i) in *.
      assert (Hi' : 1 <= i' <= P) by (unfold i', P; destruct (Z.eqb_spec i 0); lia).
      destruct (m !! i') eqn:Hm'; [|eauto]. apply IH; [apply wrap_uint; lia|lia|].
      replace (if wrap 32 (i' + 1) =? 0 then 1 else wrap 32 (i' + 1))
        with (if i' =? P then 1 else i' + 1); [by rewrite cyc_next|].
      unfold wrap, P in *. destruct (Z.eqb_spec i' (2 ^ 32 - 1)) as [->|Hn]; [done|].
      rewrite Z.mod_small by lia. destruct (Z.eqb_spec (i' + 1) 0); lia. }
  eapply (Hfind k); [done|lia|exact Hm].
Qed.

Lemma tasks_spawn_inv w w' s t d i :
  inv w -> tasks_spawn num_cpu s t d w = Ret (w', i) -> inv w'.
Proof.
  intros Hi Hr. unfold tasks_spawn in Hr.
  apply st_bind_ret in Hr as (w1 & o & [-> ->]%gets_ret & Hr).
  apply st_bind_ret in Hr as (w1 & j & [-> Hj]%lift_ret & Hr).
  destruct (find_id _ _ _) as [j'|] eqn:Hf; [|done]. injection Hj as ->.
  apply find_id_spec in Hf as [Hn Hb]; [|apply Hi].
  apply st_bind_ret in Hr as (w1 & p & [-> _]%lift_ret & Hr).
  apply st_bind_ret in Hr as (w1 & pr & [-> _]%lift_ret & Hr).
  revert Hr. sbind. intros [= <- _]. pose proof Hi as [[Hwf H1] H2]. split.
  - split; [split; simpl; try apply Hwf; unfold is_uint; lia|]. simpl. rewrite fmap_app.
    rewrite <-(length_fmap skel (tasks w)).
    eapply (inv1_spawn (skel <$> tasks w) (id_to_task w) (placed w)
      (mkSkel j s Initialized false false false _)); try done; simpl; lia.
  - simpl. rewrite fmap_app. apply inv2_spawn; try done. intros c a Hc.
    destruct (polled_task w c a Hi Hc) as (t' & Ha & _).
    rewrite length_fmap. by eapply lookup_lt_Some.
Qed.

Lemma inner_spawn_inv w w' t d i :
  inv w -> inner_spawn num_cpu PREEMPTION_ENABLED t d w = Ret (w', i) -> inv w'.
Proof.
  intros Hi Hr. unfold inner_spawn in Hr.
  apply st_bind_ret in Hr as (w1 & j & Hs & Hr). apply tasks_spawn_inv in Hs; [|done].
  apply st_bind_ret in Hr as (w2 & o & [= <- <-] & Hr).
  apply st_bind_ret in Hr as (w2 & u & Hw & Hr). apply st_ret_ret in Hr as [-> _].
  destruct (id_to_task w1 !! j); [by eapply wake_inv|]. by apply st_ret_ret in Hw as [-> _].
Qed.

(** ** The histories of the kernel *)

(** One call: by a task or an interrupt on any CPU, by the primary CPU, or by a
    worker.  A preemption interrupts a poll, or a worker that sleeps.  The clock
    and the DAGs change by themselves. *)
Inductive step : World C Q -> World C Q -> Prop :=
| step_spawn w w' t d i :
    inner_spawn num_cpu PREEMPTION_ENABLED t d w = Ret (w', i) -> step w w'
| step_wake w w' a :
    wake num_cpu PREEMPTION_ENABLED a w = Ret (w', tt) -> step w w'
| step_tick w w' : tick num_cpu PREEMPTION_ENABLED tie w = Ret (w', tt) -> step w w'
| step_wake_workers w w' asleep : wake_workers num_cpu asleep w = Ret (w', tt) -> step w w'
| step_run w w' cpu turn :
    polling w !! cpu = None ->
    run_main num_cpu PREEMPTION_ENABLED tie cpu w = Ret (w', turn) -> step w w'
| step_end w w' cpu a r :
    polling w !! cpu = Some a ->
    end_poll num_cpu PREEMPTION_ENABLED cpu a r w = Ret (w', tt) -> step w w'
| step_preemption w w' cpu :
    PREEMPTION_ENABLED = true -> is_Some (polling w !! cpu) \/ running w cpu = 0 ->
    preemption num_cpu PREEMPTION_ENABLED cpu true w = Ret (w', tt) -> step w w'
| step_voluntary w w' cpu :
    PREEMPTION_ENABLED = true -> is_Some (polling w !! cpu) ->
    voluntary_preemption num_cpu PREEMPTION_ENABLED cpu true w = Ret (w', tt) -> step w w'
| step_panicking w w' cpu :
    is_Some (polling w !! cpu) ->
    panicking num_cpu PREEMPTION_ENABLED cpu true w = Ret (w', tt) -> step w w'
| step_clock w now : step w (set_clock w now)
| step_dags w ds reg : step w (set_id_to_dag (set_dags w ds) reg).

Inductive reachable : World C Q -> Prop :=
| reachable_boot : reachable boot
| reachable_step w w' : reachable w -> step w w' -> reachable w'.

Lemma boot_inv : inv boot.
Proof.
  split; [split|].
  - by split.
  - split; simpl.
    + constructor.
    + intros a. split; [by intros ?%not_elem_of_nil|]. by intros (s & ? & _).
    + done.
    + done.
  - split; done.
Qed.

Lemma step_inv w w' : inv w -> step w w' -> inv w'.
Proof.
  intros Hi Hs. destruct Hs as [w w' t d i Hr|w w' a Hr|w w' Hr|w w' asleep Hr|w w' cpu turn Hc Hr|
    w w' cpu a r Hc Hr|w w' cpu Hpe Hc Hr|w w' cpu Hpe Hc Hr|w w' cpu Hc Hr|w now|w ds reg].
  - by eapply inner_spawn_inv.
  - by eapply wake_inv.
  - by eapply tick_inv.
  - injection Hr as <-. eapply enq_inv; [|exact Hi]. by apply quiet_enq.
  - by eapply run_main_inv.
  - by eapply end_poll_inv.
  - by eapply preemption_inv.
  - unfold voluntary_preemption in Hr.
    apply st_bind_ret in Hr as (w1 & r & [= <- <-] & Hr).
    case_in Hr; [by apply st_ret_ret in Hr as [-> _]|].
    apply st_bind_ret in Hr as (w1 & q & [= <- <-] & Hr).
    case_in Hr; [by apply st_ret_ret in Hr as [-> _]|].
    eapply preemption_inv; [done|exact Hi| |exact Hr]. by left.
  - by eapply panicking_inv.
  - eapply enq_inv; [|exact Hi]. by apply quiet_enq.
  - eapply enq_inv; [|exact Hi]. by apply quiet_enq.
Qed.

Lemma reachable_inv w : reachable w -> inv w.
Proof. induction 1 as [|w w' _ IH Hs]; [apply boot_inv|by eapply step_inv]. Qed.

End safety.
End SchedSafe.
