(* ===== verification/SchedInst.v ===== *)
(** * Instances of the external CPU mask and affinity queue

    A bit mask and a list, which show that the laws the schedulers rely on can be
    met, and on which concrete histories are evaluated. *)

From S2P Require Import Prelude PriorityQueue Cpu Sched SchedInv.
Local Open Scope Z_scope.

Module SchedInst.
Import Sched.

(** ** A CPU mask of 512 bits *)

Definition has (s : Z) (i : nat) : bool := Z.testbit s (Z.of_nat i) && (i <? 512)%nat.

#[export] Instance bits_mask : CpuMask Z := {|
  empty := 0;
  all := Z.ones 512;
  contains := has;
  without s i := Z.clearbit s (Z.of_nat i);
  masked_below s n := Z.land s (Z.ones (Z.of_nat n));
  union := Z.lor;
  is_empty s := forallb (fun i => negb (has s i)) (seq 0 512);
  iter s := filter (fun i => has s i = true) (seq 0 512);
  mask_eqb s t := forallb (fun i => eqb (has s i) (has t i)) (seq 0 512)
|}.

Lemma has_bound s i : has s i = true -> (i < 512)%nat.
Proof. unfold has. rewrite andb_true_iff, Nat.ltb_lt. tauto. Qed.

Lemma forall_cpus (P : nat -> bool) (d : forall i, ~ (i < 512)%nat -> P i = true) :
  forallb P (seq 0 512) = true <-> forall i, P i = true.
Proof.
  rewrite forallb_forall. split; intros Hp i.
  - destruct (decide (i < 512)%nat) as [Hi|Hi]; [|by apply d]. apply Hp, in_seq. lia.
  - intros _. apply Hp.
Qed.

#[export] Instance bits_mask_laws : CpuMaskLaws Z.
Proof.
  assert (Hn : forall s i, ~ (i < 512)%nat -> has s i = false).
  { intros s i Hi. destruct (has s i) eqn:Hs; [|done]. by apply has_bound in Hs. }
  split; cbn [contains empty all without masked_below union is_empty iter mask_eqb bits_mask].
  - intros i. unfold has. by rewrite Z.testbit_0_l.
  - intros i. unfold has. destruct (Nat.ltb_spec i 512); [|by rewrite andb_false_r].
    by rewrite Z.ones_spec_low by lia.
  - intros s j i. unfold has. rewrite Z.clearbit_eqb by lia.
    destruct (Nat.eqb_spec i j) as [->|Hne]; [rewrite Z.eqb_refl|rewrite (proj2 (Z.eqb_neq _ _)) by lia];
      destruct (Z.testbit s _), (_ <? _)%nat; done.
  - intros s n i. unfold has. rewrite Z.land_spec. destruct (Nat.ltb_spec i n).
    + rewrite Z.ones_spec_low by lia. by destruct (Z.testbit s _), (_ <? _)%nat.
    + rewrite Z.ones_spec_high by lia. by destruct (Z.testbit s _), (_ <? _)%nat.
  - intros s t i. unfold has. rewrite Z.lor_spec.
    by destruct (Z.testbit s _), (Z.testbit t _), (_ <? _)%nat.
  - intros s. rewrite (forall_cpus (fun i => negb (has s i))).
    + split; intros Hp i; specialize (Hp i); [by apply negb_true_iff|by rewrite Hp].
    + intros i Hi. by rewrite Hn.
  - intros s i. rewrite list_elem_of_filter, elem_of_seq. split; [by intros [? _]|].
    intros Hi. split; [done|]. apply has_bound in Hi. lia.
  - intros s t. rewrite (forall_cpus (fun i => eqb (has s i) (has t i))).
    + split; intros Hp i; specialize (Hp i); [by apply eqb_prop|by rewrite Hp, eqb_reflx].
    + intros i Hi. by rewrite !Hn.
Qed.

(** ** A list of entries in arrival order *)

Local Abbreviation entry := (Z * Z * Z * nat)%type.
Definition EDFQueue : Type := nat * list entry.

(** The first entry of the smallest key for a CPU, and the others. *)
Fixpoint pop_min (cpu : nat) (l : list entry) : option (entry * list entry) :=
  match l with
  | [] => None
  | e :: l' =>
      match pop_min cpu l' with
      | None => if has e.1.2 cpu then Some (e, l') else None
      | Some (m, r) =>
          if has e.1.2 cpu && negb (key_ltb m.1.1 e.1.1) then Some (e, l') else Some (m, e :: r)
      end
  end.

#[export] Instance list_queue : AffinityQueue Z EDFQueue := {|
  aq_new n := (n, []);
  aq_push q k s a :=
    if is_empty s || negb (mask_eqb (masked_below s q.1) s) then None
    else Some (q.1, q.2 ++ [(k, s, a)]);
  aq_pop_for_cpu q cpu := '(e, l) ← pop_min cpu q.2; Some (e.2, (q.1, l));
  aq_affinity_mask q := foldr (fun e m => Z.lor e.1.2 m) 0 q.2;
  aq_len q := length q.2
|}.

Lemma key_ltb_spec x y :
  key_ltb x y = true <-> x.1 < y.1 \/ x.1 = y.1 /\ x.2 < y.2.
Proof.
  unfold key_ltb. rewrite orb_true_iff, andb_true_iff, !Z.ltb_lt, Z.eqb_eq. done.
Qed.

Lemma key_ltb_false x y :
  key_ltb x y = false <-> y.1 < x.1 \/ y.1 = x.1 /\ y.2 <= x.2.
Proof. rewrite <-not_true_iff_false, key_ltb_spec. lia. Qed.

Lemma pop_min_none cpu l : pop_min cpu l = None -> Forall (fun e => has e.1.2 cpu = false) l.
Proof.
  induction l as [|e l IH]; simpl; [constructor|].
  destruct (pop_min cpu l) as [[m r]|]; [by case_if|].
  destruct (has e.1.2 cpu) eqn:He; [done|]. constructor; auto.
Qed.

Lemma pop_min_some cpu l m r :
  pop_min cpu l = Some (m, r) ->
  exists l1 l2, l = l1 ++ m :: l2 /\ r = l1 ++ l2 /\ has m.1.2 cpu = true /\
    Forall (fun e => has e.1.2 cpu = true -> key_ltb m.1.1 e.1.1 = true) l1 /\
    Forall (fun e => has e.1.2 cpu = true -> key_ltb e.1.1 m.1.1 = false) l2.
Proof.
  revert m r. induction l as [|e l IH]; intros m r; simpl; [done|].
  destruct (pop_min cpu l) as [[m' r']|] eqn:Hp.
  - destruct (IH _ _ eq_refl) as (l1 & l2 & -> & -> & Hm & H1 & H2).
    destruct (has e.1.2 cpu && negb (key_ltb m'.1.1 e.1.1)) eqn:Hc; intros [= <- <-].
    + apply andb_true_iff in Hc as [He Hk%negb_true_iff].
      exists [], (l1 ++ m' :: l2). repeat split; [done|constructor|].
      rewrite Forall_app, Forall_cons. rewrite key_ltb_false in Hk. split; [|split].
      * eapply Forall_impl; [exact H1|]. intros x Hx Hxc. specialize (Hx Hxc).
        rewrite key_ltb_spec in Hx. rewrite key_ltb_false. lia.
      * intros _. rewrite key_ltb_false. lia.
      * eapply Forall_impl; [exact H2|]. intros x Hx Hxc. specialize (Hx Hxc).
        rewrite key_ltb_false in Hx. rewrite key_ltb_false. lia.
    + exists (e :: l1), l2. repeat split; [done| |done]. constructor; [|done]. intros He.
      rewrite He in Hc. by apply negb_false_iff in Hc.
  - destruct (has e.1.2 cpu) eqn:He; [|done]. intros [= <- <-]. exists [], l.
    repeat split; [done|constructor|]. eapply Forall_impl; [by apply pop_min_none|].
    simpl. intros x Hx. congruence.
Qed.

#[export] Instance list_queue_laws : AffinityQueueLaws Z EDFQueue.
Proof.
  refine {| aq_entries q := q.2; aq_cpus q := q.1 |};
    cbn [aq_new aq_push aq_pop_for_cpu aq_affinity_mask aq_len list_queue].
  - done.
  - done.
  - intros q k s a He Hs. assert (Hm : mask_eqb (masked_below s q.1) s = true).
    { apply mask_eqb_spec. intros i. rewrite contains_masked_below.
      destruct (contains s i) eqn:Hi; [|done]. by apply Nat.ltb_lt, Hs. }
    rewrite He, Hm. simpl. eauto.
  - intros q k s a q'. case_if; [done|]. intros [= <-]. done.
  - intros q cpu a q'. destruct (pop_min cpu q.2) as [[[[k s] b] l]|] eqn:Hp; simpl; [|done].
    intros [= <- <-]. apply pop_min_some in Hp as (l1 & l2 & -> & -> & Hm & H1 & H2).
    exists l1, l2, k, s. done.
  - intros q cpu. destruct (pop_min cpu q.2) as [[e l]|] eqn:Hp; simpl; [done|]. intros _.
    by apply pop_min_none.
  - intros q i. induction q.2 as [|e l IH]; simpl.
    + unfold has. rewrite Z.testbit_0_l. simpl. split; [done|]. by intros ?%Exists_nil.
    + rewrite Exists_cons, <-IH. change (has (Z.lor ?x ?y) i) with (contains (union x y) i).
      rewrite contains_union, orb_true_iff. done.
Qed.

End SchedInst.
