(* ===== verification/SchedProps.v ===== *)
(** * Properties of the schedulers

    What the calls on the schedulers promise: places and locks of tasks, the
    order in which tasks are chosen, which CPU is preempted, and the wake-up of
    workers. *)

From S2P Require Import Prelude PriorityQueue Cpu Sched SchedInv SchedSafe SchedInst.
Local Open Scope Z_scope.

Module SchedProps.
Import Sched SchedInv SchedSafe SchedInst.

(** ** What every [wake_task] keeps *)

Section keeps_wake.
Context {C : Type} {HC : CpuMask C} {Q : Type} {HQ : AffinityQueue C Q}.
Context (num_cpu : nat) (PREEMPTION_ENABLED : bool) (I : World C Q -> Prop).

Lemma keeps_task_at a : keeps I (task_at a).
Proof. unfold task_at. keeps_tac. Qed.

Hypothesis I_tasks : forall w x, I w -> I (set_tasks w x).

Lemma keeps_upd a f : keeps I (upd_task a f).
Proof. apply keeps_modify. auto. Qed.

(** If requests for preemption keep the invariant, so do both
    [invoke_preemption]. *)
Section requests.
Hypothesis I_pending : forall w x, I w -> I (set_PREEMPTION_PENDING_TASKS w x).
Hypothesis I_request : forall w x, I w -> I (set_PREEMPTION_REQUEST w x).
Hypothesis I_ipis : forall w x, I w -> I (set_ipis w x).

Lemma keeps_request a target : keeps I (request_preemption a target).
Proof.
  unfold request_preemption, push_preemption_pending, set_need_preemption, get_task, set_pending.
  repeat first [apply keeps_task_at|apply keeps_upd|keeps_step]; auto with awk.
Qed.

Lemma keeps_invoke a : keeps I (invoke_preemption num_cpu PREEMPTION_ENABLED a).
Proof.
  unfold invoke_preemption. repeat first [apply keeps_task_at|apply keeps_request|keeps_step];
    auto with awk.
Qed.

Lemma keeps_clustered_invoke a : keeps I (clustered_invoke_preemption PREEMPTION_ENABLED a).
Proof.
  unfold clustered_invoke_preemption.
  repeat first [apply keeps_task_at|apply keeps_request|keeps_step]; auto with awk.
Qed.
End requests.

Hypothesis I_dags : forall w x, I w -> I (set_dags w x).
Hypothesis I_fifo : forall w x, I w -> I (set_fifo w x).
Hypothesis I_rr : forall w x, I w -> I (set_rr w x).
Hypothesis I_gedf : forall w x, I w -> I (set_gedf w x).
Hypothesis I_clustered : forall w x, I w -> I (set_clustered w x).
Hypothesis I_panicked : forall w x, I w -> I (set_panicked_queue w x).
Hypothesis I_count : forall w x, I w -> I (set_NUM_CLUSTERED_TASKS_IN_QUEUE w x).
Hypothesis I_invoke : forall a, keeps I (invoke_preemption num_cpu PREEMPTION_ENABLED a).
Hypothesis I_clustered_invoke :
  forall a, keeps I (clustered_invoke_preemption PREEMPTION_ENABLED a).

Lemma keeps_edf s a r : keeps I (edf_deadline s a r).
Proof.
  unfold edf_deadline, calculate_and_update_dag_deadline, uptime.
  repeat first [apply keeps_task_at|apply keeps_upd|keeps_step]; auto with awk.
Qed.

Lemma keeps_wake_task s a : keeps I (wake_task num_cpu PREEMPTION_ENABLED s a).
Proof.
  destruct s; simpl; [unfold clustered_wake_task|unfold gedf_wake_task|unfold fifo_wake_task|
    unfold rr_wake_task|unfold panicked_wake_task]; unfold clustered_new;
    repeat first [apply keeps_task_at|apply keeps_edf|apply I_invoke|apply I_clustered_invoke|
      keeps_step]; auto with awk.
Qed.
End keeps_wake.

(** ** Idle CPUs are not preempted *)

Section idle.
Context {C : Type} {HC : CpuMask C} {HCL : CpuMaskLaws C}
  {Q : Type} {HQ : AffinityQueue C Q} {HQL : AffinityQueueLaws C Q}.
Context (num_cpu : nat) (PREEMPTION_ENABLED : bool) (tie : list GEDFTask -> nat).
Implicit Types (w : World C Q) (a cpu : nat).

(** The CPU is idle and [l] is pending on it. *)
Definition idle cpu (l : list nat) w : Prop := pending w cpu = l /\ running w cpu = 0.

Lemma keeps_upd_idle cpu l a f : keeps (idle cpu l) (upd_task (C:=C) (Q:=Q) a f).
Proof. apply keeps_modify. by intros w []. Qed.

Lemma keeps_set_need_idle cpu l i c :
  keeps (idle cpu l) (set_need_preemption (C:=C) (Q:=Q) i c).
Proof.
  unfold set_need_preemption, get_task. apply keeps_bind; [apply keeps_gets|]. intros o.
  apply keeps_bind; [destruct o; [apply keeps_upd_idle|apply keeps_ret]|]. intros _.
  apply keeps_modify. by intros w [].
Qed.

Lemma keeps_request_idle cpu l a target :
  target.2 <> cpu -> keeps (idle cpu l) (request_preemption (C:=C) (Q:=Q) a target).
Proof.
  intros Hn. unfold request_preemption. apply keeps_bind; [apply keeps_task_at|]. intros t.
  apply keeps_bind.
  { apply keeps_modify. intros w [Hp Hr]. split; [|done]. unfold pending, set_pending. simpl.
    by rewrite lookup_insert_ne. }
  intros _. apply keeps_bind; [apply keeps_set_need_idle|]. intros _.
  apply keeps_bind; [|intros; apply keeps_ret]. apply keeps_modify. by intros w [].
Qed.

Lemma min_target_elem w l x : min_target w l = Some x -> x ∈ l.
Proof.
  destruct l as [|y l]; [done|]. simpl. intros [= <-]. revert y.
  induction l as [|z l IH]; intros y; simpl; [left|].
  specialize (IH (if target_ltb w z y then z else y)). case_if; set_solver.
Qed.

(** A candidate is a busy CPU. *)
Lemma candidate_busy w x :
  x ∈ omap (candidate w) (filter (fun rt : nat * Z => rt.2 <> 0) (get_tasks_running num_cpu w)) ->
  running w x.2 <> 0 /\ (x.2 < num_cpu)%nat /\
  exists t, id_to_task w !! running w x.2 = Some t /\
    x.1 = task_max w t (default t (peek_pending w x.2)).
Proof.
  intros ([c i] & [Hi Hrt]%list_elem_of_filter & Hc)%list_elem_of_omap. unfold candidate in Hc.
  apply list_elem_of_fmap in Hrt as (c' & [= -> ->] & Hc'%elem_of_seq). simpl in *.
  destruct (id_to_task w !! running w c') as [t|] eqn:Ht; simpl in Hc; [|done].
  injection Hc as <-. simpl. split; [done|]. split; [lia|]. by exists t.
Qed.

Lemma keeps_invoke_idle cpu l a :
  keeps (idle cpu l) (invoke_preemption (C:=C) (Q:=Q) num_cpu PREEMPTION_ENABLED a).
Proof.
  intros w w' b Hw. unfold invoke_preemption. destruct (negb PREEMPTION_ENABLED).
  { intros Hr. by apply st_ret_ret in Hr as [-> _]. }
  intros Hr. apply st_bind_ret in Hr as (w1 & t & [-> _]%task_at_ret & Hr).
  apply st_bind_ret in Hr as (w1 & w2 & [-> ->]%gets_ret & Hr).
  case_in Hr; [by apply st_ret_ret in Hr as [-> _]|].
  apply st_bind_ret in Hr as (w1 & x & [-> Hx]%lift_ret & Hr).
  destruct (min_target w _) as [x'|] eqn:Hm; [|done]. injection Hx as ->.
  apply min_target_elem, candidate_busy in Hm as [Hb _].
  case_in Hr; [|by apply st_ret_ret in Hr as [-> _]].
  eapply keeps_request_idle; [|exact Hw|exact Hr]. intros E. destruct Hw as [_ Hz]. by rewrite E in Hb.
Qed.

(** The victim of the clustered scheduler is a busy CPU of the set. *)
Lemma find_victim_busy w i cpus v x :
  find_victim w i cpus v = Some (Some x) ->
  v = Some x \/ x.2 ∈ cpus /\ running w x.2 <> 0.
Proof.
  revert v. induction cpus as [|c cpus IH]; intros v; simpl; [intros [= ->]; by left|].
  destruct (running w c =? i); [done|]. destruct (running w c =? 0) eqn:Hz; [done|].
  apply Z.eqb_neq in Hz.
  assert (Hl : forall t, lower w v (t, c) = Some x -> v = Some x \/ x.2 = c).
  { intros t. unfold lower. destruct v as [[lo c']|]; [case_if|]; intros [= <-]; auto. }
  assert (Hgo : forall t, find_victim w i cpus (lower w v (t, c)) = Some (Some x) ->
    v = Some x \/ x.2 ∈ c :: cpus /\ running w x.2 <> 0).
  { intros t Ht. apply IH in Ht as [Ht|[? ?]]; [|right; split; [by right|done]].
    destruct (Hl t Ht) as [?|Hc]; [by left|right]. rewrite Hc. split; [left|done]. }
  destruct (id_to_task w !! running w c), (peek_pending w c); try done; apply Hgo.
Qed.

Lemma keeps_clustered_invoke_idle cpu l a :
  keeps (idle cpu l) (clustered_invoke_preemption (C:=C) (Q:=Q) PREEMPTION_ENABLED a).
Proof.
  intros w w' b Hw. unfold clustered_invoke_preemption. destruct (negb PREEMPTION_ENABLED).
  { intros Hr. by apply st_ret_ret in Hr as [-> _]. }
  intros Hr. apply st_bind_ret in Hr as (w1 & t & [-> _]%task_at_ret & Hr).
  apply st_bind_ret in Hr as (w1 & s & [-> _]%lift_ret & Hr).
  apply st_bind_ret in Hr as (w1 & w2 & [-> ->]%gets_ret & Hr).
  destruct (find_victim w _ _ _) as [[x|]|] eqn:Hf; try (by apply st_ret_ret in Hr as [-> _]).
  apply find_victim_busy in Hf as [?|[_ Hb]]; [done|].
  case_in Hr; [|by apply st_ret_ret in Hr as [-> _]].
  eapply keeps_request_idle; [|exact Hw|exact Hr]. intros E. destruct Hw as [_ Hz]. by rewrite E in Hb.
Qed.

Lemma keeps_wake_task_idle cpu l s a :
  keeps (idle cpu l) (wake_task (C:=C) (Q:=Q) num_cpu PREEMPTION_ENABLED s a).
Proof.
  apply keeps_wake_task; try (by intros w x []).
  - apply keeps_invoke_idle.
  - apply keeps_clustered_invoke_idle.
Qed.

Lemma heap_peek_none w l : heap_peek w l = None -> l = [].
Proof. by destruct l. Qed.

(** The loop at the top of [run_main] ends with nothing pending. *)
Lemma rewake_pending_empties w w' fuel cpu u :
  (length (pending w cpu) <= fuel)%nat -> running w cpu = 0 ->
  rewake_pending num_cpu PREEMPTION_ENABLED fuel cpu w = Ret (w', u) ->
  idle cpu [] w'.
Proof.
  revert w. induction fuel as [|fuel IH]; intros w Hl Hz; simpl; intros Hr.
  { apply st_ret_ret in Hr as [-> _]. split; [|done]. destruct (pending w cpu); [done|simpl in Hl; lia]. }
  apply st_bind_ret in Hr as (w1 & o & Hp & Hr).
  unfold pop_preemption_pending in Hp. apply st_bind_ret in Hp as (w2 & o' & [-> ->]%gets_ret & Hp).
  destruct (peek_pending w cpu) as [p|] eqn:Hpk.
  - revert Hp. sbind. intros [= <- <-]. apply heap_peek_elem, remove_one_perm, Permutation_length in Hpk.
    apply st_bind_ret in Hr as (w2 & u2 & Hw & Hr). set (w1 := set_pending w _ _) in Hw.
    assert (H1 : idle cpu (remove_one p (pending w cpu)) w1).
    { split; [|done]. unfold w1, pending, set_pending. simpl. by rewrite lookup_insert_eq. }
    assert (H2 : idle cpu (remove_one p (pending w cpu)) w2).
    { unfold rewake in Hw. apply st_bind_ret in Hw as (w3 & t & [-> _]%task_at_ret & Hw).
      by eapply keeps_wake_task_idle. }
    destruct H2 as [H2 H3]. apply (IH w2); [rewrite H2; simpl in Hpk; lia|done|done].
  - apply st_ret_ret in Hp as [-> ->]. apply st_ret_ret in Hr as [-> _].
    split; [|done]. by apply heap_peek_none in Hpk.
Qed.

End idle.
(** ** Which task is next *)

Section next.
Context {C : Type} {HC : CpuMask C} {HCL : CpuMaskLaws C}
  {Q : Type} {HQ : AffinityQueue C Q} {HQL : AffinityQueueLaws C Q}.
Context (num_cpu : nat) (PREEMPTION_ENABLED : bool) (tie : list GEDFTask -> nat).
Implicit Types (w : World C Q) (a cpu : nat).

(** The tasks that a scheduler can give to a CPU. *)
Definition eligible w (s : Scheduler) cpu : list nat :=
  match s with
  | SFIFO => pq_list (fifo w)
  | SRR => pq_list (rr w)
  | SGEDF => gedf_list (gedf w)
  | SPanicked => default [] (panicked_queue w)
  | SClusteredEDF => from_option (fun q =>
      snd <$> filter (fun e => contains e.1.2 cpu = true) (aq_entries q)) [] (clustered w)
  end.

Lemma pq_pop_none_empty (q q' : PriorityQueue.PriorityQueue nat) :
  PriorityQueue.wf q -> PriorityQueue.pop q = Ret (q', None) ->
  concat (PriorityQueue.queue q) = [].
Proof.
  intros Hq Hp. destruct (decide (PriorityQueue.has_entry q = 0)) as [Hz|Hz].
  - assert (Hall : forall i l, PriorityQueue.queue q !! i = Some l -> l = []).
    { intros i l Hl. pose proof (PriorityQueue.wf_bits _ Hq _ _ Hl) as Hb.
      rewrite Hz, Z.testbit_0_l in Hb. symmetry in Hb. apply bool_decide_eq_false in Hb.
      by apply dec_stable. }
    clear Hp. revert Hall. generalize (PriorityQueue.queue q). intros ls.
    induction ls as [|l ls IH]; intros Hall; [done|]. simpl. rewrite (Hall 0%nat l eq_refl).
    apply IH. intros i l' Hl. exact (Hall (S i) l' Hl).
  - destruct (PriorityQueue.pop_some (T:=nat) q Hq Hz) as (x & level & _ & He). by rewrite Hp in He.
Qed.

Lemma maxima_nonempty (l : list GEDFTask) : l <> [] -> exists i, is_max l i.
Proof.
  induction l as [|x l IH]; [done|]. intros _. destruct (decide (l = [])) as [->|Hl].
  { exists 0%nat. unfold is_max. simpl. constructor; [|done]. unfold gedf_ltb.
    apply key_ltb_false. lia. }
  destruct (IH Hl) as [i Hi]. unfold is_max in *. destruct (l !! i) as [y|] eqn:Hy; [|done].
  destruct (gedf_ltb x y) eqn:Hxy.
  - exists (S i). simpl. rewrite Hy. constructor; [|done].
    unfold gedf_ltb in *. rewrite key_ltb_spec in Hxy. rewrite key_ltb_false. simpl in *. lia.
  - exists 0%nat. simpl. constructor.
    + unfold gedf_ltb. apply key_ltb_false. lia.
    + eapply Forall_impl; [exact Hi|]. intros z Hz. unfold gedf_ltb in *.
      rewrite key_ltb_false in *. simpl in *. lia.
Qed.

Lemma gedf_heap_pop_none l : gedf_heap_pop tie l = None -> l = [].
Proof.
  intros Hp. destruct (decide (l = [])) as [|Hl]; [done|]. exfalso.
  destruct (maxima_nonempty l Hl) as [i Hi]. unfold gedf_heap_pop in Hp.
  set (ms := filter (is_max l) (seq 0 (length l))) in Hp.
  assert (Him : i ∈ ms).
  { apply list_elem_of_filter. split; [done|]. apply elem_of_seq. split; [lia|].
    unfold is_max in Hi. destruct (l !! i) eqn:E; [|done]. by apply lookup_lt_Some in E. }
  assert (Hlen : (tie l mod length ms < length ms)%nat).
  { apply Nat.mod_upper_bound. destruct ms; [by apply not_elem_of_nil in Him|done]. }
  apply lookup_lt_is_Some in Hlen as [j Hj]. rewrite Hj in Hp. simpl in Hp.
  apply list_elem_of_lookup_2, list_elem_of_filter in Hj as [Hj _]. unfold is_max in Hj.
  by destruct (l !! j).
Qed.

(** A pop gives an eligible task; when it gives none, there was none. *)
Lemma pop_of_eligible w w' s cpu o :
  wfq w -> pop_of tie s cpu w = Ret (w', o) ->
  match o with
  | Some a => a ∈ eligible w s cpu
  | None => eligible w s cpu = [] /\ (forall s', eligible w' s' cpu = eligible w s' cpu)
  end.
Proof.
  intros Hw. destruct s; simpl.
  - unfold pop_clustered. sbind. destruct (clustered w) as [q|] eqn:Hq; simpl; [|by intros [= <- <-]].
    destruct (aq_pop_for_cpu q cpu) as [[x q']|] eqn:Hp; intros [= <- <-].
    + apply aq_pop_some in Hp as (l1 & l2 & k & s & He & _ & _ & Hc & _).
      apply list_elem_of_fmap. exists (k, s, x). split; [done|]. apply list_elem_of_filter.
      split; [done|]. rewrite He. apply elem_of_app. right. left.
    + apply aq_pop_none in Hp. split; [|done].
      induction Hp as [|e l He _ IH]; [done|]. rewrite filter_cons_False by (by rewrite He). done.
  - unfold pop_gedf. sbind. destruct (gedf w) as [l|] eqn:Hq; simpl; [|by intros [= <- <-]].
    destruct (gedf_heap_pop tie l) as [[x l']|] eqn:Hp; intros [= <- <-].
    + apply gedf_heap_pop_spec in Hp as (Hx & _). unfold gedf_list. simpl.
      apply list_elem_of_fmap. eauto.
    + apply gedf_heap_pop_none in Hp as ->. done.
  - unfold pop_fifo. intros Hr. apply st_bind_ret in Hr as (w1 & o1 & [-> ->]%gets_ret & Hr).
    destruct (fifo w) as [q|] eqn:Hq; [|by apply st_ret_ret in Hr as [-> ->]].
    apply st_bind_ret in Hr as (w1 & [q' r] & [-> Hp]%lift_ret & Hr).
    revert Hr. sbind. intros [= <- <-]. pose proof (wfq_fifo _ Hw _ Hq) as Hwq.
    pose proof (pq_pop_contents _ _ _ Hwq Hp) as [_ Hc]. destruct r as [v|]; simpl.
    + rewrite Hc. left.
    + subst q'. split; [by eapply pq_pop_none_empty|]. intros []; simpl; by rewrite ?Hq.
  - unfold pop_rr. intros Hr. apply st_bind_ret in Hr as (w1 & o1 & [-> ->]%gets_ret & Hr).
    destruct (rr w) as [q|] eqn:Hq; [|by apply st_ret_ret in Hr as [-> ->]].
    apply st_bind_ret in Hr as (w1 & [q' r] & [-> Hp]%lift_ret & Hr).
    revert Hr. sbind. intros [= <- <-]. pose proof (wfq_rr _ Hw _ Hq) as Hwq.
    pose proof (pq_pop_contents _ _ _ Hwq Hp) as [_ Hc]. destruct r as [v|]; simpl.
    + rewrite Hc. left.
    + subst q'. split; [by eapply pq_pop_none_empty|]. intros []; simpl; by rewrite ?Hq.
  - unfold pop_panicked. sbind. destruct (panicked_queue w) as [[|x l]|] eqn:Hq; intros [= <- <-].
    + done.
    + simpl. left.
    + done.
Qed.

Lemma get_next_eligible w w' s cpu ensured o :
  inv_hand [] w -> get_next tie s cpu ensured w = Ret (w', o) ->
  match o with
  | Some a => a ∈ eligible w s cpu
  | None => eligible w s cpu = [] /\ (forall s', eligible w' s' cpu = eligible w s' cpu)
  end.
Proof.
  intros Hi Hr%get_next_loop. cbn [next_loop] in Hr. apply st_bind_ret in Hr as (w1 & o1 & Hp & Hr).
  pose proof (pop_of_eligible _ _ _ _ _ (proj1 Hi) Hp) as He. apply pop_of_deq in Hp.
  destruct o1 as [a|]; [|by apply st_ret_ret in Hr as [-> ->]].
  pose proof (deq_hand _ _ _ _ Hp Hi) as Hi1.
  destruct (hand_active _ _ a Hi1) as (t & Ht & Hact); [left|].
  apply st_bind_ret in Hr as (w2 & b & Hc & Hr).
  destruct (claim_spec _ _ _ _ _ _ _ Ht Hact Hc) as (-> & _).
  by apply st_ret_ret in Hr as [_ ->].
Qed.

Lemma find_next_eligible w w' l cpu ensured o :
  inv_hand [] w -> find_next tie l cpu ensured w = Ret (w', o) ->
  match o with
  | Some a => exists i t, l !! i = Some t /\ a ∈ eligible w (get_scheduler t) cpu /\
      forall j u, (j < i)%nat -> l !! j = Some u -> eligible w (get_scheduler u) cpu = []
  | None => (forall j u, l !! j = Some u -> eligible w (get_scheduler u) cpu = []) /\
      (forall s', eligible w' s' cpu = eligible w s' cpu)
  end.
Proof.
  revert w. induction l as [|t l IH]; intros w Hi; simpl; intros Hr.
  { by apply st_ret_ret in Hr as [-> ->]. }
  apply st_bind_ret in Hr as (w1 & o1 & Hn & Hr).
  pose proof (get_next_eligible _ _ _ _ _ _ Hi Hn) as He.
  destruct o1 as [a|].
  { apply st_ret_ret in Hr as [_ ->]. exists 0%nat, t. split; [done|]. split; [done|]. lia. }
  destruct He as [He Hsame].
  assert (Hi1 : inv_hand [] w1).
  { apply get_next_loop, next_loop_spec in Hn; [|done]. by apply (deq_hand [] [] w). }
  specialize (IH _ Hi1 Hr). destruct o as [a|].
  - destruct IH as (i & u & Hu & Ha & Hb). exists (S i), u. rewrite Hsame in Ha.
    split; [done|]. split; [done|]. intros [|j] v Hj Hv; simpl in Hv; [by simplify_eq|].
    rewrite <-Hsame. apply (Hb j v); [lia|done].
  - destruct IH as [Hb Hs]. split; [|intros s'; by rewrite Hs].
    intros [|j] v Hv; simpl in Hv; [by simplify_eq|]. rewrite <-Hsame. by apply (Hb j).
Qed.

(** With the counter at zero, no clustered task is queued. *)
Lemma no_clustered w cpu :
  wfq w -> Z.of_nat (length (clustered_list (clustered w))) < 2 ^ 32 ->
  NUM_CLUSTERED_TASKS_IN_QUEUE w = 0 -> eligible w SClusteredEDF cpu = [].
Proof.
  intros Hw Hl Hz. rewrite (wfq_clustered _ Hw), wrap_id in Hz by (unfold is_uint; lia).
  simpl. destruct (clustered w) as [q|]; [|done]. simpl in *. rewrite length_fmap in Hz.
  by destruct (aq_entries q).
Qed.
End next.

(** ** A history to evaluate the calls on *)

Definition tie0 : list GEDFTask -> nat := fun _ => 0%nat.
Definition world {A} (o : outcome (World Z EDFQueue * A)) : World Z EDFQueue :=
  match o with Ret (w, _) => w | Panic => boot end.

(** Three CPUs; an RR task and then a FIFO task are spawned. *)
Definition spawn3 (t : Cpu.SchedulerType Z) (w : World Z EDFQueue) : World Z EDFQueue :=
  world (inner_spawn 3 true t None w).
Definition ex_rr : World Z EDFQueue := spawn3 (Cpu.PrioritizedRR 5) boot.
Definition ex_two : World Z EDFQueue := spawn3 (Cpu.PrioritizedFIFO 3) ex_rr.

Lemma ex_two_reachable : reachable 3 true tie0 ex_two.
Proof.
  apply (reachable_step _ _ _ ex_rr).
  - apply (reachable_step _ _ _ boot); [constructor|].
    apply (step_spawn _ _ _ _ _ (Cpu.PrioritizedRR 5) None 1). vm_compute. reflexivity.
  - apply (step_spawn _ _ _ _ _ (Cpu.PrioritizedFIFO 3) None 2). vm_compute. reflexivity.
Qed.

(** C9: the schedulers are asked in the order of [PRIORITY_LIST].  The task that
    [get_next_task] gives to a CPU is one that some scheduler holds for that CPU,
    and every scheduler of higher priority holds none for it; it gives no task
    only when no scheduler holds one for the CPU, although the clustered queues
    are skipped when their counter is zero. *)
Theorem get_next_task_highest {C} `{CpuMaskLaws C} {Q} `{AffinityQueue C Q}
    `{!AffinityQueueLaws C Q} n pe tie cpu ensured (w w' : World C Q) o :
  reachable n pe tie w ->
  Z.of_nat (length (clustered_list (clustered w))) < 2 ^ 32 ->
  Sched.scheduler_get_next_task tie cpu ensured w = Ret (w', o) ->
  match o with
  | Some a => exists i t, Cpu.PRIORITY_LIST !! i = Some t /\
      a ∈ eligible w (get_scheduler t) cpu /\
      forall j u, (j < i)%nat -> Cpu.PRIORITY_LIST !! j = Some u ->
        eligible w (get_scheduler u) cpu = []
  | None => forall j u, Cpu.PRIORITY_LIST !! j = Some u -> eligible w (get_scheduler u) cpu = []
  end.
Proof.
  intros Hi%reachable_inv Hl Hr. destruct Hi as [Hi _]. unfold scheduler_get_next_task in Hr.
  apply st_bind_ret in Hr as (w1 & c & [-> ->]%gets_ret & Hr).
  apply st_bind_ret in Hr as (w1 & o1 & Hn & Hr).
  assert (K1 : match o1 with
    | Some a => o = Some a /\ a ∈ eligible w SClusteredEDF cpu
    | None => eligible w SClusteredEDF cpu = [] /\ inv_hand [] w1 /\
        (forall s', eligible w1 s' cpu = eligible w s' cpu)
    end).
  { case_in Hn.
    - pose proof (find_next_spec _ _ _ _ _ _ _ Hi Hn) as Hs.
      apply find_next_eligible in Hn; [|done]. destruct o1 as [a|].
      + apply st_ret_ret in Hr as [_ ->]. split; [done|].
        destruct Hn as ([|i] & t & Ht & Ha & _); [by injection Ht as <-|done].
      + destruct Hn as [Hn Hs']. split; [by apply (Hn 0%nat (Cpu.ClusteredEDF 0 empty))|].
        split; [|done]. by apply (deq_hand [] [] w).
    - apply st_ret_ret in Hn as [-> ->]. split; [|done]. apply no_clustered; [apply Hi|done|].
      apply Z.ltb_ge in Heqb. pose proof (wfq_clustered _ (proj1 Hi)) as E.
      pose proof (wrap_uint 32 (Z.of_nat (length (clustered_list (clustered w))))) as [? _]; lia. }
  destruct o1 as [a|].
  { destruct K1 as [-> Ha]. exists 0%nat, (Cpu.ClusteredEDF 0 empty). split; [done|].
    split; [done|]. lia. }
  destruct K1 as (Hc & Hi1 & Hsame). unfold get_next_global in Hr.
  apply st_bind_ret in Hr as (w2 & o2 & Hg & Hr). apply find_next_eligible in Hg; [|done].
  destruct o2 as [a|].
  - revert Hr. sbind. intros [= _ <-]. destruct Hg as (i & t & Ht & Ha & Hb).
    exists (S i), t. rewrite Hsame in Ha. split; [done|]. split; [done|].
    intros [|j] u Hj Hu; [by injection Hu as <-|]. rewrite <-Hsame. apply (Hb j u); [lia|done].
  - apply st_ret_ret in Hr as [_ ->]. destruct Hg as [Hb _].
    intros [|j] u Hu; [by injection Hu as <-|]. rewrite <-Hsame. by apply (Hb j u).
Qed.

Lemma get_next_task_highest_witness :
  exists w', Sched.scheduler_get_next_task tie0 1 true ex_two = Ret (w', Some 1%nat) /\
    exists i t, Cpu.PRIORITY_LIST !! i = Some t /\
      1%nat ∈ eligible ex_two (get_scheduler t) 1 /\
      forall j u, (j < i)%nat -> Cpu.PRIORITY_LIST !! j = Some u ->
        eligible ex_two (get_scheduler u) 1 = [].
Proof.
  assert (Hr : exists w', Sched.scheduler_get_next_task tie0 1 true ex_two = Ret (w', Some 1%nat)).
  { eexists. vm_compute. reflexivity. }
  destruct Hr as [w' Hr]. exists w'. split; [exact Hr|].
  refine (get_next_task_highest 3 true tie0 1 true ex_two w' (Some 1%nat) ex_two_reachable _ Hr).
  vm_compute. reflexivity.
Defined.


(** A worker polls the FIFO task; the RR task stays in its queue. *)
Definition ex_poll : World Z EDFQueue := world (run_main 3 true tie0 1 ex_two).

Lemma ex_poll_reachable : reachable 3 true tie0 ex_poll.
Proof.
  apply (reachable_step _ _ _ ex_two); [apply ex_two_reachable|].
  apply (step_run _ _ _ _ _ 1 (TPoll 1)); vm_compute; reflexivity.
Qed.






(** ** Priorities *)

Lemma combine_priority_sum s p :
  0 <= s < 256 -> 0 <= p < 2 ^ 56 -> combine_priority s p = Ret (s * 2 ^ 56 + p).
Proof.
  intros Hs Hp. unfold combine_priority. rewrite Z.shiftl_1_l.
  rewrite (proj2 (Z.ltb_lt p (2 ^ 56))) by lia. rbind. cbn [assert_true]. rbind. f_equal.
  rewrite wrap_id by (unfold is_uint; rewrite Z.shiftl_mul_pow2; lia).
  replace (2 ^ 56 - 1) with (Z.ones 56) by (rewrite Z.ones_equiv; lia).
  rewrite Z.land_ones, (Z.mod_small p) by lia.
  assert (Hl : Z.land (Z.shiftl s 56) p = 0).
  { apply Z.bits_inj'. intros i Hi. rewrite Z.land_spec, Z.testbit_0_l.
    destruct (decide (i < 56)).
    - by rewrite Z.shiftl_spec_low.
    - rewrite (testbit_above 56 p i); [by rewrite andb_false_r|done|lia]. }
  rewrite <-Z.lxor_lor, <-Z.add_nocarry_lxor, Z.shiftl_mul_pow2 by done || lia. done.
Qed.

(** The combined priority of a task fits a [u64] and orders tasks first by
    their scheduler and then by the task priority; for the EDF schedulers, whose
    task priority is [MAX_TASK_PRIORITY] minus the absolute deadline, the task
    with the earlier deadline has the higher priority. *)
Theorem combined_priority_is_lexicographic s s' p p' :
  0 <= s < 256 -> 0 <= s' < 256 ->
  0 <= p <= Sched.MAX_TASK_PRIORITY -> 0 <= p' <= Sched.MAX_TASK_PRIORITY ->
  exists x x' e e',
    Sched.combine_priority s p = Ret x /\ Sched.combine_priority s' p' = Ret x' /\
    is_uint 64 x /\ (x < x' <-> s < s' \/ s = s' /\ p < p') /\
    Sched.combine_priority s (wrap 64 (Sched.MAX_TASK_PRIORITY - p)) = Ret e /\
    Sched.combine_priority s (wrap 64 (Sched.MAX_TASK_PRIORITY - p')) = Ret e' /\
    (e < e' <-> p' < p).
Proof.
  unfold MAX_TASK_PRIORITY. rewrite Z.shiftl_1_l. intros Hs Hs' Hp Hp'.
  rewrite !(wrap_id 64) by (unfold is_uint; lia).
  rewrite !combine_priority_sum by lia. do 4 eexists. repeat (split; [reflexivity|]).
  unfold is_uint. split; [lia|]. split; [nia|]. repeat (split; [reflexivity|]). lia.
Qed.

Lemma combined_priority_is_lexicographic_witness :
  exists x x' e e',
    Sched.combine_priority 3 100 = Ret x /\ Sched.combine_priority 2 200 = Ret x' /\
    is_uint 64 x /\ (x < x' <-> 3 < 2 \/ 3 = 2 /\ 100 < 200) /\
    Sched.combine_priority 3 (wrap 64 (Sched.MAX_TASK_PRIORITY - 100)) = Ret e /\
    Sched.combine_priority 3 (wrap 64 (Sched.MAX_TASK_PRIORITY - 200)) = Ret e' /\
    (e < e' <-> 200 < 100).
Proof. apply (combined_priority_is_lexicographic 3 2 100 200); vm_compute; split; congruence. Defined.

(** ** Spawning *)

(** With fewer than 2^32 - 1 registered tasks, the search for a task ID ends
    and gives an ID that is not 0 and that no registered task has.  The new task
    is registered under it, is not yet placed, and if it is clustered its CPU set
    is not empty and has only worker CPUs (neither CPU 0 nor one beyond the last),
    whatever set was asked for. *)
Theorem spawn_gives_fresh_task {C} `{CpuMaskLaws C} {Q} `{AffinityQueue C Q}
    `{!AffinityQueueLaws C Q} n pe tie t d (w : World C Q) :
  (2 <= n <= Cpu.NUM_MAX_CPU)%nat ->
  reachable n pe tie w -> Z.of_nat (size (Sched.id_to_task w)) < 2 ^ 32 - 1 ->
  (forall p, t = Cpu.PrioritizedFIFO p \/ t = Cpu.PrioritizedRR p -> 0 <= p < 256) ->
  exists w' i task, Sched.tasks_spawn n (get_scheduler t) t d w = Ret (w', i) /\
    0 < i < 2 ^ 32 /\ Sched.id_to_task w !! i = None /\
    Sched.id_to_task w' = <[i := length (Sched.tasks w)]> (Sched.id_to_task w) /\
    Sched.tasks w' = Sched.tasks w ++ [task] /\
    Sched.id task = i /\ Sched.state task = Initialized /\
    (length (Sched.tasks w) ∉ placed w') /\
    forall set, Sched.cpu_set task = Some set -> Cpu.normalized set n.
Proof.
  intros Hn Hr Hsz Hp. pose proof (reachable_inv _ _ _ _ Hr) as Hi.
  assert (Hid : is_uint 32 (candidate_id w)) by apply Hi.
  destruct (find_id_total (id_to_task w) (candidate_id w) Hid Hsz) as [i Hf].
  destruct (find_id_spec _ _ _ _ Hid Hf) as [Hfree Hb].
  assert (Hsp : exists p pr, scheduler_priority (C:=C) (get_scheduler t) = Ret p /\
    combine_priority p match normalize n t with
      | Cpu.PrioritizedFIFO p | Cpu.PrioritizedRR p => p | _ => MAX_TASK_PRIORITY end = Ret pr).
  { destruct t as [r c|r|p|p|]; (eexists; eexists; split; [reflexivity|]; simpl;
      apply combine_priority_sum; [lia|]); try (unfold MAX_TASK_PRIORITY; rewrite Z.shiftl_1_l; lia);
      specialize (Hp p (ltac:(auto))); lia. }
  destruct Hsp as (p & pr & Hsp & Hpr).
  eexists _, i, _. split.
  { unfold tasks_spawn, gets, lift. sbind. rewrite Hf. cbn [unwrap]. rewrite Hsp, Hpr.
    reflexivity. }
  simpl. repeat (split; [done|]). split.
  - destruct Hi as [Hi _]. intros Hin. destruct (hand_active [] w _ Hi Hin) as (t' & Ht' & _).
    apply lookup_lt_Some in Ht'. lia.
  - intros set Hset. destruct t as [r c|r|q|q|]; simpl in Hset; try done. injection Hset as <-.
    case_if; [by apply Cpu.all_workers_normalized|by apply Cpu.masked_normalized].
Qed.

Lemma spawn_gives_fresh_task_witness :
  exists w' i task,
    Sched.tasks_spawn 3 SClusteredEDF (Cpu.ClusteredEDF 10 1) None ex_two = Ret (w', i) /\
    0 < i < 2 ^ 32 /\ Sched.id_to_task ex_two !! i = None /\
    Sched.id_to_task w' = <[i := length (Sched.tasks ex_two)]> (Sched.id_to_task ex_two) /\
    Sched.tasks w' = Sched.tasks ex_two ++ [task] /\
    Sched.id task = i /\ Sched.state task = Initialized /\
    (length (Sched.tasks ex_two) ∉ placed w') /\
    forall set, Sched.cpu_set task = Some set -> Cpu.normalized set 3.
Proof.
  apply (spawn_gives_fresh_task 3 true tie0 (Cpu.ClusteredEDF 10 1) None ex_two).
  - unfold Cpu.NUM_MAX_CPU. lia.
  - apply ex_two_reachable.
  - vm_compute. reflexivity.
  - intros p [E|E]; discriminate E.
Defined.

(** ** Waking *)

Section wake.
Context {C : Type} {HC : CpuMask C} {HCL : CpuMaskLaws C}
  {Q : Type} {HQ : AffinityQueue C Q} {HQL : AffinityQueueLaws C Q}.
Context (num_cpu : nat).
Implicit Types (w : World C Q) (a cpu : nat).

(** The total order on targets. *)
Lemma target_ltb_total w x y z :
  target_ltb w y x = false -> target_ltb w z y = false -> target_ltb w z x = false.
Proof.
  unfold target_ltb. destruct (key w x.1) as [px ix], (key w y.1) as [py iy], (key w z.1) as [pz iz].
  rewrite !orb_false_iff, !andb_false_iff, !negb_false_iff, !key_ltb_false, !key_ltb_spec,
    !Nat.ltb_ge. simpl. lia.
Qed.

Lemma target_ltb_irrefl w x : target_ltb w x x = false.
Proof.
  unfold target_ltb. destruct (key w x.1). 
  rewrite orb_false_iff, andb_false_iff, Nat.ltb_ge, key_ltb_false. simpl. lia.
Qed.

Lemma target_ltb_asym w x y : target_ltb w x y = true -> target_ltb w y x = false.
Proof.
  unfold target_ltb. destruct (key w x.1) as [px ix], (key w y.1) as [py iy].
  rewrite !orb_true_iff, !andb_true_iff, !negb_true_iff, !orb_false_iff, !andb_false_iff,
    !negb_false_iff, !key_ltb_false, !key_ltb_spec, !Nat.ltb_ge, !Nat.ltb_lt. simpl. lia.
Qed.

Lemma min_target_min w l x y : min_target w l = Some x -> y ∈ l -> target_ltb w y x = false.
Proof.
  destruct l as [|z l]; [done|]. simpl. intros [= <-]. revert z.
  assert (Hle : forall l z, target_ltb w z
    (foldl (fun m y => if target_ltb w y m then y else m) z l) = false).
  { clear. intros l. induction l as [|u l IH]; intros z; simpl; [apply target_ltb_irrefl|].
    eapply target_ltb_total; [apply IH|]. case_if; [by apply target_ltb_asym|apply target_ltb_irrefl]. }
  induction l as [|u l IH]; intros z Hy; simpl.
  { apply list_elem_of_singleton in Hy as ->. apply target_ltb_irrefl. }
  apply elem_of_cons in Hy as [->|[->|Hy]%elem_of_cons].
  - eapply target_ltb_total; [apply Hle|]. case_if; [by apply target_ltb_asym|apply target_ltb_irrefl].
  - eapply target_ltb_total; [apply Hle|]. case_if; [apply target_ltb_irrefl|done].
  - apply IH. by right.
Qed.

Lemma target_ltb_priority w x y :
  target_ltb w y x = false -> (key w x.1).1 <= (key w y.1).1.
Proof.
  unfold target_ltb. destruct (key w x.1) as [px ix], (key w y.1) as [py iy].
  rewrite orb_false_iff, key_ltb_false. simpl. lia.
Qed.

(** The busy CPUs whose task is registered, with the task to beat on each. *)
Definition targets w : list (nat * nat) :=
  omap (candidate w) (filter (fun rt : nat * Z => rt.2 <> 0) (get_tasks_running num_cpu w)).

Lemma elem_of_targets w cpu r :
  (cpu < num_cpu)%nat -> running w cpu <> 0 -> id_to_task w !! running w cpu = Some r ->
  (task_max w r (default r (peek_pending w cpu)), cpu) ∈ targets w.
Proof.
  intros Hc Hb Hr. apply list_elem_of_omap. exists (cpu, running w cpu). split.
  - apply list_elem_of_filter. split; [done|]. apply list_elem_of_fmap. exists cpu.
    split; [done|]. apply elem_of_seq. lia.
  - unfold candidate. simpl. rewrite Hr. done.
Qed.
End wake.


(** A FIFO task of priority 3 runs on CPU 1 and an RR task on CPU 2; a FIFO task of
    priority 7 is spawned but not yet woken. *)
Definition ex_busy : World Z EDFQueue :=
  world (tasks_spawn 3 SFIFO (Cpu.PrioritizedFIFO 7) None (world (run_main 3 true tie0 2 ex_poll))).


Lemma wake_task_count {C} `{CpuMask C} {Q} `{AffinityQueue C Q} n pe s a (w w' : World C Q) u :
  wake_task n pe s a w = Ret (w', u) -> NUM_TASK_IN_QUEUE w' = NUM_TASK_IN_QUEUE w.
Proof.
  intros Hr. eapply (keeps_wake_task n pe (fun w' => NUM_TASK_IN_QUEUE w' = NUM_TASK_IN_QUEUE w));
    try done; intros b; [apply keeps_invoke|apply keeps_clustered_invoke]; done.
Qed.

Lemma wake_runnable_count {C} `{CpuMask C} {Q} `{AffinityQueue C Q} n pe t a (w w' : World C Q) u :
  wake_runnable n pe t a w = Ret (w', u) ->
  NUM_TASK_IN_QUEUE w' = (if panicked t || bool_decide (cpu_set t = None)
    then wrap 32 (NUM_TASK_IN_QUEUE w + 1) else NUM_TASK_IN_QUEUE w) /\
  last (woken w') = Some 0%nat.
Proof.
  intros Hr. unfold wake_runnable in Hr.
  apply st_bind_ret in Hr as (w1 & u1 & [= <- _] & Hr).
  apply st_bind_ret in Hr as (w2 & u2 & Hc & Hr).
  apply st_bind_ret in Hr as (w3 & u3 & He & Hr). injection Hr as <- _. simpl.
  rewrite last_snoc. split; [|done].
  transitivity (NUM_TASK_IN_QUEUE w2).
  - case_in He; [by injection He as <- _|by eapply wake_task_count].
  - case_in Hc; [by injection Hc as <- _|by apply st_ret_ret in Hc as [-> _]].
Qed.

(** [Task::wake] by the state of the task.  A task that is running, runnable or
    preempted is only marked to be scheduled again, a finished one is left alone.
    A waiting or new one becomes runnable and gets exactly one place; the counter
    of queued tasks grows by one if the task is panicked or not clustered, and
    the primary CPU is woken to wake a worker. *)
Theorem wake_by_state {C} `{CpuMaskLaws C} {Q} `{AffinityQueue C Q}
    `{!AffinityQueueLaws C Q} n pe tie a t (w w' : World C Q) :
  reachable n pe tie w -> Sched.tasks w !! a = Some t ->
  Sched.wake n pe a w = Ret (w', tt) ->
  match Sched.state t with
  | Running | Runnable | Preempted =>
      w' = set_tasks w (alter (fun t => with_need_sched t true) a (Sched.tasks w))
  | Terminated | Panicked => w' = w
  | Initialized | Waiting =>
      (exists t', Sched.tasks w' !! a = Some t' /\ Sched.state t' = Runnable) /\
      placed w' ≡ₚ a :: placed w /\
      Sched.NUM_TASK_IN_QUEUE w' =
        (if Sched.panicked t || bool_decide (Sched.cpu_set t = None)
         then wrap 32 (Sched.NUM_TASK_IN_QUEUE w + 1) else Sched.NUM_TASK_IN_QUEUE w) /\
      last (Sched.woken w') = Some 0%nat
  end.
Proof.
  intros Hi%reachable_inv Ht Hr. unfold wake in Hr.
  apply st_bind_ret in Hr as (w1 & t' & [-> Ht']%task_at_ret & Hr).
  assert (t' = t) as -> by congruence.
  assert (Hnew : wake_runnable n pe t a w = Ret (w', tt) ->
    (exists t', tasks w' !! a = Some t' /\ state t' = Runnable) /\ placed w' ≡ₚ a :: placed w /\
    NUM_TASK_IN_QUEUE w' = (if panicked t || bool_decide (cpu_set t = None)
      then wrap 32 (NUM_TASK_IN_QUEUE w + 1) else NUM_TASK_IN_QUEUE w) /\
    last (woken w') = Some 0%nat); [|by destruct (state t); auto; injection Hr as <-].
  clear Hr. intros Hr. destruct Hi as [[Hw _] _].
  destruct (wake_runnable_enq _ _ _ _ _ _ _ Hw Ht Hr) as (_ & Hf & Hp). split; [|split].
  - assert (Hs : (skel <$> tasks w') !! a = Some (skel (with_state t Runnable))).
    { rewrite (fr_tasks _ _ Hf). simpl. by rewrite list_lookup_fmap, list_lookup_alter_eq, Ht. }
    apply lookup_skel in Hs as (t3 & Ht3 & Hs). exists t3. split; [done|].
    by injection Hs as _ _ <- _ _ _ _.
  - rewrite Hp; [done|]. by destruct Hw.
  - by eapply wake_runnable_count.
Qed.

(** The poll of the FIFO task ends and it waits. *)
Definition ex_wait : World Z EDFQueue := world (end_poll 3 true 1 1 RPending ex_poll).

Lemma ex_wait_reachable : reachable 3 true tie0 ex_wait.
Proof.
  apply (reachable_step _ _ _ ex_poll); [apply ex_poll_reachable|].
  apply (step_end _ _ _ _ _ 1 1 RPending); vm_compute; reflexivity.
Qed.

Lemma wake_by_state_witness :
  exists w' t, Sched.wake 3 true 1 ex_wait = Ret (w', tt) /\
    Sched.tasks ex_wait !! 1%nat = Some t /\ Sched.state t = Waiting /\
    (exists t', Sched.tasks w' !! 1%nat = Some t' /\ Sched.state t' = Runnable) /\
    placed w' ≡ₚ 1%nat :: placed ex_wait.
Proof.
  assert (Hr : exists w', Sched.wake 3 true 1 ex_wait = Ret (w', tt)).
  { eexists. vm_compute. reflexivity. }
  assert (Ht : exists t, Sched.tasks ex_wait !! 1%nat = Some t /\ Sched.state t = Waiting).
  { eexists. split; vm_compute; reflexivity. }
  destruct Hr as [w' Hr]. destruct Ht as (t & Ht & Hs). exists w', t.
  pose proof (wake_by_state 3 true tie0 1 t ex_wait w' ex_wait_reachable Ht Hr) as Hk.
  rewrite Hs in Hk. destruct Hk as (Hk1 & Hk2 & _).
  exact (conj Hr (conj Ht (conj Hs (conj Hk1 Hk2)))).
Defined.

(** ** Waking workers *)

Section workers.
Context {C : Type} {HC : CpuMask C} {HCL : CpuMaskLaws C}.

(** The sleeping CPUs outside of the mask. *)
Definition sleepers (mask : C) (asleep : nat -> bool) (cpus : list nat) : list nat :=
  filter (fun i => contains mask i = false /\ asleep i = true) cpus.

Lemma wake_workers_loop_spec mask asleep k cpus :
  0 <= k ->
  (forall i, i ∈ cpus -> contains mask i = true -> i ∈ wake_loop mask asleep k cpus) /\
  (forall i, i ∈ wake_loop mask asleep k cpus -> i ∈ cpus) /\
  Z.of_nat (length (sleepers mask asleep (wake_loop mask asleep k cpus))) =
    Z.min k (Z.of_nat (length (sleepers mask asleep cpus))).
Proof.
  revert k. induction cpus as [|i cpus IH]; intros k Hk; simpl.
  { split; [|split]; [by intros i ?%not_elem_of_nil|done|]. unfold sleepers. simpl. lia. }
  unfold sleepers. rewrite filter_cons. destruct (contains mask i) eqn:Hc.
  - destruct (IH k Hk) as (I1 & I2 & I3). rewrite filter_cons.
    rewrite !decide_False by (intros [? ?]; congruence). split; [|split; [|done]]; set_solver.
  - destruct (Z.eqb_spec k 0) as [->|Hz].
    + destruct (IH 0 Hk) as (I1 & I2 & I3). split; [|split; [set_solver|]].
      * intros j [->|Hj]%elem_of_cons; [congruence|]. auto.
      * fold (sleepers mask asleep (wake_loop mask asleep 0 cpus)). rewrite I3. lia.
    + destruct (asleep i) eqn:Ha.
      * destruct (IH (k - 1) ltac:(lia)) as (I1 & I2 & I3). rewrite filter_cons.
        rewrite !decide_True by done. split; [|split; [set_solver|]].
        { intros j [->|Hj]%elem_of_cons; [congruence|]. right. auto. }
        simpl length. fold (sleepers mask asleep (wake_loop mask asleep (k - 1) cpus)).
        fold (sleepers mask asleep cpus). lia.
      * destruct (IH k Hk) as (I1 & I2 & I3). rewrite filter_cons.
        rewrite !decide_False by (intros [? ?]; congruence). split; [|split; [set_solver|done]].
        intros j [->|Hj]%elem_of_cons; [congruence|]. right. auto.
Qed.
End workers.

(** C40: [wake_workers] wakes every worker for which some clustered task is queued,
    no matter how many tasks the global counter has, and of the other sleeping
    workers as many as the counter says there are tasks, or all if there are
    fewer.  It wakes nothing but workers. *)
Theorem wake_workers_wakes_enough {C} `{CpuMaskLaws C} {Q} `{AffinityQueue C Q}
    `{!AffinityQueueLaws C Q} n asleep (w w' : World C Q) :
  0 <= Sched.NUM_TASK_IN_QUEUE w ->
  Sched.wake_workers n asleep w = Ret (w', tt) ->
  let mask := Sched.clustered_queued_cpu_mask w in
  exists calls, Sched.woken w' = Sched.woken w ++ calls /\
    (forall i, i ∈ calls -> (1 <= i < n)%nat) /\
    (forall i q, (1 <= i < n)%nat -> Sched.clustered w = Some q ->
      Exists (fun e => contains e.1.2 i = true) (aq_entries q) -> i ∈ calls) /\
    Z.of_nat (length (sleepers mask asleep calls)) =
      Z.min (Sched.NUM_TASK_IN_QUEUE w)
            (Z.of_nat (length (sleepers mask asleep (seq 1 (n - 1))))).
Proof.
  intros Hk [= <-] mask. eexists. split; [reflexivity|].
  destruct (wake_workers_loop_spec mask asleep (NUM_TASK_IN_QUEUE w) (seq 1 (n - 1)) Hk) as (K1 & K2 & K3).
  split; [|split; [|exact K3]].
  - intros i Hi. apply K2, elem_of_seq in Hi. lia.
  - intros i q Hi Hq He. apply K1; [apply elem_of_seq; lia|].
    unfold mask, clustered_queued_cpu_mask. simpl. rewrite Hq. simpl.
    rewrite contains_union, orb_true_iff. right. by apply aq_mask_spec.
Qed.

Lemma wake_workers_wakes_enough_witness :
  let w := ex_two in let asleep := fun _ : nat => true in
  exists w', Sched.wake_workers 3 asleep w = Ret (w', tt) /\
  let mask := Sched.clustered_queued_cpu_mask w in
  exists calls, Sched.woken w' = Sched.woken w ++ calls /\
    (forall i, i ∈ calls -> (1 <= i < 3)%nat) /\
    (forall i q, (1 <= i < 3)%nat -> Sched.clustered w = Some q ->
      Exists (fun e => contains e.1.2 i = true) (aq_entries q) -> i ∈ calls) /\
    Z.of_nat (length (sleepers mask asleep calls)) =
      Z.min (Sched.NUM_TASK_IN_QUEUE w)
            (Z.of_nat (length (sleepers mask asleep (seq 1 (3 - 1))))).
Proof.
  intros w asleep.
  assert (Hr : exists w', Sched.wake_workers 3 asleep w = Ret (w', tt)) by (eexists; reflexivity).
  destruct Hr as [w' Hr]. exists w'. split; [exact Hr|].
  refine (wake_workers_wakes_enough 3 asleep w w' _ Hr). vm_compute. discriminate.
Defined.
End SchedProps.
