(* ===== verification/SchedCount.v ===== *)
(** * The counter of queued tasks, without preemption

    With the feature [no_preempt], [NUM_TASK_IN_QUEUE] is the number of tasks in
    the run queues that it counts. *)

From S2P Require Import Prelude PriorityQueue Cpu Sched SchedInv SchedSafe SchedInst SchedProps.
Local Open Scope Z_scope.

Module SchedCount.
Import Sched SchedInv SchedSafe SchedInst SchedProps.

Section count.
Context {C : Type} {HC : CpuMask C} {HCL : CpuMaskLaws C}
  {Q : Type} {HQ : AffinityQueue C Q} {HQL : AffinityQueueLaws C Q}.
Context (num_cpu : nat) (tie : list GEDFTask -> nat).
Implicit Types (w : World C Q) (a cpu : nat).

(** Whether the counter counts the tasks of a scheduler. *)
Definition counted (s : Scheduler) : nat :=
  match s with SClusteredEDF => 0 | _ => 1 end.

(** The counter is exact, and the clustered tasks are those with a CPU set. *)
Record exact w : Prop := mkExact {
  ex_count : NUM_TASK_IN_QUEUE w = wrap 32 (Z.of_nat (length (queued w)));
  ex_cpu_set : forall a s, (skel <$> tasks w) !! a = Some s ->
    sk_clustered s = bool_decide (sk_scheduler s = SClusteredEDF)
}.

Lemma edf_deadline_queued w w' s a r dl :
  edf_deadline s a r w = Ret (w', dl) -> queued w' = queued w.
Proof.
  intros Hr. by eapply (keeps_edf (fun w' => queued w' = queued w)).
Qed.

Lemma wake_task_queued w w' s a u :
  wfq w -> wake_task num_cpu false s a w = Ret (w', u) ->
  length (queued w') = (counted s + length (queued w))%nat.
Proof.
  intros Hw Hr. destruct s; simpl in Hr.
  - unfold clustered_wake_task in Hr.
    apply st_bind_ret in Hr as (w1 & t & [-> _]%task_at_ret & Hr).
    apply st_bind_ret in Hr as (w1 & p & [-> _]%lift_ret & Hr).
    apply st_bind_ret in Hr as (w1 & dl & Hd%edf_deadline_queued & Hr).
    apply st_bind_ret in Hr as (w2 & set & [-> _]%lift_ret & Hr).
    apply st_bind_ret in Hr as (w2 & u1 & Hn & Hr).
    assert (w2 = w1) as ->. { destruct (is_empty set || _); [done|]. by apply st_ret_ret in Hn as [-> _]. }
    apply st_bind_ret in Hr as (w2 & b & Hb & Hr). apply st_ret_ret in Hb as [-> ->].
    apply st_bind_ret in Hr as (w3 & q & [-> ->]%gets_ret & Hr).
    apply st_bind_ret in Hr as (w3 & u2 & [= <- _] & Hr).
    apply st_bind_ret in Hr as (w3 & q' & [-> Hq]%lift_ret & Hr).
    injection Hr as <- _. simpl. by rewrite <-Hd.
  - unfold gedf_wake_task in Hr.
    apply st_bind_ret in Hr as (w1 & t & [-> _]%task_at_ret & Hr).
    apply st_bind_ret in Hr as (w1 & p & [-> _]%lift_ret & Hr).
    apply st_bind_ret in Hr as (w1 & dl & Hd%edf_deadline_queued & Hr).
    apply st_bind_ret in Hr as (w2 & b & Hb & Hr). apply st_ret_ret in Hb as [-> ->].
    injection Hr as <- _. rewrite <-Hd. unfold queued, gedf_list.
    cbn [gedf set_gedf fifo rr panicked_queue default from_option].
    rewrite !length_app, !length_fmap. simpl. unfold id. lia.
  - unfold fifo_wake_task in Hr.
    apply st_bind_ret in Hr as (w1 & t & [-> _]%task_at_ret & Hr).
    apply st_bind_ret in Hr as (w1 & p & [-> _]%lift_ret & Hr).
    apply st_bind_ret in Hr as (w2 & b & Hb & Hr). apply st_ret_ret in Hb as [-> ->].
    apply st_bind_ret in Hr as (w3 & q & [-> ->]%gets_ret & Hr).
    apply st_bind_ret in Hr as (w3 & q' & [-> Hq]%lift_ret & Hr). injection Hr as <- _.
    assert (Hl : length (concat (PriorityQueue.queue q')) = S (length (pq_list (fifo w)))).
    { destruct (fifo w) as [q|] eqn:Hf; simpl in *.
      - apply pq_push_contents in Hq as [_ Hq]; [by rewrite Hq|by apply (wfq_fifo _ Hw)].
      - apply pq_push_contents in Hq as [_ Hq]; [by rewrite Hq|apply PriorityQueue.new_wf]. }
    unfold queued. simpl. rewrite !length_app, Hl. simpl. lia.
  - unfold rr_wake_task in Hr.
    apply st_bind_ret in Hr as (w1 & t & [-> _]%task_at_ret & Hr).
    apply st_bind_ret in Hr as (w1 & p & [-> _]%lift_ret & Hr).
    apply st_bind_ret in Hr as (w2 & b & Hb & Hr). apply st_ret_ret in Hb as [-> ->].
    apply st_bind_ret in Hr as (w3 & q & [-> ->]%gets_ret & Hr).
    apply st_bind_ret in Hr as (w3 & q' & [-> Hq]%lift_ret & Hr). injection Hr as <- _.
    assert (Hl : length (concat (PriorityQueue.queue q')) = S (length (pq_list (rr w)))).
    { destruct (rr w) as [q|] eqn:Hf; simpl in *.
      - apply pq_push_contents in Hq as [_ Hq]; [by rewrite Hq|by apply (wfq_rr _ Hw)].
      - apply pq_push_contents in Hq as [_ Hq]; [by rewrite Hq|apply PriorityQueue.new_wf]. }
    unfold queued. simpl. rewrite !length_app, Hl. simpl. lia.
  - injection Hr as <- _. unfold queued. simpl. rewrite !length_app. simpl. lia.
Qed.

(** ** Waking *)

Lemma wake_exact w w' a u : inv false w -> exact w -> wake num_cpu false a w = Ret (w', u) -> exact w'.
Proof.
  intros Hi [E1 E2] Hr. unfold wake in Hr.
  apply st_bind_ret in Hr as (w1 & t & [-> Ht]%task_at_ret & Hr).
  assert (Hflag : forall w1 u1, upd_task a (fun t => with_need_sched t true) w = Ret (w1, u1) -> exact w1).
  { intros w1 u1 [= <- _]. split; [exact E1|].
    rewrite (fr_tasks _ _ (frame_upd w a (fun t => with_need_sched t true) (fun _ => eq_refl))). done. }
  assert (Hnew : wake_runnable num_cpu false t a w = Ret (w', u) -> exact w').
  { clear Hr. intros Hr. destruct Hi as [[Hw _] _].
    pose proof (wake_runnable_count _ _ _ _ _ _ _ Hr) as [Hn _].
    destruct (wake_runnable_enq _ _ _ _ _ _ _ Hw Ht Hr) as (_ & Hf & _).
    specialize (E2 a (skel t) (skel_lookup _ _ _ Ht)) as E2a. simpl in E2a.
    assert (Hq : length (queued w') =
      ((if panicked t then 1 else counted (scheduler t)) + length (queued w))%nat).
    { unfold wake_runnable in Hr.
      apply st_bind_ret in Hr as (w1 & u1 & [= <- _] & Hr).
      apply st_bind_ret in Hr as (w2 & u2 & Hc & Hr).
      apply st_bind_ret in Hr as (w3 & u3 & He & Hr). injection Hr as <- _.
      assert (Hw2 : wfq w2 /\ queued w2 = queued w).
      { case_in Hc; [injection Hc as <- _|apply st_ret_ret in Hc as [-> _]]; (split; [by destruct Hw|done]). }
      destruct Hw2 as [Hw2 <-]. transitivity (length (queued w3)); [done|]. case_in He.
      - exact (wake_task_queued w2 w3 SPanicked a u3 Hw2 He).
      - by eapply wake_task_queued. }
    split.
    - rewrite Hn, Hq, E1. destruct (panicked t); simpl.
      + rewrite wrap_succ. f_equal. lia.
      + destruct (decide (scheduler t = SClusteredEDF)) as [Es|Es].
        * rewrite Es in *. apply bool_decide_eq_true in E2a as [c Hc]. by rewrite Hc.
        * rewrite (bool_decide_eq_false_2 _ Es) in E2a. apply bool_decide_eq_false in E2a.
          rewrite bool_decide_eq_true_2 by (destruct (cpu_set t); [destruct E2a; eauto|done]).
          rewrite wrap_succ. f_equal. destruct (scheduler t); simpl; [done|lia..].
    - intros b s. rewrite (fr_tasks _ _ Hf). simpl.
      rewrite (fmap_alter_skel _ (fun s => mkSkel (sk_id s) (sk_scheduler s) Runnable (sk_thread s)
        (sk_locked s) (sk_done s) (sk_clustered s))) by done.
      rewrite (alter_lookup _ _ _ _ b (skel_lookup _ _ _ Ht)).
      destruct (decide (a = b)); [|apply E2]. by intros [= <-]. }
  destruct (state t); try (by apply (Hflag w' u)); try (by apply Hnew);
    by apply st_ret_ret in Hr as [-> _].
Qed.

(** ** Taking the next task *)

Lemma pop_of_queued w w' s cpu o :
  wfq w -> pop_of tie s cpu w = Ret (w', o) ->
  length (queued w) = (match o with Some _ => counted s | None => 0 end + length (queued w'))%nat /\
  NUM_TASK_IN_QUEUE w' = NUM_TASK_IN_QUEUE w.
Proof.
  intros Hw Hr. destruct s; simpl in Hr.
  - revert Hr. unfold pop_clustered. sbind. 
    destruct (clustered w) as [q|]; simpl; [|by intros [= <- <-]].
    by destruct (aq_pop_for_cpu q cpu) as [[x q']|]; intros [= <- <-].
  - revert Hr. unfold pop_gedf. sbind. destruct (gedf w) as [l|] eqn:Hq; simpl; [|by intros [= <- <-]].
    destruct (gedf_heap_pop tie l) as [[x l']|] eqn:Hp; intros [= <- <-]; [|done].
    apply gedf_heap_pop_spec in Hp as (_ & _ & Hp%Permutation_length). split; [|done].
    unfold queued, gedf_list. rewrite Hq. simpl. rewrite !length_app, !length_fmap, Hp. simpl. lia.
  - unfold pop_fifo in Hr. apply st_bind_ret in Hr as (w1 & o1 & [-> ->]%gets_ret & Hr).
    destruct (fifo w) as [q|] eqn:Hq; [|by apply st_ret_ret in Hr as [-> ->]].
    apply st_bind_ret in Hr as (w1 & [q' r] & [-> Hp]%lift_ret & Hr).
    revert Hr. sbind. intros [= <- <-].
    apply pq_pop_contents in Hp as [_ Hc]; [|by apply (wfq_fifo _ Hw)].
    split; [|done]. unfold queued. rewrite Hq. simpl. rewrite !length_app.
    destruct r; [rewrite Hc; simpl; lia|by subst].
  - unfold pop_rr in Hr. apply st_bind_ret in Hr as (w1 & o1 & [-> ->]%gets_ret & Hr).
    destruct (rr w) as [q|] eqn:Hq; [|by apply st_ret_ret in Hr as [-> ->]].
    apply st_bind_ret in Hr as (w1 & [q' r] & [-> Hp]%lift_ret & Hr).
    revert Hr. sbind. intros [= <- <-].
    apply pq_pop_contents in Hp as [_ Hc]; [|by apply (wfq_rr _ Hw)].
    split; [|done]. unfold queued. rewrite Hq. simpl. rewrite !length_app.
    destruct r; [rewrite Hc; simpl; lia|by subst].
  - revert Hr. unfold pop_panicked. sbind.
    destruct (panicked_queue w) as [[|x l]|] eqn:Hq; intros [= <- <-]; try done.
    split; [|done]. unfold queued. rewrite Hq. simpl. rewrite !length_app. simpl. lia.
Qed.

Lemma quiet_queued w w' : quiet w w' -> queued w' = queued w.
Proof. intros []. unfold queued. congruence. Qed.

Lemma claim_count w w' cpu ensured a b :
  claim cpu ensured a w = Ret (w', b) -> NUM_TASK_IN_QUEUE w' = NUM_TASK_IN_QUEUE w.
Proof.
  intros Hr. assert (Hk : keeps (fun w' => NUM_TASK_IN_QUEUE w' = NUM_TASK_IN_QUEUE w)
    (claim (C:=C) (Q:=Q) cpu ensured a)); [|by eapply Hk].
  unfold claim, task_at, upd_task, set_current_task. keeps_tac.
Qed.

Lemma get_next_queued w w' s cpu ensured o :
  inv_hand [] w -> get_next tie s cpu ensured w = Ret (w', o) ->
  length (queued w) = (match o with Some _ => counted s | None => 0 end + length (queued w'))%nat /\
  NUM_TASK_IN_QUEUE w' = NUM_TASK_IN_QUEUE w.
Proof.
  intros Hi Hr%get_next_loop. cbn [next_loop] in Hr. apply st_bind_ret in Hr as (w1 & o1 & Hp & Hr).
  pose proof (pop_of_queued _ _ _ _ _ (proj1 Hi) Hp) as [Hq Hn]. apply pop_of_deq in Hp.
  destruct o1 as [a|]; [|by apply st_ret_ret in Hr as [-> ->]].
  pose proof (deq_hand _ _ _ _ Hp Hi) as Hi1.
  destruct (hand_active _ _ a Hi1) as (t & Ht & Hact); [left|].
  apply st_bind_ret in Hr as (w2 & b & Hc & Hr). pose proof (claim_count _ _ _ _ _ _ Hc) as Hn'.
  destruct (claim_spec _ _ _ _ _ _ _ Ht Hact Hc) as (-> & Hqt & _).
  apply st_ret_ret in Hr as [-> ->]. rewrite (quiet_queued _ _ Hqt). split; [done|]. congruence.
Qed.

Lemma find_next_queued w w' l cpu ensured o k :
  inv_hand [] w -> Forall (fun t => counted (get_scheduler t) = k) l ->
  find_next tie l cpu ensured w = Ret (w', o) ->
  length (queued w) = (match o with Some _ => k | None => 0 end + length (queued w'))%nat /\
  NUM_TASK_IN_QUEUE w' = NUM_TASK_IN_QUEUE w.
Proof.
  intros Hi Hl. revert w Hi. induction Hl as [|t l Ht Hl IH]; intros w Hi; simpl; intros Hr.
  { by apply st_ret_ret in Hr as [-> ->]. }
  apply st_bind_ret in Hr as (w1 & o1 & Hn & Hr).
  pose proof (get_next_queued _ _ _ _ _ _ Hi Hn) as [Hq Hc].
  destruct o1 as [a|]; [apply st_ret_ret in Hr as [-> ->]; by rewrite <-Ht|].
  assert (Hi1 : inv_hand [] w1).
  { apply get_next_loop, next_loop_spec in Hn; [|done]. by apply (deq_hand [] [] w). }
  destruct (IH _ Hi1 Hr) as [Hq' Hc']. rewrite Hq, Hq', Hc', Hc. done.
Qed.

Lemma scheduler_get_next_task_queued w w' cpu ensured o :
  inv_hand [] w -> exact w -> scheduler_get_next_task tie cpu ensured w = Ret (w', o) ->
  NUM_TASK_IN_QUEUE w' = wrap 32 (Z.of_nat (length (queued w'))).
Proof.
  intros Hi [E1 _] Hr. unfold scheduler_get_next_task in Hr.
  apply st_bind_ret in Hr as (w1 & n & [-> ->]%gets_ret & Hr).
  apply st_bind_ret in Hr as (w1 & o1 & Hn & Hr).
  assert (H1 : length (queued w) = length (queued w1) /\
    NUM_TASK_IN_QUEUE w1 = NUM_TASK_IN_QUEUE w /\
    match o1 with None => inv_hand [] w1 | Some _ => True end).
  { case_in Hn.
    - pose proof (find_next_spec _ _ _ _ _ _ _ Hi Hn) as Hs.
      eapply (find_next_queued _ _ _ _ _ _ 0) in Hn as [Hq Hc]; [|done|by repeat constructor].
      split; [by destruct o1|]. split; [done|]. destruct o1; [done|]. by apply (deq_hand [] [] w).
    - by apply st_ret_ret in Hn as [-> ->]. }
  destruct H1 as (Hq1 & Hc1 & Hi1).
  destruct o1 as [a|]; [apply st_ret_ret in Hr as [-> _]; congruence|].
  unfold get_next_global in Hr. apply st_bind_ret in Hr as (w2 & o2 & Hg & Hr).
  eapply (find_next_queued _ _ _ _ _ _ 1) in Hg as [Hq2 Hc2]; [|done|by repeat constructor].
  destruct o2 as [a|].
  - revert Hr. sbind. intros [= <- _]. simpl. rewrite Hc2, Hc1, E1, Hq1, Hq2.
    change (queued (set_NUM_TASK_IN_QUEUE w2 _)) with (queued w2).
    rewrite Nat2Z.inj_add, Z.add_comm. apply wrap_pred.
  - apply st_ret_ret in Hr as [-> _]. rewrite Hc2, Hc1, E1, Hq1, Hq2. done.
Qed.

(** Changes that touch neither the counter nor the counted queues. *)
Lemma exact_frame w w' :
  exact w -> queued w' = queued w -> NUM_TASK_IN_QUEUE w' = NUM_TASK_IN_QUEUE w ->
  (forall a s, (skel <$> tasks w') !! a = Some s -> exists s0, (skel <$> tasks w) !! a = Some s0 /\
    sk_clustered s = sk_clustered s0 /\ sk_scheduler s = sk_scheduler s0) -> exact w'.
Proof.
  intros [E1 E2] Hq Hn Hs. split; [by rewrite Hn, Hq|].
  intros a s Ha. destruct (Hs a s Ha) as (s0 & Ha0 & -> & ->). by apply (E2 a).
Qed.

Lemma skel_alter (f : Task C -> Task C) a (ts : list (Task C)) :
  (forall t, sk_clustered (skel (f t)) = sk_clustered (skel t) /\
    sk_scheduler (skel (f t)) = sk_scheduler (skel t)) ->
  forall b s, (skel <$> alter f a ts) !! b = Some s -> exists s0, (skel <$> ts) !! b = Some s0 /\
    sk_clustered s = sk_clustered s0 /\ sk_scheduler s = sk_scheduler s0.
Proof.
  intros Hf b s. rewrite !list_lookup_fmap. destruct (decide (a = b)) as [->|Hn].
  - rewrite list_lookup_alter_eq. destruct (ts !! b) as [t|]; [|done]. intros [= <-].
    exists (skel t). split; [done|]. apply Hf.
  - rewrite list_lookup_alter_ne by done. intros Hs. by exists s.
Qed.

Lemma run_main_exact w w' cpu turn :
  polling w !! cpu = None -> inv false w -> exact w ->
  run_main num_cpu false tie cpu w = Ret (w', turn) -> exact w'.
Proof.
  intros Hcpu Hi He Hr. unfold run_main in Hr.
  apply st_bind_ret in Hr as (w0 & w0' & [-> ->]%gets_ret & Hr).
  apply st_bind_ret in Hr as (w1 & u1 & Hp & Hr). apply st_ret_ret in Hp as [-> _].
  apply st_bind_ret in Hr as (w2 & o & Hn & Hr).
  assert (E2 : exact w2).
  { pose proof (get_next_task_spec _ _ _ _ _ _ (proj1 Hi) Hn) as Hs. unfold get_next_task in Hn.
    apply st_bind_ret in Hn as (w1 & o1 & Hno & Hn). apply st_ret_ret in Hno as [-> ->].
    split; [by eapply scheduler_get_next_task_queued; [apply Hi| |]|].
    intros b s. destruct o as [a|].
    - destruct (tk_tasks _ _ _ _ _ Hs) as (st & _ & ->). intros Hb.
      destruct (decide (a = b)) as [->|?].
      + rewrite list_lookup_alter_eq in Hb. destruct ((skel <$> tasks w) !! b) eqn:E; [|done].
        injection Hb as <-. simpl. by apply (ex_cpu_set _ He b).
      + rewrite list_lookup_alter_ne in Hb by done. by apply (ex_cpu_set _ He b).
    - destruct Hs as (_ & Hf & _). rewrite (fr_tasks _ _ Hf). apply He. }
  destruct o as [a|]; [|by apply st_ret_ret in Hr as [-> _]].
  pose proof (get_next_task_spec _ _ _ _ _ _ (proj1 Hi) Hn) as Ht.
  apply st_bind_ret in Hr as (w3 & u3 & Hw3 & Hr). injection Hw3 as <- _.
  apply st_bind_ret in Hr as (w3 & t & [-> Ha]%task_at_ret & Hr). simpl in Ha, Hr.
  destruct (taken_task _ _ _ _ _ Hi Ht) as (t' & Ha' & Hact & Hd & Hlk & Hth & _).
  assert (t' = t) as -> by congruence. unfold begin_poll in Hr.
  apply st_bind_ret in Hr as (w3 & t' & [-> Ha'']%task_at_ret & Hr). simpl in Ha''.
  assert (t' = t) as -> by congruence.
  assert (Hlk' : locked t = false). { rewrite Hlk. destruct (thread t); [by specialize (Hth eq_refl)|done]. }
  rewrite Hlk', Hd in Hr.
  rewrite (bool_decide_eq_false_2 (state t = Terminated)) in Hr by (by intros E; rewrite E in Hact).
  rewrite (bool_decide_eq_false_2 (state t = Panicked)) in Hr by (by intros E; rewrite E in Hact).
  revert Hr. simpl. unfold upd_task, set_current_task. sbind. intros [= <- _].
  eapply exact_frame; [exact E2|done|done|]. simpl. by apply skel_alter.
Qed.

Lemma end_poll_exact w w' cpu a r u :
  polling w !! cpu = Some a -> inv false w -> exact w ->
  end_poll num_cpu false cpu a r w = Ret (w', u) -> exact w'.
Proof.
  intros Hcpu Hi He Hr. apply end_poll_cases in Hr as (t & Ha & Hr). simpl in Hr.
  destruct (waiting_inv _ _ _ _ Hi Hcpu) as [Hw1 Hw2].
  assert (E1 : exact (waiting w cpu a)).
  { apply (exact_frame w); try done. unfold waiting, ended. simpl.
    rewrite list_alter_alter_eq. by apply skel_alter. }
  destruct r.
  - destruct Hr as [->|Hr]; [done|]. eapply wake_exact; [exact Hw2| |exact Hr].
    eapply exact_frame; [exact E1|done|done|]. by apply skel_alter.
  - subst w'. apply (exact_frame w); try done. simpl. rewrite list_alter_alter_eq. by apply skel_alter.
  - subst w'. apply (exact_frame w); try done. simpl. rewrite list_alter_alter_eq. by apply skel_alter.
Qed.

Lemma inner_spawn_exact w w' t d i :
  inv false w -> exact w -> inner_spawn num_cpu false t d w = Ret (w', i) -> exact w'.
Proof.
  intros Hi He Hr. unfold inner_spawn in Hr.
  apply st_bind_ret in Hr as (w1 & j & Hs & Hr).
  pose proof (tasks_spawn_inv _ _ _ _ _ _ _ _ Hi Hs) as Hi1.
  assert (E1 : exact w1).
  { unfold tasks_spawn in Hs.
    apply st_bind_ret in Hs as (w2 & o & [-> ->]%gets_ret & Hs).
    apply st_bind_ret in Hs as (w2 & k & [-> _]%lift_ret & Hs).
    apply st_bind_ret in Hs as (w2 & p & [-> _]%lift_ret & Hs).
    apply st_bind_ret in Hs as (w2 & pr & [-> _]%lift_ret & Hs).
    revert Hs. sbind. intros [= <- _]. destruct He as [E1 E2]. split; [exact E1|].
    intros b s. simpl. rewrite fmap_app. intros [Hb|[_ Hb]]%lookup_app_Some; [by apply (E2 b)|].
    apply list_lookup_singleton_Some in Hb as [_ <-]. simpl. by destruct t. }
  apply st_bind_ret in Hr as (w2 & o & [-> ->]%gets_ret & Hr).
  apply st_bind_ret in Hr as (w2 & u & Hw & Hr). apply st_ret_ret in Hr as [-> _].
  destruct (id_to_task w1 !! j); [by eapply wake_exact|]. by apply st_ret_ret in Hw as [-> _].
Qed.

Lemma step_exact w w' : inv false w -> exact w -> step num_cpu false tie w w' -> exact w'.
Proof.
  intros Hi He Hs. destruct Hs as [w w' t d i Hr|w w' a Hr|w w' Hr|w w' asleep Hr|w w' cpu turn Hc Hr|
    w w' cpu a r Hc Hr|w w' cpu Hpe Hc Hr|w w' cpu Hpe Hc Hr|w w' cpu Hc Hr|w now|w ds reg];
    try done; try (by destruct He).
  - by eapply inner_spawn_exact.
  - by eapply wake_exact.
  - by apply st_ret_ret in Hr as [-> _].
  - injection Hr as <-. by destruct He.
  - by eapply run_main_exact.
  - by eapply end_poll_exact.
  - unfold panicking in Hr. apply st_bind_ret in Hr as (w1 & c & [-> ->]%gets_ret & Hr).
    case_in Hr; [by apply st_ret_ret in Hr as [-> _]|].
    apply st_bind_ret in Hr as (w1 & o & [-> ->]%gets_ret & Hr).
    destruct (id_to_task w !! _) as [a|]; [|by apply st_ret_ret in Hr as [-> _]].
    apply st_bind_ret in Hr as (w1 & u & [= <- _] & Hr). apply st_ret_ret in Hr as [-> _].
    eapply exact_frame; [exact He|done|done|]. by apply skel_alter.
Qed.

Lemma reachable_exact w : reachable num_cpu false tie w -> exact w.
Proof.
  induction 1 as [|w w' Hw IH Hs]; [by split|].
  eapply step_exact; [|exact IH|exact Hs]. by eapply reachable_inv.
Qed.
End count.

(** C39: without preemption, [NUM_TASK_IN_QUEUE], from which [wake_workers] decides
    how many workers to wake, is the number of tasks in the FIFO, RR, GEDF and
    panicked run queues (modulo 2^32) after every call. *)
Theorem queue_counter_exact_without_preemption {C} `{CpuMaskLaws C} {Q} `{AffinityQueue C Q}
    `{!AffinityQueueLaws C Q} n tie (w : World C Q) :
  reachable n false tie w ->
  Sched.NUM_TASK_IN_QUEUE w = wrap 32 (Z.of_nat (length (queued w))).
Proof. intros Hr. by apply (ex_count w), (reachable_exact n tie). Qed.

(** Two tasks are spawned without preemption and one of them is polled. *)
Definition np_spawn (t : Cpu.SchedulerType Z) (w : World Z EDFQueue) : World Z EDFQueue :=
  world (inner_spawn 2 false t None w).
Definition np_one : World Z EDFQueue := np_spawn (Cpu.PrioritizedFIFO 1) boot.
Definition np_two : World Z EDFQueue := np_spawn (Cpu.GEDF 500) np_one.
Definition np_poll : World Z EDFQueue := world (run_main 2 false tie0 1 np_two).

Lemma queue_counter_exact_without_preemption_witness :
  queued np_poll = [0%nat] /\
  Sched.NUM_TASK_IN_QUEUE np_poll = wrap 32 (Z.of_nat (length (queued np_poll))).
Proof.
  split; [vm_compute; reflexivity|].
  apply (queue_counter_exact_without_preemption 2 tie0 np_poll).
  apply (reachable_step _ _ _ np_two).
  - apply (reachable_step _ _ _ np_one).
    + apply (reachable_step _ _ _ boot); [constructor|].
      apply (step_spawn _ _ _ _ _ (Cpu.PrioritizedFIFO 1) None 1). vm_compute. reflexivity.
    + apply (step_spawn _ _ _ _ _ (Cpu.GEDF 500) None 2). vm_compute. reflexivity.
  - apply (step_run _ _ _ _ _ 1 (TPoll 1)); vm_compute; reflexivity.
Defined.
End SchedCount.
