(* ===== verification/SchedBugs.v ===== *)
(** * Histories in which the schedulers go wrong

    Each is a sequence of calls from boot, evaluated on the definitions, with the
    bit-mask and list instances of the external types. *)

From S2P Require Import Prelude PriorityQueue Cpu Sched SchedInv SchedSafe SchedInst SchedProps.
Local Open Scope Z_scope.

Module SchedBugs.
Import Sched SchedInv SchedSafe SchedInst SchedProps.

(** The calls of a history, on three CPUs with preemption. *)
Local Abbreviation W := (World Z EDFQueue).
Definition spawn (t : Cpu.SchedulerType Z) (w : W) : W := world (inner_spawn 3 true t None w).
Definition turn (cpu : nat) (w : W) : W := world (run_main 3 true tie0 cpu w).
Definition at_time (now : Z) (w : W) : W := set_clock w now.
Definition do_tick (w : W) : W := world (tick 3 true tie0 w).
Definition interrupt (cpu : nat) (w : W) : W := world (preemption 3 true cpu true w).

(** One step of a history by evaluation. *)
Ltac by_call := intros; vm_compute; reflexivity.
Ltac by_calls := lazymatch goal with |- _ /\ _ => split; [by_call|by_calls] | _ => by_call end.

(** ** The time quantum and the counter of queued tasks *)

(** An RR task of priority 10 is polled on CPU 1, one of priority 3 waits in the
    queue; the quantum of the first expires. *)
Definition q_spawn : W := spawn (Cpu.PrioritizedRR 10) boot.
Definition q_poll : W := turn 1 q_spawn.
Definition q_two : W := spawn (Cpu.PrioritizedRR 3) q_poll.
Definition q_late : W := at_time 5000000 q_two.
Definition q_tick : W := do_tick q_late.
Definition q_back : W := interrupt 1 q_tick.

Lemma q_back_reachable : reachable 3 true tie0 q_back.
Proof.
  apply (reachable_step _ _ _ q_tick).
  2:{ apply (step_preemption _ _ _ _ _ 1); [reflexivity|left; eexists; by_call|by_call]. }
  apply (reachable_step _ _ _ q_late); [|apply (step_tick _ _ _ _ _); by_call].
  apply (reachable_step _ _ _ q_two); [|exact (step_clock _ _ _ q_two 5000000)].
  apply (reachable_step _ _ _ q_poll).
  2:{ apply (step_spawn _ _ _ _ _ (Cpu.PrioritizedRR 3) None 2). by_call. }
  apply (reachable_step _ _ _ q_spawn).
  2:{ apply (step_run _ _ _ _ _ 1 (TPoll 0)); by_call. }
  apply (reachable_step _ _ _ boot); [constructor|].
  apply (step_spawn _ _ _ _ _ (Cpu.PrioritizedRR 10) None 1). by_call.
Qed.

(** The tick of the RR scheduler takes a task out of its queue, which decreases
    [NUM_TASK_IN_QUEUE], and the preemption that it asks for puts the task back
    without increasing it: the counter is 0 with a task queued, [wake_workers]
    then wakes no sleeping worker for it, and the next tick wraps the counter
    around to 2^32 - 1. *)
Theorem rr_tick_undercounts_queue :
  reachable 3 true tie0 q_back /\
  Sched.NUM_TASK_IN_QUEUE q_two = 1 /\ queued q_two = [1%nat] /\
  Sched.NUM_TASK_IN_QUEUE q_back = 0 /\ queued q_back = [1%nat] /\
  Sched.woken (world (Sched.wake_workers 3 (fun _ => true) q_back)) = Sched.woken q_back /\
  Sched.NUM_TASK_IN_QUEUE (do_tick q_back) = 2 ^ 32 - 1.
Proof.
  split; [exact q_back_reachable|]. by_calls.
Qed.

(** ** A clustered task preempts one of another scheduler *)

(** A FIFO task is polled on CPU 1; a clustered task for CPU 1 preempts it. *)
Definition c_poll : W := turn 1 (spawn (Cpu.PrioritizedFIFO 5) boot).
Definition c_wake : W := spawn (Cpu.ClusteredEDF 1000 2) c_poll.
Definition c_switch : W := interrupt 1 c_wake.
Definition c_run : W := turn 1 c_switch.

Lemma c_run_reachable : reachable 3 true tie0 c_run.
Proof.
  apply (reachable_step _ _ _ c_switch).
  2:{ apply (step_run _ _ _ _ _ 1 (TPoll 1)); by_call. }
  apply (reachable_step _ _ _ c_wake).
  2:{ apply (step_preemption _ _ _ _ _ 1); [reflexivity|left; eexists; by_call|by_call]. }
  apply (reachable_step _ _ _ c_poll).
  2:{ apply (step_spawn _ _ _ _ _ (Cpu.ClusteredEDF 1000 2) None 2). by_call. }
  apply (reachable_step _ _ _ (spawn (Cpu.PrioritizedFIFO 5) boot)).
  2:{ apply (step_run _ _ _ _ _ 1 (TPoll 0)); by_call. }
  apply (reachable_step _ _ _ boot); [constructor|].
  apply (step_spawn _ _ _ _ _ (Cpu.PrioritizedFIFO 5) None 1). by_call.
Qed.

(** A task that a clustered task preempts is put back into its run queue without
    being counted, because the clustered task that takes its place was never
    counted by [NUM_TASK_IN_QUEUE]: with the FIFO task queued and CPU 2 asleep,
    [wake_workers] wakes nobody, and taking the task later wraps the counter
    around. *)
Theorem clustered_preemption_undercounts_queue :
  reachable 3 true tie0 c_run /\
  Sched.polling c_run !! 1%nat = Some 1%nat /\ queued c_run = [0%nat] /\
  Sched.NUM_TASK_IN_QUEUE c_run = 0 /\ Sched.polling c_run !! 2%nat = None /\
  Sched.woken (world (Sched.wake_workers 3 (fun _ => true) c_run)) = Sched.woken c_run /\
  Sched.NUM_TASK_IN_QUEUE (turn 2 c_run) = 2 ^ 32 - 1.
Proof.
  split; [exact c_run_reachable|]. by_calls.
Qed.

(** ** A panicked task is preempted *)

(** A FIFO task panics in its poll, and a clustered task is woken before the
    unwinding of the panicked one has ended. *)
Definition p_panic : W := world (panicking 3 true 1 true c_poll).
Definition p_wake : W := spawn (Cpu.ClusteredEDF 1000 2) p_panic.

(** A task that panics is given the panicked scheduler type, but keeps its own
    scheduler; when it is preempted while it unwinds, [re_schedule] calls
    [wake_task] of that scheduler, which meets an unexpected scheduler type and
    panics ([unreachable!]). *)
Theorem preempting_panicked_task_panics :
  Sched.polling p_wake !! 1%nat = Some 0%nat /\ Sched.pending p_wake 1 = [1%nat] /\
  Sched.panicked <$> Sched.tasks p_wake !! 0%nat = Some true /\
  Sched.scheduler <$> Sched.tasks p_wake !! 0%nat = Some SFIFO /\
  Sched.preemption 3 true 1 true p_wake = Panic.
Proof. by_calls. Qed.

(** ** No thread for the task that preempts *)

(** A FIFO task of priority 7 is to preempt one of priority 5 on CPU 1, but no
    worker thread can be had. *)
Definition n_wake : W := spawn (Cpu.PrioritizedFIFO 7) c_poll.
Definition n_failed : W := world (preemption 3 true 1 false n_wake).

(** When no thread can be created for the task that preempts, [do_preemption]
    gives up, but [RUNNING] already names that task; the task that goes on
    running then fails the [assert_eq!] of [run_main] when its poll ends. *)
Theorem failed_thread_creation_breaks_running :
  Sched.polling n_failed !! 1%nat = Some 0%nat /\
  Sched.id <$> Sched.tasks n_failed !! 0%nat = Some 1 /\
  Sched.running n_failed 1 = 2 /\
  Sched.end_poll 3 true 1 0 RReady n_failed = Panic /\
  Sched.end_poll 3 true 1 0 RPending n_failed = Panic.
Proof. by_calls. Qed.

(** ** Deadlines of preempted tasks *)

(** A GEDF task with a relative deadline of 1000 microseconds is polled at time 0
    and preempted at 600 microseconds. *)
Definition d_poll : W := turn 1 (spawn (Cpu.GEDF 1000) boot).
Definition d_switch : W := interrupt 1 (spawn (Cpu.ClusteredEDF 100 2) (at_time 600000 d_poll)).

(** Re-scheduling a preempted EDF task outside of any DAG recomputes its absolute
    deadline from the time of the preemption, so that each preemption postpones
    the deadline and lowers the priority of a job already released. *)
Theorem preemption_postpones_edf_deadline :
  Sched.absolute_deadline <$> Sched.tasks d_poll !! 0%nat = Some (Some 1000) /\
  Sched.absolute_deadline <$> Sched.tasks d_switch !! 0%nat = Some (Some 1600) /\
  Sched.state <$> Sched.tasks d_switch !! 0%nat = Some Preempted /\
  (Sched.key d_switch 0).1 < (Sched.key d_poll 0).1.
Proof. by_calls. Qed.

(** ** Priorities above the highest *)

(** A FIFO task of priority 31 is polled on CPU 1 and one of 31 on CPU 2. *)
Definition h_busy : W :=
  turn 2 (spawn (Cpu.PrioritizedFIFO 31) (turn 1 (spawn (Cpu.PrioritizedFIFO 31) boot))).

(** A FIFO or RR priority above 31, which [inner_spawn] warns is addressed as
    31, is only clamped in the run queue: the combined priority keeps its value,
    and a task of priority 40 preempts a running one of priority 31, which one of
    priority 31 does not. *)
Theorem priority_above_highest_preempts :
  Sched.pending (spawn (Cpu.PrioritizedFIFO 31) h_busy) 1 = [] /\
  Sched.pending (spawn (Cpu.PrioritizedFIFO 40) h_busy) 1 = [2%nat] /\
  (forall p, Sched.combine_priority_32 p Sched.MAX_TASK_PRIORITY = Panic).
Proof. by_calls. Qed.
End SchedBugs.
