(* ===== verification/Critical.v ===== *)
(** * Code as a sequence of critical sections

    Code that shares a state under locks runs as a sequence of critical
    sections, each of which takes a lock, works on the shared state and drops
    the lock; other code runs between them and not inside.  [prog W A] is such
    code: it can be run alone, with the logic [wp] of total correctness, and
    it can be interleaved with other code on the same state. *)

From S2P Require Import Prelude.

(** [Atomic f k] runs the critical section [f] and goes on with [k]. *)
Inductive prog (W A : Type) : Type :=
| Done (a : A)
| Atomic (B : Type) (f : st W B) (k : B -> prog W A).
Arguments Done {W A} a.
Arguments Atomic {W A B} f k.

Fixpoint prog_seq {W A B} (k : A -> prog W B) (m : prog W A) : prog W B :=
  match m with
  | Done a => k a
  | Atomic f j => Atomic f (fun b => prog_seq k (j b))
  end.

#[export] Instance prog_ret {W} : MRet (prog W) := fun A a => Done a.
#[export] Instance prog_bind {W} : MBind (prog W) := fun A B k m => prog_seq k m.

(** One critical section, and code that panics. *)
Definition atomic {W A} (f : st W A) : prog W A := Atomic f Done.
Definition fails {W A} : prog W A := Atomic (panic : st W A) Done.
Definition pure {W A} (o : outcome A) : prog W A :=
  match o with Ret a => Done a | Panic => fails end.

(** ** Running alone *)

Fixpoint run {W A} (m : prog W A) (w : W) : outcome (W * A) :=
  match m with
  | Done a => Ret (w, a)
  | Atomic f k => match f w with Ret (w', b) => run (k b) w' | Panic => Panic end
  end.

Lemma run_seq {W A B} (m : prog W A) (k : A -> prog W B) w :
  run (prog_seq k m) w = match run m w with Ret (w', a) => run (k a) w' | Panic => Panic end.
Proof.
  revert w. induction m as [a|C f j IH]; intros w; [done|]. simpl.
  destruct (f w) as [[w' c]|]; [apply IH|done].
Qed.

Lemma run_bind {W A B} (m : prog W A) (k : A -> prog W B) w :
  run (m ≫= k) w = match run m w with Ret (w', a) => run (k a) w' | Panic => Panic end.
Proof. apply run_seq. Qed.

(** [wp m Q w]: run from [w], [m] returns, in a state and with a result that
    satisfy [Q]. *)
Definition wp {W A} (m : prog W A) (Q : A -> W -> Prop) (w : W) : Prop :=
  match run m w with Ret (w', a) => Q a w' | Panic => False end.

Section wp.
Context {W : Type}.

Lemma wp_ret {A} (a : A) (Q : A -> W -> Prop) w : Q a w -> wp (mret a) Q w.
Proof. done. Qed.

Lemma wp_atomic {A} (f : st W A) (Q : A -> W -> Prop) w w' a :
  f w = Ret (w', a) -> Q a w' -> wp (atomic f) Q w.
Proof. intros Hf HQ. unfold wp, atomic. simpl. by rewrite Hf. Qed.

Lemma wp_pure {A} (o : outcome A) (Q : A -> W -> Prop) w a :
  o = Ret a -> Q a w -> wp (pure o) Q w.
Proof. by intros -> HQ. Qed.

Lemma wp_bind {A B} (m : prog W A) (k : A -> prog W B) (Q : B -> W -> Prop) w :
  wp m (fun a w' => wp (k a) Q w') w -> wp (m ≫= k) Q w.
Proof.
  unfold wp. rewrite run_bind. destruct (run m w) as [[w' a]|]; [done|]. by intros [].
Qed.

Lemma wp_mono {A} (m : prog W A) (P Q : A -> W -> Prop) w :
  wp m P w -> (forall a w', P a w' -> Q a w') -> wp m Q w.
Proof. unfold wp. destruct (run m w) as [[w' a]|]; auto. Qed.

Lemma wp_run {A} (m : prog W A) (Q : A -> W -> Prop) w :
  wp m Q w <-> exists w' a, run m w = Ret (w', a) /\ Q a w'.
Proof.
  unfold wp. destruct (run m w) as [[w' a]|]; split.
  - intros HQ. by exists w', a.
  - by intros (? & ? & [= <- <-] & HQ).
  - done.
  - by intros (? & ? & ? & _).
Qed.

End wp.

(** ** Running two pieces of code at once *)

(** The code left after the next critical section. *)
Definition step {W A} (m : prog W A) : st W (prog W A) :=
  match m with
  | Done a => mret (Done a)
  | Atomic f k => b ← f; mret (k b)
  end.

(** The scheduler picks whose critical section is next, [true] for the first
    piece of code. *)
Fixpoint interleave {W A B} (picks : list bool) (m : prog W A) (n : prog W B) :
    st W (prog W A * prog W B) :=
  match picks with
  | [] => mret (m, n)
  | true :: picks' => m' ← step m; interleave picks' m' n
  | false :: picks' => n' ← step n; interleave picks' m n'
  end.

(** ** Fallible code with a handle of its own *)

(** Code that holds a handle [S], works on the shared state [W] and returns a
    [Result] whose errors the [?] operator passes on. *)
Definition io (W S E A : Type) : Type := S -> prog W (S * result A E).

#[export] Instance io_ret {W S E} : MRet (io W S E) := fun A a s => mret (s, Ok a).
#[export] Instance io_bind {W S E} : MBind (io W S E) := fun A B k m s =>
  r ← m s;
  match r.2 with Ok a => k a r.1 | Err e => mret (r.1, Err e) end.

Definition throw {W S E A} (e : E) : io W S E A := fun s => mret (s, Err e).

(** The [Result] of a call as a value, for code that matches on it. *)
Definition try {W S E A} (m : io W S E A) : io W S E (result A E) := fun s =>
  r ← m s; mret (r.1, Ok r.2).

Definition get {W S E} : io W S E S := fun s => mret (s, Ok s).
Definition put {W S E} (s' : S) : io W S E unit := fun s => mret (s', Ok tt).

(** Code that needs no handle. *)
Definition liftp {W S E A} (m : prog W (result A E)) : io W S E A := fun s =>
  r ← m; mret (s, r).

(** Calls that touch neither the state nor the handle. *)
Definition io_pure {W S E A} (o : outcome A) : io W S E A := fun s =>
  r ← pure o; mret (s, Ok r).
Definition io_res {W S E A} (o : res E A) : io W S E A := fun s =>
  r ← pure o; mret (s, r).

Section io.
Context {W S E : Type}.

Lemma wp_io_bind {A B} (m : io W S E A) (k : A -> io W S E B) Q s w :
  wp (m s) (fun r w' => match r.2 with Ok a => wp (k a r.1) Q w' | Err e => Q (r.1, Err e) w' end) w ->
  wp ((m ≫= k) s) Q w.
Proof.
  intros H. apply wp_bind. eapply wp_mono; [exact H|]. intros [s' [a|e]] w'; simpl; auto.
Qed.

Lemma run_io_assoc {A B C} (m : io W S E A) (k : A -> io W S E B) (j : B -> io W S E C) s w :
  run ((m ≫= (fun a => k a ≫= j)) s) w = run (((m ≫= k) ≫= j) s) w.
Proof.
  unfold mbind, io_bind, mbind, prog_bind. rewrite !run_seq.
  destruct (run (m s) w) as [[w' [s' [a|e]]]|]; cbn; rewrite ?run_seq; done.
Qed.

(** Sequences can be regrouped. *)
Lemma wp_assoc {A B C} (m : io W S E A) (k : A -> io W S E B) (j : B -> io W S E C) Q s w :
  wp (((m ≫= k) ≫= j) s) Q w -> wp ((m ≫= (fun a => k a ≫= j)) s) Q w.
Proof. unfold wp. by rewrite run_io_assoc. Qed.

Lemma wp_try {A} (m : io W S E A) Q s w :
  wp (m s) (fun r w' => Q (r.1, Ok r.2) w') w -> wp (try m s) Q w.
Proof. intros H. apply wp_bind. eapply wp_mono; [exact H|]. done. Qed.

End io.

(** Run one call of a sequence: leaves what follows it. *)
Ltac wp_step lem := apply wp_io_bind; eapply wp_mono; [apply lem|].
