(* ===== verification/Disk.v ===== *)
(** * Storage: the disk in memory, and slices of it

    Models the traits [Read], [Write] and [Seek] of [awkernel_lib/src/file/io.rs]
    with their provided methods, the disk of [memfs.rs], which is the storage
    the kernel mounts, the errors of [fatfs/error.rs], and the [DiskSlice] of
    [fatfs/fs.rs], which limits access to a range of the storage and keeps its
    mirrors. *)

From S2P Require Import Prelude Critical.

Module Disk.
Local Open Scope Z_scope.

(** ** Errors *)

Inductive InMemoryDiskError :=
| OutOfBounds
| DiskWriteZero
| DiskUnexpectedEof
| Interrupted
| Other.

Inductive Error (T : Type) :=
| Io (e : T)
| UnexpectedEof
| WriteZero
| InvalidInput
| NotFound
| AlreadyExists
| DirectoryIsNotEmpty
| CorruptedFileSystem
| NotEnoughSpace
| InvalidFileNameLength
| UnsupportedFileNameCharacter.
Arguments Io {T} e.
Arguments UnexpectedEof {T}.
Arguments WriteZero {T}.
Arguments InvalidInput {T}.
Arguments NotFound {T}.
Arguments AlreadyExists {T}.
Arguments DirectoryIsNotEmpty {T}.
Arguments CorruptedFileSystem {T}.
Arguments NotEnoughSpace {T}.
Arguments InvalidFileNameLength {T}.
Arguments UnsupportedFileNameCharacter {T}.

Class IoError (E : Type) := {
  is_interrupted : E -> bool;
  new_unexpected_eof_error : E;
  new_write_zero_error : E
}.

#[export] Instance disk_error : IoError InMemoryDiskError := {
  is_interrupted e := match e with Interrupted => true | _ => false end;
  new_unexpected_eof_error := DiskUnexpectedEof;
  new_write_zero_error := DiskWriteZero
}.

#[export] Instance fat_error {T} `{IoError T} : IoError (Error T) := {
  is_interrupted e := match e with Io io_error => is_interrupted io_error | _ => false end;
  new_unexpected_eof_error := UnexpectedEof;
  new_write_zero_error := WriteZero
}.

(** ** Storage *)

Inductive SeekFrom :=
| Start (x : Z)
| FromEnd (x : Z)
| Current (x : Z).

(** [Read], [Write] and [Seek] on a handle [S] that shares the state [W].
    [read n] is a read into a buffer of [n] bytes; it gives the bytes read. *)
Class Storage (W S E : Type) := {
  read : nat -> io W S E (list Z);
  write : list Z -> io W S E nat;
  flush : io W S E unit;
  seek : SeekFrom -> io W S E Z
}.

(** The little-endian bytes of [z], and back. *)
Fixpoint to_le_bytes (n : nat) (z : Z) : list Z :=
  match n with
  | O => []
  | S n' => z mod 256 :: to_le_bytes n' (z / 256)
  end.

Fixpoint from_le_bytes (bs : list Z) : Z :=
  match bs with
  | [] => 0
  | b :: bs' => b + 256 * from_le_bytes bs'
  end.

Section streams.
Context {W S E : Type} `{HE : IoError E} `{HS : Storage W S E}.

(** The loop of [read_exact]; every round that is not interrupted reads
    something or is the last, so that [n + 1] rounds are enough. *)
Fixpoint read_exact_loop (fuel n : nat) : io W S E (list Z) :=
  match fuel with
  | O => fun _ => fails
  | Datatypes.S fuel' =>
      if (n =? 0)%nat then mret [] else
      r ← try (read n);
      match r with
      | Ok [] => throw new_unexpected_eof_error
      | Ok bs => rest ← read_exact_loop fuel' (n - length bs)%nat; mret (bs ++ rest)
      | Err e => if is_interrupted e then read_exact_loop fuel' n else throw e
      end
  end.

Definition read_exact (n : nat) : io W S E (list Z) := read_exact_loop (Datatypes.S n) n.

Fixpoint write_all_loop (fuel : nat) (buf : list Z) : io W S E unit :=
  match fuel with
  | O => fun _ => fails
  | Datatypes.S fuel' =>
      if (length buf =? 0)%nat then mret tt else
      r ← try (write buf);
      match r with
      | Ok O => throw new_write_zero_error
      | Ok n => write_all_loop fuel' (drop n buf)
      | Err e => if is_interrupted e then write_all_loop fuel' buf else throw e
      end
  end.

Definition write_all (buf : list Z) : io W S E unit :=
  write_all_loop (Datatypes.S (length buf)) buf.

Definition read_u8 : io W S E Z := buf ← read_exact 1; mret (from_le_bytes buf).
Definition read_u16_le : io W S E Z := buf ← read_exact 2; mret (from_le_bytes buf).
Definition read_u32_le : io W S E Z := buf ← read_exact 4; mret (from_le_bytes buf).

Definition write_u8 (n : Z) : io W S E unit := write_all (to_le_bytes 1 n).
Definition write_u16_le (n : Z) : io W S E unit := write_all (to_le_bytes 2 n).
Definition write_u32_le (n : Z) : io W S E unit := write_all (to_le_bytes 4 n).

End streams.

(** ** The disk in memory *)

Record InMemoryDisk := mkDisk { data : list Z; position : Z }.

Definition len (l : list Z) : Z := Z.of_nat (length l).

(** [as i64] *)
Definition as_i64 (z : Z) : Z :=
  let m := wrap 64 z in if m <? 2 ^ 63 then m else m - 2 ^ 64.

(** [l[a..b]] *)
Definition range (l : list Z) (a b : Z) : outcome (list Z) :=
  if (0 <=? a) && (a <=? b) && (b <=? len l)
  then Ret (take (Z.to_nat (b - a)) (drop (Z.to_nat a) l)) else Panic.

(** [l] with [bs] copied over it at [a]. *)
Definition splice (a : nat) (bs l : list Z) : list Z :=
  take a l ++ bs ++ drop (a + length bs) l.

Definition disk_read (n : nat) : st InMemoryDisk (result (list Z) InMemoryDiskError) := fun d =>
  let left := wrap 64 (len (data d) - position d) in
  let bytes_to_read := Z.min (Z.of_nat n) left in
  if bytes_to_read =? 0 then Ret (d, Ok []) else
  bs ← range (data d) (position d) (position d + bytes_to_read);
  Ret (mkDisk (data d) (position d + bytes_to_read), Ok bs).

Definition disk_write (buf : list Z) : st InMemoryDisk (result nat InMemoryDiskError) := fun d =>
  let left := wrap 64 (len (data d) - position d) in
  let bytes_to_write := Z.min (len buf) left in
  if bytes_to_write =? 0 then Ret (d, Ok 0%nat) else
  _ ← range (data d) (position d) (position d + bytes_to_write);
  let n := Z.to_nat bytes_to_write in
  Ret (mkDisk (splice (Z.to_nat (position d)) (take n buf) (data d)) (position d + bytes_to_write),
       Ok n).

Definition disk_seek (pos : SeekFrom) : st InMemoryDisk (result Z InMemoryDiskError) := fun d =>
  let new_position :=
    match pos with
    | Start offset => as_i64 offset
    | Current offset => as_i64 (position d + offset)
    | FromEnd offset => as_i64 (len (data d) + offset)
    end in
  if (new_position <? 0) || (len (data d) <? new_position) then Ret (d, Err OutOfBounds)
  else Ret (mkDisk (data d) new_position, Ok new_position).

(** The disk held by its owner. *)
#[export] Instance disk_storage : Storage InMemoryDisk unit InMemoryDiskError := {
  read n := liftp (atomic (disk_read n));
  write buf := liftp (atomic (disk_write buf));
  flush := mret tt;
  seek pos := liftp (atomic (disk_seek pos))
}.

(** ** Slices of a storage *)

Record DiskSlice (S : Type) := mkSlice {
  begin : Z;
  size : Z;
  offset : Z;
  mirrors : Z;
  inner : S
}.
Arguments mkSlice {S} _ _ _ _ _.
Arguments begin {S} _.
Arguments size {S} _.
Arguments offset {S} _.
Arguments mirrors {S} _.
Arguments inner {S} _.

Definition set_offset {S} (o : Z) (s : DiskSlice S) : DiskSlice S :=
  mkSlice (begin s) (size s) o (mirrors s) (inner s).
Definition set_inner {S} (i : S) (s : DiskSlice S) : DiskSlice S :=
  mkSlice (begin s) (size s) (offset s) (mirrors s) i.

Definition slice_new {S} (begin size mirrors : Z) (inner : S) : DiskSlice S :=
  mkSlice begin size 0 mirrors inner.

Definition abs_pos {S} (s : DiskSlice S) : Z := wrap 64 (begin s + offset s).

Section slices.
Context {W S E : Type} `{HE : IoError E} `{HS : Storage W S E}.

(** A call on the storage below, with [From] on its error. *)
Definition on_inner {A} (m : io W S E A) : io W (DiskSlice S) (Error E) A := fun s =>
  r ← m (inner s);
  mret (set_inner r.1 s, match r.2 with Ok a => Ok a | Err e => Err (Io e) end).

Definition slice_read (n : nat) : io W (DiskSlice S) (Error E) (list Z) :=
  s ← get;
  let offset_ := wrap 64 (begin s + offset s) in
  let read_size := Z.min (Z.of_nat n) (wrap 64 (size s - offset s)) in
  _ ← on_inner (seek (Start offset_));
  bs ← on_inner (read (Z.to_nat read_size));
  s ← get;
  _ ← put (set_offset (wrap 64 (offset s + len bs)) s);
  mret bs.

(** [for i in 0..self.mirrors] *)
Fixpoint write_mirrors (offset_ size_ : Z) (buf : list Z) (ks : list nat) :
    io W (DiskSlice S) (Error E) unit :=
  match ks with
  | [] => mret tt
  | i :: ks' =>
      _ ← on_inner (seek (Start (wrap 64 (offset_ + wrap 64 (Z.of_nat i * size_)))));
      _ ← on_inner (write_all buf);
      write_mirrors offset_ size_ buf ks'
  end.

Definition slice_write (buf : list Z) : io W (DiskSlice S) (Error E) nat :=
  s ← get;
  let offset_ := wrap 64 (begin s + offset s) in
  let write_size := Z.min (len buf) (wrap 64 (size s - offset s)) in
  if write_size =? 0 then mret 0%nat else
  _ ← write_mirrors offset_ (size s) (take (Z.to_nat write_size) buf)
        (seq 0 (Z.to_nat (mirrors s)));
  s ← get;
  _ ← put (set_offset (wrap 64 (offset s + write_size)) s);
  mret (Z.to_nat write_size).

(** [i64::try_from], [checked_add] and [u64::try_from]. *)
Definition checked_offset (base x : Z) : option Z :=
  if (2 ^ 63 <=? base) then None else
  let n := base + x in
  if (2 ^ 63 <=? n) || (n <? 0) then None else Some n.

Definition slice_seek (pos : SeekFrom) : io W (DiskSlice S) (Error E) Z :=
  s ← get;
  let new_offset_opt :=
    match pos with
    | Current x => checked_offset (offset s) x
    | Start x => Some x
    | FromEnd o => checked_offset (size s) o
    end in
  match new_offset_opt with
  | Some new_offset =>
      if size s <? new_offset then throw InvalidInput
      else _ ← put (set_offset new_offset s); mret new_offset
  | None => throw InvalidInput
  end.

#[export] Instance slice_storage : Storage W (DiskSlice S) (Error E) := {
  read := slice_read;
  write := slice_write;
  flush := on_inner flush;
  seek := slice_seek
}.

End slices.

End Disk.
