(* ===== verification/DiskLaws.v ===== *)
(** * What storage promises

    Two interfaces: [PosLaws] for a storage with a position that every user
    sets before an access, where bytes below a bound may change under a write
    (the mounted disk, whose writes may also mark the volume dirty), and
    [FlatLaws] for a stream with a position of its own over a sequence of
    bytes.  The disk in memory satisfies both, and a [DiskSlice] over a storage
    with [PosLaws] satisfies [FlatLaws] and keeps its mirrors equal. *)

From S2P Require Import Prelude Critical Disk.

Module DiskLaws.
Import Disk.
Local Open Scope Z_scope.

(** ** Bytes copied over a list *)

Lemma length_splice a bs l : (a + length bs <= length l)%nat -> length (splice a bs l) = length l.
Proof. intros H. unfold splice. rewrite !length_app, length_take, length_drop. lia. Qed.

Lemma lookup_splice a bs l i :
  (a + length bs <= length l)%nat ->
  splice a bs l !! i =
    if decide (a <= i < a + length bs)%nat then bs !! (i - a)%nat else l !! i.
Proof.
  intros H. unfold splice. destruct (decide (i < a)%nat) as [Hi|Hi].
  - rewrite decide_False by lia. rewrite lookup_app_l by (rewrite length_take; lia).
    by apply lookup_take_lt.
  - rewrite lookup_app_r, length_take, Nat.min_l by (rewrite ?length_take; lia).
    case_decide; [by rewrite lookup_app_l by lia|].
    rewrite lookup_app_r, lookup_drop by lia. f_equal. lia.
Qed.

(** The part of [l] of [n] bytes from [b]. *)
Definition part (b n : nat) (l : list Z) : list Z := take n (drop b l).

Lemma lookup_part b n l i : part b n l !! i = if decide (i < n)%nat then l !! (b + i)%nat else None.
Proof.
  unfold part. case_decide.
  - rewrite lookup_take_lt by done. apply lookup_drop.
  - apply lookup_ge_None. rewrite length_take. lia.
Qed.

Lemma length_part b n l : (b + n <= length l)%nat -> length (part b n l) = n.
Proof. intros H. unfold part. rewrite length_take, length_drop. lia. Qed.

Lemma part_part b n o k l : (o + k <= n)%nat -> part o k (part b n l) = part (b + o) k l.
Proof.
  intros H. apply list_eq. intros i. rewrite !lookup_part.
  repeat case_decide; try done; try lia. f_equal. lia.
Qed.

Lemma part_splice_in b n o bs l :
  (o + length bs <= n)%nat -> (b + n <= length l)%nat ->
  part b n (splice (b + o) bs l) = splice o bs (part b n l).
Proof.
  intros Ho Hb. apply list_eq. intros i. rewrite lookup_part.
  rewrite !lookup_splice, lookup_part by (rewrite ?length_part; lia).
  repeat case_decide; try done; try lia; try (f_equal; lia).
Qed.

Lemma part_splice_out b n a bs l :
  (a + length bs <= length l)%nat -> (a + length bs <= b \/ b + n <= a)%nat ->
  part b n (splice a bs l) = part b n l.
Proof.
  intros Ha Hd. apply list_eq. intros i. rewrite !lookup_part. case_decide; [|done].
  rewrite lookup_splice by done. by rewrite decide_False by lia.
Qed.

(** A part above [lo] depends on what is above [lo] only. *)
Lemma part_above lo b n l l' :
  (lo <= b)%nat -> drop lo l = drop lo l' -> part b n l = part b n l'.
Proof.
  intros Hb Hl. unfold part. f_equal. replace b with (lo + (b - lo))%nat by lia.
  by rewrite <- !drop_drop, Hl.
Qed.

Lemma drop_splice k a bs l :
  (a + length bs <= k)%nat -> (a + length bs <= length l)%nat -> drop k (splice a bs l) = drop k l.
Proof.
  intros Hk Hl. apply list_eq. intros i. rewrite !lookup_drop, lookup_splice by done.
  by rewrite decide_False by lia.
Qed.

Lemma drop_above lo k (l l' : list Z) : (lo <= k)%nat -> drop lo l = drop lo l' -> drop k l = drop k l'.
Proof. intros Hk Hl. replace k with (lo + (k - lo))%nat by lia. by rewrite <- !drop_drop, Hl. Qed.

(** ** The interfaces *)

Section laws.
Context {W S E : Type} `{HE : IoError E} `{HS : Storage W S E}.

Class PosLaws (bytes : W -> list Z) (pos : W -> Z) (lo : nat) (I : W -> Prop) : Prop := {
  pos_ok w : I w -> 0 <= pos w /\ len (bytes w) < 2 ^ 63;
  pos_seek p s w :
    I w -> 0 <= p <= len (bytes w) ->
    wp (seek (Start p) s)
       (fun r w' => r = (s, Ok p) /\ bytes w' = bytes w /\ pos w' = p /\ I w') w;
  pos_read n s w :
    I w -> pos w + Z.of_nat n <= len (bytes w) ->
    wp (read n s)
       (fun r w' => r = (s, Ok (part (Z.to_nat (pos w)) n (bytes w))) /\
                    bytes w' = bytes w /\ I w') w;
  pos_write bs s w :
    I w -> Z.of_nat lo <= pos w -> pos w + len bs <= len (bytes w) ->
    wp (write bs s)
       (fun r w' => r = (s, Ok (length bs)) /\ length (bytes w') = length (bytes w) /\
                    drop lo (bytes w') = drop lo (splice (Z.to_nat (pos w)) bs (bytes w)) /\
                    I w') w
}.

Class FlatLaws (view : W -> list Z) (off : S -> W -> Z) (J : S -> W -> Prop) : Prop := {
  flat_off s w : J s w -> 0 <= off s w <= len (view w);
  flat_seek p s w :
    J s w -> 0 <= p <= len (view w) ->
    wp (seek (Start p) s)
       (fun r w' => r.2 = Ok p /\ view w' = view w /\ off r.1 w' = p /\ J r.1 w') w;
  flat_read n s w :
    J s w -> off s w + Z.of_nat n <= len (view w) ->
    wp (read n s)
       (fun r w' => r.2 = Ok (part (Z.to_nat (off s w)) n (view w)) /\ view w' = view w /\
                    off r.1 w' = off s w + Z.of_nat n /\ J r.1 w') w;
  flat_write bs s w :
    J s w -> off s w + len bs <= len (view w) ->
    wp (write bs s)
       (fun r w' => r.2 = Ok (length bs) /\
                    view w' = splice (Z.to_nat (off s w)) bs (view w) /\
                    off r.1 w' = off s w + len bs /\ J r.1 w') w
}.

(** ** The provided methods *)

(** One round of [write_all] is enough when the storage takes all bytes. *)
Lemma wp_write_all bs s w (Q : S * result unit E -> W -> Prop) :
  bs <> [] ->
  wp (write bs s) (fun r w' => r.2 = Ok (length bs) /\ Q (r.1, Ok tt) w') w ->
  wp (write_all bs s) Q w.
Proof.
  intros Hb Hw. unfold write_all. cbn [write_all_loop].
  destruct (length bs =? 0)%nat eqn:Hl; [b2p; by destruct bs|].
  apply wp_io_bind, wp_try. eapply wp_mono; [exact Hw|].
  intros [s' r] w' [Hr HQ]. cbn in *. subst r. destruct (length bs) as [|k] eqn:Hk; [done|].
  cbn. rewrite drop_ge by lia. done.
Qed.

Lemma wp_read_exact n s w (Q : S * result (list Z) E -> W -> Prop) bs :
  (0 < n)%nat -> length bs = n ->
  wp (read n s) (fun r w' => r.2 = Ok bs /\ Q (r.1, Ok bs) w') w ->
  wp (read_exact n s) Q w.
Proof.
  intros Hn Hl Hr. unfold read_exact. cbn [read_exact_loop].
  destruct (n =? 0)%nat eqn:H0; [b2p; lia|].
  apply wp_io_bind, wp_try. eapply wp_mono; [exact Hr|].
  intros [s' r] w' [Hr' HQ]. cbn in Hr', HQ |- *. subst r. destruct bs as [|b bs]; [simpl in *; lia|].
  apply wp_io_bind. rewrite Hl, Nat.sub_diag.
  destruct n; [lia|]. cbn [read_exact_loop]. apply wp_ret. cbn. apply wp_ret. by rewrite app_nil_r.
Qed.

Section flat.
Context {view : W -> list Z} {off : S -> W -> Z} {J : S -> W -> Prop} `{HF : !FlatLaws view off J}.

Lemma flat_read_exact n s w :
  J s w -> off s w + Z.of_nat n <= len (view w) ->
  wp (read_exact n s)
     (fun r w' => r.2 = Ok (part (Z.to_nat (off s w)) n (view w)) /\ view w' = view w /\
                  off r.1 w' = off s w + Z.of_nat n /\ J r.1 w') w.
Proof.
  intros HJ Hn. pose proof (flat_off s w HJ). destruct (decide (n = 0%nat)) as [->|Hn0].
  { cbn. apply wp_ret. cbn. split_and!; [done|done|lia|done]. }
  apply (wp_read_exact _ _ _ _ (part (Z.to_nat (off s w)) n (view w))); [lia| |].
  - apply length_part. unfold len in *. lia.
  - eapply wp_mono; [by apply flat_read|]. intros [s' r] w' (Hr & Hv & Ho & HJ'). cbn in *.
    by split_and!.
Qed.

Lemma flat_write_all bs s w :
  J s w -> off s w + len bs <= len (view w) ->
  wp (write_all bs s)
     (fun r w' => r.2 = Ok tt /\ view w' = splice (Z.to_nat (off s w)) bs (view w) /\
                  off r.1 w' = off s w + len bs /\ J r.1 w') w.
Proof.
  intros HJ Hn. pose proof (flat_off s w HJ). destruct (decide (bs = [])) as [->|Hn0].
  { cbn. apply wp_ret. cbn. split_and!; [done| |unfold len; simpl; lia|done].
    unfold splice. simpl. by rewrite Nat.add_0_r, take_drop. }
  apply wp_write_all; [done|]. eapply wp_mono; [by apply flat_write|].
  intros [s' r] w' (Hr & Hv & Ho & HJ'). cbn in *. by split_and!.
Qed.

End flat.
End laws.

Arguments PosLaws {W S E HS} bytes pos lo I.
Arguments FlatLaws {W S E HS} view off J.

(** ** The disk in memory *)

Definition disk_ok (d : InMemoryDisk) : Prop :=
  0 <= position d <= len (data d) /\ len (data d) < 2 ^ 63.

Lemma as_i64_id z : 0 <= z < 2 ^ 63 -> as_i64 z = z.
Proof.
  intros H. unfold as_i64. rewrite wrap_id by (unfold is_uint; lia).
  destruct (Z.ltb_spec z (2 ^ 63)); lia.
Qed.

Lemma range_part l a n : 0 <= a -> a + Z.of_nat n <= len l ->
  range l a (a + Z.of_nat n) = Ret (part (Z.to_nat a) n l).
Proof.
  intros Ha Hn. unfold range. rewrite (proj2 (Z.leb_le 0 a)), (proj2 (Z.leb_le a _)) by lia.
  rewrite (proj2 (Z.leb_le _ (len l))) by done. cbn. unfold part. repeat f_equal. lia.
Qed.

Lemma part_0 b l : part b 0 l = [].
Proof. done. Qed.

Lemma splice_nil a l : splice a [] l = l.
Proof. unfold splice. simpl. by rewrite Nat.add_0_r, take_drop. Qed.

Lemma disk_seek_start d p :
  disk_ok d -> 0 <= p <= len (data d) ->
  disk_seek (Start p) d = Ret (mkDisk (data d) p, Ok p).
Proof.
  intros [Hd Hl] Hp. unfold disk_seek. rewrite as_i64_id by lia.
  by rewrite (proj2 (Z.ltb_ge p 0)), (proj2 (Z.ltb_ge (len (data d)) p)) by lia.
Qed.

Lemma disk_read_part d n :
  disk_ok d -> position d + Z.of_nat n <= len (data d) ->
  disk_read n d = Ret (mkDisk (data d) (position d + Z.of_nat n),
                       Ok (part (Z.to_nat (position d)) n (data d))).
Proof.
  intros [Hd Hl] Hn. unfold disk_read. rewrite wrap_id by (unfold is_uint; lia).
  rewrite Z.min_l by lia. destruct (Z.eqb_spec (Z.of_nat n) 0) as [H0|H0].
  - destruct n; [|lia]. rewrite part_0, Z.add_0_r. by destruct d.
  - by rewrite range_part by lia.
Qed.

Lemma disk_write_splice d bs :
  disk_ok d -> position d + len bs <= len (data d) ->
  disk_write bs d = Ret (mkDisk (splice (Z.to_nat (position d)) bs (data d)) (position d + len bs),
                         Ok (length bs)).
Proof.
  intros [Hd Hl] Hn. unfold disk_write. rewrite wrap_id by (unfold is_uint, len in *; lia).
  rewrite Z.min_l by lia. destruct (Z.eqb_spec (len bs) 0) as [H0|H0].
  - destruct bs; [|done]. rewrite splice_nil, Z.add_0_r. by destruct d.
  - change (len bs) with (Z.of_nat (length bs)) in *. rewrite range_part by lia. cbn.
    by rewrite Nat2Z.id, firstn_all.
Qed.

#[export] Instance disk_pos_laws : PosLaws (S:=unit) data position 0 disk_ok.
Proof.
  split.
  - unfold disk_ok. lia.
  - intros p s d HI Hp. apply wp_bind. eapply wp_atomic; [by apply disk_seek_start|].
    apply wp_ret. unfold disk_ok in *. cbn. split_and!; auto; lia.
  - intros n s d HI Hn. apply wp_bind. eapply wp_atomic; [by apply disk_read_part|].
    apply wp_ret. unfold disk_ok in *. cbn. split_and!; auto; lia.
  - intros bs s d HI _ Hn. apply wp_bind. eapply wp_atomic; [by apply disk_write_splice|].
    assert (Hlen : length (splice (Z.to_nat (position d)) bs (data d)) = length (data d)).
    { apply length_splice. unfold disk_ok, len in *. lia. }
    apply wp_ret. unfold disk_ok, len in *. cbn. rewrite Hlen. split_and!; auto; lia.
Qed.

#[export] Instance disk_flat_laws :
  FlatLaws (S:=unit) data (fun _ => position) (fun _ => disk_ok).
Proof.
  split.
  - unfold disk_ok. lia.
  - intros p s d HI Hp. apply wp_bind. eapply wp_atomic; [by apply disk_seek_start|].
    apply wp_ret. unfold disk_ok in *. cbn. split_and!; auto; lia.
  - intros n s d HI Hn. apply wp_bind. eapply wp_atomic; [by apply disk_read_part|].
    apply wp_ret. unfold disk_ok in *. cbn. split_and!; auto; lia.
  - intros bs s d HI Hn. apply wp_bind. eapply wp_atomic; [by apply disk_write_splice|].
    assert (Hlen : length (splice (Z.to_nat (position d)) bs (data d)) = length (data d)).
    { apply length_splice. unfold disk_ok, len in *. lia. }
    apply wp_ret. unfold disk_ok, len in *. cbn. rewrite Hlen. split_and!; auto; lia.
Qed.

(** ** Slices *)

Section slices.
Context {W S E : Type} `{HE : IoError E} `{HS : Storage W S E}.
Context {bytes : W -> list Z} {pos : W -> Z} {lo : nat} {I : W -> Prop}.
Context `{HP : !PosLaws bytes pos lo I}.

(** The slice of [n] bytes from [b] with [m] mirrors, and what follows it. *)
Context (b n m : nat) (tail : list Z).

(** The [i]th mirror. *)
Definition mirror (i : nat) (w : W) : list Z := part (b + i * n) n (bytes w).

Definition slice_view (w : W) : list Z := mirror 0 w.

Definition slice_ok (s : DiskSlice S) (w : W) : Prop :=
  begin s = Z.of_nat b /\ size s = Z.of_nat n /\ mirrors s = Z.of_nat m /\
  0 <= offset s <= Z.of_nat n /\ I w /\
  (lo <= b)%nat /\ (0 < m)%nat /\ (b + m * n <= length (bytes w))%nat /\
  (forall i, (i < m)%nat -> mirror i w = slice_view w) /\
  drop (b + m * n) (bytes w) = tail.

Lemma wp_on_inner {A} (c : io W S E A) s w Q :
  wp (c (inner s))
     (fun r w' => Q (set_inner r.1 s, match r.2 with Ok a => Ok a | Err e => Err (Io e) end) w') w ->
  wp (on_inner c s) Q w.
Proof. intros H. apply wp_bind. eapply wp_mono; [exact H|]. done. Qed.

Lemma set_inner_id (s : DiskSlice S) : set_inner (inner s) s = s.
Proof. by destruct s. Qed.

Lemma slice_ok_length s w : slice_ok s w -> len (slice_view w) = Z.of_nat n.
Proof.
  intros (_ & _ & _ & _ & _ & _ & Hm & Hl & _ & _). unfold slice_view, mirror, len.
  rewrite length_part by nia. done.
Qed.

Lemma slice_ok_offset s w o :
  slice_ok s w -> 0 <= o <= Z.of_nat n -> slice_ok (set_offset o s) w.
Proof.
  intros (? & ? & ? & ? & ? & ? & ? & ? & ? & ?) Ho. unfold slice_ok. cbn. split_and!; done || lia.
Qed.

Lemma slice_ok_bytes s w w' :
  slice_ok s w -> bytes w' = bytes w -> I w' -> slice_ok s w' /\ slice_view w' = slice_view w.
Proof.
  intros (? & ? & ? & ? & ? & ? & ? & ? & Hm & Ht) Hb HI. unfold slice_ok, slice_view, mirror in *.
  rewrite Hb. split_and!; done || lia.
Qed.

(** The loop over the mirrors copies the bytes to each of them. *)
Lemma write_mirrors_spec bs o ks s w :
  bs <> [] -> (o + length bs <= n)%nat -> NoDup ks -> (forall i, i ∈ ks -> (i < m)%nat) ->
  I w -> (lo <= b)%nat -> (b + m * n <= length (bytes w))%nat ->
  wp (write_mirrors (Z.of_nat (b + o)) (Z.of_nat n) bs ks s)
     (fun r w' => r = (s, Ok tt) /\ I w' /\ length (bytes w') = length (bytes w) /\
        drop (b + m * n) (bytes w') = drop (b + m * n) (bytes w) /\
        forall i, (i < m)%nat ->
          mirror i w' = if decide (i ∈ ks) then splice o bs (mirror i w) else mirror i w) w.
Proof.
  intros Hne Ho. revert w. induction ks as [|k ks IH]; intros w Hnd Hks HI Hlo Hlen.
  { apply wp_ret. by split_and!. }
  apply NoDup_cons in Hnd as [Hk Hnd]. assert (Hkm : (k < m)%nat) by (apply Hks; by left).
  destruct (pos_ok w HI) as [_ Hmax]. unfold len in Hmax.
  assert (Hp : wrap 64 (Z.of_nat (b + o) + wrap 64 (Z.of_nat k * Z.of_nat n)) = Z.of_nat (b + k * n + o)).
  { rewrite (wrap_id 64 (_ * _)) by (unfold is_uint; nia). rewrite wrap_id; [nia|unfold is_uint; nia]. }
  cbn [write_mirrors]. rewrite Hp. apply wp_io_bind, wp_on_inner.
  eapply wp_mono; [apply pos_seek; [done|unfold len; nia]|].
  intros r w1 (-> & Hb1 & Hp1 & HI1). cbn. apply wp_io_bind, wp_on_inner. rewrite set_inner_id.
  apply wp_write_all; [done|].
  eapply wp_mono; [apply pos_write; [done|rewrite Hp1; lia|rewrite Hp1, Hb1; unfold len; nia]|].
  intros r w2 (-> & Hl2 & Hd2 & HI2). cbn. split; [done|]. rewrite set_inner_id.
  rewrite Hp1, Nat2Z.id, Hb1 in Hd2. rewrite Hb1 in Hl2.
  eapply wp_mono; [apply IH; try done; [intros i Hi; apply Hks; by right|by rewrite Hl2]|].
  intros r w3 (-> & HI3 & Hl3 & Ht3 & Hm3). split_and!; [done|done|congruence| |].
  { rewrite Ht3, (drop_above lo (b + m * n) _ _ ltac:(nia) Hd2). apply drop_splice; nia. }
  intros i Hi. rewrite (Hm3 i Hi). unfold mirror.
  assert (Hv : part (b + i * n) n (bytes w2) =
               part (b + i * n) n (splice (b + k * n + o) bs (bytes w))).
  { apply (part_above lo); [lia|done]. }
  rewrite Hv. destruct (decide (i = k)) as [->|Hne'].
  - rewrite decide_False by done. rewrite decide_True by set_solver.
    apply part_splice_in; [done|nia].
  - rewrite part_splice_out; [|nia|].
    + destruct (decide (i ∈ ks)); [rewrite decide_True by set_solver|rewrite decide_False by set_solver]; done.
    + destruct (decide (i < k)%nat); [right; nia|left; nia].
Qed.

Lemma slice_seek_spec p s w :
  slice_ok s w -> 0 <= p <= Z.of_nat n ->
  wp (slice_seek (E:=E) (Start p) s) (fun r w' => r = (set_offset p s, Ok p) /\ w' = w) w.
Proof.
  intros Hs Hp. destruct Hs as (_ & Hz & _). unfold slice_seek. apply wp_io_bind, wp_ret.
  cbn [fst snd]. rewrite Hz, (proj2 (Z.ltb_ge _ _)) by lia. by apply wp_ret.
Qed.

Lemma slice_read_spec k s w :
  slice_ok s w -> offset s + Z.of_nat k <= Z.of_nat n ->
  wp (slice_read k s)
     (fun r w' => r = (set_offset (offset s + Z.of_nat k) s,
                       Ok (part (Z.to_nat (offset s)) k (slice_view w))) /\
                  bytes w' = bytes w /\ I w') w.
Proof.
  intros Hs Hk. pose proof Hs as (Hb & Hz & _ & Ho & HI & _ & Hm & Hlen & _).
  destruct (pos_ok w HI) as [_ Hmax]. unfold len in Hmax.
  unfold slice_read. apply wp_io_bind, wp_ret. cbn [fst snd].
  rewrite Hb, Hz, !wrap_id, Z.min_l, Nat2Z.id by (unfold is_uint; nia).
  apply wp_io_bind, wp_on_inner.
  eapply wp_mono; [apply pos_seek; [done|unfold len; nia]|].
  intros r w1 (-> & Hb1 & Hp1 & HI1). cbn [fst snd]. apply wp_io_bind, wp_on_inner.
  rewrite set_inner_id. eapply wp_mono; [apply pos_read; [done|rewrite Hp1, Hb1; unfold len; nia]|].
  intros r w2 (-> & Hb2 & HI2). cbn [fst snd]. rewrite set_inner_id.
  apply wp_io_bind, wp_ret. cbn [fst snd]. apply wp_io_bind, wp_ret. cbn [fst snd]. apply wp_ret.
  rewrite Hp1, Hb1. split; [|split; [congruence|done]].
  unfold slice_view, mirror. rewrite part_part by lia.
  replace (Z.to_nat (Z.of_nat b + offset s)) with (b + 0 * n + Z.to_nat (offset s))%nat by lia.
  rewrite wrap_id; unfold len; rewrite length_part by nia; [done|unfold is_uint; nia].
Qed.

Lemma slice_write_spec bs s w :
  slice_ok s w -> offset s + len bs <= Z.of_nat n ->
  wp (slice_write bs s)
     (fun r w' => r = (set_offset (offset s + len bs) s, Ok (length bs)) /\
                  slice_view w' = splice (Z.to_nat (offset s)) bs (slice_view w) /\
                  slice_ok s w') w.
Proof.
  intros Hs Hk. pose proof Hs as (Hb & Hz & Hmi & Ho & HI & Hlo & Hm & Hlen & Hsync & Ht).
  destruct (pos_ok w HI) as [_ Hmax]. unfold len in Hmax.
  unfold slice_write. apply wp_io_bind, wp_ret. cbn [fst snd].
  rewrite Hb, Hz, Hmi, !wrap_id, Z.min_l, Nat2Z.id by (unfold is_uint, len in *; nia).
  destruct (Z.eqb_spec (len bs) 0) as [H0|H0].
  { destruct bs; [|done]. apply wp_ret. rewrite splice_nil. unfold len; simpl. rewrite Z.add_0_r.
    split_and!; try done. by destruct s. }
  assert (Hne : bs <> []) by (intros ->; by apply H0). unfold len. rewrite Nat2Z.id, firstn_all.
  replace (Z.of_nat b + offset s) with (Z.of_nat (b + Z.to_nat (offset s))) by lia.
  apply wp_io_bind. eapply wp_mono.
  { apply write_mirrors_spec; try done; [unfold len in *; lia|apply NoDup_seq|].
    intros i Hi%elem_of_seq. lia. }
  intros r w' (-> & HI' & Hl' & Ht' & Hm'). cbn [fst snd].
  apply wp_io_bind, wp_ret. cbn [fst snd]. apply wp_io_bind, wp_ret. cbn [fst snd]. apply wp_ret.
  rewrite wrap_id by (unfold is_uint, len in *; nia). split; [done|].
  assert (Hall : forall i, (i < m)%nat -> mirror i w' = splice (Z.to_nat (offset s)) bs (slice_view w)).
  { intros i Hi. rewrite Hm', decide_True by (done || apply elem_of_seq; lia). by rewrite Hsync. }
  split; [by apply Hall|]. unfold slice_ok. split_and!; try done; try lia.
  - intros i Hi. unfold slice_view. by rewrite !Hall.
  - congruence.
Qed.

#[export] Instance slice_flat_laws :
  FlatLaws (S:=DiskSlice S) (E:=Error E) slice_view (fun s _ => offset s) slice_ok.
Proof.
  split.
  - intros s w Hs. rewrite (slice_ok_length s w Hs). apply Hs.
  - intros p s w Hs Hp. rewrite (slice_ok_length s w Hs) in Hp.
    eapply wp_mono; [by apply slice_seek_spec|]. intros r w' (-> & ->). cbn.
    split_and!; try done. by apply slice_ok_offset.
  - intros k s w Hs Hk. rewrite (slice_ok_length s w Hs) in Hk.
    eapply wp_mono; [by apply slice_read_spec|]. intros r w' (-> & Hb & HI). cbn.
    destruct (slice_ok_bytes s w w' Hs Hb HI) as [Hs' Hv]. split_and!; try done.
    apply slice_ok_offset; [done|]. destruct Hs as (_ & _ & _ & ? & _). lia.
  - intros bs s w Hs Hk. rewrite (slice_ok_length s w Hs) in Hk.
    eapply wp_mono; [by apply slice_write_spec|]. intros r w' (-> & Hv & Hs'). cbn.
    split_and!; try done. apply slice_ok_offset; [done|].
    destruct Hs as (_ & _ & _ & ? & _). unfold len in *. lia.
Qed.

End slices.

End DiskLaws.
