(* ===== verification/FatTime.v ===== *)
(** * Dates and times of directory entries

    Models [awkernel_lib/src/file/fatfs/time.rs] without the [chrono] feature,
    which no target enables: the 16-bit encodings of dates and times and the
    provider that always gives the start of the DOS epoch. *)

From S2P Require Import Prelude.

Module FatTime.
Local Open Scope Z_scope.

Definition MIN_YEAR : Z := 1980.
Definition MAX_YEAR : Z := 2107.
Definition MIN_MONTH : Z := 1.
Definition MAX_MONTH : Z := 12.
Definition MIN_DAY : Z := 1.
Definition MAX_DAY : Z := 31.

Record Date := mkDate { year : Z; month : Z; day : Z }.

#[export] Instance date_eq_dec : EqDecision Date.
Proof. solve_decision. Defined.

Definition between (lo hi z : Z) : bool := (lo <=? z) && (z <=? hi).

Definition date_new (year month day : Z) : outcome Date :=
  _ ← assert_true (between MIN_YEAR MAX_YEAR year);
  _ ← assert_true (between MIN_MONTH MAX_MONTH month);
  _ ← assert_true (between MIN_DAY MAX_DAY day);
  Ret (mkDate year month day).

Definition date_decode (dos_date : Z) : Date :=
  mkDate (wrap 16 (Z.shiftr dos_date 9 + MIN_YEAR))
         (Z.land (Z.shiftr dos_date 5) 0xF)
         (Z.land dos_date 0x1F).

Definition date_encode (d : Date) : Z :=
  Z.lor (Z.lor (wrap 16 (Z.shiftl (wrap 16 (year d - MIN_YEAR)) 9))
               (wrap 16 (Z.shiftl (month d) 5)))
        (day d).

Record Time := mkTime { hour : Z; min : Z; sec : Z; millis : Z }.

#[export] Instance time_eq_dec : EqDecision Time.
Proof. solve_decision. Defined.

Definition time_new (hour min sec millis : Z) : outcome Time :=
  _ ← assert_true (hour <=? 23);
  _ ← assert_true (min <=? 59);
  _ ← assert_true (sec <=? 59);
  _ ← assert_true (millis <=? 999);
  Ret (mkTime hour min sec millis).

Definition time_decode (dos_time dos_time_hi_res : Z) : Time :=
  mkTime (Z.shiftr dos_time 11)
         (Z.land (Z.shiftr dos_time 5) 0x3F)
         (Z.land dos_time 0x1F * 2 + dos_time_hi_res / 100)
         (dos_time_hi_res mod 100 * 10).

Definition time_encode (t : Time) : Z * Z :=
  (Z.lor (Z.lor (wrap 16 (Z.shiftl (hour t) 11)) (wrap 16 (Z.shiftl (min t) 5))) (sec t / 2),
   wrap 8 (wrap 16 (millis t / 10 + sec t mod 2 * 100))).

Record DateTime := mkDateTime { date : Date; time : Time }.

#[export] Instance datetime_eq_dec : EqDecision DateTime.
Proof. solve_decision. Defined.

Definition datetime_decode (dos_date dos_time dos_time_hi_res : Z) : DateTime :=
  mkDateTime (date_decode dos_date) (time_decode dos_time dos_time_hi_res).

(** [TimeProvider]; the file system of the kernel uses [NullTimeProvider]. *)
Class TimeProvider (T : Type) := {
  get_current_date : T -> Date;
  get_current_date_time : T -> DateTime
}.

Inductive NullTimeProvider := null_time_provider.

#[export] Instance null_time_provider_impl : TimeProvider NullTimeProvider := {
  get_current_date _ := date_decode 0;
  get_current_date_time _ := datetime_decode 0 0 0
}.

(** ** Round trips *)

(** The encodings as sums of their fields. *)
Lemma date_encode_sum y m d :
  0 <= y - MIN_YEAR < 128 -> 0 <= m < 16 -> 0 <= d < 32 ->
  date_encode (mkDate y m d) = (y - MIN_YEAR) * 512 + m * 32 + d.
Proof.
  intros Hy Hm Hd. unfold date_encode; cbn [year month day]. rewrite !Z.shiftl_mul_pow2 by lia.
  unfold wrap. rewrite (Z.mod_small (y - MIN_YEAR)), !Z.mod_small by lia.
  replace (Z.lor _ _) with (Z.lor ((y - MIN_YEAR) * 2 ^ 9 + m * 2 ^ 5) d).
  2: { f_equal. symmetry. apply lor_mul_add; [lia|unfold is_uint; lia]. }
  replace ((y - MIN_YEAR) * 2 ^ 9 + m * 2 ^ 5) with (((y - MIN_YEAR) * 16 + m) * 2 ^ 5) by lia.
  rewrite lor_mul_add by (unfold is_uint; lia). lia.
Qed.

Lemma time_encode_sum h m s ms :
  0 <= h < 32 -> 0 <= m < 64 -> 0 <= s < 64 -> 0 <= ms < 1000 ->
  time_encode (mkTime h m s ms) = (h * 2048 + m * 32 + s / 2, ms / 10 + s mod 2 * 100).
Proof.
  intros Hh Hm Hs Hms. unfold time_encode; cbn [hour min sec millis].
  rewrite !Z.shiftl_mul_pow2 by lia. unfold wrap.
  rewrite (Z.mod_small (h * _)), (Z.mod_small (m * _)) by lia.
  rewrite (Z.mod_small (_ + _)), (Z.mod_small (_ + _)) by dlia. f_equal.
  replace (Z.lor _ _) with (Z.lor (h * 2 ^ 11 + m * 2 ^ 5) (s / 2)).
  2: { f_equal. symmetry. apply lor_mul_add; [lia|unfold is_uint; lia]. }
  replace (h * 2 ^ 11 + m * 2 ^ 5) with ((h * 64 + m) * 2 ^ 5) by lia.
  rewrite lor_mul_add by (unfold is_uint; dlia). lia.
Qed.

Lemma land_0x1F x : Z.land x 0x1F = x mod 32.
Proof. exact (land_mask_mod x 5 ltac:(lia)). Qed.

Lemma date_decode_fields x :
  is_uint 16 x ->
  date_decode x = mkDate (x / 512 + MIN_YEAR) (x / 32 mod 16) (x mod 32).
Proof.
  intros Hx. unfold date_decode. rewrite !Z.shiftr_div_pow2 by lia.
  rewrite (land_mask_mod _ 4), land_0x1F by lia. unfold is_uint, wrap, MIN_YEAR in *.
  rewrite (Z.mod_small (_ + _)) by dlia. done.
Qed.

Lemma time_decode_fields x y :
  time_decode x y = mkTime (x / 2048) (x / 32 mod 64) (x mod 32 * 2 + y / 100) (y mod 100 * 10).
Proof.
  unfold time_decode. rewrite !Z.shiftr_div_pow2 by lia.
  by rewrite (land_mask_mod _ 6), land_0x1F by lia.
Qed.

Lemma assert_ret b u : assert_true b = Ret u -> b = true.
Proof. by destruct b. Qed.

Lemma date_new_ret y m d x :
  date_new y m d = Ret x -> 1980 <= y <= 2107 /\ 1 <= m <= 12 /\ 1 <= d <= 31.
Proof.
  intros (? & H1%assert_ret & (? & H2%assert_ret & (? & H3%assert_ret & _)%bind_ret)%bind_ret)%bind_ret.
  unfold between in *. b2p. unfold MIN_YEAR, MAX_YEAR, MIN_MONTH, MAX_MONTH, MIN_DAY, MAX_DAY in *. lia.
Qed.

Lemma time_new_ret h m s ms x :
  time_new h m s ms = Ret x -> h <= 23 /\ m <= 59 /\ s <= 59 /\ ms <= 999.
Proof.
  intros (? & H1%assert_ret & (? & H2%assert_ret & (? & H3%assert_ret & (? & H4%assert_ret & _)
    %bind_ret)%bind_ret)%bind_ret)%bind_ret. b2p. lia.
Qed.

(** Dates and times survive being stored.  A date accepted by
    [Date::new] is encoded in 16 bits and decoded to itself, and every 16-bit
    value is the encoding of the date it is decoded to.  A time accepted by
    [Time::new] is encoded in a 16-bit and an 8-bit value and decoded to
    itself with the milliseconds rounded down to tens; without the second
    value, as for modification times, the seconds are rounded down to even. *)
Theorem dos_date_time_round_trip (d : Date) (t : Time) (x : Z) :
  date_new (year d) (month d) (day d) = Ret d ->
  time_new (hour t) (min t) (sec t) (millis t) = Ret t ->
  0 <= hour t -> 0 <= min t -> 0 <= sec t -> 0 <= millis t -> is_uint 16 x ->
  is_uint 16 (date_encode d) /\ date_decode (date_encode d) = d /\
  date_encode (date_decode x) = x /\
  is_uint 16 (time_encode t).1 /\ is_uint 8 (time_encode t).2 /\
  time_decode (time_encode t).1 (time_encode t).2 =
    mkTime (hour t) (min t) (sec t) (millis t / 10 * 10) /\
  time_decode (time_encode t).1 0 = mkTime (hour t) (min t) (sec t / 2 * 2) 0.
Proof.
  intros Hd%date_new_ret Ht%time_new_ret Hh Hm Hs Hms Hx.
  destruct d as [y mo da], t as [h mi s ms]. cbn [year month day hour min sec millis] in *.
  rewrite time_encode_sum, !time_decode_fields by lia. cbn [fst snd].
  rewrite (date_decode_fields x), !date_encode_sum by (unfold is_uint, MIN_YEAR in *; dlia).
  rewrite date_decode_fields by (unfold is_uint, MIN_YEAR; lia).
  unfold is_uint, MIN_YEAR in *. repeat split; f_equal; try lia; dlia.
Qed.

Lemma dos_date_time_round_trip_witness :
  date_decode (date_encode (mkDate 2055 7 23)) = mkDate 2055 7 23.
Proof.
  apply (dos_date_time_round_trip (mkDate 2055 7 23) (mkTime 15 3 29 999) 38647);
    first [reflexivity | unfold is_uint; cbn; lia].
Defined.

End FatTime.
