(* ===== verification/FatBoot.v ===== *)
(** * The boot sector: layout of a FAT volume

    Models [awkernel_lib/src/file/fatfs/boot_sector.rs] and the parts of
    [fs.rs] it rests on: the types of FAT, the status flags and the options of
    formatting.  Sector and cluster numbers are [u32] and wrap around as in the
    release build; a division by a field that is zero panics. *)

From S2P Require Import Prelude Critical Disk.
From stdpp Require Import option.

Module FatBoot.
Import Disk.
Local Open Scope Z_scope.

(** ** Types of FAT *)

Inductive FatType := Fat12 | Fat16 | Fat32.

#[export] Instance fat_type_eq_dec : EqDecision FatType.
Proof. solve_decision. Defined.

Definition FAT16_MIN_CLUSTERS : Z := 4085.
Definition FAT32_MIN_CLUSTERS : Z := 65525.
Definition FAT32_MAX_CLUSTERS : Z := 0x0FFFFFF4.

Definition from_clusters (total_clusters : Z) : FatType :=
  if total_clusters <? FAT16_MIN_CLUSTERS then Fat12
  else if total_clusters <? FAT32_MIN_CLUSTERS then Fat16
  else Fat32.

Definition bits_per_fat_entry (t : FatType) : Z :=
  match t with Fat12 => 12 | Fat16 => 16 | Fat32 => 32 end.

Definition max_clusters (t : FatType) : Z :=
  match t with
  | Fat12 => FAT16_MIN_CLUSTERS - 1
  | Fat16 => FAT32_MIN_CLUSTERS - 1
  | Fat32 => FAT32_MAX_CLUSTERS
  end.

(** ** Status flags *)

Record FsStatusFlags := mkFlags { dirty : bool; io_error : bool }.

#[export] Instance flags_eq_dec : EqDecision FsStatusFlags.
Proof. solve_decision. Defined.

Definition flags_encode (f : FsStatusFlags) : Z :=
  let res := 0 in
  let res := if dirty f then Z.lor res 1 else res in
  if io_error f then Z.lor res 2 else res.

Definition flags_decode (flags : Z) : FsStatusFlags :=
  mkFlags (negb (Z.land flags 1 =? 0)) (negb (Z.land flags 2 =? 0)).

(** ** The BIOS parameter block *)

Record BiosParameterBlock := mkBpb {
  bytes_per_sector : Z;
  sectors_per_cluster : Z;
  reserved_sectors_16 : Z;
  fats : Z;
  root_entries : Z;
  total_sectors_16 : Z;
  media : Z;
  sectors_per_fat_16 : Z;
  sectors_per_track : Z;
  heads : Z;
  hidden_sectors : Z;
  total_sectors_32 : Z;
  sectors_per_fat_32 : Z;
  extended_flags : Z;
  fs_version : Z;
  root_dir_first_cluster : Z;
  fs_info_sector : Z;
  backup_boot_sector : Z;
  reserved_0 : list Z;
  drive_num : Z;
  reserved_1 : Z;
  ext_sig : Z;
  volume_id : Z;
  volume_label : list Z;
  fs_type_label : list Z
}.

Definition DIR_ENTRY_SIZE : Z := 32.
Definition RESERVED_FAT_ENTRIES : Z := 2.

(** Unsigned division and [div_ceil]. *)
Definition udiv (a b : Z) : outcome Z := if b =? 0 then Panic else Ret (a / b).
Definition div_ceil (a b : Z) : outcome Z :=
  if b =? 0 then Panic else Ret ((a + b - 1) / b).

Definition is_fat32 (b : BiosParameterBlock) : bool := sectors_per_fat_16 b =? 0.

Definition mirroring_enabled (b : BiosParameterBlock) : bool :=
  Z.land (extended_flags b) 0x80 =? 0.

Definition active_fat (b : BiosParameterBlock) : Z :=
  if mirroring_enabled b then 0 else Z.land (extended_flags b) 0x0F.

Definition status_flags (b : BiosParameterBlock) : FsStatusFlags := flags_decode (reserved_1 b).

Definition sectors_per_fat (b : BiosParameterBlock) : Z :=
  if is_fat32 b then sectors_per_fat_32 b else sectors_per_fat_16 b.

Definition total_sectors (b : BiosParameterBlock) : Z :=
  if total_sectors_16 b =? 0 then total_sectors_32 b else total_sectors_16 b.

Definition reserved_sectors (b : BiosParameterBlock) : Z := reserved_sectors_16 b.

Definition root_dir_sectors (b : BiosParameterBlock) : outcome Z :=
  let root_dir_bytes := wrap 32 (root_entries b * DIR_ENTRY_SIZE) in
  div_ceil root_dir_bytes (bytes_per_sector b).

Definition sectors_per_all_fats (b : BiosParameterBlock) : Z :=
  wrap 32 (fats b * sectors_per_fat b).

Definition first_data_sector (b : BiosParameterBlock) : outcome Z :=
  root_dir_sectors_ ← root_dir_sectors b;
  let fat_sectors := sectors_per_all_fats b in
  Ret (wrap 32 (wrap 32 (reserved_sectors b + fat_sectors) + root_dir_sectors_)).

Definition total_clusters (b : BiosParameterBlock) : outcome Z :=
  first_data_sector_ ← first_data_sector b;
  let data_sectors := wrap 32 (total_sectors b - first_data_sector_) in
  udiv data_sectors (sectors_per_cluster b).

Definition bytes_from_sectors (b : BiosParameterBlock) (sectors : Z) : Z :=
  wrap 64 (sectors * bytes_per_sector b).

Definition sectors_from_clusters (b : BiosParameterBlock) (clusters : Z) : Z :=
  wrap 32 (clusters * sectors_per_cluster b).

Definition cluster_size (b : BiosParameterBlock) : Z :=
  wrap 32 (sectors_per_cluster b * bytes_per_sector b).

Definition clusters_from_bytes (b : BiosParameterBlock) (bytes : Z) : outcome Z :=
  n ← div_ceil bytes (cluster_size b); Ret (wrap 32 n).

(** ** Validation *)

Definition is_power_of_two (n : Z) : bool := (0 <? n) && (Z.land n (n - 1) =? 0).

Section validate.
Context {E : Type}.

Definition corrupted {A} : res (Error E) A := err CorruptedFileSystem.
Definition fine : res (Error E) unit := mret tt.

Definition validate_bytes_per_sector (b : BiosParameterBlock) : res (Error E) unit :=
  if negb (is_power_of_two (bytes_per_sector b)) then corrupted
  else if (bytes_per_sector b <? 512) || (4096 <? bytes_per_sector b) then corrupted
  else fine.

(** The size of a cluster only gives a warning. *)
Definition validate_sectors_per_cluster (b : BiosParameterBlock) : res (Error E) unit :=
  if negb (is_power_of_two (sectors_per_cluster b)) then corrupted else fine.

Definition validate_reserved_sectors (b : BiosParameterBlock) : res (Error E) unit :=
  if reserved_sectors_16 b <? 1 then corrupted
  else if is_fat32 b && (reserved_sectors_16 b <=? backup_boot_sector b) then corrupted
  else if is_fat32 b && (reserved_sectors_16 b <=? fs_info_sector b) then corrupted
  else fine.

Definition validate_fats (b : BiosParameterBlock) : res (Error E) unit :=
  if fats b =? 0 then corrupted else fine.

(** [is_multiple_of] does not panic, and its result only gives a warning. *)
Definition validate_root_entries (b : BiosParameterBlock) : res (Error E) unit :=
  if is_fat32 b && negb (root_entries b =? 0) then corrupted
  else if negb (is_fat32 b) && (root_entries b =? 0) then corrupted
  else fine.

Definition validate_total_sectors (b : BiosParameterBlock) : res (Error E) unit :=
  if is_fat32 b && negb (total_sectors_16 b =? 0) then corrupted
  else if (total_sectors_16 b =? 0) && (total_sectors_32 b =? 0) then corrupted
  else if negb (total_sectors_16 b =? 0) && negb (total_sectors_32 b =? 0)
            && negb (total_sectors_16 b =? total_sectors_32 b) then corrupted
  else
    first_data_sector_ ← call (first_data_sector b);
    if total_sectors b <=? first_data_sector_ then corrupted else fine.

Definition validate_sectors_per_fat (b : BiosParameterBlock) : res (Error E) unit :=
  if is_fat32 b && (sectors_per_fat_32 b =? 0) then corrupted else fine.

(** That the FAT has an entry for every cluster only gives a warning. *)
Definition validate_total_clusters (b : BiosParameterBlock) : res (Error E) unit :=
  total_clusters_ ← call (total_clusters b);
  let fat_type := from_clusters total_clusters_ in
  if negb (Bool.eqb (is_fat32 b) (bool_decide (fat_type = Fat32))) then corrupted
  else if bool_decide (fat_type = Fat32) && (0x0FFFFFFF <? total_clusters_) then corrupted
  else fine.

Definition bpb_validate (b : BiosParameterBlock) : res (Error E) unit :=
  if negb (fs_version b =? 0) then corrupted else
  _ ← validate_bytes_per_sector b;
  _ ← validate_sectors_per_cluster b;
  _ ← validate_reserved_sectors b;
  _ ← validate_fats b;
  _ ← validate_root_entries b;
  _ ← validate_total_sectors b;
  _ ← validate_sectors_per_fat b;
  validate_total_clusters b.

End validate.

(** ** Reading and writing the boot sector *)

Record BootSector := mkBoot {
  bootjmp : list Z;
  oem_name : list Z;
  bpb : BiosParameterBlock;
  boot_code : list Z;
  boot_sig : list Z
}.

Definition zeros (n : nat) : list Z := replicate n 0.

Section serialize.
Context {W S E : Type} `{HE : IoError E} `{HS : Storage W S E}.

(** The fields only FAT32 has, [default] otherwise. *)
Record Fat32Fields := mkFat32 {
  f_sectors_per_fat_32 : Z;
  f_extended_flags : Z;
  f_fs_version : Z;
  f_root_dir_first_cluster : Z;
  f_fs_info_sector : Z;
  f_backup_boot_sector : Z;
  f_reserved_0 : list Z
}.

Definition read_fat32_fields (sectors_per_fat_16 : Z) : io W S E Fat32Fields :=
  if sectors_per_fat_16 =? 0 then
    sectors_per_fat_32 ← read_u32_le;
    extended_flags ← read_u16_le;
    fs_version ← read_u16_le;
    root_dir_first_cluster ← read_u32_le;
    fs_info_sector ← read_u16_le;
    backup_boot_sector ← read_u16_le;
    reserved_0 ← read_exact 12;
    mret (mkFat32 sectors_per_fat_32 extended_flags fs_version root_dir_first_cluster
            fs_info_sector backup_boot_sector reserved_0)
  else mret (mkFat32 0 0 0 0 0 0 (zeros 12)).

Definition bpb_deserialize : io W S E BiosParameterBlock :=
  bytes_per_sector ← read_u16_le;
  sectors_per_cluster ← read_u8;
  reserved_sectors ← read_u16_le;
  fats ← read_u8;
  root_entries ← read_u16_le;
  total_sectors_16 ← read_u16_le;
  media ← read_u8;
  sectors_per_fat_16 ← read_u16_le;
  sectors_per_track ← read_u16_le;
  heads ← read_u16_le;
  hidden_sectors ← read_u32_le;
  total_sectors_32 ← read_u32_le;
  f ← read_fat32_fields sectors_per_fat_16;
  drive_num ← read_u8;
  reserved_1 ← read_u8;
  ext_sig ← read_u8;
  volume_id ← read_u32_le;
  volume_label ← read_exact 11;
  fs_type_label ← read_exact 8;
  let valid := ext_sig =? 0x29 in
  mret (mkBpb bytes_per_sector sectors_per_cluster reserved_sectors fats root_entries
          total_sectors_16 media sectors_per_fat_16 sectors_per_track heads hidden_sectors
          total_sectors_32 (f_sectors_per_fat_32 f) (f_extended_flags f) (f_fs_version f)
          (f_root_dir_first_cluster f) (f_fs_info_sector f) (f_backup_boot_sector f)
          (f_reserved_0 f) drive_num reserved_1 ext_sig
          (if valid then volume_id else 0)
          (if valid then volume_label else zeros 11)
          (if valid then fs_type_label else zeros 8)).

Definition bpb_serialize (b : BiosParameterBlock) : io W S E unit :=
  _ ← write_u16_le (bytes_per_sector b);
  _ ← write_u8 (sectors_per_cluster b);
  _ ← write_u16_le (reserved_sectors_16 b);
  _ ← write_u8 (fats b);
  _ ← write_u16_le (root_entries b);
  _ ← write_u16_le (total_sectors_16 b);
  _ ← write_u8 (media b);
  _ ← write_u16_le (sectors_per_fat_16 b);
  _ ← write_u16_le (sectors_per_track b);
  _ ← write_u16_le (heads b);
  _ ← write_u32_le (hidden_sectors b);
  _ ← write_u32_le (total_sectors_32 b);
  _ ← (if is_fat32 b then
         _ ← write_u32_le (sectors_per_fat_32 b);
         _ ← write_u16_le (extended_flags b);
         _ ← write_u16_le (fs_version b);
         _ ← write_u32_le (root_dir_first_cluster b);
         _ ← write_u16_le (fs_info_sector b);
         _ ← write_u16_le (backup_boot_sector b);
         write_all (reserved_0 b)
       else mret tt : io W S E unit);
  _ ← write_u8 (drive_num b);
  _ ← write_u8 (reserved_1 b);
  _ ← write_u8 (ext_sig b);
  _ ← write_u32_le (volume_id b);
  _ ← write_all (volume_label b);
  write_all (fs_type_label b).

(** The rest of the array of boot code stays zero. *)
Definition boot_deserialize : io W S E BootSector :=
  bootjmp ← read_exact 3;
  oem_name ← read_exact 8;
  bpb ← bpb_deserialize;
  let n := if is_fat32 bpb then 420%nat else 448%nat in
  boot_code ← read_exact n;
  boot_sig ← read_exact 2;
  mret (mkBoot bootjmp oem_name bpb (boot_code ++ zeros (448 - n)) boot_sig).

Definition boot_serialize (b : BootSector) : io W S E unit :=
  _ ← write_all (bootjmp b);
  _ ← write_all (oem_name b);
  _ ← bpb_serialize (bpb b);
  _ ← (if is_fat32 (bpb b) then write_all (take 420 (boot_code b))
       else write_all (take 448 (boot_code b)));
  write_all (boot_sig b).

End serialize.

(** An unknown jump opcode only gives a warning. *)
Definition boot_validate {E} (strict : bool) (b : BootSector) : res (Error E) unit :=
  if strict && negb (bool_decide (boot_sig b = [0x55; 0xAA])) then err CorruptedFileSystem
  else bpb_validate (bpb b).

(** ** Formatting *)

Record FormatVolumeOptions := mkOptions {
  o_bytes_per_sector : Z;
  o_total_sectors : option Z;
  o_bytes_per_cluster : option Z;
  o_fat_type : option FatType;
  o_max_root_dir_entries : Z;
  o_fats : Z;
  o_media : Z;
  o_sectors_per_track : Z;
  o_heads : Z;
  o_drive_num : option Z;
  o_volume_id : Z;
  o_volume_label : option (list Z)
}.

Definition default_options : FormatVolumeOptions :=
  mkOptions 512 None None None 512 2 0xF8 0x20 0x40 None 0x12345678 None.

Definition KB_32 : Z := 1024.
Definition MB_64 : Z := 1024 * 1024.
Definition GB_64 : Z := 1024 * 1024 * 1024.

Definition next_power_of_two (n : Z) : Z := wrap 64 (2 ^ Z.log2_up n).

Definition estimate_fat_type (total_bytes : Z) : FatType :=
  if total_bytes <? 4200 * 1024 then Fat12
  else if total_bytes <? 512 * MB_64 then Fat16
  else Fat32.

Definition MAX_CLUSTER_SIZE : Z := 32 * KB_32.

(** [Ord::clamp] panics on an empty range. *)
Definition clamp (z lo hi : Z) : outcome Z :=
  if hi <? lo then Panic else Ret (Z.max lo (Z.min z hi)).

Definition determine_bytes_per_cluster (total_bytes bytes_per_sector : Z)
    (fat_type : option FatType) : outcome Z :=
  let fat_type := default (estimate_fat_type total_bytes) fat_type in
  let bytes_per_cluster :=
    match fat_type with
    | Fat12 => wrap 32 (wrap 64 (next_power_of_two total_bytes / MB_64 * 512))
    | Fat16 =>
        if total_bytes <=? 16 * MB_64 then KB_32
        else if total_bytes <=? 128 * MB_64 then 2 * KB_32
        else wrap 32 (wrap 32 (next_power_of_two total_bytes / (64 * MB_64)) * KB_32)
    | Fat32 =>
        if total_bytes <=? 260 * MB_64 then 512
        else if total_bytes <=? 8 * GB_64 then 4 * KB_32
        else wrap 32 (wrap 32 (next_power_of_two total_bytes / (2 * GB_64)) * KB_32)
    end in
  clamp bytes_per_cluster bytes_per_sector MAX_CLUSTER_SIZE.

Definition determine_sectors_per_fat (total_sectors bytes_per_sector sectors_per_cluster : Z)
    (fat_type : FatType) (reserved_sectors root_dir_sectors fats : Z) : outcome Z :=
  let t0 := wrap 32 (wrap 32 (total_sectors - reserved_sectors) - root_dir_sectors) in
  let t1 := t0 + 2 * sectors_per_cluster in
  let bits_per_cluster := wrap 32 (wrap 32 (sectors_per_cluster * bytes_per_sector) * 8) in
  let t2 := wrap 32 (bits_per_cluster / bits_per_fat_entry fat_type + fats) in
  sectors_per_fat ← div_ceil t1 t2;
  Ret (wrap 32 sectors_per_fat).

Definition try_fs_layout {E} (total_sectors bytes_per_sector sectors_per_cluster : Z)
    (fat_type : FatType) (root_dir_sectors fats : Z) : res (Error E) (Z * Z) :=
  let reserved_sectors := if decide (fat_type = Fat32) then 8 else 1 in
  if total_sectors <=? wrap 32 (wrap 32 (reserved_sectors + root_dir_sectors) + 8)
  then err InvalidInput else
  sectors_per_fat ← call (determine_sectors_per_fat total_sectors bytes_per_sector
    sectors_per_cluster fat_type reserved_sectors root_dir_sectors fats);
  let data_sectors :=
    wrap 32 (wrap 32 (wrap 32 (total_sectors - reserved_sectors) - root_dir_sectors)
             - wrap 32 (sectors_per_fat * fats)) in
  total_clusters ← call (udiv data_sectors sectors_per_cluster);
  if negb (bool_decide (fat_type = from_clusters total_clusters)) then err InvalidInput
  else if max_clusters fat_type <? total_clusters then err InvalidInput
  else mret (reserved_sectors, sectors_per_fat).

Definition determine_root_dir_sectors (root_dir_entries bytes_per_sector : Z)
    (fat_type : FatType) : outcome Z :=
  if decide (fat_type = Fat32) then Ret 0
  else div_ceil (wrap 32 (root_dir_entries * DIR_ENTRY_SIZE)) bytes_per_sector.

Record FsLayout := mkLayout {
  l_fat_type : FatType;
  l_reserved_sectors : Z;
  l_sectors_per_fat : Z;
  l_sectors_per_cluster : Z
}.

(** The loop over the FAT types that are allowed. *)
Fixpoint select_fat_type {E} (options : FormatVolumeOptions) (total_sectors sectors_per_cluster : Z)
    (allowed_fat_types : list FatType) : res (Error E) FsLayout :=
  match allowed_fat_types with
  | [] => err InvalidInput
  | fat_type :: rest =>
      root_dir_sectors ← call (determine_root_dir_sectors (o_max_root_dir_entries options)
        (o_bytes_per_sector options) fat_type);
      match try_fs_layout (E:=E) total_sectors (o_bytes_per_sector options) sectors_per_cluster
              fat_type root_dir_sectors (o_fats options) with
      | Ret (Ok (reserved_sectors, sectors_per_fat)) =>
          mret (mkLayout fat_type reserved_sectors sectors_per_fat sectors_per_cluster)
      | Ret (Err _) => select_fat_type options total_sectors sectors_per_cluster rest
      | Panic => Panic
      end
  end.

Definition determine_fs_layout {E} (options : FormatVolumeOptions) (total_sectors : Z) :
    res (Error E) FsLayout :=
  bytes_per_cluster ← call
    match o_bytes_per_cluster options with
    | Some n => Ret n
    | None => determine_bytes_per_cluster (wrap 64 (total_sectors * o_bytes_per_sector options))
                (o_bytes_per_sector options) (o_fat_type options)
    end;
  sectors_per_cluster_32 ← call (udiv bytes_per_cluster (o_bytes_per_sector options));
  if 255 <? sectors_per_cluster_32 then err InvalidInput else
  select_fat_type options total_sectors sectors_per_cluster_32
    match o_fat_type options with Some t => [t] | None => [Fat32; Fat16; Fat12] end.

(** "NO NAME    " and "FAT12   ", "FAT16   ", "FAT32   " *)
Definition NO_NAME : list Z := [78; 79; 32; 78; 65; 77; 69; 32; 32; 32; 32].
Definition type_label (t : FatType) : list Z :=
  [70; 65; 84] ++
  match t with Fat12 => [49; 50] | Fat16 => [49; 54] | Fat32 => [51; 50] end ++ [32; 32; 32].

Definition format_bpb {E} (options : FormatVolumeOptions) (total_sectors : Z) :
    res (Error E) (BiosParameterBlock * FatType) :=
  layout ← determine_fs_layout options total_sectors;
  let fat_type := l_fat_type layout in
  let fat32 := bool_decide (fat_type = Fat32) in
  if negb fat32 && (65535 <? l_sectors_per_fat layout) then err InvalidInput else
  let total_sectors_16 :=
    if fat32 then 0 else if 65535 <? total_sectors then 0 else total_sectors in
  let b := mkBpb (o_bytes_per_sector options) (l_sectors_per_cluster layout)
    (l_reserved_sectors layout) (o_fats options)
    (if fat32 then 0 else o_max_root_dir_entries options)
    total_sectors_16 (o_media options)
    (if fat32 then 0 else l_sectors_per_fat layout)
    (o_sectors_per_track options) (o_heads options) 0
    (if total_sectors_16 =? 0 then total_sectors else 0)
    (if fat32 then l_sectors_per_fat layout else 0) 0 0
    (if fat32 then 2 else 0) (if fat32 then 1 else 0) (if fat32 then 6 else 0) (zeros 12)
    (default (if decide (fat_type = Fat12) then 0 else 0x80) (o_drive_num options))
    0 0x29 (o_volume_id options) (default NO_NAME (o_volume_label options))
    (type_label fat_type) in
  total_clusters_ ← call (total_clusters b);
  if negb (bool_decide (from_clusters total_clusters_ = fat_type)) then err InvalidInput
  else mret (b, fat_type).

(** The boot code that prints a message. *)
Definition BOOT_CODE : list Z := [
  0x0E; 0x1F; 0xBE; 0x77; 0x7C; 0xAC; 0x22; 0xC0; 0x74; 0x0B; 0x56; 0xB4; 0x0E; 0xBB; 0x07;
  0x00; 0xCD; 0x10; 0x5E; 0xEB; 0xF0; 0x32; 0xE4; 0xCD; 0x16; 0xCD; 0x19; 0xEB; 0xFE; 0x54;
  0x68; 0x69; 0x73; 0x20; 0x69; 0x73; 0x20; 0x6E; 0x6F; 0x74; 0x20; 0x61; 0x20; 0x62; 0x6F;
  0x6F; 0x74; 0x61; 0x62; 0x6C; 0x65; 0x20; 0x64; 0x69; 0x73; 0x6B; 0x2E; 0x20; 0x20; 0x50;
  0x6C; 0x65; 0x61; 0x73; 0x65; 0x20; 0x69; 0x6E; 0x73; 0x65; 0x72; 0x74; 0x20; 0x61; 0x20;
  0x62; 0x6F; 0x6F; 0x74; 0x61; 0x62; 0x6C; 0x65; 0x20; 0x66; 0x6C; 0x6F; 0x70; 0x70; 0x79;
  0x20; 0x61; 0x6E; 0x64; 0x0D; 0x0A; 0x70; 0x72; 0x65; 0x73; 0x73; 0x20; 0x61; 0x6E; 0x79;
  0x20; 0x6B; 0x65; 0x79; 0x20; 0x74; 0x6F; 0x20; 0x74; 0x72; 0x79; 0x20; 0x61; 0x67; 0x61;
  0x69; 0x6E; 0x20; 0x2E; 0x2E; 0x2E; 0x20; 0x0D; 0x0A ].

Definition BOOT_CODE_OFFSET : Z := 0x36 + 8.
Definition MESSAGE_OFFSET : Z := 29.

Definition format_boot_sector {E} (options : FormatVolumeOptions) (total_sectors : Z) :
    res (Error E) (BootSector * FatType) :=
  r ← format_bpb options total_sectors;
  let '(bpb, fat_type) := r in
  let code := BOOT_CODE ++ zeros (448 - length BOOT_CODE) in
  let message_offset_in_sector := BOOT_CODE_OFFSET + MESSAGE_OFFSET + 0x7c00 in
  let fat32 := bool_decide (fat_type = Fat32) in
  mret (mkBoot
    [0xEB; if fat32 then 0x58 else BOOT_CODE_OFFSET - 2; 0x90]
    [77; 83; 87; 73; 78; 52; 46; 49] bpb
    (if fat32 then code
     else <[4%nat := Z.shiftr message_offset_in_sector 8]>
            (<[3%nat := Z.land message_offset_in_sector 0xff]> code))
    [0x55; 0xAA], fat_type).

End FatBoot.
