(* ===== verification/FatTable.v ===== *)
(** * The file allocation table

    Models [awkernel_lib/src/file/fatfs/table.rs]: reading and writing the
    entries of a FAT of 12, 16 or 32 bits on any stream, searching and counting
    free clusters, allocation, formatting, and the iterator over the clusters
    of a chain with its truncation.  Clusters are [u32]. *)

From S2P Require Import Prelude Critical Disk FatBoot.

Module FatTable.
Import Disk FatBoot.
Local Open Scope Z_scope.

Inductive FatValue :=
| Free
| Data (n : Z)
| Bad
| EndOfChain.

#[export] Instance fat_value_eq_dec : EqDecision FatValue.
Proof. solve_decision. Defined.

Definition in_range (lo hi z : Z) : bool := (lo <=? z) && (z <=? hi).

Section table.
Context {W S E : Type} `{HE : IoError E} `{HS : Storage W S (Error E)}.

Definition T (A : Type) : Type := io W S (Error E) A.

Definition panics {A} : T A := fun _ => fails.

(** ** 12-bit entries *)

Definition fat12_offset (cluster : Z) : Z := wrap 32 (cluster + cluster / 2).

(** The half of a packed pair that belongs to the cluster. *)
Definition unpack12 (cluster packed_val : Z) : Z :=
  if Z.land cluster 1 =? 0 then Z.land packed_val 0x0FFF else Z.shiftr packed_val 4.

Definition fat12_get_raw (cluster : Z) : T Z :=
  _ ← seek (Start (fat12_offset cluster));
  packed_val ← read_u16_le;
  mret (unpack12 cluster packed_val).

Definition fat12_get (cluster : Z) : T FatValue :=
  val ← fat12_get_raw cluster;
  mret (if val =? 0 then Free
        else if val =? 0xFF7 then Bad
        else if in_range 0xFF8 0xFFF val then EndOfChain
        else Data val).

Definition fat12_set_raw (cluster raw_val : Z) : T unit :=
  _ ← seek (Start (fat12_offset cluster));
  old_packed ← read_u16_le;
  _ ← seek (Start (fat12_offset cluster));
  let new_packed :=
    if Z.land cluster 1 =? 0 then Z.lor (Z.land old_packed 0xF000) (wrap 16 raw_val)
    else Z.lor (Z.land old_packed 0x000F) (wrap 16 (Z.shiftl (wrap 16 raw_val) 4)) in
  write_u16_le new_packed.

Definition fat12_raw (value : FatValue) : Z :=
  match value with Free => 0 | Bad => 0xFF7 | EndOfChain => 0xFFF | Data n => n end.

Definition fat12_set (cluster : Z) (value : FatValue) : T unit :=
  fat12_set_raw cluster (fat12_raw value).

(** The loop of [find_free] of 12-bit entries ends when [cluster] reaches
    [end_cluster], after [end_cluster - start_cluster] rounds. *)
Fixpoint fat12_find_loop (fuel : nat) (cluster end_cluster packed_val : Z) : T Z :=
  match fuel with
  | O => panics
  | Datatypes.S fuel' =>
      if unpack12 cluster packed_val =? 0 then mret cluster else
      let cluster := wrap 32 (cluster + 1) in
      if cluster =? end_cluster then throw NotEnoughSpace else
      packed_val ←
        (if Z.land cluster 1 =? 0 then read_u16_le
         else next_byte ← read_u8;
              mret (Z.lor (Z.shiftr packed_val 8) (wrap 16 (Z.shiftl next_byte 8))) : T Z);
      fat12_find_loop fuel' cluster end_cluster packed_val
  end.

Definition fat12_find_free (start_cluster end_cluster : Z) : T Z :=
  _ ← seek (Start (fat12_offset start_cluster));
  packed_val ← read_u16_le;
  fat12_find_loop (Datatypes.S (Z.to_nat (end_cluster - start_cluster)))
    start_cluster end_cluster packed_val.

Fixpoint fat12_count_loop (fuel : nat) (cluster end_cluster prev_packed_val count : Z) : T Z :=
  match fuel with
  | O => panics
  | Datatypes.S fuel' =>
      if cluster <? end_cluster then
        packed_val ← (if Z.land cluster 1 =? 0 then read_u16_le else read_u8 : T Z);
        let val :=
          if Z.land cluster 1 =? 0 then Z.land packed_val 0x0FFF
          else Z.lor (wrap 16 (Z.shiftl packed_val 8)) (Z.shiftr prev_packed_val 12) in
        fat12_count_loop fuel' (wrap 32 (cluster + 1)) end_cluster packed_val
          (if val =? 0 then wrap 32 (count + 1) else count)
      else mret count
  end.

Definition fat12_count_free (end_cluster : Z) : T Z :=
  let cluster := RESERVED_FAT_ENTRIES in
  _ ← seek (Start (wrap 32 (cluster * 3) / 2));
  fat12_count_loop (Datatypes.S (Z.to_nat (end_cluster - cluster))) cluster end_cluster 0 0.

(** ** 16-bit entries *)

Definition fat16_get_raw (cluster : Z) : T Z :=
  _ ← seek (Start (wrap 32 (cluster * 2)));
  read_u16_le.

Definition fat16_get (cluster : Z) : T FatValue :=
  val ← fat16_get_raw cluster;
  mret (if val =? 0 then Free
        else if val =? 0xFFF7 then Bad
        else if in_range 0xFFF8 0xFFFF val then EndOfChain
        else Data val).

Definition fat16_set_raw (cluster raw_value : Z) : T unit :=
  _ ← seek (Start (wrap 32 (cluster * 2)));
  write_u16_le (wrap 16 raw_value).

Definition fat16_raw (value : FatValue) : Z :=
  match value with Free => 0 | Bad => 0xFFF7 | EndOfChain => 0xFFFF | Data n => n end.

Definition fat16_set (cluster : Z) (value : FatValue) : T unit :=
  fat16_set_raw cluster (fat16_raw value).

(** The loops of [find_free] and [count_free] of 16- and 32-bit entries, which
    read one entry per round with [next]. *)
Fixpoint find_loop (next : T Z) (fuel : nat) (cluster end_cluster : Z) : T Z :=
  match fuel with
  | O => panics
  | Datatypes.S fuel' =>
      if cluster <? end_cluster then
        val ← next;
        if val =? 0 then mret cluster
        else find_loop next fuel' (wrap 32 (cluster + 1)) end_cluster
      else throw NotEnoughSpace
  end.

Fixpoint count_loop (next : T Z) (fuel : nat) (cluster end_cluster count : Z) : T Z :=
  match fuel with
  | O => panics
  | Datatypes.S fuel' =>
      if cluster <? end_cluster then
        val ← next;
        count_loop next fuel' (wrap 32 (cluster + 1)) end_cluster
          (if val =? 0 then wrap 32 (count + 1) else count)
      else mret count
  end.

Definition fat16_find_free (start_cluster end_cluster : Z) : T Z :=
  _ ← seek (Start (wrap 32 (start_cluster * 2)));
  find_loop read_u16_le (Datatypes.S (Z.to_nat (end_cluster - start_cluster)))
    start_cluster end_cluster.

Definition fat16_count_free (end_cluster : Z) : T Z :=
  let cluster := RESERVED_FAT_ENTRIES in
  _ ← seek (Start (wrap 32 (cluster * 2)));
  count_loop read_u16_le (Datatypes.S (Z.to_nat (end_cluster - cluster))) cluster end_cluster 0.

(** ** 32-bit entries *)

Definition fat32_get_raw (cluster : Z) : T Z :=
  _ ← seek (Start (wrap 32 (cluster * 4)));
  read_u32_le.

(** The clusters whose numbers have a meaning of their own in a chain. *)
Definition special_cluster (cluster : Z) : bool := in_range 0x0FFFFFF7 0x0FFFFFFF cluster.

Definition fat32_get (cluster : Z) : T FatValue :=
  raw ← fat32_get_raw cluster;
  let val := Z.land raw 0x0FFFFFFF in
  mret (if (val =? 0) && special_cluster cluster then Bad
        else if val =? 0 then Free
        else if val =? 0x0FFFFFF7 then Bad
        else if in_range 0x0FFFFFF8 0x0FFFFFFF val then EndOfChain
        else if special_cluster cluster then Bad
        else Data val).

Definition fat32_set_raw (cluster raw_value : Z) : T unit :=
  _ ← seek (Start (wrap 32 (cluster * 4)));
  write_u32_le raw_value.

Definition fat32_raw (value : FatValue) : Z :=
  match value with Free => 0 | Bad => 0x0FFFFFF7 | EndOfChain => 0x0FFFFFFF | Data n => n end.

Definition fat32_set (cluster : Z) (value : FatValue) : T unit :=
  raw ← fat32_get_raw cluster;
  let old_reserved_bits := Z.land raw 0xF0000000 in
  if bool_decide (value = Free) && special_cluster cluster then panics else
  fat32_set_raw cluster (Z.lor (fat32_raw value) old_reserved_bits).

Definition next_entry32 : T Z := raw ← read_u32_le; mret (Z.land raw 0x0FFFFFFF).

Definition fat32_find_free (start_cluster end_cluster : Z) : T Z :=
  _ ← seek (Start (wrap 32 (start_cluster * 4)));
  find_loop next_entry32 (Datatypes.S (Z.to_nat (end_cluster - start_cluster)))
    start_cluster end_cluster.

Definition fat32_count_free (end_cluster : Z) : T Z :=
  let cluster := RESERVED_FAT_ENTRIES in
  _ ← seek (Start (wrap 32 (cluster * 4)));
  count_loop next_entry32 (Datatypes.S (Z.to_nat (end_cluster - cluster))) cluster end_cluster 0.

(** ** Operations by type of FAT *)

Definition read_fat (t : FatType) (cluster : Z) : T FatValue :=
  match t with
  | Fat12 => fat12_get cluster
  | Fat16 => fat16_get cluster
  | Fat32 => fat32_get cluster
  end.

Definition write_fat (t : FatType) (cluster : Z) (value : FatValue) : T unit :=
  match t with
  | Fat12 => fat12_set cluster value
  | Fat16 => fat16_set cluster value
  | Fat32 => fat32_set cluster value
  end.

Definition get_next_cluster (t : FatType) (cluster : Z) : T (option Z) :=
  val ← read_fat t cluster;
  mret match val with Data n => Some n | _ => None end.

Definition find_free_cluster (t : FatType) (start_cluster end_cluster : Z) : T Z :=
  match t with
  | Fat12 => fat12_find_free start_cluster end_cluster
  | Fat16 => fat16_find_free start_cluster end_cluster
  | Fat32 => fat32_find_free start_cluster end_cluster
  end.

Definition alloc_cluster (t : FatType) (prev_cluster hint : option Z) (total_clusters : Z) : T Z :=
  let end_cluster := wrap 32 (total_clusters + RESERVED_FAT_ENTRIES) in
  let start_cluster :=
    match hint with
    | Some n => if n <? end_cluster then n else RESERVED_FAT_ENTRIES
    | None => RESERVED_FAT_ENTRIES
    end in
  r ← try (find_free_cluster t start_cluster end_cluster);
  new_cluster ←
    match r with
    | Ok n => mret n
    | Err e =>
        if RESERVED_FAT_ENTRIES <? start_cluster
        then find_free_cluster t RESERVED_FAT_ENTRIES start_cluster
        else throw e
    end;
  _ ← write_fat t new_cluster EndOfChain;
  _ ← match prev_cluster with
      | Some n => write_fat t n (Data new_cluster)
      | None => mret tt
      end;
  mret new_cluster.

Definition read_fat_flags (t : FatType) : T FsStatusFlags :=
  val ← match t with
        | Fat12 => mret 0xFFF
        | Fat16 => fat16_get_raw 1
        | Fat32 => fat32_get_raw 1
        end;
  mret match t with
       | Fat12 => mkFlags false false
       | Fat16 => mkFlags (Z.land val (Z.shiftl 1 15) =? 0) (Z.land val (Z.shiftl 1 14) =? 0)
       | Fat32 => mkFlags (Z.land val (Z.shiftl 1 27) =? 0) (Z.land val (Z.shiftl 1 26) =? 0)
       end.

Definition count_free_clusters (t : FatType) (total_clusters : Z) : T Z :=
  let end_cluster := wrap 32 (total_clusters + RESERVED_FAT_ENTRIES) in
  match t with
  | Fat12 => fat12_count_free end_cluster
  | Fat16 => fat16_count_free end_cluster
  | Fat32 => fat32_count_free end_cluster
  end.

(** [for cluster in first..first + n] *)
Fixpoint mark_clusters (t : FatType) (value : FatValue) (first : Z) (n : nat) : T unit :=
  match n with
  | O => mret tt
  | Datatypes.S n' => _ ← write_fat t first value; mark_clusters t value (first + 1) n'
  end.

Definition format_fat (t : FatType) (media bytes_per_fat total_clusters : Z) : T unit :=
  _ ← match t with
      | Fat12 => _ ← write_u8 media; write_u16_le 0xFFFF
      | Fat16 => _ ← write_u16_le (Z.lor media 0xFF00); write_u16_le 0xFFFF
      | Fat32 => _ ← write_u32_le (Z.lor media 0xFFFFF00); write_u32_le 0xFFFFFFFF
      end;
  let start_cluster := wrap 32 (total_clusters + RESERVED_FAT_ENTRIES) in
  let end_cluster := wrap 32 (wrap 64 (bytes_per_fat * 8) / bits_per_fat_entry t) in
  _ ← mark_clusters t EndOfChain start_cluster (Z.to_nat (end_cluster - start_cluster));
  if 0x0FFFFFF0 <? end_cluster then
    let end_bad_cluster := Z.min (0x0FFFFFFF + 1) end_cluster in
    mark_clusters t Bad 0x0FFFFFF0 (Z.to_nat (end_bad_cluster - 0x0FFFFFF0))
  else mret tt.

(** ** The iterator over the clusters of a chain *)

Record ClusterIterator := mkIter { it_fat_type : FatType; it_cluster : option Z; it_err : bool }.

Definition iter_new (t : FatType) (cluster : Z) : ClusterIterator :=
  mkIter t (Some cluster) false.

(** [next] gives the item and the iterator after it. *)
Definition iter_next (it : ClusterIterator) :
    T (ClusterIterator * option (result Z (Error E))) :=
  if it_err it then mret (it, None) else
  match it_cluster it with
  | Some current_cluster =>
      r ← try (get_next_cluster (it_fat_type it) current_cluster);
      mret match r with
           | Ok next_cluster =>
               (mkIter (it_fat_type it) next_cluster false, Ok <$> next_cluster)
           | Err e => (mkIter (it_fat_type it) (it_cluster it) true, Some (Err e))
           end
  | None => mret (it, None)
  end.

(** The loop of [free], in at most [fuel] rounds. *)
Fixpoint free_loop (fuel : nat) (it : ClusterIterator) (num_free : Z) : T Z :=
  match it_cluster it with
  | None => mret num_free
  | Some n =>
      match fuel with
      | O => panics
      | Datatypes.S fuel' =>
          r ← iter_next it;
          _ ← write_fat (it_fat_type it) n Free;
          free_loop fuel' r.1 (wrap 32 (num_free + 1))
      end
  end.

Definition iter_free (fuel : nat) (it : ClusterIterator) : T Z := free_loop fuel it 0.

Definition iter_truncate (fuel : nat) (it : ClusterIterator) : T Z :=
  match it_cluster it with
  | Some n =>
      r ← iter_next it;
      _ ← write_fat (it_fat_type it) n EndOfChain;
      iter_free fuel r.1
  | None => mret 0
  end.

End table.
End FatTable.
