(* ===== verification/FatTableLaws.v ===== *)
(** * What the file allocation table promises

    The entries of a FAT as a function of the bytes of its stream, and the
    specifications of the operations of [FatTable] by that function, proved
    against the interface [FlatLaws] of streams. *)

From S2P Require Import Prelude Critical Disk DiskLaws FatBoot FatTable.

Module FatTableLaws.
Import Disk DiskLaws FatBoot FatTable.
Local Open Scope Z_scope.

(** ** Entries *)

Definition byte (l : list Z) (i : Z) : Z := default 0 (l !! Z.to_nat i).

Definition bytes_ok (l : list Z) : Prop := Forall (fun b => 0 <= b < 256) l.

(** The first byte of an entry and the number of bytes it touches. *)
Definition entry_offset (t : FatType) (c : Z) : Z :=
  match t with Fat12 => c + c / 2 | Fat16 => c * 2 | Fat32 => c * 4 end.
Definition entry_bytes (t : FatType) : Z := match t with Fat32 => 4 | _ => 2 end.

(** The cluster has an entry in the table. *)
Definition fits (t : FatType) (l : list Z) (c : Z) : Prop :=
  0 <= c < 2 ^ 28 /\ entry_offset t c + entry_bytes t <= len l.

Definition word16 (l : list Z) (o : Z) : Z := byte l o + 256 * byte l (o + 1).
Definition word32 (l : list Z) (o : Z) : Z := word16 l o + 65536 * word16 l (o + 2).

(** The bits of the entry that count, and the reserved ones above them. *)
Definition entry (t : FatType) (l : list Z) (c : Z) : Z :=
  match t with
  | Fat12 => let p := word16 l (c + c / 2) in if c mod 2 =? 0 then p mod 4096 else p / 16
  | Fat16 => word16 l (c * 2)
  | Fat32 => word32 l (c * 4) mod 2 ^ 28
  end.

Definition reserved_bits (t : FatType) (l : list Z) (c : Z) : Z :=
  match t with Fat32 => word32 l (c * 4) / 2 ^ 28 | _ => 0 end.

(** The number of values an entry has. *)
Definition entry_values (t : FatType) : Z :=
  match t with Fat12 => 2 ^ 12 | Fat16 => 2 ^ 16 | Fat32 => 2 ^ 28 end.

Definition encode (t : FatType) (v : FatValue) : Z :=
  match v with
  | Free => 0
  | Bad => entry_values t - 9
  | EndOfChain => entry_values t - 1
  | Data n => n
  end.

Definition decode (t : FatType) (c raw : Z) : FatValue :=
  let special := match t with Fat32 => special_cluster c | _ => false end in
  if raw =? 0 then if special then Bad else Free
  else if raw =? entry_values t - 9 then Bad
  else if entry_values t - 8 <=? raw then EndOfChain
  else if special then Bad else Data raw.

(** Entry [c] of [l'] is [v] and every other one is that of [l]. *)
Definition updated (t : FatType) (c v : Z) (l l' : list Z) : Prop :=
  length l' = length l /\ bytes_ok l' /\
  forall c', fits t l c' ->
    entry t l' c' = (if decide (c' = c) then v else entry t l c') /\
    reserved_bits t l' c' = reserved_bits t l c'.

(** ** Bytes *)

Lemma byte_ok l i : bytes_ok l -> 0 <= byte l i < 256.
Proof.
  intros Hl. unfold byte. destruct (l !! Z.to_nat i) as [b|] eqn:Hb; simpl; [|lia].
  by apply (Forall_lookup_1 _ _ _ _ Hl Hb).
Qed.

Lemma word16_ok l i : bytes_ok l -> 0 <= word16 l i < 65536.
Proof. intros Hl. pose proof (byte_ok l i Hl). pose proof (byte_ok l (i + 1) Hl). unfold word16. lia. Qed.

Lemma word32_ok l i : bytes_ok l -> 0 <= word32 l i < 2 ^ 32.
Proof. intros Hl. pose proof (word16_ok l i Hl). pose proof (word16_ok l (i + 2) Hl). unfold word32. lia. Qed.

Lemma byte_splice o bs l i :
  0 <= o -> 0 <= i -> o + len bs <= len l ->
  byte (splice (Z.to_nat o) bs l) i =
    if decide (o <= i < o + len bs) then byte bs (i - o) else byte l i.
Proof.
  intros Ho Hi Hl. unfold byte, len in *. rewrite lookup_splice by lia.
  destruct (decide (o <= i < o + Z.of_nat (length bs))).
  - rewrite decide_True by lia. do 2 f_equal. lia.
  - by rewrite decide_False by lia.
Qed.

Lemma part_byte o l : 0 <= o < len l -> part (Z.to_nat o) 1 l = [byte l o].
Proof.
  intros Ho. apply list_eq. intros i. rewrite lookup_part. unfold byte, len in *.
  case_decide as Hi; [|by rewrite lookup_ge_None_2 by (simpl; lia)].
  replace i with 0%nat by lia. rewrite Nat.add_0_r. simpl.
  destruct (lookup_lt_is_Some_2 l (Z.to_nat o)) as [b Hb]; [lia|]. by rewrite Hb.
Qed.

Lemma part_app o n k l :
  0 <= o -> o + Z.of_nat (n + k) <= len l ->
  part (Z.to_nat o) (n + k) l = part (Z.to_nat o) n l ++ part (Z.to_nat (o + Z.of_nat n)) k l.
Proof.
  intros Ho Hl. apply list_eq. intros i. unfold len in *. rewrite lookup_part.
  destruct (decide (i < n)%nat).
  - rewrite decide_True, lookup_app_l by (rewrite ?length_part; lia).
    by rewrite lookup_part, decide_True.
  - rewrite lookup_app_r, length_part, lookup_part by (rewrite ?length_part; lia).
    repeat case_decide; try lia; [|done]. f_equal. lia.
Qed.

Lemma from_le_bytes_app bs bs' :
  from_le_bytes (bs ++ bs') = from_le_bytes bs + 256 ^ len bs * from_le_bytes bs'.
Proof.
  induction bs as [|b bs IH]; [unfold len; simpl; lia|].
  cbn [app from_le_bytes]. rewrite IH. unfold len. cbn [length]. rewrite Nat2Z.inj_succ, Z.pow_succ_r by lia. lia.
Qed.

Lemma from_le_part1 l o : 0 <= o < len l -> from_le_bytes (part (Z.to_nat o) 1 l) = byte l o.
Proof. intros Ho. rewrite part_byte by done. simpl. lia. Qed.

Lemma from_le_part2 l o : 0 <= o -> o + 2 <= len l -> from_le_bytes (part (Z.to_nat o) 2 l) = word16 l o.
Proof.
  intros Ho Hl. rewrite (part_app o 1 1), from_le_bytes_app by (simpl; lia).
  rewrite !from_le_part1 by (simpl; lia). rewrite part_byte by lia. done.
Qed.

Lemma from_le_part4 l o : 0 <= o -> o + 4 <= len l -> from_le_bytes (part (Z.to_nat o) 4 l) = word32 l o.
Proof.
  intros Ho Hl. rewrite (part_app o 2 2), from_le_bytes_app by (simpl; lia).
  rewrite !from_le_part2 by (simpl; lia). unfold len in *. rewrite length_part by lia. done.
Qed.

Lemma length_to_le n z : length (to_le_bytes n z) = n.
Proof. revert z. induction n as [|n IH]; intros z; simpl; [done|]. by rewrite IH. Qed.

Lemma to_le_bytes_ok n z : bytes_ok (to_le_bytes n z).
Proof.
  revert z. induction n as [|n IH]; intros z; simpl; constructor; [|apply IH].
  apply Z.mod_pos_bound. lia.
Qed.

Lemma bytes_ok_splice a bs l : bytes_ok l -> bytes_ok bs -> bytes_ok (splice a bs l).
Proof.
  intros Hl Hb. unfold splice, bytes_ok. rewrite !Forall_app.
  split_and!; [by apply Forall_take|done|by apply Forall_drop].
Qed.

(** ** Reading and writing numbers on a stream *)

Section stream.
Context {W S E : Type} `{HE : IoError E} `{HS : Storage W S E}.
Context {view : W -> list Z} {off : S -> W -> Z} {J : S -> W -> Prop} `{HF : !FlatLaws view off J}.

(** The call ends well, with the stream unchanged and advanced by [n]. *)
Definition got {A} (a : A) (n : Z) (s : S) (w : W) (r : S * result A E) (w' : W) : Prop :=
  r.2 = Ok a /\ view w' = view w /\ off r.1 w' = off s w + n /\ J r.1 w'.

Lemma read_le_spec n s w :
  J s w -> off s w + Z.of_nat n <= len (view w) ->
  wp ((buf ← read_exact n; mret (from_le_bytes buf) : io W S E Z) s)
     (got (from_le_bytes (part (Z.to_nat (off s w)) n (view w))) (Z.of_nat n) s w) w.
Proof.
  intros HJ Hn. apply wp_io_bind. eapply wp_mono; [by apply flat_read_exact|].
  intros [s' r] w' (-> & ? & ? & ?). by apply wp_ret.
Qed.

Lemma read_u8_spec s w :
  J s w -> off s w + 1 <= len (view w) -> wp (read_u8 s) (got (byte (view w) (off s w)) 1 s w) w.
Proof.
  intros HJ Hn. pose proof (flat_off s w HJ). rewrite <- from_le_part1 by lia. by apply (read_le_spec 1).
Qed.

Lemma read_u16_spec s w :
  J s w -> off s w + 2 <= len (view w) ->
  wp (read_u16_le s) (got (word16 (view w) (off s w)) 2 s w) w.
Proof.
  intros HJ Hn. pose proof (flat_off s w HJ). rewrite <- from_le_part2 by lia. by apply (read_le_spec 2).
Qed.

Lemma read_u32_spec s w :
  J s w -> off s w + 4 <= len (view w) ->
  wp (read_u32_le s) (got (word32 (view w) (off s w)) 4 s w) w.
Proof.
  intros HJ Hn. pose proof (flat_off s w HJ). rewrite <- from_le_part4 by lia. by apply (read_le_spec 4).
Qed.

(** The same after a seek. *)
Lemma seek_then {A} p (k : io W S E A) s w Q :
  J s w -> 0 <= p <= len (view w) ->
  (forall s1 w1, J s1 w1 -> view w1 = view w -> off s1 w1 = p -> wp (k s1) Q w1) ->
  wp ((_ ← seek (Start p); k) s) Q w.
Proof.
  intros HJ Hp Hk. apply wp_io_bind. eapply wp_mono; [by apply flat_seek|].
  intros [s' r] w' (-> & Hv & Ho & HJ'). cbn in *. by apply Hk.
Qed.

End stream.

(** ** Bit operations of the entries *)

Lemma land_1 x : Z.land x 1 = x mod 2.
Proof. exact (land_mask_mod x 1 ltac:(lia)). Qed.

Lemma unpack12_spec c p : unpack12 c p = if c mod 2 =? 0 then p mod 4096 else p / 16.
Proof.
  unfold unpack12. rewrite land_1, Z.shiftr_div_pow2 by lia.
  pose proof (land_mask_mod p 12 ltac:(lia)) as Hl. change (2 ^ 12 - 1) with 0x0FFF in Hl.
  by rewrite Hl.
Qed.

(** Keeping the bits from [n] up of a [w]-bit value. *)
Lemma land_high n w x :
  0 <= n <= w -> is_uint w x -> Z.land x ((2 ^ (w - n) - 1) * 2 ^ n) = x / 2 ^ n * 2 ^ n.
Proof.
  intros Hn Hx. rewrite <- Z.shiftl_mul_pow2, <- Z.shiftl_mul_pow2, <- Z.shiftr_div_pow2 by lia.
  apply Z.bits_inj'. intros i Hi. rewrite Z.land_spec, !Z.shiftl_spec by done.
  destruct (decide (i < n)) as [Hl|Hl].
  { rewrite !(Z.testbit_neg_r _ (i - n)) by lia. apply andb_false_r. }
  rewrite Z.shiftr_spec by lia. replace (i - n + n) with i by lia.
  replace (2 ^ (w - n) - 1) with (Z.ones (w - n)) by (rewrite Z.ones_equiv; lia).
  destruct (decide (i < w)).
  - rewrite Z.ones_spec_low by lia. apply andb_true_r.
  - rewrite (testbit_above w x) by (done || lia). done.
Qed.

Lemma pack12_even old raw :
  0 <= old < 65536 -> 0 <= raw < 4096 ->
  Z.lor (Z.land old 0xF000) (wrap 16 raw) = old / 4096 * 4096 + raw.
Proof.
  intros Ho Hr. rewrite wrap_id by (unfold is_uint; lia).
  pose proof (land_high 12 16 old ltac:(lia) Ho) as Hl.
  change ((2 ^ (16 - 12) - 1) * 2 ^ 12) with 0xF000 in Hl. rewrite Hl.
  by apply (lor_mul_add _ _ 12); [|unfold is_uint].
Qed.

Lemma pack12_odd old raw :
  0 <= old < 65536 -> 0 <= raw < 4096 ->
  Z.lor (Z.land old 0x000F) (wrap 16 (Z.shiftl (wrap 16 raw) 4)) = raw * 16 + old mod 16.
Proof.
  intros Ho Hr. rewrite (wrap_id 16 raw) by (unfold is_uint; lia).
  rewrite Z.shiftl_mul_pow2, wrap_id by (unfold is_uint; lia).
  change 0x000F with (2 ^ 4 - 1). rewrite (land_mask_mod old 4), Z.lor_comm by lia.
  apply (lor_mul_add raw _ 4); [lia|]. unfold is_uint. apply Z.mod_pos_bound. lia.
Qed.

Lemma keep_reserved raw v :
  0 <= raw < 2 ^ 32 -> 0 <= v < 2 ^ 28 ->
  Z.lor v (Z.land raw 0xF0000000) = raw / 2 ^ 28 * 2 ^ 28 + v.
Proof.
  intros Hr Hv. pose proof (land_high 28 32 raw ltac:(lia) Hr) as Hl.
  change ((2 ^ (32 - 28) - 1) * 2 ^ 28) with 0xF0000000 in Hl. rewrite Hl, Z.lor_comm.
  by apply (lor_mul_add _ _ 28); [|unfold is_uint].
Qed.

(** ** What a written word changes *)

(** Settle the tests [lia] can decide. *)
Ltac decides :=
  repeat match goal with
  | |- context [decide ?P] =>
      first [rewrite (decide_True (P:=P)) by dlia | rewrite (decide_False (P:=P)) by dlia]
  end.

Lemma byte_to_le2 z i : byte (to_le_bytes 2 z) i =
  if decide (i <= 0) then z mod 256 else if decide (i = 1) then z / 256 mod 256 else 0.
Proof.
  unfold byte. repeat case_decide; [by replace (Z.to_nat i) with 0%nat by lia|by subst i|].
  rewrite lookup_ge_None_2; [done|]. simpl. lia.
Qed.

Lemma byte_to_le4 z i : byte (to_le_bytes 4 z) i =
  if decide (i <= 0) then z mod 256 else if decide (i = 1) then z / 256 mod 256
  else if decide (i = 2) then z / 256 / 256 mod 256
  else if decide (i = 3) then z / 256 / 256 / 256 mod 256 else 0.
Proof.
  unfold byte. repeat case_decide; [by replace (Z.to_nat i) with 0%nat by lia|by subst i..|].
  rewrite lookup_ge_None_2; [done|]. simpl. lia.
Qed.

Lemma updated_bytes t c v o bs l :
  0 <= o -> o + len bs <= len l -> bytes_ok l -> bytes_ok bs ->
  (forall c', fits t l c' ->
    entry t (splice (Z.to_nat o) bs l) c' = (if decide (c' = c) then v else entry t l c') /\
    reserved_bits t (splice (Z.to_nat o) bs l) c' = reserved_bits t l c') ->
  updated t c v l (splice (Z.to_nat o) bs l).
Proof.
  intros Ho Hl Hb Hbs He. split_and!; [|by apply bytes_ok_splice|done].
  apply length_splice. unfold len in *. lia.
Qed.

Lemma updated12 c v l :
  fits Fat12 l c -> bytes_ok l -> 0 <= v < 4096 ->
  let old := word16 l (c + c / 2) in
  let new := if c mod 2 =? 0 then old / 4096 * 4096 + v else v * 16 + old mod 16 in
  updated Fat12 c v l (splice (Z.to_nat (c + c / 2)) (to_le_bytes 2 new) l).
Proof.
  intros [Hc Hl] Hb Hv old new. cbn [entry_offset entry_bytes] in Hl.
  pose proof (word16_ok l (c + c / 2) Hb) as Hold. fold old in Hold.
  assert (Hnew : 0 <= new < 65536) by (unfold new; case_if; dlia).
  apply updated_bytes; [dlia|unfold len in *; rewrite length_to_le; lia|done|apply to_le_bytes_ok|].
  intros c' [Hc' Hl']. cbn [entry_offset entry_bytes] in Hl'. split; [|done].
  pose proof (byte_ok l (c + c / 2) Hb). pose proof (byte_ok l (c + c / 2 + 1) Hb).
  unfold entry, word16 in *.
  rewrite !byte_splice by (unfold len in *; rewrite ?length_to_le; dlia).
  unfold len. rewrite length_to_le, !byte_to_le2.
  destruct (decide (c' = c)) as [->|Hne].
  - decides. unfold new. case_if; b2p; dlia.
  - destruct (decide (c' = c + 1)) as [->|Hne1]; [|destruct (decide (c' = c - 1)) as [->|Hne2]].
    + destruct (Z.eqb_spec (c mod 2) 0).
      * replace (c + 1 + (c + 1) / 2) with (c + c / 2 + 1) by dlia. decides.
        rewrite (proj2 (Z.eqb_neq ((c + 1) mod 2) 0)) by dlia. unfold new, old. dlia.
      * decides. done.
    + destruct (Z.eqb_spec (c mod 2) 0).
      * decides. done.
      * replace (c - 1 + (c - 1) / 2 + 1) with (c + c / 2) by dlia. decides.
        rewrite (proj2 (Z.eqb_eq ((c - 1) mod 2) 0)) by dlia. unfold new, old. dlia.
    + decides. done.
Qed.

Lemma updated16 c v l :
  fits Fat16 l c -> bytes_ok l -> 0 <= v < 65536 ->
  updated Fat16 c v l (splice (Z.to_nat (c * 2)) (to_le_bytes 2 v) l).
Proof.
  intros [Hc Hl] Hb Hv. cbn [entry_offset entry_bytes] in Hl.
  apply updated_bytes; [lia|unfold len in *; rewrite length_to_le; lia|done|apply to_le_bytes_ok|].
  intros c' [Hc' Hl']. cbn [entry_offset entry_bytes] in Hl'. split; [|done].
  unfold entry, word16. rewrite !byte_splice by (unfold len in *; rewrite ?length_to_le; lia).
  unfold len. rewrite length_to_le, !byte_to_le2.
  destruct (decide (c' = c)) as [->|Hne]; decides; [dlia|done].
Qed.

Lemma updated32 c v l :
  fits Fat32 l c -> bytes_ok l -> 0 <= v < 2 ^ 28 ->
  let new := word32 l (c * 4) / 2 ^ 28 * 2 ^ 28 + v in
  updated Fat32 c v l (splice (Z.to_nat (c * 4)) (to_le_bytes 4 new) l).
Proof.
  intros [Hc Hl] Hb Hv new. cbn [entry_offset entry_bytes] in Hl.
  pose proof (word32_ok l (c * 4) Hb) as Hold.
  assert (Hnew : 0 <= new < 2 ^ 32) by (unfold new; dlia).
  apply updated_bytes; [lia|unfold len in *; rewrite length_to_le; lia|done|apply to_le_bytes_ok|].
  intros c' [Hc' Hl']. cbn [entry_offset entry_bytes] in Hl'.
  assert (Hw : word32 (splice (Z.to_nat (c * 4)) (to_le_bytes 4 new) l) (c' * 4) =
               if decide (c' = c) then new else word32 l (c' * 4)).
  { unfold word32, word16. rewrite !byte_splice by (unfold len in *; rewrite ?length_to_le; lia).
    unfold len. rewrite length_to_le, !byte_to_le4.
    destruct (decide (c' = c)) as [->|Hne]; decides; [dlia|done]. }
  unfold entry, reserved_bits. rewrite Hw. destruct (decide (c' = c)) as [->|]; [|done].
  unfold new. split; dlia.
Qed.

(** ** Operations on one entry *)

Section table.
Context {W S E : Type} `{HE : IoError E} `{HS : Storage W S (Error E)}.
Context {view : W -> list Z} {off : S -> W -> Z} {J : S -> W -> Prop} `{HF : !FlatLaws view off J}.

(** The call gives [a] and leaves the table as it is. *)
Definition reads {A} (a : result A (Error E)) (w : W) (r : S * result A (Error E)) (w' : W) : Prop :=
  r.2 = a /\ view w' = view w /\ J r.1 w'.

Lemma got_reads {A} (a : A) n s w r w' : got (view:=view) (off:=off) (J:=J) a n s w r w' -> reads (Ok a) w r w'.
Proof. by intros (? & ? & ? & ?). Qed.

Lemma fat_offset12 l c : fits Fat12 l c -> fat12_offset c = c + c / 2.
Proof. intros [Hc _]. unfold fat12_offset. apply wrap_id. unfold is_uint. dlia. Qed.

Lemma fits_offset t l c : fits t l c -> 0 <= entry_offset t c /\ entry_offset t c + entry_bytes t <= len l.
Proof. intros [Hc Hl]. split; [|done]. destruct t; cbn [entry_offset]; dlia. Qed.

Lemma fat12_get_raw_spec c s w :
  J s w -> fits Fat12 (view w) c ->
  wp (fat12_get_raw c s) (reads (Ok (entry Fat12 (view w) c)) w) w.
Proof.
  intros HJ Hf. destruct (fits_offset _ _ _ Hf) as [Ho Hl]. cbn [entry_offset entry_bytes] in *.
  unfold fat12_get_raw. rewrite (fat_offset12 _ _ Hf). apply seek_then; [done|lia|].
  intros s1 w1 HJ1 Hv Ho1. apply wp_io_bind. eapply wp_mono; [apply read_u16_spec; [done|rewrite Ho1, Hv; lia]|].
  intros [s2 r2] w2 (-> & Hv2 & _ & HJ2). apply wp_ret. cbn. rewrite Ho1, Hv, unpack12_spec.
  split_and!; [done|congruence|done].
Qed.

Lemma fat16_get_raw_spec c s w :
  J s w -> fits Fat16 (view w) c ->
  wp (fat16_get_raw c s) (reads (Ok (entry Fat16 (view w) c)) w) w.
Proof.
  intros HJ Hf. destruct (fits_offset _ _ _ Hf) as [Ho Hl]. cbn [entry_offset entry_bytes] in *.
  unfold fat16_get_raw. destruct Hf as [Hc _]. rewrite wrap_id by (unfold is_uint; lia).
  apply seek_then; [done|lia|]. intros s1 w1 HJ1 Hv Ho1.
  eapply wp_mono; [apply read_u16_spec; [done|rewrite Ho1, Hv; lia]|].
  intros r2 w2 (Hr & Hv2 & _ & HJ2). rewrite Ho1, Hv in Hr. split_and!; [done|congruence|done].
Qed.

Lemma fat32_get_raw_spec c s w :
  J s w -> fits Fat32 (view w) c ->
  wp (fat32_get_raw c s) (reads (Ok (word32 (view w) (c * 4))) w) w.
Proof.
  intros HJ Hf. destruct (fits_offset _ _ _ Hf) as [Ho Hl]. cbn [entry_offset entry_bytes] in *.
  unfold fat32_get_raw. destruct Hf as [Hc _]. rewrite wrap_id by (unfold is_uint; lia).
  apply seek_then; [done|lia|]. intros s1 w1 HJ1 Hv Ho1.
  eapply wp_mono; [apply read_u32_spec; [done|rewrite Ho1, Hv; lia]|].
  intros r2 w2 (Hr & Hv2 & _ & HJ2). rewrite Ho1, Hv in Hr. split_and!; [done|congruence|done].
Qed.

Lemma entry_ok t l c : bytes_ok l -> 0 <= entry t l c < entry_values t.
Proof.
  intros Hl. destruct t; unfold entry, entry_values.
  - pose proof (word16_ok l (c + c / 2) Hl). case_if; dlia.
  - apply (word16_ok l _ Hl).
  - apply Z.mod_pos_bound. lia.
Qed.

Lemma land_28 x : Z.land x 0x0FFFFFFF = x mod 2 ^ 28.
Proof. exact (land_mask_mod x 28 ltac:(lia)). Qed.

Lemma read_fat_spec t c s w :
  J s w -> bytes_ok (view w) -> fits t (view w) c ->
  wp (read_fat t c s) (reads (Ok (decode t c (entry t (view w) c))) w) w.
Proof.
  intros HJ Hb Hf. pose proof (entry_ok t (view w) c Hb) as He.
  destruct t; cbn [read_fat]; unfold fat12_get, fat16_get, fat32_get; apply wp_io_bind.
  - eapply wp_mono; [by apply fat12_get_raw_spec|]. intros [s1 r1] w1 (-> & Hv & HJ1). cbn [fst snd].
    apply wp_ret. split_and!; try done. cbn [snd]. f_equal. unfold decode, in_range, entry_values in *.
    repeat case_if; b2p; try done; lia.
  - eapply wp_mono; [by apply fat16_get_raw_spec|]. intros [s1 r1] w1 (-> & Hv & HJ1). cbn [fst snd].
    apply wp_ret. split_and!; try done. cbn [snd]. f_equal. unfold decode, in_range, entry_values in *.
    repeat case_if; b2p; try done; lia.
  - eapply wp_mono; [by apply fat32_get_raw_spec|]. intros [s1 r1] w1 (-> & Hv & HJ1). cbn [fst snd].
    apply wp_ret. split_and!; try done. cbn [snd]. rewrite land_28. f_equal.
    unfold decode, in_range, entry_values, entry in *. set (x := word32 _ _ mod _) in *.
    destruct (special_cluster c); repeat case_if; b2p; try done; lia.
Qed.

(** The call succeeds and changes the entry of [c] to [v] and no other. *)
Definition sets {A} (a : A) (t : FatType) (c v : Z) (w : W) (r : S * result A (Error E)) (w' : W) : Prop :=
  r.2 = Ok a /\ updated t c v (view w) (view w') /\ J r.1 w'.

(** The values an entry of [c] can be given. *)
Definition storable (t : FatType) (c : Z) (v : FatValue) : Prop :=
  0 <= encode t v < entry_values t /\
  match t, v with Fat32, Free => special_cluster c = false | _, _ => True end.

Lemma write_word_spec n z o s w l t c v :
  J s w -> view w = l -> off s w = o -> 0 <= o -> o + Z.of_nat n <= len l ->
  updated t c v l (splice (Z.to_nat o) (to_le_bytes n z) l) ->
  wp (write_all (to_le_bytes n z) s)
     (fun r w' => r.2 = Ok tt /\ updated t c v l (view w') /\ J r.1 w') w.
Proof.
  intros HJ <- <- Ho Hl Hu. eapply wp_mono.
  - apply flat_write_all; [done|]. unfold len in *. rewrite length_to_le. lia.
  - intros r w' (Hr & Hv & _ & HJ'). rewrite Hv. done.
Qed.

Lemma fat12_set_spec c v s w :
  J s w -> bytes_ok (view w) -> fits Fat12 (view w) c -> 0 <= v < 4096 ->
  wp (fat12_set_raw c v s) (sets tt Fat12 c v w) w.
Proof.
  intros HJ Hb Hf Hv. destruct (fits_offset _ _ _ Hf) as [Ho Hl]. cbn [entry_offset entry_bytes] in *.
  pose proof (word16_ok (view w) (c + c / 2) Hb) as Hw.
  unfold fat12_set_raw. rewrite (fat_offset12 _ _ Hf). apply seek_then; [done|lia|].
  intros s1 w1 HJ1 Hv1 Ho1. apply wp_io_bind.
  eapply wp_mono; [apply read_u16_spec; [done|rewrite Ho1, Hv1; lia]|].
  intros [s2 r2] w2 (-> & Hv2 & _ & HJ2). rewrite Ho1, Hv1. cbn [fst snd] in *.
  apply seek_then; [done|rewrite Hv2, Hv1; lia|].
  intros s3 w3 HJ3 Hv3 Ho3. rewrite land_1, pack12_even, pack12_odd by done.
  eapply write_word_spec; [done|congruence|done|lia|lia|].
  by apply updated12.
Qed.

Lemma fat16_set_spec c v s w :
  J s w -> bytes_ok (view w) -> fits Fat16 (view w) c -> 0 <= v < 65536 ->
  wp (fat16_set_raw c v s) (sets tt Fat16 c v w) w.
Proof.
  intros HJ Hb Hf Hv. destruct (fits_offset _ _ _ Hf) as [Ho Hl]. cbn [entry_offset entry_bytes] in *.
  unfold fat16_set_raw. rewrite (wrap_id 16 v) by done.
  rewrite wrap_id by (destruct Hf as [Hc _]; unfold is_uint; lia). apply seek_then; [done|lia|].
  intros s1 w1 HJ1 Hv1 Ho1. eapply write_word_spec; [done|done|done|lia|lia|]. by apply updated16.
Qed.

Lemma fat32_set_spec c v s w :
  J s w -> bytes_ok (view w) -> fits Fat32 (view w) c -> storable Fat32 c v ->
  wp (fat32_set c v s) (sets tt Fat32 c (encode Fat32 v) w) w.
Proof.
  intros HJ Hb Hf [Hv Hs]. destruct (fits_offset _ _ _ Hf) as [Ho Hl].
  cbn [entry_offset entry_bytes entry_values] in *. pose proof (word32_ok (view w) (c * 4) Hb) as Hw.
  unfold fat32_set. apply wp_io_bind. eapply wp_mono; [by apply fat32_get_raw_spec|].
  intros [s1 r1] w1 (-> & Hv1 & HJ1). cbn [fst snd] in *.
  assert (Hd : bool_decide (v = Free) && special_cluster c = false).
  { apply andb_false_iff. case_bool_decide as Hx; [right; by subst v|by left]. }
  rewrite Hd. replace (fat32_raw v) with (encode Fat32 v) by (by destruct v).
  unfold fat32_set_raw. rewrite keep_reserved by done.
  rewrite wrap_id by (destruct Hf as [Hc _]; unfold is_uint; lia).
  apply seek_then; [done|rewrite Hv1; lia|]. intros s2 w2 HJ2 Hv2 Ho2.
  eapply write_word_spec; [done|congruence|done|lia|lia|]. by apply updated32.
Qed.

Lemma write_fat_spec t c v s w :
  J s w -> bytes_ok (view w) -> fits t (view w) c -> storable t c v ->
  wp (write_fat t c v s) (sets tt t c (encode t v) w) w.
Proof.
  intros HJ Hb Hf Hs. destruct t; cbn [write_fat].
  - unfold fat12_set. replace (fat12_raw v) with (encode Fat12 v) by (by destruct v).
    apply fat12_set_spec; try done. apply Hs.
  - unfold fat16_set. replace (fat16_raw v) with (encode Fat16 v) by (by destruct v).
    apply fat16_set_spec; try done. apply Hs.
  - by apply fat32_set_spec.
Qed.

(** ** Searching *)

(** What a search of [a .. b - 1] gives: the first free cluster or none. *)
Definition found (t : FatType) (l : list Z) (a b : Z) (r : result Z (Error E)) : Prop :=
  match r with
  | Ok c => a <= c < b /\ entry t l c = 0 /\ forall c', a <= c' < c -> entry t l c' <> 0
  | Err e => e = NotEnoughSpace /\ forall c', a <= c' < b -> entry t l c' <> 0
  end.

Definition searches (t : FatType) (a b : Z) (w : W) (r : S * result Z (Error E)) (w' : W) : Prop :=
  found t (view w) a b r.2 /\ view w' = view w /\ J r.1 w'.

Lemma found_next t l a b r : a < b -> entry t l a <> 0 -> found t l (a + 1) b r -> found t l a b r.
Proof.
  intros Hab Ha. destruct r as [c|e]; simpl.
  - intros (Hc & H0 & Hn). split_and!; [lia|lia|done|]. intros c' Hc'.
    destruct (decide (c' = a)) as [->|]; [done|]. apply Hn. lia.
  - intros (He & Hn). split; [done|]. intros c' Hc'.
    destruct (decide (c' = a)) as [->|]; [done|]. apply Hn. lia.
Qed.

(** [next] reads the entry of [c] when the stream is at it. *)
Definition reads_entries (t : FatType) (next : T (W:=W) (S:=S) (E:=E) Z) : Prop :=
  forall c s w, J s w -> bytes_ok (view w) -> fits t (view w) c -> off s w = entry_offset t c ->
    wp (next s) (fun r w' => r.2 = Ok (entry t (view w) c) /\ view w' = view w /\
                             off r.1 w' = entry_offset t (c + 1) /\ J r.1 w') w.

Lemma read_u16_entries : reads_entries Fat16 read_u16_le.
Proof.
  intros c s w HJ _ Hf Ho. destruct (fits_offset _ _ _ Hf) as [_ Hl]. cbn [entry_offset entry_bytes] in *.
  eapply wp_mono; [apply read_u16_spec; [done|lia]|]. rewrite Ho.
  intros r w' (Hr & Hv & Ho' & HJ'). rewrite Ho in Ho'. split_and!; try done. lia.
Qed.

Lemma next_entry32_entries : reads_entries Fat32 next_entry32.
Proof.
  intros c s w HJ _ Hf Ho. destruct (fits_offset _ _ _ Hf) as [_ Hl]. cbn [entry_offset entry_bytes] in *.
  unfold next_entry32. apply wp_io_bind. eapply wp_mono; [apply read_u32_spec; [done|lia]|]. rewrite Ho.
  intros [s' r] w' (-> & Hv & Ho' & HJ'). apply wp_ret. cbn [fst snd] in *. rewrite Ho in Ho'.
  rewrite land_28. split_and!; try done. lia.
Qed.

Lemma scan_loop_spec t next fuel a b s w :
  reads_entries t next -> J s w -> bytes_ok (view w) ->
  (forall c, a <= c < b -> fits t (view w) c) -> off s w = entry_offset t a ->
  0 <= a <= b -> b < 2 ^ 32 -> (Z.to_nat (b - a) < fuel)%nat ->
  wp (find_loop next fuel a b s) (searches t a b w) w.
Proof.
  intros Hn. revert a s w. induction fuel as [|fuel IH]; intros a s w HJ Hb Hf Ho Hab Hmax Hfu; [lia|].
  cbn [find_loop]. destruct (Z.ltb_spec a b) as [Hlt|Hge].
  - apply wp_io_bind. eapply wp_mono; [apply Hn; try done; apply Hf; lia|].
    intros [s1 r1] w1 (-> & Hv1 & Ho1 & HJ1). cbn [fst snd] in *.
    destruct (Z.eqb_spec (entry t (view w) a) 0) as [H0|H0].
    + apply wp_ret. split_and!; try done; try lia. cbn. split_and!; try done; try lia.
    + rewrite wrap_id by (unfold is_uint; lia).
      eapply wp_mono; [apply IH; try done; try lia; rewrite Hv1; [done|intros c Hc; apply Hf; lia]|].
      intros r w2 (Hfd & Hv2 & HJ2). split_and!; [|congruence|done].
      apply found_next; [done|done|]. by rewrite <- Hv1.
  - apply wp_ret. split_and!; try done. cbn. split; [done|]. intros c' Hc'. lia.
Qed.

(** The packed pair the loop of 12-bit entries holds at cluster [c]. *)
Lemma fat12_find_loop_spec fuel a b s w :
  J s w -> bytes_ok (view w) -> (forall c, a <= c < b -> fits Fat12 (view w) c) ->
  off s w = a + a / 2 + 2 -> 0 <= a < b -> b < 2 ^ 32 -> (Z.to_nat (b - a) <= fuel)%nat ->
  wp (fat12_find_loop fuel a b (word16 (view w) (a + a / 2)) s) (searches Fat12 a b w) w.
Proof.
  revert a s w. induction fuel as [|fuel IH]; intros a s w HJ Hb Hf Ho Hab Hmax Hfu; [lia|].
  cbn [fat12_find_loop]. rewrite unpack12_spec.
  change (if a mod 2 =? 0 then word16 (view w) (a + a / 2) mod 4096 else word16 (view w) (a + a / 2) / 16)
    with (entry Fat12 (view w) a).
  destruct (Z.eqb_spec (entry Fat12 (view w) a) 0) as [H0|H0].
  { apply wp_ret. split_and!; try done. cbn. split_and!; try done; lia. }
  rewrite wrap_id by (unfold is_uint; lia). destruct (Z.eqb_spec (a + 1) b) as [<-|Hne].
  { apply wp_ret. split_and!; try done. cbn. split; [done|]. intros c' Hc'. by replace c' with a by lia. }
  destruct (Hf (a + 1) ltac:(lia)) as [_ Hl]. cbn [entry_offset entry_bytes] in Hl.
  pose proof (word16_ok (view w) (a + a / 2) Hb). pose proof (byte_ok (view w) (a + a / 2) Hb).
  pose proof (byte_ok (view w) (a + a / 2 + 1) Hb). pose proof (byte_ok (view w) (a + a / 2 + 2) Hb).
  apply wp_io_bind. eapply (wp_mono _ (fun r w' => r.2 = Ok (word16 (view w) (a + 1 + (a + 1) / 2)) /\
    view w' = view w /\ off r.1 w' = a + 1 + (a + 1) / 2 + 2 /\ J r.1 w')).
  - rewrite land_1. destruct (Z.eqb_spec ((a + 1) mod 2) 0) as [Hp|Hp].
    + replace (a + 1 + (a + 1) / 2) with (off s w) by dlia.
      eapply wp_mono; [apply read_u16_spec; [done|dlia]|]. intros r w' (? & ? & ? & ?). done.
    + apply wp_io_bind. eapply wp_mono; [apply read_u8_spec; [done|dlia]|].
      intros [s1 r1] w1 (-> & Hv1 & Ho1 & HJ1). apply wp_ret. cbn [fst snd] in *.
      replace (a + 1 + (a + 1) / 2) with (a + a / 2 + 1) by dlia. rewrite Ho in *.
      split_and!; [|done|lia|done]. f_equal.
      rewrite Z.shiftr_div_pow2, Z.shiftl_mul_pow2, wrap_id by (unfold is_uint; lia).
      rewrite Z.lor_comm, (lor_mul_add _ _ 8) by (unfold is_uint, word16 in *; dlia).
      unfold word16 in *. replace (a + a / 2 + 1 + 1) with (a + a / 2 + 2) by lia. dlia.
  - intros [s1 r1] w1 (-> & Hv1 & Ho1 & HJ1). cbn [fst snd] in *. rewrite <- Hv1.
    eapply wp_mono; [apply IH; try done; try lia; rewrite Hv1; [done|intros c Hc; apply Hf; lia]|].
    intros r w2 (Hfd & Hv2 & HJ2). split_and!; [|congruence|done].
    apply found_next; [lia|done|]. by rewrite <- Hv1.
Qed.

Lemma find_free_spec t a b s w :
  J s w -> bytes_ok (view w) -> (forall c, a <= c < b -> fits t (view w) c) -> 0 <= a < b ->
  wp (find_free_cluster t a b s) (searches t a b w) w.
Proof.
  intros HJ Hb Hf Hab. destruct (Hf a ltac:(lia)) as [Ha Hl]. destruct (Hf (b - 1) ltac:(lia)) as [Hb1 _].
  destruct t; cbn [find_free_cluster entry_offset entry_bytes] in *.
  - unfold fat12_find_free. rewrite (fat_offset12 (view w)) by (apply Hf; lia).
    apply seek_then; [done|dlia|]. intros s1 w1 HJ1 Hv1 Ho1. apply wp_io_bind.
    eapply wp_mono; [apply read_u16_spec; [done|rewrite Ho1, Hv1; lia]|].
    intros [s2 r2] w2 (-> & Hv2 & Ho2 & HJ2). cbn [fst snd] in *. rewrite Ho1, <- Hv2.
    eapply wp_mono; [apply fat12_find_loop_spec; try done; try lia; rewrite Hv2, Hv1; done|].
    intros r w3 (Hfd & Hv3 & HJ3). rewrite Hv2, Hv1 in Hfd. split_and!; [done|congruence|done].
  - unfold fat16_find_free. rewrite wrap_id by (unfold is_uint; lia).
    apply seek_then; [done|lia|]. intros s1 w1 HJ1 Hv1 Ho1.
    eapply wp_mono; [apply (scan_loop_spec Fat16); try done; try lia; [apply read_u16_entries|rewrite Hv1; done..]|].
    intros r w3 (Hfd & Hv3 & HJ3). rewrite Hv1 in Hfd. split_and!; [done|congruence|done].
  - unfold fat32_find_free. rewrite wrap_id by (unfold is_uint; lia).
    apply seek_then; [done|lia|]. intros s1 w1 HJ1 Hv1 Ho1.
    eapply wp_mono; [apply (scan_loop_spec Fat32); try done; try lia; [apply next_entry32_entries|rewrite Hv1; done..]|].
    intros r w3 (Hfd & Hv3 & HJ3). rewrite Hv1 in Hfd. split_and!; [done|congruence|done].
Qed.

End table.

End FatTableLaws.
