(* ===== verification/FatChain.v ===== *)
(** * Chains of clusters

    Counting and allocating clusters and walking, truncating and freeing the
    chain of a file, specified by the entries of the table. *)

From S2P Require Import Prelude Critical Disk DiskLaws FatBoot FatTable FatTableLaws.
From stdpp Require Import list_numbers.

Module FatChain.
Import Disk DiskLaws FatBoot FatTable FatTableLaws.
Local Open Scope Z_scope.

(** ** Several entries changed *)

(** The entries of [l'] are those of [l] with the changes [f]. *)
Definition changed (t : FatType) (f : Z -> option Z) (l l' : list Z) : Prop :=
  length l' = length l /\ bytes_ok l' /\
  forall c, fits t l c ->
    entry t l' c = default (entry t l c) (f c) /\ reserved_bits t l' c = reserved_bits t l c.

(** One entry, and two changes one after the other. *)
Definition at_cluster (c v : Z) : Z -> option Z := fun c' => if decide (c' = c) then Some v else None.
Definition then_ (f g : Z -> option Z) : Z -> option Z := fun c =>
  match g c with Some v => Some v | None => f c end.

Lemma fits_length t l l' c : length l' = length l -> fits t l c -> fits t l' c.
Proof. intros Hl [Hc Hf]. split; [done|]. unfold len in *. by rewrite Hl. Qed.

Lemma changed_refl t l : bytes_ok l -> changed t (fun _ => None) l l.
Proof. intros Hb. by split_and!. Qed.

Lemma updated_changed t c v l l' : updated t c v l l' -> changed t (at_cluster c v) l l'.
Proof.
  intros (Hl & Hb & He). split_and!; try done. intros c' Hf. destruct (He c' Hf) as [-> ->].
  unfold at_cluster. by case_decide.
Qed.

Lemma changed_trans t f g l1 l2 l3 :
  changed t f l1 l2 -> changed t g l2 l3 -> changed t (then_ f g) l1 l3.
Proof.
  intros (Hl & Hb & He) (Hl' & Hb' & He'). split_and!; [congruence|done|].
  intros c Hf. destruct (He c Hf) as [H1 H2].
  destruct (He' c (fits_length t l1 l2 c Hl Hf)) as [H3 H4]. rewrite H3, H4, H1, H2.
  split; [|done]. unfold then_. by destruct (g c).
Qed.

Lemma changed_ext t f g l l' :
  (forall c, fits t l c -> default (entry t l c) (f c) = default (entry t l c) (g c)) ->
  changed t f l l' -> changed t g l l'.
Proof.
  intros Hfg (Hl & Hb & He). split_and!; try done. intros c Hf.
  destruct (He c Hf) as [-> ->]. by rewrite Hfg.
Qed.

(** ** Counting *)

(** The number of zeros of [f] in [a .. b - 1]. *)
Definition zero_count (f : Z -> Z) (a b : Z) : Z :=
  Z.of_nat (length (filter (fun c => f c = 0) (seqZ a (b - a)))).

(** The number of free clusters in [a .. b - 1]. *)
Definition free_count (t : FatType) (l : list Z) (a b : Z) : Z := zero_count (entry t l) a b.

Lemma zero_count_next f a b :
  a < b -> zero_count f a b = (if f a =? 0 then 1 else 0) + zero_count f (a + 1) b.
Proof.
  intros Hab. unfold zero_count. rewrite (seqZ_cons a) by lia.
  rewrite filter_cons. replace (Z.pred (b - a)) with (b - (a + 1)) by lia. rewrite Z.add_1_r.
  destruct (Z.eqb_spec (f a) 0); [rewrite decide_True by done|rewrite decide_False by done];
    simpl; lia.
Qed.

Lemma free_count_next t l a b :
  a < b -> free_count t l a b = (if entry t l a =? 0 then 1 else 0) + free_count t l (a + 1) b.
Proof. apply zero_count_next. Qed.

Lemma free_count_nil t l a b : b <= a -> free_count t l a b = 0.
Proof. intros Hab. unfold free_count, zero_count. by rewrite seqZ_nil by lia. Qed.

Lemma free_count_bound t l a b : a <= b -> 0 <= free_count t l a b <= b - a.
Proof.
  intros Hab. unfold free_count, zero_count. split; [lia|]. etrans.
  - apply Nat2Z.inj_le, length_filter.
  - rewrite length_seqZ. lia.
Qed.

Lemma filter_iff_in {A} (P Q : A -> Prop) `{!forall x, Decision (P x), !forall x, Decision (Q x)} (l : list A) :
  (forall x, x ∈ l -> (P x <-> Q x)) -> filter P l = filter Q l.
Proof.
  induction l as [|x l IH]; intros Hl; [done|]. rewrite !filter_cons, IH by (intros; apply Hl; by right).
  assert (Hx : P x <-> Q x) by (apply Hl; left). repeat case_decide; naive_solver.
Qed.

Lemma zero_count_iff f g a b :
  (forall c, a <= c < b -> (f c = 0 <-> g c = 0)) -> zero_count f a b = zero_count g a b.
Proof.
  intros H. unfold zero_count. do 2 f_equal. apply filter_iff_in. intros c Hc%elem_of_seqZ. apply H. lia.
Qed.

(** Freeing or using one cluster moves the count by one. *)
Lemma zero_count_change f g a b c :
  a <= c < b -> (forall c', a <= c' < b -> c' <> c -> (g c' = 0 <-> f c' = 0)) ->
  f c <> 0 -> g c = 0 -> zero_count g a b = zero_count f a b + 1.
Proof.
  intros Hc Hs Hu Hf. remember (Z.to_nat (b - a)) as n eqn:Hn. revert a Hn Hc Hs.
  induction n as [|n IH]; intros a Hn Hc Hs; [lia|].
  rewrite !(zero_count_next _ a) by lia. destruct (decide (c = a)) as [->|Hne].
  - rewrite Hf, (proj2 (Z.eqb_neq _ _) Hu), Z.eqb_refl.
    rewrite (zero_count_iff g f (a + 1)) by (intros; apply Hs; lia). lia.
  - rewrite IH by (try lia; intros; apply Hs; lia).
    assert (Ha : (g a =? 0) = (f a =? 0)); [|rewrite Ha; lia].
    apply eq_true_iff_eq. rewrite !Z.eqb_eq. apply Hs; lia.
Qed.

(** Freeing several clusters that are in use. *)
Lemma zero_count_freed cs f g a b :
  NoDup cs -> (forall c, c ∈ cs -> a <= c < b /\ f c <> 0 /\ g c = 0) ->
  (forall c, a <= c < b -> c ∉ cs -> (g c = 0 <-> f c = 0)) ->
  zero_count g a b = zero_count f a b + Z.of_nat (length cs).
Proof.
  revert f. induction cs as [|c cs IH]; intros f Hnd Hcs Hs.
  { rewrite Z.add_0_r. apply zero_count_iff. intros c Hc. apply Hs; [done|]. apply not_elem_of_nil. }
  apply NoDup_cons in Hnd as [Hn Hnd]. destruct (Hcs c ltac:(by left)) as (Hr & Hu & _).
  rewrite (IH (fun c' => if decide (c' = c) then 0 else f c')); [|done|..].
  - rewrite (zero_count_change f _ a b c); [simpl; lia|done| |done|by rewrite decide_True].
    intros c' _ Hne. by rewrite decide_False.
  - intros c' Hc'. destruct (Hcs c' ltac:(by right)) as (? & ? & ?).
    rewrite decide_False by (intros ->; done). done.
  - intros c' Hr' Hn'. case_decide as Heq.
    + subst c'. destruct (Hcs c ltac:(by left)) as (_ & _ & Hz). by rewrite Hz.
    + apply Hs; [done|]. by apply not_elem_of_cons.
Qed.

(** ** Chains *)

(** The cluster the entry of [c] names. *)
Definition link (t : FatType) (l : list Z) (c : Z) : option Z :=
  match decode t c (entry t l c) with Data n => Some n | _ => None end.

Inductive chain (t : FatType) (l : list Z) : Z -> list Z -> Prop :=
| chain_end c : link t l c = None -> chain t l c [c]
| chain_next c n cs : link t l c = Some n -> chain t l n cs -> chain t l c (c :: cs).

Lemma chain_fun t l c cs cs' : chain t l c cs -> chain t l c cs' -> cs = cs'.
Proof.
  intros H. revert cs'. induction H as [c He|c n cs Hl H IH]; intros cs' H'; inversion H'; subst; try congruence.
  f_equal. apply IH. congruence.
Qed.

Lemma chain_suffix t l c cs c' :
  chain t l c cs -> c' ∈ cs -> exists cs', chain t l c' cs' /\ (length cs' <= length cs)%nat.
Proof.
  induction 1 as [c He|c n cs Hl H IH]; intros Hc.
  - apply list_elem_of_singleton in Hc as ->. exists [c]. by split; [constructor|].
  - apply elem_of_cons in Hc as [->|Hc].
    + exists (c :: cs). split; [by econstructor|done].
    + destruct (IH Hc) as (cs' & Hcs' & Hle). exists cs'. split; [done|]. simpl. lia.
Qed.

(** A chain that ends visits no cluster twice. *)
Lemma chain_NoDup t l c cs : chain t l c cs -> NoDup cs.
Proof.
  induction 1 as [c He|c n cs Hl H IH]; [apply NoDup_singleton|].
  apply NoDup_cons. split; [|done]. intros Hc. destruct (chain_suffix _ _ _ _ _ H Hc) as (cs' & Hcs' & Hle).
  pose proof (chain_fun _ _ _ _ _ Hcs' (chain_next _ _ _ _ _ Hl H)) as ->. simpl in Hle. lia.
Qed.

Lemma chain_head t l c cs : chain t l c cs -> exists cs', cs = c :: cs'.
Proof. destruct 1; eauto. Qed.

(** A chain depends on its own entries only. *)
Lemma chain_same t l l' c cs :
  (forall c', c' ∈ cs -> entry t l' c' = entry t l c') -> chain t l c cs -> chain t l' c cs.
Proof.
  intros Hs H. induction H as [c He|c n cs Hl H IH].
  - constructor. unfold link. rewrite Hs by (apply list_elem_of_singleton; done). done.
  - econstructor; [|apply IH; intros c' Hc'; apply Hs; by right].
    unfold link. rewrite Hs by (by left). done.
Qed.

(** The changes of freeing the clusters [cs]. *)
Definition freeing (cs : list Z) : Z -> option Z := fun c => if decide (c ∈ cs) then Some 0 else None.

Lemma freeing_app t c cs l1 l2 l3 :
  changed t (freeing [c]) l1 l2 -> changed t (freeing cs) l2 l3 -> changed t (freeing (c :: cs)) l1 l3.
Proof.
  intros H1 H2. eapply changed_ext; [|by eapply changed_trans]. intros c' _. f_equal.
  unfold then_, freeing. repeat case_decide; try done; set_solver.
Qed.

Section count.
Context {W S E : Type} `{HE : IoError E} `{HS : Storage W S (Error E)}.
Context {view : W -> list Z} {off : S -> W -> Z} {J : S -> W -> Prop} `{HF : !FlatLaws view off J}.

#[local] Abbreviation reads := (reads (view:=view) (J:=J)).

Lemma count_loop_spec t (next : T (W:=W) (S:=S) (E:=E) Z) fuel a b k s w :
  reads_entries (view:=view) (off:=off) (J:=J) t next -> J s w -> bytes_ok (view w) ->
  (forall c, a <= c < b -> fits t (view w) c) -> off s w = entry_offset t a ->
  0 <= a <= b -> b < 2 ^ 32 -> (Z.to_nat (b - a) < fuel)%nat -> 0 <= k -> k + (b - a) < 2 ^ 32 ->
  wp (count_loop next fuel a b k s) (reads (Ok (k + free_count t (view w) a b)) w) w.
Proof.
  intros Hn. revert a k s w. induction fuel as [|fuel IH]; intros a k s w HJ Hb Hf Ho Hab Hmax Hfu Hk Hkm; [lia|].
  cbn [count_loop]. destruct (Z.ltb_spec a b) as [Hlt|Hge].
  - apply wp_io_bind. eapply wp_mono; [apply Hn; try done; apply Hf; lia|].
    intros [s1 r1] w1 (-> & Hv1 & Ho1 & HJ1). cbn [fst snd] in *.
    rewrite free_count_next by done. rewrite wrap_id by (unfold is_uint; lia).
    set (d := if entry t (view w) a =? 0 then 1 else 0).
    replace (if entry t (view w) a =? 0 then wrap 32 (k + 1) else k) with (k + d).
    2: { unfold d. case_if; [rewrite wrap_id by (unfold is_uint; lia)|]; lia. }
    assert (Hd : 0 <= d <= 1) by (unfold d; case_if; lia).
    eapply wp_mono; [apply IH; try done; try lia; rewrite Hv1; [done|intros c Hc; apply Hf; lia]|].
    intros r w2 (Hr & Hv2 & HJ2). split_and!; [|congruence|done]. rewrite Hr, Hv1, Z.add_assoc. done.
  - apply wp_ret. split_and!; try done. by rewrite free_count_nil, Z.add_0_r by lia.
Qed.

(** The loop of 12-bit entries reads two bytes for an even cluster and one for
    an odd one. *)
Lemma fat12_count_loop_spec fuel a b p k s w :
  J s w -> bytes_ok (view w) -> (forall c, a <= c < b -> fits Fat12 (view w) c) ->
  off s w = a + a / 2 + a mod 2 -> (a mod 2 = 1 -> p = word16 (view w) (a + a / 2 - 1)) ->
  0 <= a <= b -> b < 2 ^ 32 -> (Z.to_nat (b - a) < fuel)%nat -> 0 <= k -> k + (b - a) < 2 ^ 32 ->
  wp (fat12_count_loop fuel a b p k s) (reads (Ok (k + free_count Fat12 (view w) a b)) w) w.
Proof.
  revert a p k s w. induction fuel as [|fuel IH]; intros a p k s w HJ Hb Hf Ho Hp Hab Hmax Hfu Hk Hkm; [lia|].
  cbn [fat12_count_loop]. destruct (Z.ltb_spec a b) as [Hlt|Hge].
  2: { apply wp_ret. split_and!; try done. by rewrite free_count_nil, Z.add_0_r by lia. }
  destruct (Hf a ltac:(lia)) as [_ Hl]. cbn [entry_offset entry_bytes] in Hl.
  set (v := if a mod 2 =? 0 then word16 (view w) (a + a / 2) else byte (view w) (a + a / 2 + 1)).
  apply wp_io_bind. eapply (wp_mono _ (got (view:=view) (off:=off) (J:=J) v (2 - a mod 2) s w)).
  { rewrite land_1. unfold v. destruct (Z.eqb_spec (a mod 2) 0) as [He|Hne].
    - rewrite He. replace (a + a / 2) with (off s w) by lia. apply read_u16_spec; [done|lia].
    - replace (2 - a mod 2) with 1 by dlia. replace (a + a / 2 + 1) with (off s w) by dlia.
      apply read_u8_spec; [done|dlia]. }
  intros [s1 r1] w1 (-> & Hv1 & Ho1 & HJ1). cbn [fst snd] in *.
  rewrite free_count_next by done. rewrite wrap_id by (unfold is_uint; lia).
  set (d := if entry Fat12 (view w) a =? 0 then 1 else 0).
  assert (Hd : 0 <= d <= 1) by (unfold d; case_if; lia).
  assert (Hcount : (if (if Z.land a 1 =? 0 then Z.land v 0x0FFF
                        else Z.lor (wrap 16 (Z.shiftl v 8)) (Z.shiftr p 12)) =? 0
                    then wrap 32 (k + 1) else k) = k + d).
  { assert (Heq : ((if Z.land a 1 =? 0 then Z.land v 0x0FFF
                    else Z.lor (wrap 16 (Z.shiftl v 8)) (Z.shiftr p 12)) =? 0) =
                  (entry Fat12 (view w) a =? 0)); [|rewrite Heq; unfold d; case_if;
                    [rewrite wrap_id by (unfold is_uint; lia)|]; lia].
    rewrite land_1. unfold v, entry. destruct (Z.eqb_spec (a mod 2) 0) as [He|Hne].
    - pose proof (land_mask_mod (word16 (view w) (a + a / 2)) 12 ltac:(lia)) as Hm.
      change (2 ^ 12 - 1) with 0x0FFF in Hm. by rewrite Hm.
    - rewrite (Hp ltac:(dlia)). pose proof (byte_ok (view w) (a + a / 2 + 1) Hb).
      pose proof (byte_ok (view w) (a + a / 2) Hb). pose proof (byte_ok (view w) (a + a / 2 - 1) Hb).
      rewrite Z.shiftl_mul_pow2, Z.shiftr_div_pow2, wrap_id by (unfold is_uint; lia).
      unfold word16. replace (a + a / 2 - 1 + 1) with (a + a / 2) by lia.
      rewrite lor_mul_add by (unfold is_uint; dlia). apply eq_true_iff_eq. rewrite !Z.eqb_eq. dlia. }
  rewrite Hcount.
  eapply wp_mono; [apply IH; try done; try lia; rewrite ?Hv1; try done|].
  - intros c Hc. apply Hf. lia.
  - rewrite Ho1, Ho. dlia.
  - intros Hodd. unfold v. rewrite (proj2 (Z.eqb_eq (a mod 2) 0)) by dlia. f_equal. dlia.
  - intros r w2 (Hr & Hv2 & HJ2). split_and!; [|congruence|done]. rewrite Hr, Hv1, Z.add_assoc. done.
Qed.

Lemma count_free_spec t n s w :
  J s w -> bytes_ok (view w) -> 0 < n -> n + 2 < 2 ^ 32 ->
  (forall c, 2 <= c < n + 2 -> fits t (view w) c) ->
  wp (count_free_clusters t n s) (reads (Ok (free_count t (view w) 2 (n + 2))) w) w.
Proof.
  intros HJ Hb Hn Hmax Hf. unfold count_free_clusters, RESERVED_FAT_ENTRIES.
  rewrite (wrap_id 32 (n + 2)) by (unfold is_uint; lia).
  destruct (fits_offset _ _ _ (Hf 2 ltac:(lia))) as [_ Hl].
  destruct t; cbn [entry_offset entry_bytes] in Hl.
  - unfold fat12_count_free, RESERVED_FAT_ENTRIES. change (wrap 32 (2 * 3) / 2) with 3. apply seek_then; [done|change (2 / 2) with 1 in Hl; lia|].
    intros s1 w1 HJ1 Hv1 Ho1. rewrite <- Hv1.
    eapply wp_mono; [apply fat12_count_loop_spec; try done; try lia; rewrite ?Hv1; done|].
    intros r w2 (Hr & Hv2 & HJ2). split_and!; [|congruence|done]. by rewrite Hr.
  - unfold fat16_count_free, RESERVED_FAT_ENTRIES. change (wrap 32 (2 * 2)) with 4. apply seek_then; [done|lia|].
    intros s1 w1 HJ1 Hv1 Ho1. rewrite <- Hv1.
    eapply wp_mono; [apply (count_loop_spec Fat16); try done; try lia; [apply read_u16_entries|rewrite ?Hv1; done..]|].
    intros r w2 (Hr & Hv2 & HJ2). split_and!; [|congruence|done]. by rewrite Hr.
  - unfold fat32_count_free, RESERVED_FAT_ENTRIES. change (wrap 32 (2 * 4)) with 8. apply seek_then; [done|lia|].
    intros s1 w1 HJ1 Hv1 Ho1. rewrite <- Hv1.
    eapply wp_mono; [apply (count_loop_spec Fat32); try done; try lia; [apply next_entry32_entries|rewrite ?Hv1; done..]|].
    intros r w2 (Hr & Hv2 & HJ2). split_and!; [|congruence|done]. by rewrite Hr.
Qed.

(** ** Allocation *)

(** Where the search starts. *)
Definition search_start (hint : option Z) (n : Z) : Z :=
  match hint with Some h => if h <? n + 2 then h else 2 | None => 2 end.

(** The clusters from [a] to [b - 1] are in use. *)
Definition used (t : FatType) (l : list Z) (a b : Z) : Prop :=
  forall c, a <= c < b -> entry t l c <> 0.

(** The cluster a search from [start] that wraps around finds first. *)
Definition first_free (t : FatType) (l : list Z) (start n c : Z) : Prop :=
  2 <= c < n + 2 /\ entry t l c = 0 /\
  (start <= c /\ used t l start c \/ c < start /\ used t l start (n + 2) /\ used t l 2 c).

(** The changes of an allocation. *)
Definition linked (t : FatType) (prev : option Z) (c : Z) : Z -> option Z :=
  then_ (at_cluster c (encode t EndOfChain))
        match prev with Some p => at_cluster p c | None => fun _ => None end.

Definition allocates (t : FatType) (prev hint : option Z) (n : Z) (w : W)
    (r : S * result Z (Error E)) (w' : W) : Prop :=
  match r.2 with
  | Ok c => first_free t (view w) (search_start hint n) n c /\
            changed t (linked t prev c) (view w) (view w')
  | Err e => e = NotEnoughSpace /\ used t (view w) 2 (n + 2) /\ view w' = view w
  end /\ J r.1 w'.

Lemma storable_values t c v :
  match v with Data m => 0 <= m < entry_values t | Free => t = Fat32 -> special_cluster c = false | _ => True end ->
  storable t c v.
Proof. intros Hv. destruct t, v; split; cbn in *; try done; try lia; auto. Qed.

Lemma alloc_search_spec t hint n s w :
  J s w -> bytes_ok (view w) -> 0 < n -> (forall c, 2 <= c < n + 2 -> fits t (view w) c) ->
  match hint with Some h => 2 <= h | None => True end ->
  let start := search_start hint n in
  wp ((r ← try (find_free_cluster t start (n + 2));
       match r with
       | Ok n => mret n
       | Err e => if RESERVED_FAT_ENTRIES <? start
                  then find_free_cluster t RESERVED_FAT_ENTRIES start else throw e
       end : T (W:=W) (S:=S) (E:=E) Z) s)
     (fun r w' => match r.2 with
                  | Ok c => first_free t (view w) start n c
                  | Err e => e = NotEnoughSpace /\ used t (view w) 2 (n + 2)
                  end /\ view w' = view w /\ J r.1 w') w.
Proof.
  intros HJ Hb Hn Hf Hh start. unfold RESERVED_FAT_ENTRIES.
  assert (Hs : 2 <= start < n + 2) by (unfold start, search_start; destruct hint; [case_if; b2p|]; lia).
  apply wp_io_bind, wp_try. eapply wp_mono; [apply find_free_spec; try done; [intros; apply Hf; lia|lia]|].
  intros [s1 r1] w1 (Hfd & Hv1 & HJ1). cbn [fst snd] in *. destruct r1 as [c|e]; cbn [found] in Hfd.
  - destruct Hfd as (Hc & H0 & Hu). apply wp_ret. cbn. unfold first_free. split_and!; try done; try lia. left. by split; [lia|].
  - destruct Hfd as [-> Hu]. destruct (Z.ltb_spec 2 start) as [Hlt|Hge].
    + eapply wp_mono; [apply find_free_spec; rewrite ?Hv1; try done; [intros; apply Hf; lia]|].
      intros [s2 [c|e]] w2 (Hfd & Hv2 & HJ2); cbn in *.
      * destruct Hfd as (Hc & H0 & Hu2). rewrite Hv1 in *. unfold first_free.
        split_and!; try done; try lia. right. split_and!; [lia|done|done].
      * destruct Hfd as [-> Hu2]. rewrite Hv1 in *. split_and!; try done. intros c Hc.
        destruct (decide (c < start)); [apply Hu2|apply Hu]; lia.
    + apply wp_ret. cbn. split_and!; try done. intros c Hc. apply Hu. lia.
Qed.

Lemma alloc_cluster_spec t prev hint n s w :
  J s w -> bytes_ok (view w) -> 0 < n -> n + 2 <= entry_values t - 9 ->
  (forall c, 2 <= c < n + 2 -> fits t (view w) c) ->
  match hint with Some h => 2 <= h | None => True end ->
  match prev with Some p => 2 <= p < n + 2 | None => True end ->
  wp (alloc_cluster t prev hint n s) (allocates t prev hint n w) w.
Proof.
  intros HJ Hb Hn Hmax Hf Hh Hp. unfold alloc_cluster.
  assert (Hev : entry_values t <= 2 ^ 28) by (destruct t; cbn; lia).
  rewrite (wrap_id 32) by (unfold is_uint, RESERVED_FAT_ENTRIES; lia).
  change (match hint with Some n0 => _ | None => _ end) with (search_start hint n).
  pose proof (alloc_search_spec t hint n s w HJ Hb Hn Hf Hh) as Hsearch. cbn zeta in Hsearch.
  apply wp_assoc. apply wp_io_bind. eapply wp_mono; [exact Hsearch|].
  intros [s1 [c|e]] w1 (Hr & Hv1 & HJ1); cbn [fst snd] in *; [|by split_and!; destruct Hr].
  pose proof Hr as (Hc & H0 & _).
  apply wp_io_bind. eapply wp_mono; [apply write_fat_spec; [done|by rewrite Hv1|rewrite Hv1; by apply Hf|by apply storable_values]|].
  intros [s2 r2] w2 (Hr2 & Hu2 & HJ2). cbn in Hr2. subst r2. cbn [fst snd] in *.
  rewrite Hv1 in Hu2. apply updated_changed in Hu2. pose proof Hu2 as (Hl2 & Hb2 & _).
  destruct prev as [p|]; cbn [linked].
  - apply wp_io_bind. eapply wp_mono.
    { apply write_fat_spec; [done|done|apply (fits_length t (view w)); [done|by apply Hf]|].
      apply storable_values. lia. }
    intros [s3 r3] w3 (Hr3 & Hu3 & HJ3). cbn in Hr3. subst r3. cbn [fst snd] in *. apply wp_ret.
    split; [|done]. cbn. split; [done|]. eapply changed_trans; [exact Hu2|by apply updated_changed].
  - apply wp_io_bind, wp_ret. apply wp_ret. split; [|done]. cbn. split; [done|].
    eapply changed_ext; [|exact Hu2]. done.
Qed.

(** ** Walking and freeing a chain *)

Lemma iter_next_spec t c s w :
  J s w -> bytes_ok (view w) -> fits t (view w) c ->
  wp (iter_next (mkIter t (Some c) false) s)
     (reads (Ok (mkIter t (link t (view w) c) false, Ok <$> link t (view w) c)) w) w.
Proof.
  intros HJ Hb Hf. unfold iter_next, get_next_cluster. cbn [it_err it_cluster it_fat_type].
  apply wp_io_bind, wp_try, wp_io_bind. eapply wp_mono; [by apply read_fat_spec|].
  intros [s1 r1] w1 (-> & Hv1 & HJ1). cbn [fst snd]. apply wp_ret. cbn [fst snd]. apply wp_ret.
  unfold link. by split_and!.
Qed.

Lemma write_free_spec t c s w :
  J s w -> bytes_ok (view w) -> fits t (view w) c -> (t = Fat32 -> special_cluster c = false) ->
  wp (write_fat t c Free s)
     (fun r w' => r.2 = Ok tt /\ changed t (freeing [c]) (view w) (view w') /\ J r.1 w') w.
Proof.
  intros HJ Hb Hf Hs. eapply wp_mono; [apply write_fat_spec; try done; by apply storable_values|].
  intros r w' (Hr & Hu & HJ'). split_and!; try done. apply updated_changed in Hu.
  eapply changed_ext; [|exact Hu]. intros c' _. unfold freeing, at_cluster. f_equal.
  repeat case_decide; try done; set_solver.
Qed.

Lemma free_loop_spec t fuel c cs k s w :
  J s w -> bytes_ok (view w) -> chain t (view w) c cs ->
  (forall c', c' ∈ cs -> fits t (view w) c' /\ (t = Fat32 -> special_cluster c' = false)) ->
  (length cs <= fuel)%nat -> 0 <= k -> k + Z.of_nat (length cs) < 2 ^ 32 ->
  wp (free_loop fuel (mkIter t (Some c) false) k s)
     (fun r w' => r.2 = Ok (k + Z.of_nat (length cs)) /\
                  changed t (freeing cs) (view w) (view w') /\ J r.1 w') w.
Proof.
  revert c cs k s w. induction fuel as [|fuel IH]; intros c cs k s w HJ Hb Hc Hcs Hfu Hk Hmax.
  { destruct (chain_head _ _ _ _ Hc) as [? ->]. simpl in Hfu. lia. }
  pose proof (chain_NoDup _ _ _ _ Hc) as Hnd. destruct (chain_head _ _ _ _ Hc) as [cs1 ->].
  destruct (Hcs c ltac:(by left)) as [Hf Hsp].
  cbn [free_loop it_cluster it_fat_type]. apply wp_io_bind.
  eapply wp_mono; [by apply iter_next_spec|]. intros [s1 r1] w1 (Hr1 & Hv1 & HJ1). cbn in Hr1. subst r1.
  cbn [fst snd] in *. apply wp_io_bind.
  eapply wp_mono; [apply write_free_spec; rewrite ?Hv1; done|].
  intros [s2 r2] w2 (Hr2 & Hu2 & HJ2). cbn in Hr2. subst r2. cbn [fst snd] in *. rewrite Hv1 in Hu2.
  pose proof Hu2 as (Hl2 & Hb2 & He2). rewrite wrap_id by (unfold is_uint; simpl in Hmax; lia).
  inversion Hc as [? Hlink|? n ? Hlink Hc1]; subst.
  - rewrite Hlink. destruct fuel; cbn [free_loop it_cluster]; apply wp_ret; by split_and!.
  - rewrite Hlink. apply NoDup_cons in Hnd as [Hnc Hnd].
    assert (Hc2 : chain t (view w2) n cs1).
    { eapply chain_same; [|exact Hc1]. intros c' Hc'. destruct (Hcs c' ltac:(by right)) as [Hf' _].
      destruct (He2 c' Hf') as [-> _]. unfold freeing. rewrite decide_False; [done|set_solver]. }
    eapply wp_mono.
    { apply (IH n cs1); try done; [|simpl in *; lia..].
      intros c' Hc'. destruct (Hcs c' ltac:(by right)) as [Hf' Hsp'].
      split; [by eapply fits_length|done]. }
    intros r w3 (Hr3 & Hu3 & HJ3). split_and!; [|by eapply freeing_app|done].
    rewrite Hr3. f_equal. simpl. lia.
Qed.

Lemma iter_free_spec t fuel c cs s w :
  J s w -> bytes_ok (view w) -> chain t (view w) c cs ->
  (forall c', c' ∈ cs -> fits t (view w) c' /\ (t = Fat32 -> special_cluster c' = false)) ->
  (length cs <= fuel)%nat -> Z.of_nat (length cs) < 2 ^ 32 ->
  wp (iter_free fuel (iter_new t c) s)
     (fun r w' => r.2 = Ok (Z.of_nat (length cs)) /\
                  changed t (freeing cs) (view w) (view w') /\ J r.1 w') w.
Proof. intros. by apply (free_loop_spec t fuel c cs 0). Qed.

Lemma iter_truncate_spec t fuel c cs s w :
  J s w -> bytes_ok (view w) -> chain t (view w) c (c :: cs) ->
  (forall c', c' ∈ c :: cs -> fits t (view w) c' /\ (t = Fat32 -> special_cluster c' = false)) ->
  (length cs <= fuel)%nat -> Z.of_nat (length cs) < 2 ^ 32 ->
  wp (iter_truncate fuel (iter_new t c) s)
     (fun r w' => r.2 = Ok (Z.of_nat (length cs)) /\
        changed t (then_ (at_cluster c (encode t EndOfChain)) (freeing cs)) (view w) (view w') /\
        J r.1 w') w.
Proof.
  intros HJ Hb Hc Hcs Hfu Hmax. pose proof (chain_NoDup _ _ _ _ Hc) as [Hnc Hnd]%NoDup_cons.
  destruct (Hcs c ltac:(by left)) as [Hf _].
  cbn [iter_truncate iter_new it_cluster it_fat_type]. apply wp_io_bind.
  eapply wp_mono; [by apply iter_next_spec|]. intros [s1 r1] w1 (Hr1 & Hv1 & HJ1). cbn in Hr1. subst r1.
  cbn [fst snd] in *. apply wp_io_bind.
  eapply wp_mono; [apply write_fat_spec; rewrite ?Hv1; try done; by apply storable_values|].
  intros [s2 r2] w2 (Hr2 & Hu2 & HJ2). cbn in Hr2. subst r2. cbn [fst snd] in *. rewrite Hv1 in Hu2.
  apply updated_changed in Hu2. pose proof Hu2 as (Hl2 & Hb2 & He2). unfold iter_free.
  inversion Hc as [? Hlink|? n ? Hlink Hc1]; subst; rewrite Hlink.
  - destruct fuel; cbn [free_loop it_cluster]; apply wp_ret; (split_and!; [done| |done]);
      (eapply changed_ext; [|exact Hu2]); intros c' _; unfold then_, freeing; by rewrite decide_False by set_solver.
  - assert (Hc2 : chain t (view w2) n cs).
    { eapply chain_same; [|exact Hc1]. intros c' Hc'. destruct (Hcs c' ltac:(by right)) as [Hf' _].
      destruct (He2 c' Hf') as [-> _]. unfold at_cluster. rewrite decide_False; [done|set_solver]. }
    eapply wp_mono.
    { apply (free_loop_spec t fuel n cs 0); try done.
      intros c' Hc'. destruct (Hcs c' ltac:(by right)) as [Hf' Hsp'].
      split; [by eapply fits_length|done]. }
    intros r w3 (Hr3 & Hu3 & HJ3). split_and!; [done|by eapply changed_trans|done].
Qed.

End count.

End FatChain.
