(* ===== verification/FatEntry.v ===== *)
(** * Directory entries

    Models [awkernel_lib/src/file/fatfs/dir_entry.rs] without the [lfn] and
    [unicode] features, which no target enables: the data of short and long
    name entries with their encodings, decoded short names, and the editor of
    an entry that open files share. *)

From S2P Require Import Prelude Critical Disk FatTime FatBoot.

Module FatEntry.
Import Disk FatTime FatBoot.
Local Open Scope Z_scope.

(** ** Attributes and sizes *)

Definition READ_ONLY : Z := 0x01.
Definition HIDDEN : Z := 0x02.
Definition SYSTEM : Z := 0x04.
Definition VOLUME_ID : Z := 0x08.
Definition DIRECTORY : Z := 0x10.
Definition ARCHIVE : Z := 0x20.
Definition LFN : Z := Z.lor (Z.lor READ_ONLY HIDDEN) (Z.lor SYSTEM VOLUME_ID).

(** [from_bits_truncate] drops the bits that are no attribute. *)
Definition from_bits_truncate (b : Z) : Z := Z.land b 0x3F.
Definition contains (attrs flag : Z) : bool := Z.land attrs flag =? flag.

Definition DIR_ENTRY_DELETED_FLAG : Z := 0xE5.
Definition DIR_ENTRY_REALLY_E5_FLAG : Z := 0x05.
Definition SFN_SIZE : nat := 11.
Definition SFN_PADDING : Z := 32.

(** ** Short names *)

Record ShortName := mkShortName { sn_name : list Z; sn_len : nat }.

(** One past the last byte that is no padding. *)
Fixpoint unpadded_len (l : list Z) : nat :=
  match l with
  | [] => 0%nat
  | b :: l' =>
      match unpadded_len l' with
      | O => if b =? SFN_PADDING then 0%nat else 1%nat
      | n => S n
      end
  end.

(** [name[a..a + src.len()].copy_from_slice(src)] *)
Definition copy_at (a : nat) (src l : list Z) : list Z := splice a src l.

Definition short_name_new (raw_name : list Z) : ShortName :=
  let name_len := unpadded_len (take 8 raw_name) in
  let ext_len := unpadded_len (take 3 (drop 8 raw_name)) in
  let name := copy_at 0 (take name_len raw_name) (replicate 12 SFN_PADDING) in
  let '(name, total_len) :=
    if (0 <? ext_len)%nat then
      (copy_at (name_len + 1) (take ext_len (drop 8 raw_name)) (<[name_len := 46]> name),
       (name_len + 1 + ext_len)%nat)
    else (name, name_len) in
  let name :=
    if default 0 (name !! 0%nat) =? DIR_ENTRY_REALLY_E5_FLAG then <[0%nat := 0xE5]> name else name in
  mkShortName name total_len.

Definition as_bytes (n : ShortName) : list Z := take (sn_len n) (sn_name n).

(** ** Data of an entry *)

Record DirFileEntryData := mkEntry {
  name : list Z;
  attrs : Z;
  reserved_0 : Z;
  create_time_0 : Z;
  create_time_1 : Z;
  create_date : Z;
  access_date : Z;
  first_cluster_hi : Z;
  modify_time : Z;
  modify_date : Z;
  first_cluster_lo : Z;
  e_size : Z
}.

Definition default_entry : DirFileEntryData :=
  mkEntry (zeros SFN_SIZE) 0 0 0 0 0 0 0 0 0 0 0.

Definition entry_new (name : list Z) (attrs : Z) : DirFileEntryData :=
  mkEntry name attrs 0 0 0 0 0 0 0 0 0 0.

Definition new_for_rootdir (first_cluster : Z) : DirFileEntryData :=
  mkEntry (zeros SFN_SIZE) DIRECTORY 0 0 0 0 0 (wrap 16 (Z.shiftr first_cluster 16)) 0 0
    (wrap 16 (Z.land first_cluster 0xFFFF)) 0.

Definition renamed (new_name : list Z) (e : DirFileEntryData) : DirFileEntryData :=
  mkEntry new_name (attrs e) (reserved_0 e) (create_time_0 e) (create_time_1 e) (create_date e)
    (access_date e) (first_cluster_hi e) (modify_time e) (modify_date e) (first_cluster_lo e)
    (e_size e).

Definition first_cluster (t : FatType) (e : DirFileEntryData) : option Z :=
  let hi := if decide (t = Fat32) then first_cluster_hi e else 0 in
  let n := Z.lor (wrap 32 (Z.shiftl hi 16)) (first_cluster_lo e) in
  if n =? 0 then None else Some n.

Definition set_first_cluster (t : FatType) (cluster : option Z) (e : DirFileEntryData) :
    DirFileEntryData :=
  let n := default 0 cluster in
  mkEntry (name e) (attrs e) (reserved_0 e) (create_time_0 e) (create_time_1 e) (create_date e)
    (access_date e)
    (if decide (t = Fat32) then wrap 16 (Z.shiftr n 16) else first_cluster_hi e)
    (modify_time e) (modify_date e) (wrap 16 (Z.land n 0xFFFF)) (e_size e).

Definition is_dir (e : DirFileEntryData) : bool := contains (attrs e) DIRECTORY.
Definition is_file (e : DirFileEntryData) : bool := negb (is_dir e).
Definition is_volume (e : DirFileEntryData) : bool := contains (attrs e) VOLUME_ID.

Definition entry_size (e : DirFileEntryData) : option Z :=
  if is_file e then Some (e_size e) else None.

Definition set_size (size : Z) (e : DirFileEntryData) : DirFileEntryData :=
  mkEntry (name e) (attrs e) (reserved_0 e) (create_time_0 e) (create_time_1 e) (create_date e)
    (access_date e) (first_cluster_hi e) (modify_time e) (modify_date e) (first_cluster_lo e) size.

Definition lowercase_basename (e : DirFileEntryData) : bool :=
  negb (Z.land (reserved_0 e) (Z.shiftl 1 3) =? 0).
Definition lowercase_ext (e : DirFileEntryData) : bool :=
  negb (Z.land (reserved_0 e) (Z.shiftl 1 4) =? 0).

Definition to_ascii_lowercase (b : Z) : Z :=
  if (65 <=? b) && (b <=? 90) then b + 32 else b.

Definition lowercase_name (e : DirFileEntryData) : ShortName :=
  let n := name e in
  let n := if lowercase_basename e then (to_ascii_lowercase <$> take 8 n) ++ drop 8 n else n in
  let n := if lowercase_ext e then take 8 n ++ (to_ascii_lowercase <$> drop 8 n) else n in
  short_name_new n.

Definition created (e : DirFileEntryData) : DateTime :=
  datetime_decode (create_date e) (create_time_1 e) (create_time_0 e).
Definition accessed (e : DirFileEntryData) : Date := date_decode (access_date e).
Definition modified (e : DirFileEntryData) : DateTime :=
  datetime_decode (modify_date e) (modify_time e) 0.

Definition set_created (t : DateTime) (e : DirFileEntryData) : DirFileEntryData :=
  let encoded_time := time_encode (time t) in
  mkEntry (name e) (attrs e) (reserved_0 e) encoded_time.2 encoded_time.1 (date_encode (date t))
    (access_date e) (first_cluster_hi e) (modify_time e) (modify_date e) (first_cluster_lo e)
    (e_size e).

Definition set_accessed (d : Date) (e : DirFileEntryData) : DirFileEntryData :=
  mkEntry (name e) (attrs e) (reserved_0 e) (create_time_0 e) (create_time_1 e) (create_date e)
    (date_encode d) (first_cluster_hi e) (modify_time e) (modify_date e) (first_cluster_lo e)
    (e_size e).

Definition set_modified (t : DateTime) (e : DirFileEntryData) : DirFileEntryData :=
  mkEntry (name e) (attrs e) (reserved_0 e) (create_time_0 e) (create_time_1 e) (create_date e)
    (access_date e) (first_cluster_hi e) (time_encode (time t)).1 (date_encode (date t))
    (first_cluster_lo e) (e_size e).

Definition name_0 (l : list Z) : Z := default 0 (l !! 0%nat).

Definition is_deleted (e : DirFileEntryData) : bool := name_0 (name e) =? DIR_ENTRY_DELETED_FLAG.
Definition is_end (e : DirFileEntryData) : bool := name_0 (name e) =? 0.
Definition set_deleted (e : DirFileEntryData) : DirFileEntryData :=
  renamed (<[0%nat := DIR_ENTRY_DELETED_FLAG]> (name e)) e.

(** ** Entries of long names *)

Record DirLfnEntryData := mkLfn {
  order : Z;
  lfn_name_0 : list Z;
  lfn_attrs : Z;
  entry_type : Z;
  checksum : Z;
  lfn_name_1 : list Z;
  lfn_reserved_0 : Z;
  lfn_name_2 : list Z
}.

Inductive DirEntryData :=
| FileEntry (file : DirFileEntryData)
| LfnEntry (lfn : DirLfnEntryData).

Definition data_is_deleted (d : DirEntryData) : bool :=
  match d with
  | FileEntry file => is_deleted file
  | LfnEntry lfn => order lfn =? DIR_ENTRY_DELETED_FLAG
  end.

Definition data_is_end (d : DirEntryData) : bool :=
  match d with FileEntry file => is_end file | LfnEntry lfn => order lfn =? 0 end.

Definition data_set_deleted (d : DirEntryData) : DirEntryData :=
  match d with
  | FileEntry file => FileEntry (set_deleted file)
  | LfnEntry lfn =>
      LfnEntry (mkLfn DIR_ENTRY_DELETED_FLAG (lfn_name_0 lfn) (lfn_attrs lfn) (entry_type lfn)
                  (checksum lfn) (lfn_name_1 lfn) (lfn_reserved_0 lfn) (lfn_name_2 lfn))
  end.

(** ** Reading and writing entries *)

Section serialize.
Context {W S E : Type} `{HE : IoError E} `{HS : Storage W S E}.

Definition entry_serialize (e : DirFileEntryData) : io W S E unit :=
  _ ← write_all (name e);
  _ ← write_u8 (attrs e);
  _ ← write_u8 (reserved_0 e);
  _ ← write_u8 (create_time_0 e);
  _ ← write_u16_le (create_time_1 e);
  _ ← write_u16_le (create_date e);
  _ ← write_u16_le (access_date e);
  _ ← write_u16_le (first_cluster_hi e);
  _ ← write_u16_le (modify_time e);
  _ ← write_u16_le (modify_date e);
  _ ← write_u16_le (first_cluster_lo e);
  write_u32_le (e_size e).

(** [for ch in &chars] *)
Fixpoint write_chars (chars : list Z) : io W S E unit :=
  match chars with
  | [] => mret tt
  | ch :: chars' => _ ← write_u16_le ch; write_chars chars'
  end.

Definition lfn_serialize (l : DirLfnEntryData) : io W S E unit :=
  _ ← write_u8 (order l);
  _ ← write_chars (lfn_name_0 l);
  _ ← write_u8 (lfn_attrs l);
  _ ← write_u8 (entry_type l);
  _ ← write_u8 (checksum l);
  _ ← write_chars (lfn_name_1 l);
  _ ← write_u16_le (lfn_reserved_0 l);
  write_chars (lfn_name_2 l).

Definition data_serialize (d : DirEntryData) : io W S E unit :=
  match d with
  | FileEntry file => entry_serialize file
  | LfnEntry lfn => lfn_serialize lfn
  end.

Fixpoint read_chars (n : nat) : io W S E (list Z) :=
  match n with
  | O => mret []
  | Datatypes.S n' => x ← read_u16_le; xs ← read_chars n'; mret (x :: xs)
  end.

(** [as_chunks::<2>] and [u16::from_le_bytes] *)
Fixpoint chunks2 (l : list Z) : list Z :=
  match l with
  | a :: b :: l' => from_le_bytes [a; b] :: chunks2 l'
  | _ => []
  end.

End serialize.

Section deserialize.
Context {W S E : Type} `{HE : IoError E} `{HS : Storage W S (Error E)}.

Definition data_deserialize : io W S (Error E) DirEntryData :=
  r ← try (read_exact SFN_SIZE);
  match r with
  | Err UnexpectedEof => mret (FileEntry default_entry)
  | Err e => throw e
  | Ok name =>
      b ← read_u8;
      let attrs := from_bits_truncate b in
      if Z.land attrs LFN =? LFN then
        entry_type ← read_u8;
        checksum ← read_u8;
        name_1 ← read_chars 6;
        reserved_0 ← read_u16_le;
        name_2 ← read_chars 2;
        mret (LfnEntry (mkLfn (name_0 name) (chunks2 (drop 1 name)) attrs entry_type checksum
                          name_1 reserved_0 name_2))
      else
        reserved_0 ← read_u8;
        create_time_0 ← read_u8;
        create_time_1 ← read_u16_le;
        create_date ← read_u16_le;
        access_date ← read_u16_le;
        first_cluster_hi ← read_u16_le;
        modify_time ← read_u16_le;
        modify_date ← read_u16_le;
        first_cluster_lo ← read_u16_le;
        size ← read_u32_le;
        mret (FileEntry (mkEntry name attrs reserved_0 create_time_0 create_time_1 create_date
                           access_date first_cluster_hi modify_time modify_date first_cluster_lo
                           size))
  end.

End deserialize.

(** ** The editor of an entry *)

Record DirEntryEditor := mkEditor { data_ : DirFileEntryData; pos : Z; dirty_ : bool }.

Definition editor_new (data : DirFileEntryData) (pos : Z) : DirEntryEditor := mkEditor data pos false.

Definition edited (data : DirFileEntryData) (ed : DirEntryEditor) : DirEntryEditor :=
  mkEditor data (pos ed) true.

Definition ed_set_first_cluster (t : FatType) (c : option Z) (ed : DirEntryEditor) : DirEntryEditor :=
  if decide (c = first_cluster t (data_ ed)) then ed
  else edited (set_first_cluster t c (data_ ed)) ed.

Definition ed_set_size (size : Z) (ed : DirEntryEditor) : DirEntryEditor :=
  match entry_size (data_ ed) with
  | Some n => if size =? n then ed else edited (set_size size (data_ ed)) ed
  | None => ed
  end.

Definition ed_set_accessed (d : Date) (ed : DirEntryEditor) : DirEntryEditor :=
  if decide (d = accessed (data_ ed)) then ed else edited (set_accessed d (data_ ed)) ed.

Definition ed_set_modified (t : DateTime) (ed : DirEntryEditor) : DirEntryEditor :=
  if decide (t = modified (data_ ed)) then ed else edited (set_modified t (data_ ed)) ed.

End FatEntry.
