(* ===== verification/FatFs.v ===== *)
(** * The mounted file system

    Models [awkernel_lib/src/file/fatfs/fs.rs]: mounting, the information
    sector, the adapter that locks the disk for each access and marks the
    volume dirty, the slice of the disk that holds the FAT, the allocation and
    release of clusters, and formatting.

    The state shared by the users of a file system is [World]; each use of a
    lock is one critical section of [prog].  The [Mutex]es are those of the
    external crate [awkernel_sync]: only the exclusion they give is used. *)

From S2P Require Import Prelude Critical Disk FatTime FatBoot FatTable FatEntry.

Module FatFs.
Import Disk FatTime FatBoot FatTable FatEntry.
Local Open Scope Z_scope.

Abbreviation DiskError := InMemoryDiskError.
Abbreviation FsError := (Error InMemoryDiskError).

(** ** The information sector *)

Record FsInfoSector := mkFsInfo {
  free_cluster_count : option Z;
  next_free_cluster : option Z;
  fsi_dirty : bool
}.

Definition LEAD_SIG : Z := 0x41615252.
Definition STRUC_SIG : Z := 0x61417272.
Definition TRAIL_SIG : Z := 0xAA550000.

Definition default_fs_info : FsInfoSector := mkFsInfo None None false.

(** The disk held by its owner: [From] on its errors. *)
Definition D (A : Type) : Type := io InMemoryDisk unit FsError A.
Definition on_disk {A} (m : io InMemoryDisk unit DiskError A) : D A := fun s =>
  r ← m s; mret (r.1, match r.2 with Ok a => Ok a | Err e => Err (Io e) end).

Definition fs_info_deserialize : D FsInfoSector :=
  lead_sig ← on_disk read_u32_le;
  if negb (lead_sig =? LEAD_SIG) then throw CorruptedFileSystem else
  _ ← on_disk (read_exact 480);
  struc_sig ← on_disk read_u32_le;
  if negb (struc_sig =? STRUC_SIG) then throw CorruptedFileSystem else
  n ← on_disk read_u32_le;
  let free_cluster_count := if n =? 0xFFFFFFFF then None else Some n in
  n ← on_disk read_u32_le;
  let next_free_cluster :=
    if n =? 0xFFFFFFFF then None else if (n =? 0) || (n =? 1) then None else Some n in
  _ ← on_disk (read_exact 12);
  trail_sig ← on_disk read_u32_le;
  if negb (trail_sig =? TRAIL_SIG) then throw CorruptedFileSystem else
  mret (mkFsInfo free_cluster_count next_free_cluster false).

Definition fs_info_serialize (i : FsInfoSector) : D unit :=
  _ ← on_disk (write_u32_le LEAD_SIG);
  _ ← on_disk (write_all (zeros 480));
  _ ← on_disk (write_u32_le STRUC_SIG);
  _ ← on_disk (write_u32_le (default 0xFFFFFFFF (free_cluster_count i)));
  _ ← on_disk (write_u32_le (default 0xFFFFFFFF (next_free_cluster i)));
  _ ← on_disk (write_all (zeros 12));
  on_disk (write_u32_le TRAIL_SIG).

Definition validate_and_fix (total_clusters : Z) (i : FsInfoSector) : FsInfoSector :=
  let max_valid_cluster_number := wrap 32 (total_clusters + RESERVED_FAT_ENTRIES) in
  mkFsInfo
    match free_cluster_count i with
    | Some n => if total_clusters <? n then None else Some n
    | None => None
    end
    match next_free_cluster i with
    | Some n => if max_valid_cluster_number <? n then None else Some n
    | None => None
    end
    (fsi_dirty i).

Definition map_free_clusters (map_fn : Z -> Z) (i : FsInfoSector) : FsInfoSector :=
  match free_cluster_count i with
  | Some n => mkFsInfo (Some (map_fn n)) (next_free_cluster i) true
  | None => i
  end.

Definition set_next_free_cluster (cluster : Z) (i : FsInfoSector) : FsInfoSector :=
  mkFsInfo (free_cluster_count i) (Some cluster) true.

Definition set_free_cluster_count (n : Z) (i : FsInfoSector) : FsInfoSector :=
  mkFsInfo (Some n) (next_free_cluster i) true.

(** ** The file system *)

(** What does not change while it is mounted. *)
Record FileSystem := mkFs {
  update_accessed_date : bool;
  fat_type : FatType;
  fs_bpb : BiosParameterBlock;
  fs_first_data_sector : Z;
  fs_root_dir_sectors : Z;
  fs_total_clusters : Z
}.

(** An [Arc<Mutex<DirEntryEditor>>] and its strong count. *)
Record Shared := mkShared { editor : DirEntryEditor; strong : nat }.

(** What the locks protect.  [metadata] holds the editors that have been
    shared, each [Arc] being an index of it. *)
Record World := mkWorld {
  disk : InMemoryDisk;
  fs_info : FsInfoSector;
  current_status_flags : FsStatusFlags;
  metadata_cache : gmap Z nat;
  metadata : list Shared
}.

Definition set_disk (d : InMemoryDisk) (w : World) : World :=
  mkWorld d (fs_info w) (current_status_flags w) (metadata_cache w) (metadata w).
Definition set_fs_info (i : FsInfoSector) (w : World) : World :=
  mkWorld (disk w) i (current_status_flags w) (metadata_cache w) (metadata w).
Definition set_status (f : FsStatusFlags) (w : World) : World :=
  mkWorld (disk w) (fs_info w) f (metadata_cache w) (metadata w).
Definition set_cache (c : gmap Z nat) (w : World) : World :=
  mkWorld (disk w) (fs_info w) (current_status_flags w) c (metadata w).
Definition set_metadata (m : list Shared) (w : World) : World :=
  mkWorld (disk w) (fs_info w) (current_status_flags w) (metadata_cache w) m.

Definition current_disk : D InMemoryDisk := liftp (d ← atomic (gets (fun d => d)); mret (Ok d)).

(** The system is mounted from a disk at position 0. *)
Definition fs_new (strict update_accessed_date : bool) : D (FileSystem * World) :=
  boot ← on_disk boot_deserialize;
  _ ← (io_res (boot_validate strict boot) : D unit);
  let b := bpb boot in
  root_dir_sectors_ ← io_pure (root_dir_sectors b);
  first_data_sector_ ← io_pure (first_data_sector b);
  total_clusters_ ← io_pure (total_clusters b);
  let t := from_clusters total_clusters_ in
  info ← (if decide (t = Fat32) then
            _ ← on_disk (seek (Start (bytes_from_sectors b (fs_info_sector b))));
            fs_info_deserialize
          else mret default_fs_info : D FsInfoSector);
  let info :=
    if dirty (status_flags b) then mkFsInfo None (next_free_cluster info) (fsi_dirty info) else info in
  let info := validate_and_fix total_clusters_ info in
  d ← current_disk;
  mret (mkFs update_accessed_date t b first_data_sector_ root_dir_sectors_ total_clusters_,
        mkWorld d info (status_flags b) ∅ []).

(** ** Access to the disk *)

(** Code that locks the disk once and works on it. *)
Definition with_disk {A} (m : io InMemoryDisk unit DiskError A) : prog World (result A DiskError) :=
  atomic (fun w =>
    match run (m tt) (disk w) with
    | Ret (d, (_, r)) => Ret (set_disk d w, r)
    | Panic => Panic
    end).

Definition set_dirty_flag (fs : FileSystem) (dirty_ : bool) : prog World (result unit DiskError) :=
  let flags := status_flags (fs_bpb fs) in
  let flags := mkFlags (dirty flags || dirty_) (io_error flags) in
  current_flags ← atomic (gets current_status_flags);
  if decide (flags = current_flags) then mret (Ok tt) else
  let encoded := flags_encode flags in
  let offset_ := if decide (fat_type fs = Fat32) then 0x041 else 0x025 in
  r ← with_disk (_ ← seek (Start offset_); write_u8 encoded);
  match r with
  | Ok _ => _ ← atomic (modify (set_status flags)); mret (Ok tt)
  | Err e => mret (Err e)
  end.

Record FsIoAdapter := mkAdapter { adapter_fs : FileSystem }.

#[export] Instance adapter_storage : Storage World FsIoAdapter DiskError := {
  read n := liftp (with_disk (read n));
  write buf := fun s =>
    r ← with_disk (write buf);
    match r with
    | Ok size =>
        if (0 <? size)%nat then
          r' ← set_dirty_flag (adapter_fs s) true;
          match r' with Ok _ => mret (s, Ok size) | Err e => mret (s, Err e) end
        else mret (s, Ok size)
    | Err e => mret (s, Err e)
    end;
  flush := liftp (with_disk flush);
  seek pos := liftp (with_disk (seek pos))
}.

Definition from_sectors {S} (first_sector sector_count mirrors : Z) (b : BiosParameterBlock)
    (inner : S) : DiskSlice S :=
  slice_new (bytes_from_sectors b first_sector) (bytes_from_sectors b sector_count) mirrors inner.

Definition fat_slice {S} (inner : S) (b : BiosParameterBlock) : DiskSlice S :=
  let sectors_per_fat_ := sectors_per_fat b in
  let '(fat_first_sector, mirrors) :=
    if mirroring_enabled b then (reserved_sectors b, fats b)
    else (wrap 32 (reserved_sectors b + wrap 32 (active_fat b * sectors_per_fat_)), 1) in
  from_sectors fat_first_sector sectors_per_fat_ mirrors b inner.

(** Fallible code on the file system. *)
Definition F (A : Type) : Type := io World unit FsError A.

(** Code on a fresh slice of the FAT, dropped at its end. *)
Definition with_fat {A} (fs : FileSystem) (m : io World (DiskSlice FsIoAdapter) FsError A) : F A :=
  fun s => r ← m (fat_slice (mkAdapter fs) (fs_bpb fs)); mret (s, r.2).

Definition locked {A} (f : st World A) : F A := fun s => r ← atomic f; mret (s, Ok r).
Definition io_from {A} (m : prog World (result A DiskError)) : F A := fun s =>
  r ← m; mret (s, match r with Ok a => Ok a | Err e => Err (Io e) end).
Definition disk_section {A} (m : io InMemoryDisk unit DiskError A) : F A := io_from (with_disk m).

Definition sector_from_cluster (fs : FileSystem) (cluster : Z) : Z :=
  wrap 32 (fs_first_data_sector fs
           + sectors_from_clusters (fs_bpb fs) (wrap 32 (cluster - RESERVED_FAT_ENTRIES))).

Definition offset_from_cluster (fs : FileSystem) (cluster : Z) : Z :=
  bytes_from_sectors (fs_bpb fs) (sector_from_cluster fs cluster).

Definition bytes_from_clusters (fs : FileSystem) (clusters : Z) : Z :=
  bytes_from_sectors (fs_bpb fs) (sectors_from_clusters (fs_bpb fs) clusters).

Definition fs_cluster_size (fs : FileSystem) : Z := cluster_size (fs_bpb fs).

(** ** Clusters *)

(** A chain that ends has at most as many clusters as the volume. *)
Definition chain_fuel (fs : FileSystem) : nat := S (Z.to_nat (fs_total_clusters fs)).

Definition free_chain (fs : FileSystem) (cluster : Z) : F Z :=
  with_fat fs (iter_free (chain_fuel fs) (iter_new (fat_type fs) cluster)).

Definition truncate_cluster_chain (fs : FileSystem) (cluster : Z) : F unit :=
  num_free ← with_fat fs (iter_truncate (chain_fuel fs) (iter_new (fat_type fs) cluster));
  locked (modify (fun w => set_fs_info (map_free_clusters (fun n => wrap 32 (n + num_free)) (fs_info w)) w)).

Definition free_cluster_chain (fs : FileSystem) (cluster : Z) : F unit :=
  num_free ← free_chain fs cluster;
  locked (modify (fun w => set_fs_info (map_free_clusters (fun n => wrap 32 (n + num_free)) (fs_info w)) w)).

(** The loop of [write_zeros], in blocks of 512 bytes. *)
Fixpoint write_zeros_loop (fuel : nat) (n : Z) : io InMemoryDisk unit DiskError unit :=
  match fuel with
  | O => fun _ => fails
  | Datatypes.S fuel' =>
      if 0 <? n then
        let write_size := Z.min n 512 in
        _ ← write_all (zeros (Z.to_nat write_size));
        write_zeros_loop fuel' (n - write_size)
      else mret tt
  end.

Definition write_zeros (n : Z) : io InMemoryDisk unit DiskError unit :=
  write_zeros_loop (Datatypes.S (Z.to_nat n)) n.

Definition fs_alloc_cluster (fs : FileSystem) (prev_cluster : option Z) (zero : bool) : F Z :=
  hint ← locked (gets (fun w => next_free_cluster (fs_info w)));
  cluster ← with_fat fs (alloc_cluster (fat_type fs) prev_cluster hint (fs_total_clusters fs));
  _ ← (if zero then
         disk_section (_ ← seek (Start (offset_from_cluster fs cluster));
                       write_zeros (fs_cluster_size fs))
       else mret tt : F unit);
  _ ← locked (modify (fun w =>
        set_fs_info (map_free_clusters (fun n => wrap 32 (n - 1))
                       (set_next_free_cluster (wrap 32 (cluster + 1)) (fs_info w))) w));
  mret cluster.

Definition read_status_flags (fs : FileSystem) : F FsStatusFlags :=
  let bpb_status := status_flags (fs_bpb fs) in
  fat_status ← with_fat fs (read_fat_flags (fat_type fs));
  mret (mkFlags (dirty bpb_status || dirty fat_status) (io_error bpb_status || io_error fat_status)).

Definition recalc_free_clusters (fs : FileSystem) : F Z :=
  free_cluster_count ← with_fat fs (count_free_clusters (fat_type fs) (fs_total_clusters fs));
  _ ← locked (modify (fun w => set_fs_info (set_free_cluster_count free_cluster_count (fs_info w)) w));
  mret free_cluster_count.

Record FileSystemStats := mkStats { st_cluster_size : Z; st_total_clusters : Z; st_free_clusters : Z }.

Definition stats (fs : FileSystem) : F FileSystemStats :=
  free_clusters_option ← locked (gets (fun w => free_cluster_count (fs_info w)));
  free_clusters ← match free_clusters_option with
                  | Some n => mret n
                  | None => recalc_free_clusters fs
                  end;
  mret (mkStats (fs_cluster_size fs) (fs_total_clusters fs) free_clusters).

(** ** Unmounting *)

(** One critical section on [fs_info] with the one on the disk inside. *)
Definition flush_fs_info (fs : FileSystem) : F unit :=
  let offset_ := bytes_from_sectors (fs_bpb fs) (fs_info_sector (fs_bpb fs)) in
  fun s =>
    r ← atomic (fun w =>
      if bool_decide (fat_type fs = Fat32) && fsi_dirty (fs_info w) then
        match run ((_ ← on_disk (seek (Start offset_)); fs_info_serialize (fs_info w)) tt) (disk w) with
        | Ret (d, (_, Ok _)) =>
            Ret (set_fs_info (mkFsInfo (free_cluster_count (fs_info w)) (next_free_cluster (fs_info w))
                                false) (set_disk d w), Ok tt)
        | Ret (d, (_, Err e)) => Ret (set_disk d w, Err e)
        | Panic => Panic
        end
      else Ret (w, Ok tt));
    mret (s, r).

Definition unmount_internal (fs : FileSystem) : F unit :=
  _ ← flush_fs_info fs;
  io_from (set_dirty_flag fs false).

(** ** Shared metadata of open files *)

Definition get_or_create_metadata (entry_pos : Z) (entry_data : DirFileEntryData) : st World nat :=
  fun w =>
    match metadata_cache w !! entry_pos with
    | Some a => Ret (set_metadata (alter (fun m => mkShared (editor m) (S (strong m))) a (metadata w)) w, a)
    | None =>
        let a := length (metadata w) in
        Ret (set_cache (<[entry_pos := a]> (metadata_cache w))
              (set_metadata (metadata w ++ [mkShared (editor_new entry_data entry_pos) 2]) w), a)
    end.

Definition cleanup_metadata_if_unused (entry_pos : Z) : st World unit := fun w =>
  match metadata_cache w !! entry_pos with
  | Some a =>
      match metadata w !! a with
      | Some m =>
          if (strong m =? 1)%nat
          then Ret (set_cache (delete entry_pos (metadata_cache w))
                      (set_metadata (<[a := mkShared (editor m) 0]> (metadata w)) w), tt)
          else Ret (w, tt)
      | None => Panic
      end
  | None => Ret (w, tt)
  end.

(** ** Formatting *)

Definition write_zeros_until_end_of_sector (bytes_per_sector_ : Z) :
    io InMemoryDisk unit DiskError unit :=
  pos ← seek (Current 0);
  n ← io_pure (if bytes_per_sector_ =? 0 then Panic else Ret (pos mod bytes_per_sector_));
  let total_bytes_to_write := bytes_per_sector_ - n in
  if negb (total_bytes_to_write =? bytes_per_sector_) then write_zeros total_bytes_to_write
  else mret tt.

(** Code on a slice of the FAT of a disk held by its owner. *)
Definition with_raw_fat {A} (b : BiosParameterBlock)
    (m : io InMemoryDisk (DiskSlice unit) FsError A) : D A :=
  fun s => r ← m (fat_slice tt b); mret (s, r.2).

Definition volume_sectors (options : FormatVolumeOptions) : D Z :=
  match o_total_sectors options with
  | Some total_sectors => mret total_sectors
  | None =>
      total_bytes ← on_disk (seek (FromEnd 0));
      total_sectors_64 ← io_pure (udiv total_bytes (o_bytes_per_sector options));
      _ ← on_disk (seek (Start 0));
      if 2 ^ 32 - 1 <? total_sectors_64 then throw InvalidInput else mret total_sectors_64
  end.

(** The information sector and the copy of the boot sector of FAT32. *)
Definition format_fat32_sectors (boot : BootSector) : D unit :=
  let b := bpb boot in
  _ ← on_disk (seek (Start (bytes_from_sectors b (fs_info_sector b))));
  _ ← fs_info_serialize default_fs_info;
  _ ← on_disk (write_zeros_until_end_of_sector (bytes_per_sector b));
  _ ← on_disk (seek (Start (bytes_from_sectors b (backup_boot_sector b))));
  _ ← on_disk (boot_serialize boot);
  on_disk (write_zeros_until_end_of_sector (bytes_per_sector b)).

Definition format_table (b : BiosParameterBlock) (t : FatType) : D unit :=
  let fat_pos := bytes_from_sectors b (reserved_sectors b) in
  _ ← on_disk (seek (Start fat_pos));
  _ ← on_disk (write_zeros (bytes_from_sectors b (sectors_per_all_fats b)));
  n ← io_pure (total_clusters b);
  with_raw_fat b (format_fat t (media b) (bytes_from_sectors b (sectors_per_fat b)) n).

Definition format_root_dir (b : BiosParameterBlock) (t : FatType) (volume_label : option (list Z)) :
    D unit :=
  let root_dir_first_sector := wrap 32 (reserved_sectors b + sectors_per_all_fats b) in
  root_dir_sectors_ ← io_pure (root_dir_sectors b);
  let root_dir_pos := bytes_from_sectors b root_dir_first_sector in
  _ ← on_disk (seek (Start root_dir_pos));
  _ ← on_disk (write_zeros (bytes_from_sectors b root_dir_sectors_));
  _ ← (if decide (t = Fat32) then
         root_dir_first_cluster_ ← with_raw_fat b (alloc_cluster t None None 1);
         _ ← io_pure (assert_true (root_dir_first_cluster_ =? root_dir_first_cluster b));
         let first_data_sector_ :=
           wrap 32 (wrap 32 (reserved_sectors b + sectors_per_all_fats b) + root_dir_sectors_) in
         let data_sectors_before_root_dir :=
           sectors_from_clusters b (wrap 32 (root_dir_first_cluster_ - RESERVED_FAT_ENTRIES)) in
         let fat32_root_dir_first_sector := wrap 32 (first_data_sector_ + data_sectors_before_root_dir) in
         _ ← on_disk (seek (Start (bytes_from_sectors b fat32_root_dir_first_sector)));
         on_disk (write_zeros (cluster_size b))
       else mret tt : D unit);
  match volume_label with
  | Some label =>
      _ ← on_disk (seek (Start root_dir_pos));
      on_disk (entry_serialize (entry_new label VOLUME_ID))
  | None => mret tt
  end.

Definition format_volume (options : FormatVolumeOptions) : D unit :=
  total_sectors ← volume_sectors options;
  r ← (io_res (format_boot_sector options total_sectors) : D (BootSector * FatType));
  let '(boot, t) := r in
  v ← try (io_res (boot_validate true boot) : D unit);
  match v with
  | Err _ => throw InvalidInput
  | Ok _ =>
      _ ← on_disk (boot_serialize boot);
      _ ← on_disk (write_zeros_until_end_of_sector (bytes_per_sector (bpb boot)));
      _ ← (if is_fat32 (bpb boot) then format_fat32_sectors boot else mret tt : D unit);
      _ ← format_table (bpb boot) t;
      _ ← format_root_dir (bpb boot) t (o_volume_label options);
      _ ← on_disk (seek (Start 0));
      mret tt
  end.

End FatFs.
