(* ===== verification/FatFile.v ===== *)
(** * Open files

    Models [awkernel_lib/src/file/fatfs/file.rs] and the parts of
    [dir_entry.rs] that open a file and write its entry back.  A [File] is a
    handle with a position of its own and metadata it shares with the other
    handles of the same file.  The lock of the metadata is held over several
    accesses to the disk; the code of two handles of different files holds
    different locks. *)

From S2P Require Import Prelude Critical Disk FatTime FatBoot FatTable FatEntry FatFs.

Module FatFile.
Import Disk FatTime FatBoot FatTable FatEntry FatFs.
Local Open Scope Z_scope.

Definition MAX_FILE_SIZE : Z := 2 ^ 32 - 1.

Record File := mkFile { f_metadata : option nat; f_offset : Z }.

Definition file_new (metadata : option nat) : File := mkFile metadata 0.

Section file.
Context {TP : Type} `{HTP : TimeProvider TP} (time_provider : TP) (fs : FileSystem).

Definition M (A : Type) : Type := io World File FsError A.

(** Code on the file system inside a method of a file. *)
Definition on_fs {A} (m : F A) : M A := fun f => r ← m tt; mret (f, r.2).
Definition m_panics {A} : M A := fun _ => fails.

(** The editor behind an [Arc]. *)
Definition get_editor (a : nat) : F DirEntryEditor :=
  m ← locked (gets (fun w => metadata w !! a));
  io_pure (unwrap (editor <$> m)).

Definition upd_editor (a : nat) (g : DirEntryEditor -> DirEntryEditor) : F unit :=
  locked (modify (fun w =>
    set_metadata (alter (fun m => mkShared (g (editor m)) (strong m)) a (metadata w)) w)).

(** [self.metadata] of a file that has not been dropped. *)
Definition file_arc : M nat :=
  f ← get;
  match f_metadata f with Some a => mret a | None => m_panics end.

(** ** The entry on the disk *)

Definition editor_write (ed : DirEntryEditor) : F unit :=
  disk_section (_ ← seek (Start (pos ed)); entry_serialize (data_ ed)).

Definition editor_flush (a : nat) : F unit :=
  ed ← get_editor a;
  if dirty_ ed then
    _ ← editor_write ed;
    upd_editor a (fun ed => mkEditor (data_ ed) (pos ed) false)
  else mret tt.

Definition flush_dir_entry : M unit :=
  f ← get;
  match f_metadata f with Some a => on_fs (editor_flush a) | None => mret tt end.

Definition file_flush : M unit :=
  _ ← flush_dir_entry;
  on_fs (disk_section flush).

(** ** Clusters of a file *)

(** [cluster_iter(first).nth(n)] by [n] calls of [next]: the last cluster. *)
Fixpoint skip_clusters (n : nat) (cluster : Z) (it : ClusterIterator) :
    T (W:=World) (S:=DiskSlice FsIoAdapter) (E:=DiskError) Z :=
  match n with
  | O => mret cluster
  | Datatypes.S n' =>
      r ← iter_next it;
      match r.2 with
      | Some (Ok c) => skip_clusters n' c r.1
      | Some (Err e) => throw e
      | None => throw CorruptedFileSystem
      end
  end.

Definition get_current_cluster_with_metadata (offset : Z) (ed : DirEntryEditor) : F (option Z) :=
  if offset =? 0 then mret None else
  match first_cluster (fat_type fs) (data_ ed) with
  | None => throw CorruptedFileSystem
  | Some first =>
      offset_in_clusters ← io_pure (clusters_from_bytes (fs_bpb fs) offset);
      let clusters_to_skip := wrap 32 (offset_in_clusters - 1) in
      c ← with_fat fs (skip_clusters (Z.to_nat clusters_to_skip) first (iter_new (fat_type fs) first));
      mret (Some c)
  end.

(** The cluster after [current], or the first one of the file. *)
Definition next_cluster (current : option Z) (ed : DirEntryEditor) : F (option Z) :=
  match current with
  | None => mret (first_cluster (fat_type fs) (data_ ed))
  | Some n =>
      r ← with_fat fs (iter_next (iter_new (fat_type fs) n));
      match r.2 with
      | Some (Err e) => throw e
      | Some (Ok n) => mret (Some n)
      | None => mret None
      end
  end.

(** [self.offset.is_multiple_of(cluster_size)] and [self.offset % cluster_size] *)
Definition at_boundary (offset : Z) : bool :=
  if fs_cluster_size fs =? 0 then offset =? 0 else offset mod fs_cluster_size fs =? 0.
Definition offset_in_cluster (offset : Z) : outcome Z :=
  if fs_cluster_size fs =? 0 then Panic else Ret (offset mod fs_cluster_size fs).

Definition size : M (option Z) :=
  f ← get;
  match f_metadata f with
  | Some a => ed ← on_fs (get_editor a); mret (entry_size (data_ ed))
  | None => mret None
  end.

(** ** Truncating *)

Definition truncate : M unit :=
  a ← file_arc;
  f ← get;
  on_fs (
    _ ← upd_editor a (ed_set_size (f_offset f));
    _ ← (if f_offset f =? 0 then upd_editor a (ed_set_first_cluster (fat_type fs) None)
         else mret tt : F unit);
    ed ← get_editor a;
    let first := first_cluster (fat_type fs) (data_ ed) in
    current ← get_current_cluster_with_metadata (f_offset f) ed;
    match current with
    | Some current_cluster => truncate_cluster_chain fs current_cluster
    | None => match first with Some n => free_cluster_chain fs n | None => mret tt end
    end).

(** ** Reading *)

Definition set_file_offset (o : Z) : M unit := f ← get; put (mkFile (f_metadata f) o).

Definition file_read (n : nat) : M (list Z) :=
  a ← file_arc;
  f ← get;
  ed ← on_fs (get_editor a);
  current ←
    (if at_boundary (f_offset f) then
       c ← on_fs (get_current_cluster_with_metadata (f_offset f) ed);
       on_fs (next_cluster c ed)
     else on_fs (get_current_cluster_with_metadata (f_offset f) ed) : M (option Z));
  match current with
  | None => mret []
  | Some current_cluster =>
      o ← io_pure (offset_in_cluster (f_offset f));
      let bytes_left_in_cluster := fs_cluster_size fs - o in
      let size := entry_size (data_ ed) in
      if match size with Some s => s <=? f_offset f | None => false end then mret [] else
      let bytes_left_in_file :=
        match size with Some s => s - f_offset f | None => bytes_left_in_cluster end in
      let read_size := Z.min (Z.min (Z.of_nat n) bytes_left_in_cluster) bytes_left_in_file in
      if read_size =? 0 then mret [] else
      let offset_in_fs := wrap 64 (offset_from_cluster fs current_cluster + o) in
      bs ← on_fs (disk_section (_ ← seek (Start offset_in_fs); read (Z.to_nat read_size)));
      if (length bs =? 0)%nat then mret [] else
      _ ← set_file_offset (wrap 32 (f_offset f + len bs));
      _ ← (if update_accessed_date fs
           then on_fs (upd_editor a (ed_set_accessed (get_current_date time_provider)))
           else mret tt : M unit);
      mret bs
  end.

(** ** Writing *)

Definition update_dir_entry_after_write : M unit :=
  f ← get;
  match f_metadata f with
  | Some a =>
      on_fs (upd_editor a (fun ed =>
        let ed := ed_set_modified (get_current_date_time time_provider) ed in
        match entry_size (data_ ed) with
        | Some s => if s <? f_offset f then ed_set_size (f_offset f) ed else ed
        | None => ed
        end))
  | None => mret tt
  end.

(** The cluster to write to, allocated if the file ends before it. *)
Definition cluster_to_write (a : nat) (offset : Z) : F Z :=
  ed ← get_editor a;
  if at_boundary offset then
    current ← get_current_cluster_with_metadata offset ed;
    next ← next_cluster current ed;
    match next with
    | Some n => mret n
    | None =>
        new_cluster ← fs_alloc_cluster fs current (is_dir (data_ ed));
        _ ← upd_editor a (fun ed =>
              match first_cluster (fat_type fs) (data_ ed) with
              | None => ed_set_first_cluster (fat_type fs) (Some new_cluster) ed
              | Some _ => ed
              end);
        mret new_cluster
    end
  else
    c ← get_current_cluster_with_metadata offset ed;
    io_pure (unwrap c).

Definition file_write (buf : list Z) : M nat :=
  f ← get;
  o ← io_pure (offset_in_cluster (f_offset f));
  let bytes_left_in_cluster := fs_cluster_size fs - o in
  let bytes_left_until_max_file_size := MAX_FILE_SIZE - f_offset f in
  let write_size := Z.min (Z.min (len buf) bytes_left_in_cluster) bytes_left_until_max_file_size in
  if write_size =? 0 then mret 0%nat else
  _ ← on_fs (io_from (set_dirty_flag fs true));
  a ← file_arc;
  current_cluster ← on_fs (cluster_to_write a (f_offset f));
  let offset_in_fs := wrap 64 (offset_from_cluster fs current_cluster + o) in
  n ← on_fs (disk_section (_ ← seek (Start offset_in_fs); write (take (Z.to_nat write_size) buf)));
  if (n =? 0)%nat then mret 0%nat else
  _ ← set_file_offset (wrap 32 (f_offset f + Z.of_nat n));
  _ ← update_dir_entry_after_write;
  mret n.

(** ** Seeking *)

(** [checked_add] of two [i64] and [u32::try_from]. *)
Definition checked_u32 (base x : Z) : option Z :=
  let n := base + x in
  if (2 ^ 63 <=? n) || (n <? - 2 ^ 63) then None
  else if (n <? 0) || (2 ^ 32 <=? n) then None else Some n.

(** Walks the chain to the new position: the clusters passed if it ends. *)
Fixpoint walk_clusters (n : nat) (i : Z) (it : ClusterIterator) :
    T (W:=World) (S:=DiskSlice FsIoAdapter) (E:=DiskError) (option Z) :=
  match n with
  | O => mret None
  | Datatypes.S n' =>
      r ← iter_next it;
      match r.2 with
      | None => mret (Some i)
      | Some _ => walk_clusters n' (i + 1) r.1
      end
  end.

(** The position a file is moved to for [new_offset] within its size. *)
Definition reachable_offset (new_offset : Z) (ed : DirEntryEditor) : F Z :=
  match first_cluster (fat_type fs) (data_ ed) with
  | Some first =>
      new_offset_in_clusters ← io_pure (clusters_from_bytes (fs_bpb fs) new_offset);
      if 0 <? new_offset_in_clusters then
        r ← with_fat fs (walk_clusters (Z.to_nat (new_offset_in_clusters - 1)) 0
              (iter_new (fat_type fs) first));
        mret match r with
             | Some i => wrap 32 (bytes_from_clusters fs (wrap 32 (i + 1)))
             | None => new_offset
             end
      else mret new_offset
  | None => mret 0
  end.

Definition file_seek (pos : SeekFrom) : M Z :=
  size_opt ← size;
  f ← get;
  let new_offset_opt :=
    match pos with
    | Current x => checked_u32 (f_offset f) x
    | Start x => if (0 <=? x) && (x <? 2 ^ 32) then Some x else None
    | FromEnd o => s ← size_opt; checked_u32 s o
    end in
  match new_offset_opt with
  | None => throw InvalidInput
  | Some new_offset =>
      let new_offset := match size_opt with Some s => Z.min new_offset s | None => new_offset end in
      new_offset ←
        match (if 0 <? new_offset then f_metadata f else None) with
        | Some a => ed ← on_fs (get_editor a); on_fs (reachable_offset new_offset ed)
        | None => mret new_offset
        end;
      _ ← set_file_offset new_offset;
      mret new_offset
  end.

(** ** Opening and closing *)

(** [to_file] of a directory entry at [entry_pos]. *)
Definition to_file (entry_pos : Z) (data : DirFileEntryData) : F File :=
  _ ← io_pure (assert_true (negb (is_dir data)));
  a ← locked (get_or_create_metadata entry_pos data);
  mret (file_new (Some a)).

(** [Drop]: an error of the flush is only logged. *)
Definition file_drop : M unit :=
  _ ← try file_flush;
  f ← get;
  match f_metadata f with
  | Some a =>
      _ ← put (mkFile None (f_offset f));
      on_fs (
        ed ← get_editor a;
        _ ← locked (modify (fun w =>
              set_metadata (alter (fun m => mkShared (editor m) (pred (strong m))) a (metadata w)) w));
        locked (cleanup_metadata_if_unused (pos ed)))
  | None => mret tt
  end.

(** [Clone] takes another reference to the metadata. *)
Definition file_clone (f : File) : F File :=
  match f_metadata f with
  | Some a =>
      _ ← locked (modify (fun w =>
            set_metadata (alter (fun m => mkShared (editor m) (S (strong m))) a (metadata w)) w));
      mret f
  | None => mret f
  end.

End file.
End FatFile.
