(* ===== verification/FatFsLaws.v ===== *)
(** * What the mounted file system promises

    The mounted disk satisfies [PosLaws], so that the operations on the FAT
    keep the promises of [FatTableLaws] on the slice of a mounted volume, and
    change nothing else than the table and the dirty flag. *)

From S2P Require Import Prelude Critical Disk DiskLaws FatBoot FatTable FatTableLaws FatEntry FatFs.

Module FatFsLaws.
Import Disk DiskLaws FatBoot FatTable FatTableLaws FatEntry FatFs.
Local Open Scope Z_scope.

(** The end of the part of the boot sector the dirty flag is in. *)
Definition HEADER : nat := 66.
Arguments HEADER : simpl never.

Lemma wp_with_disk {A} (m : io InMemoryDisk unit DiskError A) w Q :
  wp (m tt) (fun r d => Q r.2 (set_disk d w)) (disk w) -> wp (with_disk m) Q w.
Proof.
  unfold wp, with_disk, atomic. cbn [run]. destruct (run (m tt) (disk w)) as [[d [[] r]]|]; done.
Qed.

Definition volume_bytes (w : World) : list Z := data (disk w).

(** The state beside the disk and the status flags. *)
Definition rest (w : World) : FsInfoSector * gmap Z nat * list Shared :=
  (fs_info w, metadata_cache w, metadata w).

Definition mounted_ok (w : World) : Prop :=
  disk_ok (disk w) /\ (HEADER <= length (volume_bytes w))%nat.

(** With the rest of the state fixed. *)
Definition mounted (r : FsInfoSector * gmap Z nat * list Shared) (w : World) : Prop :=
  mounted_ok w /\ rest w = r.

Lemma set_dirty_flag_spec fs b w :
  mounted_ok w ->
  wp (set_dirty_flag fs b)
     (fun r w' => r = Ok tt /\ length (volume_bytes w') = length (volume_bytes w) /\
                  drop HEADER (volume_bytes w') = drop HEADER (volume_bytes w) /\
                  rest w' = rest w /\ mounted_ok w') w.
Proof.
  intros [Hd Hl]. unfold set_dirty_flag. apply wp_bind.
  eapply wp_atomic; [done|]. case_decide; [by apply wp_ret|].
  set (o := if decide (fat_type fs = Fat32) then _ else _).
  assert (Ho : 0 <= o /\ o + 1 <= Z.of_nat HEADER) by (unfold o; case_decide; unfold HEADER; lia).
  apply wp_bind, wp_with_disk. unfold volume_bytes in *.
  apply (seek_then (view:=data) (off:=fun _ => position) (J:=fun _ => disk_ok)); [done|unfold len; lia|].
  intros s1 d1 Hd1 Hv1 Ho1. eapply wp_mono.
  { apply (flat_write_all (view:=data) (off:=fun _ => position) (J:=fun _ => disk_ok)); [done|].
    rewrite Ho1, Hv1. unfold len. rewrite length_to_le. lia. }
  intros [s2 r2] d2 (Hr & Hv2 & _ & Hd2). cbn in Hr. subst r2. cbn [snd].
  apply wp_bind. eapply wp_atomic; [done|]. apply wp_ret. rewrite Ho1, Hv1 in Hv2.
  assert (Hlen : length (data d2) = length (data (disk w))).
  { rewrite Hv2. apply length_splice. rewrite length_to_le. lia. }
  unfold mounted_ok, volume_bytes, rest in *. cbn. rewrite Hlen. split_and!; try done.
  apply list_eq. intros i. rewrite !lookup_drop, Hv2.
  rewrite lookup_splice by (rewrite length_to_le; lia).
  rewrite length_to_le. unfold HEADER in *. by rewrite decide_False by lia.
Qed.

#[export] Instance adapter_pos_laws r :
  PosLaws (S:=FsIoAdapter) volume_bytes (fun w => position (disk w)) HEADER (mounted r).
Proof.
  split.
  - intros w [[[Hp Hl] _] _]. unfold volume_bytes. lia.
  - intros p s w [[Hd Hl] Hr] Hp. apply wp_bind, wp_with_disk.
    eapply wp_mono; [by apply (pos_seek (PosLaws:=disk_pos_laws) p tt)|].
    intros r' d (-> & Hb & Hpos & Hd'). apply wp_ret.
    unfold mounted, mounted_ok, volume_bytes, rest in *. cbn. rewrite Hb. by split_and!.
  - intros n s w [[Hd Hl] Hr] Hn. apply wp_bind, wp_with_disk.
    eapply wp_mono; [by apply (pos_read (PosLaws:=disk_pos_laws) n tt)|].
    intros r' d (-> & Hb & Hd'). apply wp_ret.
    unfold mounted, mounted_ok, volume_bytes, rest in *. cbn. rewrite Hb. by split_and!.
  - intros bs s w [[Hd Hl] Hr] Hlo Hn. cbn [write adapter_storage]. apply wp_bind, wp_with_disk.
    eapply wp_mono; [apply (pos_write (PosLaws:=disk_pos_laws) bs tt); [done|lia|done]|].
    intros r' d (-> & Hlen & Hb & Hd'). cbn [snd]. rewrite !drop_0 in Hb.
    assert (Hok : mounted_ok (set_disk d w)).
    { unfold mounted_ok, volume_bytes in *. cbn. by rewrite Hlen. }
    destruct (Nat.ltb_spec 0 (length bs)) as [Hlt|Hge].
    + apply wp_bind. eapply wp_mono; [by apply set_dirty_flag_spec|].
      intros r2 w2 (-> & Hl2 & Hd2 & Hr2 & Hok2). apply wp_ret.
      unfold mounted, volume_bytes in *. cbn in Hl2, Hd2. rewrite Hl2, Hd2, Hb.
      split_and!; try done; [by rewrite <- Hb|by rewrite Hr2].
    + apply wp_ret. unfold mounted, volume_bytes in *. cbn. rewrite Hb. split_and!; try done.
      by rewrite <- Hb.
Qed.

End FatFsLaws.
