(* ===== verification/FatVolume.v ===== *)
(** * Volumes

    A mounted volume whose parts do not overlap: the tables in front, with
    equal copies, and the clusters behind them.  The operations of [FatFs] on
    clusters are specified by the entries of the table, the information
    sector and the bytes of the clusters. *)

From S2P Require Import Prelude Critical Disk DiskLaws FatBoot FatTable FatTableLaws FatChain FatEntry FatFs FatFsLaws.

Module FatVolume.
Import Disk DiskLaws FatBoot FatTable FatTableLaws FatChain FatEntry FatFs FatFsLaws.
Local Open Scope Z_scope.

Section volume.
Context (fs : FileSystem).

Abbreviation t := (fat_type fs).
Abbreviation total := (fs_total_clusters fs).
Abbreviation csize := (fs_cluster_size fs).

Definition slice0 : DiskSlice FsIoAdapter := fat_slice (mkAdapter fs) (fs_bpb fs).
Definition fat_begin : nat := Z.to_nat (begin slice0).
Definition fat_bytes : nat := Z.to_nat (size slice0).
Definition fat_copies : nat := Z.to_nat (mirrors slice0).
Definition fat_end : nat := fat_begin + fat_copies * fat_bytes.

Definition data_begin : Z := fs_first_data_sector fs * bytes_per_sector (fs_bpb fs).

(** The geometry of a volume on a disk of [n] bytes. *)
Record layout_ok (n : Z) : Prop := {
  lo_begin : Z.of_nat HEADER <= begin slice0;
  lo_size : 0 <= size slice0;
  lo_copies : 0 < mirrors slice0;
  lo_order : begin slice0 + mirrors slice0 * size slice0 <= data_begin;
  lo_cluster : 0 < sectors_per_cluster (fs_bpb fs) < 2 ^ 8 /\ 0 < bytes_per_sector (fs_bpb fs) < 2 ^ 16;
  lo_total : 0 < total /\ total + 2 <= entry_values t - 9;
  lo_table : entry_offset t (total + 1) + entry_bytes t <= size slice0;
  lo_data : data_begin + total * csize <= n;
  lo_sectors : 0 <= fs_first_data_sector fs /\
               fs_first_data_sector fs + total * sectors_per_cluster (fs_bpb fs) < 2 ^ 32
}.

(** The FAT, and what follows its last copy. *)
Definition table (w : World) : list Z := slice_view (bytes:=volume_bytes) fat_begin fat_bytes w.
Definition after_fat (w : World) : list Z := drop fat_end (volume_bytes w).

Record volume_ok (w : World) : Prop := {
  vo_layout : layout_ok (len (volume_bytes w));
  vo_mounted : mounted_ok w;
  vo_bytes : bytes_ok (table w);
  vo_copies : forall i, (i < fat_copies)%nat ->
    mirror (bytes:=volume_bytes) fat_begin fat_bytes i w = table w
}.

(** The slice of the FAT over the volume of [w]. *)
Definition fat_stream (w : World) : DiskSlice FsIoAdapter -> World -> Prop :=
  slice_ok (bytes:=volume_bytes) (lo:=HEADER) (I:=mounted (rest w)) fat_begin fat_bytes fat_copies
    (after_fat w).

Lemma csize_spec n : layout_ok n -> csize = sectors_per_cluster (fs_bpb fs) * bytes_per_sector (fs_bpb fs).
Proof. intros []. unfold fs_cluster_size, cluster_size. apply wrap_id. unfold is_uint. nia. Qed.

Lemma csize_pos n : layout_ok n -> 0 < csize.
Proof. intros Hl. rewrite (csize_spec n Hl). destruct Hl. nia. Qed.

Lemma fat_end_data n : layout_ok n -> Z.of_nat fat_end <= data_begin.
Proof. intros []. unfold fat_end, fat_begin, fat_copies, fat_bytes. unfold HEADER in *. nia. Qed.

Lemma slice0_offset : offset slice0 = 0.
Proof. unfold slice0, fat_slice. by destruct (mirroring_enabled (fs_bpb fs)). Qed.

Lemma volume_stream w : volume_ok w -> fat_stream w slice0 w.
Proof.
  intros [Hl Hm Hb Hc]. pose proof (fat_end_data _ Hl) as He. pose proof (csize_pos _ Hl) as Hz.
  destruct Hl as [H1 H2 H3 _ _ H6 _ H8 _]. unfold fat_stream, slice_ok. unfold fat_end in He.
  rewrite slice0_offset. unfold len in *.
  split_and!; try done; unfold fat_begin, fat_bytes, fat_copies, HEADER in *; try lia; nia.
Qed.

Lemma table_length w : volume_ok w -> len (table w) = size slice0.
Proof.
  intros Hv. etrans; [exact (slice_ok_length _ _ _ _ _ _ (volume_stream w Hv))|].
  unfold fat_bytes. destruct Hv as [[]]. lia.
Qed.

Lemma entry_offset_mono a b : 0 <= a <= b -> entry_offset t a <= entry_offset t b.
Proof. intros H. destruct t; cbn; dlia. Qed.

Lemma volume_fits w c : volume_ok w -> 0 <= c < total + 2 -> fits t (table w) c.
Proof.
  intros Hv Hc. pose proof (table_length w Hv) as Hlen. destruct Hv as [Hl _ _ _].
  destruct Hl as [_ _ _ _ _ [_ H6] H7 _ _]. split.
  - assert (entry_values t <= 2 ^ 28) by (destruct t; cbn; lia). lia.
  - pose proof (entry_offset_mono c (total + 1) ltac:(lia)). lia.
Qed.

(** After code on the slice: the volume is still fine. *)
Lemma stream_volume w s w' :
  volume_ok w -> fat_stream w s w' -> bytes_ok (table w') ->
  volume_ok w' /\ rest w' = rest w /\ after_fat w' = after_fat w /\
  length (volume_bytes w') = length (volume_bytes w).
Proof.
  intros Hv (_ & _ & _ & _ & [Hm Hr] & _ & _ & Hlen & Hc & Ht) Hb.
  pose proof (volume_stream w Hv) as (_ & _ & _ & _ & _ & _ & _ & Hlen0 & _).
  assert (Hl : length (volume_bytes w') = length (volume_bytes w)).
  { pose proof (f_equal length Ht) as Hl. unfold after_fat, fat_end in Hl. rewrite !length_drop in Hl. lia. }
  split_and!; try done. split; try done. unfold len. rewrite Hl. apply Hv.
Qed.

(** Code on the FAT of the volume. *)
Lemma wp_with_fat {A} (m : io World (DiskSlice FsIoAdapter) FsError A) w Q :
  wp (m slice0) (fun r w' => Q (tt, r.2) w') w -> wp (with_fat fs m tt) Q w.
Proof. intros H. apply wp_bind. eapply wp_mono; [exact H|]. done. Qed.

(** ** The bytes of clusters *)

Definition cluster_begin (c : Z) : Z := data_begin + (c - 2) * csize.
Definition cluster_data (w : World) (c : Z) : list Z :=
  part (Z.to_nat (cluster_begin c)) (Z.to_nat csize) (volume_bytes w).

Lemma offset_from_cluster_spec n c :
  layout_ok n -> 2 <= c < total + 2 -> offset_from_cluster fs c = cluster_begin c.
Proof.
  intros Hl Hc. pose proof (csize_spec n Hl) as Hz. destruct Hl as [_ _ _ _ [Hs Hbp] _ _ _ [Hf Hsec]].
  unfold offset_from_cluster, sector_from_cluster, bytes_from_sectors, sectors_from_clusters,
    cluster_begin, data_begin, RESERVED_FAT_ENTRIES. rewrite Hz.
  rewrite (wrap_id 32 (c - 2)) by (unfold is_uint; nia).
  rewrite (wrap_id 32 (_ * _)) by (unfold is_uint; nia).
  rewrite (wrap_id 32) by (unfold is_uint; nia). rewrite wrap_id by (unfold is_uint; nia). lia.
Qed.

Lemma cluster_range n c :
  layout_ok n -> 2 <= c < total + 2 ->
  Z.of_nat fat_end <= cluster_begin c /\ cluster_begin c + csize <= n.
Proof.
  intros Hl Hc. pose proof (fat_end_data n Hl). pose proof (csize_pos n Hl).
  destruct Hl. unfold cluster_begin. nia.
Qed.

Lemma length_cluster_data w c :
  volume_ok w -> 2 <= c < total + 2 -> length (cluster_data w c) = Z.to_nat csize.
Proof.
  intros Hv Hc. destruct (cluster_range _ c (vo_layout w Hv) Hc) as [H1 H2].
  pose proof (csize_pos _ (vo_layout w Hv)). apply length_part. unfold len in *. lia.
Qed.

Lemma cluster_data_after w w' c :
  volume_ok w -> after_fat w' = after_fat w -> 2 <= c < total + 2 -> cluster_data w' c = cluster_data w c.
Proof.
  intros Hv Ha Hc. destruct (cluster_range _ c (vo_layout w Hv) Hc) as [H1 _].
  apply (part_above fat_end); [lia|done].
Qed.

(** A volume is its bytes. *)
Lemma volume_same_bytes w w' :
  volume_ok w -> volume_bytes w' = volume_bytes w -> disk_ok (disk w') ->
  volume_ok w' /\ table w' = table w.
Proof.
  intros [Hl [Hm Hh] Hb Hc] He Hd.
  assert (Hmir : forall i, mirror (bytes:=volume_bytes) fat_begin fat_bytes i w' =
                   mirror (bytes:=volume_bytes) fat_begin fat_bytes i w).
  { intros i. unfold mirror. by rewrite He. }
  assert (Ht : table w' = table w) by apply (Hmir 0%nat).
  split; [|done]. split.
  - by rewrite He.
  - split; [done|by rewrite He].
  - by rewrite Ht.
  - intros i Hi. rewrite Hmir, Ht. by apply Hc.
Qed.

(** Bytes written in a cluster. *)
Lemma volume_write w c o bs d :
  volume_ok w -> 2 <= c < total + 2 -> 0 <= o -> o + len bs <= csize -> disk_ok d ->
  data d = splice (Z.to_nat (cluster_begin c + o)) bs (volume_bytes w) ->
  let w' := set_disk d w in
  volume_ok w' /\ table w' = table w /\
  forall c', 2 <= c' < total + 2 ->
    cluster_data w' c' = if decide (c' = c) then splice (Z.to_nat o) bs (cluster_data w c) else cluster_data w c'.
Proof.
  intros Hv Hc Ho Hbs Hd Hdata w'. pose proof Hv as [Hl Hm Hb Hcp].
  destruct (cluster_range _ c Hl Hc) as [H1 H2]. pose proof (csize_pos _ Hl) as Hz.
  pose proof (volume_stream w Hv) as (_ & _ & _ & _ & _ & _ & Hm0 & Hlen0 & _).
  assert (Hin : (Z.to_nat (cluster_begin c + o) + length bs <= length (volume_bytes w))%nat).
  { unfold len in *. lia. }
  assert (Hlen : length (volume_bytes w') = length (volume_bytes w)).
  { unfold volume_bytes, w'. cbn. rewrite Hdata. by apply length_splice. }
  assert (Hmir : forall i, (i < fat_copies)%nat -> mirror (bytes:=volume_bytes) fat_begin fat_bytes i w' =
                                   mirror (bytes:=volume_bytes) fat_begin fat_bytes i w).
  { intros i Hi. unfold mirror, volume_bytes at 1, w'. cbn. rewrite Hdata. apply part_splice_out; [done|].
    right. unfold fat_end in H1. nia. }
  assert (Htab : table w' = table w) by (apply (Hmir 0%nat); lia).
  split_and!; [|done|].
  - split.
    + unfold len. rewrite Hlen. apply Hl.
    + split; [done|]. rewrite Hlen. apply Hm.
    + by rewrite Htab.
    + intros i Hi. rewrite Htab, Hmir by done. by apply Hcp.
  - intros c' Hc'. unfold cluster_data, volume_bytes at 1, w'. cbn. rewrite Hdata.
    destruct (cluster_range _ c' Hl Hc') as [H1' H2']. unfold len in *. case_decide as Heq.
    + subst c'. replace (Z.to_nat (cluster_begin c + o)) with (Z.to_nat (cluster_begin c) + Z.to_nat o)%nat by lia.
      apply part_splice_in; lia.
    + apply part_splice_out; [done|]. unfold cluster_begin in *.
      destruct (decide (c' < c)); [right|left]; nia.
Qed.

#[export] Instance fat_stream_laws w :
  FlatLaws (E:=FsError) table (fun (s : DiskSlice FsIoAdapter) _ => offset s) (fat_stream w).
Proof. apply (slice_flat_laws (I:=mounted (rest w))). Qed.

(** What a call that works on the table leaves alone. *)
Definition same_rest (w w' : World) : Prop :=
  volume_ok w' /\ rest w' = rest w /\ after_fat w' = after_fat w.

Lemma stream_same_rest w s w' :
  volume_ok w -> fat_stream w s w' -> bytes_ok (table w') -> same_rest w w'.
Proof. intros Hv Hs Hb. destruct (stream_volume w s w' Hv Hs Hb) as (? & ? & ? & _). by split_and!. Qed.

Lemma volume_read_fat w c :
  volume_ok w -> 0 <= c < total + 2 ->
  wp (with_fat fs (read_fat t c) tt)
     (fun r w' => r.2 = Ok (decode t c (entry t (table w) c)) /\ table w' = table w /\ same_rest w w') w.
Proof.
  intros Hv Hc. apply wp_with_fat. eapply wp_mono.
  { apply (read_fat_spec (J:=fat_stream w)); [by apply volume_stream|apply Hv|by apply volume_fits]. }
  intros r w' (Hr & Hview & HJ). split_and!; try done. eapply stream_same_rest; try done.
  rewrite Hview. apply Hv.
Qed.

Lemma volume_write_fat w c v :
  volume_ok w -> 0 <= c < total + 2 -> storable t c v ->
  wp (with_fat fs (write_fat t c v) tt)
     (fun r w' => r.2 = Ok tt /\ updated t c (encode t v) (table w) (table w') /\ same_rest w w') w.
Proof.
  intros Hv Hc Hs. apply wp_with_fat. eapply wp_mono.
  { apply (write_fat_spec (J:=fat_stream w)); [by apply volume_stream|apply Hv|by apply volume_fits|done]. }
  intros r w' (Hr & Hu & HJ). split_and!; try done. eapply stream_same_rest; try done. apply Hu.
Qed.

(** ** Allocation *)

(** The hint of the information sector is the number of a cluster. *)
Definition hint_ok (w : World) : Prop :=
  match next_free_cluster (fs_info w) with Some h => 2 <= h | None => True end.

(** The count of the information sector is exact. *)
Definition free_clusters (w : World) : Z := free_count t (table w) 2 (total + 2).
Definition count_ok (w : World) : Prop :=
  match free_cluster_count (fs_info w) with Some n => n = free_clusters w | None => True end.

Lemma volume_alloc w prev hint :
  volume_ok w -> match hint with Some h => 2 <= h | None => True end ->
  match prev with Some p => 2 <= p < total + 2 | None => True end ->
  wp (with_fat fs (alloc_cluster t prev hint total) tt)
     (fun r w' => same_rest w w' /\
        match r.2 with
        | Ok c => first_free t (table w) (search_start hint total) total c /\
                  changed t (linked t prev c) (table w) (table w')
        | Err e => e = NotEnoughSpace /\ used t (table w) 2 (total + 2) /\ table w' = table w
        end) w.
Proof.
  intros Hv Hh Hp. apply wp_with_fat. pose proof (vo_layout w Hv) as [_ _ _ _ _ [H1 H2] _ _ _].
  eapply wp_mono.
  { apply (alloc_cluster_spec (J:=fat_stream w)); try done; [by apply volume_stream|apply Hv|].
    intros c Hc. apply volume_fits; [done|lia]. }
  intros r w' (Hr & HJ). split; [|done]. eapply stream_same_rest; try done.
  destruct (r.2) as [c|e]; [by destruct Hr as [_ (_ & ? & _)]|]. destruct Hr as (_ & _ & ->). apply Hv.
Qed.

Lemma volume_count w :
  volume_ok w ->
  wp (with_fat fs (count_free_clusters t total) tt)
     (fun r w' => r.2 = Ok (free_clusters w) /\ table w' = table w /\ same_rest w w') w.
Proof.
  intros Hv. apply wp_with_fat. pose proof (vo_layout w Hv) as [_ _ _ _ _ [H1 H2] _ _ _].
  assert (entry_values t <= 2 ^ 28) by (destruct t; cbn; lia). eapply wp_mono.
  { apply (count_free_spec (J:=fat_stream w)); try done; [by apply volume_stream|apply Hv|lia|].
    intros c Hc. apply volume_fits; [done|lia]. }
  intros r w' (Hr & Hview & HJ). split_and!; try done. eapply stream_same_rest; try done.
  rewrite Hview. apply Hv.
Qed.

(** A chain of clusters of the volume that are in use. *)
Definition own_chain (w : World) (c : Z) (cs : list Z) : Prop :=
  chain t (table w) c cs /\
  forall c', c' ∈ cs -> 2 <= c' < total + 2 /\ entry t (table w) c' <> 0.

Lemma no_special c w : volume_ok w -> c < total + 2 -> t = Fat32 -> special_cluster c = false.
Proof.
  intros Hv Hc Ht. pose proof (vo_layout w Hv) as [_ _ _ _ _ [_ H] _ _ _]. rewrite Ht in H. cbn in H.
  unfold special_cluster, in_range. apply andb_false_iff. left. apply Z.leb_gt. lia.
Qed.

Lemma own_chain_fits w c cs :
  volume_ok w -> own_chain w c cs ->
  forall c', c' ∈ cs -> fits t (table w) c' /\ (t = Fat32 -> special_cluster c' = false).
Proof.
  intros Hv [_ Hin] c' Hc'. destruct (Hin c' Hc') as [Hr _]. split; [apply volume_fits; [done|lia]|].
  eapply no_special; [done|lia].
Qed.

Lemma own_chain_length w c cs :
  volume_ok w -> own_chain w c cs -> Z.of_nat (length cs) <= total.
Proof.
  intros Hv [Hc Hin]. pose proof (vo_layout w Hv) as [_ _ _ _ _ [H1 _] _ _ _].
  assert (Hle : (length cs <= length (seqZ 2 total))%nat).
  { apply submseteq_length, NoDup_submseteq; [by eapply chain_NoDup|].
    intros c' [Hr _]%Hin. apply elem_of_seqZ. lia. }
  rewrite length_seqZ in Hle. lia.
Qed.

Lemma volume_free w c cs :
  volume_ok w -> own_chain w c cs ->
  wp (free_chain fs c tt)
     (fun r w' => r.2 = Ok (Z.of_nat (length cs)) /\
                  changed t (freeing cs) (table w) (table w') /\ same_rest w w') w.
Proof.
  intros Hv Hc. apply wp_with_fat. pose proof (own_chain_length w c cs Hv Hc) as Hlen.
  pose proof (vo_layout w Hv) as [_ _ _ _ _ [H1 H2] _ _ _].
  assert (entry_values t <= 2 ^ 28) by (destruct t; cbn; lia). eapply wp_mono.
  { apply (iter_free_spec (J:=fat_stream w) t _ c cs); [by apply volume_stream|apply Hv|apply Hc| | |lia].
    - by eapply own_chain_fits.
    - unfold chain_fuel. lia. }
  intros r w' (Hr & Hch & HJ). split_and!; try done. eapply stream_same_rest; try done. apply Hch.
Qed.

Lemma volume_truncate w c cs :
  volume_ok w -> own_chain w c (c :: cs) ->
  wp (with_fat fs (iter_truncate (chain_fuel fs) (iter_new t c)) tt)
     (fun r w' => r.2 = Ok (Z.of_nat (length cs)) /\
        changed t (then_ (at_cluster c (encode t EndOfChain)) (freeing cs)) (table w) (table w') /\
        same_rest w w') w.
Proof.
  intros Hv Hc. apply wp_with_fat. pose proof (own_chain_length w c _ Hv Hc) as Hlen. simpl in Hlen.
  pose proof (vo_layout w Hv) as [_ _ _ _ _ [H1 H2] _ _ _].
  assert (entry_values t <= 2 ^ 28) by (destruct t; cbn; lia). eapply wp_mono.
  { apply (iter_truncate_spec (J:=fat_stream w) t _ c cs); [by apply volume_stream|apply Hv|apply Hc| | |lia].
    - by eapply own_chain_fits.
    - unfold chain_fuel. lia. }
  intros r w' (Hr & Hch & HJ). split_and!; try done. eapply stream_same_rest; try done. apply Hch.
Qed.

End volume.
End FatVolume.
