(* ===== verification/FatAlloc.v ===== *)
(** * Clusters of a mounted volume

    Allocation with the information sector and the zeroing of new clusters,
    the release of chains, and the exactness of the count of free clusters. *)

From S2P Require Import Prelude Critical Disk DiskLaws FatBoot FatTable FatTableLaws FatChain FatEntry FatFs FatFsLaws FatVolume.

Module FatAlloc.
Import Disk DiskLaws FatBoot FatTable FatTableLaws FatChain FatEntry FatFs FatFsLaws FatVolume.
Local Open Scope Z_scope.

(** ** Zeros *)

Lemma splice_app a b1 b2 l :
  (a + length b1 + length b2 <= length l)%nat ->
  splice (a + length b1) b2 (splice a b1 l) = splice a (b1 ++ b2) l.
Proof.
  intros H. apply list_eq. intros i.
  rewrite !lookup_splice by (rewrite ?length_splice, ?length_app; lia). rewrite length_app.
  repeat case_decide; try done; try lia.
  - rewrite lookup_app_r by lia. f_equal. lia.
  - by rewrite lookup_app_l by lia.
Qed.

Lemma write_zeros_loop_spec fuel n d :
  disk_ok d -> 0 <= n -> (Z.to_nat n < fuel)%nat -> position d + n <= len (data d) ->
  wp (write_zeros_loop fuel n tt)
     (fun r d' => r.2 = Ok tt /\ disk_ok d' /\
        data d' = splice (Z.to_nat (position d)) (zeros (Z.to_nat n)) (data d)) d.
Proof.
  revert n d. induction fuel as [|fuel IH]; intros n d Hd Hn Hfu Hlen; [lia|].
  cbn [write_zeros_loop]. destruct (Z.ltb_spec 0 n) as [Hpos|Hz].
  2: { apply wp_ret. cbn. replace (Z.to_nat n) with 0%nat by lia. by rewrite splice_nil. }
  set (k := Z.min n 512). assert (Hk : 0 < k <= n) by lia.
  apply wp_io_bind. eapply wp_mono.
  { apply (flat_write_all (view:=data) (off:=fun _ => position) (J:=fun _ => disk_ok)); [done|].
    unfold len, zeros in *. rewrite length_replicate. lia. }
  intros [[] r1] d1 (Hr1 & Hd1 & Ho1 & Hok1). cbn in Hr1. subst r1. cbn [fst snd] in *.
  unfold len in Ho1. unfold zeros in Ho1. rewrite length_replicate, Z2Nat.id in Ho1 by lia.
  assert (Hl1 : length (data d1) = length (data d)).
  { rewrite Hd1. destruct Hd as [Hp _]. apply length_splice. unfold zeros, len in *. rewrite length_replicate. lia. }
  eapply wp_mono; [apply IH; [done|lia|lia|unfold len in *; lia]|].
  intros r2 d2 (Hr2 & Hok2 & Hd2). split_and!; try done. rewrite Hd2, Hd1, Ho1.
  destruct Hd as [Hp _]. unfold len in *.
  replace (Z.to_nat (position d + k)) with (Z.to_nat (position d) + length (zeros (Z.to_nat k)))%nat
    by (unfold zeros; rewrite length_replicate; lia).
  rewrite splice_app by (unfold zeros; rewrite !length_replicate; lia).
  unfold zeros. rewrite <- replicate_add. do 2 f_equal. lia.
Qed.

Lemma write_zeros_spec n d :
  disk_ok d -> 0 <= n -> position d + n <= len (data d) ->
  wp (write_zeros n tt)
     (fun r d' => r.2 = Ok tt /\ disk_ok d' /\
        data d' = splice (Z.to_nat (position d)) (zeros (Z.to_nat n)) (data d)) d.
Proof. intros. apply write_zeros_loop_spec; try done; lia. Qed.

Section alloc.
Context (fs : FileSystem).

Abbreviation t := (fat_type fs).
Abbreviation total := (fs_total_clusters fs).
Abbreviation csize := (fs_cluster_size fs).

(** ** Access to a cluster *)

(** Code that seeks to [o] in cluster [c] and then writes [bs]. *)
Lemma cluster_section_write {A} (m : io InMemoryDisk unit DiskError A) (a : A) w c o bs :
  volume_ok fs w -> 2 <= c < total + 2 -> 0 <= o -> o + len bs <= csize ->
  (forall d, disk_ok d -> data d = volume_bytes w -> position d = cluster_begin fs c + o ->
     wp (m tt) (fun r d' => r.2 = Ok a /\ disk_ok d' /\
                            data d' = splice (Z.to_nat (position d)) bs (data d)) d) ->
  wp (disk_section (_ ← seek (Start (cluster_begin fs c + o)); m) tt)
     (fun r w' => r.2 = Ok a /\ volume_ok fs w' /\ table fs w' = table fs w /\ rest w' = rest w /\
        forall c', 2 <= c' < total + 2 ->
          cluster_data fs w' c' =
            if decide (c' = c) then splice (Z.to_nat o) bs (cluster_data fs w c)
            else cluster_data fs w c') w.
Proof.
  intros Hv Hc Ho Hbs Hm. pose proof (vo_layout fs w Hv) as Hl.
  destruct (cluster_range fs _ c Hl Hc) as [H1 H2]. destruct (vo_mounted fs w Hv) as [Hd _].
  apply wp_bind, wp_with_disk.
  apply (seek_then (view:=data) (off:=fun _ => position) (J:=fun _ => disk_ok)); [done|unfold len, volume_bytes in *; lia|].
  intros [] d1 Hd1 Hv1 Ho1. eapply wp_mono; [by apply Hm|].
  intros [[] r] d2 (Hr & Hd2 & Hdata). cbn in Hr. subst r. apply wp_ret. cbn [snd].
  rewrite Ho1, Hv1 in Hdata.
  destruct (volume_write fs w c o bs d2 Hv Hc Ho Hbs Hd2 Hdata) as (Hv2 & Ht2 & Hc2).
  by split_and!.
Qed.

(** Reading [n] bytes at [o] in cluster [c]. *)
Lemma cluster_section_read w c o n :
  volume_ok fs w -> 2 <= c < total + 2 -> 0 <= o -> o + Z.of_nat n <= csize ->
  wp (disk_section (_ ← seek (Start (cluster_begin fs c + o)); read n) tt)
     (fun r w' => r.2 = Ok (part (Z.to_nat o) n (cluster_data fs w c)) /\
        volume_ok fs w' /\ table fs w' = table fs w /\ rest w' = rest w /\
        volume_bytes w' = volume_bytes w) w.
Proof.
  intros Hv Hc Ho Hn. pose proof (vo_layout fs w Hv) as Hl.
  destruct (cluster_range fs _ c Hl Hc) as [H1 H2]. destruct (vo_mounted fs w Hv) as [Hd Hh].
  apply wp_bind, wp_with_disk.
  apply (seek_then (view:=data) (off:=fun _ => position) (J:=fun _ => disk_ok)); [done|unfold len, volume_bytes in *; lia|].
  intros [] d1 Hd1 Hv1 Ho1.
  eapply wp_mono; [apply (flat_read (view:=data) (off:=fun _ => position) (J:=fun _ => disk_ok)); [done|]|].
  { rewrite Ho1, Hv1. unfold len, volume_bytes in *. lia. }
  intros [[] r] d2 (Hr & Hv2 & _ & Hd2). cbn in Hr. subst r. apply wp_ret. cbn [snd].
  rewrite Ho1, Hv1. rewrite Hv1 in Hv2.
  destruct (volume_same_bytes fs w (set_disk d2 w) Hv Hv2 Hd2) as [Hv' Ht'].
  split_and!; try done. f_equal. unfold cluster_data. rewrite part_part by lia.
  unfold volume_bytes. f_equal. pose proof (csize_pos fs _ Hl). lia.
Qed.

Lemma cluster_section_zeros w c :
  volume_ok fs w -> 2 <= c < total + 2 ->
  wp (disk_section (_ ← seek (Start (offset_from_cluster fs c)); write_zeros csize) tt)
     (fun r w' => r.2 = Ok tt /\ volume_ok fs w' /\ table fs w' = table fs w /\ rest w' = rest w /\
        forall c', 2 <= c' < total + 2 ->
          cluster_data fs w' c' = if decide (c' = c) then zeros (Z.to_nat csize) else cluster_data fs w c') w.
Proof.
  intros Hv Hc. pose proof (vo_layout fs w Hv) as Hl. pose proof (csize_pos fs _ Hl) as Hz.
  rewrite (offset_from_cluster_spec fs _ c Hl Hc).
  destruct (cluster_range fs _ c Hl Hc) as [H1 H2].
  assert (Hlz : len (zeros (Z.to_nat csize)) = csize) by (unfold len, zeros; rewrite length_replicate; lia).
  replace (cluster_begin fs c) with (cluster_begin fs c + 0) at 1 by lia.
  eapply wp_mono; [apply (cluster_section_write _ tt _ c 0 (zeros (Z.to_nat csize)) Hv Hc); [lia|lia|]|].
  - intros d Hd Hdata Hp. apply write_zeros_spec; [done|lia|]. rewrite Hp, Hdata. lia.
  - intros r w' (Hr & Hv' & Ht & Hrest & Hcl). split_and!; try done. intros c' Hc'. rewrite Hcl by done.
    case_decide; [|done]. unfold splice. cbn [Z.to_nat take app]. rewrite drop_ge, app_nil_r; [done|].
    rewrite length_cluster_data by done. unfold zeros. rewrite length_replicate. lia.
Qed.

(** ** Allocation *)

Lemma volume_ok_info w i : volume_ok fs w -> volume_ok fs (set_fs_info i w).
Proof. intros Hv. by apply (volume_same_bytes fs w); [|done|apply Hv]. Qed.

Lemma wp_locked {A} (f : st World A) w w' a Q :
  f w = Ret (w', a) -> Q (tt, Ok a) w' -> wp (locked f tt) Q w.
Proof. intros Hf HQ. apply wp_bind. by eapply wp_atomic. Qed.

(** What an allocation leaves: the state of the open files, and the bytes of
    the clusters but for a zeroed one. *)
Definition alloc_post (prev : option Z) (zero : bool) (w : World) (r : unit * result Z FsError)
    (w' : World) : Prop :=
  volume_ok fs w' /\ metadata w' = metadata w /\ metadata_cache w' = metadata_cache w /\
  match r.2 with
  | Ok c =>
      first_free t (table fs w) (search_start (next_free_cluster (fs_info w)) total) total c /\
      changed t (linked t prev c) (table fs w) (table fs w') /\
      next_free_cluster (fs_info w') = Some (c + 1) /\
      free_cluster_count (fs_info w') = (fun n => wrap 32 (n - 1)) <$> free_cluster_count (fs_info w) /\
      forall c', 2 <= c' < total + 2 ->
        cluster_data fs w' c' =
          if zero && bool_decide (c' = c) then zeros (Z.to_nat csize) else cluster_data fs w c'
  | Err e =>
      e = NotEnoughSpace /\ used t (table fs w) 2 (total + 2) /\ table fs w' = table fs w /\
      fs_info w' = fs_info w /\
      forall c', 2 <= c' < total + 2 -> cluster_data fs w' c' = cluster_data fs w c'
  end.

Lemma fs_alloc_cluster_spec prev zero w :
  volume_ok fs w -> hint_ok w ->
  match prev with Some p => 2 <= p < total + 2 | None => True end ->
  wp (fs_alloc_cluster fs prev zero tt) (alloc_post prev zero w) w.
Proof.
  intros Hv Hh Hp. unfold fs_alloc_cluster. apply wp_io_bind. eapply wp_locked; [done|]. cbn [fst snd].
  apply wp_io_bind. eapply wp_mono; [by apply volume_alloc|].
  intros [[] [c|e]] w1 ((Hv1 & Hr1 & Ha1) & Hres); cbn [fst snd] in *; injection Hr1 as Hi1 Hc1 Hm1.
  2: { destruct Hres as (-> & Hu & Ht). unfold alloc_post. cbn [snd]. split_and!; try done. intros c' Hc'. by apply cluster_data_after. }
  destruct Hres as [Hff Hch]. pose proof Hff as (Hc & _). pose proof (vo_layout fs w Hv) as [_ _ _ _ _ [_ H2] _ _ _].
  assert (entry_values t <= 2 ^ 28) by (destruct t; cbn; lia).
  assert (Hfin : forall w2 : World, volume_ok fs w2 -> table fs w2 = table fs w1 -> rest w2 = rest w1 ->
    (forall c', 2 <= c' < total + 2 -> cluster_data fs w2 c' =
       if zero && bool_decide (c' = c) then zeros (Z.to_nat csize) else cluster_data fs w c') ->
    wp ((_ ← locked (modify (fun w => set_fs_info (map_free_clusters (fun n => wrap 32 (n - 1))
          (set_next_free_cluster (wrap 32 (c + 1)) (fs_info w))) w)); mret c : F Z) tt) (alloc_post prev zero w) w2).
  { intros w2 Hv2 Ht2 Hr2 Hd2. injection Hr2 as Hi2 Hc2 Hm2. apply wp_io_bind. eapply wp_locked; [done|].
    apply wp_ret. unfold alloc_post. cbn [fst snd]. split; [by apply volume_ok_info|].
    split; [cbn; congruence|]. split; [cbn; congruence|]. unfold table, slice_view in *. rewrite <- Ht2 in Hch. cbn [fs_info set_fs_info].
    rewrite Hi2, Hi1. split_and!; try done.
    - unfold map_free_clusters. cbn [free_cluster_count set_next_free_cluster].
      rewrite (wrap_id 32 (c + 1)) by (unfold is_uint; lia). by destruct (free_cluster_count (fs_info w)).
    - unfold map_free_clusters. cbn. destruct (free_cluster_count (fs_info w)) eqn:Hfc; [reflexivity|exact Hfc]. }
  destruct zero.
  - apply wp_io_bind. eapply wp_mono; [by apply cluster_section_zeros|].
    intros [[] r2] w2 (Hr2 & Hv2 & Ht2 & Hrest2 & Hd2). cbn in Hr2. subst r2. apply Hfin; try done.
    intros c' Hc'. rewrite Hd2 by done. cbn. case_decide; [by rewrite bool_decide_true|].
    rewrite bool_decide_false by done. by apply cluster_data_after.
  - apply wp_io_bind, wp_ret. apply Hfin; try done. intros c' Hc'. by apply cluster_data_after.
Qed.

(** The count stays exact if the cluster before is in use. *)
Lemma alloc_count prev c w w' :
  volume_ok fs w -> first_free t (table fs w) (search_start (next_free_cluster (fs_info w)) total) total c ->
  changed t (linked t prev c) (table fs w) (table fs w') ->
  match prev with Some p => 2 <= p < total + 2 /\ entry t (table fs w) p <> 0 | None => True end ->
  free_clusters fs w' = free_clusters fs w - 1.
Proof.
  intros Hv (Hc & H0 & _) (_ & _ & He) Hp. unfold free_clusters, free_count.
  assert (Hf : forall c', 2 <= c' < total + 2 -> fits t (table fs w) c').
  { intros c' Hc'. apply volume_fits; [done|lia]. }
  assert (Hneq : forall p, prev = Some p -> p <> c) by (intros p -> ->; by destruct Hp).
  assert (Hu : entry t (table fs w') c <> 0).
  { destruct (He c (Hf c Hc)) as [-> _]. unfold linked, then_, at_cluster.
    destruct prev as [p|]; [rewrite (decide_False (P:=c = p)) by (intros ->; by apply (Hneq p))|];
      rewrite decide_True by done; cbn; destruct t; cbn; lia. }
  rewrite (zero_count_change (entry t (table fs w')) (entry t (table fs w)) 2 (total + 2) c); try done; [lia|].
  intros c' Hc' Hne. destruct (He c' (Hf c' Hc')) as [-> _]. unfold linked, then_, at_cluster.
  destruct prev as [p|]; [destruct (decide (c' = p)) as [->|]|]; rewrite ?(decide_False (P:=_ = c)) by done; cbn; try done.
  destruct Hp as [_ Hpu]. split; [done|]. lia.
Qed.

(** ** Release *)

Lemma freed_count cs w w' f :
  volume_ok fs w -> NoDup cs -> changed t f (table fs w) (table fs w') ->
  (forall c, c ∈ cs -> 2 <= c < total + 2 /\ entry t (table fs w) c <> 0 /\ f c = Some 0) ->
  (forall c, c ∉ cs -> match f c with Some v => v <> 0 /\ entry t (table fs w) c <> 0 | None => True end) ->
  free_clusters fs w' = free_clusters fs w + Z.of_nat (length cs).
Proof.
  intros Hv Hnd (_ & _ & He) Hin Hout. apply zero_count_freed; [done|..].
  - intros c Hc. destruct (Hin c Hc) as (Hr & Hu & Hf). split_and!; try done; try lia.
    destruct (He c) as [-> _]; [apply volume_fits; [done|lia]|]. by rewrite Hf.
  - intros c Hc Hn. destruct (He c) as [-> _]; [apply volume_fits; [done|lia]|].
    specialize (Hout c Hn). destruct (f c); cbn; [|done]. tauto.
Qed.

(** What releasing [cs] leaves. *)
Definition free_post (f : Z -> option Z) (n : nat) (w : World) (r : unit * result unit FsError)
    (w' : World) : Prop :=
  r.2 = Ok tt /\ volume_ok fs w' /\ metadata w' = metadata w /\ metadata_cache w' = metadata_cache w /\
  changed t f (table fs w) (table fs w') /\
  next_free_cluster (fs_info w') = next_free_cluster (fs_info w) /\
  free_cluster_count (fs_info w') =
    (fun k => wrap 32 (k + Z.of_nat n)) <$> free_cluster_count (fs_info w) /\
  free_clusters fs w' = free_clusters fs w + Z.of_nat n /\
  forall c, 2 <= c < total + 2 -> cluster_data fs w' c = cluster_data fs w c.

Lemma release_info f n w w1 Q :
  volume_ok fs w -> same_rest fs w w1 -> changed t f (table fs w) (table fs w1) ->
  free_clusters fs w1 = free_clusters fs w + Z.of_nat n ->
  (forall r w', free_post f n w r w' -> Q r w') ->
  wp (locked (modify (fun w => set_fs_info (map_free_clusters (fun k => wrap 32 (k + Z.of_nat n)) (fs_info w)) w)) tt)
     Q w1.
Proof.
  intros Hv (Hv1 & Hr1 & Ha1) Hch Hn HQ. injection Hr1 as Hi1 Hc1 Hm1. eapply wp_locked; [done|].
  apply HQ. split_and!; try done; [by apply volume_ok_info| | |].
  - cbn. unfold map_free_clusters. rewrite Hi1. by destruct (free_cluster_count (fs_info w)).
  - cbn. unfold map_free_clusters. rewrite Hi1. by destruct (free_cluster_count (fs_info w)) eqn:?.
  - intros c Hc. by apply (cluster_data_after fs w).
Qed.

Lemma free_cluster_chain_spec c cs w :
  volume_ok fs w -> own_chain fs w c cs ->
  wp (free_cluster_chain fs c tt) (free_post (freeing cs) (length cs) w) w.
Proof.
  intros Hv Hc. pose proof Hc as [Hch Hin]. unfold free_cluster_chain. apply wp_io_bind.
  eapply wp_mono; [by apply (volume_free fs w c cs)|].
  intros [[] r1] w1 (Hr1 & Hch1 & Hs1). cbn in Hr1. subst r1. cbn [fst snd].
  eapply (release_info (freeing cs)); try done. eapply freed_count; try done; [by eapply chain_NoDup| |].
  - intros c' Hc'. destruct (Hin c' Hc') as [? ?]. unfold freeing. rewrite decide_True by done. done.
  - intros c' Hc'. unfold freeing. by rewrite decide_False.
Qed.

Lemma truncate_cluster_chain_spec c cs w :
  volume_ok fs w -> own_chain fs w c (c :: cs) ->
  wp (truncate_cluster_chain fs c tt)
     (free_post (then_ (at_cluster c (encode t EndOfChain)) (freeing cs)) (length cs) w) w.
Proof.
  intros Hv Hc. pose proof Hc as [Hch Hin]. unfold truncate_cluster_chain. apply wp_io_bind.
  eapply wp_mono; [by apply (volume_truncate fs w c cs)|].
  intros [[] r1] w1 (Hr1 & Hch1 & Hs1). cbn in Hr1. subst r1. cbn [fst snd].
  pose proof (chain_NoDup _ _ _ _ Hch) as [Hn Hnd]%NoDup_cons.
  eapply release_info; try done. eapply (freed_count cs); try done.
  - intros c' Hc'. destruct (Hin c' ltac:(by right)) as [? ?]. unfold then_, freeing.
    rewrite decide_True by done. done.
  - intros c' Hc'. unfold then_, freeing, at_cluster. rewrite decide_False by done.
    case_decide as Heq; [|done]. subst c'. destruct (Hin c ltac:(by left)) as [_ ?]. split; [|done].
    destruct t; cbn; lia.
Qed.

End alloc.
End FatAlloc.
