(* ===== verification/FatFileLaws.v ===== *)
(** * What open files promise

    The bytes of a file are those of the clusters of its chain, up to its
    size; reading and writing through a handle reads and changes them, within
    one cluster per call. *)

From S2P Require Import Prelude Critical Disk DiskLaws FatTime FatBoot FatTable FatTableLaws FatChain FatEntry FatFs FatFsLaws FatVolume FatAlloc FatFile.

Module FatFileLaws.
Import Disk DiskLaws FatTime FatBoot FatTable FatTableLaws FatChain FatEntry FatFs FatFsLaws FatVolume
  FatAlloc FatFile.
Local Open Scope Z_scope.

(** ** Blocks of equal size *)

Lemma lookup_blocks z (ls : list (list Z)) i j :
  (forall l, l ∈ ls -> length l = z) -> (j < z)%nat ->
  concat ls !! (i * z + j)%nat = ls !! i ≫= (fun l => l !! j).
Proof.
  intros Hz Hj. revert i. induction ls as [|l ls IH]; intros i; [by destruct i|].
  assert (Hl : length l = z) by (apply Hz; left). cbn [concat]. destruct i as [|i].
  - rewrite lookup_app_l by lia. done.
  - rewrite lookup_app_r by lia. replace (S i * z + j - length l)%nat with (i * z + j)%nat by lia.
    apply IH. intros l' Hl'. apply Hz. by right.
Qed.

Lemma length_blocks z (ls : list (list Z)) :
  (forall l, l ∈ ls -> length l = z) -> length (concat ls) = (length ls * z)%nat.
Proof.
  intros Hz. induction ls as [|l ls IH]; [done|]. cbn [concat length]. rewrite length_app, IH.
  - rewrite (Hz l) by left. lia.
  - intros l' Hl'. apply Hz. by right.
Qed.

(** An index is in a block at an offset. *)
Lemma lookup_blocks_div z (ls : list (list Z)) n :
  (0 < z)%nat -> (forall l, l ∈ ls -> length l = z) ->
  concat ls !! n = ls !! (n / z)%nat ≫= (fun l => l !! (n mod z)%nat).
Proof.
  intros Hz Hl. rewrite <- (lookup_blocks z) by (done || apply Nat.mod_upper_bound; lia).
  f_equal. pose proof (Nat.div_mod n z ltac:(lia)). lia.
Qed.

(** A position is in the block of its quotient. *)
Lemma div_mod_nat o z :
  0 <= o -> 0 < z -> (Z.to_nat (o / z) * Z.to_nat z + Z.to_nat (o mod z))%nat = Z.to_nat o.
Proof.
  intros Ho Hz. pose proof (Z.div_mod o z ltac:(lia)) as Hdm. pose proof (Z.mod_pos_bound o z ltac:(lia)).
  pose proof (Z.div_pos o z ltac:(lia) ltac:(lia)). nia.
Qed.

Lemma part_blocks z (ls : list (list Z)) i l r k :
  (forall l, l ∈ ls -> length l = z) -> ls !! i = Some l -> (r + k <= z)%nat ->
  part (i * z + r) k (concat ls) = part r k l.
Proof.
  intros Hz Hl Hk. apply list_eq. intros j. rewrite !lookup_part. case_decide; [|done].
  rewrite <- Nat.add_assoc, (lookup_blocks z) by (done || lia). by rewrite Hl.
Qed.

Lemma splice_blocks z (ls : list (list Z)) i l r bs :
  (0 < z)%nat -> (forall l, l ∈ ls -> length l = z) -> ls !! i = Some l -> (r + length bs <= z)%nat ->
  splice (i * z + r) bs (concat ls) = concat (<[i := splice r bs l]> ls).
Proof.
  intros Hz Hls Hl Hbs. assert (Hi : (i < length ls)%nat) by (by eapply lookup_lt_Some).
  assert (Hll : length l = z) by (apply Hls; by eapply list_elem_of_lookup_2).
  assert (Hls' : forall l', l' ∈ <[i := splice r bs l]> ls -> length l' = z).
  { intros l' (j & Hj)%list_elem_of_lookup_1. destruct (decide (j = i)) as [->|Hne].
    - rewrite list_lookup_insert_eq in Hj by done. injection Hj as <-. rewrite length_splice; lia.
    - rewrite list_lookup_insert_ne in Hj by done. apply Hls. by eapply list_elem_of_lookup_2. }
  apply list_eq. intros n.
  assert (Hlen : (i * z + r + length bs <= length (concat ls))%nat).
  { rewrite (length_blocks z) by done. nia. }
  rewrite lookup_splice by done. rewrite !(lookup_blocks_div z) by done.
  pose proof (Nat.div_mod n z ltac:(lia)) as Hdm. pose proof (Nat.mod_upper_bound n z ltac:(lia)) as Hmb.
  destruct (decide (n / z = i)%nat) as [He|Hne].
  - rewrite He, list_lookup_insert_eq, Hl by done. cbn. rewrite lookup_splice by lia.
    rewrite He in Hdm. repeat case_decide; try lia; [|done]. f_equal. lia.
  - rewrite list_lookup_insert_ne by done. rewrite decide_False; [done|]. nia.
Qed.

(** ** Walking a chain *)

Section walk.
Context {view : World -> list Z} {off : DiskSlice FsIoAdapter -> World -> Z}
  {J : DiskSlice FsIoAdapter -> World -> Prop} `{HF : !FlatLaws (E:=FsError) view off J}.

(** The cluster after the [i]th one of a chain. *)
Lemma chain_link t l c cs i c' :
  chain t l c cs -> cs !! i = Some c' -> link t l c' = cs !! S i.
Proof.
  intros Hc. revert i. induction Hc as [c He|c n cs Hl Hc IH]; intros i Hi.
  - destruct i; [injection Hi as <-; done|done].
  - destruct i; [|by apply IH]. injection Hi as <-. rewrite Hl.
    destruct (chain_head _ _ _ _ Hc) as [cs' ->]. done.
Qed.

Lemma skip_clusters_spec t c cs n c' i c0 s w :
  J s w -> bytes_ok (view w) -> chain t (view w) c cs ->
  (forall c', c' ∈ cs -> fits t (view w) c') -> cs !! i = Some c0 -> cs !! (i + n)%nat = Some c' ->
  wp (skip_clusters n c0 (mkIter t (Some c0) false) s) (reads (view:=view) (J:=J) (Ok c') w) w.
Proof.
  revert i c0 s w. induction n as [|n IH]; intros i c0 s w HJ Hb Hc Hf Hi Hn.
  { rewrite Nat.add_0_r in Hn. apply wp_ret. split_and!; try done. cbn. congruence. }
  cbn [skip_clusters]. apply wp_io_bind. eapply wp_mono.
  { apply (iter_next_spec (view:=view) (J:=J)); try done. apply Hf. by eapply list_elem_of_lookup_2. }
  intros [s1 r1] w1 (Hr1 & Hv1 & HJ1). cbn in Hr1. subst r1. cbn [fst snd].
  rewrite (chain_link _ _ _ _ _ _ Hc Hi). destruct (cs !! S i) as [c1|] eqn:Hi1; cbn [fmap option_fmap option_map].
  - eapply wp_mono; [apply (IH (S i) c1); rewrite ?Hv1; try done; by rewrite Nat.add_succ_comm|].
    intros r w2 (Hr & Hv2 & HJ2). split_and!; try done. congruence.
  - apply lookup_ge_None in Hi1. apply lookup_lt_Some in Hn. lia.
Qed.

End walk.

(** ** Files of a volume *)

Section files.
Context {TP : Type} `{HTP : TimeProvider TP} (time_provider : TP) (fs : FileSystem).

Abbreviation t := (fat_type fs).
Abbreviation total := (fs_total_clusters fs).
Abbreviation csize := (fs_cluster_size fs).

(** The chain of a file; a file without clusters is empty. *)
Definition file_chain (w : World) (cs : list Z) : Prop :=
  match cs with [] => True | c :: _ => own_chain fs w c cs end.

(** The file behind the metadata [a] has [sz] bytes in the clusters [cs]. *)
Definition open_file (w : World) (a : nat) (cs : list Z) (sz : Z) : Prop :=
  exists m, metadata w !! a = Some m /\ is_dir (data_ (editor m)) = false /\
    e_size (data_ (editor m)) = sz /\ first_cluster t (data_ (editor m)) = head cs /\
    file_chain w cs /\ 0 <= sz < 2 ^ 32 /\ sz <= Z.of_nat (length cs) * csize.

Definition content (w : World) (cs : list Z) : list Z := concat (cluster_data fs w <$> cs).
Definition file_bytes (w : World) (cs : list Z) (sz : Z) : list Z :=
  take (Z.to_nat sz) (content w cs).

(** A call that only reads the volume. *)
Definition quiet (w w' : World) : Prop := same_rest fs w w' /\ table fs w' = table fs w.

Lemma quiet_refl w : volume_ok fs w -> quiet w w.
Proof. intros Hv. unfold quiet, same_rest. by split_and!. Qed.

Lemma quiet_trans w1 w2 w3 : quiet w1 w2 -> quiet w2 w3 -> quiet w1 w3.
Proof. intros [(? & ? & ?) ?] [(? & ? & ?) ?]. unfold quiet, same_rest. split_and!; congruence. Qed.

Lemma file_chain_in w cs : file_chain w cs -> forall c, c ∈ cs -> 2 <= c < total + 2.
Proof. destruct cs as [|c0 cs]; [intros _ c []%not_elem_of_nil|]. intros [_ H] c Hc. by apply H. Qed.

Lemma file_chain_table w w' cs : table fs w' = table fs w -> file_chain w cs -> file_chain w' cs.
Proof. intros Ht. unfold file_chain, own_chain. by rewrite Ht. Qed.

Lemma quiet_open w w' a cs sz : quiet w w' -> open_file w a cs sz -> open_file w' a cs sz.
Proof.
  intros [(_ & Hr & _) Ht] (m & Hm & H). injection Hr as _ _ Hmeta. exists m. rewrite Hmeta.
  destruct H as (? & ? & ? & Hc & ?). split_and!; try done; try lia. by eapply file_chain_table.
Qed.

Lemma quiet_content w w' cs :
  volume_ok fs w -> quiet w w' -> file_chain w cs -> content w' cs = content w cs.
Proof.
  intros Hv [(_ & _ & Ha) _] Hc. unfold content. f_equal. apply list_fmap_ext. intros i c Hi.
  apply cluster_data_after; try done. eapply file_chain_in; [done|by eapply list_elem_of_lookup_2].
Qed.

Lemma blocks_size w cs :
  volume_ok fs w -> file_chain w cs ->
  forall l, l ∈ cluster_data fs w <$> cs -> length l = Z.to_nat csize.
Proof.
  intros Hv Hc l (c & -> & Hin)%list_elem_of_fmap. apply length_cluster_data; [done|].
  by eapply file_chain_in.
Qed.

Lemma length_content w cs :
  volume_ok fs w -> file_chain w cs -> length (content w cs) = (length cs * Z.to_nat csize)%nat.
Proof.
  intros Hv Hc. unfold content. rewrite (length_blocks (Z.to_nat csize)) by (by apply blocks_size).
  by rewrite length_fmap.
Qed.

Lemma wp_on_fs {A} (m : F A) f w Q :
  wp (m tt) (fun r w' => Q (f, r.2) w') w -> wp (on_fs m f) Q w.
Proof. intros H. apply wp_bind. eapply wp_mono; [exact H|]. done. Qed.

Lemma get_editor_spec a m w Q :
  metadata w !! a = Some m -> Q (tt, Ok (editor m)) w -> wp (get_editor a tt) Q w.
Proof.
  intros Hm HQ. apply wp_io_bind. eapply wp_locked; [done|]. cbn [fst snd]. rewrite Hm. done.
Qed.

(** ** Finding a cluster *)

Lemma clusters_from_bytes_spec w o :
  volume_ok fs w -> 0 <= o < 2 ^ 32 ->
  clusters_from_bytes (fs_bpb fs) o = Ret ((o + csize - 1) / csize) /\
  0 <= (o + csize - 1) / csize < 2 ^ 32.
Proof.
  intros Hv Ho. pose proof (csize_pos fs _ (vo_layout fs w Hv)) as Hz.
  assert (Hr : 0 <= (o + csize - 1) / csize < 2 ^ 32).
  { split; [apply Z.div_pos; lia|]. apply Z.div_lt_upper_bound; nia. }
  split; [|done]. unfold clusters_from_bytes, div_ceil.
  change (cluster_size (fs_bpb fs)) with csize.
  rewrite (proj2 (Z.eqb_neq csize 0)) by lia. cbn. rewrite wrap_id; [done|exact Hr].
Qed.

Lemma current_cluster_spec w m cs o :
  volume_ok fs w -> file_chain w cs -> first_cluster t (data_ (editor m)) = head cs ->
  0 < o < 2 ^ 32 -> o <= Z.of_nat (length cs) * csize ->
  wp (get_current_cluster_with_metadata fs o (editor m) tt)
     (fun r w' => r.2 = Ok (cs !! Z.to_nat ((o - 1) / csize)) /\ quiet w w') w.
Proof.
  intros Hv Hc Hfc Ho Hlen. pose proof (csize_pos fs _ (vo_layout fs w Hv)) as Hz.
  unfold get_current_cluster_with_metadata. rewrite (proj2 (Z.eqb_neq o 0)), Hfc by lia.
  destruct cs as [|c cs0]; [simpl in Hlen; lia|]. cbn [head]. set (cs := c :: cs0) in *.
  destruct (clusters_from_bytes_spec w o Hv ltac:(lia)) as [Hcb Hr]. apply wp_io_bind.
  rewrite Hcb. apply wp_ret. cbn [fst snd].
  replace (o + csize - 1) with (o - 1 + 1 * csize) in * by lia. rewrite Z.div_add in * by lia.
  assert (Hi : 0 <= (o - 1) / csize < Z.of_nat (length cs)).
  { split; [apply Z.div_pos; lia|]. apply Z.div_lt_upper_bound; nia. }
  rewrite wrap_id by (unfold is_uint; lia). replace ((o - 1) / csize + 1 - 1) with ((o - 1) / csize) by lia.
  destruct (lookup_lt_is_Some_2 cs (Z.to_nat ((o - 1) / csize))) as [c' Hc']; [lia|].
  apply wp_io_bind, wp_with_fat. eapply wp_mono.
  { apply (skip_clusters_spec (J:=fat_stream fs w) (HF:=fat_stream_laws fs w) t c cs _ c' 0 c);
      [by apply volume_stream|apply Hv|apply Hc| |done|done].
    intros c1 Hc1. apply volume_fits; [done|]. pose proof (file_chain_in w cs Hc c1 Hc1). lia. }
  intros [s1 r1] w1 (Hr1 & Hv1 & HJ1). cbn in Hr1. subst r1. apply wp_ret. cbn [snd]. rewrite Hc'.
  split; [done|]. split; [|done]. eapply stream_same_rest; try done. rewrite Hv1. apply Hv.
Qed.

(** The cluster after the [i]th one. *)
Lemma next_cluster_spec w m cs i c :
  volume_ok fs w -> file_chain w cs -> cs !! i = Some c ->
  wp (next_cluster fs (Some c) (editor m) tt) (fun r w' => r.2 = Ok (cs !! S i) /\ quiet w w') w.
Proof.
  intros Hv Hc Hi. destruct cs as [|c0 cs0]; [done|]. set (cs := c0 :: cs0) in *.
  cbn [next_cluster]. apply wp_io_bind, wp_with_fat. eapply wp_mono.
  { apply (iter_next_spec (J:=fat_stream fs w) (HF:=fat_stream_laws fs w)); [by apply volume_stream|apply Hv|].
    apply volume_fits; [done|]. pose proof (file_chain_in w cs Hc c ltac:(by eapply list_elem_of_lookup_2)). lia. }
  intros [s1 r1] w1 (Hr1 & Hv1 & HJ1). cbn in Hr1. subst r1. cbn [fst snd].
  assert (Hq : quiet w w1).
  { split; [|done]. eapply stream_same_rest; try done. rewrite Hv1. apply Hv. }
  rewrite (chain_link _ _ c0 cs i c (proj1 Hc) Hi). by destruct (cs !! S i); apply wp_ret.
Qed.

(** The cluster before the position [o] at the start of a cluster. *)
Definition before (cs : list Z) (o : Z) : option Z :=
  match Z.to_nat (o / csize) with O => None | S i => cs !! i end.

Lemma boundary_div w o :
  volume_ok fs w -> 0 <= o -> at_boundary fs o = true -> o = Z.of_nat (Z.to_nat (o / csize)) * csize.
Proof.
  intros Hv Ho Hb. pose proof (csize_pos fs _ (vo_layout fs w Hv)) as Hz.
  unfold at_boundary in Hb. rewrite (proj2 (Z.eqb_neq csize 0)) in Hb by lia. b2p.
  pose proof (Z.div_mod o csize ltac:(lia)). pose proof (Z.div_pos o csize ltac:(lia) ltac:(lia)). nia.
Qed.

Lemma before_spec w m cs o :
  volume_ok fs w -> file_chain w cs -> first_cluster t (data_ (editor m)) = head cs ->
  0 <= o < 2 ^ 32 -> o <= Z.of_nat (length cs) * csize -> at_boundary fs o = true ->
  wp (get_current_cluster_with_metadata fs o (editor m) tt)
     (fun r w' => r.2 = Ok (before cs o) /\ quiet w w') w.
Proof.
  intros Hv Hc Hfc Ho Hlen Hb. pose proof (csize_pos fs _ (vo_layout fs w Hv)) as Hz.
  pose proof (boundary_div w o Hv ltac:(lia) Hb) as Hq. unfold before.
  destruct (Z.to_nat (o / csize)) as [|i].
  - rewrite Hq. apply wp_ret. split; [done|by apply quiet_refl].
  - eapply wp_mono; [apply current_cluster_spec; try done; nia|].
    intros r w' [Hr Hw]. split; [|done]. rewrite Hr. do 2 f_equal.
    replace ((o - 1) / csize) with (Z.of_nat i); [lia|]. apply (Z.div_unique _ _ _ (csize - 1)); lia.
Qed.

Lemma after_before_spec w m cs o :
  volume_ok fs w -> file_chain w cs -> first_cluster t (data_ (editor m)) = head cs ->
  0 <= o -> o <= Z.of_nat (length cs) * csize -> at_boundary fs o = true ->
  wp (next_cluster fs (before cs o) (editor m) tt)
     (fun r w' => r.2 = Ok (cs !! Z.to_nat (o / csize)) /\ quiet w w') w.
Proof.
  intros Hv Hc Hfc Ho Hlen Hb. pose proof (csize_pos fs _ (vo_layout fs w Hv)) as Hz.
  pose proof (boundary_div w o Hv ltac:(lia) Hb) as Hq. unfold before.
  destruct (Z.to_nat (o / csize)) as [|i].
  - apply wp_ret. cbn [snd]. rewrite Hfc. split; [by destruct cs|by apply quiet_refl].
  - destruct (lookup_lt_is_Some_2 cs i) as [c Hi]; [nia|]. rewrite Hi. by apply next_cluster_spec.
Qed.

(** The cluster the position [o] is in, if the file has it. *)
Lemma locate_spec w m cs o :
  volume_ok fs w -> file_chain w cs -> first_cluster t (data_ (editor m)) = head cs ->
  0 <= o < 2 ^ 32 -> o <= Z.of_nat (length cs) * csize -> at_boundary fs o = true ->
  wp ((c ← get_current_cluster_with_metadata fs o (editor m); next_cluster fs c (editor m)) tt)
     (fun r w' => r.2 = Ok (cs !! Z.to_nat (o / csize)) /\ quiet w w') w.
Proof.
  intros Hv Hc Hfc Ho Hlen Hb. apply wp_io_bind. eapply wp_mono; [by apply before_spec|].
  intros [[] r1] w1 (Hr1 & Hq1). cbn in Hr1. subst r1. cbn [fst snd]. pose proof Hq1 as [Hs1 Ht1].
  eapply wp_mono; [apply (after_before_spec w1 m cs o); try done; [apply Hs1|by eapply file_chain_table|lia]|].
  intros r w2 (Hr & Hq2). split; [done|by eapply quiet_trans].
Qed.

(** The cluster of a position inside a cluster. *)
Lemma within_spec w m cs o :
  volume_ok fs w -> file_chain w cs -> first_cluster t (data_ (editor m)) = head cs ->
  0 <= o < 2 ^ 32 -> o <= Z.of_nat (length cs) * csize -> at_boundary fs o = false ->
  wp (get_current_cluster_with_metadata fs o (editor m) tt)
     (fun r w' => r.2 = Ok (cs !! Z.to_nat (o / csize)) /\ quiet w w') w.
Proof.
  intros Hv Hc Hfc Ho Hlen Hb. pose proof (csize_pos fs _ (vo_layout fs w Hv)) as Hz.
  unfold at_boundary in Hb. rewrite (proj2 (Z.eqb_neq csize 0)) in Hb by lia. b2p.
  pose proof (Z.div_mod o csize ltac:(lia)) as Hdm. pose proof (Z.mod_pos_bound o csize ltac:(lia)) as Hm.
  assert (Hne : o <> 0) by (intros ->; by rewrite Z.mod_0_l in Hb by lia).
  eapply wp_mono; [apply current_cluster_spec; try done; lia|].
  intros r w' (Hr & Hq). split; [|done]. rewrite Hr. do 3 f_equal.
  symmetry. apply (Z.div_unique _ _ _ (o mod csize - 1)); lia.
Qed.

(** The position on the disk of [o] in cluster [c]. *)
Lemma cluster_position w c o :
  volume_ok fs w -> 2 <= c < total + 2 -> 0 <= o < csize ->
  wrap 64 (offset_from_cluster fs c + o) = cluster_begin fs c + o.
Proof.
  intros Hv Hc Ho. rewrite (offset_from_cluster_spec fs _ c (vo_layout fs w Hv) Hc).
  destruct (cluster_range fs _ c (vo_layout fs w Hv) Hc) as [Hr1 Hr2].
  destruct (vo_mounted fs w Hv) as [[_ Hmax] _]. unfold volume_bytes in Hr2.
  apply wrap_id. unfold is_uint. lia.
Qed.

(** ** Metadata *)

(** The metadata [a] edited by [g]. *)
Definition edit (a : nat) (g : DirEntryEditor -> DirEntryEditor) (w : World) : World :=
  set_metadata (alter (fun m => mkShared (g (editor m)) (strong m)) a (metadata w)) w.

Lemma upd_editor_spec a g w Q : Q (tt, Ok tt) (edit a g w) -> wp (upd_editor a g tt) Q w.
Proof. intros HQ. by eapply wp_locked. Qed.

Lemma edit_volume a g w : volume_ok fs w -> volume_ok fs (edit a g w).
Proof. intros Hv. by apply (volume_same_bytes fs w); [|done|apply Hv]. Qed.

Lemma edit_open a g w cs' sz' m :
  metadata w !! a = Some m ->
  is_dir (data_ (g (editor m))) = false -> e_size (data_ (g (editor m))) = sz' ->
  first_cluster t (data_ (g (editor m))) = head cs' ->
  file_chain w cs' -> 0 <= sz' < 2 ^ 32 -> sz' <= Z.of_nat (length cs') * csize ->
  open_file (edit a g w) a cs' sz'.
Proof.
  intros Hm Hd Hs Hf Hc H1 H2. exists (mkShared (g (editor m)) (strong m)).
  cbn [edit metadata set_metadata editor]. rewrite list_lookup_alter_eq, Hm. split_and!; try done; lia.
Qed.

(** The state of the volume beside the open files. *)
Definition same_volume (w w' : World) : Prop :=
  volume_ok fs w' /\ table fs w' = table fs w /\ after_fat fs w' = after_fat fs w /\
  fs_info w' = fs_info w.

Lemma quiet_same_volume w w' : quiet w w' -> same_volume w w'.
Proof. intros [(? & Hr & ?) ?]. injection Hr as ? ? ?. by split_and!. Qed.

(** ** Reading *)

(** The number of bytes one read gives. *)
Definition read_len (sz o : Z) (n : nat) : nat :=
  Z.to_nat (Z.min (Z.min (Z.of_nat n) (csize - o mod csize)) (sz - o)).

Definition read_post (a : nat) (cs : list Z) (sz o : Z) (n : nat) (w : World)
    (r : File * result (list Z) FsError) (w' : World) : Prop :=
  r = (mkFile (Some a) (o + Z.of_nat (read_len sz o n)),
       Ok (part (Z.to_nat o) (read_len sz o n) (file_bytes w cs sz))) /\
  same_volume w w' /\ open_file w' a cs sz.

Lemma read_post_nil a cs sz o n w w' :
  volume_ok fs w -> open_file w a cs sz -> quiet w w' -> read_len sz o n = 0%nat ->
  read_post a cs sz o n w (mkFile (Some a) o, Ok []) w'.
Proof.
  intros Hv Ho Hq Hk. unfold read_post. rewrite Hk, Z.add_0_r, part_0.
  split_and!; try done; [by apply quiet_same_volume|by eapply quiet_open].
Qed.

(** The step of a read that finds its cluster. *)
Lemma read_locate_spec w m cs o f :
  volume_ok fs w -> file_chain w cs -> first_cluster t (data_ (editor m)) = head cs ->
  0 <= o < 2 ^ 32 -> o <= Z.of_nat (length cs) * csize ->
  wp ((if at_boundary fs o then
         c ← on_fs (get_current_cluster_with_metadata fs o (editor m));
         on_fs (next_cluster fs c (editor m))
       else on_fs (get_current_cluster_with_metadata fs o (editor m)) : M (option Z)) f)
     (fun r w' => r = (f, Ok (cs !! Z.to_nat (o / csize))) /\ quiet w w') w.
Proof.
  intros Hv Hc Hfc Ho Hlen. pose proof (csize_pos fs _ (vo_layout fs w Hv)) as Hz.
  destruct (at_boundary fs o) eqn:Hb.
  - pose proof (locate_spec w m cs o Hv Hc Hfc Ho Hlen Hb) as Hl.
    unfold wp in *. revert Hl. unfold mbind, io_bind, on_fs, mbind, prog_bind. rewrite !run_seq.
    destruct (run (get_current_cluster_with_metadata fs o (editor m) tt) w) as [[w1 [[] [c|e]]]|]; cbn.
    + rewrite run_seq. destruct (run (next_cluster fs c (editor m) tt) w1) as [[w2 [[] r2]]|]; cbn; [|done].
      by intros [-> Hq].
    + by intros [? _].
    + done.
  - apply wp_on_fs. eapply wp_mono; [by apply within_spec|].
    intros [[] r] w' (Hr & Hq). cbn in Hr. by subst r.
Qed.

(** Reading within a cluster reads the file. *)
Lemma file_bytes_part w cs sz o k c :
  volume_ok fs w -> file_chain w cs -> 0 <= o -> cs !! Z.to_nat (o / csize) = Some c ->
  o mod csize + Z.of_nat k <= csize -> o + Z.of_nat k <= sz ->
  part (Z.to_nat (o mod csize)) k (cluster_data fs w c) = part (Z.to_nat o) k (file_bytes w cs sz).
Proof.
  intros Hv Hc Ho Hi Hk Hs. pose proof (csize_pos fs _ (vo_layout fs w Hv)) as Hz.
  pose proof (Z.div_mod o csize ltac:(lia)) as Hdm. pose proof (Z.mod_pos_bound o csize ltac:(lia)) as Hm.
  assert (Hq : 0 <= o / csize) by (apply Z.div_pos; lia).
  transitivity (part (Z.to_nat o) k (content w cs)).
  - replace (Z.to_nat o) with (Z.to_nat (o / csize) * Z.to_nat csize + Z.to_nat (o mod csize))%nat by nia.
    symmetry. apply part_blocks; [by apply blocks_size| |lia]. by rewrite list_lookup_fmap, Hi.
  - apply list_eq. intros j. rewrite !lookup_part. case_decide; [|done].
    unfold file_bytes. rewrite lookup_take_lt by lia. done.
Qed.

(** The end of a read: the position and the date of the access. *)
Lemma read_end f a cs sz n w w' :
  volume_ok fs w -> open_file w a cs sz -> quiet w w' -> f_metadata f = Some a -> 0 <= f_offset f ->
  let k := read_len sz (f_offset f) n in
  let bs := part (Z.to_nat (f_offset f)) k (file_bytes w cs sz) in
  f_offset f + Z.of_nat k < 2 ^ 32 ->
  wp ((_ ← set_file_offset (wrap 32 (f_offset f + Z.of_nat k));
       _ ← (if update_accessed_date fs
            then on_fs (upd_editor a (ed_set_accessed (get_current_date time_provider)))
            else mret tt : M unit);
       mret bs : M (list Z)) f) (read_post a cs sz (f_offset f) n w) w'.
Proof.
  intros Hv Hop Hq Hf Ho k bs Hk. assert (Hop2 : open_file w' a cs sz) by (by eapply quiet_open).
  apply wp_io_bind. unfold set_file_offset. apply wp_io_bind, wp_ret. cbn [fst snd]. apply wp_ret. cbn [fst snd].
  rewrite Hf, wrap_id by (unfold is_uint; lia). destruct (update_accessed_date fs).
  - apply wp_io_bind, wp_on_fs, upd_editor_spec. apply wp_ret. split; [done|].
    destruct (quiet_same_volume _ _ Hq) as (? & ? & ? & ?). split; [split_and!; try done; by apply edit_volume|].
    pose proof Hop2 as (m2 & Hm2 & Hd2 & Hs2 & Hf2 & Hc2 & ? & ?).
    eapply edit_open; try done; unfold ed_set_accessed; case_decide; done.
  - apply wp_io_bind, wp_ret. apply wp_ret. split_and!; try done. by apply quiet_same_volume.
Qed.

Lemma file_read_spec f a cs sz n w :
  volume_ok fs w -> open_file w a cs sz -> f_metadata f = Some a -> 0 <= f_offset f <= sz ->
  wp (file_read time_provider fs n f) (read_post a cs sz (f_offset f) n w) w.
Proof.
  intros Hv Hop Hf Ho. pose proof Hop as (m & Hm & Hd & Hs & Hfc & Hc & Hsz & Hlen).
  pose proof (csize_pos fs _ (vo_layout fs w Hv)) as Hz. set (o := f_offset f) in *.
  assert (Hff : f = mkFile (Some a) o) by (destruct f; cbn in *; by subst).
  pose proof (Z.mod_pos_bound o csize ltac:(lia)) as Hmod.
  unfold file_read. apply wp_io_bind. unfold file_arc. apply wp_io_bind, wp_ret. cbn [fst snd]. rewrite Hf.
  apply wp_ret. cbn [fst snd]. apply wp_io_bind, wp_ret. cbn [fst snd].
  apply wp_io_bind, wp_on_fs. eapply get_editor_spec; [done|]. cbn [fst snd]. fold o.
  apply wp_io_bind. eapply wp_mono; [apply (read_locate_spec w m cs o f); try done; lia|].
  intros r1 w1 (-> & Hq1). cbn [fst snd]. pose proof Hq1 as [(Hv1 & _ & Ha1) Ht1].
  assert (He : entry_size (data_ (editor m)) = Some sz) by (unfold entry_size, is_file; rewrite Hd; by f_equal).
  destruct (cs !! Z.to_nat (o / csize)) as [c|] eqn:Hi.
  2: { apply wp_ret. rewrite Hff. apply read_post_nil; try done. apply lookup_ge_None in Hi. unfold read_len.
       assert (Hge : Z.of_nat (length cs) * csize <= o); [|lia].
       pose proof (Z.div_mod o csize ltac:(lia)). assert (0 <= o / csize) by (apply Z.div_pos; lia). nia. }
  apply wp_io_bind. unfold offset_in_cluster. rewrite (proj2 (Z.eqb_neq csize 0)) by lia. apply wp_ret.
  cbn [fst snd]. rewrite He. destruct (Z.leb_spec sz o) as [Hend|Hin].
  { apply wp_ret. rewrite Hff. apply read_post_nil; try done. unfold read_len. lia. }
  set (k := Z.min _ _). assert (Hk : k = Z.of_nat (read_len sz o n)) by (unfold read_len, k; lia).
  destruct (Z.eqb_spec k 0) as [Hk0|Hk0].
  { apply wp_ret. rewrite Hff. apply read_post_nil; try done. lia. }
  assert (Hcr : 2 <= c < total + 2) by (eapply file_chain_in; [done|by eapply list_elem_of_lookup_2]).
  rewrite (cluster_position w1 c) by (done || lia). apply wp_io_bind, wp_on_fs.
  eapply wp_mono; [apply cluster_section_read; [done|done|lia|unfold k in *; lia]|].
  intros [[] r2] w2 (Hr & Hv2 & Ht2 & Hrest2 & Hb2). cbn in Hr. subst r2. cbn [fst snd].
  rewrite (cluster_data_after fs w w1 c Hv Ha1 Hcr).
  rewrite Hk, Nat2Z.id, (file_bytes_part w cs sz) by (done || lia).
  set (bs := part (Z.to_nat o) (read_len sz o n) (file_bytes w cs sz)).
  assert (Hbl : length bs = read_len sz o n).
  { apply length_part. unfold file_bytes. rewrite length_take, length_content by done. nia. }
  rewrite Hbl, (proj2 (Nat.eqb_neq _ 0)) by lia.
  assert (Hq2 : quiet w w2).
  { eapply quiet_trans; [done|]. split; [|done]. split_and!; try done. unfold after_fat. by rewrite Hb2. }
  unfold len. rewrite Hbl. apply (read_end f a cs sz n); try done; fold o; lia.
Qed.

End files.
End FatFileLaws.
