(* ===== verification/FatFileWrite.v ===== *)
(** * Writing to open files

    A write changes the bytes of the file, extending its chain by a free
    cluster where the file ends, and leaves the other files alone. *)

From S2P Require Import Prelude Critical Disk DiskLaws FatTime FatBoot FatTable FatTableLaws FatChain FatEntry FatFs FatFsLaws FatVolume FatAlloc FatFile FatFileLaws.

Module FatFileWrite.
Import Disk DiskLaws FatTime FatBoot FatTable FatTableLaws FatChain FatEntry FatFs FatFsLaws FatVolume
  FatAlloc FatFile FatFileLaws.
Local Open Scope Z_scope.

(** ** The first cluster in an entry *)

Lemma first_cluster_set t c e :
  0 < c < entry_values t -> first_cluster t (set_first_cluster t (Some c) e) = Some c.
Proof.
  intros Hc. unfold first_cluster, set_first_cluster. cbn [first_cluster_hi first_cluster_lo default].
  assert (Hlo : wrap 16 (Z.land c 0xFFFF) = c mod 65536).
  { pose proof (land_mask_mod c 16 ltac:(lia)) as Hl. change (2 ^ 16 - 1) with 0xFFFF in Hl. rewrite Hl.
    apply wrap_id. unfold is_uint. apply Z.mod_pos_bound. lia. }
  cbn [id]. rewrite Hlo. destruct (decide (t = Fat32)) as [->|Hne].
  - cbn [entry_values] in Hc. rewrite Z.shiftr_div_pow2, Z.shiftl_mul_pow2 by lia.
    rewrite (wrap_id 16) by (unfold is_uint; dlia). rewrite wrap_id by (unfold is_uint; dlia).
    rewrite (lor_mul_add _ _ 16) by (unfold is_uint; first [lia|dlia]).
    replace (c / 2 ^ 16 * 2 ^ 16 + c mod 65536) with c by dlia.
    rewrite (proj2 (Z.eqb_neq c 0)) by lia. done.
  - assert (entry_values t <= 65536) by (destruct t; cbn; done || lia).
    cbn [Z.shiftl]. rewrite Z.shiftl_0_l. cbn [Z.lor]. rewrite Z.mod_small by lia.
    change (Z.lor (wrap 32 0) c) with c. rewrite (proj2 (Z.eqb_neq c 0)) by lia. done.
Qed.

(** ** Longer chains *)

Section write.
Context {TP : Type} `{HTP : TimeProvider TP} (time_provider : TP) (fs : FileSystem).

Abbreviation t := (fat_type fs).
Abbreviation total := (fs_total_clusters fs).
Abbreviation csize := (fs_cluster_size fs).

Lemma link_data w c p l :
  volume_ok fs w -> 2 <= c < total + 2 -> 2 <= p < total + 2 -> entry t l p = c -> link t l p = Some c.
Proof.
  intros Hv Hc Hp He. pose proof (vo_layout fs w Hv) as [_ _ _ _ _ [_ H2] _ _ _]. unfold link, decode. rewrite He.
  replace (match t with Fat32 => special_cluster p | _ => false end) with false.
  2: { symmetry. destruct (decide (t = Fat32)) as [Ht|Ht]; [rewrite Ht; by apply (no_special fs p w); [|lia|]|by destruct t]. }
  rewrite (proj2 (Z.eqb_neq c 0)), (proj2 (Z.eqb_neq c _)), (proj2 (Z.leb_gt _ c)) by lia. done.
Qed.

Lemma link_end l c : entry t l c = encode t EndOfChain -> link t l c = None.
Proof.
  intros He. unfold link, decode. rewrite He. cbn [encode].
  rewrite (proj2 (Z.eqb_neq _ 0)), (proj2 (Z.eqb_neq _ _)), (proj2 (Z.leb_le _ _)) by (destruct t; cbn; lia). done.
Qed.

Lemma chain_snoc l l' c cs x :
  chain t l c cs -> (forall y, y ∈ cs -> last cs <> Some y -> entry t l' y = entry t l y) ->
  (forall y, last cs = Some y -> link t l' y = Some x) -> link t l' x = None ->
  NoDup cs -> chain t l' c (cs ++ [x]).
Proof.
  intros Hc. induction Hc as [c He|c n cs Hl Hc IH]; intros Hs Hlast Hx Hnd; cbn [app].
  - econstructor; [by apply Hlast|]. by constructor.
  - apply NoDup_cons in Hnd as [Hn Hnd]. destruct (chain_head _ _ _ _ Hc) as [cs' ->].
    apply (chain_next _ _ c n).
    + unfold link. rewrite Hs; [done|by left|]. rewrite last_cons_cons. intros Hly.
      apply Hn. by apply last_Some_elem_of.
    + apply IH; [|intros y Hy; apply Hlast; by rewrite last_cons_cons|done|done].
      intros y Hy Hly. apply Hs; [by right|by rewrite last_cons_cons].
Qed.

Lemma linked_entries w w' cs x c :
  volume_ok fs w -> changed t (linked t (last cs) x) (table fs w) (table fs w') ->
  2 <= c < total + 2 ->
  entry t (table fs w') c =
    if decide (last cs = Some c) then x
    else if decide (c = x) then encode t EndOfChain else entry t (table fs w) c.
Proof.
  intros Hv (_ & _ & He) Hc. destruct (He c) as [-> _]; [apply volume_fits; [done|lia]|].
  unfold linked, then_, at_cluster. destruct (last cs) as [p|].
  - destruct (decide (c = p)) as [->|Hne]; [by rewrite decide_True|].
    rewrite (decide_False (P:=Some p = Some c)) by congruence. by case_decide.
  - rewrite (decide_False (P:=None = Some c)) by done. by case_decide.
Qed.

Lemma extend_chain w w' cs x :
  volume_ok fs w -> file_chain fs w cs -> 2 <= x < total + 2 -> entry t (table fs w) x = 0 ->
  changed t (linked t (last cs) x) (table fs w) (table fs w') -> file_chain fs w' (cs ++ [x]).
Proof.
  intros Hv Hc Hx H0 Hch. pose proof (linked_entries w w' cs x) as He.
  assert (Hnx : last cs <> Some x).
  { intros Hl. apply last_Some_elem_of in Hl. destruct cs as [|c cs]; [by apply not_elem_of_nil in Hl|].
    destruct Hc as [_ Hin]. by destruct (Hin x Hl). }
  assert (Hxe : entry t (table fs w') x = encode t EndOfChain).
  { rewrite He by done. by rewrite decide_False, decide_True by done. }
  assert (Hev : encode t EndOfChain <> 0) by (destruct t; cbn; lia).
  destruct cs as [|c cs].
  - split; [constructor; by apply link_end|]. intros c' ->%list_elem_of_singleton. by rewrite Hxe.
  - destruct Hc as [Hc Hin]. split.
    + apply (chain_snoc (table fs w)); try done; [| |by apply link_end|by eapply chain_NoDup].
      * intros y Hy Hl. destruct (Hin y Hy) as [Hr Hu]. rewrite He by done.
        rewrite (decide_False (P:=last _ = _)) by done. rewrite decide_False by congruence. done.
      * intros y Hl. assert (Hy : 2 <= y < total + 2) by (apply Hin; by apply last_Some_elem_of).
        apply (link_data w); try done. rewrite He by done. by rewrite decide_True.
    + intros y [Hy| ->%list_elem_of_singleton]%elem_of_app; [|by rewrite Hxe].
      destruct (Hin y Hy) as [Hr Hu]. split; [done|]. rewrite He by done.
      repeat case_decide; try done. lia.
Qed.

(** Chains of other files. *)
Lemma other_chain w w' cs x ds :
  volume_ok fs w -> file_chain fs w ds -> (forall c, c ∈ ds -> c ∉ cs) -> entry t (table fs w) x = 0 ->
  changed t (linked t (last cs) x) (table fs w) (table fs w') -> file_chain fs w' ds.
Proof.
  intros Hv Hd Hdis H0 Hch. destruct ds as [|d ds]; [done|]. destruct Hd as [Hd Hin].
  assert (Hs : forall y, y ∈ d :: ds -> entry t (table fs w') y = entry t (table fs w) y).
  { intros y Hy. destruct (Hin y Hy) as [Hr Hu]. rewrite (linked_entries w w' cs x) by done.
    rewrite decide_False; [rewrite decide_False; [done|congruence]|].
    intros Hl%last_Some_elem_of. by apply (Hdis y). }
  split; [by eapply chain_same|]. intros y Hy. rewrite Hs by done. by apply Hin.
Qed.

(** ** What a write leaves alone *)

(** The other files and the invariants of the volume, over a change of the
    file behind [a] whose chain was [cs]. *)
Record frame (a : nat) (cs : list Z) (w w' : World) : Prop := {
  fr_volume : volume_ok fs w';
  fr_hint : hint_ok w -> hint_ok w';
  fr_count : count_ok fs w -> count_ok fs w';
  fr_chains : forall ds, file_chain fs w ds -> (forall c, c ∈ ds -> c ∉ cs) ->
    file_chain fs w' ds /\ content fs w' ds = content fs w ds;
  fr_metadata : forall b, b <> a -> metadata w' !! b = metadata w !! b
}.

Lemma write_frame_trans a cs w1 w2 w3 : frame a cs w1 w2 -> frame a cs w2 w3 -> frame a cs w1 w3.
Proof.
  intros [Hv1 Hh1 Hc1 Hd1 Hm1] [Hv2 Hh2 Hc2 Hd2 Hm2]. split; [done|tauto|tauto|..].
  - intros ds Hds Hdis. destruct (Hd1 ds Hds Hdis) as [Hf He]. destruct (Hd2 ds Hf Hdis) as [Hf' He'].
    split; [done|congruence].
  - intros b Hb. rewrite Hm2, Hm1 by done. done.
Qed.

Lemma quiet_frame a cs w w' : volume_ok fs w -> quiet fs w w' -> frame a cs w w'.
Proof.
  intros Hv Hq. pose proof Hq as [(Hv' & Hr & Ha) Ht]. injection Hr as Hi Hca Hme. split; try done.
  - unfold hint_ok. by rewrite Hi.
  - unfold count_ok, free_clusters. by rewrite Hi, Ht.
  - intros ds Hds _. split; [by eapply file_chain_table|by apply quiet_content].
  - intros b _. by rewrite Hme.
Qed.

Lemma edit_frame a cs g w : volume_ok fs w -> frame a cs w (edit a g w).
Proof.
  intros Hv. split; try done; [by apply edit_volume|].
  intros b Hb. cbn [edit metadata set_metadata]. by apply list_lookup_alter_ne.
Qed.

Lemma content_same w w' cs :
  file_chain fs w cs ->
  (forall c, c ∈ cs -> 2 <= c < total + 2 -> cluster_data fs w' c = cluster_data fs w c) ->
  content fs w' cs = content fs w cs.
Proof.
  intros Hc He. unfold content. f_equal. apply list_fmap_ext. intros i c Hi.
  assert (c ∈ cs) by (by eapply list_elem_of_lookup_2). apply He; [done|]. by eapply file_chain_in.
Qed.

(** The count of the information sector after an allocation. *)
Lemma alloc_count_ok prev zero w w' c :
  volume_ok fs w -> alloc_post fs prev zero w (tt, Ok c) w' ->
  match prev with Some p => 2 <= p < total + 2 /\ entry t (table fs w) p <> 0 | None => True end ->
  count_ok fs w -> count_ok fs w'.
Proof.
  intros Hv (Hv' & _ & _ & Hff & Hch & _ & Hn & _) Hp Hc. unfold count_ok in *. rewrite Hn.
  destruct (free_cluster_count (fs_info w)) as [n|]; [|done]. cbn. subst n.
  rewrite <- (alloc_count fs prev c w w' Hv Hff Hch Hp).
  pose proof (vo_layout fs w Hv) as [_ _ _ _ _ [H1 H2] _ _ _].
  pose proof (free_count_bound t (table fs w') 2 (total + 2) ltac:(lia)) as Hb.
  assert (entry_values t <= 2 ^ 28) by (destruct t; cbn; lia).
  apply wrap_id. unfold is_uint, free_clusters. lia.
Qed.

Lemma last_own w cs p :
  file_chain fs w cs -> last cs = Some p -> 2 <= p < total + 2 /\ entry t (table fs w) p <> 0.
Proof.
  intros Hc Hl%last_Some_elem_of. destruct cs as [|c cs]; [by apply not_elem_of_nil in Hl|].
  by apply Hc.
Qed.

Lemma alloc_frame a cs w w' c :
  volume_ok fs w -> file_chain fs w cs -> alloc_post fs (last cs) false w (tt, Ok c) w' ->
  frame a cs w w' /\ content fs w' cs = content fs w cs.
Proof.
  intros Hv Hc Hp. assert (Hcnt : count_ok fs w -> count_ok fs w').
  { apply (alloc_count_ok (last cs) false w w' c Hv Hp). destruct (last cs) eqn:Hl; [|done]. by eapply last_own. }
  destruct Hp as (Hv' & Hme & _ & Hff & Hch & Hnx & _ & Hd). destruct Hff as (Hcr & H0 & _).
  split; [split; try done|].
  - intros _. unfold hint_ok. rewrite Hnx. lia.
  - intros ds Hds Hdis. split; [by apply (other_chain w w' cs c)|].
    apply content_same; [done|]. intros c' _ Hr. by rewrite Hd.
  - intros b _. by rewrite Hme.
  - apply content_same; [done|]. intros c' _ Hr. by rewrite Hd.
Qed.

Lemma full_frame a cs w w' :
  volume_ok fs w -> file_chain fs w cs -> alloc_post fs (last cs) false w (tt, Err NotEnoughSpace) w' ->
  frame a cs w w' /\ content fs w' cs = content fs w cs.
Proof.
  intros Hv Hc (Hv' & Hme & _ & _ & _ & Ht & Hi & Hd).
  split; [split; try done|].
  - unfold hint_ok. by rewrite Hi.
  - unfold count_ok, free_clusters. by rewrite Hi, Ht.
  - intros ds Hds _. split; [by eapply file_chain_table|]. apply content_same; [done|]. intros. by apply Hd.
  - intros b _. by rewrite Hme.
  - apply content_same; [done|]. intros. by apply Hd.
Qed.

(** ** The cluster to write to *)

Definition cluster_post (a : nat) (cs : list Z) (sz o : Z) (w : World) (r : unit * result Z FsError)
    (w' : World) : Prop :=
  frame a cs w w' /\ content fs w' cs = content fs w cs /\
  match r.2 with
  | Ok c => exists cs', cs' !! Z.to_nat (o / csize) = Some c /\ open_file fs w' a cs' sz /\
      (cs' = cs /\ free_clusters fs w' = free_clusters fs w \/
       cs' = cs ++ [c] /\ o = Z.of_nat (length cs) * csize /\ entry t (table fs w) c = 0 /\
       free_clusters fs w' = free_clusters fs w - 1)
  | Err e => e = NotEnoughSpace /\ o = Z.of_nat (length cs) * csize /\
      used t (table fs w) 2 (total + 2) /\ free_clusters fs w' = free_clusters fs w /\
      open_file fs w' a cs sz
  end.

Lemma cluster_post_quiet a cs sz o w w1 r w2 :
  volume_ok fs w -> file_chain fs w cs -> quiet fs w w1 -> cluster_post a cs sz o w1 r w2 ->
  cluster_post a cs sz o w r w2.
Proof.
  intros Hv Hc Hq (Hf & Hct & Hr). pose proof (proj2 Hq) as Ht.
  unfold cluster_post in *. unfold free_clusters in *. rewrite <- Ht. split; [|split; [|done]].
  - eapply write_frame_trans; [by apply quiet_frame|done].
  - rewrite Hct. by apply quiet_content.
Qed.

Lemma cluster_post_old a cs sz o w w' c :
  volume_ok fs w -> quiet fs w w' -> open_file fs w a cs sz -> cs !! Z.to_nat (o / csize) = Some c ->
  cluster_post a cs sz o w (tt, Ok c) w'.
Proof.
  intros Hv Hq Hop Hc. unfold cluster_post. cbn [snd]. split; [by apply quiet_frame|]. split.
  - apply quiet_content; try done. destruct Hop as (m & _ & _ & _ & _ & Hch & _). done.
  - exists cs. split; [done|]. split; [by eapply quiet_open|]. left. split; [done|].
    unfold free_clusters. by rewrite (proj2 Hq).
Qed.

Lemma alloc_open a cs sz m c w w' :
  volume_ok fs w -> open_file fs w a cs sz -> metadata w !! a = Some m ->
  alloc_post fs (last cs) false w (tt, Ok c) w' ->
  open_file fs (edit a (fun ed => match first_cluster t (data_ ed) with
                                  | None => ed_set_first_cluster t (Some c) ed
                                  | Some _ => ed end) w') a (cs ++ [c]) sz.
Proof.
  intros Hv (m' & Hm' & Hd & Hs & Hf & Hc & Hsz & Hlen) Hm (Hv' & Hme & _ & (Hcr & H0 & _) & Hch & _).
  rewrite Hm in Hm'. injection Hm' as <-. pose proof (csize_pos fs _ (vo_layout fs w Hv)) as Hz.
  assert (Hg : forall (P : DirEntryEditor -> Prop),
    (head cs = None -> P (edited (set_first_cluster t (Some c) (data_ (editor m))) (editor m))) ->
    (head cs <> None -> P (editor m)) ->
    P (match first_cluster t (data_ (editor m)) with
       | None => ed_set_first_cluster t (Some c) (editor m) | Some _ => editor m end)).
  { intros P HN HS. unfold ed_set_first_cluster. rewrite Hf. destruct (head cs); [by apply HS|].
    rewrite decide_False by done. by apply HN. }
  apply (edit_open fs _ _ _ _ _ m); [by rewrite Hme|by apply Hg|by apply Hg| |by apply (extend_chain w)|done|].
  - apply Hg; intros Hh; [|by destruct cs]. cbn [edited data_].
    pose proof (vo_layout fs w Hv) as [_ _ _ _ _ [H1 H2] _ _ _].
    rewrite first_cluster_set by lia. by destruct cs.
  - rewrite length_app. simpl. nia.
Qed.

Lemma before_last w cs o :
  volume_ok fs w -> 0 <= o <= Z.of_nat (length cs) * csize -> at_boundary fs o = true ->
  cs !! Z.to_nat (o / csize) = None -> before fs cs o = last cs /\ o = Z.of_nat (length cs) * csize.
Proof.
  intros Hv Ho Hb Hn%lookup_ge_None. pose proof (csize_pos fs _ (vo_layout fs w Hv)) as Hz.
  pose proof (boundary_div fs w o Hv ltac:(lia) Hb) as Hq. unfold before.
  assert (Hlen : Z.to_nat (o / csize) = length cs) by nia. rewrite Hlen in *. split; [|done].
  rewrite last_lookup. by destruct cs.
Qed.

(** A write past the last cluster. *)
Lemma grow_spec a cs sz o w m :
  volume_ok fs w -> hint_ok w -> open_file fs w a cs sz -> metadata w !! a = Some m ->
  o = Z.of_nat (length cs) * csize ->
  wp ((new_cluster ← fs_alloc_cluster fs (last cs) false;
       _ ← upd_editor a (fun ed => match first_cluster t (data_ ed) with
                                   | None => ed_set_first_cluster t (Some new_cluster) ed
                                   | Some _ => ed end);
       mret new_cluster : F Z) tt) (cluster_post a cs sz o w) w.
Proof.
  intros Hv Hh Hop Hm Ho. pose proof Hop as (_ & _ & _ & _ & _ & Hc & _).
  pose proof (csize_pos fs _ (vo_layout fs w Hv)) as Hz.
  assert (Hl : match last cs with Some p => 2 <= p < total + 2 /\ entry t (table fs w) p <> 0 | None => True end).
  { destruct (last cs) eqn:Hl; [by apply (last_own w cs)|done]. }
  apply wp_io_bind. eapply wp_mono; [apply fs_alloc_cluster_spec; try done; destruct (last cs) in Hl |- *; [apply Hl|done]|].
  intros [[] [c|e]] w' Hp; cbn [fst snd].
  - apply wp_io_bind, upd_editor_spec, wp_ret. destruct (alloc_frame a cs w w' c Hv Hc Hp) as [Hfr Hct].
    unfold cluster_post. cbn [snd]. split; [eapply write_frame_trans; [done|apply edit_frame, Hfr]|]. split; [done|].
    exists (cs ++ [c]). split; [rewrite Ho, Z.div_mul, Nat2Z.id by lia; by rewrite lookup_app_r, Nat.sub_diag by lia|].
    split; [by apply (alloc_open a cs sz m c w w')|]. destruct Hp as (_ & _ & _ & Hff & Hch & _).
    right. split_and!; try done; [apply Hff|]. by apply (alloc_count fs (last cs) c w w').
  - pose proof Hp as (_ & Hm' & _ & He & Hu & Ht & _). cbn [snd] in He. subst e.
    destruct (full_frame a cs w w' Hv Hc Hp) as [Hfr Hct]. split; [done|]. split; [done|]. cbn [snd].
    split_and!; try done; [unfold free_clusters; by rewrite Ht|].
    destruct Hop as (m' & ? & ? & ? & ? & ? & ?). exists m'. rewrite Hm'. split_and!; try done; try lia.
    by eapply file_chain_table.
Qed.

Lemma cluster_to_write_spec a cs sz o w :
  volume_ok fs w -> hint_ok w -> open_file fs w a cs sz -> 0 <= o <= sz ->
  wp (cluster_to_write fs a o tt) (cluster_post a cs sz o w) w.
Proof.
  intros Hv Hh Hop Ho. pose proof Hop as (m & Hm & Hd & Hs & Hf & Hc & Hsz & Hlen).
  pose proof (csize_pos fs _ (vo_layout fs w Hv)) as Hz.
  unfold cluster_to_write. apply wp_io_bind. eapply get_editor_spec; [done|]. cbn [fst snd].
  destruct (at_boundary fs o) eqn:Hb.
  2: { apply wp_io_bind. eapply wp_mono; [apply (within_spec fs w m cs o); try done; lia|].
       intros [[] r1] w1 (Hr1 & Hq1). cbn in Hr1. subst r1. cbn [fst snd].
       destruct (cs !! Z.to_nat (o / csize)) as [c|] eqn:Hi; [apply wp_ret; by apply cluster_post_old|].
       apply lookup_ge_None in Hi. unfold at_boundary in Hb. rewrite (proj2 (Z.eqb_neq csize 0)) in Hb by lia.
       b2p. pose proof (Z.div_mod o csize ltac:(lia)). pose proof (Z.mod_pos_bound o csize ltac:(lia)).
       pose proof (Z.div_pos o csize ltac:(lia) ltac:(lia)). nia. }
  apply wp_io_bind. eapply wp_mono; [apply (before_spec fs w m cs o); try done; lia|].
  intros [[] r1] w1 (Hr1 & Hq1). cbn in Hr1. subst r1. cbn [fst snd]. pose proof Hq1 as [Hs1 Ht1].
  apply wp_io_bind. eapply wp_mono.
  { apply (after_before_spec fs w1 m cs o); try done; [apply Hs1|by eapply file_chain_table|lia..]. }
  intros [[] r2] w2 (Hr2 & Hq2). cbn in Hr2. subst r2. cbn [fst snd].
  assert (Hq : quiet fs w w2) by (by eapply quiet_trans). pose proof Hq as [(Hv2 & Hrest & _) Ht2].
  destruct (cs !! Z.to_nat (o / csize)) as [c|] eqn:Hi; [apply wp_ret; by apply cluster_post_old|].
  destruct (before_last w cs o) as [Hbl Hoe]; try done; [lia|]. rewrite Hbl, Hd.
  injection Hrest as _ _ Hmeta. pose proof (quiet_frame a cs w w2 Hv Hq) as Hfr.
  eapply wp_mono; [apply (grow_spec a cs sz o w2 m); try done; [by apply Hfr|by eapply quiet_open|by rewrite Hmeta]|].
  intros r w3 Hp. by eapply cluster_post_quiet.
Qed.

(** ** Writing *)

Lemma take_splice_app (l tl bs : list Z) o sz :
  (o <= sz <= length l)%nat -> (o + length bs <= length (l ++ tl))%nat ->
  take (sz `max` (o + length bs)) (splice o bs (l ++ tl)) = splice o bs (take sz l).
Proof.
  intros Ho Hbs. unfold splice. rewrite take_take, Nat.min_l by lia.
  rewrite (take_app_le l tl o) by lia. rewrite take_app, length_take, Nat.min_l by lia.
  rewrite (take_ge (take o l)) by (rewrite length_take; lia). f_equal.
  rewrite take_app, take_ge by lia. f_equal.
  destruct (decide (sz <= o + length bs)%nat) as [Hle|Hgt].
  - rewrite Nat.max_r by lia. rewrite (drop_ge (take sz l)) by (rewrite length_take; lia).
    by replace (o + length bs - o - length bs)%nat with 0%nat by lia.
  - rewrite Nat.max_l, drop_app_le by lia. rewrite take_app_le by (rewrite length_drop; lia).
    rewrite take_drop_commute. f_equal. f_equal. lia.
Qed.

(** The number of bytes one write takes. *)
Definition write_len (o : Z) (n : nat) : nat :=
  Z.to_nat (Z.min (Z.min (Z.of_nat n) (csize - o mod csize)) (MAX_FILE_SIZE - o)).

Definition write_post (a : nat) (cs : list Z) (sz o : Z) (buf : list Z) (w : World)
    (r : File * result nat FsError) (w' : World) : Prop :=
  frame a cs w w' /\
  match r.2 with
  | Ok k =>
      k = write_len o (length buf) /\ r.1 = mkFile (Some a) (o + Z.of_nat k) /\
      exists cs', cs `prefix_of` cs' /\ open_file fs w' a cs' (sz `max` (o + Z.of_nat k)) /\
        file_bytes fs w' cs' (sz `max` (o + Z.of_nat k)) =
          splice (Z.to_nat o) (take k buf) (file_bytes fs w cs sz) /\
        free_clusters fs w' = free_clusters fs w - Z.of_nat (length cs' - length cs)
  | Err e =>
      e = NotEnoughSpace /\ used t (table fs w) 2 (total + 2) /\ r.1 = mkFile (Some a) o /\
      open_file fs w' a cs sz /\ file_bytes fs w' cs sz = file_bytes fs w cs sz
  end.

(** Bytes written in a cluster of a file. *)
Lemma content_write w w' cs i c r bs :
  volume_ok fs w -> file_chain fs w cs -> cs !! i = Some c -> (r + length bs <= Z.to_nat csize)%nat ->
  (forall c', 2 <= c' < total + 2 -> cluster_data fs w' c' =
     if decide (c' = c) then splice r bs (cluster_data fs w c) else cluster_data fs w c') ->
  content fs w' cs = splice (i * Z.to_nat csize + r) bs (content fs w cs).
Proof.
  intros Hv Hc Hi Hr Hd. pose proof (csize_pos fs _ (vo_layout fs w Hv)) as Hz.
  assert (Hnd : NoDup cs) by (destruct cs; [done|by eapply chain_NoDup, Hc]).
  unfold content. rewrite (splice_blocks (Z.to_nat csize) _ i (cluster_data fs w c)); try done; [|lia| |].
  2: { by apply blocks_size. }
  2: { by rewrite list_lookup_fmap, Hi. }
  f_equal. apply list_eq. intros j. destruct (decide (j = i)) as [->|Hne].
  - rewrite list_lookup_insert_eq by (rewrite length_fmap; by eapply lookup_lt_Some).
    rewrite list_lookup_fmap, Hi. cbn. rewrite Hd by (eapply file_chain_in; [done|by eapply list_elem_of_lookup_2]).
    by rewrite decide_True.
  - rewrite list_lookup_insert_ne, !list_lookup_fmap by done. destruct (cs !! j) as [c'|] eqn:Hj; [|done]. cbn.
    rewrite Hd by (eapply file_chain_in; [done|by eapply list_elem_of_lookup_2]).
    rewrite decide_False; [done|]. intros ->. apply Hne. by eapply NoDup_lookup.
Qed.

Lemma write_frame a cs w w1 w2 c o bs :
  frame a cs w w1 -> (c ∈ cs \/ entry t (table fs w) c = 0) ->
  volume_ok fs w2 -> table fs w2 = table fs w1 -> rest w2 = rest w1 ->
  (forall c', 2 <= c' < total + 2 -> cluster_data fs w2 c' =
     if decide (c' = c) then splice o bs (cluster_data fs w1 c) else cluster_data fs w1 c') ->
  frame a cs w w2.
Proof.
  intros [Hv1 Hh1 Hc1 Hd1 Hm1] Hc Hv2 Ht Hr Hd. injection Hr as Hi _ Hm. split; [done|..].
  - unfold hint_ok in *. by rewrite Hi.
  - unfold count_ok, free_clusters in *. by rewrite Hi, Ht.
  - intros ds Hds Hdis. destruct (Hd1 ds Hds Hdis) as [Hf He]. split; [by eapply file_chain_table|].
    rewrite <- He. apply content_same; [done|]. intros c' Hc' Hr. rewrite Hd, decide_False; try done.
    intros ->. destruct Hc as [Hc|H0]; [by apply (Hdis c)|].
    destruct ds as [|d ds]; [by apply not_elem_of_nil in Hc'|]. by destruct (proj2 Hds c Hc').
  - intros b Hb. rewrite Hm. by apply Hm1.
Qed.

Lemma dirty_quiet b w f Q :
  volume_ok fs w -> (forall w', quiet fs w w' -> Q (f, Ok tt) w') ->
  wp (on_fs (io_from (set_dirty_flag fs b)) f) Q w.
Proof.
  intros Hv HQ. apply wp_on_fs, wp_bind. eapply wp_mono; [apply set_dirty_flag_spec, Hv|].
  intros r w' (-> & Hlen & Hdrop & Hrest & Hm). apply wp_ret, HQ.
  pose proof (vo_layout fs w Hv) as [Hb _ _ _ _ _ _ _ _].
  assert (Hmir : forall i, mirror (bytes:=volume_bytes) (fat_begin fs) (fat_bytes fs) i w' =
                           mirror (bytes:=volume_bytes) (fat_begin fs) (fat_bytes fs) i w).
  { intros i. apply (part_above HEADER); [unfold fat_begin; lia|done]. }
  assert (Ht : table fs w' = table fs w) by apply (Hmir 0%nat).
  split; [|done]. split; [|split; [done|]].
  - split; [unfold len; rewrite Hlen; apply Hv|done|rewrite Ht; apply Hv|].
    intros i Hi. rewrite Hmir, Ht. by apply Hv.
  - unfold after_fat. replace (fat_end fs) with (HEADER + (fat_end fs - HEADER))%nat by (unfold fat_end, fat_begin; lia).
    by rewrite <- !drop_drop, Hdrop.
Qed.

(** The editor after a write. *)
Lemma after_write_spec f a w Q :
  f_metadata f = Some a ->
  (forall g, (forall ed, is_dir (data_ ed) = false ->
       is_dir (data_ (g ed)) = false /\ e_size (data_ (g ed)) = e_size (data_ ed) `max` f_offset f /\
       first_cluster t (data_ (g ed)) = first_cluster t (data_ ed)) -> Q (f, Ok tt) (edit a g w)) ->
  wp (update_dir_entry_after_write time_provider f) Q w.
Proof.
  intros Hf HQ. unfold update_dir_entry_after_write. apply wp_io_bind, wp_ret. cbn [fst snd]. rewrite Hf.
  apply wp_on_fs, upd_editor_spec, HQ. intros ed Hd. set (ed1 := ed_set_modified _ ed). cbn zeta.
  assert (H1 : is_dir (data_ ed1) = false /\ e_size (data_ ed1) = e_size (data_ ed) /\
               first_cluster t (data_ ed1) = first_cluster t (data_ ed)).
  { unfold ed1, ed_set_modified. by case_decide. }
  destruct H1 as (Hd1 & Hs1 & Hf1).
  assert (He : entry_size (data_ ed1) = Some (e_size (data_ ed))) by (unfold entry_size, is_file; by rewrite Hd1, Hs1).
  rewrite He. destruct (Z.ltb_spec (e_size (data_ ed)) (f_offset f)) as [Hlt|Hge].
  - unfold ed_set_size. rewrite He, (proj2 (Z.eqb_neq _ _)) by lia. split_and!; [done| |done]. cbn. lia.
  - split_and!; [done|lia|done].
Qed.

(** The file once the bytes are on the disk; its size is still the old one. *)
Lemma written_bytes a cs sz o bs w w1 w2 c :
  volume_ok fs w -> open_file fs w a cs sz -> 0 <= o <= sz -> cluster_post a cs sz o w (tt, Ok c) w1 ->
  o mod csize + len bs <= csize -> volume_ok fs w2 -> table fs w2 = table fs w1 -> rest w2 = rest w1 ->
  (forall c', 2 <= c' < total + 2 -> cluster_data fs w2 c' =
     if decide (c' = c) then splice (Z.to_nat (o mod csize)) bs (cluster_data fs w1 c)
     else cluster_data fs w1 c') ->
  frame a cs w w2 /\
  exists cs', cs `prefix_of` cs' /\ open_file fs w2 a cs' sz /\
    sz `max` (o + len bs) <= Z.of_nat (length cs') * csize /\
    file_bytes fs w2 cs' (sz `max` (o + len bs)) = splice (Z.to_nat o) bs (file_bytes fs w cs sz) /\
    free_clusters fs w2 = free_clusters fs w - Z.of_nat (length cs' - length cs).
Proof.
  intros Hv Hop Ho (Hfr & Hct & cs' & Hi & Hop1 & Hcs) Hbs Hv2 Ht Hrest Hd. cbn [snd] in Hi, Hop1, Hcs.
  pose proof (csize_pos fs _ (vo_layout fs w2 Hv2)) as Hz. pose proof (Z.div_mod o csize ltac:(lia)) as Hdm.
  pose proof (Z.mod_pos_bound o csize ltac:(lia)) as Hmb. pose proof (Z.div_pos o csize ltac:(lia) ltac:(lia)) as Hdp.
  pose proof (lookup_lt_Some _ _ _ Hi) as Hlt. pose proof Hop1 as (m & Hm & Hdir & Hs & Hf & Hc & Hsz & Hlen).
  destruct Hop as (_ & _ & _ & _ & _ & Hc0 & _ & Hlen0).
  assert (Hin : c ∈ cs \/ entry t (table fs w) c = 0).
  { destruct Hcs as [[-> _]|(_ & _ & H0 & _)]; [left; by eapply list_elem_of_lookup_2|by right]. }
  split; [by eapply write_frame|]. exists cs'.
  assert (Hpre : exists tl, cs' = cs ++ tl).
  { destruct Hcs as [[-> _]|(-> & _)]; [exists []; by rewrite app_nil_r|by eexists]. }
  destruct Hpre as [tl Htl]. split; [by exists tl|]. split.
  { injection Hrest as _ _ Hme. exists m. rewrite Hme. split_and!; try done; try lia. by eapply file_chain_table. }
  assert (Hend : sz `max` (o + len bs) <= Z.of_nat (length cs') * csize) by nia. split; [done|].
  split.
  - unfold file_bytes. rewrite (content_write w1 w2 cs' (Z.to_nat (o / csize)) c (Z.to_nat (o mod csize)) bs)
      by (done || apply Hfr || (unfold len in *; lia)).
    rewrite div_mod_nat by lia. pose proof (length_content fs w1 cs' (fr_volume _ _ _ _ Hfr) Hc) as Hl.
    pose proof (length_content fs w cs Hv Hc0) as Hl0. rewrite <- Hct in *. subst cs'.
    unfold content in *. rewrite fmap_app, concat_app in *. unfold len in *.
    replace (Z.to_nat (sz `max` (o + Z.of_nat (length bs)))) with (Z.to_nat sz `max` (Z.to_nat o + length bs))%nat by lia.
    apply take_splice_app; nia.
  - unfold free_clusters in *. rewrite Ht. destruct Hcs as [[-> ->]|(-> & _ & _ & ->)]; [lia|].
    rewrite length_app. simpl. lia.
Qed.

Lemma write_len_bound o n w :
  volume_ok fs w -> 0 <= o <= MAX_FILE_SIZE ->
  Z.of_nat (write_len o n) = Z.min (Z.min (Z.of_nat n) (csize - o mod csize)) (MAX_FILE_SIZE - o) /\
  o mod csize + Z.of_nat (write_len o n) <= csize.
Proof.
  intros Hv Ho. pose proof (csize_pos fs _ (vo_layout fs w Hv)) as Hz.
  pose proof (Z.mod_pos_bound o csize ltac:(lia)) as Hmb. unfold write_len. lia.
Qed.

Lemma write_nothing a cs sz o buf w :
  volume_ok fs w -> open_file fs w a cs sz -> 0 <= o <= sz -> write_len o (length buf) = 0%nat ->
  write_post a cs sz o buf w (mkFile (Some a) o, Ok 0%nat) w.
Proof.
  intros Hv Hop Ho Hk. split; [by apply quiet_frame, quiet_refl|]. cbn [fst snd]. rewrite Hk, Z.add_0_r, Z.max_l by lia.
  split_and!; try done. exists cs. split_and!; try done; [|lia].
  unfold splice. rewrite take_0. cbn [app length]. by rewrite Nat.add_0_r, take_drop.
Qed.

(** The end of a write: the position and the entry of the file. *)
Lemma write_end a cs cs' sz o buf k w w1 f :
  frame a cs w w1 -> cs `prefix_of` cs' -> open_file fs w1 a cs' sz -> 0 <= o ->
  f_metadata f = Some a -> f_offset f = o -> k = write_len o (length buf) ->
  o + Z.of_nat k < 2 ^ 32 -> sz `max` (o + Z.of_nat k) <= Z.of_nat (length cs') * csize ->
  file_bytes fs w1 cs' (sz `max` (o + Z.of_nat k)) = splice (Z.to_nat o) (take k buf) (file_bytes fs w cs sz) ->
  free_clusters fs w1 = free_clusters fs w - Z.of_nat (length cs' - length cs) ->
  wp ((_ ← set_file_offset (wrap 32 (o + Z.of_nat k)); _ ← update_dir_entry_after_write time_provider;
       mret k : M nat) f) (write_post a cs sz o buf w) w1.
Proof.
  intros Hfr Hpre (m & Hm & Hd & Hs & Hf & Hc & Hsz & Hlen) Ho Hfm Hfo Hk Hk32 Hend Hb Hfree.
  apply wp_io_bind. unfold set_file_offset. apply wp_io_bind, wp_ret. cbn [fst snd]. apply wp_ret. cbn [fst snd].
  rewrite Hfm, wrap_id by (unfold is_uint; lia). apply wp_io_bind. apply (after_write_spec _ a); [done|].
  intros g Hg. cbn [fst snd f_offset] in *. apply wp_ret. destruct (Hg (editor m) Hd) as (Hgd & Hgs & Hgf).
  split; [eapply write_frame_trans; [done|apply edit_frame, Hfr]|]. cbn [fst snd]. split; [done|]. split; [done|].
  exists cs'. split_and!; try done. apply (edit_open fs a g w1 cs' _ m); try done; [by rewrite Hgs, Hs|by rewrite Hgf|lia].
Qed.

Lemma write_section w c o bs :
  volume_ok fs w -> 2 <= c < total + 2 -> 0 <= o < csize -> o + len bs <= csize ->
  wp (disk_section (_ ← seek (Start (wrap 64 (offset_from_cluster fs c + o))); write bs) tt)
     (fun r w' => r.2 = Ok (length bs) /\ volume_ok fs w' /\ table fs w' = table fs w /\ rest w' = rest w /\
        forall c', 2 <= c' < total + 2 -> cluster_data fs w' c' =
          if decide (c' = c) then splice (Z.to_nat o) bs (cluster_data fs w c) else cluster_data fs w c') w.
Proof.
  intros Hv Hc Ho Hbs. destruct (cluster_range fs _ c (vo_layout fs w Hv) Hc) as [_ Hr].
  rewrite (cluster_position fs w c) by done. apply cluster_section_write; [done|done|lia|done|].
  intros d Hd Hdata Hpos. eapply wp_mono.
  { apply (flat_write (view:=data) (off:=fun _ => position) (J:=fun _ => disk_ok)); [done|].
    rewrite Hpos, Hdata. unfold volume_bytes in *. lia. }
  by intros r d' (Hr' & Hsp & _ & Hok).
Qed.

Lemma file_write_spec f a cs sz buf w :
  volume_ok fs w -> hint_ok w -> open_file fs w a cs sz -> f_metadata f = Some a -> 0 <= f_offset f <= sz ->
  wp (file_write time_provider fs buf f) (write_post a cs sz (f_offset f) buf w) w.
Proof.
  intros Hv Hh Hop Hf Ho. pose proof Hop as (m & Hm & Hd & Hs & Hfc & Hc & Hsz & Hlen).
  pose proof (csize_pos fs _ (vo_layout fs w Hv)) as Hz.
  assert (Hff : f = mkFile (Some a) (f_offset f)) by (destruct f; cbn in *; by subst).
  set (o := f_offset f) in *. assert (HM : 0 <= o <= MAX_FILE_SIZE) by (unfold MAX_FILE_SIZE; lia).
  destruct (write_len_bound o (length buf) w Hv HM) as [Hk Hkc].
  unfold file_write. apply wp_io_bind, wp_ret. cbn [fst snd]. apply wp_io_bind. fold o. unfold offset_in_cluster.
  rewrite (proj2 (Z.eqb_neq csize 0)) by lia. apply wp_ret. cbn [fst snd].
  change (len buf) with (Z.of_nat (length buf)). rewrite <- Hk.
  set (k := write_len o (length buf)) in *. rewrite Nat2Z.id.
  destruct (Z.eqb_spec (Z.of_nat k) 0) as [Hk0|Hk0].
  { apply wp_ret. rewrite Hff. apply write_nothing; try done. unfold k in *. lia. }
  apply wp_io_bind, dirty_quiet; [done|]. intros w1 Hq. cbn [fst snd].
  apply wp_io_bind. unfold file_arc. apply wp_io_bind, wp_ret. cbn [fst snd]. rewrite Hf. apply wp_ret. cbn [fst snd].
  pose proof (quiet_frame a cs w w1 Hv Hq) as Hfr1.
  apply wp_io_bind, wp_on_fs. eapply wp_mono.
  { apply (cluster_to_write_spec a cs sz o w1); [apply Hfr1|by apply Hfr1|by eapply quiet_open|done]. }
  intros r w2 Hp%(cluster_post_quiet a cs sz o w w1); try done. destruct r as [[] [c|e]]; cbn [fst snd].
  2: { destruct Hp as (Hfr & Hct & He & _ & Hu & _ & Hop2). split; [done|]. cbn [fst snd] in *.
       split_and!; try done. unfold file_bytes. by rewrite Hct. }
  pose proof Hp as (Hfr2 & _ & cs2 & Hi2 & (_ & _ & _ & _ & _ & Hc2 & _) & _). cbn [snd] in Hi2.
  assert (Hcr : 2 <= c < total + 2) by (eapply file_chain_in; [done|by eapply list_elem_of_lookup_2]).
  pose proof (fr_volume _ _ _ _ Hfr2) as Hv2. pose proof (Z.mod_pos_bound o csize ltac:(lia)) as Hmb.
  assert (Hlb : length (take k buf) = k) by (rewrite length_take; lia).
  assert (Hlb' : len (take k buf) = Z.of_nat k) by (unfold len; lia).
  apply wp_io_bind, wp_on_fs. eapply wp_mono; [apply write_section; try done; lia|]. rewrite Hlb.
  intros [[] r3] w3 (Hr3 & Hv3 & Ht3 & Hrest3 & Hd3). cbn in Hr3. subst r3. cbn [fst snd].
  rewrite (proj2 (Nat.eqb_neq k 0)) by lia.
  destruct (written_bytes a cs sz o (take k buf) w w2 w3 c) as (Hfr3 & cs' & Hpre & Hop3 & Hend & Hb3 & Hfree); try done; [lia|].
  rewrite Hlb' in *. eapply write_end; try done; unfold MAX_FILE_SIZE in *; lia.
Qed.

End write.
End FatFileWrite.
