(* ===== verification/FatTruncate.v ===== *)
(** * Truncating open files

    A truncation inside a file frees the clusters behind the position and
    keeps the bytes before it.  At position 0 it forgets the first cluster
    before it looks for it, and frees nothing. *)

From S2P Require Import Prelude Critical Disk DiskLaws FatTime FatBoot FatTable FatTableLaws FatChain FatEntry FatFs FatFsLaws FatVolume FatAlloc FatFile FatFileLaws FatFileWrite.

Module FatTruncate.
Import Disk DiskLaws FatTime FatBoot FatTable FatTableLaws FatChain FatEntry FatFs FatFsLaws FatVolume
  FatAlloc FatFile FatFileLaws FatFileWrite.
Local Open Scope Z_scope.

(** ** Parts of a chain *)

Lemma chain_drop t l c cs i c' : chain t l c cs -> cs !! i = Some c' -> chain t l c' (drop i cs).
Proof.
  intros Hc. revert i. induction Hc as [c He|c n cs Hl Hc IH]; intros i Hi.
  - destruct i; [injection Hi as <-; by constructor|done].
  - destruct i; [injection Hi as <-; by econstructor|by apply IH].
Qed.

Lemma chain_take t l l' c cs i c' :
  chain t l c cs -> cs !! i = Some c' -> link t l' c' = None ->
  (forall y, y ∈ take i cs -> entry t l' y = entry t l y) -> chain t l' c (take (S i) cs).
Proof.
  intros Hc. revert i. induction Hc as [c He|c n cs Hl Hc IH]; intros i Hi Hn Hs.
  - destruct i; [injection Hi as <-; by constructor|done].
  - destruct i as [|i]; [injection Hi as <-; by constructor|]. cbn [take].
    apply (chain_next _ _ c n).
    + unfold link in *. rewrite Hs; [done|by left].
    + apply IH; try done. intros y Hy. apply Hs. by right.
Qed.

Section truncate.
Context (fs : FileSystem).

Abbreviation t := (fat_type fs).
Abbreviation total := (fs_total_clusters fs).
Abbreviation csize := (fs_cluster_size fs).

Lemma own_chain_drop w c cs i c' :
  own_chain fs w c cs -> cs !! i = Some c' -> own_chain fs w c' (c' :: drop (S i) cs).
Proof.
  intros [Hc Hin] Hi. rewrite <- (drop_S cs c' i Hi). split; [by eapply chain_drop|].
  intros y Hy. apply Hin. by apply (subseteq_drop i).
Qed.

Lemma NoDup_parts (cs : list Z) i c :
  NoDup cs -> cs !! i = Some c -> (c ∉ take i cs) /\ (c ∉ drop (S i) cs) /\ (forall y, y ∈ take i cs -> y ∉ drop (S i) cs).
Proof.
  intros Hnd Hi. rewrite <- (take_drop_middle cs i c Hi) in Hnd.
  apply NoDup_app in Hnd as (_ & Hd & [Hn _]%NoDup_cons). split_and!; try done.
  - intros Hc. apply (Hd c Hc). left.
  - intros y Hy Hy'. apply (Hd y Hy). by right.
Qed.

(** What truncating the chain [cs] behind its [i]th cluster leaves. *)
Definition cut_post (a : nat) (cs : list Z) (i : nat) (w w' : World) : Prop :=
  frame fs a cs w w' /\ file_chain fs w' (take (S i) cs) /\ metadata w' = metadata w /\
  (forall c, 2 <= c < total + 2 -> cluster_data fs w' c = cluster_data fs w c) /\
  free_clusters fs w' = free_clusters fs w + Z.of_nat (length cs - S i).

Lemma cut_chain a cs i c w r w' :
  volume_ok fs w -> file_chain fs w cs -> cs !! i = Some c ->
  free_post fs (then_ (at_cluster c (encode t EndOfChain)) (freeing (drop (S i) cs)))
    (length (drop (S i) cs)) w r w' -> cut_post a cs i w w'.
Proof.
  intros Hv Hc Hi (_ & Hv' & Hme & _ & (_ & _ & He) & Hnx & Hn & Hfree & Hd).
  destruct cs as [|c0 cs0]; [done|]. set (cs := c0 :: cs0) in *. pose proof Hc as [Hch Hin].
  destruct (NoDup_parts cs i c (chain_NoDup _ _ _ _ Hch) Hi) as (Hn1 & Hn2 & Hn3).
  assert (Hcc : c ∈ cs) by (by eapply list_elem_of_lookup_2).
  assert (Hent : forall y, 2 <= y < total + 2 -> y ∉ drop (S i) cs -> entry t (table fs w') y =
                   if decide (y = c) then encode t EndOfChain else entry t (table fs w) y).
  { intros y Hy Hd'. destruct (He y) as [-> _]; [apply volume_fits; [done|lia]|].
    unfold then_, freeing, at_cluster. rewrite (decide_False (P:=y ∈ _)) by done. by case_decide. }
  split; [split; try done|split_and!; try done; [|by rewrite <- length_drop]].
  - unfold hint_ok. by rewrite Hnx.
  - unfold count_ok. rewrite Hn. destruct (free_cluster_count (fs_info w)) as [k|]; [|done].
    cbn [fmap option_fmap option_map]. intros ->. rewrite <- Hfree. pose proof (vo_layout fs w Hv) as [_ _ _ _ _ [H1 H2] _ _ _].
    pose proof (free_count_bound t (table fs w') 2 (total + 2) ltac:(lia)) as Hb.
    assert (entry_values t <= 2 ^ 28) by (destruct t; cbn; lia). apply wrap_id. unfold is_uint, free_clusters. lia.
  - intros ds Hds Hdis. split; [|by apply content_same; auto].
    destruct ds as [|d ds]; [done|]. destruct Hds as [Hdc Hdin].
    assert (Hs : forall y, y ∈ d :: ds -> entry t (table fs w') y = entry t (table fs w) y).
    { intros y Hy. rewrite Hent; [|by apply Hdin|intros Hyd; by apply (Hdis y Hy), (subseteq_drop (S i))].
      rewrite decide_False; [done|]. intros ->. by apply (Hdis c Hy). }
    split; [by eapply chain_same|]. intros y Hy. rewrite Hs by done. by apply Hdin.
  - intros b _. by rewrite Hme.
  - change (own_chain fs w' c0 (take (S i) cs)). split.
    + apply (chain_take t (table fs w) _ _ _ _ c Hch Hi).
      * apply link_end. rewrite Hent by (done || by apply Hin). by rewrite decide_True.
      * intros y Hy. rewrite Hent by (first [by apply Hn3 | apply Hin; by apply (subseteq_take i)]).
        rewrite decide_False; [done|]. by intros ->.
    + intros y Hy. assert (Hyc : y ∈ cs) by (by apply (subseteq_take (S i))).
      destruct (Hin y Hyc) as [Hr Hu]. split; [done|].
      rewrite Hent; [case_decide; [destruct t; cbn; lia|done]|done|].
      rewrite (take_S_r cs i c Hi) in Hy. apply elem_of_app in Hy as [Hy| ->%list_elem_of_singleton]; [by apply Hn3|done].
Qed.

(** ** Truncating a file *)

Lemma set_size_spec z ed :
  is_dir (data_ ed) = false ->
  is_dir (data_ (ed_set_size z ed)) = false /\ e_size (data_ (ed_set_size z ed)) = z /\
  first_cluster t (data_ (ed_set_size z ed)) = first_cluster t (data_ ed).
Proof.
  intros Hd. unfold ed_set_size, entry_size, is_file. rewrite Hd. cbn [negb].
  destruct (Z.eqb_spec z (e_size (data_ ed))); by subst.
Qed.

Lemma clear_first_cluster_spec ed :
  is_dir (data_ (ed_set_first_cluster t None ed)) = is_dir (data_ ed) /\
  e_size (data_ (ed_set_first_cluster t None ed)) = e_size (data_ ed) /\
  first_cluster t (data_ (ed_set_first_cluster t None ed)) = None.
Proof.
  unfold ed_set_first_cluster. case_decide as Hn; [done|]. split_and!; try done.
  unfold first_cluster, set_first_cluster. cbn. by destruct (decide (t = Fat32)).
Qed.

Lemma edit_lookup a g w m :
  metadata w !! a = Some m -> metadata (edit a g w) !! a = Some (mkShared (g (editor m)) (strong m)).
Proof. intros Hm. cbn [edit metadata set_metadata]. by rewrite list_lookup_alter_eq, Hm. Qed.

(** The start of [truncate] on a handle of the metadata [Hf] names. *)
Ltac truncate_start Hf :=
  unfold truncate; apply wp_io_bind; unfold file_arc; apply wp_io_bind, wp_ret; cbn [fst snd]; rewrite Hf;
  apply wp_ret; cbn [fst snd]; apply wp_io_bind, wp_ret; cbn [fst snd];
  apply wp_on_fs, wp_io_bind, upd_editor_spec; cbn [fst snd].

Definition truncate_post (a : nat) (cs : list Z) (sz o : Z) (w : World) (f : File)
    (r : File * result unit FsError) (w' : World) : Prop :=
  r = (f, Ok tt) /\ frame fs a cs w w' /\
  let cs' := take (Z.to_nat ((o + csize - 1) / csize)) cs in
  open_file fs w' a cs' o /\ file_bytes fs w' cs' o = take (Z.to_nat o) (file_bytes fs w cs sz) /\
  free_clusters fs w' = free_clusters fs w + Z.of_nat (length cs - length cs').

(** The bytes before the position. *)
Lemma truncated_bytes w w' cs sz o n :
  volume_ok fs w -> file_chain fs w cs -> 0 <= o <= sz -> o <= Z.of_nat n * csize -> (n <= length cs)%nat ->
  (forall c, 2 <= c < total + 2 -> cluster_data fs w' c = cluster_data fs w c) ->
  file_bytes fs w' (take n cs) o = take (Z.to_nat o) (file_bytes fs w cs sz).
Proof.
  intros Hv Hc Ho Hn Hl Hd. pose proof (csize_pos fs _ (vo_layout fs w Hv)) as Hz. unfold file_bytes.
  rewrite take_take, Nat.min_l by lia. rewrite <- (take_drop n cs) at 2. unfold content.
  rewrite fmap_app, concat_app, take_app_le.
  - do 2 f_equal. apply list_fmap_ext. intros i c Hi%list_elem_of_lookup_2. apply Hd.
    eapply file_chain_in; [done|]. by apply (subseteq_take n).
  - rewrite (length_blocks (Z.to_nat csize)).
    + rewrite length_fmap, length_take, Nat.min_l by lia. nia.
    + intros l (c & -> & Hin)%list_elem_of_fmap. apply length_cluster_data; [done|].
      eapply file_chain_in; [done|]. by apply (subseteq_take n).
Qed.

Lemma truncate_spec f a cs sz w :
  volume_ok fs w -> open_file fs w a cs sz -> f_metadata f = Some a -> 0 < f_offset f <= sz ->
  wp (truncate fs f) (truncate_post a cs sz (f_offset f) w f) w.
Proof.
  intros Hv (m & Hm & Hd & Hs & Hf & Hc & Hsz & Hlen) Hfm Ho.
  pose proof (csize_pos fs _ (vo_layout fs w Hv)) as Hz. set (o := f_offset f) in *.
  truncate_start Hfm. fold o. rewrite (proj2 (Z.eqb_neq o 0)) by lia.
  set (w1 := edit a (ed_set_size o) w). pose proof (edit_lookup a (ed_set_size o) w m Hm) as Hm1. fold w1 in Hm1.
  destruct (set_size_spec o (editor m) Hd) as (Hd1 & Hs1 & Hf1).
  apply wp_io_bind, wp_ret. cbn [fst snd]. apply wp_io_bind. eapply get_editor_spec; [exact Hm1|]. cbn [fst snd].
  assert (Hv1 : volume_ok fs w1) by (by apply edit_volume).
  apply wp_io_bind. eapply wp_mono.
  { apply (current_cluster_spec fs w1 _ cs o Hv1); [done|cbn [editor]; by rewrite Hf1|lia|lia]. }
  intros [[] r1] w2 (Hr1 & Hq2). cbn in Hr1. subst r1. cbn [fst snd].
  assert (Hdiv : (o + csize - 1) / csize = (o - 1) / csize + 1).
  { replace (o + csize - 1) with (o - 1 + 1 * csize) by lia. by rewrite Z.div_add by lia. }
  assert (Hi : 0 <= (o - 1) / csize < Z.of_nat (length cs)).
  { split; [apply Z.div_pos; lia|]. apply Z.div_lt_upper_bound; nia. }
  destruct (lookup_lt_is_Some_2 cs (Z.to_nat ((o - 1) / csize))) as [c Hcc]; [lia|]. rewrite Hcc.
  set (i := Z.to_nat ((o - 1) / csize)) in *. pose proof Hq2 as [(Hv2 & Hrest & _) Ht2].
  assert (Hc2 : file_chain fs w2 cs) by (by eapply file_chain_table).
  eapply wp_mono.
  { apply (truncate_cluster_chain_spec fs c (drop (S i) cs)); [done|].
    destruct cs as [|c0 cs0]; [done|]. by eapply own_chain_drop. }
  intros r3 w3 Hp. pose proof Hp as (Hr3 & _).
  apply (cut_chain a cs i c) in Hp as (Hfr & Hch & Hme & Hdat & Hfree); try done.
  assert (Hn : Z.to_nat ((o + csize - 1) / csize) = S i) by (unfold i; lia).
  unfold truncate_post. rewrite Hn, Hr3. split; [done|].
  split; [eapply write_frame_trans; [by apply edit_frame|]; eapply write_frame_trans; [by apply quiet_frame|done]|].
  assert (Hend : o <= Z.of_nat (S i) * csize).
  { pose proof (Z.div_mod (o - 1) csize ltac:(lia)). pose proof (Z.mod_pos_bound (o - 1) csize ltac:(lia)). unfold i. nia. }
  injection Hrest as _ _ Hm2. cbn zeta. split; [|split].
  - eexists. rewrite Hme, Hm2. split; [exact Hm1|]. cbn [editor]. rewrite Hf1, Hf, length_take.
    split_and!; try done; try lia; first [by destruct cs|nia].
  - apply (truncated_bytes w w3); try done; try lia. intros x Hx. rewrite Hdat by done.
    apply (cluster_data_after fs w1); [done|by apply Hq2|done].
  - rewrite Hfree, length_take. unfold free_clusters. rewrite Ht2. change (table fs w1) with (table fs w). lia.
Qed.

(** At position 0 the chain of the file stays in the table. *)
Lemma truncate_zero_spec f a cs sz w :
  volume_ok fs w -> open_file fs w a cs sz -> f_metadata f = Some a -> f_offset f = 0 ->
  wp (truncate fs f)
     (fun r w' => r = (f, Ok tt) /\ open_file fs w' a [] 0 /\ volume_ok fs w' /\
                  table fs w' = table fs w /\ fs_info w' = fs_info w) w.
Proof.
  intros Hv (m & Hm & Hd & Hs & Hf & Hc & Hsz & Hlen) Hfm Ho.
  truncate_start Hfm. rewrite Ho. cbn [Z.eqb].
  set (w1 := edit a (ed_set_size 0) w). pose proof (edit_lookup a (ed_set_size 0) w m Hm) as Hm1. fold w1 in Hm1.
  destruct (set_size_spec 0 (editor m) Hd) as (Hd1 & Hs1 & _).
  apply wp_io_bind, upd_editor_spec. cbn [fst snd]. set (w2 := edit a _ w1).
  pose proof (edit_lookup a (ed_set_first_cluster t None) w1 _ Hm1) as Hm2. fold w2 in Hm2. cbn [editor strong] in Hm2.
  destruct (clear_first_cluster_spec (ed_set_size 0 (editor m))) as (Hd2 & Hs2 & Hf2).
  apply wp_io_bind. eapply get_editor_spec; [exact Hm2|]. cbn [fst snd]. apply wp_io_bind, wp_ret. cbn [fst snd editor].
  rewrite Hf2. apply wp_ret. split; [done|]. split; [|split_and!; try done; by do 2 apply edit_volume].
  eexists. split; [exact Hm2|]. cbn [editor]. rewrite Hd2, Hs2, Hd1, Hs1, Hf2. split_and!; done || (simpl; lia).
Qed.

End truncate.
End FatTruncate.
