(* ===== verification/FatLayout.v ===== *)
(** * The layout formatting chooses

    The geometry [format_bpb] computes has a table with an entry for every
    cluster, and its parts follow each other on the disk without overlap or
    wraparound: the volume satisfies [layout_ok]. *)

From S2P Require Import Prelude Critical Disk DiskLaws FatBoot FatTable FatTableLaws FatChain FatEntry FatFs FatFsLaws FatVolume.

Module FatLayout.
Import Disk DiskLaws FatBoot FatTable FatTableLaws FatChain FatEntry FatFs FatFsLaws FatVolume.
Local Open Scope Z_scope.

(** What the methods that set the options assert. *)
Record options_ok (o : FormatVolumeOptions) : Prop := {
  oo_bps : 512 <= o_bytes_per_sector o < 2 ^ 16;
  oo_cluster : match o_bytes_per_cluster o with Some n => 512 <= n < 2 ^ 32 | None => True end;
  oo_fats : 1 <= o_fats o <= 2;
  oo_root : 0 <= o_max_root_dir_entries o < 2 ^ 16
}.

(** ** The size of the table *)

Lemma div_ceil_ret a b q : div_ceil a b = Ret q -> b <> 0 /\ q = (a + b - 1) / b.
Proof. unfold div_ceil. destruct (Z.eqb_spec b 0); [done|]. by intros [= <-]. Qed.

Lemma udiv_ret a b q : udiv a b = Ret q -> b <> 0 /\ q = a / b.
Proof. unfold udiv. destruct (Z.eqb_spec b 0); [done|]. by intros [= <-]. Qed.

Lemma ceil_bounds a b : 0 <= a -> 0 < b -> a <= (a + b - 1) / b * b < a + b.
Proof.
  intros Ha Hb. pose proof (Z.div_mod (a + b - 1) b ltac:(lia)). pose proof (Z.mod_pos_bound (a + b - 1) b Hb). lia.
Qed.

(** The layout of [total] sectors in four parts, for sectors of [bps] bytes. *)
Record parts_ok (t : FatType) (total bps spc reserved fats spf root clusters : Z) : Prop := {
  po_table : (clusters + 2) * bits_per_fat_entry t <= spf * bps * 8;
  po_sum : reserved + fats * spf + root + clusters * spc <= total;
  po_spf : 0 < spf;
  po_rest : 0 < total - (reserved + fats * spf + root);
  po_clusters : clusters = (total - (reserved + fats * spf + root)) / spc
}.

Lemma sectors_per_fat_bounds total bps spc t reserved root fats spf :
  0 <= total < 2 ^ 32 -> 512 <= bps < 2 ^ 16 -> 0 < spc <= 255 -> 1 <= fats <= 2 ->
  0 <= reserved -> 0 <= root -> reserved + root + 8 < total -> spc * bps * 8 < 2 ^ 32 ->
  determine_sectors_per_fat total bps spc t reserved root fats = Ret spf ->
  let t0 := total - reserved - root in
  0 < spf /\ fats * spf < t0 /\
  t0 + 2 * spc <= spf * (spc * bps * 8 / bits_per_fat_entry t + fats).
Proof.
  intros Ht Hb Hs Hf Hre Hro Hlt Hw. unfold determine_sectors_per_fat.
  rewrite (wrap_id 32 (total - reserved)) by (unfold is_uint; lia).
  rewrite (wrap_id 32 (total - reserved - root)) by (unfold is_uint; lia).
  rewrite (wrap_id 32 (spc * bps)) by (unfold is_uint; nia).
  rewrite (wrap_id 32 (spc * bps * 8)) by (unfold is_uint; nia).
  set (K := spc * bps * 8 / bits_per_fat_entry t).
  assert (HK : 128 * spc <= K < 2 ^ 31).
  { unfold K. split; [apply Z.div_le_lower_bound; destruct t; cbn; nia|].
    apply Z.div_lt_upper_bound; destruct t; cbn; lia. }
  rewrite (wrap_id 32 (K + fats)) by (unfold is_uint; lia).
  set (t0 := total - reserved - root). set (t1 := t0 + 2 * spc). set (t2 := K + fats).
  destruct (div_ceil t1 t2) as [q|] eqn:Hq; [|done]. cbn. apply div_ceil_ret in Hq as [_ ->].
  pose proof (ceil_bounds t1 t2 ltac:(unfold t1, t0; lia) ltac:(unfold t2; lia)) as Hc.
  set (q := (t1 + t2 - 1) / t2) in *. intros [= <-].
  assert (Ht1 : 0 < t1) by (unfold t1, t0; lia). assert (Ht2 : 128 * spc <= t2) by (unfold t2; lia).
  assert (Hq1 : 0 < q) by nia. assert (9 <= t0 < 2 ^ 32) by (unfold t0; lia).
  assert (Hm : (q - 1) * (128 * spc) < t0 + 2 * spc) by (unfold t1 in *; nia).
  assert (Hm' : (q - 1) * 128 - 2 < t0) by nia.
  rewrite wrap_id by (unfold is_uint; lia). split; [lia|]. split; [|unfold t1 in *; lia].
  destruct (decide (q = 1)) as [->|]; [lia|]. nia.
Qed.

Lemma table_size clusters spc spf fats bps bits K t0 :
  0 < spc -> 0 < bits -> 0 <= spf -> clusters * spc <= t0 - fats * spf ->
  t0 + 2 * spc <= spf * (K + fats) -> K * bits <= spc * bps * 8 ->
  (clusters + 2) * bits <= spf * bps * 8.
Proof.
  intros Hs Hb Hf Hc Ht HK. apply (Z.mul_le_mono_pos_r _ _ spc Hs).
  assert (H1 : (clusters + 2) * spc <= spf * K) by lia.
  apply (Z.mul_le_mono_nonneg_r _ _ bits) in H1; [|lia].
  apply (Z.mul_le_mono_nonneg_l _ _ spf) in HK; [|lia]. lia.
Qed.

Definition reserved_of (t : FatType) : Z := if decide (t = Fat32) then 8 else 1.

Lemma try_fs_layout_spec {E} total bps spc t root fats reserved spf :
  0 <= total < 2 ^ 32 -> 512 <= bps < 2 ^ 16 -> 0 <= spc <= 255 -> 1 <= fats <= 2 -> 0 <= root < 2 ^ 16 ->
  try_fs_layout (E:=E) total bps spc t root fats = Ret (Ok (reserved, spf)) ->
  exists clusters, parts_ok t total bps spc reserved fats spf root clusters /\ 0 < spc /\
    reserved = reserved_of t /\ from_clusters clusters = t /\ 0 <= clusters <= max_clusters t.
Proof.
  intros Ht Hb Hs Hf Hr. unfold try_fs_layout. fold (reserved_of t). set (rs := reserved_of t).
  assert (Hrs : 1 <= rs <= 8) by (unfold rs, reserved_of; case_decide; lia).
  rewrite (wrap_id 32 (rs + root)) by (unfold is_uint; lia).
  rewrite (wrap_id 32 (rs + root + 8)) by (unfold is_uint; lia).
  destruct (Z.leb_spec total (rs + root + 8)) as [|Hlt]; [done|].
  destruct (determine_sectors_per_fat _ _ _ _ _ _ _) as [q|] eqn:Hq; [|done]. cbn.
  destruct (decide (spc = 0)) as [->|Hne]; [done|].
  destruct (sectors_per_fat_bounds total bps spc t rs root fats q Ht Hb ltac:(lia) Hf ltac:(lia) ltac:(lia) ltac:(lia) ltac:(nia) Hq)
    as (Hq0 & Hq1 & Hq2).
  rewrite (wrap_id 32 (total - rs)) by (unfold is_uint; lia).
  rewrite (wrap_id 32 (total - rs - root)) by (unfold is_uint; lia).
  rewrite (Z.mul_comm q fats), (wrap_id 32 (fats * q)) by (unfold is_uint; nia).
  rewrite (wrap_id 32 (total - rs - root - _)) by (unfold is_uint; nia).
  unfold udiv. rewrite (proj2 (Z.eqb_neq spc 0)) by done. cbn.
  set (n := (total - rs - root - fats * q) / spc).
  destruct (bool_decide_reflect (t = from_clusters n)) as [Hty|]; [|done]. cbn.
  destruct (Z.ltb_spec (max_clusters t) n) as [|Hmax]; [done|]. intros [= <- <-].
  pose proof (Z.div_mod (total - rs - root - fats * q) spc Hne) as Hdm. fold n in Hdm.
  pose proof (Z.mod_pos_bound (total - rs - root - fats * q) spc ltac:(lia)) as Hmb.
  assert (Hn : 0 <= n) by (apply Z.div_pos; lia).
  exists n. split_and!; try done; try lia. split; try lia.
  - eapply (table_size n spc q fats bps _ _ (total - rs - root)); try lia; [by destruct t|exact Hq2|].
    rewrite Z.mul_comm. apply Z.mul_div_le. by destruct t.
  - unfold n. f_equal. lia.
Qed.

(** ** The layout of a volume *)

Lemma root_dir_bound entries bps t root :
  0 <= entries < 2 ^ 16 -> 512 <= bps -> determine_root_dir_sectors entries bps t = Ret root ->
  0 <= root < 2 ^ 16.
Proof.
  intros He Hb. unfold determine_root_dir_sectors, DIR_ENTRY_SIZE. case_decide; [intros [= <-]; lia|].
  rewrite wrap_id by (unfold is_uint; lia). intros [_ ->]%div_ceil_ret.
  split; [apply Z.div_pos; lia|]. apply Z.div_lt_upper_bound; nia.
Qed.

(** The layout [l] of [total] sectors has [n] clusters. *)
Definition layout_parts (o : FormatVolumeOptions) (total : Z) (l : FsLayout) (root n : Z) : Prop :=
  determine_root_dir_sectors (o_max_root_dir_entries o) (o_bytes_per_sector o) (l_fat_type l) = Ret root /\
  parts_ok (l_fat_type l) total (o_bytes_per_sector o) (l_sectors_per_cluster l) (l_reserved_sectors l)
    (o_fats o) (l_sectors_per_fat l) root n /\
  0 < l_sectors_per_cluster l <= 255 /\ 0 < l_reserved_sectors l <= 8 /\
  from_clusters n = l_fat_type l /\ 0 <= n <= max_clusters (l_fat_type l).

Lemma select_fat_type_spec {E} o total spc ts l :
  options_ok o -> 0 <= total < 2 ^ 32 -> 0 <= spc <= 255 ->
  select_fat_type (E:=E) o total spc ts = Ret (Ok l) ->
  exists root n, layout_parts o total l root n.
Proof.
  intros [Hb _ Hf Hr] Ht Hs. induction ts as [|t ts IH]; [done|]. cbn [select_fat_type].
  destruct (determine_root_dir_sectors _ _ _) as [root|] eqn:Hroot; [|done]. cbn.
  destruct (try_fs_layout _ _ _ _ _ _) as [[[reserved spf]|e]|] eqn:Htry; [|done|done].
  intros [= <-]. pose proof (root_dir_bound _ (o_bytes_per_sector o) _ _ Hr ltac:(lia) Hroot) as Hrb.
  destruct (try_fs_layout_spec _ _ _ _ _ _ _ _ Ht Hb Hs Hf Hrb Htry) as (n & Hp & Hs' & -> & Hty & Hn).
  exists root, n. unfold layout_parts. cbn. split_and!; try done; try lia; unfold reserved_of; case_decide; lia.
Qed.

Lemma clamp_ret z lo hi n : clamp z lo hi = Ret n -> lo <= n <= hi.
Proof. unfold clamp. destruct (Z.ltb_spec hi lo); [done|]. intros [= <-]. lia. Qed.

Lemma determine_fs_layout_spec {E} o total l :
  options_ok o -> 0 <= total < 2 ^ 32 -> determine_fs_layout (E:=E) o total = Ret (Ok l) ->
  exists root n, layout_parts o total l root n.
Proof.
  intros Ho Ht. unfold determine_fs_layout. pose proof Ho as [Hb Hc Hf Hr].
  set (c := match o_bytes_per_cluster o with Some _ => _ | None => _ end).
  assert (Hcr : forall n, c = Ret n -> 0 <= n).
  { intros n Hn. unfold c in Hn. destruct (o_bytes_per_cluster o); [injection Hn as <-; lia|].
    apply clamp_ret in Hn. lia. }
  destruct c as [n|]; [|done]. specialize (Hcr n eq_refl). cbn.
  destruct (udiv n (o_bytes_per_sector o)) as [spc|] eqn:Hu; [|done]. cbn. apply udiv_ret in Hu as [_ ->].
  destruct (Z.ltb_spec 255 (n / o_bytes_per_sector o)); [done|].
  apply select_fat_type_spec; try done. split; [|lia]. apply Z.div_pos; lia.
Qed.

(** The fields of the parameter block of a layout. *)
Lemma format_bpb_fields {E} o total b t :
  options_ok o -> 0 <= total < 2 ^ 32 -> format_bpb (E:=E) o total = Ret (Ok (b, t)) ->
  exists l root n, layout_parts o total l root n /\ t = l_fat_type l /\
    bytes_per_sector b = o_bytes_per_sector o /\ sectors_per_cluster b = l_sectors_per_cluster l /\
    reserved_sectors b = l_reserved_sectors l /\ fats b = o_fats o /\
    sectors_per_fat b = l_sectors_per_fat l /\ total_sectors b = total /\
    root_dir_sectors b = Ret root /\ mirroring_enabled b = true.
Proof.
  intros Ho Ht. unfold format_bpb. destruct (determine_fs_layout o total) as [[l|e]|] eqn:Hl; [|done|done].
  destruct (determine_fs_layout_spec o total l Ho Ht Hl) as (root & n & Hp). cbn.
  destruct (negb _ && _); [done|]. cbn. set (b' := mkBpb _ _ _ _ _ _ _ _ _ _ _ _ _ _ _ _ _ _ _ _ _ _ _ _ _).
  destruct (total_clusters b') as [k|]; [|done]. cbn. destruct (negb _); [done|]. intros [= <- <-].
  exists l, root, n. pose proof Hp as (Hroot & [_ _ Hspf _ _] & _). split; [done|]. split; [done|].
  unfold sectors_per_fat, is_fat32, total_sectors, root_dir_sectors, mirroring_enabled, b'. cbn.
  unfold determine_root_dir_sectors in Hroot. destruct (bool_decide_reflect (l_fat_type l = Fat32)) as [H32|Hn32].
  - rewrite decide_True in Hroot by done. injection Hroot as <-. split_and!; try done.
    unfold div_ceil. destruct Ho as [Hb _ _ _]. rewrite (proj2 (Z.eqb_neq _ 0)) by lia. f_equal.
    apply Z.div_small. vm_compute (wrap 32 (0 * DIR_ENTRY_SIZE)). lia.
  - rewrite decide_False in Hroot by done. rewrite (proj2 (Z.eqb_neq (l_sectors_per_fat l) 0)) by lia.
    split_and!; try done. destruct (65535 <? total); cbn; [done|]. by destruct (Z.eqb_spec total 0).
Qed.

Lemma parts_slice u t b fds rds n total spc reserved fats_ spf root :
  parts_ok t total (bytes_per_sector b) spc reserved fats_ spf root n ->
  0 <= total < 2 ^ 32 -> 512 <= bytes_per_sector b < 2 ^ 16 -> 0 < spc <= 255 -> 0 <= reserved <= 8 ->
  1 <= fats_ <= 2 -> 0 <= root -> 0 <= n ->
  reserved_sectors b = reserved -> fats b = fats_ -> sectors_per_fat b = spf -> mirroring_enabled b = true ->
  let s := slice0 (mkFs u t b fds rds n) in
  begin s = reserved * bytes_per_sector b /\ size s = spf * bytes_per_sector b /\ mirrors s = fats_.
Proof.
  intros [_ Hsum Hspf _ _] Ht Hb Hs Hr Hf Hro Hn <- <- <- Hm s. unfold s, slice0, fat_slice. cbn [fs_bpb].
  rewrite Hm. unfold from_sectors, slice_new, bytes_from_sectors. cbn [begin size mirrors].
  rewrite !wrap_id by (unfold is_uint; nia). done.
Qed.

Lemma entry_end t n : 0 <= n -> (entry_offset t (n + 1) + entry_bytes t) * 8 < (n + 2) * bits_per_fat_entry t + 8.
Proof. intros Hn. destruct t; cbn; dlia. Qed.

Lemma entry_room t n : from_clusters n = t -> n <= max_clusters t -> n + 2 <= entry_values t - 9.
Proof.
  unfold from_clusters, max_clusters, FAT16_MIN_CLUSTERS, FAT32_MIN_CLUSTERS, FAT32_MAX_CLUSTERS. intros <-.
  destruct (Z.ltb_spec n 4085); [cbn; lia|]. destruct (Z.ltb_spec n 65525); cbn; lia.
Qed.

(** C30: formatting lays the volume out so that every cluster has an entry in
    the table, the copies of the table, the root directory and the clusters
    follow each other within the volume, and no position of them wraps around. *)
Theorem format_lays_out_the_volume (u : bool) o total b t :
  options_ok o -> 0 <= total < 2 ^ 32 -> format_bpb (E:=DiskError) o total = Ret (Ok (b, t)) ->
  exists fds rds n,
    first_data_sector b = Ret fds /\ root_dir_sectors b = Ret rds /\ total_clusters b = Ret n /\
    from_clusters n = t /\
    (0 < n -> layout_ok (mkFs u t b fds rds n) (total * bytes_per_sector b)).
Proof.
  intros Ho Ht Hf. destruct (format_bpb_fields o total b t Ho Ht Hf)
    as (l & root & n & (Hroot & Hp & Hspc & Hres & Hty & Hn) & -> & Hb & Hs & Hr & Hfa & Hspf & Hts & Hrd & Hm).
  pose proof Ho as [Hbps _ Hf2 Hre]. pose proof Hp as [Htab Hsum Hspf0 Hrest Hcl].
  pose proof (root_dir_bound _ (o_bytes_per_sector o) _ _ Hre ltac:(lia) Hroot) as Hrb.
  set (fds := l_reserved_sectors l + o_fats o * l_sectors_per_fat l + root) in *.
  assert (Hfp : 0 <= o_fats o * l_sectors_per_fat l) by nia. assert (Hnp : 0 <= n * l_sectors_per_cluster l) by nia.
  assert (Hfds : first_data_sector b = Ret fds).
  { unfold first_data_sector, sectors_per_all_fats. rewrite Hrd. cbn. rewrite Hr, Hfa, Hspf.
    rewrite (wrap_id 32 (o_fats o * _)) by (unfold is_uint, fds in *; lia).
    rewrite (wrap_id 32 (_ + o_fats o * _)) by (unfold is_uint, fds in *; lia).
    rewrite wrap_id by (unfold is_uint, fds in *; lia). done. }
  assert (Hfdr : 0 <= fds) by (unfold fds; lia).
  assert (Htc : total_clusters b = Ret n).
  { unfold total_clusters. rewrite Hfds. cbn. rewrite Hts, Hs, wrap_id by (unfold is_uint; lia).
    unfold udiv. rewrite (proj2 (Z.eqb_neq _ 0)) by lia. by rewrite Hcl. }
  exists fds, root, n. split_and!; try done. intros Hn0. rewrite <- Hb in *.
  destruct (parts_slice u _ b fds root n _ _ _ _ _ _ Hp) as (Hbeg & Hsz & Hmir); try done; try lia.
  pose proof (entry_end (l_fat_type l) n ltac:(lia)) as Hee. pose proof (entry_room _ n Hty ltac:(lia)) as Her.
  assert (Hcs : fs_cluster_size (mkFs u (l_fat_type l) b fds root n) = l_sectors_per_cluster l * bytes_per_sector b).
  { unfold fs_cluster_size, cluster_size. cbn [fs_bpb]. rewrite Hs. apply wrap_id. unfold is_uint. nia. }
  split; rewrite ?Hbeg, ?Hsz, ?Hmir, ?Hcs; unfold data_begin, HEADER;
    cbn [fs_bpb fs_first_data_sector fs_total_clusters fat_type]; rewrite ?Hs; try done; try lia; unfold fds in *; nia.
Qed.

Lemma format_lays_out_the_volume_witness :
  exists b, format_bpb (E:=DiskError) default_options 2880 = Ret (Ok (b, Fat12)) /\
  exists fds rds n, first_data_sector b = Ret fds /\ root_dir_sectors b = Ret rds /\
    total_clusters b = Ret n /\ from_clusters n = Fat12 /\
    (0 < n -> layout_ok (mkFs false Fat12 b fds rds n) (2880 * bytes_per_sector b)).
Proof.
  eexists. split; [vm_compute; reflexivity|].
  apply (format_lays_out_the_volume false default_options 2880); [|lia|vm_compute; reflexivity].
  split; cbn; lia.
Defined.
End FatLayout.
