(* ===== verification/FatCodec.v ===== *)
(** * Round trips of the structures on the disk

    What the [serialize] functions write, the [deserialize] functions read
    back: the boot sector, the information sector and the entries of
    directories.  [writes] and [parses] relate code to the bytes it writes or
    reads from where a stream is. *)

From S2P Require Import Prelude Critical Disk DiskLaws FatBoot FatTable FatTableLaws FatEntry FatFs FatAlloc.

Module FatCodec.
Import Disk DiskLaws FatBoot FatTable FatTableLaws FatEntry FatFs FatAlloc.
Local Open Scope Z_scope.

Section codec.
Context {W S E : Type} `{HE : IoError E} `{HS : Storage W S E}.
Context {view : W -> list Z} {off : S -> W -> Z} {J : S -> W -> Prop} `{HF : !FlatLaws view off J}.

Definition writes (m : io W S E unit) (bs : list Z) : Prop :=
  forall s w, J s w -> off s w + len bs <= len (view w) ->
  wp (m s) (fun r w' => r.2 = Ok tt /\ view w' = splice (Z.to_nat (off s w)) bs (view w) /\
                        off r.1 w' = off s w + len bs /\ J r.1 w') w.

Definition parses {A} (m : io W S E A) (bs : list Z) (a : A) : Prop :=
  forall s w, J s w -> off s w + len bs <= len (view w) ->
  part (Z.to_nat (off s w)) (length bs) (view w) = bs ->
  wp (m s) (fun r w' => r.2 = Ok a /\ view w' = view w /\ off r.1 w' = off s w + len bs /\ J r.1 w') w.

Lemma len_app (a b : list Z) : len (a ++ b) = len a + len b.
Proof. unfold len. rewrite length_app. lia. Qed.

Lemma writes_nil : writes (mret tt) [].
Proof.
  intros s w HJ _. apply wp_ret. cbn. split_and!; try done; [|unfold len; simpl; lia].
  by rewrite splice_nil.
Qed.

Lemma writes_all bs : writes (write_all bs) bs.
Proof. intros s w HJ Hl. by apply (flat_write_all (view:=view) (off:=off) (J:=J)). Qed.

Lemma writes_bind m1 m2 b1 b2 : writes m1 b1 -> writes m2 b2 -> writes (_ ← m1; m2) (b1 ++ b2).
Proof.
  intros H1 H2 s w HJ Hl. rewrite len_app in *. pose proof (flat_off s w HJ) as Ho.
  apply wp_io_bind. eapply wp_mono; [apply H1; [done|unfold len in *; lia]|].
  intros [s1 r1] w1 (Hr & Hv & Ho1 & HJ1). cbn in Hr. subst r1. cbn [fst snd] in *.
  assert (Hlen : len (view w1) = len (view w)).
  { rewrite Hv. unfold len in *. rewrite length_splice; lia. }
  eapply wp_mono; [apply H2; [done|lia]|]. intros r w2 (Hr & Hv2 & Ho2 & HJ2).
  split_and!; try done; [|lia]. rewrite Hv2, Hv, Ho1. rewrite <- splice_app by (unfold len in *; lia).
  f_equal. unfold len in *. lia.
Qed.

Lemma parses_ret {A} (a : A) : parses (mret a) [] a.
Proof. intros s w HJ _ _. apply wp_ret. cbn. split_and!; try done. unfold len. simpl. lia. Qed.

Lemma parses_exact n bs : length bs = n -> parses (read_exact n) bs bs.
Proof.
  intros <- s w HJ Hl Hp. eapply wp_mono; [apply (flat_read_exact (view:=view) (off:=off) (J:=J)); done|].
  intros r w' (Hr & Hv & Ho & HJ'). by rewrite Hp in Hr.
Qed.

Lemma parses_bind {A B} (m : io W S E A) (k : A -> io W S E B) a b b1 b2 :
  parses m b1 a -> parses (k a) b2 b -> parses (x ← m; k x) (b1 ++ b2) b.
Proof.
  intros H1 H2 s w HJ Hl Hp. rewrite len_app in *. rewrite length_app in Hp. pose proof (flat_off s w HJ) as Ho.
  rewrite part_app in Hp by (unfold len in *; lia). apply app_inj_1 in Hp as [Hp1 Hp2].
  2: { apply length_part. unfold len in *. lia. }
  apply wp_io_bind. eapply wp_mono; [apply H1; [done|unfold len in *; lia|done]|].
  intros [s1 r1] w1 (Hr & Hv & Ho1 & HJ1). cbn in Hr. subst r1. cbn [fst snd] in *.
  eapply wp_mono; [apply H2; [done|rewrite Hv; lia|rewrite Hv, Ho1; exact Hp2]|].
  intros r w2 (Hr & Hv2 & Ho2 & HJ2). split_and!; try done; [congruence|lia].
Qed.

Lemma from_to_le n z : is_uint (8 * Z.of_nat n) z -> from_le_bytes (to_le_bytes n z) = z.
Proof.
  unfold is_uint. revert z. induction n as [|n IH]; intros z Hz; [simpl in *; lia|]. cbn [to_le_bytes from_le_bytes].
  rewrite IH; [dlia|]. rewrite Nat2Z.inj_succ in Hz.
  replace (8 * Z.succ (Z.of_nat n)) with (8 + 8 * Z.of_nat n) in Hz by lia. rewrite Z.pow_add_r in Hz by lia.
  change (2 ^ 8) with 256 in Hz. split; [apply Z.div_pos; lia|apply Z.div_lt_upper_bound; lia].
Qed.

Lemma parses_le n z :
  is_uint (8 * Z.of_nat n) z ->
  parses (buf ← read_exact n; mret (from_le_bytes buf) : io W S E Z) (to_le_bytes n z) z.
Proof.
  intros Hz. rewrite <- (app_nil_r (to_le_bytes n z)). eapply parses_bind; [by apply parses_exact, length_to_le|].
  rewrite from_to_le by done. apply parses_ret.
Qed.

Lemma parses_u8 z : is_uint 8 z -> parses read_u8 (to_le_bytes 1 z) z.
Proof. apply (parses_le 1). Qed.
Lemma parses_u16 z : is_uint 16 z -> parses read_u16_le (to_le_bytes 2 z) z.
Proof. apply (parses_le 2). Qed.
Lemma parses_u32 z : is_uint 32 z -> parses read_u32_le (to_le_bytes 4 z) z.
Proof. apply (parses_le 4). Qed.

(** What has been written can be read again. *)
Lemma codec_round_trip {A} (m : io W S E unit) (p : io W S E A) bs a s w :
  writes m bs -> parses p bs a -> J s w -> off s w + len bs <= len (view w) ->
  wp ((_ ← m; _ ← seek (Start (off s w)); p) s)
     (fun r w' => r.2 = Ok a /\ view w' = splice (Z.to_nat (off s w)) bs (view w) /\ J r.1 w') w.
Proof.
  intros Hm Hp HJ Hl. pose proof (flat_off s w HJ) as Ho. apply wp_io_bind. eapply wp_mono; [by apply Hm|].
  intros [s1 r1] w1 (Hr1 & Hv1 & _ & HJ1). cbn in Hr1. subst r1. cbn [fst snd] in *.
  assert (Hlen : len (view w1) = len (view w)).
  { rewrite Hv1. unfold len in *. rewrite length_splice; lia. }
  apply wp_io_bind. eapply wp_mono; [apply flat_seek; [done|lia]|].
  intros [s2 r2] w2 (Hr2 & Hv2 & Ho2 & HJ2). cbn in Hr2. subst r2. cbn [fst snd] in *.
  eapply wp_mono; [apply Hp; [done|rewrite Hv2, Ho2; lia|]|].
  - rewrite Hv2, Hv1, Ho2. apply list_eq. intros i. rewrite lookup_part.
    rewrite lookup_splice by (unfold len in *; lia). repeat case_decide; try lia.
    + f_equal. lia.
    + symmetry. apply lookup_ge_None. lia.
  - intros r w3 (Hr & Hv3 & _ & HJ3). split_and!; try done. congruence.
Qed.

(** ** The boot sector *)

(** The fields that only FAT32 has. *)
Definition fat32_bytes (b : BiosParameterBlock) : list Z :=
  to_le_bytes 4 (sectors_per_fat_32 b) ++ to_le_bytes 2 (extended_flags b) ++
  to_le_bytes 2 (fs_version b) ++ to_le_bytes 4 (root_dir_first_cluster b) ++
  to_le_bytes 2 (fs_info_sector b) ++ to_le_bytes 2 (backup_boot_sector b) ++ FatBoot.reserved_0 b.

Definition bpb_bytes (b : BiosParameterBlock) : list Z :=
  to_le_bytes 2 (bytes_per_sector b) ++ to_le_bytes 1 (sectors_per_cluster b) ++
  to_le_bytes 2 (reserved_sectors_16 b) ++ to_le_bytes 1 (fats b) ++ to_le_bytes 2 (root_entries b) ++
  to_le_bytes 2 (total_sectors_16 b) ++ to_le_bytes 1 (media b) ++ to_le_bytes 2 (sectors_per_fat_16 b) ++
  to_le_bytes 2 (sectors_per_track b) ++ to_le_bytes 2 (heads b) ++ to_le_bytes 4 (hidden_sectors b) ++
  to_le_bytes 4 (total_sectors_32 b) ++ (if is_fat32 b then fat32_bytes b else []) ++
  to_le_bytes 1 (drive_num b) ++ to_le_bytes 1 (reserved_1 b) ++ to_le_bytes 1 (ext_sig b) ++
  to_le_bytes 4 (volume_id b) ++ volume_label b ++ fs_type_label b.

Definition code_length (b : BiosParameterBlock) : nat := if is_fat32 b then 420 else 448.

Definition boot_bytes (b : BootSector) : list Z :=
  bootjmp b ++ oem_name b ++ bpb_bytes (bpb b) ++ take (code_length (bpb b)) (boot_code b) ++ boot_sig b.

(** The widths of the fields, and the fields the sector has no place for. *)
Record bpb_ok (b : BiosParameterBlock) : Prop := {
  bo_widths : Forall (fun p => is_uint p.1 p.2)
    [(16, bytes_per_sector b); (8, sectors_per_cluster b); (16, reserved_sectors_16 b); (8, fats b);
     (16, root_entries b); (16, total_sectors_16 b); (8, media b); (16, sectors_per_fat_16 b);
     (16, sectors_per_track b); (16, heads b); (32, hidden_sectors b); (32, total_sectors_32 b);
     (32, sectors_per_fat_32 b); (16, extended_flags b); (16, fs_version b);
     (32, root_dir_first_cluster b); (16, fs_info_sector b); (16, backup_boot_sector b);
     (8, drive_num b); (8, reserved_1 b); (8, ext_sig b); (32, volume_id b)];
  bo_lengths : length (FatBoot.reserved_0 b) = 12%nat /\ length (volume_label b) = 11%nat /\
               length (fs_type_label b) = 8%nat;
  bo_fat32 : is_fat32 b = false ->
    sectors_per_fat_32 b = 0 /\ extended_flags b = 0 /\ fs_version b = 0 /\ root_dir_first_cluster b = 0 /\
    fs_info_sector b = 0 /\ backup_boot_sector b = 0 /\ FatBoot.reserved_0 b = zeros 12;
  bo_ext : ext_sig b <> 0x29 ->
    volume_id b = 0 /\ volume_label b = zeros 11 /\ fs_type_label b = zeros 8
}.

Record boot_ok (b : BootSector) : Prop := {
  bs_bpb : bpb_ok (bpb b);
  bs_lengths : length (bootjmp b) = 3%nat /\ length (oem_name b) = 8%nat /\ length (boot_sig b) = 2%nat;
  bs_code : length (boot_code b) = 448%nat /\
    drop (code_length (bpb b)) (boot_code b) = zeros (448 - code_length (bpb b))
}.

Lemma writes_bpb b : writes (bpb_serialize b) (bpb_bytes b).
Proof.
  unfold bpb_serialize, bpb_bytes, write_u8, write_u16_le, write_u32_le.
  do 12 (eapply writes_bind; [apply writes_all|]). eapply writes_bind.
  - destruct (is_fat32 b); [|apply writes_nil]. unfold fat32_bytes.
    do 6 (eapply writes_bind; [apply writes_all|]). apply writes_all.
  - do 5 (eapply writes_bind; [apply writes_all|]). apply writes_all.
Qed.

Lemma writes_boot b : writes (boot_serialize b) (boot_bytes b).
Proof.
  unfold boot_serialize, boot_bytes. do 2 (eapply writes_bind; [apply writes_all|]).
  eapply writes_bind; [apply writes_bpb|]. eapply writes_bind; [|apply writes_all].
  unfold code_length. destruct (is_fat32 (bpb b)); apply writes_all.
Qed.

End codec.

(** One field of a structure. *)
Ltac parse_field :=
  eapply parses_bind;
  [match goal with
   | |- context [read_u8] => apply parses_u8
   | |- context [read_u16_le] => apply parses_u16
   | |- context [read_u32_le] => apply parses_u32
   | |- context [read_exact] => apply parses_exact
   end; assumption|cbv beta].

Section boot.
Context {W S E : Type} `{HE : IoError E} `{HS : Storage W S E}.
Context {view : W -> list Z} {off : S -> W -> Z} {J : S -> W -> Prop} `{HF : !FlatLaws view off J}.
Abbreviation parses := (parses (view:=view) (off:=off) (J:=J)).

Lemma parses_fat32_fields b :
  bpb_ok b ->
  parses (read_fat32_fields (sectors_per_fat_16 b)) (if is_fat32 b then fat32_bytes b else [])
    (mkFat32 (sectors_per_fat_32 b) (extended_flags b) (fs_version b) (root_dir_first_cluster b)
       (fs_info_sector b) (backup_boot_sector b) (FatBoot.reserved_0 b)).
Proof.
  intros [Hw (H12 & _ & _) Hn _]. rewrite !Forall_cons in Hw. cbn [fst snd] in Hw.
  unfold read_fat32_fields. fold (is_fat32 b). destruct (is_fat32 b) eqn:H32.
  - unfold fat32_bytes. destruct Hw as (_ & _ & _ & _ & _ & _ & _ & _ & _ & _ & _ & _ & ? & ? & ? & ? & ? & ? & _).
    rewrite <- (app_nil_r (FatBoot.reserved_0 b)) at 1. do 7 parse_field. apply parses_ret.
  - destruct (Hn eq_refl) as (-> & -> & -> & -> & -> & -> & ->). apply parses_ret.
Qed.

Lemma parses_bpb b : bpb_ok b -> parses bpb_deserialize (bpb_bytes b) b.
Proof.
  intros Hb. pose proof Hb as [Hw (_ & Hl1 & Hl2) _ Hx]. rewrite !Forall_cons in Hw. cbn [fst snd] in Hw.
  destruct Hw as (? & ? & ? & ? & ? & ? & ? & ? & ? & ? & ? & ? & _ & _ & _ & _ & _ & _ & ? & ? & ? & ? & _).
  unfold bpb_deserialize, bpb_bytes. rewrite <- (app_nil_r (fs_type_label b)) at 1.
  do 12 parse_field. eapply parses_bind; [by apply parses_fat32_fields|]. do 6 parse_field.
  cbn [f_sectors_per_fat_32 f_extended_flags f_fs_version f_root_dir_first_cluster f_fs_info_sector
       f_backup_boot_sector f_reserved_0].
  match goal with |- parses (mret ?x) [] _ => replace x with b; [apply parses_ret|] end.
  destruct (Z.eqb_spec (ext_sig b) 0x29) as [|Hne]; [by destruct b|].
  destruct (Hx Hne) as (Hi & Ha & Ht). rewrite <- Hi, <- Ha, <- Ht. by destruct b.
Qed.

Lemma parses_boot b : boot_ok b -> parses boot_deserialize (boot_bytes b) b.
Proof.
  intros [Hb (H1 & H2 & H3) [Hc Hz]]. unfold boot_deserialize, boot_bytes.
  rewrite <- (app_nil_r (boot_sig b)) at 1. do 2 parse_field. eapply parses_bind; [by apply parses_bpb|].
  fold (code_length (bpb b)). assert (Hcl : (code_length (bpb b) <= 448)%nat) by (unfold code_length; destruct (is_fat32 _); lia).
  eapply parses_bind; [apply parses_exact; rewrite length_take; lia|]. parse_field.
  match goal with |- parses (mret ?x) [] _ => replace x with b; [apply parses_ret|] end.
  rewrite <- Hz, take_drop. by destruct b.
Qed.

End boot.

(** ** Entries of directories *)

Definition chars_bytes (l : list Z) : list Z := concat (to_le_bytes 2 <$> l).

Definition entry_fields (e : DirFileEntryData) : list Z :=
  to_le_bytes 1 (reserved_0 e) ++ to_le_bytes 1 (create_time_0 e) ++
  to_le_bytes 2 (create_time_1 e) ++ to_le_bytes 2 (create_date e) ++ to_le_bytes 2 (access_date e) ++
  to_le_bytes 2 (first_cluster_hi e) ++ to_le_bytes 2 (modify_time e) ++ to_le_bytes 2 (modify_date e) ++
  to_le_bytes 2 (first_cluster_lo e) ++ to_le_bytes 4 (e_size e).

Definition lfn_fields (l : DirLfnEntryData) : list Z :=
  to_le_bytes 1 (entry_type l) ++ to_le_bytes 1 (checksum l) ++ chars_bytes (lfn_name_1 l) ++
  to_le_bytes 2 (lfn_reserved_0 l) ++ chars_bytes (lfn_name_2 l).

Definition data_bytes (d : DirEntryData) : list Z :=
  match d with
  | FileEntry e => name e ++ to_le_bytes 1 (attrs e) ++ entry_fields e
  | LfnEntry l => to_le_bytes 1 (order l) ++ chars_bytes (lfn_name_0 l) ++ to_le_bytes 1 (lfn_attrs l) ++ lfn_fields l
  end.

(** The attributes are known bits. *)
Definition attrs_ok (a : Z) : Prop := is_uint 8 a /\ from_bits_truncate a = a.

Record entry_ok (e : DirFileEntryData) : Prop := {
  eo_name : length (name e) = SFN_SIZE;
  eo_attrs : attrs_ok (attrs e) /\ Z.land (attrs e) LFN <> LFN;
  eo_widths : Forall (fun p => is_uint p.1 p.2)
    [(8, reserved_0 e); (8, create_time_0 e); (16, create_time_1 e); (16, create_date e);
     (16, access_date e); (16, first_cluster_hi e); (16, modify_time e); (16, modify_date e);
     (16, first_cluster_lo e); (32, e_size e)]
}.

Record lfn_ok (l : DirLfnEntryData) : Prop := {
  lfo_names : length (lfn_name_0 l) = 5%nat /\ length (lfn_name_1 l) = 6%nat /\ length (lfn_name_2 l) = 2%nat;
  lfo_chars : Forall (is_uint 16) (lfn_name_0 l ++ lfn_name_1 l ++ lfn_name_2 l);
  lfo_attrs : attrs_ok (lfn_attrs l) /\ Z.land (lfn_attrs l) LFN = LFN;
  lfo_widths : is_uint 8 (order l) /\ is_uint 8 (entry_type l) /\ is_uint 8 (checksum l) /\
               is_uint 16 (lfn_reserved_0 l)
}.

Definition data_ok (d : DirEntryData) : Prop :=
  match d with FileEntry e => entry_ok e | LfnEntry l => lfn_ok l end.

Lemma length_chars l : length (chars_bytes l) = (length l * 2)%nat.
Proof.
  induction l as [|x l IH]; [done|]. unfold chars_bytes in *.
  cbn [fmap list_fmap concat length]. rewrite length_app, length_to_le, IH. lia.
Qed.

Lemma chunks2_chars l : Forall (is_uint 16) l -> chunks2 (chars_bytes l) = l.
Proof.
  induction 1 as [|x l Hx Hl IH]; [done|]. unfold chars_bytes. cbn [fmap list_fmap concat].
  pose proof (from_to_le 2 x Hx) as Hf. cbn [to_le_bytes app chunks2] in *. rewrite Hf. f_equal. exact IH.
Qed.

Section entries.
Context {W S E : Type} `{HE : IoError E} `{HS : Storage W S (Error E)}.
Context {view : W -> list Z} {off : S -> W -> Z} {J : S -> W -> Prop}
  `{HF : !FlatLaws (E:=Error E) view off J}.
Abbreviation parses := (parses (E:=Error E) (view:=view) (off:=off) (J:=J)).
Abbreviation writes := (writes (E:=Error E) (view:=view) (off:=off) (J:=J)).

Lemma writes_chars l : writes (write_chars l) (chars_bytes l).
Proof.
  induction l as [|x l IH]; [apply writes_nil|]. cbn [write_chars]. unfold chars_bytes. cbn [fmap list_fmap concat].
  eapply writes_bind; [apply writes_all|exact IH].
Qed.

Lemma writes_data d : writes (data_serialize d) (data_bytes d).
Proof.
  destruct d as [e|l]; cbn [data_serialize data_bytes].
  - unfold entry_serialize, entry_fields, write_u8, write_u16_le, write_u32_le.
    do 11 (eapply writes_bind; [apply writes_all|]). apply writes_all.
  - unfold lfn_serialize, lfn_fields, write_u8, write_u16_le. eapply writes_bind; [apply writes_all|].
    eapply writes_bind; [apply writes_chars|]. do 3 (eapply writes_bind; [apply writes_all|]).
    eapply writes_bind; [apply writes_chars|]. eapply writes_bind; [apply writes_all|]. apply writes_chars.
Qed.

Lemma parses_chars n l : length l = n -> Forall (is_uint 16) l -> parses (read_chars n) (chars_bytes l) l.
Proof.
  intros <- Hl. induction Hl as [|x l Hx Hl IH]; [apply parses_ret|]. cbn [length read_chars].
  unfold chars_bytes. cbn [fmap list_fmap concat]. eapply parses_bind; [by apply parses_u16|].
  rewrite <- (app_nil_r (concat _)). eapply parses_bind; [exact IH|]. apply parses_ret.
Qed.

Lemma parses_try {A B} (m : io W S (Error E) A) (k : result A (Error E) -> io W S (Error E) B) a b b1 b2 :
  parses m b1 a -> parses (k (Ok a)) b2 b -> parses (r ← try m; k r) (b1 ++ b2) b.
Proof.
  intros H1 H2. eapply parses_bind; [|exact H2]. intros s w HJ Hl Hp. apply wp_bind.
  eapply wp_mono; [by apply H1|]. intros [s1 r1] w1 (Hr & ? & ? & ?). cbn in Hr. subst r1. by apply wp_ret.
Qed.

Lemma parses_file e : entry_ok e -> parses data_deserialize (data_bytes (FileEntry e)) (FileEntry e).
Proof.
  intros [Hn [[Ha Hat] Hl] Hw]. rewrite !Forall_cons in Hw. cbn [fst snd] in Hw.
  destruct Hw as (? & ? & ? & ? & ? & ? & ? & ? & ? & ? & _). unfold data_deserialize. cbn [data_bytes].
  eapply parses_try; [by apply parses_exact|]. parse_field. rewrite Hat, (proj2 (Z.eqb_neq _ _) Hl).
  unfold entry_fields. rewrite <- (app_nil_r (to_le_bytes 4 (e_size e))). do 10 parse_field.
  destruct e. apply parses_ret.
Qed.

Lemma parses_lfn l : lfn_ok l -> parses data_deserialize (data_bytes (LfnEntry l)) (LfnEntry l).
Proof.
  intros [(H0 & H1 & H2) Hc [[Ha Hat] Hl] (? & ? & ? & ?)]. rewrite !Forall_app in Hc. destruct Hc as (Hc0 & Hc1 & Hc2).
  unfold data_deserialize. cbn [data_bytes]. rewrite app_assoc.
  eapply parses_try; [apply parses_exact; rewrite length_app, length_to_le, length_chars, H0; reflexivity|].
  parse_field. rewrite Hat, (proj2 (Z.eqb_eq _ _) Hl). unfold lfn_fields. rewrite <- (app_nil_r (chars_bytes (lfn_name_2 l))).
  do 2 parse_field. eapply parses_bind; [by apply parses_chars|]. parse_field.
  eapply parses_bind; [by apply parses_chars|].
  match goal with |- parses (mret ?x) [] _ => replace x with (LfnEntry l); [apply parses_ret|] end.
  change (drop 1 (to_le_bytes 1 (order l) ++ ?y)) with y.
  replace (name_0 (to_le_bytes 1 (order l) ++ chars_bytes (lfn_name_0 l))) with (order l).
  - rewrite chunks2_chars by done. by destruct l.
  - unfold name_0. cbn. symmetry. apply Z.mod_small. done.
Qed.

Lemma parses_data d : data_ok d -> parses data_deserialize (data_bytes d) d.
Proof. destruct d; [apply parses_file|apply parses_lfn]. Qed.

(** An entry of a directory, of a short or of a long name, that has been
    written to a stream is read back as it was, whatever storage the stream is on. *)
Theorem dir_entry_round_trip d s w :
  data_ok d -> J s w -> off s w + len (data_bytes d) <= len (view w) ->
  wp ((_ ← data_serialize d; _ ← seek (Start (off s w)); data_deserialize) s)
     (fun r w' => r.2 = Ok d /\ view w' = splice (Z.to_nat (off s w)) (data_bytes d) (view w) /\ J r.1 w') w.
Proof.
  intros Hd HJ Hl. apply codec_round_trip; try done; [apply writes_data|by apply parses_data].
Qed.

End entries.

(** The root directory of a disk of 64 bytes. *)
Definition disk64 : InMemoryDisk := mkDisk (zeros 64) 0.
Definition root64 : DiskSlice unit := slice_new 0 64 1 tt.
Definition view64 : InMemoryDisk -> list Z := slice_view (bytes:=data) 0 64.
Definition stream64 : DiskSlice unit -> InMemoryDisk -> Prop :=
  slice_ok (bytes:=data) (lo:=0) (I:=disk_ok) 0 64 1 [].

Definition entry64 : DirEntryData := FileEntry (entry_new (replicate 11 65) ARCHIVE).

Lemma dir_entry_round_trip_witness :
  wp ((_ ← data_serialize entry64; _ ← seek (Start (offset root64)); data_deserialize) root64)
     (fun r w' => r.2 = Ok entry64 /\
        view64 w' = splice (Z.to_nat (offset root64)) (data_bytes entry64) (view64 disk64) /\ stream64 r.1 w') disk64.
Proof.
  apply (dir_entry_round_trip (view:=view64) (off:=fun s _ => offset s) (J:=stream64)
           (HF:=slice_flat_laws (HP:=disk_pos_laws) 0 64 1 []) entry64 root64 disk64).
  - split; [reflexivity|split; [split; [unfold is_uint; vm_compute; done|reflexivity]|vm_compute; done]|].
    repeat constructor; cbn; lia.
  - unfold stream64, slice_ok. split_and!; try reflexivity; try (vm_compute; done); try (apply Nat.leb_le; reflexivity).
    intros i Hi. replace i with 0%nat by lia. reflexivity.
  - vm_compute. done.
Defined.

(** The boot sector written to a disk is read back as it was, for both
    layouts of its fields. *)
Theorem boot_sector_round_trip b d :
  boot_ok b -> disk_ok d -> position d + len (boot_bytes b) <= len (data d) ->
  wp ((_ ← boot_serialize b; _ ← seek (Start (position d)); boot_deserialize) tt)
     (fun r d' => r.2 = Ok b /\ data d' = splice (Z.to_nat (position d)) (boot_bytes b) (data d) /\ disk_ok d') d.
Proof.
  intros Hb Hd Hl. apply (codec_round_trip (view:=data) (off:=fun _ => position) (J:=fun _ => disk_ok)); try done;
    [apply writes_boot|by apply parses_boot].
Qed.

Definition boot64 : BootSector :=
  mkBoot [235; 88; 144] (zeros 8)
    (mkBpb 512 1 8 2 0 0 248 0 32 64 0 70000 547 0 0 2 1 6 (zeros 12) 128 0 41 7 NO_NAME (type_label Fat32))
    (zeros 448) [0x55; 0xAA].

Lemma boot_sector_round_trip_witness :
  let d := mkDisk (zeros 512) 0 in
  wp ((_ ← boot_serialize boot64; _ ← seek (Start (position d)); boot_deserialize) tt)
     (fun r d' => r.2 = Ok boot64 /\ data d' = splice (Z.to_nat (position d)) (boot_bytes boot64) (data d) /\ disk_ok d') d.
Proof.
  apply (boot_sector_round_trip boot64 (mkDisk (zeros 512) 0)).
  - split; [|split_and!; reflexivity|split; reflexivity].
    split; [repeat constructor; cbn; lia|split_and!; reflexivity|discriminate|by intros []].
  - split; vm_compute; done.
  - vm_compute. done.
Defined.
End FatCodec.
