(* ===== verification/FatExample.v ===== *)
(** * A formatted volume

    A disk of 32 sectors with the boot sector that formatting gives it, and two
    files: the concrete input on which the theorems about volumes are applied. *)

From S2P Require Import Prelude Critical Disk DiskLaws FatTime FatBoot FatTable FatTableLaws FatChain FatEntry FatFs FatFsLaws FatVolume FatAlloc FatFile FatFileLaws FatCodec.

Module FatExample.
Import Disk DiskLaws FatTime FatBoot FatTable FatTableLaws FatChain FatEntry FatFs FatFsLaws FatVolume
  FatAlloc FatFile FatFileLaws FatCodec.
Local Open Scope Z_scope.

(** The default options but for a root directory of one sector. *)
Definition options0 : FormatVolumeOptions :=
  mkOptions 512 None None None 16 2 0xF8 0x20 0x40 None 0x12345678 None.

Definition bpb0 : BiosParameterBlock :=
  mkBpb 512 1 1 2 16 32 248 1 32 64 0 0 0 0 0 0 0 0 (zeros 12) 0 0 41 0x12345678 NO_NAME (type_label Fat12).

Definition boot0 : BootSector :=
  mkBoot [235; 60; 144] [77; 83; 87; 73; 78; 52; 46; 49] bpb0
    (<[4%nat := 124]> (<[3%nat := 91]> (BOOT_CODE ++ zeros (448 - length BOOT_CODE)))) [0x55; 0xAA].

Definition fs0 : FileSystem := mkFs false Fat12 bpb0 4 1 28.

(** A volume with the FAT [fat], the clusters [clusters] and open files. *)
Definition volume_with (fat clusters : list Z) (info : FsInfoSector) (files : list Shared) : World :=
  mkWorld (mkDisk (boot_bytes boot0 ++ fat ++ fat ++ zeros 512 ++ clusters) 512) info
    (mkFlags false false) ∅ files.

(** The FAT whose clusters from 2 on have the bytes [used]. *)
Definition fat_with (used : list Z) : list Z :=
  [248; 255; 255] ++ used ++ zeros (42 - length used) ++ replicate 466 255 ++ [15].

(** The options give this geometry. *)
Lemma options0_format : format_bpb (E:=DiskError) options0 32 = Ret (Ok (bpb0, Fat12)).
Proof. reflexivity. Qed.

Lemma options0_boot : format_boot_sector (E:=DiskError) options0 32 = Ret (Ok (boot0, Fat12)).
Proof. reflexivity. Qed.

Lemma boot0_bytes : length (boot_bytes boot0) = 512%nat.
Proof. vm_compute. reflexivity. Qed.

Lemma part_middle (a b c : list Z) o n : length a = o -> length b = n -> part o n (a ++ b ++ c) = b.
Proof. intros <- <-. unfold part. rewrite drop_app_length, take_app_length. done. Qed.

Section volume.
Context (fat clusters : list Z) (info : FsInfoSector) (files : list Shared).
Context (Hf : length fat = 512%nat) (Hb : bytes_ok fat) (Hc : length clusters = (28 * 512)%nat).

Abbreviation w := (volume_with fat clusters info files).

Lemma volume_with_len : len (volume_bytes w) = 16384.
Proof.
  unfold len, volume_bytes, volume_with. cbn [disk data]. rewrite !length_app, boot0_bytes, Hf, Hc.
  unfold zeros. rewrite length_replicate. done.
Qed.

Lemma fs0_slice : slice0 fs0 = slice_new 512 512 2 (mkAdapter fs0).
Proof. reflexivity. Qed.

Lemma volume_with_table : table fs0 w = fat.
Proof.
  apply (part_middle (boot_bytes boot0) fat (fat ++ zeros 512 ++ clusters)); [apply boot0_bytes|exact Hf].
Qed.

Lemma volume_with_ok : volume_ok fs0 w.
Proof.
  split.
  - rewrite volume_with_len. split; rewrite ?fs0_slice; unfold HEADER; vm_compute; (done || split; done).
  - split; [|unfold HEADER; pose proof volume_with_len; unfold len in *; lia].
    split; [|change (data (disk w)) with (volume_bytes w); rewrite volume_with_len; lia].
    change (data (disk w)) with (volume_bytes w). rewrite volume_with_len. cbn [position disk volume_with]. lia.
  - by rewrite volume_with_table.
  - intros i Hi. rewrite volume_with_table. change (fat_copies fs0) with 2%nat in Hi.
    destruct i as [|[|i]]; [apply volume_with_table| |lia].
    transitivity (part (512 + 512) 512 ((boot_bytes boot0 ++ fat) ++ fat ++ zeros 512 ++ clusters)).
    + unfold mirror, volume_bytes, volume_with. cbn [disk data]. by rewrite <- !app_assoc.
    + apply part_middle; [rewrite length_app, boot0_bytes; lia|exact Hf].
Qed.

End volume.

Lemma fat_with_length used : (length used <= 42)%nat -> length (fat_with used) = 512%nat.
Proof. intros Hu. unfold fat_with, zeros. rewrite !length_app, !length_replicate. simpl length. lia. Qed.

Lemma fat_with_bytes used : bytes_ok used -> bytes_ok (fat_with used).
Proof.
  intros Hu. unfold fat_with, zeros, bytes_ok in *. rewrite !Forall_app. split_and!; try done.
  - repeat constructor; lia.
  - apply Forall_replicate. lia.
  - apply Forall_replicate. lia.
  - repeat constructor; lia.
Qed.

(** A file of three bytes in cluster 2, and an empty file. *)
Definition file0 : DirFileEntryData :=
  set_size 3 (set_first_cluster Fat12 (Some 2) (entry_new (replicate 11 65) 0)).
Definition file1 : DirFileEntryData := entry_new (replicate 11 66) 0.

Definition files0 : list Shared := [mkShared (editor_new file0 1536) 1; mkShared (editor_new file1 1568) 1].

Definition volume1 : World :=
  volume_with (fat_with [0xFF; 0x0F]) ([1; 2; 3] ++ zeros (28 * 512 - 3)) (mkFsInfo (Some 27) None false) files0.

Lemma volume1_ok : volume_ok fs0 volume1.
Proof.
  apply volume_with_ok; [by apply fat_with_length; simpl; lia|apply fat_with_bytes; repeat constructor; lia|].
  rewrite length_app. unfold zeros. rewrite length_replicate. done.
Qed.

Lemma volume1_table : table fs0 volume1 = fat_with [0xFF; 0x0F].
Proof. apply volume_with_table. apply fat_with_length. simpl. lia. Qed.

Lemma volume1_hint : hint_ok volume1.
Proof. done. Qed.

Lemma volume1_count : count_ok fs0 volume1.
Proof. unfold count_ok, free_clusters. rewrite volume1_table. vm_compute. reflexivity. Qed.

Lemma volume1_chain : own_chain fs0 volume1 2 [2].
Proof.
  split; [constructor; rewrite volume1_table; vm_compute; reflexivity|].
  intros c ->%list_elem_of_singleton. rewrite volume1_table. split; [vm_compute; done|vm_compute; done].
Qed.

Lemma volume1_file0 : open_file fs0 volume1 0 [2] 3.
Proof.
  eexists. split; [reflexivity|]. split_and!; try reflexivity; try lia; [exact volume1_chain|vm_compute; done].
Qed.

Lemma volume1_file1 : open_file fs0 volume1 1 [] 0.
Proof. eexists. split; [reflexivity|]. split_and!; try reflexivity; try lia. Qed.

Lemma volume1_bytes : file_bytes fs0 volume1 [2] 3 = [1; 2; 3].
Proof. vm_compute. reflexivity. Qed.

End FatExample.
