(* ===== verification/FatProps.v ===== *)
(** * Properties of the FAT file system

    The theorems about the file allocation table, the allocation of clusters
    and open files, each applied to the volume of [FatExample]. *)

From S2P Require Import Prelude Critical Disk DiskLaws FatTime FatBoot FatTable FatTableLaws FatChain FatEntry FatFs FatFsLaws FatVolume FatAlloc FatFile FatFileLaws FatFileWrite FatTruncate FatCodec FatExample.

Module FatProps.
Import Disk DiskLaws FatTime FatBoot FatTable FatTableLaws FatChain FatEntry FatFs FatFsLaws FatVolume
  FatAlloc FatFile FatFileLaws FatFileWrite FatTruncate FatCodec FatExample.
Local Open Scope Z_scope.

(** ** The table *)

(** The values an entry of the volume may take. *)
Definition value_ok (fs : FileSystem) (v : FatValue) : Prop :=
  match v with Data n => 2 <= n < fs_total_clusters fs + 2 | _ => True end.

Lemma decode_encode fs w c v :
  volume_ok fs w -> 2 <= c < fs_total_clusters fs + 2 -> value_ok fs v ->
  decode (fat_type fs) c (encode (fat_type fs) v) = v.
Proof.
  intros Hv Hc Hok. pose proof (vo_layout fs w Hv) as [_ _ _ _ _ [H1 H2] _ _ _]. unfold decode.
  replace (match fat_type fs with Fat32 => special_cluster c | _ => false end) with false.
  2: { symmetry. destruct (decide (fat_type fs = Fat32)) as [Ht|Ht]; [rewrite Ht; by apply (no_special fs c w); [|lia|]|by destruct (fat_type fs)]. }
  destruct v as [|n| |]; cbn [encode value_ok] in *.
  - done.
  - rewrite (proj2 (Z.eqb_neq n 0)), (proj2 (Z.eqb_neq n _)), (proj2 (Z.leb_gt _ n)) by lia. done.
  - rewrite (proj2 (Z.eqb_neq _ 0)), (proj2 (Z.eqb_eq _ _)) by (destruct (fat_type fs); cbn; lia). done.
  - rewrite (proj2 (Z.eqb_neq _ 0)), (proj2 (Z.eqb_neq _ _)), (proj2 (Z.leb_le _ _)) by (destruct (fat_type fs); cbn; lia). done.
Qed.

Lemma value_storable fs w c v :
  volume_ok fs w -> 2 <= c < fs_total_clusters fs + 2 -> value_ok fs v -> storable (fat_type fs) c v.
Proof.
  intros Hv Hc Hok. pose proof (vo_layout fs w Hv) as [_ _ _ _ _ [H1 H2] _ _ _]. split.
  - destruct v; cbn [encode value_ok] in *; destruct (fat_type fs); cbn in *; lia.
  - destruct (fat_type fs) eqn:Ht; try done. destruct v; try done. by apply (no_special fs c w); [|lia|].
Qed.

(** A value written to the entry of a cluster is read back from it, the
    other entries are as before, the copies of the table stay equal and
    nothing behind the table changes. *)
Theorem fat_entry_written_is_read fs w c c' v :
  volume_ok fs w -> 2 <= c < fs_total_clusters fs + 2 -> 2 <= c' < fs_total_clusters fs + 2 -> value_ok fs v ->
  wp ((_ ← with_fat fs (write_fat (fat_type fs) c v); with_fat fs (read_fat (fat_type fs) c')) tt)
     (fun r w' =>
        r.2 = Ok (if decide (c' = c) then v
                  else decode (fat_type fs) c' (entry (fat_type fs) (table fs w) c')) /\
        volume_ok fs w' /\ after_fat fs w' = after_fat fs w /\ rest w' = rest w) w.
Proof.
  intros Hv Hc Hc' Hok. apply wp_io_bind. eapply wp_mono.
  { apply volume_write_fat; [done|lia|by eapply value_storable]. }
  intros [[] r1] w1 (Hr1 & (_ & _ & He) & (Hv1 & Hrest1 & Ha1)). cbn in Hr1. subst r1. cbn [fst snd].
  eapply wp_mono; [apply volume_read_fat; [done|lia]|].
  intros r w2 (Hr & Ht & (Hv2 & Hrest2 & Ha2)). split_and!; try congruence. rewrite Hr. f_equal.
  destruct (He c') as [-> _]; [apply volume_fits; [done|lia]|].
  case_decide; [subst c'; by eapply decode_encode|done].
Qed.

Lemma fat_entry_written_is_read_witness :
  volume_ok fs0 volume1 /\
  wp ((_ ← with_fat fs0 (write_fat Fat12 3 (Data 5)); with_fat fs0 (read_fat Fat12 2)) tt)
     (fun r w' =>
        r.2 = Ok (if decide (2 = 3) then Data 5 else decode Fat12 2 (entry Fat12 (table fs0 volume1) 2)) /\
        volume_ok fs0 w' /\ after_fat fs0 w' = after_fat fs0 volume1 /\ rest w' = rest volume1) volume1.
Proof.
  split; [exact volume1_ok|]. apply (fat_entry_written_is_read fs0 volume1 3 2 (Data 5));
    [exact volume1_ok|cbn; lia|cbn; lia|cbn; lia].
Defined.

(** ** Clusters *)

Definition in_use (fs : FileSystem) (w : World) (c : Z) : Prop :=
  2 <= c < fs_total_clusters fs + 2 /\ entry (fat_type fs) (table fs w) c <> 0.

Lemma no_free t l a b : used t l a b -> free_count t l a b = 0.
Proof.
  intros Hu. unfold free_count, zero_count.
  destruct (filter _ _) as [|c cs] eqn:Hf; [done|]. exfalso.
  assert (Hc : c ∈ filter (fun c => entry t l c = 0) (seqZ a (b - a))) by (rewrite Hf; left).
  apply list_elem_of_filter in Hc as [H0 Hin%elem_of_seqZ]. apply (Hu c); [lia|done].
Qed.

(** C18: an allocation takes the first free cluster from the hint on, ends
    its chain there, links it behind the cluster before, and keeps the count
    of free clusters exact; it fails exactly when no cluster is free, and
    then changes nothing. *)
Theorem alloc_takes_the_first_free_cluster fs w prev zero :
  volume_ok fs w -> hint_ok w -> count_ok fs w -> (forall p, prev = Some p -> in_use fs w p) ->
  wp (fs_alloc_cluster fs prev zero tt)
     (fun r w' => volume_ok fs w' /\ hint_ok w' /\ count_ok fs w' /\
        match r.2 with
        | Ok c =>
            first_free (fat_type fs) (table fs w)
              (search_start (next_free_cluster (fs_info w)) (fs_total_clusters fs)) (fs_total_clusters fs) c /\
            free_clusters fs w' = free_clusters fs w - 1 /\
            (forall c', 2 <= c' < fs_total_clusters fs + 2 -> entry (fat_type fs) (table fs w') c' =
               if decide (prev = Some c') then c
               else if decide (c' = c) then encode (fat_type fs) EndOfChain
               else entry (fat_type fs) (table fs w) c') /\
            (forall c', 2 <= c' < fs_total_clusters fs + 2 -> cluster_data fs w' c' =
               if zero && bool_decide (c' = c) then zeros (Z.to_nat (fs_cluster_size fs))
               else cluster_data fs w c')
        | Err e =>
            e = NotEnoughSpace /\ free_clusters fs w = 0 /\ table fs w' = table fs w /\
            forall c', 2 <= c' < fs_total_clusters fs + 2 -> cluster_data fs w' c' = cluster_data fs w c'
        end) w.
Proof.
  intros Hv Hh Hc Hp.
  assert (Hp' : match prev with Some p => 2 <= p < fs_total_clusters fs + 2 /\ entry (fat_type fs) (table fs w) p <> 0
                | None => True end) by (destruct prev; [by apply Hp|done]).
  eapply wp_mono; [apply fs_alloc_cluster_spec; try done; destruct prev; [apply Hp'|done]|].
  intros [[] [c|e]] w' Hpost; pose proof Hpost as (Hv' & _ & _ & H); cbn [snd] in *.
  - destruct H as (Hff & Hch & Hnx & Hn & Hd). split; [done|]. split; [unfold hint_ok; rewrite Hnx; destruct Hff; lia|].
    split; [by apply (alloc_count_ok fs prev zero w w' c)|]. split; [done|].
    split; [by apply (alloc_count fs prev c w w')|]. split; [|done]. intros c' Hc'.
    destruct Hch as (_ & _ & He). destruct (He c') as [-> _]; [apply volume_fits; [done|lia]|].
    unfold linked, then_, at_cluster. destruct prev as [p|]; [|rewrite (decide_False (P:=None = _)) by done; by case_decide].
    destruct (decide (c' = p)) as [->|Hne]; [by rewrite decide_True|].
    rewrite (decide_False (P:=Some p = Some c')) by congruence. by case_decide.
  - destruct H as (-> & Hu & Ht & Hi & Hd). split; [done|]. split; [unfold hint_ok; by rewrite Hi|].
    split; [unfold count_ok, free_clusters; by rewrite Hi, Ht|]. split_and!; try done.
    by apply no_free.
Qed.

Lemma alloc_takes_the_first_free_cluster_witness :
  in_use fs0 volume1 2 /\
  wp (fs_alloc_cluster fs0 (Some 2) true tt)
     (fun r w' => volume_ok fs0 w' /\ hint_ok w' /\ count_ok fs0 w' /\
        match r.2 with
        | Ok c =>
            first_free Fat12 (table fs0 volume1) (search_start None 28) 28 c /\
            free_clusters fs0 w' = free_clusters fs0 volume1 - 1 /\
            (forall c', 2 <= c' < 28 + 2 -> entry Fat12 (table fs0 w') c' =
               if decide (Some 2 = Some c') then c
               else if decide (c' = c) then encode Fat12 EndOfChain else entry Fat12 (table fs0 volume1) c') /\
            (forall c', 2 <= c' < 28 + 2 -> cluster_data fs0 w' c' =
               if true && bool_decide (c' = c) then zeros (Z.to_nat (fs_cluster_size fs0))
               else cluster_data fs0 volume1 c')
        | Err e =>
            e = NotEnoughSpace /\ free_clusters fs0 volume1 = 0 /\ table fs0 w' = table fs0 volume1 /\
            forall c', 2 <= c' < 28 + 2 -> cluster_data fs0 w' c' = cluster_data fs0 volume1 c'
        end) volume1.
Proof.
  assert (H2 : in_use fs0 volume1 2) by (apply volume1_chain; left). split; [exact H2|].
  apply (alloc_takes_the_first_free_cluster fs0 volume1 (Some 2) true);
    [exact volume1_ok|exact volume1_hint|exact volume1_count|]. by intros p [= <-].
Defined.

(** Releasing a chain frees its clusters and no other one, and keeps the
    count of free clusters exact. *)
Theorem free_chain_releases_its_clusters fs w c cs :
  volume_ok fs w -> count_ok fs w -> own_chain fs w c cs ->
  wp (free_cluster_chain fs c tt)
     (fun r w' => r.2 = Ok tt /\ volume_ok fs w' /\ count_ok fs w' /\
        free_clusters fs w' = free_clusters fs w + Z.of_nat (length cs) /\
        (forall c', 2 <= c' < fs_total_clusters fs + 2 -> entry (fat_type fs) (table fs w') c' =
           if decide (c' ∈ cs) then 0 else entry (fat_type fs) (table fs w) c') /\
        (forall c', 2 <= c' < fs_total_clusters fs + 2 -> cluster_data fs w' c' = cluster_data fs w c') /\
        metadata w' = metadata w) w.
Proof.
  intros Hv Hc Hch. eapply wp_mono; [by apply (free_cluster_chain_spec fs c cs)|].
  intros r w' (Hr & Hv' & Hm & _ & (_ & _ & He) & _ & Hn & Hfree & Hd). split; [done|]. split; [done|].
  split; [|split; [done|split; [|done]]].
  - unfold count_ok in *. rewrite Hn. destruct (free_cluster_count (fs_info w)) as [k|]; [|done].
    cbn [fmap option_fmap option_map]. rewrite Hc, <- Hfree. pose proof (vo_layout fs w Hv) as [_ _ _ _ _ [H1 H2] _ _ _].
    pose proof (free_count_bound (fat_type fs) (table fs w') 2 (fs_total_clusters fs + 2) ltac:(lia)) as Hb.
    assert (entry_values (fat_type fs) <= 2 ^ 28) by (destruct (fat_type fs); cbn; lia).
    apply wrap_id. unfold is_uint, free_clusters. lia.
  - intros c' Hc'. destruct (He c') as [-> _]; [apply volume_fits; [done|lia]|]. unfold freeing. by case_decide.
Qed.

Lemma free_chain_releases_its_clusters_witness :
  own_chain fs0 volume1 2 [2] /\
  wp (free_cluster_chain fs0 2 tt)
     (fun r w' => r.2 = Ok tt /\ volume_ok fs0 w' /\ count_ok fs0 w' /\
        free_clusters fs0 w' = free_clusters fs0 volume1 + 1 /\
        (forall c', 2 <= c' < 28 + 2 -> entry Fat12 (table fs0 w') c' =
           if decide (c' ∈ [2]) then 0 else entry Fat12 (table fs0 volume1) c') /\
        (forall c', 2 <= c' < 28 + 2 -> cluster_data fs0 w' c' = cluster_data fs0 volume1 c') /\
        metadata w' = metadata volume1) volume1.
Proof.
  split; [exact volume1_chain|].
  apply (free_chain_releases_its_clusters fs0 volume1 2 [2]); [exact volume1_ok|exact volume1_count|exact volume1_chain].
Defined.

(** ** Files *)

Section files.
Context {TP : Type} `{HTP : TimeProvider TP} (time_provider : TP) (fs : FileSystem).

Lemma length_file_bytes w a cs sz :
  volume_ok fs w -> open_file fs w a cs sz -> length (file_bytes fs w cs sz) = Z.to_nat sz.
Proof.
  intros Hv (m & _ & _ & _ & _ & Hc & Hsz & Hlen). pose proof (csize_pos fs _ (vo_layout fs w Hv)) as Hz.
  unfold file_bytes. rewrite length_take, length_content by done. nia.
Qed.

(** C15: a read gives the bytes of the file at the position, as many as asked
    for within the cluster and the size, moves the position behind them, and
    changes neither the table nor the clusters nor the file. *)
Theorem read_gives_the_bytes_of_the_file f a cs sz n w :
  volume_ok fs w -> open_file fs w a cs sz -> f_metadata f = Some a -> 0 <= f_offset f <= sz ->
  wp (file_read time_provider fs n f)
     (fun r w' =>
        let o := f_offset f in
        let k := Z.to_nat (Z.min (Z.min (Z.of_nat n) (fs_cluster_size fs - o mod fs_cluster_size fs)) (sz - o)) in
        r = (mkFile (Some a) (o + Z.of_nat k), Ok (part (Z.to_nat o) k (file_bytes fs w cs sz))) /\
        volume_ok fs w' /\ table fs w' = table fs w /\ after_fat fs w' = after_fat fs w /\
        fs_info w' = fs_info w /\ open_file fs w' a cs sz /\
        file_bytes fs w' cs sz = file_bytes fs w cs sz) w.
Proof.
  intros Hv Hop Hf Ho. eapply wp_mono; [by apply file_read_spec|].
  intros r w' (Hr & (Hv' & Ht & Ha & Hi) & Hop'). split_and!; try done.
  unfold file_bytes, content. do 2 f_equal. apply list_fmap_ext. intros i c Hc%list_elem_of_lookup_2.
  destruct Hop as (m & _ & _ & _ & _ & Hch & _). apply cluster_data_after; try done. by eapply file_chain_in.
Qed.


(** C16: what was written through one handle is read through another one that
    shares the metadata of the file and is still at the position. *)
Theorem written_bytes_are_read_back f a cs sz buf w :
  volume_ok fs w -> hint_ok w -> open_file fs w a cs sz -> f_metadata f = Some a -> 0 <= f_offset f <= sz ->
  0 < free_clusters fs w ->
  wp (r ← file_write time_provider fs buf f;
      match r.2 with
      | Ok k => r' ← file_read time_provider fs k f; mret (Some (k, r'.2))
      | Err _ => mret None
      end)
     (fun r _ => exists k, r = Some (k, Ok (take k buf)) /\
        (0 < len buf -> f_offset f < MAX_FILE_SIZE -> (0 < k)%nat)) w.
Proof.
  intros Hv Hh Hop Hf Ho Hfree. apply wp_bind. eapply wp_mono; [by apply file_write_spec|].
  intros [f' [k|e]] w' (Hfr & Hr); cbn [fst snd] in *.
  2: { destruct Hr as (_ & Hu & _). apply no_free in Hu. unfold free_clusters in Hfree. lia. }
  destruct Hr as (Hk & _ & cs' & _ & Hop' & Hb & _). pose proof (fr_volume _ _ _ _ _ Hfr) as Hv'.
  assert (HM : 0 <= f_offset f <= MAX_FILE_SIZE).
  { destruct Hop as (_ & _ & _ & _ & _ & _ & ? & _). unfold MAX_FILE_SIZE. lia. }
  destruct (write_len_bound fs (f_offset f) (length buf) w Hv HM) as [Hkl Hkc]. rewrite <- Hk in Hkl, Hkc.
  assert (Hlk : length (take k buf) = k) by (rewrite length_take; lia).
  assert (Hrl : read_len fs (sz `max` (f_offset f + Z.of_nat k)) (f_offset f) k = k) by (unfold read_len; lia).
  apply wp_bind. eapply wp_mono; [apply (file_read_spec time_provider fs f a cs' _ k w' Hv' Hop' Hf); lia|].
  intros r w2 (-> & _). cbn [snd]. rewrite Hrl, Hb. apply wp_ret. exists k. split.
  - do 3 f_equal. unfold part, splice. rewrite drop_app_length'; [by rewrite take_app_length'|].
    rewrite length_take, (length_file_bytes w a) by done. lia.
  - intros Hl Hmax. pose proof (csize_pos fs _ (vo_layout fs w Hv)) as Hz.
    pose proof (Z.mod_pos_bound (f_offset f) (fs_cluster_size fs) ltac:(lia)). unfold len in Hl. lia.
Qed.

(** Truncating inside a file keeps the bytes before the position, leaves
    the clusters that hold them in its chain and frees the others; other files
    are not touched. *)
Theorem truncate_frees_the_tail f a cs sz w :
  volume_ok fs w -> count_ok fs w -> open_file fs w a cs sz -> f_metadata f = Some a -> 0 < f_offset f <= sz ->
  wp (truncate fs f)
     (fun r w' =>
        let o := f_offset f in
        let cs' := take (Z.to_nat ((o + fs_cluster_size fs - 1) / fs_cluster_size fs)) cs in
        r = (f, Ok tt) /\ volume_ok fs w' /\ count_ok fs w' /\ open_file fs w' a cs' o /\
        file_bytes fs w' cs' o = take (Z.to_nat o) (file_bytes fs w cs sz) /\
        free_clusters fs w' = free_clusters fs w + Z.of_nat (length cs - length cs') /\
        forall ds, file_chain fs w ds -> (forall c, c ∈ ds -> c ∉ cs) ->
          file_chain fs w' ds /\ content fs w' ds = content fs w ds) w.
Proof.
  intros Hv Hc Hop Hf Ho. eapply wp_mono; [by apply (truncate_spec fs f a cs sz)|].
  intros r w' (Hr & [Hv' _ Hc' Hd _] & Hop' & Hb & Hfree). split_and!; try done. by apply Hc'.
Qed.

End files.

(** The handles of the two files of the volume. *)
Definition handle0 : File := mkFile (Some 0%nat) 1.
Definition handle1 : File := mkFile (Some 1%nat) 0.

Lemma read_gives_the_bytes_of_the_file_witness :
  file_bytes fs0 volume1 [2] 3 = [1; 2; 3] /\
  wp (file_read null_time_provider fs0 10 handle0)
     (fun r w' =>
        let k := Z.to_nat (Z.min (Z.min 10 (512 - 1 mod 512)) (3 - 1)) in
        r = (mkFile (Some 0%nat) (1 + Z.of_nat k), Ok (part 1 k (file_bytes fs0 volume1 [2] 3))) /\
        volume_ok fs0 w' /\ table fs0 w' = table fs0 volume1 /\ after_fat fs0 w' = after_fat fs0 volume1 /\
        fs_info w' = fs_info volume1 /\ open_file fs0 w' 0 [2] 3 /\
        file_bytes fs0 w' [2] 3 = file_bytes fs0 volume1 [2] 3) volume1.
Proof.
  split; [exact volume1_bytes|].
  apply (read_gives_the_bytes_of_the_file null_time_provider fs0 handle0 0 [2] 3 10 volume1);
    [exact volume1_ok|exact volume1_file0|reflexivity|cbn; lia].
Defined.


Lemma written_bytes_are_read_back_witness :
  wp (r ← file_write null_time_provider fs0 [7; 8; 9] handle0;
      match r.2 with
      | Ok k => r' ← file_read null_time_provider fs0 k handle0; mret (Some (k, r'.2))
      | Err _ => mret None
      end)
     (fun r _ => exists k, r = Some (k, Ok (take k [7; 8; 9])) /\
        (0 < len [7; 8; 9] -> 1 < MAX_FILE_SIZE -> (0 < k)%nat)) volume1.
Proof.
  apply (written_bytes_are_read_back null_time_provider fs0 handle0 0 [2] 3 [7; 8; 9] volume1);
    [exact volume1_ok|exact volume1_hint|exact volume1_file0|reflexivity|cbn; lia|].
  rewrite <- volume1_count. reflexivity.
Defined.

Lemma truncate_frees_the_tail_witness :
  wp (truncate fs0 handle0)
     (fun r w' =>
        let cs' := take (Z.to_nat ((1 + fs_cluster_size fs0 - 1) / fs_cluster_size fs0)) [2] in
        r = (handle0, Ok tt) /\ volume_ok fs0 w' /\ count_ok fs0 w' /\ open_file fs0 w' 0 cs' 1 /\
        file_bytes fs0 w' cs' 1 = take 1 (file_bytes fs0 volume1 [2] 3) /\
        free_clusters fs0 w' = free_clusters fs0 volume1 + Z.of_nat (length [2] - length cs') /\
        forall ds, file_chain fs0 volume1 ds -> (forall c, c ∈ ds -> c ∉ [2]) ->
          file_chain fs0 w' ds /\ content fs0 w' ds = content fs0 volume1 ds) volume1.
Proof.
  apply (truncate_frees_the_tail fs0 handle0 0 [2] 3 volume1);
    [exact volume1_ok|exact volume1_count|exact volume1_file0|reflexivity|cbn; lia].
Defined.

End FatProps.
