(* ===== verification/FatBugs.v ===== *)
(** * Where the FAT file system fails

    A file truncated to nothing keeps its clusters from being used again, and
    two threads that write to different files can be given the same cluster. *)

From S2P Require Import Prelude Critical Disk DiskLaws FatTime FatBoot FatTable FatTableLaws FatChain FatEntry FatFs FatFsLaws FatVolume FatAlloc FatFile FatFileLaws FatFileWrite FatTruncate FatCodec FatExample.

Module FatBugs.
Import Disk DiskLaws FatTime FatBoot FatTable FatTableLaws FatChain FatEntry FatFs FatFsLaws FatVolume
  FatAlloc FatFile FatFileLaws FatFileWrite FatTruncate FatCodec FatExample.
Local Open Scope Z_scope.

(** Truncating a file at position 0 leaves all its clusters allocated:
    the first cluster is read after it has been cleared, so that the chain is
    in the table, in use and no longer in any file. *)
Theorem truncate_to_zero_leaks_the_chain fs f a cs sz w :
  volume_ok fs w -> open_file fs w a cs sz -> f_metadata f = Some a -> f_offset f = 0 ->
  wp (truncate fs f)
     (fun r w' => r = (f, Ok tt) /\ open_file fs w' a [] 0 /\
        (forall c, c ∈ cs -> entry (fat_type fs) (table fs w') c <> 0) /\
        free_clusters fs w' = free_clusters fs w) w.
Proof.
  intros Hv Hop Hf Ho. eapply wp_mono; [by apply (truncate_zero_spec fs f a cs sz)|].
  intros r w' (Hr & Hop' & _ & Ht & _). split_and!; try done; [|unfold free_clusters; by rewrite Ht].
  intros c Hc. rewrite Ht. destruct Hop as (m & _ & _ & _ & _ & Hch & _).
  destruct cs as [|c0 cs]; [by apply not_elem_of_nil in Hc|]. by apply Hch.
Qed.

Lemma truncate_to_zero_leaks_the_chain_witness :
  wp (truncate fs0 (mkFile (Some 0%nat) 0))
     (fun r w' => r = (mkFile (Some 0%nat) 0, Ok tt) /\ open_file fs0 w' 0 [] 0 /\
        (forall c, c ∈ [2] -> entry Fat12 (table fs0 w') c <> 0) /\
        free_clusters fs0 w' = free_clusters fs0 volume1) volume1.
Proof.
  apply (truncate_to_zero_leaks_the_chain fs0 (mkFile (Some 0%nat) 0) 0 [2] 3 volume1);
    [exact volume1_ok|exact volume1_file0|reflexivity|reflexivity].
Defined.

(** ** Two writers *)

(** A thread that writes one byte to the empty file behind [a]. *)
Definition writer (a : nat) (byte : Z) : prog World (File * result nat FsError) :=
  file_write null_time_provider fs0 [byte] (mkFile (Some a) 0).

Definition files2 : list Shared :=
  [mkShared (editor_new file1 1536) 1; mkShared (editor_new file1 1568) 1].
Definition volume2 : World := volume_with (fat_with []) (zeros (28 * 512)) default_fs_info files2.

(** The first thread is interrupted between finding a free entry and marking
    it; the second one writes its byte meanwhile. *)
Definition schedule : list bool := replicate 6 true ++ replicate 19 false ++ replicate 13 true.

(** The results of both threads, the first clusters of the two files and the
    first byte of cluster 2. *)
Definition both_wrote : option (result nat FsError * result nat FsError * list (option Z) * option Z) :=
  match interleave schedule (writer 0 1) (writer 1 2) volume2 with
  | Ret (w, (Done (_, r1), Done (_, r2))) =>
      Some (r1, r2, (fun m => first_cluster Fat12 (data_ (editor m))) <$> metadata w,
            data (disk w) !! Z.to_nat (cluster_begin fs0 2))
  | _ => None
  end.

(** Two threads that write to different files can be given the same
    cluster: the search for a free entry and the write that marks it are
    different critical sections.  Both writes succeed, both files begin at
    cluster 2, and the byte of the second file is overwritten by the first. *)
Theorem concurrent_writes_share_a_cluster :
  both_wrote = Some (Ok 1%nat, Ok 1%nat, [Some 2; Some 2], Some 1).
Proof. vm_compute. reflexivity. Qed.

End FatBugs.
