(* ===== verification/Channel.v ===== *)
(** * The bounded channel of [awkernel_async_lib/src/channel/bounded.rs]

    The channel is one record behind a mutex, so every method body and every
    [poll] is one atomic step on it.  Wakers are task numbers; waking one adds
    it to the log [woken].  The futures are the state machines the compiler
    makes of the [async] bodies: a [poll] takes the state of the future and
    gives the next one.  The readings of [uptime()] are arguments. *)

From S2P Require Import Prelude RingQ.

Local Open Scope Z_scope.

(** [enum Lifespan] of [pubsub.rs]; a [Duration] is its nanoseconds. *)
Inductive Lifespan : Type :=
| Permanent
| Span (dur : Z).

(** [Duration::as_micros() as u64]. *)
Definition as_micros (dur : Z) : Z := wrap 64 (dur / 1000).

(** [struct Attribute]. *)
Record Attribute : Type := mkAttribute {
  queue_size : nat;
  flow_control : bool;
  lifespan : Lifespan
}.

(** [Attribute::default]. *)
Definition default_attribute : Attribute := mkAttribute 10 true Permanent.

(** [enum SendErr] and [enum RecvErr]. *)
Inductive SendErr : Type := SendClosed | Full.
Inductive RecvErr : Type := RecvClosed | NoData.

(** A [Waker] is the number of the task it wakes. *)
Definition Waker : Type := nat.

Module Bounded.

Section bounded.
Context {T : Type}.

(** [struct ChannelData<T>]. *)
Record ChannelData : Type := mkData { time_stamp : Z; data : T }.

(** [struct Channel<T>]. *)
Record Channel : Type := mkChannel {
  queue : RingQ.RingQ ChannelData;
  waker_receiver : option Waker;
  waker_sender : option Waker;
  terminated : bool;
  attribute : Attribute
}.

Definition set_queue q (c : Channel) : Channel :=
  mkChannel q (waker_receiver c) (waker_sender c) (terminated c) (attribute c).
Definition set_waker_receiver w (c : Channel) : Channel :=
  mkChannel (queue c) w (waker_sender c) (terminated c) (attribute c).
Definition set_waker_sender w (c : Channel) : Channel :=
  mkChannel (queue c) (waker_receiver c) w (terminated c) (attribute c).
Definition set_terminated (c : Channel) : Channel :=
  mkChannel (queue c) (waker_receiver c) (waker_sender c) true (attribute c).

(** The channel and the log of the tasks woken, oldest first. *)
Record World : Type := mkWorld { chan : Channel; woken : list Waker }.

Definition on_chan (f : Channel -> Channel) : st World unit :=
  modify (fun w => mkWorld (f (chan w)) (woken w)).

(** [Waker::wake]. *)
Definition wake (t : Waker) : st World unit :=
  modify (fun w => mkWorld (chan w) (woken w ++ [t])).

(** [if let Some(waker) = chan.waker_receiver.take() { waker.wake(); }] and the
    same of the sender's waker. *)
Definition wake_receiver : st World unit :=
  o ← gets (fun w => waker_receiver (chan w));
  on_chan (set_waker_receiver None);;
  match o with Some t => wake t | None => mret tt end.
Definition wake_sender : st World unit :=
  o ← gets (fun w => waker_sender (chan w));
  on_chan (set_waker_sender None);;
  match o with Some t => wake t | None => mret tt end.

(** [chan.queue.pop()] and [chan.queue.push(data)] on the shared record. *)
Definition queue_pop : st World (option ChannelData) := fun w =>
  '(q, o) ← RingQ.pop (queue (chan w));
  Ret (mkWorld (set_queue q (chan w)) (woken w), o).
Definition queue_push (d : ChannelData) : st World (result unit ChannelData) := fun w =>
  '(q, r) ← RingQ.push (queue (chan w)) d;
  Ret (mkWorld (set_queue q (chan w)) (woken w), r).

(** [assert!(matches!(chan.queue.push(data), Ok(())))]. *)
Definition push_asserted (d : ChannelData) : st World unit :=
  r ← queue_push d;
  match r with Ok _ => mret tt | Err _ => panic end.

(** The test of [garbage_collect] on one message: [false] is a [break], [true]
    the branch that pops. *)
Definition too_old (now span : Z) (d : ChannelData) : bool :=
  if now <? time_stamp d then false else span <=? now - time_stamp d.

(** The [while let] of [Channel::garbage_collect]; a round that goes on has
    popped a message. *)
Fixpoint garbage_loop (fuel : nat) (now span : Z) : st World unit :=
  match fuel with
  | O => panic
  | S fuel' =>
      o ← (fun w => h ← RingQ.head_ref (queue (chan w)); Ret (w, h));
      match o with
      | Some d =>
          if too_old now span d then queue_pop;; garbage_loop fuel' now span
          else mret tt
      | None => mret tt
      end
  end.

(** [Channel::garbage_collect]; each round but the last pops one message. *)
Definition garbage_collect (now : Z) : st World unit :=
  a ← gets (fun w => attribute (chan w));
  match lifespan a with
  | Span dur =>
      n ← gets (fun w => RingQ.len (queue (chan w)));
      garbage_loop (S n) now (as_micros dur)
  | Permanent => mret tt
  end.

(** [bounded::new]. *)
Definition new (a : Attribute) : Channel :=
  mkChannel (RingQ.new (queue_size a)) None None false a.

(** [Sender::is_full] and [is_terminated] of both ends. *)
Definition is_full : st World bool := gets (fun w => RingQ.is_full (queue (chan w))).
Definition is_terminated : st World bool := gets (fun w => terminated (chan w)).

(** The branch a full queue takes: [true] when flow control stops the caller,
    [false] after the oldest message was dropped. *)
Definition make_room : st World bool :=
  full ← is_full;
  if (full : bool) then
    a ← gets (fun w => attribute (chan w));
    if flow_control a then mret true else queue_pop;; mret false
  else mret false.

(** [Sender::try_send]; the stamp is read before the lock is taken. *)
Definition try_send (stamp now : Z) (d : T) : st World (result unit SendErr) :=
  closed ← is_terminated;
  if (closed : bool) then mret (Err SendClosed)
  else
    garbage_collect now;;
    stop ← make_room;
    if (stop : bool) then mret (Err Full)
    else push_asserted (mkData stamp d);; wake_receiver;; mret (Ok tt).

(** [AsyncSender::poll]; the state of the future is its [data]. *)
Definition async_sender_poll (cx : Waker) (now : Z) (fut : option ChannelData) :
    st World (option ChannelData * Poll (result bool SendErr)) :=
  closed ← is_terminated;
  if (closed : bool) then mret (fut, Ready (Err SendClosed))
  else
    garbage_collect now;;
    stop ← make_room;
    if (stop : bool) then on_chan (set_waker_sender (Some cx));; mret (fut, Pending)
    else
      wake_receiver;;
      match fut with
      | None => panic
      | Some d =>
          push_asserted d;;
          q ← gets (fun w => queue (chan w));
          mret (None, Ready (Ok (Nat.shiftr (RingQ.queue_size q) 2 <? RingQ.len q)%nat))
      end.

(** [Yield::poll] of [yield_task.rs]; the state is [yielded]. *)
Definition yield_poll (cx : Waker) (yielded : bool) : st World (bool * Poll unit) :=
  if yielded then mret (true, Ready tt) else wake cx;; mret (true, Pending).

(** The states of the future [send] makes: not yet polled, at the [await] of
    the [AsyncSender], at the [await] of the yield, returned. *)
Inductive Send : Type :=
| SendStart (d : T)
| SendWait (fut : option ChannelData)
| SendYield (yielded : bool)
| SendDone.

(** [Sender::send] from the [await] of the yield on, and from the [await] of the
    [AsyncSender] on. *)
Definition send_from_yield (cx : Waker) (yielded : bool) :
    st World (Send * Poll (result unit SendErr)) :=
  '(y, p) ← yield_poll cx yielded;
  match p with
  | Pending => mret (SendYield y, Pending)
  | Ready _ => mret (SendDone, Ready (Ok tt))
  end.
Definition send_from_wait (cx : Waker) (now : Z) (fut : option ChannelData) :
    st World (Send * Poll (result unit SendErr)) :=
  '(fut', p) ← async_sender_poll cx now fut;
  match p with
  | Pending => mret (SendWait fut', Pending)
  | Ready (Ok need_yield) =>
      if (need_yield : bool) then send_from_yield cx false
      else mret (SendDone, Ready (Ok tt))
  | Ready (Err e) => mret (SendDone, Ready (Err e))
  end.

(** One poll of the future of [Sender::send]; a future that has returned panics
    when it is polled again. *)
Definition send_poll (cx : Waker) (stamp now : Z) (s : Send) :
    st World (Send * Poll (result unit SendErr)) :=
  match s with
  | SendStart d => send_from_wait cx now (Some (mkData stamp d))
  | SendWait fut => send_from_wait cx now fut
  | SendYield y => send_from_yield cx y
  | SendDone => panic
  end.

(** [Receiver::try_recv]. *)
Definition try_recv (now : Z) : st World (result T RecvErr) :=
  garbage_collect now;;
  o ← queue_pop;
  match o with
  | Some d => mret (Ok (data d))
  | None =>
      closed ← is_terminated;
      if (closed : bool) then mret (Err RecvClosed) else mret (Err NoData)
  end.

(** [AsyncReceiver::poll], which is all the future of [Receiver::recv] does. *)
Definition async_receiver_poll (cx : Waker) (now : Z) : st World (Poll (result T RecvErr)) :=
  garbage_collect now;;
  o ← queue_pop;
  match o with
  | Some d => wake_sender;; mret (Ready (Ok (data d)))
  | None =>
      closed ← is_terminated;
      if (closed : bool) then mret (Ready (Err RecvClosed))
      else on_chan (set_waker_receiver (Some cx));; mret Pending
  end.

(** [Drop for Sender] and [Drop for Receiver]. *)
Definition drop_sender : st World unit :=
  on_chan (fun c => set_waker_sender None (set_terminated c));; wake_receiver.
Definition drop_receiver : st World unit :=
  on_chan (fun c => set_waker_receiver None (set_terminated c));; wake_sender.

End bounded.
Arguments ChannelData : clear implicits.
Arguments Channel : clear implicits.
Arguments World : clear implicits.
Arguments Send : clear implicits.

(** ** What each operation does to the messages stored *)

(** The channel stores [xs], oldest first, in a queue of the configured size. *)
Record holds {T} (c : Channel T) (xs : list (ChannelData T)) : Prop := mkHolds {
  holds_repr : RingQ.repr (queue c) xs;
  holds_size : RingQ.queue_size (queue c) = queue_size (attribute c);
  holds_room : (0 < queue_size (attribute c))%nat
}.

(** The messages [garbage_collect] leaves. *)
Fixpoint drop_old {T} (now span : Z) (xs : list (ChannelData T)) : list (ChannelData T) :=
  match xs with
  | x :: xs' => if too_old now span x then drop_old now span xs' else xs
  | [] => []
  end.
Definition fresh {T} (l : Lifespan) (now : Z) (xs : list (ChannelData T)) :
    list (ChannelData T) :=
  match l with Permanent => xs | Span dur => drop_old now (as_micros dur) xs end.

(** The messages left when one more is to be stored: [None] when flow control
    stops the sender. *)
Definition room {T} (a : Attribute) (xs : list (ChannelData T)) :
    option (list (ChannelData T)) :=
  if decide (length xs = queue_size a)
  then if flow_control a then None else Some (tail xs)
  else Some xs.

Section specs.
Context {T : Type}.
Implicit Types (c : Channel T) (xs : list (ChannelData T)) (l : list Waker).

Lemma holds_set_queue c q xs :
  RingQ.repr q xs -> RingQ.queue_size q = queue_size (attribute c) ->
  (0 < queue_size (attribute c))%nat -> holds (set_queue q c) xs.
Proof. intros; split; done. Qed.

Lemma holds_new (a : Attribute) : (0 < queue_size a)%nat -> holds (new (T:=T) a) [].
Proof.
  intros H; split; [apply RingQ.new_repr| |done].
  unfold RingQ.queue_size; simpl. by rewrite length_replicate.
Qed.

(** Popping the oldest message, and pushing where there is room. *)
Lemma queue_pop_spec c xs l :
  holds c xs ->
  exists q, queue_pop (mkWorld c l) = Ret (mkWorld (set_queue q c) l, head xs) /\
    holds (set_queue q c) (tail xs).
Proof.
  intros [Hr Hs Hp]. unfold queue_pop; simpl. destruct xs as [|x xs].
  - rewrite RingQ.pop_nil by done. eexists; split; [done|by apply holds_set_queue].
  - destruct (RingQ.pop_cons _ _ _ Hr) as (q & -> & Hr' & Hs').
    eexists; split; [done|]. apply holds_set_queue; [done|congruence|done].
Qed.

Lemma push_asserted_spec c xs l d :
  holds c xs -> (length xs < queue_size (attribute c))%nat ->
  exists q, push_asserted d (mkWorld c l) = Ret (mkWorld (set_queue q c) l, tt) /\
    holds (set_queue q c) (xs ++ [d]).
Proof.
  intros [Hr Hs Hp] Hl. rewrite <-Hs in Hl.
  destruct (RingQ.push_room _ _ d Hr Hl) as (q & Hq & Hr' & Hs').
  exists q. unfold push_asserted, queue_push, mbind, st_bind; simpl. rewrite Hq; simpl.
  split; [done|]. apply holds_set_queue; [done|congruence|done].
Qed.

Lemma holds_length c xs : holds c xs -> (length xs <= queue_size (attribute c))%nat.
Proof. intros [Hr Hs _]. rewrite <-Hs. apply Hr. Qed.

Lemma garbage_loop_spec fuel now span c xs l :
  holds c xs -> (length xs < fuel)%nat ->
  exists q, garbage_loop fuel now span (mkWorld c l) = Ret (mkWorld (set_queue q c) l, tt) /\
    holds (set_queue q c) (drop_old now span xs).
Proof.
  revert c xs. induction fuel as [|fuel IH]; intros c xs H Hf; [lia|].
  pose proof H as [Hr Hs Hp].
  cbn [garbage_loop]. unfold mbind at 1, st_bind at 1.
  cbn [chan]. rewrite (RingQ.head_ref_spec _ xs) by (done || lia). simpl.
  destruct xs as [|x xs]; simpl; [exists (queue c); by destruct c|].
  destruct (too_old now span x); [|exists (queue c); by destruct c].
  destruct (queue_pop_spec c (x :: xs) l H) as (q & Hq & H').
  unfold mbind, st_bind. rewrite Hq.
  destruct (IH (set_queue q c) xs H' ltac:(simpl in Hf; lia)) as (q' & -> & H'').
  by exists q'.
Qed.

(** [garbage_collect] removes the expired messages at the front of the queue and
    changes nothing else. *)
Lemma garbage_collect_spec now c xs l :
  holds c xs ->
  exists q, garbage_collect now (mkWorld c l) = Ret (mkWorld (set_queue q c) l, tt) /\
    holds (set_queue q c) (fresh (lifespan (attribute c)) now xs).
Proof.
  intros H. unfold garbage_collect, mbind, st_bind, gets; simpl.
  destruct (lifespan (attribute c)) as [|dur]; simpl.
  - exists (queue c). by destruct c.
  - pose proof (garbage_loop_spec (S (RingQ.len (queue c))) now (as_micros dur) c xs l H) as G.
    rewrite (RingQ.repr_len _ _ (holds_repr _ _ H)) in *. apply G; lia.
Qed.

Lemma room_length a xs ys :
  room a xs = Some ys -> (length xs <= queue_size a)%nat -> (0 < queue_size a)%nat ->
  (length ys < queue_size a)%nat.
Proof.
  unfold room. intros H Hl Hp. case_decide; [destruct (flow_control a)|]; simplify_eq; [|lia].
  destruct xs; simpl in *; lia.
Qed.

Lemma make_room_spec c xs l :
  holds c xs ->
  exists q, make_room (mkWorld c l) =
      Ret (mkWorld (set_queue q c) l, match room (attribute c) xs with None => true | _ => false end) /\
    holds (set_queue q c) (default xs (room (attribute c) xs)).
Proof.
  intros H. pose proof H as [Hr Hs Hp].
  unfold make_room, is_full, room, mbind, st_bind, gets; cbn [chan].
  rewrite (RingQ.repr_is_full _ _ Hr), Hs.
  destruct (decide (length xs = queue_size (attribute c))) as [He|He].
  - rewrite bool_decide_true by done. simpl. destruct (flow_control (attribute c)).
    + exists (queue c). by destruct c.
    + destruct (queue_pop_spec c xs l H) as (q & -> & H'). by exists q.
  - rewrite bool_decide_false by done. exists (queue c). by destruct c.
Qed.

Lemma wake_receiver_spec c l :
  wake_receiver (mkWorld c l) =
  Ret (mkWorld (set_waker_receiver None c) (l ++ option_list (waker_receiver c)), tt).
Proof. destruct c as [q [t|] s b a]; simpl; [done|by rewrite app_nil_r]. Qed.
Lemma wake_sender_spec c l :
  wake_sender (mkWorld c l) =
  Ret (mkWorld (set_waker_sender None c) (l ++ option_list (waker_sender c)), tt).
Proof. destruct c as [q r [t|] b a]; simpl; [done|by rewrite app_nil_r]. Qed.

Lemma drop_sender_spec c l :
  drop_sender (mkWorld c l) =
  Ret (mkWorld (set_waker_receiver None (set_waker_sender None (set_terminated c)))
         (l ++ option_list (waker_receiver c)), tt).
Proof. apply (wake_receiver_spec (set_waker_sender None (set_terminated c))). Qed.
Lemma drop_receiver_spec c l :
  drop_receiver (mkWorld c l) =
  Ret (mkWorld (set_waker_sender None (set_waker_receiver None (set_terminated c)))
         (l ++ option_list (waker_sender c)), tt).
Proof. apply (wake_sender_spec (set_waker_receiver None (set_terminated c))). Qed.

(** Storing a message wakes the receiver that waits and consumes its waker; a
    closed channel and a full one under flow control refuse it. *)
Lemma try_send_spec c xs l stamp now d :
  holds c xs ->
  exists q, match terminated c, room (attribute c) (fresh (lifespan (attribute c)) now xs) with
  | true, _ => try_send stamp now d (mkWorld c l) = Ret (mkWorld c l, Err SendClosed)
  | false, None =>
      try_send stamp now d (mkWorld c l) = Ret (mkWorld (set_queue q c) l, Err Full) /\
      holds (set_queue q c) (fresh (lifespan (attribute c)) now xs)
  | false, Some ys =>
      try_send stamp now d (mkWorld c l) =
        Ret (mkWorld (set_waker_receiver None (set_queue q c))
               (l ++ option_list (waker_receiver c)), Ok tt) /\
      holds (set_waker_receiver None (set_queue q c)) (ys ++ [mkData stamp d])
  end.
Proof.
  intros H. unfold try_send, is_terminated, mbind, st_bind, gets; cbn [chan].
  destruct (terminated c); [by exists (queue c)|].
  destruct (garbage_collect_spec now c xs l H) as (q & -> & H1).
  destruct (make_room_spec _ _ l H1) as (q' & -> & H2).
  cbn [attribute set_queue] in *.
  destruct (room _ _) as [ys|] eqn:Hy; simpl in H2; [|by exists q'].
  destruct (push_asserted_spec _ _ l (mkData stamp d) H2) as (q2 & -> & H3).
  { eapply room_length; [done|by apply (holds_length _ _ H1)|apply H]. }
  rewrite wake_receiver_spec. exists q2. split; [done|]. by split; apply H3.
Qed.

Lemma async_sender_poll_spec c xs l cx now d :
  holds c xs ->
  exists q b, match terminated c, room (attribute c) (fresh (lifespan (attribute c)) now xs) with
  | true, _ => async_sender_poll cx now (Some d) (mkWorld c l) =
      Ret (mkWorld c l, (Some d, Ready (Err SendClosed)))
  | false, None =>
      async_sender_poll cx now (Some d) (mkWorld c l) =
        Ret (mkWorld (set_waker_sender (Some cx) (set_queue q c)) l, (Some d, Pending)) /\
      holds (set_waker_sender (Some cx) (set_queue q c)) (fresh (lifespan (attribute c)) now xs)
  | false, Some ys =>
      async_sender_poll cx now (Some d) (mkWorld c l) =
        Ret (mkWorld (set_waker_receiver None (set_queue q c))
               (l ++ option_list (waker_receiver c)), (None, Ready (Ok b))) /\
      holds (set_waker_receiver None (set_queue q c)) (ys ++ [d])
  end.
Proof.
  intros H. unfold async_sender_poll, is_terminated, mbind, st_bind, gets; cbn [chan].
  destruct (terminated c); [by exists (queue c), true|].
  destruct (garbage_collect_spec now c xs l H) as (q & -> & H1).
  destruct (make_room_spec _ _ l H1) as (q' & -> & H2).
  cbn [attribute set_queue] in *.
  destruct (room _ _) as [ys|] eqn:Hy; simpl in H2.
  2:{ exists q', true. split; [done|]. by split; apply H2. }
  rewrite wake_receiver_spec.
  edestruct (push_asserted_spec (set_waker_receiver None
    (set_queue q' (set_queue q c))) ys) as (q2 & -> & H3); [by split; apply H2| |].
  { eapply room_length; [done|by apply (holds_length _ _ H1)|apply H]. }
  eexists q2, _. split; [done|]. by split; apply H3.
Qed.

(** The oldest message that has not expired is received, and the sender that
    waits is woken; an empty queue is an error when the channel is closed and
    makes the receiver wait otherwise. *)
Lemma async_receiver_poll_spec c xs l cx now :
  holds c xs ->
  exists q, match fresh (lifespan (attribute c)) now xs, terminated c with
  | d :: ys, _ =>
      async_receiver_poll cx now (mkWorld c l) =
        Ret (mkWorld (set_waker_sender None (set_queue q c))
               (l ++ option_list (waker_sender c)), Ready (Ok (data d))) /\
      holds (set_waker_sender None (set_queue q c)) ys
  | [], true =>
      async_receiver_poll cx now (mkWorld c l) =
        Ret (mkWorld (set_queue q c) l, Ready (Err RecvClosed)) /\ holds (set_queue q c) []
  | [], false =>
      async_receiver_poll cx now (mkWorld c l) =
        Ret (mkWorld (set_waker_receiver (Some cx) (set_queue q c)) l, Pending) /\
      holds (set_waker_receiver (Some cx) (set_queue q c)) []
  end.
Proof.
  intros H. unfold async_receiver_poll, mbind, st_bind.
  destruct (garbage_collect_spec now c xs l H) as (q & -> & H1).
  destruct (queue_pop_spec _ _ l H1) as (q' & -> & H2). exists q'.
  destruct (fresh _ _ _) as [|d ys]; simpl in *.
  - unfold is_terminated, gets; simpl. destruct (terminated c); (split; [done|]);
      split; apply H2.
  - rewrite wake_sender_spec. split; [done|]. split; apply H2.
Qed.

Lemma try_recv_spec c xs l now :
  holds c xs ->
  exists q, try_recv now (mkWorld c l) =
      Ret (mkWorld (set_queue q c) l,
           match fresh (lifespan (attribute c)) now xs with
           | d :: _ => Ok (data d)
           | [] => Err (if terminated c then RecvClosed else NoData)
           end) /\
    holds (set_queue q c) (tail (fresh (lifespan (attribute c)) now xs)).
Proof.
  intros H. unfold try_recv, mbind, st_bind.
  destruct (garbage_collect_spec now c xs l H) as (q & -> & H1).
  destruct (queue_pop_spec _ _ l H1) as (q' & -> & H2). exists q'.
  destruct (fresh _ _ _) as [|d ys]; simpl in *; [|done].
  unfold is_terminated, gets; simpl. by destruct (terminated c).
Qed.

End specs.

End Bounded.
