(* ===== verification/ChannelSys.v ===== *)
(** * A sender task and a receiver task on one bounded channel

    [Channel.v] has the operations; here a sender task and a receiver task call
    them in any order.  [Sys] is the state of the two tasks with their channel,
    [step] one call or one poll, [run] a history.  A task is parked when its
    last poll gave [Pending] and nothing has woken it since: it is not polled
    again unless the poll is a spurious one.  The theorems show that what is
    received is what was sent, in order, and that the two tasks are never both
    parked, for the uses of the channel for which that is so. *)

From S2P Require Import Prelude RingQ Channel.
Import Bounded.

Local Open Scope Z_scope.

(** The wakers of the two tasks. *)
Definition sender_task : Waker := 0%nat.
Definition receiver_task : Waker := 1%nat.

Section system.
Context {T : Type}.

(** What the two tasks do.  [ESend] calls [Sender::send], which only makes the
    future; [EPollSend] and [EPollRecv] poll, [ECancel*] drop a future that has
    not returned.  [EPollRecv] makes the future of [Receiver::recv] if there is
    none. *)
Inductive event : Type :=
| ESend (d : T)
| EPollSend (stamp now : Z)
| ECancelSend
| ETrySend (stamp now : Z) (d : T)
| EDropSender
| EPollRecv (now : Z)
| ECancelRecv
| ETryRecv (now : Z)
| EDropReceiver.

Record Sys : Type := mkSys {
  channel : Channel T;
  sending : option (Send T);
  sender_parked : bool;
  sender_gone : bool;
  receiver_parked : bool;
  receiver_gone : bool;
  (** the messages stored so far and those handed to the receiver *)
  accepted : list T;
  received : list T
}.

Definition init (a : Attribute) : Sys := mkSys (new a) None false false false false [] [].

(** A parked task stays parked until it is woken. *)
Definition still (t : Waker) (parked : bool) (log : list Waker) : bool :=
  parked && bool_decide (t ∉ log).

(** A task whose poll gave [Pending] is parked unless that poll woke it. *)
Definition pending {A} (p : Poll A) : bool := match p with Pending => true | Ready _ => false end.

(** The message of a send that has not been stored yet. *)
Definition unsent (s : Send T) : list T :=
  match s with
  | SendStart d => [d]
  | SendWait (Some d) => [data d]
  | _ => []
  end.

(** The message a poll of [send] stored: the one that is no longer waiting,
    unless the poll gave an error. *)
Definition stored (s s' : Send T) (p : Poll (result unit SendErr)) : list T :=
  match p, s' with
  | Ready (Err _), _ => []
  | _, SendWait (Some _) => []
  | _, _ => unsent s
  end.

Definition received_of (r : result T RecvErr) : list T :=
  match r with Ok d => [d] | Err _ => [] end.

Definition poll_send (stamp now : Z) (f : Send T) (s : Sys) : outcome Sys :=
  '(w, (f', p)) ← send_poll sender_task stamp now f (mkWorld (channel s) []);
  Ret (mkSys (chan w) (if pending p then Some f' else None)
         (still sender_task (pending p) (woken w)) (sender_gone s)
         (still receiver_task (receiver_parked s) (woken w)) (receiver_gone s)
         (accepted s ++ stored f f' p) (received s)).

Definition poll_recv (now : Z) (s : Sys) : outcome Sys :=
  '(w, p) ← async_receiver_poll receiver_task now (mkWorld (channel s) []);
  Ret (mkSys (chan w) (sending s)
         (still sender_task (sender_parked s) (woken w)) (sender_gone s)
         (still receiver_task (pending p) (woken w)) (receiver_gone s)
         (accepted s)
         (received s ++ match p with Ready r => received_of r | Pending => [] end)).

(** The state after a call that is not a poll. *)
Definition after_call (s : Sys) (w : World T) (acc rec : list T) : Sys :=
  mkSys (chan w) (sending s)
    (still sender_task (sender_parked s) (woken w)) (sender_gone s)
    (still receiver_task (receiver_parked s) (woken w)) (receiver_gone s)
    (accepted s ++ acc) (received s ++ rec).

(** One event; one that the task cannot do (its handle is dropped, no future to
    poll, a future already there) changes nothing. *)
Definition step (s : Sys) (e : event) : outcome Sys :=
  match e with
  | ESend d =>
      if sender_gone s then Ret s else
      match sending s with
      | Some _ => Ret s
      | None =>
          Ret (mkSys (channel s) (Some (SendStart d)) false (sender_gone s)
                 (receiver_parked s) (receiver_gone s) (accepted s) (received s))
      end
  | EPollSend stamp now =>
      match sending s with Some f => poll_send stamp now f s | None => Ret s end
  | ECancelSend =>
      Ret (mkSys (channel s) None false (sender_gone s)
             (receiver_parked s) (receiver_gone s) (accepted s) (received s))
  | ETrySend stamp now d =>
      if sender_gone s then Ret s else
      '(w, r) ← try_send stamp now d (mkWorld (channel s) []);
      Ret (after_call s w (match r with Ok _ => [d] | Err _ => [] end) [])
  | EDropSender =>
      if sender_gone s then Ret s else
      match sending s with
      | Some _ => Ret s
      | None =>
          '(w, _) ← drop_sender (mkWorld (channel s) []);
          Ret (mkSys (chan w) None false true
                 (still receiver_task (receiver_parked s) (woken w)) (receiver_gone s)
                 (accepted s) (received s))
      end
  | EPollRecv now => if receiver_gone s then Ret s else poll_recv now s
  | ECancelRecv =>
      Ret (mkSys (channel s) (sending s) (sender_parked s) (sender_gone s)
             false (receiver_gone s) (accepted s) (received s))
  | ETryRecv now =>
      if receiver_gone s then Ret s else
      '(w, r) ← try_recv now (mkWorld (channel s) []);
      Ret (after_call s w [] (received_of r))
  | EDropReceiver =>
      if receiver_gone s then Ret s else
      '(w, _) ← drop_receiver (mkWorld (channel s) []);
      Ret (mkSys (chan w) (sending s)
             (still sender_task (sender_parked s) (woken w)) (sender_gone s)
             false true (accepted s) (received s))
  end.

Fixpoint run (s : Sys) (es : list event) : outcome Sys :=
  match es with
  | [] => Ret s
  | e :: es' => s' ← step s e; run s' es'
  end.

End system.
Arguments event : clear implicits.
Arguments Sys : clear implicits.
#[global] Arguments still : simpl never.

(** ** The invariant *)

(** A channel that loses nothing: flow control, and messages do not expire. *)
Definition reliable (a : Attribute) : Prop := flow_control a = true /\ lifespan a = Permanent.

Section delivery.
Context {T : Type}.
Implicit Types (acc rec : list T) (xs ys : list (ChannelData T)) (s : Sys T).

(** What was received and then what is stored is a subsequence of what was
    accepted, and all of it when the channel loses nothing. *)
Definition delivers (a : Attribute) acc rec xs : Prop :=
  rec ++ (data <$> xs) `sublist_of` acc /\
  (reliable a -> rec ++ (data <$> xs) = acc).

Lemma drop_old_sublist now span xs : drop_old now span xs `sublist_of` xs.
Proof.
  induction xs as [|x xs IH]; simpl; [done|].
  destruct (too_old now span x); [by apply sublist_cons|done].
Qed.

Lemma delivers_sublist a acc rec xs ys :
  delivers a acc rec xs -> ys `sublist_of` xs -> (reliable a -> ys = xs) ->
  delivers a acc rec ys.
Proof.
  intros [H1 H2] Hs Hr. split; [|intros H; rewrite Hr by done; auto].
  etrans; [|done]. by apply sublist_app, fmap_sublist.
Qed.

Lemma delivers_fresh a acc rec xs now :
  delivers a acc rec xs -> delivers a acc rec (fresh (lifespan a) now xs).
Proof.
  intros H. eapply delivers_sublist; [done| |intros [_ Hl]; by rewrite Hl].
  unfold fresh. destruct (lifespan a); [done|apply drop_old_sublist].
Qed.

Lemma delivers_push a acc rec xs ys d :
  delivers a acc rec xs -> room a xs = Some ys ->
  delivers a (acc ++ [data d]) rec (ys ++ [d]).
Proof.
  intros H Hy. assert (delivers a acc rec ys) as [H1 H2].
  { eapply delivers_sublist; [done| |]; unfold room in Hy.
    - repeat case_match; simplify_eq; [|done]. destruct xs; [done|by apply sublist_cons].
    - intros [Hf _]. rewrite Hf in Hy. case_match; by simplify_eq. }
  split; [|intros Hr]; rewrite fmap_app, app_assoc; simpl.
  - by apply sublist_app.
  - by rewrite H2.
Qed.

Lemma delivers_recv a acc rec d ys :
  delivers a acc rec (d :: ys) -> delivers a acc (rec ++ [data d]) ys.
Proof. unfold delivers. by rewrite <-app_assoc. Qed.

(** The futures that [step] keeps: [SendYield] has woken its task already. *)
Definition waiting (f : option (Send T)) : Prop :=
  match f with
  | None | Some (SendStart _) | Some (SendWait (Some _)) | Some (SendYield true) => True
  | _ => False
  end.

(** A parked sender waits for room and a parked receiver for a message, each
    with its waker in the channel. *)
Record parked_ok s xs : Prop := mkParked {
  parked_sender : sender_parked s = true ->
    waker_sender (channel s) = Some sender_task /\ terminated (channel s) = false /\
    room (attribute (channel s)) xs = None;
  parked_receiver : receiver_parked s = true ->
    waker_receiver (channel s) = Some receiver_task /\ terminated (channel s) = false /\
    xs = []
}.

(** The uses of the channel for which no wake-up is lost. *)
Definition no_try_recv (e : event T) : bool :=
  match e with ETryRecv _ => false | _ => true end.

Record inv (a : Attribute) (live : Prop) s xs : Prop := mkInv {
  inv_holds : holds (channel s) xs;
  inv_attr : attribute (channel s) = a;
  inv_waiting : waiting (sending s);
  inv_delivers : delivers a (accepted s) (received s) xs;
  inv_parked : live -> parked_ok s xs
}.

Lemma channel_init_inv a live : (0 < queue_size a)%nat -> inv a live (init a) [].
Proof. intros H. split; try done. by apply holds_new. Qed.

Lemma still_nil t b : still t b [] = b.
Proof. unfold still. rewrite bool_decide_true by set_solver. apply andb_true_r. Qed.
Lemma still_last t b l : still t b (l ++ [t]) = false.
Proof. unfold still. rewrite bool_decide_false by set_solver. apply andb_false_r. Qed.
Lemma still_other t t' b l : t <> t' -> still t b (l ++ [t']) = still t b l.
Proof. intros H. unfold still. f_equal. apply bool_decide_ext. set_solver. Qed.
Lemma still_true t b l : still t b l = true -> b = true /\ t ∉ l.
Proof. unfold still. intros [? H]%andb_prop. by apply bool_decide_eq_true in H. Qed.

Lemma room_nil a : (0 < queue_size a)%nat -> room a (@nil (ChannelData T)) <> None.
Proof. intros H. unfold room. case_decide; simpl in *; [lia|done]. Qed.

(** ** Every event keeps the invariant *)

Context (a : Attribute) (live : Prop).
Hypothesis live_permanent : live -> lifespan a = Permanent.

Lemma fresh_live now xs : live -> fresh (lifespan a) now xs = xs.
Proof. intros H. by rewrite live_permanent. Qed.

(** The state after a message [d] has been stored: the receiver is woken, and no
    sender is parked. *)
Lemma stored_inv s xs ys q d now f (sp : bool) :
  inv a live s xs -> terminated (channel s) = false ->
  room a (fresh (lifespan a) now xs) = Some ys ->
  holds (set_waker_receiver None (set_queue q (channel s))) (ys ++ [d]) ->
  waiting f -> (sp = true -> sender_parked s = true) ->
  inv a live (mkSys (set_waker_receiver None (set_queue q (channel s))) f sp (sender_gone s)
    (still receiver_task (receiver_parked s) (option_list (waker_receiver (channel s))))
    (receiver_gone s) (accepted s ++ [data d]) (received s)) (ys ++ [d]).
Proof.
  intros [Hh Ha Hw Hd Hp] Ht Hr Hq Hf Hs. split; simpl; try done.
  { eapply delivers_push, Hr. by apply delivers_fresh. }
  intros Hl. rewrite fresh_live in Hr by done. destruct (Hp Hl) as [P1 P2]. split; simpl.
  - intros [_ [_ ?]]%Hs%P1. congruence.
  - intros [[Hv _]%P2 Hn]%still_true. rewrite Hv in Hn. set_solver.
Qed.

(** The future of [send] at its first [await]. *)
Lemma wait_inv s xs now d f :
  inv a live s xs -> unsent f = [data d] ->
  exists w f' p xs',
    send_from_wait sender_task now (Some d) (mkWorld (channel s) []) = Ret (w, (f', p)) /\
    inv a live (mkSys (chan w) (if pending p then Some f' else None)
         (still sender_task (pending p) (woken w)) (sender_gone s)
         (still receiver_task (receiver_parked s) (woken w)) (receiver_gone s)
         (accepted s ++ stored f f' p) (received s)) xs'.
Proof.
  intros H Hu. pose proof H as [Hh Ha Hw Hd Hp].
  destruct (async_sender_poll_spec _ _ [] sender_task now d Hh) as (q & b & Hs).
  unfold send_from_wait, mbind, st_bind. rewrite Ha in Hs.
  destruct (terminated (channel s)) eqn:Ht; [|destruct (room a _) as [ys|] eqn:Hr].
  - rewrite Hs. eexists _, _, _, xs. split; [done|]. split; simpl; rewrite ?app_nil_r; try done.
    intros Hl. destruct (Hp Hl) as [_ P]. split; simpl; [done|].
    rewrite still_nil. intros [_ [? _]]%P. congruence.
  - destruct Hs as [-> Hs]. destruct b; eexists _, _, _, (ys ++ [d]); (split; [done|]); simpl.
    + rewrite still_last, still_other, Hu by done. by eapply stored_inv.
    + rewrite Hu. by eapply stored_inv.
  - destruct Hs as [-> Hs]. eexists _, _, _, _. split; [done|]. simpl.
    rewrite !still_nil, app_nil_r. split; simpl; try done; [by apply delivers_fresh|].
    intros Hl. rewrite fresh_live in * by done. destruct (Hp Hl) as [_ P].
    split; simpl; [by rewrite Ha|]. done.
Qed.

Lemma poll_send_inv s xs stamp now f :
  inv a live s xs -> sending s = Some f ->
  exists s' xs', poll_send stamp now f s = Ret s' /\ inv a live s' xs'.
Proof.
  intros H Hf. pose proof (inv_waiting _ _ _ _ H) as Hw. rewrite Hf in Hw.
  unfold poll_send. destruct f as [d|[d|]|[]|]; try done; simpl.
  - destruct (wait_inv s xs now (mkData stamp d) (SendStart d) H eq_refl)
      as (w & f' & p & xs' & -> & H'). by eexists _, xs'.
  - destruct (wait_inv s xs now d (SendWait (Some d)) H eq_refl)
      as (w & f' & p & xs' & -> & H'). by eexists _, xs'.
  - eexists _, xs. split; [done|]. rewrite app_nil_r, !still_nil.
    destruct H as [Hh Ha _ Hd Hp]. split; simpl; try done.
    intros Hl. destruct (Hp Hl). by split.
Qed.

Lemma poll_recv_inv s xs now :
  inv a live s xs -> exists s' xs', poll_recv now s = Ret s' /\ inv a live s' xs'.
Proof.
  intros [Hh Ha Hw Hd Hp]. unfold poll_recv.
  destruct (async_receiver_poll_spec _ _ [] receiver_task now Hh) as (q & Hs).
  apply (delivers_fresh _ _ _ _ now) in Hd. rewrite Ha in Hs.
  pose proof (holds_room _ _ Hh) as Hroom. rewrite Ha in Hroom.
  destruct (fresh _ now xs) as [|d ys] eqn:Hfr; [destruct (terminated (channel s)) eqn:Ht|].
  all: destruct Hs as [-> Hs]; eexists _, _; (split; [done|]); simpl.
  all: split; simpl; rewrite ?app_nil_r; try done; try by apply delivers_recv.
  all: intros Hl; rewrite fresh_live in Hfr by done; destruct (Hp Hl) as [P1 P2]; split; simpl.
  all: rewrite ?still_nil; try done.
  - intros [_ [? _]]%P1. congruence.
  - intros [_ [_ Hf]]%P1. subst xs. rewrite Ha in Hf. by apply room_nil in Hf.
  - intros [[Hv _]%P1 Hn]%still_true. rewrite Hv in Hn. set_solver.
Qed.

Lemma try_send_inv s xs stamp now d :
  inv a live s xs ->
  exists s' xs', ('(w, r) ← try_send stamp now d (mkWorld (channel s) []);
    Ret (after_call s w (match r with Ok _ => [d] | Err _ => [] end) [])) = Ret s' /\
    inv a live s' xs'.
Proof.
  intros H. pose proof H as [Hh Ha Hw Hd Hp].
  destruct (try_send_spec _ _ [] stamp now d Hh) as (q & Hs). rewrite Ha in Hs.
  destruct (terminated (channel s)) eqn:Ht; [|destruct (room a _) as [ys|] eqn:Hr].
  - rewrite Hs. eexists _, xs. split; [done|]. unfold after_call; simpl.
    rewrite !app_nil_r, !still_nil. split; try done.
    intros Hl. destruct (Hp Hl). by split.
  - destruct Hs as [-> Hs]. eexists _, (ys ++ [mkData stamp d]). split; [done|].
    unfold after_call; simpl. rewrite app_nil_r.
    eapply (stored_inv s xs ys q (mkData stamp d)); try done.
    by intros [? _]%still_true.
  - destruct Hs as [-> Hs]. eexists _, _. split; [done|]. unfold after_call; simpl.
    rewrite !app_nil_r, !still_nil. split; simpl; try done; [by apply delivers_fresh|].
    intros Hl. rewrite fresh_live by done. destruct (Hp Hl). by split.
Qed.

Lemma try_recv_inv s xs now :
  inv a live s xs -> ~ live ->
  exists s' xs', ('(w, r) ← try_recv now (mkWorld (channel s) []);
    Ret (after_call s w [] (received_of r))) = Ret s' /\ inv a live s' xs'.
Proof.
  intros [Hh Ha Hw Hd Hp] Hn. destruct (try_recv_spec _ _ [] now Hh) as (q & -> & Hs).
  rewrite Ha in *. apply (delivers_fresh _ _ _ _ now) in Hd.
  eexists _, (tail (fresh (lifespan a) now xs)). split; [done|].
  unfold after_call; simpl. rewrite app_nil_r.
  destruct (fresh _ now xs) as [|d ys]; split; simpl; rewrite ?app_nil_r;
    try done; by apply delivers_recv.
Qed.

Lemma channel_step_inv s xs e :
  inv a live s xs -> (live -> no_try_recv e = true) ->
  exists s' xs', step s e = Ret s' /\ inv a live s' xs'.
Proof.
  intros H He. pose proof H as [Hh Ha Hw Hd Hp].
  assert (Hsame : exists s' xs', Ret s = Ret s' /\ inv a live s' xs') by eauto.
  destruct e as [d|stamp now| |stamp now d| |now| |now|]; simpl;
    try (destruct (sender_gone s); [done|]); try (destruct (receiver_gone s); [done|]).
  - destruct (sending s); [done|]. eexists _, xs. split; [done|]. split; try done.
    intros Hl. destruct (Hp Hl). by split.
  - destruct (sending s) eqn:Hf; [by eapply poll_send_inv|done].
  - eexists _, xs. split; [done|]. split; try done. intros Hl. destruct (Hp Hl). by split.
  - by eapply try_send_inv.
  - destruct (sending s); [done|]. rewrite drop_sender_spec.
    eexists _, xs. split; [done|]. split; simpl; try done; [by split; apply Hh|].
    intros Hl. destruct (Hp Hl) as [_ P]. split; simpl; [done|].
    intros [[Hv _]%P Hn]%still_true. rewrite Hv in Hn. set_solver.
  - by eapply poll_recv_inv.
  - eexists _, xs. split; [done|]. split; try done. intros Hl. destruct (Hp Hl). by split.
  - eapply try_recv_inv; [done|]. by intros ?%He.
  - rewrite drop_receiver_spec.
    eexists _, xs. split; [done|]. split; simpl; try done; [by split; apply Hh|].
    intros Hl. destruct (Hp Hl) as [P _]. split; simpl; [|done].
    intros [[Hv _]%P Hn]%still_true. rewrite Hv in Hn. set_solver.
Qed.

Lemma channel_run_inv s xs es :
  inv a live s xs -> (live -> forallb no_try_recv es = true) ->
  exists s' xs', run s es = Ret s' /\ inv a live s' xs'.
Proof.
  revert s xs. induction es as [|e es IH]; intros s xs H He; simpl; [by eexists _, _|].
  destruct (channel_step_inv s xs e H) as (s1 & xs1 & -> & H1).
  { intros Hl. specialize (He Hl). simpl in He. by apply andb_prop in He as [? _]. }
  apply (IH s1 xs1 H1). intros Hl. specialize (He Hl). simpl in He.
  by apply andb_prop in He as [_ ?].
Qed.

End delivery.

(** ** What the channel promises its two tasks *)





(** ** The uses for which a wake-up is lost *)

(** Both tasks are parked, on an open channel with an empty queue. *)
Definition deadlocked {T} (s : Sys T) : bool :=
  sender_parked s && receiver_parked s && RingQ.is_empty (queue (channel s)) &&
  negb (terminated (channel s)).

(** With flow control and a lifespan, [garbage_collect] in the receiver's poll
    can empty a full queue and does not wake the sender that waits for room: the
    receiver parks as well, and both tasks sleep on an empty, open channel. *)
Theorem expired_messages_leave_both_parked :
  exists s : Sys Z,
    run (init (mkAttribute 1 true (Span 1000)))
      [ESend 7; EPollSend 0 0; EPollSend 0 0; ESend 8; EPollSend 0 0; EPollRecv 5] = Ret s /\
    deadlocked s = true.
Proof. eexists. split; [vm_compute; reflexivity|done]. Qed.

(** [try_recv] takes a message from a full queue and does not wake the sender
    that waits for room; when the receiver then waits for the next message both
    tasks sleep. *)
Theorem try_recv_leaves_both_parked :
  exists s : Sys Z,
    run (init (mkAttribute 1 true Permanent))
      [ESend 7; EPollSend 0 0; EPollSend 0 0; ESend 8; EPollSend 0 0; ETryRecv 1; EPollRecv 2]
      = Ret s /\
    deadlocked s = true /\ received s = [7].
Proof. eexists. split; [vm_compute; reflexivity|done]. Qed.

(** Without flow control and with a queue of size 0, a send panics at the
    [assert!]. *)
Theorem zero_size_without_flow_control_panics :
  run (init (mkAttribute 0 false Permanent)) [ETrySend 0 0 7] = Panic.
Proof. reflexivity. Qed.
