(* ===== verification/Unbounded.v ===== *)
(** * The unbounded channel of [awkernel_async_lib/src/channel/unbounded.rs]

    The channel is a [VecDeque] with the waker of its receiver, behind a mutex.
    [Module Unbounded] has its operations; the histories below let any number of
    clones of the sender and one receiver call them in any order. *)

From S2P Require Import Prelude Channel.

Module Unbounded.

Section unbounded.
Context {T : Type}.

(** [struct Channel<T>]. *)
Record Channel : Type := mkChannel {
  queue : list T;
  waker_receiver : option Waker;
  terminated : bool
}.

Record World : Type := mkWorld { chan : Channel; woken : list Waker }.

Definition on_chan (f : Channel -> Channel) : st World unit :=
  modify (fun w => mkWorld (f (chan w)) (woken w)).
Definition wake (t : Waker) : st World unit :=
  modify (fun w => mkWorld (chan w) (woken w ++ [t])).

(** [if let Some(waker) = chan.waker_receiver.take() { waker.wake(); }]. *)
Definition wake_receiver : st World unit :=
  o ← gets (fun w => waker_receiver (chan w));
  on_chan (fun c => mkChannel (queue c) None (terminated c));;
  match o with Some t => wake t | None => mret tt end.

(** [unbounded::new]. *)
Definition new : Channel := mkChannel [] None false.

(** [Sender::is_terminated]. *)
Definition is_terminated : st World bool := gets (fun w => terminated (chan w)).

(** [Sender::send_no_yield]; the error is the string "Connection closed". *)
Definition send_no_yield (d : T) : st World (result unit unit) :=
  closed ← is_terminated;
  if (closed : bool) then mret (Err tt)
  else
    on_chan (fun c => mkChannel (queue c ++ [d]) (waker_receiver c) (terminated c));;
    wake_receiver;; mret (Ok tt).

(** The future of [Sender::send]: not yet polled, at the [await] of the yield,
    returned. *)
Inductive Send : Type :=
| SendStart (d : T)
| SendYield (yielded : bool)
| SendDone.

Definition send_from_yield (cx : Waker) (yielded : bool) : st World (Send * Poll (result unit unit)) :=
  if yielded then mret (SendDone, Ready (Ok tt))
  else wake cx;; mret (SendYield true, Pending).

Definition send_poll (cx : Waker) (s : Send) : st World (Send * Poll (result unit unit)) :=
  match s with
  | SendStart d =>
      r ← send_no_yield d;
      match r with
      | Err e => mret (SendDone, Ready (Err e))
      | Ok _ => send_from_yield cx false
      end
  | SendYield y => send_from_yield cx y
  | SendDone => panic
  end.

(** [chan.queue.pop_front()]. *)
Definition pop_front : st World (option T) :=
  q ← gets (fun w => queue (chan w));
  on_chan (fun c => mkChannel (tail q) (waker_receiver c) (terminated c));;
  mret (head q).

(** [Receiver::try_recv]. *)
Definition try_recv : st World (result T RecvErr) :=
  o ← pop_front;
  match o with
  | Some e => mret (Ok e)
  | None =>
      closed ← is_terminated;
      if (closed : bool) then mret (Err RecvClosed) else mret (Err NoData)
  end.

(** [AsyncReceiver::poll]. *)
Definition async_receiver_poll (cx : Waker) : st World (Poll (result T RecvErr)) :=
  o ← pop_front;
  match o with
  | Some d => mret (Ready (Ok d))
  | None =>
      closed ← is_terminated;
      if (closed : bool) then mret (Ready (Err RecvClosed))
      else
        on_chan (fun c => mkChannel (queue c) (Some cx) (terminated c));;
        mret Pending
  end.

(** [Drop for Sender] and [Drop for Receiver]. *)
Definition drop_sender : st World unit :=
  on_chan (fun c => mkChannel (queue c) (waker_receiver c) true);; wake_receiver.
Definition drop_receiver : st World unit :=
  on_chan (fun c => mkChannel (queue c) (waker_receiver c) true).

(** ** Histories *)

(** What the holders of the sender's clones and of the receiver do; [i] numbers
    the clones.  A clone that sends does so in one poll: the rest of its future
    only yields. *)
Inductive event : Type :=
| ESend (i : nat) (d : T)
| EDropSender (i : nat)
| EPollRecv
| ETryRecv
| EDropReceiver.

Record Sys : Type := mkSys {
  channel : Channel;
  senders : list nat;
  receiver : bool;
  receiver_parked : bool;
  accepted : list T;
  received : list T
}.

Definition init (n : nat) : Sys := mkSys new (seq 0 n) true false [] [].

(** The receiver's waker is task 0, the clones' are the numbers from 1. *)
Definition receiver_task : Waker := 0.

Definition still (parked : bool) (log : list Waker) : bool :=
  parked && bool_decide (receiver_task ∉ log).

Definition step (s : Sys) (e : event) : outcome Sys :=
  match e with
  | ESend i d =>
      if decide (i ∈ senders s) then
        '(w, (_, p)) ← send_poll (S i) (SendStart d) (mkWorld (channel s) []);
        Ret (mkSys (chan w) (senders s) (receiver s)
               (still (receiver_parked s) (woken w))
               (accepted s ++ match p with Ready (Err _) => [] | _ => [d] end) (received s))
      else Ret s
  | EDropSender i =>
      if decide (i ∈ senders s) then
        '(w, _) ← drop_sender (mkWorld (channel s) []);
        Ret (mkSys (chan w) (filter (fun j => j <> i) (senders s)) (receiver s)
               (still (receiver_parked s) (woken w)) (accepted s) (received s))
      else Ret s
  | EPollRecv =>
      if receiver s then
        '(w, p) ← async_receiver_poll receiver_task (mkWorld (channel s) []);
        Ret (mkSys (chan w) (senders s) (receiver s)
               match p with Pending => true | Ready _ => false end (accepted s)
               (received s ++ match p with Ready (Ok d) => [d] | _ => [] end))
      else Ret s
  | ETryRecv =>
      if receiver s then
        '(w, r) ← try_recv (mkWorld (channel s) []);
        Ret (mkSys (chan w) (senders s) (receiver s) (receiver_parked s) (accepted s)
               (received s ++ match r with Ok d => [d] | Err _ => [] end))
      else Ret s
  | EDropReceiver =>
      if receiver s then
        '(w, _) ← drop_receiver (mkWorld (channel s) []);
        Ret (mkSys (chan w) (senders s) false false (accepted s) (received s))
      else Ret s
  end.

Fixpoint run (s : Sys) (es : list event) : outcome Sys :=
  match es with
  | [] => Ret s
  | e :: es' => s' ← step s e; run s' es'
  end.

End unbounded.
Arguments Channel : clear implicits.
Arguments World : clear implicits.
Arguments Send : clear implicits.
Arguments event : clear implicits.
Arguments Sys : clear implicits.
#[global] Arguments still : simpl never.

(** ** Nothing is lost and no wake-up either *)

(** What was received and then what is stored is what was accepted; a parked
    receiver waits on an empty, open channel that has its waker. *)
Record inv {T} (s : Sys T) : Prop := mkInv {
  inv_fifo : received s ++ queue (channel s) = accepted s;
  inv_parked : receiver_parked s = true ->
    queue (channel s) = [] /\ terminated (channel s) = false /\
    waker_receiver (channel s) = Some receiver_task
}.

Section proofs.
Context {T : Type}.
Implicit Types s : Sys T.

Lemma still_spec b l : still b l = true -> b = true /\ receiver_task ∉ l.
Proof. unfold still. intros [? H]%andb_prop. by apply bool_decide_eq_true in H. Qed.

(** Once the receiver's waker has been taken and woken it is not parked. *)
Lemma woken_not_parked s l :
  inv s ->
  still (receiver_parked s) (option_list (waker_receiver (channel s)) ++ l) = true -> False.
Proof.
  intros [_ P] [Hb Hn]%still_spec. destruct (P Hb) as (_ & _ & Hw).
  rewrite Hw in Hn. set_solver.
Qed.

Lemma unbounded_wake_receiver_spec (c : Channel T) l :
  wake_receiver (mkWorld c l) =
  Ret (mkWorld (mkChannel (queue c) None (terminated c)) (l ++ option_list (waker_receiver c)), tt).
Proof. destruct c as [q [t|] b]; simpl; [done|by rewrite app_nil_r]. Qed.

Lemma send_poll_spec (c : Channel T) cx d :
  send_poll cx (SendStart d) (mkWorld c []) =
  if terminated c then Ret (mkWorld c [], (SendDone, Ready (Err tt)))
  else Ret (mkWorld (mkChannel (queue c ++ [d]) None (terminated c))
              (option_list (waker_receiver c) ++ [cx]), (SendYield true, Pending)).
Proof. destruct c as [q [t|] []]; done. Qed.

Lemma unbounded_step_inv s e : inv s -> exists s', step s e = Ret s' /\ inv s'.
Proof.
  intros H. pose proof H as [Hf P]. destruct e as [i d|i| | |]; cbn [step];
    try (case_decide; [|by eexists]); try (destruct (receiver s); [|by eexists]).
  - rewrite send_poll_spec. destruct (terminated (channel s)) eqn:Ht; eexists; (split; [done|]).
    + split; simpl; [by rewrite app_nil_r|]. intros [Hb _]%still_spec.
      destruct (P Hb) as (_ & ? & _). congruence.
    + split; simpl; [by rewrite app_assoc, Hf|]. by intros ?%woken_not_parked.
  - unfold drop_sender, mbind, st_bind, on_chan, modify; simpl. rewrite unbounded_wake_receiver_spec; simpl.
    eexists; split; [done|]. split; simpl; [done|].
    rewrite <-(app_nil_r (option_list _)). by intros ?%woken_not_parked.
  - destruct (channel s) as [[|x q] wr []]; eexists; (split; [done|]); split; simpl in *;
      rewrite ?app_nil_r, <-?app_assoc in *; done.
  - destruct (channel s) as [[|x q] wr []]; eexists; (split; [done|]); split; simpl in *;
      rewrite ?app_nil_r, <-?app_assoc in *; try done; intros Hb; by destruct (P Hb).
  - eexists; split; [done|]. split; done.
Qed.

Lemma unbounded_run_inv s es : inv s -> exists s', run s es = Ret s' /\ inv s'.
Proof.
  revert s. induction es as [|e es IH]; intros s H; simpl; [by eexists|].
  destruct (unbounded_step_inv s e H) as (s1 & -> & H1). by apply IH.
Qed.

End proofs.

(** C35: for every history of sends by any number of clones, receives and drops,
    no call panics, what was received followed by what is stored is exactly what
    was accepted, in order, and a parked receiver waits on an empty, open channel
    that holds its waker. *)
Theorem unbounded_loses_nothing {T} (n : nat) (es : list (event T)) :
  exists s,
    run (init n) es = Ret s /\
    received s ++ queue (channel s) = accepted s /\
    (receiver_parked s = true ->
       queue (channel s) = [] /\ terminated (channel s) = false /\
       waker_receiver (channel s) = Some receiver_task).
Proof.
  destruct (unbounded_run_inv (init (T:=T) n) es) as (s & Hr & [H1 H2]); [by split|]. by exists s.
Qed.

(** Dropping one clone of the sender closes the channel for the others: the
    second clone is alive, the receiver too, and its send is refused. *)
Theorem dropped_clone_closes_the_channel :
  exists s : Sys nat,
    run (init 2) [ESend 0 7; EDropSender 0; ESend 1 8] = Ret s /\
    senders s = [1] /\ receiver s = true /\
    terminated (channel s) = true /\ accepted s = [7].
Proof. eexists. split; [vm_compute; reflexivity|done]. Qed.

End Unbounded.
