(* ===== verification/AsyncLock.v ===== *)
(** * The asynchronous lock of [awkernel_async_lib/src/sync/mutex.rs]

    [AsyncLock] keeps a flag and a FIFO of wakers behind a mutex.  The histories
    below let any number of tasks call [lock], poll the future and drop the
    guard.  The theorems: at most one guard is alive, and as long as a task polls
    only when it has been woken, a waiting task implies one that can run. *)

From S2P Require Import Prelude Channel.

Module AsyncLock.

(** [struct AsyncLockInner]. *)
Record AsyncLockInner : Type := mkInner {
  lock_var : bool;
  wakers : list Waker
}.

(** [AsyncLockInner::new]. *)
Definition new_inner : AsyncLockInner := mkInner false [].

(** [AsyncLockFuture::poll]: [Ready] is the guard. *)
Definition poll (cx : Waker) (i : AsyncLockInner) : AsyncLockInner * Poll unit :=
  if negb (lock_var i) then (mkInner true (wakers i), Ready tt)
  else (mkInner (lock_var i) (wakers i ++ [cx]), Pending).

(** [Drop for AsyncLockGuard], with the task it wakes. *)
Definition drop_guard (i : AsyncLockInner) : AsyncLockInner * option Waker :=
  match wakers i with
  | t :: ts => (mkInner false ts, Some t)
  | [] => (mkInner false [], None)
  end.

(** ** Histories *)

(** A task that does not use the lock, has a future to poll, sleeps after
    [Pending], or has the guard. *)
Inductive task : Type := Idle | Runnable | Parked | Holding.
#[export] Instance task_eq_dec : EqDecision task.
Proof. solve_decision. Defined.

Record Sys : Type := mkSys { inner : AsyncLockInner; tasks : list task }.

(** [ELock] calls [lock]; [EPoll] polls the future of a task that can run,
    [ESpurious] that of one that sleeps; [ECancel] drops a future that has not
    returned; [EUnlock] drops the guard. *)
Inductive event : Type :=
| ELock (t : nat)
| EPoll (t : nat)
| ESpurious (t : nat)
| ECancel (t : nat)
| EUnlock (t : nat).

Definition init (n : nat) : Sys := mkSys new_inner (replicate n Idle).

(** A waker makes its task run if it sleeps. *)
Definition wake (o : option nat) (ts : list task) : list task :=
  match o with
  | Some t => if decide (ts !! t = Some Parked) then <[t := Runnable]> ts else ts
  | None => ts
  end.

Definition poll_task (t : nat) (s : Sys) : Sys :=
  let '(i, p) := poll t (inner s) in
  mkSys i (<[t := match p with Ready _ => Holding | Pending => Parked end]> (tasks s)).

(** One event; one whose task is not in the state for it changes nothing. *)
Definition step (s : Sys) (e : event) : Sys :=
  match e with
  | ELock t =>
      if decide (tasks s !! t = Some Idle) then mkSys (inner s) (<[t := Runnable]> (tasks s)) else s
  | EPoll t => if decide (tasks s !! t = Some Runnable) then poll_task t s else s
  | ESpurious t => if decide (tasks s !! t = Some Parked) then poll_task t s else s
  | ECancel t =>
      if decide (tasks s !! t = Some Parked \/ tasks s !! t = Some Runnable)
      then mkSys (inner s) (<[t := Idle]> (tasks s)) else s
  | EUnlock t =>
      if decide (tasks s !! t = Some Holding) then
        let '(i, o) := drop_guard (inner s) in
        mkSys i (wake o (<[t := Idle]> (tasks s)))
      else s
  end.

Definition run (s : Sys) (es : list event) : Sys := foldl step s es.

(** ** Mutual exclusion *)

(** The guard is with one task exactly when the flag is set. *)
Definition exclusive (s : Sys) : Prop :=
  (lock_var (inner s) = true <-> exists t, tasks s !! t = Some Holding) /\
  (forall t u, tasks s !! t = Some Holding -> tasks s !! u = Some Holding -> t = u).

(** Changing a task that neither has nor gets the guard. *)
Lemma set_other (ts : list task) (t u : nat) x :
  ts !! t <> Some Holding -> x <> Holding ->
  <[t := x]> ts !! u = Some Holding <-> ts !! u = Some Holding.
Proof.
  intros H1 H2. destruct (decide (t = u)) as [->|Hn]; [|by rewrite list_lookup_insert_ne].
  destruct (ts !! u) as [y|] eqn:Hy.
  - rewrite list_lookup_insert_eq by (by eapply lookup_lt_Some). naive_solver.
  - rewrite list_insert_ge by (by apply lookup_ge_None). by rewrite Hy.
Qed.

Lemma wake_holding o ts (u : nat) :
  wake o ts !! u = Some Holding <-> ts !! u = Some Holding.
Proof.
  destruct o as [t|]; simpl; [|done]. case_decide as H; [|done].
  apply set_other; [by rewrite H|done].
Qed.

Lemma exclusive_ext i i' ts ts' :
  exclusive (mkSys i ts) -> lock_var i' = lock_var i ->
  (forall u, ts' !! u = Some Holding <-> ts !! u = Some Holding) ->
  exclusive (mkSys i' ts').
Proof. intros [H1 H2] Hl Ht. split; simpl in *; [rewrite Hl|]; setoid_rewrite Ht; done. Qed.

Lemma poll_task_exclusive t s x :
  tasks s !! t = Some x -> x <> Holding -> exclusive s -> exclusive (poll_task t s).
Proof.
  intros Ht Hx H. destruct s as [i ts]; simpl in *. unfold poll_task, poll; simpl.
  destruct (lock_var i) eqn:Hl; simpl.
  - eapply exclusive_ext; [done|done|]. intros u. apply set_other; [congruence|done].
  - destruct H as [H1 H2]; simpl in *.
    assert (Hno : forall u, ts !! u <> Some Holding).
    { intros u Hu. rewrite Hl in H1. destruct H1 as [_ H1]. discriminate H1. by exists u. }
    assert (Hat : forall u, <[t:=Holding]> ts !! u = Some Holding <-> t = u).
    { intros u. destruct (decide (t = u)) as [->|]; [|rewrite list_lookup_insert_ne by done; naive_solver].
      rewrite list_lookup_insert_eq by (by eapply lookup_lt_Some). done. }
    split; simpl; setoid_rewrite Hat; [naive_solver|congruence].
Qed.

Lemma step_exclusive s e : exclusive s -> exclusive (step s e).
Proof.
  intros H. destruct e as [t|t|t|t|t]; simpl; case_decide as Ht; try done.
  - destruct s; simpl in *. eapply exclusive_ext; [done|done|].
    intros u. apply set_other; [congruence|done].
  - by eapply poll_task_exclusive.
  - by eapply poll_task_exclusive.
  - destruct s; simpl in *. eapply exclusive_ext; [done|done|].
    intros u. apply set_other; [naive_solver congruence|done].
  - assert (Hno : forall u, <[t:=Idle]> (tasks s) !! u <> Some Holding).
    { intros u Hu. destruct (decide (t = u)) as [->|Hn].
      - rewrite list_lookup_insert_eq in Hu by (by eapply lookup_lt_Some). done.
      - rewrite list_lookup_insert_ne in Hu by done. by eapply Hn, H. }
    assert (Hex : forall i o, lock_var i = false ->
      exclusive (mkSys i (wake o (<[t:=Idle]> (tasks s))))).
    { intros i o Hi. split; cbn [inner tasks].
      - split; [by rewrite Hi|]. intros [u Hu%wake_holding]. by apply Hno in Hu.
      - intros u v Hu%wake_holding. by apply Hno in Hu. }
    unfold drop_guard. destruct (wakers (inner s)); by apply Hex.
Qed.

(** ** No wake-up is lost *)

(** The histories in which a task polls only when it has been woken and no
    future is dropped before it returns. *)
Definition orderly (e : event) : bool :=
  match e with ESpurious _ | ECancel _ => false | _ => true end.

(** The wakers are those of the sleeping tasks, each once, and if the lock is
    free while one sleeps another can run. *)
Record live (s : Sys) : Prop := mkLive {
  live_nodup : NoDup (wakers (inner s));
  live_parked : forall t : nat, t ∈ wakers (inner s) <-> tasks s !! t = Some Parked;
  live_next : lock_var (inner s) = false -> wakers (inner s) <> [] ->
    exists t, tasks s !! t = Some Runnable
}.

(** The sleeping tasks after a task got a state that is not [Parked], and after
    one went to sleep. *)
Lemma parked_set (ts : list task) (t u : nat) y :
  ts !! t <> Some Parked -> y <> Parked ->
  <[t := y]> ts !! u = Some Parked <-> ts !! u = Some Parked.
Proof.
  intros Ht Hy. destruct (decide (t = u)) as [->|Hn]; [|by rewrite list_lookup_insert_ne].
  destruct (ts !! u) as [x|] eqn:Hx.
  - rewrite list_lookup_insert_eq by (by eapply lookup_lt_Some). naive_solver.
  - rewrite list_insert_ge by (by apply lookup_ge_None). by rewrite Hx.
Qed.

Lemma step_live_lock s t : live s -> live (step s (ELock t)).
Proof.
  intros H. destruct s as [i ts]; simpl. case_decide as Ht; [|done]. simpl in Ht.
  destruct H as [Hn Hp Hl]; split; simpl in *; [done| |].
  - intros u. rewrite Hp. symmetry. apply parked_set; [congruence|done].
  - intros Hv Hw. exists t. apply list_lookup_insert_eq. by eapply lookup_lt_Some.
Qed.

Lemma step_live_poll s t : live s -> live (step s (EPoll t)).
Proof.
  intros H. destruct s as [i ts]; simpl. case_decide as Ht; [|done]. simpl in Ht.
  destruct H as [Hn Hp Hl]. unfold poll_task, poll; simpl in *.
  destruct (lock_var i) eqn:Hv; simpl; split; simpl; try done.
  - apply NoDup_app. split_and!; [done| |apply NoDup_singleton].
    intros u Hu%Hp ->%list_elem_of_singleton. congruence.
  - intros u. rewrite elem_of_app, list_elem_of_singleton, Hp.
    destruct (decide (t = u)) as [->|Hne].
    + rewrite list_lookup_insert_eq by (by eapply lookup_lt_Some). naive_solver.
    + rewrite list_lookup_insert_ne by done. naive_solver.
  - intros u. rewrite Hp. symmetry. apply parked_set; [congruence|done].
Qed.

Lemma step_live_unlock s t : live s -> live (step s (EUnlock t)).
Proof.
  intros H. destruct s as [i ts]; simpl. case_decide as Ht; [|done]. simpl in Ht.
  destruct H as [Hn Hp Hl]. unfold drop_guard; simpl in *.
  assert (Hp' : forall u : nat, <[t:=Idle]> ts !! u = Some Parked <-> u ∈ wakers i).
  { intros u. rewrite Hp. apply parked_set; [congruence|done]. }
  destruct (wakers i) as [|w ws]; simpl.
  { split; simpl; [constructor| |done]. intros u. by rewrite Hp'. }
  apply NoDup_cons in Hn as [Hw Hn].
  assert (Hwp : <[t:=Idle]> ts !! w = Some Parked) by (apply Hp'; left).
  rewrite decide_True by done. pose proof (lookup_lt_Some _ _ _ Hwp) as Hlt.
  split; simpl; [done| |].
  - intros u. destruct (decide (w = u)) as [<-|Hne].
    + rewrite list_lookup_insert_eq by done. naive_solver.
    + rewrite list_lookup_insert_ne, Hp', elem_of_cons by done. naive_solver.
  - intros _ _. exists w. by apply list_lookup_insert_eq.
Qed.

Lemma init_exclusive n : exclusive (init n).
Proof.
  split; simpl; [split; [done|]; intros [t Ht]|intros t u Ht];
    by apply lookup_replicate in Ht as [? _].
Qed.

Lemma init_live n : live (init n).
Proof.
  split; simpl; [constructor| |done]. intros t. split; [by intros ?%not_elem_of_nil|].
  intros Ht. by apply lookup_replicate in Ht as [? _].
Qed.

Lemma lock_run_exclusive es s : exclusive s -> exclusive (run s es).
Proof. revert s. induction es; intros s H; simpl; [done|]. by apply IHes, step_exclusive. Qed.

Lemma lock_run_live es s : forallb orderly es = true -> live s -> live (run s es).
Proof.
  revert s. induction es as [|e es IH]; intros s; simpl; [done|].
  intros [He Hes]%andb_prop H. apply IH; [done|].
  destruct e; try done; [by apply step_live_lock|by apply step_live_poll|by apply step_live_unlock].
Qed.

(** C33: for every number of tasks and every history of calls, polls (spurious ones
    too), cancellations and drops of guards, at most one task has the guard, and
    the flag is set exactly while one has it. *)
Theorem async_lock_excludes (n : nat) (es : list event) :
  let s := run (init n) es in
  (lock_var (inner s) = true <-> exists t, tasks s !! t = Some Holding) /\
  (forall t u, tasks s !! t = Some Holding -> tasks s !! u = Some Holding -> t = u).
Proof. apply lock_run_exclusive, init_exclusive. Qed.

(** C34: when tasks poll only after a wake-up and futures are not dropped early, a
    sleeping task implies a task that has the guard or can run, and the wakers
    are exactly the sleeping tasks, each once: the lock is never free with
    everybody asleep. *)
Theorem async_lock_loses_no_wakeup (n : nat) (es : list event) :
  forallb orderly es = true ->
  let s := run (init n) es in
  NoDup (wakers (inner s)) /\
  (forall t : nat, t ∈ wakers (inner s) <-> tasks s !! t = Some Parked) /\
  ((exists t, tasks s !! t = Some Parked) ->
     exists t, tasks s !! t = Some Holding \/ tasks s !! t = Some Runnable).
Proof.
  intros He s. destruct (lock_run_live es (init n) He (init_live n)) as [Hn Hp Hl].
  destruct (lock_run_exclusive es _ (init_exclusive n)) as [Hx _].
  split; [done|]. split; [done|]. intros [t Ht%Hp].
  destruct (lock_var (inner s)) eqn:Hv.
  - destruct (proj1 Hx Hv) as [u Hu]. exists u. by left.
  - destruct Hl as [u Hu]; [done| |exists u; by right]. intros Hw.
    rewrite Hw in Ht. by apply not_elem_of_nil in Ht.
Qed.

Lemma async_lock_loses_no_wakeup_witness :
  let es := [ELock 0; EPoll 0; ELock 1; EPoll 1; EUnlock 0] in
  let s := run (init 2) es in
  forallb orderly es = true /\
  (NoDup (wakers (inner s)) /\
  (forall t : nat, t ∈ wakers (inner s) <-> tasks s !! t = Some Parked) /\
  ((exists t, tasks s !! t = Some Parked) ->
     exists t, tasks s !! t = Some Holding \/ tasks s !! t = Some Runnable)).
Proof.
  split; [done|].
  apply (async_lock_loses_no_wakeup 2 [ELock 0; EPoll 0; ELock 1; EPoll 1; EUnlock 0]). done.
Defined.

(** A poll of a task that sleeps queues its waker a second time; the unlock
    that pops it later wakes a task that does not wait any more, and the one that
    does sleeps on with the lock free and nobody to wake it. *)
Theorem spurious_poll_loses_a_wakeup :
  let s := run (init 3)
    [ELock 0; EPoll 0; ELock 1; EPoll 1; ESpurious 1; ELock 2; EPoll 2;
     EUnlock 0; EPoll 1; EUnlock 1] in
  lock_var (inner s) = false /\ tasks s = [Idle; Idle; Parked].
Proof. by vm_compute. Qed.

(** The same after a future that waited has been dropped. *)
Theorem cancelled_lock_loses_a_wakeup :
  let s := run (init 3)
    [ELock 0; EPoll 0; ELock 1; EPoll 1; ELock 2; EPoll 2; ECancel 1; EUnlock 0] in
  lock_var (inner s) = false /\ tasks s = [Idle; Idle; Parked].
Proof. by vm_compute. Qed.

End AsyncLock.
