(* ===== verification/Ports.v ===== *)
(** * The local ports of [awkernel_lib/src/net/port_bitmap.rs] and [port_alloc.rs]

    [Module Ports] has the bitmap of the 65536 ports, the sets of UDP and TCP
    ports over it (TCP ports are counted, the counts from two on in a map), the
    allocator with one set for each protocol and family, and the handles whose
    drop gives a port back.  The lemmas give what each call does to the count
    of the owners of every port. *)

From S2P Require Import Prelude.

Local Open Scope Z_scope.

Module Ports.

(** [EPHEMERAL_MIN], [NWORDS] and [FIRST_WORD]. *)
Definition EPHEMERAL_MIN : Z := Z.shiftr 65535 2 + 1.
Definition NWORDS : Z := (65535 + 1) / 64.
Definition FIRST_WORD : Z := EPHEMERAL_MIN / 64.

(** [struct PortBitmap]. *)
Record PortBitmap : Type := mkBitmap { bits : list Z }.

Definition bitmap_new : PortBitmap := mkBitmap (replicate (Z.to_nat NWORDS) 0).

(** [PortBitmap::word_bit]. *)
Definition word_bit (port : Z) : nat * Z :=
  (Z.to_nat (Z.shiftr port 6), Z.shiftl 1 (Z.land port 63)).

(** [PortBitmap::set]. *)
Definition bitmap_set (b : PortBitmap) (port : Z) : outcome (PortBitmap * bool) :=
  let '(w, mask) := word_bit port in
  word ← index (bits b) w;
  let was_set := negb (Z.land word mask =? 0) in
  bits' ← index_set (bits b) w (Z.lor word mask);
  Ret (mkBitmap bits', negb was_set).

(** [PortBitmap::clear]. *)
Definition bitmap_clear (b : PortBitmap) (port : Z) : outcome (PortBitmap * bool) :=
  let '(w, mask) := word_bit port in
  word ← index (bits b) w;
  let was_set := negb (Z.land word mask =? 0) in
  bits' ← index_set (bits b) w (Z.land word (bnot 64 mask));
  Ret (mkBitmap bits', was_set).

(** [u64::trailing_ones], on the low [n] bits. *)
Fixpoint trailing_ones (n : nat) (word : Z) : Z :=
  match n with
  | O => 0
  | S n' => if Z.odd word then 1 + trailing_ones n' (Z.shiftr word 1) else 0
  end.

(** The [for i in 0..eph_words] of [find_free_from], with [n] rounds left. *)
Fixpoint find_free_loop (b : PortBitmap) (start : Z) (n : nat) (i : Z) : outcome (option Z) :=
  match n with
  | O => Ret None
  | S n' =>
      let w := FIRST_WORD + (start + i) mod (NWORDS - FIRST_WORD) in
      word ← index (bits b) (Z.to_nat w);
      if negb (word =? 2 ^ 64 - 1)
      then Ret (Some (Z.lor (wrap 16 (Z.shiftl (wrap 16 w) 6)) (trailing_ones 64 word)))
      else find_free_loop b start n' (i + 1)
  end.

(** [PortBitmap::find_free_from]. *)
Definition find_free_from (b : PortBitmap) (cursor : Z) : outcome (option Z) :=
  let start := Z.max FIRST_WORD (Z.min (NWORDS - 1) (cursor / 64)) - FIRST_WORD in
  find_free_loop b start (Z.to_nat (NWORDS - FIRST_WORD)) 0.

(** [struct UdpPortSet] with its methods. *)
Record UdpPortSet : Type := mkUdp { udp_bitmap : PortBitmap; udp_cursor : Z }.

Definition udp_new : UdpPortSet := mkUdp bitmap_new EPHEMERAL_MIN.

Definition udp_alloc_ephemeral (s : UdpPortSet) : outcome (UdpPortSet * option Z) :=
  o ← find_free_from (udp_bitmap s) (udp_cursor s);
  match o with
  | None => Ret (s, None)
  | Some port =>
      '(b, _) ← bitmap_set (udp_bitmap s) port;
      Ret (mkUdp b port, Some port)
  end.
Definition udp_try_claim (s : UdpPortSet) (port : Z) : outcome (UdpPortSet * bool) :=
  '(b, r) ← bitmap_set (udp_bitmap s) port; Ret (mkUdp b (udp_cursor s), r).
Definition udp_free (s : UdpPortSet) (port : Z) : outcome UdpPortSet :=
  '(b, _) ← bitmap_clear (udp_bitmap s) port; Ret (mkUdp b (udp_cursor s)).

(** [struct TcpPortSet] with its methods. *)
Record TcpPortSet : Type := mkTcp {
  tcp_bitmap : PortBitmap;
  overflow : gmap Z Z;
  tcp_cursor : Z
}.

Definition tcp_new : TcpPortSet := mkTcp bitmap_new ∅ EPHEMERAL_MIN.

Definition tcp_alloc_ephemeral (s : TcpPortSet) : outcome (TcpPortSet * option Z) :=
  o ← find_free_from (tcp_bitmap s) (tcp_cursor s);
  match o with
  | None => Ret (s, None)
  | Some port =>
      '(b, _) ← bitmap_set (tcp_bitmap s) port;
      Ret (mkTcp b (overflow s) port, Some port)
  end.
Definition tcp_try_claim (s : TcpPortSet) (port : Z) : outcome (TcpPortSet * bool) :=
  '(b, r) ← bitmap_set (tcp_bitmap s) port; Ret (mkTcp b (overflow s) (tcp_cursor s), r).

(** [TcpPortSet::increment]. *)
Definition increment (s : TcpPortSet) (port : Z) : outcome TcpPortSet :=
  '(b, was_free) ← bitmap_set (tcp_bitmap s) port;
  Ret (mkTcp b
    (if (was_free : bool) then overflow s
     else match overflow s !! port with
          | Some count => <[port := wrap 64 (count + 1)]> (overflow s)
          | None => <[port := 2]> (overflow s)
          end) (tcp_cursor s)).

(** [TcpPortSet::decrement]. *)
Definition decrement (s : TcpPortSet) (port : Z) : outcome TcpPortSet :=
  match overflow s !! port with
  | Some count =>
      let count' := wrap 64 (count - 1) in
      Ret (mkTcp (tcp_bitmap s)
        (if count' =? 1 then delete port (overflow s) else <[port := count']> (overflow s))
        (tcp_cursor s))
  | None =>
      '(b, _) ← bitmap_clear (tcp_bitmap s) port;
      Ret (mkTcp b (overflow s) (tcp_cursor s))
  end.

(** [struct PortAllocator]; the static [PORT_ALLOC] is the state of the calls. *)
Record PortAllocator : Type := mkAlloc {
  tcp_ipv4 : TcpPortSet;
  tcp_ipv6 : TcpPortSet;
  udp_ipv4 : UdpPortSet;
  udp_ipv6 : UdpPortSet
}.

Definition alloc_new : PortAllocator := mkAlloc tcp_new tcp_new udp_new udp_new.

(** [struct TcpPort] and [struct UdpPort], the handles. *)
Record TcpPort : Type := mkTcpPort { tport : Z; t_is_ipv4 : bool }.
Record UdpPort : Type := mkUdpPort { uport : Z; u_is_ipv4 : bool }.

(** One critical section on a set of the allocator. *)
Definition on_tcp4 {A} (f : TcpPortSet -> outcome (TcpPortSet * A)) : st PortAllocator A := fun a =>
  '(s, r) ← f (tcp_ipv4 a); Ret (mkAlloc s (tcp_ipv6 a) (udp_ipv4 a) (udp_ipv6 a), r).
Definition on_tcp6 {A} (f : TcpPortSet -> outcome (TcpPortSet * A)) : st PortAllocator A := fun a =>
  '(s, r) ← f (tcp_ipv6 a); Ret (mkAlloc (tcp_ipv4 a) s (udp_ipv4 a) (udp_ipv6 a), r).
Definition on_udp4 {A} (f : UdpPortSet -> outcome (UdpPortSet * A)) : st PortAllocator A := fun a =>
  '(s, r) ← f (udp_ipv4 a); Ret (mkAlloc (tcp_ipv4 a) (tcp_ipv6 a) s (udp_ipv6 a), r).
Definition on_udp6 {A} (f : UdpPortSet -> outcome (UdpPortSet * A)) : st PortAllocator A := fun a =>
  '(s, r) ← f (udp_ipv6 a); Ret (mkAlloc (tcp_ipv4 a) (tcp_ipv6 a) (udp_ipv4 a) s, r).

(** A method without a result. *)
Definition no_result {S} (m : outcome S) : outcome (S * unit) := s ← m; Ret (s, tt).

(** The methods of [PortAllocator]. *)
Definition get_ephemeral_tcp_ipv4 : st PortAllocator (option TcpPort) :=
  o ← on_tcp4 tcp_alloc_ephemeral; mret ((fun port => mkTcpPort port true) <$> o).
Definition try_claim_tcp_ipv4 (port : Z) : st PortAllocator (option TcpPort) :=
  r ← on_tcp4 (fun s => tcp_try_claim s port);
  mret (if (r : bool) then Some (mkTcpPort port true) else None).
Definition increment_ref_tcp_ipv4 (port : Z) : st PortAllocator TcpPort :=
  on_tcp4 (fun s => no_result (increment s port));; mret (mkTcpPort port true).
Definition decrement_ref_tcp_ipv4 (port : Z) : st PortAllocator unit :=
  on_tcp4 (fun s => no_result (decrement s port)).
Definition get_ephemeral_tcp_ipv6 : st PortAllocator (option TcpPort) :=
  o ← on_tcp6 tcp_alloc_ephemeral; mret ((fun port => mkTcpPort port false) <$> o).
Definition try_claim_tcp_ipv6 (port : Z) : st PortAllocator (option TcpPort) :=
  r ← on_tcp6 (fun s => tcp_try_claim s port);
  mret (if (r : bool) then Some (mkTcpPort port false) else None).
Definition increment_ref_tcp_ipv6 (port : Z) : st PortAllocator TcpPort :=
  on_tcp6 (fun s => no_result (increment s port));; mret (mkTcpPort port false).
Definition decrement_ref_tcp_ipv6 (port : Z) : st PortAllocator unit :=
  on_tcp6 (fun s => no_result (decrement s port)).
Definition get_ephemeral_udp_ipv4 : st PortAllocator (option UdpPort) :=
  o ← on_udp4 udp_alloc_ephemeral; mret ((fun port => mkUdpPort port true) <$> o).
Definition try_claim_udp_ipv4 (port : Z) : st PortAllocator (option UdpPort) :=
  r ← on_udp4 (fun s => udp_try_claim s port);
  mret (if (r : bool) then Some (mkUdpPort port true) else None).
Definition free_udp_ipv4 (port : Z) : st PortAllocator unit :=
  on_udp4 (fun s => no_result (udp_free s port)).
Definition get_ephemeral_udp_ipv6 : st PortAllocator (option UdpPort) :=
  o ← on_udp6 udp_alloc_ephemeral; mret ((fun port => mkUdpPort port false) <$> o).
Definition try_claim_udp_ipv6 (port : Z) : st PortAllocator (option UdpPort) :=
  r ← on_udp6 (fun s => udp_try_claim s port);
  mret (if (r : bool) then Some (mkUdpPort port false) else None).
Definition free_udp_ipv6 (port : Z) : st PortAllocator unit :=
  on_udp6 (fun s => no_result (udp_free s port)).

(** [Drop for TcpPort] and [Drop for UdpPort]. *)
Definition drop_tcp_port (h : TcpPort) : st PortAllocator unit :=
  if t_is_ipv4 h then decrement_ref_tcp_ipv4 (tport h) else decrement_ref_tcp_ipv6 (tport h).
Definition drop_udp_port (h : UdpPort) : st PortAllocator unit :=
  if u_is_ipv4 h then free_udp_ipv4 (uport h) else free_udp_ipv6 (uport h).

(** The increment [TcpListener::accept] makes for the stream it returns. *)
Definition accept_port (v4 : bool) (port : Z) : st PortAllocator TcpPort :=
  if v4 then increment_ref_tcp_ipv4 port else increment_ref_tcp_ipv6 port.

(** ** The bitmap is the set of the ports in use *)

Definition is_port (p : Z) : Prop := 0 <= p < 65536.

Definition used (b : PortBitmap) (p : Z) : bool :=
  Z.testbit (default 0 (bits b !! Z.to_nat (p / 64))) (p mod 64).

(** 1024 words of 64 bits. *)
Record bitmap_wf (b : PortBitmap) : Prop := mkWf {
  wf_length : length (bits b) = Z.to_nat NWORDS;
  wf_words : Forall (is_uint 64) (bits b)
}.

Lemma word_bit_eq p : is_port p -> word_bit p = (Z.to_nat (p / 64), Z.shiftl 1 (p mod 64)).
Proof.
  intros H. unfold word_bit. rewrite Z.shiftr_div_pow2 by lia.
  change 63 with (2 ^ 6 - 1). by rewrite land_mask_mod by lia.
Qed.

Lemma land_bit_zero x k : 0 <= k -> negb (Z.land x (Z.shiftl 1 k) =? 0) = Z.testbit x k.
Proof.
  intros Hk. destruct (Z.testbit x k) eqn:Hx.
  - apply negb_true_iff, Z.eqb_neq. intros H.
    assert (Ht : Z.testbit (Z.land x (Z.shiftl 1 k)) k = true).
    { rewrite Z.land_spec, Hx, testbit_bit by done. by apply bool_decide_eq_true. }
    by rewrite H, Z.testbit_0_l in Ht.
  - apply negb_false_iff, Z.eqb_eq. apply Z.bits_inj'. intros n Hn.
    rewrite Z.land_spec, testbit_bit, Z.testbit_0_l by done.
    case_bool_decide; [subst; by rewrite Hx|apply andb_false_r].
Qed.

Lemma wf_word b p :
  bitmap_wf b -> is_port p ->
  exists word, bits b !! Z.to_nat (p / 64) = Some word /\ is_uint 64 word.
Proof.
  intros [Hl Hw] Hp. unfold is_port in Hp.
  assert (Hi : (Z.to_nat (p / 64) < length (bits b))%nat).
  { rewrite Hl. change (Z.to_nat NWORDS) with 1024%nat. dlia. }
  apply lookup_lt_is_Some in Hi as [word Hi]. exists word. split; [done|].
  by eapply Forall_lookup_1.
Qed.

(** Changing one bit of the map: the new word [f word] differs from the old one in
    the bit of [p], which becomes [v]. *)
Lemma word_set_spec b p word word' v :
  bitmap_wf b -> is_port p -> bits b !! Z.to_nat (p / 64) = Some word -> is_uint 64 word' ->
  (forall i, 0 <= i < 64 ->
     Z.testbit word' i = if bool_decide (i = p mod 64) then v else Z.testbit word i) ->
  bitmap_wf (mkBitmap (<[Z.to_nat (p / 64) := word']> (bits b))) /\
  (forall q, is_port q -> used (mkBitmap (<[Z.to_nat (p / 64) := word']> (bits b))) q =
     if bool_decide (q = p) then v else used b q).
Proof.
  intros [Hl Hw] Hp Hword Hu Ht. pose proof (lookup_lt_Some _ _ _ Hword) as Hlt. split.
  - split; simpl; [by rewrite length_insert|by apply Forall_insert].
  - unfold is_port in *. intros q Hq. unfold used; simpl.
    destruct (decide (q / 64 = p / 64)) as [He|Hne].
    + rewrite He, list_lookup_insert_eq, Hword by done. simpl. rewrite Ht by dlia.
      do 2 case_bool_decide; try done; dlia.
    + rewrite list_lookup_insert_ne by dlia. rewrite bool_decide_false by congruence. done.
Qed.

Lemma bitmap_set_spec b p :
  bitmap_wf b -> is_port p ->
  exists b', bitmap_set b p = Ret (b', negb (used b p)) /\ bitmap_wf b' /\
    (forall q, is_port q -> used b' q = bool_decide (q = p) || used b q).
Proof.
  intros H Hp. destruct (wf_word b p H Hp) as (word & Hw & Hu).
  pose proof (lookup_lt_Some _ _ _ Hw) as Hlt.
  unfold bitmap_set. rewrite word_bit_eq, (index_Some _ _ _ Hw) by done. simpl.
  rewrite index_set_lt, land_bit_zero by (done || dlia). simpl.
  eexists. split; [unfold used; by rewrite Hw|].
  destruct (word_set_spec b p word (Z.lor word (Z.shiftl 1 (p mod 64))) true) as [H1 H2]; try done.
  - apply is_uint_testbit; [lia|apply Z.lor_nonneg; split; [apply Hu|]; apply Z.shiftl_nonneg; lia|].
    intros i Hi. rewrite Z.lor_spec, (testbit_above 64 _ i Hu), testbit_bit by dlia.
    apply bool_decide_eq_false. dlia.
  - intros i Hi. rewrite Z.lor_spec, testbit_bit by dlia.
    case_bool_decide; [apply orb_true_r|apply orb_false_r].
Qed.

Lemma bitmap_clear_spec b p :
  bitmap_wf b -> is_port p ->
  exists b', bitmap_clear b p = Ret (b', used b p) /\ bitmap_wf b' /\
    (forall q, is_port q -> used b' q = negb (bool_decide (q = p)) && used b q).
Proof.
  intros H Hp. destruct (wf_word b p H Hp) as (word & Hw & Hu).
  pose proof (lookup_lt_Some _ _ _ Hw) as Hlt.
  unfold bitmap_clear. rewrite word_bit_eq, (index_Some _ _ _ Hw) by done. simpl.
  rewrite index_set_lt, land_bit_zero by (done || dlia). simpl.
  eexists. split; [unfold used; by rewrite Hw|].
  destruct (word_set_spec b p word
    (Z.land word (bnot 64 (Z.shiftl 1 (p mod 64)))) false) as [H1 H2]; try done.
  - apply is_uint_testbit; [lia|apply Z.land_nonneg; left; apply Hu|].
    intros i Hi. by rewrite Z.land_spec, (testbit_above 64 _ i Hu) by lia.
  - intros i Hi. rewrite Z.land_spec, testbit_bnot, testbit_bit by dlia.
    case_bool_decide; [apply andb_false_r|apply andb_true_r].
  - split; [done|]. intros q Hq. rewrite H2 by done. by case_bool_decide.
Qed.

Lemma used_new p : used bitmap_new p = false.
Proof.
  unfold used. destruct (bits bitmap_new !! _) as [x|] eqn:Hx; [|apply Z.testbit_0_l].
  change (bits bitmap_new) with (replicate (Z.to_nat NWORDS) 0) in Hx.
  apply lookup_replicate in Hx as [-> _]. apply Z.testbit_0_l.
Qed.

Lemma bitmap_new_wf : bitmap_wf bitmap_new.
Proof.
  split; [apply length_replicate|]. apply Forall_replicate. by split.
Qed.

(** [trailing_ones] is the lowest clear bit of a word that has one. *)
Lemma trailing_ones_spec n word :
  0 <= word -> word <> Z.ones (Z.of_nat n) -> is_uint (Z.of_nat n) word ->
  0 <= trailing_ones n word < Z.of_nat n /\ Z.testbit word (trailing_ones n word) = false.
Proof.
  revert word. induction n as [|n IH]; intros word H0 Hne Hu.
  { destruct Hu as [_ Hu]. change (2 ^ Z.of_nat 0) with 1 in Hu.
    change (Z.ones (Z.of_nat 0)) with 0 in Hne. lia. }
  cbn [trailing_ones]. destruct (Z.odd word) eqn:Ho.
  - assert (Hs : Z.shiftr word 1 = word / 2) by (by rewrite Z.shiftr_div_pow2).
    assert (Hp : 2 ^ Z.of_nat (S n) = 2 * 2 ^ Z.of_nat n).
    { rewrite Nat2Z.inj_succ, Z.pow_succ_r by lia. done. }
    rewrite Zodd_mod in Ho. apply Z.eqb_eq in Ho. destruct Hu as [Hu1 Hu2].
    destruct (IH (Z.shiftr word 1)) as [H1 H2].
    + rewrite Hs. dlia.
    + rewrite Hs, Z.ones_equiv in *. intros He. apply Hne. rewrite Hp. dlia.
    + rewrite Hs. split; dlia.
    + split; [lia|]. by rewrite Z.shiftr_spec, Z.add_comm in H2 by lia.
  - split; [lia|]. by rewrite Z.bit0_odd.
Qed.

Lemma find_free_loop_spec b start n i :
  bitmap_wf b -> 0 <= start < NWORDS - FIRST_WORD -> 0 <= i ->
  exists o, find_free_loop b start n i = Ret o /\
    match o with
    | Some p => EPHEMERAL_MIN <= p < 65536 /\ used b p = false
    | None => forall j, i <= j < i + Z.of_nat n ->
        bits b !! Z.to_nat (FIRST_WORD + (start + j) mod (NWORDS - FIRST_WORD)) = Some (2 ^ 64 - 1)
    end.
Proof.
  intros H Hs. revert i. induction n as [|n IH]; intros i Hi; cbn [find_free_loop].
  { eexists. split; [done|]. simpl. lia. }
  set (w := FIRST_WORD + (start + i) mod (NWORDS - FIRST_WORD)).
  assert (Hw : 256 <= w < 1024).
  { subst w. change FIRST_WORD with 256 in *. change NWORDS with 1024 in *. dlia. }
  destruct (wf_word b (64 * w) H) as (word & Hl & Hu); [unfold is_port; lia|].
  rewrite (Z.mul_comm 64), Z.div_mul in Hl by lia. rewrite (index_Some _ _ _ Hl). rbind.
  destruct (word =? 2 ^ 64 - 1) eqn:Hf; b2p; cbn [negb].
  - destruct (IH (i + 1) ltac:(lia)) as (o & -> & Ho). exists o. split; [done|].
    destruct o; [done|]. intros j Hj. destruct (decide (j = i)) as [->|]; [by rewrite Hf in Hl|].
    apply Ho. lia.
  - destruct (trailing_ones_spec 64 word) as [Ht1 Ht2]; [apply Hu|done|done|].
    change (Z.of_nat 64) with 64 in Ht1. set (t := trailing_ones 64 word) in *.
    rewrite (wrap_id 16 w), Z.shiftl_mul_pow2, wrap_id by (lia || (split; lia)).
    rewrite (lor_mul_add w t 6) by (lia || (split; lia)).
    eexists. split; [done|]. change (2 ^ 6) with 64. change EPHEMERAL_MIN with 16384.
    split; [lia|]. unfold used. replace ((w * 64 + t) / 64) with w by dlia.
    replace ((w * 64 + t) mod 64) with t by dlia. by rewrite Hl.
Qed.

(** A port found is free and ephemeral; none is found only when all are used. *)
Lemma find_free_from_spec b cursor :
  bitmap_wf b ->
  exists o, find_free_from b cursor = Ret o /\
    match o with
    | Some p => EPHEMERAL_MIN <= p < 65536 /\ used b p = false
    | None => forall p, EPHEMERAL_MIN <= p < 65536 -> used b p = true
    end.
Proof.
  intros H. unfold find_free_from.
  set (start := Z.max FIRST_WORD (Z.min (NWORDS - 1) (cursor / 64)) - FIRST_WORD).
  assert (Hs : 0 <= start < NWORDS - FIRST_WORD).
  { subst start. change FIRST_WORD with 256. change NWORDS with 1024. lia. }
  destruct (find_free_loop_spec b start (Z.to_nat (NWORDS - FIRST_WORD)) 0 H Hs)
    as (o & -> & Ho); [lia|].
  exists o. split; [done|]. destruct o as [p|]; [done|]. intros p Hp.
  change FIRST_WORD with 256 in *. change NWORDS with 1024 in *.
  change EPHEMERAL_MIN with 16384 in *. change (1024 - 256) with 768 in *.
  specialize (Ho ((p / 64 - 256 - start) mod 768) ltac:(dlia)). unfold used.
  replace (256 + (start + (p / 64 - 256 - start) mod 768) mod 768) with (p / 64) in Ho by dlia.
  rewrite Ho. simpl. change (2 ^ 64 - 1) with (Z.ones 64). rewrite Z.ones_spec_low by dlia. done.
Qed.

(** ** The sets count the owners of a port *)

Definition tcp_count (s : TcpPortSet) (p : Z) : Z :=
  if used (tcp_bitmap s) p then default 1 (overflow s !! p) else 0.
Definition udp_count (s : UdpPortSet) (p : Z) : Z := Z.b2z (used (udp_bitmap s) p).

(** The counts in the map are those from two on, of ports in use. *)
Record tcp_wf (s : TcpPortSet) : Prop := mkTcpWf {
  tcp_bitmap_wf : bitmap_wf (tcp_bitmap s);
  tcp_overflow_wf : forall p c, overflow s !! p = Some c ->
    is_port p /\ used (tcp_bitmap s) p = true /\ 2 <= c < 2 ^ 64
}.

(** [g] is [f] with the value [v] at [p]. *)
Definition updated (f : Z -> Z) (p v : Z) (g : Z -> Z) : Prop :=
  forall q, is_port q -> g q = if bool_decide (q = p) then v else f q.

Lemma tcp_count_pos s p : tcp_wf s -> used (tcp_bitmap s) p = true -> 0 < tcp_count s p.
Proof.
  intros H Hu. unfold tcp_count. rewrite Hu.
  destruct (overflow s !! p) eqn:Ho; simpl; [|lia]. apply H in Ho. lia.
Qed.

Lemma tcp_free_overflow s p : tcp_wf s -> used (tcp_bitmap s) p = false -> overflow s !! p = None.
Proof.
  intros H Hu. destruct (overflow s !! p) eqn:Ho; [|done]. apply H in Ho as (_ & ? & _). congruence.
Qed.

(** Taking a free port, in the bitmap alone. *)
Lemma tcp_take s p c :
  tcp_wf s -> is_port p -> used (tcp_bitmap s) p = false ->
  exists b, bitmap_set (tcp_bitmap s) p = Ret (b, true) /\
    tcp_wf (mkTcp b (overflow s) c) /\
    updated (tcp_count s) p 1 (tcp_count (mkTcp b (overflow s) c)).
Proof.
  intros H Hp Hf. destruct (bitmap_set_spec _ p (tcp_bitmap_wf s H) Hp) as (b & -> & Hb & Hu).
  rewrite Hf. exists b. split; [done|]. split.
  - split; [done|]. simpl. intros q n Hq. apply H in Hq as (Hq & Hq' & ?).
    by rewrite Hu, Hq', orb_true_r.
  - intros q Hq. unfold tcp_count; simpl. rewrite Hu by done. case_bool_decide; [|done].
    subst q. simpl. by rewrite (tcp_free_overflow s p H Hf).
Qed.

Lemma tcp_alloc_spec s :
  tcp_wf s ->
  exists s' o, tcp_alloc_ephemeral s = Ret (s', o) /\ tcp_wf s' /\
    match o with
    | Some p => EPHEMERAL_MIN <= p < 65536 /\ tcp_count s p = 0 /\
        updated (tcp_count s) p 1 (tcp_count s')
    | None => s' = s /\ forall p, EPHEMERAL_MIN <= p < 65536 -> 0 < tcp_count s p
    end.
Proof.
  intros H. unfold tcp_alloc_ephemeral.
  destruct (find_free_from_spec _ (tcp_cursor s) (tcp_bitmap_wf s H)) as (o & -> & Ho). rbind.
  destruct o as [p|].
  - destruct Ho as [Hp Hf]. assert (is_port p).
    { unfold is_port. change EPHEMERAL_MIN with 16384 in Hp. lia. }
    destruct (tcp_take s p p) as (b & -> & Hw & Hu); try done.
    eexists _, (Some p). split; [done|]. split; [done|]. split; [done|]. split; [|done].
    unfold tcp_count. by rewrite Hf.
  - exists s, None. split; [done|]. split; [done|]. split; [done|].
    intros p Hp. by apply tcp_count_pos, Ho.
Qed.

Lemma tcp_try_claim_spec s p :
  tcp_wf s -> is_port p ->
  exists s' r, tcp_try_claim s p = Ret (s', r) /\ tcp_wf s' /\ r = (tcp_count s p =? 0) /\
    updated (tcp_count s) p (if r then 1 else tcp_count s p) (tcp_count s').
Proof.
  intros H Hp. unfold tcp_try_claim. destruct (used (tcp_bitmap s) p) eqn:Hf.
  - pose proof (tcp_count_pos s p H Hf).
    destruct (bitmap_set_spec _ p (tcp_bitmap_wf s H) Hp) as (b & -> & Hb & Hu). rewrite Hf. rbind.
    assert (Hu' : forall q, is_port q -> used b q = used (tcp_bitmap s) q).
    { intros q Hq. rewrite Hu by done. by case_bool_decide; subst. }
    eexists _, false. split; [done|]. split; [|split].
    + split; [done|]. simpl. intros q c Hq. apply H in Hq as (? & ? & ?). by rewrite Hu'.
    + symmetry. apply Z.eqb_neq. lia.
    + intros q Hq. unfold tcp_count; simpl. rewrite Hu' by done. by case_bool_decide; subst.
  - destruct (tcp_take s p (tcp_cursor s) H Hp Hf) as (b & -> & Hw & Hu).
    eexists _, true. split; [done|]. split; [done|]. split; [|done].
    unfold tcp_count. by rewrite Hf.
Qed.

(** A set with another count of a used port in the map. *)
Lemma tcp_recount s b p n c :
  tcp_wf s -> is_port p -> bitmap_wf b -> used (tcp_bitmap s) p = true ->
  (forall q, is_port q -> used b q = used (tcp_bitmap s) q) -> 2 <= n < 2 ^ 64 ->
  tcp_wf (mkTcp b (<[p := n]> (overflow s)) c) /\
  updated (tcp_count s) p n (tcp_count (mkTcp b (<[p := n]> (overflow s)) c)).
Proof.
  intros H Hp Hb Hf Hu Hn. split.
  - split; simpl; [done|]. intros q m [[-> ->]|[Hq Hm]]%lookup_insert_Some.
    + by rewrite Hu.
    + apply H in Hm as (? & ? & ?). by rewrite Hu.
  - intros q Hq. unfold tcp_count; simpl. rewrite Hu by done. case_bool_decide; subst.
    + by rewrite Hf, lookup_insert_eq.
    + by rewrite lookup_insert_ne.
Qed.

Lemma increment_spec s p :
  tcp_wf s -> is_port p -> tcp_count s p < 2 ^ 64 - 1 ->
  exists s', increment s p = Ret s' /\ tcp_wf s' /\
    updated (tcp_count s) p (tcp_count s p + 1) (tcp_count s').
Proof.
  intros H Hp Hc. unfold increment. destruct (used (tcp_bitmap s) p) eqn:Hf.
  - destruct (bitmap_set_spec _ p (tcp_bitmap_wf s H) Hp) as (b & -> & Hb & Hu). rewrite Hf. rbind.
    assert (Hu' : forall q, is_port q -> used b q = used (tcp_bitmap s) q).
    { intros q Hq. rewrite Hu by done. by case_bool_decide; subst. }
    assert (He : tcp_count s p = default 1 (overflow s !! p)) by (unfold tcp_count; by rewrite Hf).
    eexists. split; [done|]. rewrite He in *. cbn [negb].
    destruct (overflow s !! p) as [c|] eqn:Ho; simpl in *.
    + pose proof (tcp_overflow_wf s H _ _ Ho) as (_ & _ & Hr).
      rewrite wrap_id by (split; lia). apply tcp_recount; try done. lia.
    + by apply tcp_recount.
  - destruct (tcp_take s p (tcp_cursor s) H Hp Hf) as (b & -> & Hw & Hu).
    eexists. split; [done|]. split; [done|].
    replace (tcp_count s p) with 0; [done|]. unfold tcp_count. by rewrite Hf.
Qed.

Lemma decrement_spec s p :
  tcp_wf s -> is_port p ->
  exists s', decrement s p = Ret s' /\ tcp_wf s' /\
    updated (tcp_count s) p (Z.max 0 (tcp_count s p - 1)) (tcp_count s').
Proof.
  intros H Hp. unfold decrement. destruct (overflow s !! p) as [c|] eqn:Ho.
  - pose proof (tcp_overflow_wf s H _ _ Ho) as (_ & Hf & Hr).
    rewrite wrap_id by (split; lia). eexists. split; [done|].
    assert (He : tcp_count s p = c) by (unfold tcp_count; by rewrite Hf, Ho).
    rewrite He, Z.max_r by lia.
    destruct (c - 1 =? 1) eqn:Hc; b2p; [|apply tcp_recount; try done; [apply H|lia]].
    split.
    + split; simpl; [apply H|]. intros q m [_ Hm]%lookup_delete_Some. by apply H in Hm.
    + intros q Hq. unfold tcp_count; simpl. case_bool_decide; subst.
      * by rewrite Hf, lookup_delete_eq, Hc.
      * by rewrite lookup_delete_ne.
  - destruct (bitmap_clear_spec _ p (tcp_bitmap_wf s H) Hp) as (b & -> & Hb & Hu).
    eexists. split; [done|]. split.
    + split; simpl; [done|]. intros q m Hm. rewrite Hu by (by apply H in Hm as (? & _)).
      rewrite bool_decide_false by congruence. by apply H in Hm.
    + intros q Hq. unfold tcp_count; simpl. rewrite Hu by done. case_bool_decide; subst; [|done].
      rewrite Ho. by destruct (used _ p).
Qed.

Lemma udp_alloc_spec s :
  bitmap_wf (udp_bitmap s) ->
  exists s' o, udp_alloc_ephemeral s = Ret (s', o) /\ bitmap_wf (udp_bitmap s') /\
    match o with
    | Some p => EPHEMERAL_MIN <= p < 65536 /\ udp_count s p = 0 /\
        updated (udp_count s) p 1 (udp_count s')
    | None => s' = s /\ forall p, EPHEMERAL_MIN <= p < 65536 -> 0 < udp_count s p
    end.
Proof.
  intros H. unfold udp_alloc_ephemeral.
  destruct (find_free_from_spec _ (udp_cursor s) H) as (o & -> & Ho). rbind.
  destruct o as [p|].
  - destruct Ho as [Hp Hf]. destruct (bitmap_set_spec _ p H) as (b & -> & Hb & Hu).
    { unfold is_port. change EPHEMERAL_MIN with 16384 in Hp. lia. }
    eexists _, (Some p). split; [done|]. split; [done|]. split; [done|].
    split; [unfold udp_count; by rewrite Hf|].
    intros q Hq. unfold udp_count; simpl. rewrite Hu by done. by case_bool_decide.
  - exists s, None. split; [done|]. split; [done|]. split; [done|].
    intros p Hp. unfold udp_count. by rewrite Ho.
Qed.

Lemma udp_try_claim_spec s p :
  bitmap_wf (udp_bitmap s) -> is_port p ->
  exists s' r, udp_try_claim s p = Ret (s', r) /\ bitmap_wf (udp_bitmap s') /\
    r = (udp_count s p =? 0) /\ updated (udp_count s) p 1 (udp_count s').
Proof.
  intros H Hp. unfold udp_try_claim.
  destruct (bitmap_set_spec _ p H Hp) as (b & -> & Hb & Hu).
  eexists _, _. split; [done|]. split; [done|]. split.
  - unfold udp_count. by destruct (used _ p).
  - intros q Hq. unfold udp_count; simpl. rewrite Hu by done. by case_bool_decide.
Qed.

Lemma udp_free_spec s p :
  bitmap_wf (udp_bitmap s) -> is_port p ->
  exists s', udp_free s p = Ret s' /\ bitmap_wf (udp_bitmap s') /\
    updated (udp_count s) p 0 (udp_count s').
Proof.
  intros H Hp. unfold udp_free.
  destruct (bitmap_clear_spec _ p H Hp) as (b & -> & Hb & Hu).
  eexists. split; [done|]. split; [done|].
  intros q Hq. unfold udp_count; simpl. rewrite Hu by done. by case_bool_decide.
Qed.

End Ports.
