(* ===== verification/PortHandles.v ===== *)
(** * The handles of local ports

    Sockets own ports through the handles [TcpPort] and [UdpPort].  A history is
    any sequence of allocations, claims, accepts and drops; the sets of
    [Ports.v] then count exactly the handles alive, so that a port handed out
    has no other owner and comes back when its last handle is dropped. *)

From S2P Require Import Prelude Ports.
Import Ports.

Local Open Scope Z_scope.

Module PortHandles.

#[export] Instance TcpPort_eq_dec : EqDecision TcpPort.
Proof. solve_decision. Defined.
#[export] Instance UdpPort_eq_dec : EqDecision UdpPort.
Proof. solve_decision. Defined.

(** What the sockets do with ports; a handle is named by its place in the list of
    those alive. *)
Inductive event : Type :=
| ETcpGet (v4 : bool)
| ETcpClaim (v4 : bool) (port : Z)
| ETcpAccept (i : nat)
| ETcpDrop (i : nat)
| EUdpGet (v4 : bool)
| EUdpClaim (v4 : bool) (port : Z)
| EUdpDrop (i : nat).

Record Sys : Type := mkSys {
  ports : PortAllocator;
  tcp_handles : list TcpPort;
  udp_handles : list UdpPort
}.

Definition init : Sys := mkSys alloc_new [] [].

Definition get_ephemeral_tcp (v4 : bool) := if v4 then get_ephemeral_tcp_ipv4 else get_ephemeral_tcp_ipv6.
Definition try_claim_tcp (v4 : bool) (port : Z) :=
  if v4 then try_claim_tcp_ipv4 port else try_claim_tcp_ipv6 port.
Definition get_ephemeral_udp (v4 : bool) := if v4 then get_ephemeral_udp_ipv4 else get_ephemeral_udp_ipv6.
Definition try_claim_udp (v4 : bool) (port : Z) :=
  if v4 then try_claim_udp_ipv4 port else try_claim_udp_ipv6 port.

Definition step (s : Sys) (e : event) : outcome Sys :=
  match e with
  | ETcpGet v4 =>
      '(a, o) ← get_ephemeral_tcp v4 (ports s);
      Ret (mkSys a (option_list o ++ tcp_handles s) (udp_handles s))
  | ETcpClaim v4 port =>
      '(a, o) ← try_claim_tcp v4 port (ports s);
      Ret (mkSys a (option_list o ++ tcp_handles s) (udp_handles s))
  | ETcpAccept i =>
      match tcp_handles s !! i with
      | Some h =>
          '(a, h') ← accept_port (t_is_ipv4 h) (tport h) (ports s);
          Ret (mkSys a (h' :: tcp_handles s) (udp_handles s))
      | None => Ret s
      end
  | ETcpDrop i =>
      match tcp_handles s !! i with
      | Some h =>
          '(a, _) ← drop_tcp_port h (ports s);
          Ret (mkSys a (delete i (tcp_handles s)) (udp_handles s))
      | None => Ret s
      end
  | EUdpGet v4 =>
      '(a, o) ← get_ephemeral_udp v4 (ports s);
      Ret (mkSys a (tcp_handles s) (option_list o ++ udp_handles s))
  | EUdpClaim v4 port =>
      '(a, o) ← try_claim_udp v4 port (ports s);
      Ret (mkSys a (tcp_handles s) (option_list o ++ udp_handles s))
  | EUdpDrop i =>
      match udp_handles s !! i with
      | Some h =>
          '(a, _) ← drop_udp_port h (ports s);
          Ret (mkSys a (tcp_handles s) (delete i (udp_handles s)))
      | None => Ret s
      end
  end.

Fixpoint run (s : Sys) (es : list event) : outcome Sys :=
  match es with
  | [] => Ret s
  | e :: es' => s' ← step s e; run s' es'
  end.

(** The ports named are of 16 bits. *)
Definition event_ok (e : event) : Prop :=
  match e with ETcpClaim _ p | EUdpClaim _ p => is_port p | _ => True end.

(** The set of a protocol and family. *)
Definition tcp_set (v4 : bool) (a : PortAllocator) : TcpPortSet :=
  if v4 then tcp_ipv4 a else tcp_ipv6 a.
Definition udp_set (v4 : bool) (a : PortAllocator) : UdpPortSet :=
  if v4 then udp_ipv4 a else udp_ipv6 a.
Definition with_tcp (v4 : bool) (s : TcpPortSet) (a : PortAllocator) : PortAllocator :=
  if v4 then mkAlloc s (tcp_ipv6 a) (udp_ipv4 a) (udp_ipv6 a)
  else mkAlloc (tcp_ipv4 a) s (udp_ipv4 a) (udp_ipv6 a).
Definition with_udp (v4 : bool) (s : UdpPortSet) (a : PortAllocator) : PortAllocator :=
  if v4 then mkAlloc (tcp_ipv4 a) (tcp_ipv6 a) s (udp_ipv6 a)
  else mkAlloc (tcp_ipv4 a) (tcp_ipv6 a) (udp_ipv4 a) s.

(** The number of handles of a port. *)
Definition owners {A} `{EqDecision A} (h : A) (hs : list A) : Z :=
  Z.of_nat (length (filter (eq h) hs)).

Record inv (s : Sys) : Prop := mkInv {
  inv_tcp : forall v4, tcp_wf (tcp_set v4 (ports s)) /\
    forall p, is_port p ->
      tcp_count (tcp_set v4 (ports s)) p = owners (mkTcpPort p v4) (tcp_handles s);
  inv_udp : forall v4, bitmap_wf (udp_bitmap (udp_set v4 (ports s))) /\
    forall p, is_port p ->
      udp_count (udp_set v4 (ports s)) p = owners (mkUdpPort p v4) (udp_handles s);
  inv_tcp_ports : Forall (fun h => is_port (tport h)) (tcp_handles s);
  inv_udp_ports : Forall (fun h => is_port (uport h)) (udp_handles s)
}.

Section owners.
Context {A : Type} `{EqDecision A}.
Implicit Types (h : A) (hs : list A).

Lemma owners_cons h x hs : owners h (x :: hs) = (if bool_decide (h = x) then 1 else 0) + owners h hs.
Proof.
  unfold owners. rewrite filter_cons. case_decide; case_bool_decide; try done. simpl. lia.
Qed.

#[export] Instance owners_proper h : Proper (Permutation ==> eq) (owners h).
Proof. intros l k Hl. unfold owners. by rewrite Hl. Qed.

Lemma owners_delete h i x hs :
  hs !! i = Some x ->
  owners h (delete i hs) = owners h hs - (if bool_decide (h = x) then 1 else 0).
Proof.
  intros Hi. rewrite (owners_proper h _ _ (delete_Permutation hs i x Hi)), owners_cons. lia.
Qed.

Lemma owners_le h hs : 0 <= owners h hs <= Z.of_nat (length hs).
Proof. unfold owners. pose proof (length_filter (eq h) hs). lia. Qed.

Lemma owners_pos h hs : 0 < owners h hs <-> h ∈ hs.
Proof.
  unfold owners. split.
  - intros H. destruct (filter (eq h) hs) as [|x l] eqn:Hf; [simpl in H; lia|].
    assert (Hx : x ∈ filter (eq h) hs) by (rewrite Hf; left).
    apply list_elem_of_filter in Hx as [-> ?]. done.
  - intros H. assert (Hx : h ∈ filter (eq h) hs) by (by apply list_elem_of_filter).
    destruct (filter (eq h) hs); [by apply not_elem_of_nil in Hx|simpl; lia].
Qed.

End owners.

(** ** The calls on one set *)

(** Both sides run the same call [m] on the same set. *)
Ltac same_call m :=
  unfold get_ephemeral_tcp, try_claim_tcp, get_ephemeral_udp, try_claim_udp, accept_port,
    drop_tcp_port, drop_udp_port, get_ephemeral_tcp_ipv4, get_ephemeral_tcp_ipv6,
    try_claim_tcp_ipv4, try_claim_tcp_ipv6, increment_ref_tcp_ipv4, increment_ref_tcp_ipv6,
    decrement_ref_tcp_ipv4, decrement_ref_tcp_ipv6, get_ephemeral_udp_ipv4,
    get_ephemeral_udp_ipv6, try_claim_udp_ipv4, try_claim_udp_ipv6, free_udp_ipv4,
    free_udp_ipv6, on_tcp4, on_tcp6, on_udp4, on_udp6, no_result, tcp_set, udp_set,
    with_tcp, with_udp, mbind, st_bind, outcome_bind;
  by destruct m as [?|]; repeat case_match; simplify_eq.

Lemma get_ephemeral_tcp_eq v4 a :
  get_ephemeral_tcp v4 a =
  '(s, o) ← tcp_alloc_ephemeral (tcp_set v4 a);
  Ret (with_tcp v4 s a, fmap (M:=option) (fun p => mkTcpPort p v4) o).
Proof.
  destruct v4; [same_call (tcp_alloc_ephemeral (tcp_ipv4 a))|same_call (tcp_alloc_ephemeral (tcp_ipv6 a))].
Qed.
Lemma try_claim_tcp_eq v4 p a :
  try_claim_tcp v4 p a =
  '(s, r) ← tcp_try_claim (tcp_set v4 a) p;
  Ret (with_tcp v4 s a, if (r : bool) then Some (mkTcpPort p v4) else None).
Proof.
  destruct v4; [same_call (tcp_try_claim (tcp_ipv4 a) p)|same_call (tcp_try_claim (tcp_ipv6 a) p)].
Qed.
Lemma accept_port_eq v4 p a :
  accept_port v4 p a =
  s ← increment (tcp_set v4 a) p; Ret (with_tcp v4 s a, mkTcpPort p v4).
Proof.
  destruct v4; [same_call (increment (tcp_ipv4 a) p)|same_call (increment (tcp_ipv6 a) p)].
Qed.
Lemma drop_tcp_port_eq h a :
  drop_tcp_port h a =
  s ← decrement (tcp_set (t_is_ipv4 h) a) (tport h); Ret (with_tcp (t_is_ipv4 h) s a, tt).
Proof.
  destruct h as [p []]; [same_call (decrement (tcp_ipv4 a) p)|same_call (decrement (tcp_ipv6 a) p)].
Qed.
Lemma get_ephemeral_udp_eq v4 a :
  get_ephemeral_udp v4 a =
  '(s, o) ← udp_alloc_ephemeral (udp_set v4 a);
  Ret (with_udp v4 s a, fmap (M:=option) (fun p => mkUdpPort p v4) o).
Proof.
  destruct v4; [same_call (udp_alloc_ephemeral (udp_ipv4 a))|same_call (udp_alloc_ephemeral (udp_ipv6 a))].
Qed.
Lemma try_claim_udp_eq v4 p a :
  try_claim_udp v4 p a =
  '(s, r) ← udp_try_claim (udp_set v4 a) p;
  Ret (with_udp v4 s a, if (r : bool) then Some (mkUdpPort p v4) else None).
Proof.
  destruct v4; [same_call (udp_try_claim (udp_ipv4 a) p)|same_call (udp_try_claim (udp_ipv6 a) p)].
Qed.
Lemma drop_udp_port_eq h a :
  drop_udp_port h a =
  s ← udp_free (udp_set (u_is_ipv4 h) a) (uport h); Ret (with_udp (u_is_ipv4 h) s a, tt).
Proof.
  destruct h as [p []]; [same_call (udp_free (udp_ipv4 a) p)|same_call (udp_free (udp_ipv6 a) p)].
Qed.

(** ** Every call keeps the counts equal to the handles *)

Lemma port_init_inv : inv init.
Proof.
  split; simpl; try done; intros v4; assert (Hb := bitmap_new_wf).
  - replace (tcp_set v4 alloc_new) with tcp_new by by destruct v4.
    split; [by split|]. intros p _. unfold tcp_count, tcp_new; cbn [tcp_bitmap].
    by rewrite used_new.
  - replace (udp_set v4 alloc_new) with udp_new by by destruct v4.
    split; [done|]. intros p _. unfold udp_count, udp_new; cbn [udp_bitmap].
    by rewrite used_new.
Qed.

(** A new state of one set with the handles of its family. *)
Lemma inv_with_tcp s v4 t hs :
  inv s -> tcp_wf t ->
  (forall p, is_port p -> tcp_count t p = owners (mkTcpPort p v4) hs) ->
  (forall p, owners (mkTcpPort p (negb v4)) hs = owners (mkTcpPort p (negb v4)) (tcp_handles s)) ->
  Forall (fun h => is_port (tport h)) hs ->
  inv (mkSys (with_tcp v4 t (ports s)) hs (udp_handles s)).
Proof.
  intros [H1 H2 H3 H4] Ht Hc Ho Hp. split; simpl; try done.
  - intros v. destruct (decide (v = v4)) as [->|Hn].
    + replace (tcp_set v4 _) with t by by destruct v4. done.
    + replace v with (negb v4) in * by (destruct v, v4; done).
      replace (tcp_set (negb v4) (with_tcp v4 t (ports s)))
        with (tcp_set (negb v4) (ports s)) by by destruct v4.
      split; [apply H1|]. intros p Hp'. rewrite Ho. by apply H1.
  - intros v. replace (udp_set v (with_tcp v4 t (ports s))) with (udp_set v (ports s))
      by by destruct v, v4. done.
Qed.
Lemma inv_with_udp s v4 t hs :
  inv s -> bitmap_wf (udp_bitmap t) ->
  (forall p, is_port p -> udp_count t p = owners (mkUdpPort p v4) hs) ->
  (forall p, owners (mkUdpPort p (negb v4)) hs = owners (mkUdpPort p (negb v4)) (udp_handles s)) ->
  Forall (fun h => is_port (uport h)) hs ->
  inv (mkSys (with_udp v4 t (ports s)) (tcp_handles s) hs).
Proof.
  intros [H1 H2 H3 H4] Ht Hc Ho Hp. split; simpl; try done.
  - intros v. replace (tcp_set v (with_udp v4 t (ports s))) with (tcp_set v (ports s))
      by by destruct v, v4. done.
  - intros v. destruct (decide (v = v4)) as [->|Hn].
    + replace (udp_set v4 _) with t by by destruct v4. done.
    + replace v with (negb v4) in * by (destruct v, v4; done).
      replace (udp_set (negb v4) (with_udp v4 t (ports s)))
        with (udp_set (negb v4) (ports s)) by by destruct v4.
      split; [apply H2|]. intros p Hp'. rewrite Ho. by apply H2.
Qed.

(** One handle more, and one less. *)
Lemma tcp_add s v4 p t n :
  inv s -> is_port p -> tcp_wf t ->
  updated (tcp_count (tcp_set v4 (ports s))) p n (tcp_count t) ->
  n = tcp_count (tcp_set v4 (ports s)) p + 1 ->
  inv (mkSys (with_tcp v4 t (ports s)) (mkTcpPort p v4 :: tcp_handles s) (udp_handles s)).
Proof.
  intros H Hp Ht Hu ->. apply inv_with_tcp; try done.
  - intros q Hq. rewrite Hu, owners_cons by done. destruct (inv_tcp s H v4) as [_ Hc].
    do 2 case_bool_decide; simplify_eq; rewrite Hc by done; lia.
  - intros q. rewrite owners_cons, bool_decide_false; [done|]. by destruct v4.
  - constructor; [done|apply H].
Qed.
Lemma udp_add s v4 p t :
  inv s -> is_port p -> bitmap_wf (udp_bitmap t) ->
  updated (udp_count (udp_set v4 (ports s))) p 1 (udp_count t) ->
  udp_count (udp_set v4 (ports s)) p = 0 ->
  inv (mkSys (with_udp v4 t (ports s)) (tcp_handles s) (mkUdpPort p v4 :: udp_handles s)).
Proof.
  intros H Hp Ht Hu H0. apply inv_with_udp; try done.
  - intros q Hq. rewrite Hu, owners_cons by done. destruct (inv_udp s H v4) as [_ Hc].
    rewrite Hc in H0 by done. do 2 case_bool_decide; simplify_eq; [lia|by rewrite Hc].
  - intros q. rewrite owners_cons, bool_decide_false; [done|]. by destruct v4.
  - constructor; [done|apply H].
Qed.

Lemma tcp_remove s i h t :
  inv s -> tcp_handles s !! i = Some h -> tcp_wf t ->
  updated (tcp_count (tcp_set (t_is_ipv4 h) (ports s))) (tport h)
    (Z.max 0 (tcp_count (tcp_set (t_is_ipv4 h) (ports s)) (tport h) - 1)) (tcp_count t) ->
  inv (mkSys (with_tcp (t_is_ipv4 h) t (ports s)) (delete i (tcp_handles s)) (udp_handles s)).
Proof.
  intros H Hi Ht Hu. destruct h as [p v4]; simpl in *.
  assert (Hpos : 0 < owners (mkTcpPort p v4) (tcp_handles s))
    by (apply owners_pos; by eapply list_elem_of_lookup_2).
  destruct (inv_tcp s H v4) as [_ Hc]. apply inv_with_tcp; try done.
  - intros q Hq. rewrite Hu, (owners_delete _ i _ _ Hi) by done.
    do 2 case_bool_decide; simplify_eq; rewrite Hc by done; lia.
  - intros q. rewrite (owners_delete _ i _ _ Hi), bool_decide_false; [lia|]. by destruct v4.
  - apply Forall_delete, H.
Qed.
Lemma udp_remove s i h t :
  inv s -> udp_handles s !! i = Some h -> bitmap_wf (udp_bitmap t) ->
  updated (udp_count (udp_set (u_is_ipv4 h) (ports s))) (uport h) 0 (udp_count t) ->
  inv (mkSys (with_udp (u_is_ipv4 h) t (ports s)) (tcp_handles s) (delete i (udp_handles s))).
Proof.
  intros H Hi Ht Hu. destruct h as [p v4]; simpl in *.
  assert (Hpos : 0 < owners (mkUdpPort p v4) (udp_handles s))
    by (apply owners_pos; by eapply list_elem_of_lookup_2).
  destruct (inv_udp s H v4) as [_ Hc]. apply inv_with_udp; try done.
  - intros q Hq. rewrite Hu, (owners_delete _ i _ _ Hi) by done.
    do 2 case_bool_decide; simplify_eq; [|rewrite Hc by done; lia].
    assert (Hle : udp_count (udp_set v4 (ports s)) p <= 1) by (unfold udp_count; by destruct (used _ p)).
    rewrite Hc in Hle by done. lia.
  - intros q. rewrite (owners_delete _ i _ _ Hi), bool_decide_false; [lia|]. by destruct v4.
  - apply Forall_delete, H.
Qed.

Lemma with_tcp_same v4 a : with_tcp v4 (tcp_set v4 a) a = a.
Proof. by destruct v4, a. Qed.
Lemma with_udp_same v4 a : with_udp v4 (udp_set v4 a) a = a.
Proof. by destruct v4, a. Qed.

Lemma ephemeral_is_port p : EPHEMERAL_MIN <= p < 65536 -> is_port p.
Proof. unfold is_port. change EPHEMERAL_MIN with 16384. lia. Qed.

Lemma step_tcp_get s v4 : inv s -> exists s', step s (ETcpGet v4) = Ret s' /\ inv s'.
Proof.
  intros H. cbn [step]. rewrite get_ephemeral_tcp_eq.
  destruct (tcp_alloc_spec _ (proj1 (inv_tcp s H v4))) as (t & o & -> & Ht & Ho).
  eexists. split; [done|]. destruct o as [p|]; simpl.
  - destruct Ho as (Hp%ephemeral_is_port & H0 & Hu). eapply tcp_add; try done. lia.
  - destruct Ho as [-> _]. rewrite with_tcp_same. by destruct s.
Qed.

Lemma step_tcp_claim s v4 p :
  inv s -> is_port p -> exists s', step s (ETcpClaim v4 p) = Ret s' /\ inv s'.
Proof.
  intros H Hp. cbn [step]. rewrite try_claim_tcp_eq.
  destruct (tcp_try_claim_spec _ p (proj1 (inv_tcp s H v4)) Hp) as (t & r & -> & Ht & Hr & Hu).
  eexists. split; [done|]. destruct r; simpl.
  - eapply tcp_add; try done. symmetry in Hr. b2p. lia.
  - destruct (inv_tcp s H v4) as [_ Hc]. apply inv_with_tcp; try done; [|apply H].
    intros q Hq. rewrite Hu by done. case_bool_decide; subst; by apply Hc.
Qed.

Lemma step_udp_get s v4 : inv s -> exists s', step s (EUdpGet v4) = Ret s' /\ inv s'.
Proof.
  intros H. cbn [step]. rewrite get_ephemeral_udp_eq.
  destruct (udp_alloc_spec _ (proj1 (inv_udp s H v4))) as (t & o & -> & Ht & Ho).
  eexists. split; [done|]. destruct o as [p|]; simpl.
  - destruct Ho as (Hp%ephemeral_is_port & H0 & Hu). by eapply udp_add.
  - destruct Ho as [-> _]. rewrite with_udp_same. by destruct s.
Qed.

Lemma step_udp_claim s v4 p :
  inv s -> is_port p -> exists s', step s (EUdpClaim v4 p) = Ret s' /\ inv s'.
Proof.
  intros H Hp. cbn [step]. rewrite try_claim_udp_eq.
  destruct (udp_try_claim_spec _ p (proj1 (inv_udp s H v4)) Hp) as (t & r & -> & Ht & Hr & Hu).
  eexists. split; [done|]. destruct r; simpl; symmetry in Hr; b2p.
  - by eapply udp_add.
  - destruct (inv_udp s H v4) as [_ Hc]. apply inv_with_udp; try done; [|apply H].
    intros q Hq. rewrite Hu by done. case_bool_decide; subst; [|by apply Hc].
    rewrite <-Hc by done. revert Hr. unfold udp_count. by destruct (used _ p).
Qed.

Lemma port_step_inv s e :
  inv s -> event_ok e -> Z.of_nat (length (tcp_handles s)) < 2 ^ 64 - 1 ->
  exists s', step s e = Ret s' /\ inv s'.
Proof.
  intros H He Hl. destruct e as [v4|v4 p|i|i|v4|v4 p|i]; simpl in He.
  - by apply step_tcp_get.
  - by apply step_tcp_claim.
  - cbn [step]. destruct (tcp_handles s !! i) as [h|] eqn:Hi; [|by eexists].
    pose proof (Forall_lookup_1 _ _ _ _ (inv_tcp_ports s H) Hi) as Hp. simpl in Hp.
    destruct (inv_tcp s H (t_is_ipv4 h)) as [Hw Hc]. rewrite accept_port_eq.
    destruct (increment_spec _ (tport h) Hw Hp) as (t & -> & Ht & Hu).
    { rewrite Hc by done. pose proof (owners_le (mkTcpPort (tport h) (t_is_ipv4 h)) (tcp_handles s)). lia. }
    eexists. split; [done|]. by eapply tcp_add.
  - cbn [step]. destruct (tcp_handles s !! i) as [h|] eqn:Hi; [|by eexists].
    pose proof (Forall_lookup_1 _ _ _ _ (inv_tcp_ports s H) Hi) as Hp. simpl in Hp.
    rewrite drop_tcp_port_eq.
    destruct (decrement_spec _ (tport h) (proj1 (inv_tcp s H (t_is_ipv4 h))) Hp) as (t & -> & Ht & Hu).
    eexists. split; [done|]. by apply tcp_remove.
  - by apply step_udp_get.
  - by apply step_udp_claim.
  - cbn [step]. destruct (udp_handles s !! i) as [h|] eqn:Hi; [|by eexists].
    pose proof (Forall_lookup_1 _ _ _ _ (inv_udp_ports s H) Hi) as Hp. simpl in Hp.
    rewrite drop_udp_port_eq.
    destruct (udp_free_spec _ (uport h) (proj1 (inv_udp s H (u_is_ipv4 h))) Hp) as (t & -> & Ht & Hu).
    eexists. split; [done|]. by apply udp_remove.
Qed.

Lemma step_handles s e s' :
  step s e = Ret s' -> (length (tcp_handles s') <= S (length (tcp_handles s)))%nat.
Proof.
  destruct e; cbn [step]; intros Hs; repeat case_match; simplify_eq; try lia;
    apply bind_ret in Hs as ([a o] & _ & Hs); simplify_eq; simpl;
    rewrite ?length_app, ?length_delete by (by eexists); try (destruct o; simpl); lia.
Qed.

Lemma port_run_inv s es :
  inv s -> Forall event_ok es -> Z.of_nat (length (tcp_handles s) + length es) < 2 ^ 64 ->
  exists s', run s es = Ret s' /\ inv s'.
Proof.
  revert s. induction es as [|e es IH]; intros s H He Hl; [by eexists|].
  apply Forall_cons in He as [He Hes]. simpl in Hl.
  destruct (port_step_inv s e H He ltac:(lia)) as (s1 & Hs & H1). cbn [run]. rewrite Hs. rbind.
  apply IH; try done. pose proof (step_handles _ _ _ Hs). lia.
Qed.

(** ** What the next call does *)

(** An allocation gives an ephemeral port without an owner, or all have one. *)
Lemma get_tcp_unowned s v4 :
  inv s ->
  exists a o, get_ephemeral_tcp v4 (ports s) = Ret (a, o) /\
    match o with
    | Some h => EPHEMERAL_MIN <= tport h < 65536 /\ t_is_ipv4 h = v4 /\ h ∉ tcp_handles s
    | None => forall p, EPHEMERAL_MIN <= p < 65536 -> mkTcpPort p v4 ∈ tcp_handles s
    end.
Proof.
  intros H. rewrite get_ephemeral_tcp_eq. destruct (inv_tcp s H v4) as [Hw Hc].
  destruct (tcp_alloc_spec _ Hw) as (t & [p|] & -> & _ & Ho); eexists _, _; (split; [done|]); simpl.
  - destruct Ho as (Hp & H0 & _). split; [done|]. split; [done|].
    rewrite <-owners_pos, <-Hc by (by apply ephemeral_is_port). lia.
  - intros p Hp. apply owners_pos. rewrite <-Hc by (by apply ephemeral_is_port). by apply Ho.
Qed.
Lemma get_udp_unowned s v4 :
  inv s ->
  exists a o, get_ephemeral_udp v4 (ports s) = Ret (a, o) /\
    match o with
    | Some h => EPHEMERAL_MIN <= uport h < 65536 /\ u_is_ipv4 h = v4 /\ h ∉ udp_handles s
    | None => forall p, EPHEMERAL_MIN <= p < 65536 -> mkUdpPort p v4 ∈ udp_handles s
    end.
Proof.
  intros H. rewrite get_ephemeral_udp_eq. destruct (inv_udp s H v4) as [Hw Hc].
  destruct (udp_alloc_spec _ Hw) as (t & [p|] & -> & _ & Ho); eexists _, _; (split; [done|]); simpl.
  - destruct Ho as (Hp & H0 & _). split; [done|]. split; [done|].
    rewrite <-owners_pos, <-Hc by (by apply ephemeral_is_port). lia.
  - intros p Hp. apply owners_pos. rewrite <-Hc by (by apply ephemeral_is_port). by apply Ho.
Qed.

(** A claim succeeds exactly when the port has no owner. *)
Lemma claim_tcp_unowned s v4 p :
  inv s -> is_port p ->
  exists a, try_claim_tcp v4 p (ports s) =
    Ret (a, if decide (mkTcpPort p v4 ∈ tcp_handles s) then None else Some (mkTcpPort p v4)).
Proof.
  intros H Hp. rewrite try_claim_tcp_eq. destruct (inv_tcp s H v4) as [Hw Hc].
  destruct (tcp_try_claim_spec _ p Hw Hp) as (t & r & -> & _ & -> & _). rbind.
  rewrite Hc by done. eexists. case_decide as Hin; apply owners_pos in Hin || rewrite <-owners_pos in Hin.
  - by rewrite (proj2 (Z.eqb_neq _ _)) by lia.
  - pose proof (owners_le (mkTcpPort p v4) (tcp_handles s)).
    by rewrite (proj2 (Z.eqb_eq _ _)) by lia.
Qed.
Lemma claim_udp_unowned s v4 p :
  inv s -> is_port p ->
  exists a, try_claim_udp v4 p (ports s) =
    Ret (a, if decide (mkUdpPort p v4 ∈ udp_handles s) then None else Some (mkUdpPort p v4)).
Proof.
  intros H Hp. rewrite try_claim_udp_eq. destruct (inv_udp s H v4) as [Hw Hc].
  destruct (udp_try_claim_spec _ p Hw Hp) as (t & r & -> & _ & -> & _). rbind.
  rewrite Hc by done. eexists. case_decide as Hin; apply owners_pos in Hin || rewrite <-owners_pos in Hin.
  - by rewrite (proj2 (Z.eqb_neq _ _)) by lia.
  - pose proof (owners_le (mkUdpPort p v4) (udp_handles s)).
    by rewrite (proj2 (Z.eqb_eq _ _)) by lia.
Qed.

(** C32: after any history of allocations, claims, accepts and drops, no call has
    panicked and the reference count of every TCP port is the number of its
    handles; the next allocation gives an ephemeral port that has no handle, or
    fails when every ephemeral port of the family has one, and a claim of a port
    succeeds exactly when the port has no handle, for both protocols. *)
Theorem ports_have_one_owner (es : list event) :
  Forall event_ok es -> Z.of_nat (length es) < 2 ^ 64 ->
  exists s, run init es = Ret s /\
  forall v4,
    (forall p, is_port p ->
       tcp_count (tcp_set v4 (ports s)) p = owners (mkTcpPort p v4) (tcp_handles s)) /\
    (exists a o, get_ephemeral_tcp v4 (ports s) = Ret (a, o) /\
       match o with
       | Some h => EPHEMERAL_MIN <= tport h < 65536 /\ t_is_ipv4 h = v4 /\ h ∉ tcp_handles s
       | None => forall p, EPHEMERAL_MIN <= p < 65536 -> mkTcpPort p v4 ∈ tcp_handles s
       end) /\
    (exists a o, get_ephemeral_udp v4 (ports s) = Ret (a, o) /\
       match o with
       | Some h => EPHEMERAL_MIN <= uport h < 65536 /\ u_is_ipv4 h = v4 /\ h ∉ udp_handles s
       | None => forall p, EPHEMERAL_MIN <= p < 65536 -> mkUdpPort p v4 ∈ udp_handles s
       end) /\
    (forall p, is_port p -> exists a, try_claim_tcp v4 p (ports s) =
       Ret (a, if decide (mkTcpPort p v4 ∈ tcp_handles s) then None else Some (mkTcpPort p v4))) /\
    (forall p, is_port p -> exists a, try_claim_udp v4 p (ports s) =
       Ret (a, if decide (mkUdpPort p v4 ∈ udp_handles s) then None else Some (mkUdpPort p v4))).
Proof.
  intros He Hl. destruct (port_run_inv init es port_init_inv He Hl) as (s & Hr & H).
  exists s. split; [done|]. intros v4. split; [apply (inv_tcp s H)|].
  split; [by apply get_tcp_unowned|]. split; [by apply get_udp_unowned|].
  split; [intros p; by apply claim_tcp_unowned|intros p; by apply claim_udp_unowned].
Qed.

Lemma ports_have_one_owner_witness :
  exists s, run init [ETcpClaim true 80; ETcpAccept 0; EUdpGet false; ETcpDrop 1] = Ret s /\
  tcp_count (tcp_set true (ports s)) 80 = owners (mkTcpPort 80 true) (tcp_handles s).
Proof.
  destruct (ports_have_one_owner [ETcpClaim true 80; ETcpAccept 0; EUdpGet false; ETcpDrop 1])
    as (s & Hr & H).
  - repeat constructor; simpl; done || lia.
  - done.
  - exists s. split; [exact Hr|]. apply (H true). split; done || lia.
Defined.

End PortHandles.
