(* ===== verification/NetAddr.v ===== *)
(** * Checksums and addresses of [awkernel_lib/src/net]

    [in_pseudo] of [in_cksum.rs], the conversions of [ip_addr.rs] between the
    addresses of [core::net] and those of the stack (with the constructor of
    [smoltcp/src/wire/ipv6.rs]), and the multicast addresses of [multicast.rs]. *)

From S2P Require Import Prelude.

Local Open Scope Z_scope.

Module NetAddr.

(** [union QUtil] and [union LUtil]: the 16-bit parts of a word. *)
Definition q_util_s (q : Z) (i : Z) : Z := wrap 16 (Z.shiftr q (16 * i)).
Definition l_util_s (l : Z) (i : Z) : Z := wrap 16 (Z.shiftr l (16 * i)).

(** [in_pseudo]. *)
Definition in_pseudo (a b c : Z) : Z :=
  let sum64 := wrap 64 (a + b + c) in
  let l := wrap 32 (q_util_s sum64 0 + q_util_s sum64 1 + q_util_s sum64 2 + q_util_s sum64 3) in
  let sum := wrap 32 (l_util_s l 0 + l_util_s l 1) in
  wrap 16 (if 65535 <? sum then sum - 65535 else sum).

(** [core::net::IpAddr] and [smoltcp::wire::IpAddress], by their octets in the
    order of the network. *)
Inductive CoreIpAddr : Type := V4 (octets : list Z) | V6 (octets : list Z).
Inductive IpAddress : Type := Ipv4 (a : list Z) | Ipv6 (a : list Z).

(** An element of an array of fixed length. *)
Definition at_ (o : list Z) (i : nat) : Z := default 0 (o !! i).

(** [((hi as u16) << 8) | lo as u16]. *)
Definition segment (hi lo : Z) : Z := Z.lor (wrap 16 (Z.shiftl hi 8)) lo.

(** The octets of a segment, and [Address::new] of [smoltcp/src/wire/ipv6.rs]. *)
Definition be_octets (s : Z) : list Z := [wrap 8 (Z.shiftr s 8); wrap 8 s].
Definition ipv6_address_new (segments : list Z) : list Z := mjoin (be_octets <$> segments).

(** [IpAddr::new_v4], [IpAddr::new_v6] and [IpAddr::new]; the struct is its field. *)
Definition new_v4 (o : list Z) : IpAddress := Ipv4 [at_ o 0; at_ o 1; at_ o 2; at_ o 3].
Definition new_v6 (o : list Z) : IpAddress :=
  Ipv6 (ipv6_address_new
    [segment (at_ o 0) (at_ o 1); segment (at_ o 2) (at_ o 3);
     segment (at_ o 4) (at_ o 5); segment (at_ o 6) (at_ o 7);
     segment (at_ o 8) (at_ o 9); segment (at_ o 10) (at_ o 11);
     segment (at_ o 12) (at_ o 13); segment (at_ o 14) (at_ o 15)]).
Definition ip_addr_new (a : CoreIpAddr) : IpAddress :=
  match a with V4 o => new_v4 o | V6 o => new_v6 o end.

(** [core::net::Ipv6Addr::new]: the octets of the segments. *)
Definition core_ipv6_new (segments : list Z) : list Z := mjoin (be_octets <$> segments).

(** [IpAddr::get_addr]. *)
Definition get_addr (a : IpAddress) : CoreIpAddr :=
  match a with
  | Ipv4 o => V4 [at_ o 0; at_ o 1; at_ o 2; at_ o 3]
  | Ipv6 o =>
      V6 (core_ipv6_new
        [segment (at_ o 1) (at_ o 0); segment (at_ o 3) (at_ o 2);
         segment (at_ o 5) (at_ o 4); segment (at_ o 7) (at_ o 6);
         segment (at_ o 9) (at_ o 8); segment (at_ o 11) (at_ o 10);
         segment (at_ o 13) (at_ o 12); segment (at_ o 15) (at_ o 14)])
  end.

(** [IpAddr::is_ipv4] and [IpAddr::is_ipv6]. *)
Definition is_ipv4 (a : IpAddress) : bool := match a with Ipv4 _ => true | Ipv6 _ => false end.
Definition is_ipv6 (a : IpAddress) : bool := match a with Ipv4 _ => false | Ipv6 _ => true end.

(** [ipv4_addr_to_mac_addr] of [multicast.rs]. *)
Definition ipv4_addr_to_mac_addr (octets : list Z) : list Z :=
  [1; 0; 94; Z.land (at_ octets 1) 127; at_ octets 2; at_ octets 3].

(** ** The checksum *)

(** For all 32-bit arguments [in_pseudo] is the ones' complement sum: a 16-bit
    number congruent to the sum of the arguments modulo 65535, and 0 only when
    that sum is 0. *)
Theorem in_pseudo_is_ones_complement_sum (a b c : Z) :
  is_uint 32 a -> is_uint 32 b -> is_uint 32 c ->
  is_uint 16 (in_pseudo a b c) /\
  in_pseudo a b c mod 65535 = (a + b + c) mod 65535 /\
  (in_pseudo a b c = 0 <-> a + b + c = 0).
Proof.
  unfold is_uint. change (2 ^ 32) with 4294967296. change (2 ^ 16) with 65536.
  intros Ha Hb Hc. unfold in_pseudo.
  rewrite (wrap_id 64) by (split; [lia|]; change (2 ^ 64) with 18446744073709551616; lia).
  set (t := a + b + c). assert (Ht : 0 <= t < 12884901888) by lia.
  unfold q_util_s, l_util_s, wrap. rewrite !Z.shiftr_div_pow2 by lia.
  change (2 ^ 32) with 4294967296. change (2 ^ (16 * 0)) with 1. change (2 ^ (16 * 1)) with 65536.
  change (2 ^ (16 * 2)) with 4294967296. change (2 ^ (16 * 3)) with 281474976710656.
  change (2 ^ 16) with 65536. clearbody t. clear a b c Ha Hb Hc.
  case_match; b2p; dlia.
Qed.

Lemma in_pseudo_is_ones_complement_sum_witness :
  is_uint 32 4294967295 /\
  (is_uint 16 (in_pseudo 4294967295 6 20) /\
   in_pseudo 4294967295 6 20 mod 65535 = (4294967295 + 6 + 20) mod 65535 /\
   (in_pseudo 4294967295 6 20 = 0 <-> 4294967295 + 6 + 20 = 0)).
Proof. split; [done|]. apply (in_pseudo_is_ones_complement_sum 4294967295 6 20); done. Defined.

(** ** The addresses *)

Lemma be_octets_segment hi lo : is_uint 8 hi -> is_uint 8 lo -> be_octets (segment hi lo) = [hi; lo].
Proof.
  unfold is_uint. change (2 ^ 8) with 256. intros H1 H2. unfold be_octets, segment.
  rewrite Z.shiftl_mul_pow2, (wrap_id 16) by (lia || (split; change (2 ^ 8) with 256; change (2 ^ 16) with 65536; lia)).
  rewrite lor_mul_add, Z.shiftr_div_pow2 by (lia || done).
  unfold wrap. change (2 ^ 8) with 256. f_equal; [dlia|f_equal; dlia].
Qed.

(** Exchanging the octets of every segment. *)
Fixpoint swap_pairs (o : list Z) : list Z :=
  match o with
  | x :: y :: o' => y :: x :: swap_pairs o'
  | _ => o
  end.

Lemma ipv4_round_trip o : length o = 4%nat -> get_addr (ip_addr_new (V4 o)) = V4 o.
Proof. intros H. by destruct o as [|? [|? [|? [|? [|]]]]]. Qed.

Lemma ipv6_octets o :
  length o = 16%nat -> Forall (is_uint 8) o ->
  ip_addr_new (V6 o) = Ipv6 o /\ get_addr (Ipv6 o) = V6 (swap_pairs o).
Proof.
  intros Hl Ho. do 16 (destruct o as [|? o]; [discriminate Hl|]).
  destruct o; [|discriminate Hl]. repeat (apply Forall_cons in Ho as [? Ho]).
  split; cbn [ip_addr_new get_addr]; unfold new_v6, ipv6_address_new, core_ipv6_new, at_;
    cbn -[be_octets segment]; by rewrite !be_octets_segment by done.
Qed.

(** An IPv4 address survives the conversion to the stack's address and back; an
    IPv6 one comes back with the octets of every segment exchanged. *)
Theorem ip_addr_round_trip (o4 o6 : list Z) :
  length o4 = 4%nat -> length o6 = 16%nat -> Forall (is_uint 8) o6 ->
  get_addr (ip_addr_new (V4 o4)) = V4 o4 /\
  get_addr (ip_addr_new (V6 o6)) = V6 (swap_pairs o6).
Proof.
  intros H4 H6 Ho. split; [by apply ipv4_round_trip|].
  destruct (ipv6_octets o6 H6 Ho) as [-> H]. done.
Qed.

(** The loopback address ::1 comes back as ::100. *)
Lemma ip_addr_round_trip_witness :
  get_addr (ip_addr_new (V4 [127; 0; 0; 1])) = V4 [127; 0; 0; 1] /\
  get_addr (ip_addr_new (V6 [0; 0; 0; 0; 0; 0; 0; 0; 0; 0; 0; 0; 0; 0; 0; 1])) =
    V6 [0; 0; 0; 0; 0; 0; 0; 0; 0; 0; 0; 0; 0; 0; 1; 0].
Proof.
  apply (ip_addr_round_trip [127; 0; 0; 1] [0; 0; 0; 0; 0; 0; 0; 0; 0; 0; 0; 0; 0; 0; 0; 1]);
    [done|done|]. repeat constructor; done.
Defined.

End NetAddr.
