(* ===== verification/Assembler.v ===== *)
(** * The reassembly map of [smoltcp/src/storage/assembler.rs]

    An [Assembler] records which octets behind the end of a receive buffer have
    arrived: an array of contigs, each a hole followed by data.  [Module
    Assembler] translates its operations on the array; [AssemblerLaws.v] states
    what they promise. *)

From S2P Require Import Prelude.

Local Open Scope Z_scope.

Module Assembler.

(** Arithmetic of [usize]. *)
Definition uadd (a b : Z) : Z := wrap 64 (a + b).
Definition usub (a b : Z) : Z := wrap 64 (a - b).

(** [struct TooManyHolesError] and [struct Contig]. *)
Inductive TooManyHolesError : Type := TooManyHoles.
Record Contig : Type := mkContig { hole_size : Z; data_size : Z }.

(** The methods of [Contig]. *)
Definition contig_empty : Contig := mkContig 0 0.
Definition has_hole (c : Contig) : bool := negb (hole_size c =? 0).
Definition has_data (c : Contig) : bool := negb (data_size c =? 0).
Definition total_size (c : Contig) : Z := uadd (hole_size c) (data_size c).
Definition shrink_hole_by (size : Z) (c : Contig) : Contig :=
  mkContig (usub (hole_size c) size) (data_size c).
Definition shrink_hole_to (size : Z) (c : Contig) : Contig :=
  mkContig size (usub (total_size c) size).

(** [struct Assembler], by its array; its length is a constant of the build. *)
Definition t : Type := list Contig.

(** [Assembler::new] and [Assembler::clear]. *)
Definition new (max_segment_count : nat) : t := replicate max_segment_count contig_empty.
Definition clear (a : t) : t := replicate (length a) contig_empty.

(** [Assembler::front], [peek_front], [back] and [is_empty]. *)
Definition front (a : t) : outcome Contig := index a 0.
Definition peek_front (a : t) : outcome Z :=
  f ← front a; Ret (if has_hole f then 0 else data_size f).
Definition back (a : t) : outcome Contig := index a (length a - 1).
Definition is_empty (a : t) : outcome bool := f ← front a; Ret (negb (has_data f)).

(** [self.contigs[i] = f(self.contigs[i])]. *)
Definition update (a : t) (i : nat) (f : Contig -> Contig) : outcome t :=
  c ← index a i; index_set a i (f c).

(** The loop of [remove_contig_at], from [i] with [n] rounds left, and what
    follows it. *)
Fixpoint remove_loop (a : t) (i n : nat) : outcome t :=
  match n with
  | O => index_set a (length a - 1) contig_empty
  | S n' =>
      c ← index a i;
      if negb (has_data c) then Ret a
      else
        next ← index a (i + 1);
        a' ← index_set a i next;
        remove_loop a' (i + 1) n'
  end.

(** [Assembler::remove_contig_at]. *)
Definition remove_contig_at (a : t) (at_ : nat) : outcome t :=
  remove_loop a at_ (length a - 1 - at_).

(** The loop of [add_contig_at] over [(at + 1..len).rev()]: [n] rounds are left
    and the next index is [at + n]. *)
Fixpoint add_loop (a : t) (at_ n : nat) : outcome t :=
  match n with
  | O => Ret a
  | S n' =>
      prev ← index a (at_ + n');
      a' ← index_set a (at_ + n) prev;
      add_loop a' at_ n'
  end.

(** [Assembler::add_contig_at]; the reference it returns is to [contigs[at]]. *)
Definition add_contig_at (a : t) (at_ : nat) : outcome (result t TooManyHolesError) :=
  b ← back a;
  if has_data b then Ret (Err TooManyHoles)
  else
    a' ← add_loop a at_ (length a - 1 - at_);
    a'' ← index_set a' at_ contig_empty;
    Ret (Ok a'').

(** How the first loop of [add] ends. *)
Inductive start : Type :=
| NoSpace
| Added (a : t)
| Found (i : nat) (offset : Z).

(** The first loop of [add], from [i] with [n] contigs left. *)
Fixpoint find_start (a : t) (size : Z) (n i : nat) (offset : Z) : outcome start :=
  match n with
  | O => Ret NoSpace
  | S n' =>
      contig ← index a i;
      if negb (has_data contig) then
        a' ← index_set a i (mkContig offset size);
        Ret (Added a')
      else if offset <=? total_size contig then Ret (Found i offset)
      else find_start a size n' (i + 1) (usub offset (total_size contig))
  end.

(** The loop that coalesces contigs to the right of [i], from [j] with [n]
    contigs left; it gives the array and the last [j]. *)
Fixpoint coalesce (a : t) (i : nat) (end_ : Z) (n j : nat) : outcome (t * nat) :=
  match n with
  | O => Ret (a, j)
  | S n' =>
      cj ← index a j;
      ci ← index a i;
      if has_data cj && (uadd (total_size ci) (hole_size cj) <=? end_) then
        a' ← index_set a i (mkContig (hole_size ci) (uadd (data_size ci) (total_size cj)));
        coalesce a' i end_ n' (j + 1)
      else Ret (a, j)
  end.

(** The loop that closes the gap of [shift] coalesced contigs, from [x] with [n]
    contigs left. *)
Fixpoint shift_loop (a : t) (shift n x : nat) : outcome t :=
  match n with
  | O => Ret a
  | S n' =>
      c ← index a x;
      if negb (has_data c) then Ret a
      else
        a' ← index_set a x (default contig_empty (a !! (x + shift)%nat));
        shift_loop a' shift n' (x + 1)
  end.

(** The last step of [add]: the range goes beyond the contig at [i]. *)
Definition extend (a : t) (i : nat) (end_ : Z) : outcome t :=
  ci ← index a i;
  if total_size ci <? end_ then
    let left_ := usub end_ (total_size ci) in
    a' ← index_set a i (mkContig (hole_size ci) (uadd (data_size ci) left_));
    if (i + 1 <? length a')%nat then
      next ← index a' (i + 1);
      if has_data next then index_set a' (i + 1) (mkContig (usub (hole_size next) left_) (data_size next))
      else Ret a'
    else Ret a'
  else Ret a.

(** The rest of [add] once the contig at [i] has its start: coalesce, close the
    gap, extend. *)
Definition add_right (a : t) (i : nat) (end_ : Z) : outcome t :=
  '(a1, j) ← coalesce a i end_ (length a - (i + 1)) (i + 1);
  let shift := (j - i - 1)%nat in
  a2 ← (if (shift =? 0)%nat then Ret a1 else shift_loop a1 shift (length a1 - (i + 1)) (i + 1));
  extend a2 i end_.

(** What [add] does with the contig its first loop found. *)
Definition add_at (a : t) (size : Z) (s : start) : outcome (t * result unit TooManyHolesError) :=
  match s with
  | NoSpace => Ret (a, Err TooManyHoles)
  | Added a' => Ret (a', Ok tt)
  | Found i offset =>
      contig ← index a i;
      if offset <? hole_size contig then
        if uadd offset size <? hole_size contig then
          r ← add_contig_at a i;
          match r with
          | Err e => Ret (a, Err e)
          | Ok a' =>
              a1 ← index_set a' i (mkContig offset size);
              a2 ← update a1 (i + 1) (shrink_hole_by (uadd offset size));
              Ret (a2, Ok tt)
          end
        else
          a1 ← update a i (shrink_hole_to offset);
          a2 ← add_right a1 i (uadd offset size);
          Ret (a2, Ok tt)
      else
        a2 ← add_right a i (uadd offset size);
        Ret (a2, Ok tt)
  end.

(** [Assembler::add]; an error leaves the assembler as it was. *)
Definition add (a : t) (offset size : Z) : outcome (t * result unit TooManyHolesError) :=
  if size =? 0 then Ret (a, Ok tt)
  else s ← find_start a size (length a) 0 offset; add_at a size s.

(** [Assembler::remove_front]. *)
Definition remove_front (a : t) : outcome (t * Z) :=
  f ← front a;
  if has_hole f || negb (has_data f) then Ret (a, 0)
  else a' ← remove_contig_at a 0; Ret (a', data_size f).

(** [Assembler::add_then_remove_front]. *)
Definition add_then_remove_front (a : t) (offset size : Z) :
    outcome (t * result Z TooManyHolesError) :=
  f ← front a;
  if (offset =? 0) && (size <? hole_size f) then
    a' ← index_set a 0 (mkContig (usub (hole_size f) size) (data_size f));
    Ret (a', Ok size)
  else
    '(a', r) ← add a offset size;
    match r with
    | Err e => Ret (a', Err e)
    | Ok _ => '(a'', n) ← remove_front a'; Ret (a'', Ok n)
    end.

(** [AssemblerIter::next], run to the end: the ranges of data from [left]. *)
Fixpoint iter_from (first_offset left_ : Z) (cs : list Contig) : list (Z * Z) :=
  match cs with
  | [] => []
  | c :: cs' =>
      let left1 := uadd left_ (hole_size c) in
      let right := uadd left1 (data_size c) in
      if left1 <? right
      then (uadd left1 first_offset, uadd right first_offset) :: iter_from first_offset right cs'
      else iter_from first_offset left1 cs'
  end.

(** [Assembler::iter_data]. *)
Definition iter_data (a : t) (first_offset : Z) : list (Z * Z) := iter_from first_offset 0 a.

End Assembler.
