(* ===== verification/AssemblerLaws.v ===== *)
(** * What the reassembly map promises

    The loops of [Assembler.v] on the array equal a recursive definition on the
    contigs in use, and that definition adds a range to the set of the octets
    recorded.  The front range that is removed is the longest one without a
    hole, and a segment at the front is never refused. *)

From S2P Require Import Prelude Assembler.
Import Assembler.

Local Open Scope Z_scope.

Module AssemblerLaws.

(** The size of a contig without the wraparound of [usize]. *)
Definition tot (c : Contig) : Z := hole_size c + data_size c.
Fixpoint sum (u : list Contig) : Z :=
  match u with [] => 0 | c :: u' => tot c + sum u' end.

Definition contig_ok (c : Contig) : Prop := 0 <= hole_size c /\ 0 < data_size c.

(** The contigs in use: all have data, and all but the first a hole. *)
Definition in_use (u : list Contig) : Prop :=
  Forall contig_ok u /\ Forall (fun c => 0 < hole_size c) (tail u).

(** The array holds the contigs [u] and then only empty ones. *)
Record repr (a : t) (u : list Contig) : Prop := mkRepr {
  repr_array : exists m, a = u ++ replicate m contig_empty;
  repr_length : (0 < length a)%nat;
  repr_use : in_use u;
  repr_sum : sum u < 2 ^ 64
}.

(** ** The reference definition *)

(** Contigs that the range up to [e] reaches are merged into [c]. *)
Fixpoint coal (c : Contig) (l : list Contig) (e : Z) : Contig * list Contig :=
  match l with
  | d :: l' =>
      if tot c + hole_size d <=? e
      then coal (mkContig (hole_size c) (data_size c + tot d)) l' e
      else (c, l)
  | [] => (c, [])
  end.

(** [c] grows to the end of the range, at the cost of the next hole. *)
Definition grow (c : Contig) (l : list Contig) (e : Z) : list Contig :=
  if tot c <? e then
    mkContig (hole_size c) (data_size c + (e - tot c)) ::
    match l with
    | d :: l' => mkContig (hole_size d - (e - tot c)) (data_size d) :: l'
    | [] => []
    end
  else c :: l.
Definition absorb (c : Contig) (l : list Contig) (e : Z) : list Contig :=
  let '(c', l') := coal c l e in grow c' l' e.

Fixpoint add_list (u : list Contig) (o s : Z) : list Contig :=
  match u with
  | [] => [mkContig o s]
  | c :: u' =>
      if o <=? tot c then
        if o <? hole_size c then
          if o + s <? hole_size c
          then mkContig o s :: mkContig (hole_size c - (o + s)) (data_size c) :: u'
          else absorb (mkContig o (tot c - o)) u' (o + s)
        else absorb c u' (o + s)
      else c :: add_list u' (o - tot c) s
  end.

(** ** The octets recorded *)

Fixpoint present (u : list Contig) (k : Z) : bool :=
  match u with
  | [] => false
  | c :: u' => if k <? tot c then hole_size c <=? k else present u' (k - tot c)
  end.

Definition in_range (o e k : Z) : bool := (o <=? k) && (k <? e).

(** Case analysis on the comparisons of a goal about [present]. *)
Ltac cases :=
  unfold in_range, tot in *; cbn [hole_size data_size present] in *;
  repeat (match goal with
  | |- context [?x <? ?y] => destruct (Z.ltb_spec x y); try lia
  | |- context [?x <=? ?y] => destruct (Z.leb_spec x y); try lia
  end; unfold tot in *; cbn [hole_size data_size present] in *; try lia);
  cbn [andb orb]; rewrite ?orb_false_r, ?orb_true_r; try done; try lia; try (f_equal; lia).

Lemma grow_present c l e o k :
  contig_ok c -> hole_size c <= o <= tot c -> 0 <= k ->
  match l with d :: _ => contig_ok d /\ e < tot c + hole_size d | [] => True end ->
  present (grow c l e) k = present (c :: l) k || in_range o e k.
Proof.
  intros Hc Ho Hk Hd. unfold grow, contig_ok in *.
  destruct l as [|d l]; cases.
Qed.

Lemma absorb_present l : forall c e o k,
  contig_ok c -> Forall contig_ok l -> hole_size c <= o <= tot c -> 0 <= k ->
  present (absorb c l e) k = present (c :: l) k || in_range o e k.
Proof.
  induction l as [|d l IH]; intros c e o k Hc Hl Ho Hk; unfold absorb; cbn [coal].
  - by apply grow_present.
  - apply Forall_cons in Hl as [Hd Hl]. destruct (Z.leb_spec (tot c + hole_size d) e).
    + specialize (IH (mkContig (hole_size c) (data_size c + tot d)) e o k).
      unfold absorb in IH. rewrite IH; clear IH; unfold contig_ok in *; try done; cases.
    + apply grow_present; done || lia.
Qed.

(** Adding a range adds its octets and no others. *)
Lemma add_list_present u : forall o s k,
  Forall contig_ok u -> 0 <= o -> 0 < s -> 0 <= k ->
  present (add_list u o s) k = present u k || in_range o (o + s) k.
Proof.
  induction u as [|c u IH]; intros o s k Hu Ho Hs Hk; cbn [add_list].
  - cases.
  - apply Forall_cons in Hu as [Hc Hu]. destruct (Z.leb_spec o (tot c)).
    + destruct (Z.ltb_spec o (hole_size c)).
      * unfold contig_ok in *. destruct (Z.ltb_spec (o + s) (hole_size c)); [cases|].
        rewrite (absorb_present u _ (o + s) o); unfold contig_ok; try done; cases.
      * by apply absorb_present.
    + unfold contig_ok in *. cbn [present]. destruct (Z.ltb_spec k (tot c)); [cases|].
      rewrite IH by (done || lia). cases.
Qed.

(** ** The reference definition keeps the invariant *)

Definition holed (u : list Contig) : Prop := Forall (fun c => 0 < hole_size c) u.

Lemma sum_nonneg u : Forall contig_ok u -> 0 <= sum u.
Proof. induction 1 as [|c u [? ?] _ IH]; simpl; unfold tot; lia. Qed.

Lemma absorb_use l : forall c e,
  contig_ok c -> Forall contig_ok l -> holed l ->
  exists c' l', absorb c l e = c' :: l' /\ hole_size c' = hole_size c /\
    contig_ok c' /\ Forall contig_ok l' /\ holed l' /\
    tot c' + sum l' = Z.max (tot c + sum l) e /\ (length l' <= length l)%nat.
Proof.
  unfold holed. induction l as [|d l IH]; intros c e Hc Hl Hh; unfold absorb; cbn [coal].
  - unfold grow, contig_ok, tot in *. destruct (Z.ltb_spec (hole_size c + data_size c) e);
      eexists _, _; (split; [done|]); simpl; unfold tot; simpl; repeat split; try constructor; lia.
  - apply Forall_cons in Hl as [Hd Hl]. apply Forall_cons in Hh as [Hhd Hh].
    pose proof (sum_nonneg l Hl). unfold contig_ok, tot in *. destruct (Z.leb_spec (hole_size c + data_size c + hole_size d) e).
    + destruct (IH (mkContig (hole_size c) (data_size c + (hole_size d + data_size d))) e)
        as (c' & l' & Heq & H1 & H2 & H3 & H4 & H5 & H6); try done; [simpl; lia|].
      unfold absorb in Heq. exists c', l'. split; [done|]. simpl in *. unfold tot in *. simpl in *.
      repeat split; try done; lia.
    + unfold grow, tot. destruct (Z.ltb_spec (hole_size c + data_size c) e);
        eexists _, _; (split; [done|]); simpl; unfold tot; simpl;
        repeat split; try constructor; simpl; try done; lia.
Qed.

Lemma add_list_use u : forall o s,
  Forall contig_ok u -> holed (tail u) -> 0 <= o -> 0 < s ->
  exists c l, add_list u o s = c :: l /\ Forall contig_ok (c :: l) /\ holed l /\
    (0 < o -> holed u -> 0 < hole_size c) /\
    tot c + sum l = Z.max (sum u) (o + s) /\ (length l <= length u)%nat.
Proof.
  unfold holed. induction u as [|c u IH]; intros o s Hu Hh Ho Hs; cbn [add_list].
  - eexists _, _. split; [done|]. unfold contig_ok, tot. simpl.
    repeat split; repeat constructor; simpl; try done; lia.
  - apply Forall_cons in Hu as [Hc Hu]. simpl in Hh. pose proof (sum_nonneg u Hu).
    unfold contig_ok, tot in *.
    destruct (Z.leb_spec o (hole_size c + data_size c)).
    + destruct (Z.ltb_spec o (hole_size c)).
      * destruct (Z.ltb_spec (o + s) (hole_size c)).
        -- eexists _, _. split; [done|]. simpl. unfold tot; simpl.
           repeat split; repeat constructor; simpl; try done; lia.
        -- destruct (absorb_use u (mkContig o (hole_size c + data_size c - o)) (o + s))
             as (c' & l' & -> & H1' & H2' & H3' & H4' & H5' & H6'); try done; [split; simpl; lia|].
           exists c', l'. simpl in *. unfold tot in *. simpl in *.
           repeat split; try done; try constructor; try done; lia.
      * destruct (absorb_use u c (o + s)) as (c' & l' & -> & H1' & H2' & H3' & H4' & H5' & H6'); try done.
        exists c', l'. simpl in *. unfold tot in *.
        repeat split; try done; try constructor; try done; try lia.
        intros _ Hhc. apply Forall_cons in Hhc as [? _]. lia.
    + destruct (IH (o - (hole_size c + data_size c)) s) as (c' & l' & -> & H1 & H2 & H3 & H4 & H5);
        try done; try lia.
      { by destruct u; [|apply Forall_cons in Hh as [_ ?]]. }
      exists c, (c' :: l'). simpl in *. unfold tot in *.
      repeat split; try done; try lia.
      * by constructor.
      * constructor; [|done]. apply H3; [lia|done].
      * intros _ Hhc. by apply Forall_cons in Hhc as [? _].
Qed.

(** ** The array *)

Lemma index_mid {A} (pre : list A) x l i : i = length pre -> index (pre ++ x :: l) i = Ret x.
Proof. intros ->. apply index_Some. by rewrite list_lookup_middle. Qed.

Lemma index_set_mid {A} (pre : list A) x y l i :
  i = length pre -> index_set (pre ++ x :: l) i y = Ret (pre ++ y :: l).
Proof.
  intros ->. rewrite index_set_lt by (rewrite length_app; simpl; lia).
  by rewrite insert_app_r_alt, Nat.sub_diag by lia.
Qed.

Definition empties (m : nat) : list Contig := replicate m contig_empty.

Lemma length_empties m : length (empties m) = m.
Proof. apply length_replicate. Qed.

Lemma default_empties m i : default contig_empty (empties m !! i) = contig_empty.
Proof.
  destruct (empties m !! i) eqn:Hz; [|done]. unfold empties in Hz.
  by apply lookup_replicate in Hz as [-> _].
Qed.

Lemma has_data_ok c : contig_ok c -> has_data c = true.
Proof. intros [_ H]. unfold has_data. destruct (Z.eqb_spec (data_size c) 0); [lia|done]. Qed.

Lemma total_size_ok c : contig_ok c -> tot c < 2 ^ 64 -> total_size c = tot c.
Proof. intros [H1 H2] H. apply wrap_id. unfold tot in *. split; lia. Qed.

Lemma uadd_id x y : 0 <= x + y < 2 ^ 64 -> uadd x y = x + y.
Proof. intros H. by apply wrap_id. Qed.
Lemma usub_id x y : 0 <= x - y < 2 ^ 64 -> usub x y = x - y.
Proof. intros H. by apply wrap_id. Qed.

(** The first contig without data. *)
Lemma index_end pre m i :
  i = length pre ->
  match m with
  | O => length (pre ++ empties m) = i
  | S m' => index (pre ++ empties m) i = Ret contig_empty
  end.
Proof. intros ->. destruct m; simpl; [by rewrite app_nil_r|by apply index_mid]. Qed.

Lemma coalesce_spec l : forall pre mid c m e i j n,
  i = length pre -> j = (i + 1 + length mid)%nat -> n = (length l + m)%nat ->
  contig_ok c -> Forall contig_ok l -> tot c + sum l < 2 ^ 64 ->
  exists k, coal c l e = ((coal c l e).1, drop k l) /\ (k <= length l)%nat /\
    coalesce (pre ++ c :: mid ++ l ++ empties m) i e n j =
      Ret (pre ++ (coal c l e).1 :: mid ++ l ++ empties m, (j + k)%nat).
Proof.
  induction l as [|d l IH]; intros pre mid c m e i j n Hi Hj Hn Hc Hl Hs.
  - exists 0%nat. cbn [coal fst]. split; [done|]. split; [done|].
    rewrite Nat.add_0_r. subst n. destruct m as [|m]; [done|]. cbn [length Nat.add coalesce].
    replace (pre ++ c :: mid ++ [] ++ empties (S m))
      with ((pre ++ c :: mid) ++ contig_empty :: empties m) by (rewrite <-app_assoc; done).
    rewrite (index_mid (pre ++ c :: mid) _ _ j) by (rewrite length_app; simpl; lia). rbind.
    rewrite <-app_assoc. cbn [app]. by rewrite (index_mid pre _ _ _) by done.
  - apply Forall_cons in Hl as [Hd Hl]. subst n. cbn [length Nat.add coalesce coal].
    pose proof (sum_nonneg l Hl). cbn [sum] in Hs. unfold contig_ok, tot in Hc, Hd, Hs.
    replace (pre ++ c :: mid ++ (d :: l) ++ empties m)
      with ((pre ++ c :: mid) ++ d :: l ++ empties m) by (rewrite <-app_assoc; done).
    rewrite (index_mid (pre ++ c :: mid) _ _ j) by (rewrite length_app; simpl; lia). rbind.
    rewrite <-app_assoc. cbn [app]. rewrite (index_mid pre _ _ _) by done. rbind.
    rewrite has_data_ok, !total_size_ok, uadd_id by (done || (unfold tot; lia)). cbn [andb].
    destruct (Z.leb_spec (tot c + hole_size d) e).
    + rewrite (index_set_mid pre) by done. rbind.
      rewrite uadd_id by (unfold tot; lia).
      destruct (IH pre (mid ++ [d]) (mkContig (hole_size c) (data_size c + tot d)) m e i (j + 1)%nat (length l + m)%nat)
        as (k & Hk & Hle & Hco); try done.
      { rewrite length_app; simpl; lia. }
      { split; simpl; unfold tot; lia. }
      { unfold tot at 1; simpl. unfold tot; lia. }
      exists (S k). split; [done|]. split; [simpl; lia|].
      rewrite <-!(app_assoc mid) in Hco. cbn [app] in Hco. rewrite Hco. do 2 f_equal. lia.
    + exists 0%nat. split; [done|]. split; [lia|]. by rewrite Nat.add_0_r.
Qed.

Lemma shift_spec u : forall pre m shift x n,
  x = length pre -> n = (length u + m)%nat -> (0 < shift)%nat -> Forall contig_ok u ->
  shift_loop (pre ++ u ++ empties m) shift n x =
    Ret (pre ++ drop shift u ++ empties (m + Nat.min shift (length u))).
Proof.
  induction u as [|c u IH]; intros pre m shift x n Hx Hn Hs Hu; subst n; cbn [length Nat.add].
  - rewrite drop_nil, Nat.min_0_r, Nat.add_0_r. destruct m as [|m]; [done|]. cbn [shift_loop app].
    change (empties (S m)) with (contig_empty :: empties m).
    by rewrite (index_mid pre _ _ _) by done.
  - apply Forall_cons in Hu as [Hc Hu]. cbn [shift_loop app].
    rewrite (index_mid pre _ _ _) by done. rbind. rewrite has_data_ok by done. cbn [negb].
    rewrite (index_set_mid pre) by done. rbind.
    set (y := default contig_empty _).
    replace (pre ++ y :: u ++ empties m) with ((pre ++ [y]) ++ u ++ empties m) by (rewrite <-app_assoc; done).
    rewrite IH by (done || (rewrite length_app; simpl; lia)). rewrite <-app_assoc. cbn [app].
    f_equal. f_equal. destruct shift as [|shift]; [lia|]. cbn [drop].
    assert (Hy : y = default contig_empty ((u ++ empties m) !! shift)).
    { subst y x. rewrite (lookup_app_r pre) by lia.
      by replace (length pre + S shift - length pre)%nat with (S shift) by lia. }
    destruct (decide (shift < length u)%nat) as [Hlt|Hge].
    + apply lookup_lt_is_Some in Hlt as [z Hz].
      pose proof (lookup_lt_Some _ _ _ Hz).
      rewrite (drop_S u z shift Hz), Hy, (lookup_app_l u), Hz by lia. cbn [default app].
      by rewrite !Nat.min_l by lia.
    + rewrite !drop_ge by lia. rewrite Hy. cbn [app].
      replace (default contig_empty ((u ++ empties m) !! shift)) with contig_empty.
      2:{ rewrite lookup_app_r by lia. by rewrite default_empties. }
      rewrite !Nat.min_r by lia. by replace (m + S (length u))%nat with (S (m + length u)) by lia.
Qed.

Lemma add_loop_spec suf : forall pre x r,
  exists z, add_loop (pre ++ suf ++ x :: r) (length pre) (length suf) = Ret (pre ++ z :: suf ++ r).
Proof.
  induction suf as [|y suf IH] using rev_ind; intros pre x r; [by exists x|].
  rewrite length_app. cbn [length]. rewrite Nat.add_1_r. cbn [add_loop].
  rewrite <-!app_assoc. cbn [app].
  replace (pre ++ suf ++ y :: x :: r) with ((pre ++ suf) ++ y :: x :: r) by (by rewrite <-app_assoc).
  rewrite (index_mid (pre ++ suf)) by (rewrite length_app; lia). rbind.
  replace ((pre ++ suf) ++ y :: x :: r) with ((pre ++ suf ++ [y]) ++ x :: r) by (by rewrite <-!app_assoc).
  rewrite (index_set_mid (pre ++ suf ++ [y])) by (rewrite !length_app; simpl; lia). rbind.
  rewrite <-!app_assoc. cbn [app]. apply IH.
Qed.

Lemma add_contig_at_spec pre l m i :
  i = length pre -> Forall contig_ok l -> (0 < length l)%nat ->
  add_contig_at (pre ++ l ++ empties m) i =
  Ret (match m with O => Err TooManyHoles | S m' => Ok (pre ++ contig_empty :: l ++ empties m') end).
Proof.
  intros -> Hl Hn. unfold add_contig_at, back. destruct m as [|m].
  - change (empties 0) with (@nil Contig). rewrite app_nil_r.
    destruct l as [|c l' _] using rev_ind; [simpl in Hn; lia|].
    apply Forall_app in Hl as [_ [Hc _]%Forall_cons]. rewrite app_assoc.
    rewrite (index_mid (pre ++ l')) by (rewrite !length_app; simpl; lia). rbind.
    by rewrite has_data_ok.
  - replace (empties (S m)) with (empties m ++ [contig_empty]) by (symmetry; apply replicate_S_end).
    rewrite !app_assoc. rewrite index_mid by (rewrite !length_app; simpl; lia). rbind.
    cbn [has_data contig_empty data_size Z.eqb negb].
    replace (((pre ++ l) ++ empties m) ++ [contig_empty])
      with (pre ++ (l ++ empties m) ++ contig_empty :: []) by (by rewrite <-!app_assoc).
    destruct (add_loop_spec (l ++ empties m) pre contig_empty []) as [z Hz].
    replace (length (pre ++ (l ++ empties m) ++ [contig_empty]) - 1 - length pre)%nat
      with (length (l ++ empties m)) by (rewrite !length_app; simpl; lia).
    rewrite Hz. rbind. rewrite index_set_mid by done. rbind. by rewrite app_nil_r.
Qed.

Lemma extend_spec pre c r m e i :
  i = length pre -> contig_ok c -> Forall contig_ok r -> tot c + sum r < 2 ^ 64 -> 0 <= e < 2 ^ 64 ->
  match r with d :: _ => e < tot c + hole_size d | [] => True end ->
  extend (pre ++ c :: r ++ empties m) i e = Ret (pre ++ grow c r e ++ empties m).
Proof.
  intros Hi Hc Hr Hs He Hd. unfold extend, grow. rewrite (index_mid pre) by done. rbind.
  pose proof (sum_nonneg r Hr). unfold contig_ok in Hc.
  rewrite total_size_ok by (done || lia). unfold tot in *.
  destruct (Z.ltb_spec (hole_size c + data_size c) e); [|done].
  rewrite (index_set_mid pre) by done. rbind. rewrite usub_id, uadd_id by lia.
  set (c' := mkContig _ (_ + _)).
  replace (pre ++ c' :: r ++ empties m) with ((pre ++ [c']) ++ r ++ empties m) by (by rewrite <-app_assoc).
  destruct r as [|d r].
  - cbn [app]. case_match; [|by rewrite <-app_assoc]. b2p.
    pose proof (index_end (pre ++ [c']) m (i + 1) ltac:(rewrite length_app; simpl; lia)) as Hend.
    destruct m as [|m]; [lia|]. rewrite Hend. rbind. by rewrite <-app_assoc.
  - apply Forall_cons in Hr as [Hdok Hr]. cbn [app].
    rewrite (proj2 (Nat.ltb_lt _ _)) by (rewrite !length_app; simpl; lia).
    rewrite (index_mid (pre ++ [c'])) by (rewrite length_app; simpl; lia). rbind.
    rewrite has_data_ok by done.
    rewrite (index_set_mid (pre ++ [c'])) by (rewrite length_app; simpl; lia).
    pose proof (sum_nonneg r Hr). unfold contig_ok in Hdok.
    rewrite usub_id by (simpl in Hs, Hd; unfold tot in *; lia).
    by rewrite <-app_assoc.
Qed.

Lemma coal_spec l : forall c e,
  contig_ok c -> Forall contig_ok l ->
  contig_ok (coal c l e).1 /\ tot (coal c l e).1 + sum (coal c l e).2 = tot c + sum l /\
  match (coal c l e).2 with d :: _ => e < tot (coal c l e).1 + hole_size d | [] => True end.
Proof.
  induction l as [|d l IH]; intros c e Hc Hl; cbn [coal]; [done|].
  apply Forall_cons in Hl as [Hd Hl]. unfold contig_ok in *.
  destruct (Z.leb_spec (tot c + hole_size d) e); [|done].
  destruct (IH (mkContig (hole_size c) (data_size c + tot d)) e) as (H1 & H2 & H3);
    unfold tot in *; simpl in *; try done; [lia|].
  unfold tot in *. split; [done|]. split; [lia|done].
Qed.

Lemma add_right_spec pre c l m e i :
  i = length pre -> contig_ok c -> Forall contig_ok l -> tot c + sum l < 2 ^ 64 -> 0 <= e < 2 ^ 64 ->
  exists m', add_right (pre ++ c :: l ++ empties m) i e = Ret (pre ++ absorb c l e ++ empties m') /\
    (length (absorb c l e) + m' = S (length l) + m)%nat.
Proof.
  intros Hi Hc Hl Hs He. unfold add_right, absorb.
  destruct (coalesce_spec l pre [] c m e i (i + 1)%nat (length l + m)%nat) as (k & Hk & Hle & Hco); [done|simpl; lia|done..|].
  destruct (coal_spec l c e Hc Hl) as (H1 & H2 & H3). cbn [app] in Hco.
  replace (length (pre ++ c :: l ++ empties m) - (i + 1))%nat with (length l + m)%nat.
  2:{ rewrite length_app. simpl. rewrite length_app, length_empties. lia. }
  rewrite Hco. rbind. rewrite Hk in *. cbn [fst snd] in *. set (c' := (coal c l e).1) in *.
  replace (i + 1 + k - i - 1)%nat with k by lia.
  assert (Hgl : length (grow c' (drop k l) e) = S (length l - k)).
  { unfold grow. rewrite <-length_drop. by destruct (drop k l), (_ <? _). }
  exists (m + Nat.min k (length l))%nat. split; [|rewrite Hgl; lia].
  assert (Hsh : (if (k =? 0)%nat then Ret (pre ++ c' :: l ++ empties m)
      else shift_loop (pre ++ c' :: l ++ empties m) k
        (length (pre ++ c' :: l ++ empties m) - (i + 1)) (i + 1)) =
      Ret (pre ++ c' :: drop k l ++ empties (m + Nat.min k (length l)))).
  { destruct (Nat.eqb_spec k 0) as [->|Hk0]; [by rewrite drop_0, Nat.min_0_l, Nat.add_0_r|].
    replace (pre ++ c' :: l ++ empties m) with ((pre ++ [c']) ++ l ++ empties m) by (by rewrite <-app_assoc).
    rewrite shift_spec; try done; try lia; rewrite ?length_app, ?length_empties; simpl; try lia.
    by rewrite <-app_assoc. }
  etrans; [apply (f_equal (fun x => x ≫= fun a2 => extend a2 i e) Hsh)|]. rbind.
  apply extend_spec; try done; [|lia]. by apply Forall_drop.
Qed.

(** The loop that looks for the start of the range, with what follows it. *)
Lemma add_from u : forall pre m o s,
  Forall contig_ok u -> 0 <= o -> 0 < s -> o + s < 2 ^ 64 -> sum u < 2 ^ 64 ->
  let a := pre ++ u ++ empties m in
  (st ← find_start a s (length u + m) (length pre) o; add_at a s st) =
  if (length (add_list u o s) <=? length u + m)%nat
  then Ret (pre ++ add_list u o s ++ empties (length u + m - length (add_list u o s)), Ok tt)
  else Ret (a, Err TooManyHoles).
Proof.
  induction u as [|c u IH]; intros pre m o s Hu Ho Hs Hos Hsum a.
  - subst a. cbn [length Nat.add app add_list]. destruct m as [|m]; [done|]. cbn [find_start].
    change (empties (S m)) with (contig_empty :: empties m).
    rewrite (index_mid pre) by done. rbind. cbn [has_data contig_empty data_size Z.eqb negb].
    rewrite (index_set_mid pre) by done. rbind. cbn. by rewrite Nat.sub_0_r.
  - apply Forall_cons in Hu as [Hc Hu]. pose proof (sum_nonneg u Hu). cbn [sum] in Hsum.
    unfold contig_ok, tot in Hc, Hsum. cbn [length Nat.add find_start]. subst a. cbn [app].
    rewrite (index_mid pre) by done. rbind. rewrite has_data_ok by done. cbn [negb].
    rewrite total_size_ok by (done || (unfold tot; lia)). cbn [add_list].
    destruct (Z.leb_spec o (tot c)) as [Hot|Hot]; rbind.
    + cbn [add_at]. rewrite (index_mid pre) by done. rbind. rewrite uadd_id by lia.
      destruct (Z.ltb_spec o (hole_size c)).
      * destruct (Z.ltb_spec (o + s) (hole_size c)).
        -- pose proof (add_contig_at_spec pre (c :: u) m (length pre) eq_refl) as Hac.
           cbn [app] in Hac. rewrite Hac by (first [by constructor|simpl; lia]).
           destruct m as [|m]; cbn [length].
           { rewrite (proj2 (Nat.leb_gt _ _)) by lia. done. }
           rewrite (proj2 (Nat.leb_le _ _)) by lia. rbind.
           rewrite (index_set_mid pre) by done. rbind. unfold update.
           replace (pre ++ mkContig o s :: c :: u ++ empties m)
             with ((pre ++ [mkContig o s]) ++ c :: u ++ empties m) by (by rewrite <-app_assoc).
           rewrite (index_mid (pre ++ [_])) by (rewrite length_app; simpl; lia). rbind.
           rewrite (index_set_mid (pre ++ [_])) by (rewrite length_app; simpl; lia). rbind.
           unfold shrink_hole_by. rewrite usub_id by lia. rewrite <-app_assoc. cbn [app].
           by replace (S (length u + S m) - S (S (length u)))%nat with m by lia.
        -- unfold update. rewrite (index_mid pre) by done. rbind.
           rewrite (index_set_mid pre) by done. rbind. unfold shrink_hole_to.
           rewrite total_size_ok, usub_id by (done || (unfold tot; lia)).
           destruct (add_right_spec pre (mkContig o (tot c - o)) u m (o + s) (length pre))
             as (m' & Har & Hlen); try done; [split; simpl; unfold tot; lia|unfold tot; simpl; lia|lia|].
           rewrite Har. rbind. rewrite (proj2 (Nat.leb_le _ _)) by lia.
           by replace m' with (S (length u + m) - length (absorb (mkContig o (tot c - o)) u (o + s)))%nat by lia.
      * destruct (add_right_spec pre c u m (o + s) (length pre))
          as (m' & Har & Hlen); try done; [lia|].
        rewrite Har. rbind. rewrite (proj2 (Nat.leb_le _ _)) by lia.
        by replace m' with (S (length u + m) - length (absorb c u (o + s)))%nat by lia.
    + replace (pre ++ c :: u ++ empties m) with ((pre ++ [c]) ++ u ++ empties m) by (by rewrite <-app_assoc).
      rewrite usub_id by (unfold tot in *; lia).
      replace (length pre + 1)%nat with (length (pre ++ [c])) by (rewrite length_app; simpl; lia).
      rewrite IH by (done || (unfold tot in *; lia)). cbn [length].
      replace (S (length (add_list u (o - tot c) s)) <=? S (length u + m))%nat
        with (length (add_list u (o - tot c) s) <=? length u + m)%nat by done.
      by rewrite <-!app_assoc.
Qed.

(** ** The operations *)

Lemma present_empties u m k : 0 <= k -> present (u ++ empties m) k = present u k.
Proof.
  revert k. induction u as [|c u IH]; intros k Hk; cbn [app present].
  - induction m as [|m IHm]; [done|]. change (empties (S m)) with (contig_empty :: empties m).
    cbn [present]. unfold tot. cbn [contig_empty hole_size data_size].
    rewrite (proj2 (Z.ltb_ge _ _)) by lia. by rewrite Z.sub_0_r.
  - destruct (Z.ltb_spec k (tot c)); [done|]. apply IH. lia.
Qed.

Lemma add_list_repr a u o s :
  repr a u -> 0 <= o -> 0 < s -> o + s < 2 ^ 64 -> (length (add_list u o s) <= length a)%nat ->
  repr (add_list u o s ++ empties (length a - length (add_list u o s))) (add_list u o s) /\
  sum (add_list u o s) = Z.max (sum u) (o + s).
Proof.
  intros [_ Hla [Hu Hh] Hsum] Ho Hs Hos Hl.
  destruct (add_list_use u o s Hu Hh Ho Hs) as (c & l & -> & Hok & Hholed & _ & Hs' & _).
  cbn [sum] in *. split; [|lia]. split; [by eexists| |done|cbn [sum]; lia].
  rewrite length_app, length_empties. lia.
Qed.

Lemma add_spec a u o s :
  repr a u -> 0 <= o -> 0 < s -> o + s < 2 ^ 64 ->
  add a o s =
  if (length (add_list u o s) <=? length a)%nat
  then Ret (add_list u o s ++ empties (length a - length (add_list u o s)), Ok tt)
  else Ret (a, Err TooManyHoles).
Proof.
  intros [[m ->] Hla [Hu Hh] Hsum] Ho Hs Hos. unfold add. rewrite (proj2 (Z.eqb_neq _ _)) by lia.
  rewrite length_app. pose proof (add_from u [] m o s Hu Ho Hs Hos Hsum) as H. cbn [app length] in H.
  change (replicate m contig_empty) with (empties m). rewrite length_empties. exact H.
Qed.

Lemma coal_length l : forall c e, (length (coal c l e).2 <= length l)%nat.
Proof.
  induction l as [|d l IH]; intros c e; cbn [coal]; [done|].
  destruct (_ <=? _); [|done]. specialize (IH (mkContig (hole_size c) (data_size c + tot d)) e).
  simpl. lia.
Qed.

(** The number of contigs rises only for a range that touches none. *)
Lemma add_list_rises u : forall o s,
  Forall contig_ok u -> 0 <= o -> 0 < s -> (length u < length (add_list u o s))%nat ->
  forall k, 0 <= k -> o - 1 <= k <= o + s -> present u k = false.
Proof.
  induction u as [|c u IH]; intros o s Hu Ho Hs Hl k Hk Hr; [done|].
  apply Forall_cons in Hu as [Hc Hu]. cbn [add_list present] in *. unfold contig_ok, tot in *.
  assert (Habs : forall c', contig_ok c' -> ~ (length (c :: u) < length (absorb c' u (o + s)))%nat).
  { intros c' Hc'. pose proof (coal_length u c' (o + s)) as Hcl. unfold absorb, grow.
    destruct (coal c' u (o + s)) as [c1 l1]. cbn [fst snd] in Hcl. destruct (tot c1 <? o + s), l1; simpl in *; lia. }
  destruct (Z.leb_spec o (hole_size c + data_size c)).
  - destruct (Z.ltb_spec o (hole_size c)).
    + destruct (Z.ltb_spec (o + s) (hole_size c)).
      * rewrite (proj2 (Z.ltb_lt _ _)) by lia. apply Z.leb_gt. lia.
      * exfalso. eapply Habs; [|exact Hl]. split; simpl; lia.
    + exfalso. by eapply Habs.
  - rewrite (proj2 (Z.ltb_ge _ _)) by lia. cbn [length] in Hl. apply (IH (o - (hole_size c + data_size c)) s); try done; lia.
Qed.

Lemma index_set_last {A} (pre : list A) x y i :
  i = length pre -> index_set (pre ++ [x]) i y = Ret (pre ++ [y]).
Proof. intros ->. by rewrite (index_set_mid pre) by done. Qed.

(** The loop that removes a contig moves the ones behind it by one. *)
Lemma remove_loop_spec u : forall pre c m,
  (u = [] -> c = contig_empty \/ contig_ok c) -> (u <> [] -> contig_ok c) -> Forall contig_ok u ->
  remove_loop (pre ++ c :: u ++ empties m) (length pre) (length u + m) = Ret (pre ++ u ++ empties (S m)).
Proof.
  induction u as [|d u IH]; intros pre c m Hc Hc' Hu; cbn [app length Nat.add].
  - specialize (Hc eq_refl). clear Hc' Hu. revert pre c Hc.
    induction m as [|m IHm]; intros pre c Hc; cbn [remove_loop].
    + apply index_set_last. rewrite length_app. simpl. lia.
    + rewrite (index_mid pre _ _ (length pre)) by done. rbind. destruct Hc as [->|Hc]; [done|].
      rewrite has_data_ok by done. cbn [negb].
      change (empties (S m)) with (contig_empty :: empties m).
      replace (pre ++ c :: contig_empty :: empties m) with ((pre ++ [c]) ++ contig_empty :: empties m)
        by (by rewrite <-app_assoc).
      rewrite (index_mid (pre ++ [c])) by (rewrite length_app; done). rbind.
      rewrite <-app_assoc. cbn [app]. rewrite (index_set_mid pre) by done. rbind.
      replace (length pre + 1)%nat with (length (pre ++ [contig_empty])) by (rewrite length_app; done).
      change (pre ++ contig_empty :: contig_empty :: empties m)
        with (pre ++ [contig_empty] ++ contig_empty :: empties m).
      rewrite app_assoc, IHm by (by left). by rewrite <-app_assoc.
  - clear Hc. specialize (Hc' ltac:(done)). apply Forall_cons in Hu as [Hd Hu]. cbn [remove_loop].
    rewrite (index_mid pre _ _ (length pre)) by done. rbind. rewrite has_data_ok by done. cbn [negb].
    replace (pre ++ c :: d :: u ++ empties m) with ((pre ++ [c]) ++ d :: u ++ empties m)
      by (by rewrite <-app_assoc).
    rewrite (index_mid (pre ++ [c])) by (rewrite length_app; done). rbind.
    rewrite <-app_assoc. cbn [app]. rewrite (index_set_mid pre) by done. rbind.
    replace (length pre + 1)%nat with (length (pre ++ [d])) by (rewrite length_app; done).
    change (pre ++ d :: d :: u ++ empties m) with (pre ++ [d] ++ d :: u ++ empties m).
    rewrite app_assoc, IH by auto. by rewrite <-app_assoc.
Qed.

(** The front range is given up to the first octet that is missing. *)
Lemma remove_front_spec a u :
  repr a u ->
  exists a' u' n, remove_front a = Ret (a', n) /\ repr a' u' /\ length a' = length a /\
    0 <= n /\ n + sum u' = sum u /\ present a' 0 = false /\
    (forall k, 0 <= k -> present a' k = present a (k + n)) /\
    (forall k, 0 <= k < n -> present a k = true).
Proof.
  intros [[m ->] Hla [Hu Hh] Hsum]. change (replicate m contig_empty) with (empties m) in *.
  unfold remove_front, front. destruct u as [|c u].
  - destruct m as [|m]; [simpl in Hla; lia|]. exists (empties (S m)), [], 0.
    change (index ([] ++ empties (S m)) 0) with (Ret contig_empty). rbind. cbn [app].
    split; [done|]. split; [by split; [exists (S m)| | |]|].
    do 3 (split; [done|]). split; [exact (present_empties [] (S m) 0 ltac:(lia))|]. split.
    + intros k Hk. by rewrite Z.add_0_r.
    + lia.
  - apply Forall_cons in Hu as [Hc Hu]. change (index ((c :: u) ++ empties m) 0) with (Ret c). rbind.
    rewrite has_data_ok by done. cbn [negb]. rewrite orb_false_r. unfold has_hole.
    destruct (Z.eqb_spec (hole_size c) 0) as [Hz|Hz]; cbn [negb].
    + unfold remove_contig_at. pose proof (remove_loop_spec u [] c m) as Hrl. cbn [app length] in *.
      replace (S (length (u ++ empties m)) - 1 - 0)%nat with (length u + m)%nat
        by (rewrite length_app, length_empties; lia).
      rewrite Hrl by auto. rbind. exists (u ++ empties (S m)), u, (data_size c).
      pose proof (sum_nonneg u Hu). unfold contig_ok, tot in *. cbn [sum] in Hsum.
      split; [done|]. split.
      { split; [by eexists|rewrite length_app, length_empties; lia| |unfold tot in *; lia].
        split; [done|]. destruct u; [done|]. by apply Forall_cons in Hh as [_ ?]. }
      split; [simpl; rewrite !length_app, !length_empties; lia|].
      split; [lia|]. split; [simpl; unfold tot; lia|]. split; [|split].
      * rewrite present_empties by lia. destruct u as [|d u]; [done|]. cbn in Hh.
        apply Forall_cons in Hh as [Hd _], Hu as [Hd' _]. cbn [present]. cases.
      * intros k Hk. rewrite present_empties by lia.
        change (c :: u ++ empties m) with ((c :: u) ++ empties m).
        rewrite present_empties by lia. cases.
      * intros k Hk. cbn [present]. cases.
    + exists ((c :: u) ++ empties m), (c :: u), 0.
      split; [done|]. split; [by split; [exists m| |split; [constructor|]|]|].
      split; [done|]. split; [done|]. split; [done|]. unfold contig_ok in Hc. split; [|split].
      * cbn [app present]. cases.
      * intros k Hk. by rewrite Z.add_0_r.
      * lia.
Qed.

(** An assembler in use: what every operation keeps. *)
Definition wf (a : t) : Prop := exists u, repr a u.

(** Every octet recorded is below [extent a]. *)
Definition extent (a : t) : Z := sum a.

Lemma sum_empties u m : sum (u ++ empties m) = sum u.
Proof.
  induction u as [|c u IH]; cbn [app sum]; [|by rewrite IH].
  induction m as [|m IHm]; [done|]. change (empties (S m)) with (contig_empty :: empties m).
  cbn [sum]. rewrite IHm. done.
Qed.

Lemma repr_extent a u : repr a u -> extent a = sum u.
Proof. intros [[m ->] _ _ _]. apply sum_empties. Qed.

Lemma present_extent a k : wf a -> present a k = true -> 0 <= k -> k < extent a.
Proof.
  intros (u & Hr) Hp Hk. rewrite (repr_extent _ _ Hr). destruct Hr as [[m ->] _ [Hu _] _].
  change (replicate m contig_empty) with (empties m) in Hp. rewrite present_empties in Hp by done.
  clear m. revert k Hp Hk. induction Hu as [|c u [? ?] Hu IH]; intros k Hp Hk; [done|].
  cbn [present sum] in *. pose proof (sum_nonneg u Hu).
  destruct (Z.ltb_spec k (tot c)); [lia|]. specialize (IH _ Hp). lia.
Qed.

(** What [add] does to the set of octets, and when it fails. *)
Lemma add_octets a o s :
  wf a -> 0 <= o -> 0 <= s -> o + s < 2 ^ 64 ->
  exists a' r, add a o s = Ret (a', r) /\ wf a' /\ length a' = length a /\
    match r with
    | Ok _ =>
        extent a' = Z.max (extent a) (if s =? 0 then 0 else o + s) /\
        forall k, 0 <= k -> present a' k = present a k || in_range o (o + s) k
    | Err _ =>
        a' = a /\ Forall (fun c => has_data c = true) a /\ 0 < s /\
        forall k, 0 <= k -> o - 1 <= k <= o + s -> present a k = false
    end.
Proof.
  intros (u & Hr) Ho Hs Hos. pose proof Hr as [[m Hm] Hla [Hu Hh] Hsum].
  pose proof (repr_extent _ _ Hr) as Hex. pose proof (sum_nonneg u Hu).
  change (replicate m contig_empty) with (empties m) in Hm.
  destruct (Z.eqb_spec s 0) as [->|Hs0].
  { exists a, (Ok tt). split; [done|]. split; [by exists u|]. split; [done|]. split; [lia|].
    intros k Hk. cases. }
  rewrite (add_spec a u o s) by (done || lia).
  pose proof (add_list_repr a u o s Hr Ho ltac:(lia) Hos) as Hadd.
  destruct (Nat.leb_spec (length (add_list u o s)) (length a)) as [Hle|Hgt].
  - destruct (Hadd Hle) as [Hr' Hs']. eexists _, _. split; [done|]. split; [by eexists|]. split.
    { rewrite length_app, length_empties. lia. }
    split; [by rewrite (repr_extent _ _ Hr'), Hs', Hex|].
    intros k Hk. rewrite Hm, !present_empties by done. apply add_list_present; done || lia.
  - eexists _, _. split; [done|]. split; [by exists u|]. do 2 (split; [done|]).
    destruct (add_list_use u o s Hu Hh Ho ltac:(lia)) as (c & l & He & _ & _ & _ & _ & Hl').
    assert (Hm0 : m = 0%nat /\ (length u < length (add_list u o s))%nat).
    { subst a. rewrite length_app, length_empties in Hgt. rewrite He in *. simpl in *. lia. }
    destruct Hm0 as [-> Hlt]. cbn in Hm. rewrite app_nil_r in Hm. subst a. split.
    { eapply Forall_impl; [exact Hu|]. intros d Hd. by apply has_data_ok. }
    split; [lia|]. intros k Hk Hrange. apply (add_list_rises u o s); done || lia.
Qed.

(** The octets given at the front when the front hole is only shortened. *)
Lemma early_front f a s :
  wf (f :: a) -> 0 <= s < hole_size f ->
  wf (mkContig (hole_size f - s) (data_size f) :: a) /\
  s + extent (mkContig (hole_size f - s) (data_size f) :: a) = extent (f :: a) /\
  s <= extent (f :: a) < 2 ^ 64 /\ hole_size f < 2 ^ 64 /\
  forall k, 0 <= k -> present (mkContig (hole_size f - s) (data_size f) :: a) k =
                      present (f :: a) (k + s) || in_range 0 s (k + s).
Proof.
  intros (u & Hr) Hs. pose proof (repr_extent _ _ Hr) as Hex.
  destruct Hr as [[m Hm] Hla [Hu Hh] Hsum]. destruct u as [|c u].
  { destruct m; [done|]. simplify_eq/=. lia. }
  simplify_eq/=. apply Forall_cons in Hu as [Hc Hu]. pose proof (sum_nonneg u Hu).
  unfold extent in *. cbn [sum] in *. unfold contig_ok, tot in *. cbn [hole_size data_size].
  split_and!; try lia; [|intros k Hk; cases].
  exists (mkContig (hole_size c - s) (data_size c) :: u). split; [by exists m|done| |].
  - split; [|done]. constructor; [split; simpl; lia|done].
  - cbn [sum]. unfold tot. simpl. lia.
Qed.

(** What [add_then_remove_front] does: it is refused only past the front. *)
Lemma add_then_remove_front_octets a o s :
  wf a -> 0 <= o -> 0 <= s -> o + s < 2 ^ 64 ->
  exists a' r, add_then_remove_front a o s = Ret (a', r) /\ wf a' /\ length a' = length a /\
    match r with
    | Ok n =>
        0 <= n /\ n + extent a' = Z.max (extent a) (if s =? 0 then 0 else o + s) /\
        present a' 0 = false /\
        (forall k, 0 <= k -> present a' k = present a (k + n) || in_range o (o + s) (k + n)) /\
        (forall k, 0 <= k < n -> present a k || in_range o (o + s) k = true)
    | Err _ => a' = a /\ 0 < o /\ 0 < s
    end.
Proof.
  intros Hwf Ho Hs Hos. unfold add_then_remove_front, front.
  destruct a as [|f a]; [by destruct Hwf as (u & [_ ?%Nat.lt_irrefl _ _])|].
  change (index (f :: a) 0) with (Ret f). rbind.
  destruct ((o =? 0) && (s <? hole_size f)) eqn:Hearly.
  - b2p. subst o. destruct (early_front f a s Hwf) as (Hwf' & Hex & Hs64 & Hf64 & Hp); [lia|].
    change (index_set (f :: a) 0 ?x) with (Ret (x :: a)). rbind. rewrite usub_id by lia.
    eexists _, _. split; [done|]. split; [done|]. split; [done|]. split; [done|].
    assert (present (mkContig (hole_size f - s) (data_size f) :: a) 0 = false).
    { destruct Hwf' as (u & [[m Hm] _ [Hu _] _]). destruct u as [|c u]; [destruct m; [done|]; injection Hm; lia|].
      simplify_eq/=. apply Forall_cons in Hu as [[_ Hd] _]. simpl in Hd. cases. }
    split; [destruct (s =? 0); lia|]. split; [done|]. split; [done|].
    intros k Hk. rewrite orb_comm. unfold in_range. by rewrite (proj2 (Z.leb_le _ _)), (proj2 (Z.ltb_lt _ _)) by lia.
  - destruct (add_octets (f :: a) o s Hwf Ho Hs Hos) as (a1 & r & -> & Hwf1 & Hl1 & Hr1); rbind.
    destruct r as [[]|e].
    + destruct Hr1 as [Hex1 Hp1]. pose proof Hwf1 as (u1 & Hrep1).
      destruct (remove_front_spec a1 u1 Hrep1) as (a2 & u2 & n & -> & Hr2 & Hl2 & Hn & Hsum & H0 & Hk2 & Hn2).
      rbind. eexists _, _. split; [done|]. split; [by exists u2|]. split; [congruence|].
      rewrite (repr_extent _ _ Hr2), Hsum, <-(repr_extent _ _ Hrep1).
      do 3 (split; [done|]). split.
      * intros k Hk. rewrite Hk2, Hp1; done || lia.
      * intros k Hk. rewrite <-Hp1 by lia. auto.
    + destruct Hr1 as (-> & Hd & Hs0 & Hnone). eexists _, _. split; [done|]. split; [done|]. split; [done|].
      split; [done|]. split; [|done]. destruct (Z.eqb_spec o 0) as [->|]; [|lia]. exfalso.
      cbn [andb] in Hearly. b2p. apply Forall_cons in Hd as [Hd _].
      destruct Hwf as (u & [[m Hm] _ [Hu _] _]). destruct u as [|c u].
      { destruct m; [done|]. by simplify_eq/=. }
      simplify_eq/=. apply Forall_cons in Hu as [[? ?] _]. specialize (Hnone (hole_size c)).
      revert Hnone. cases.
Qed.

Lemma assembler_new_wf n : (0 < n)%nat -> wf (new n).
Proof.
  intros Hn. exists []. split; [by exists n|unfold new; by rewrite length_replicate| |done].
  by split; constructor.
Qed.

Lemma present_new n k : 0 <= k -> present (new n) k = false.
Proof. exact (present_empties [] n k). Qed.

Lemma extent_new n : extent (new n) = 0.
Proof. exact (sum_empties [] n). Qed.

(** ** The ranges of an iterator *)

Definition covered (ranges : list (Z * Z)) (k : Z) : bool :=
  existsb (fun '(l, e) => in_range l e k) ranges.

Lemma covered_cons l e acc k : covered ((l, e) :: acc) k = in_range l e k || covered acc k.
Proof. done. Qed.

Lemma iter_empties m off left_ k :
  0 <= off -> 0 <= left_ -> off + left_ + sum [] < 2 ^ 64 ->
  covered (iter_from off left_ ([] ++ empties m)) k = false.
Proof.
  intros Hoff Hl Hsum. cbn [app sum] in *. induction m as [|m IHm]; [done|].
  change (empties (S m)) with (contig_empty :: empties m). cbn [iter_from contig_empty hole_size data_size].
  rewrite !(uadd_id left_ 0), Z.add_0_r, (uadd_id left_ 0), Z.add_0_r by lia. by rewrite Z.ltb_irrefl.
Qed.

Lemma iter_from_above u m : forall off left_ k,
  Forall contig_ok u -> 0 <= off -> 0 <= left_ -> off + left_ + sum u < 2 ^ 64 -> k < off + left_ ->
  covered (iter_from off left_ (u ++ empties m)) k = false.
Proof.
  induction u as [|c u IH]; intros off left_ k Hu Hoff Hl Hsum Hk.
  - by apply iter_empties.
  - apply Forall_cons in Hu as [Hc Hu]. pose proof (sum_nonneg u Hu). cbn [sum app iter_from] in *.
    unfold contig_ok, tot in *. rewrite !uadd_id by lia. rewrite (proj2 (Z.ltb_lt _ _)) by lia.
    rewrite covered_cons, IH by (done || lia). cases.
Qed.

Lemma iter_from_ranges u m : forall off left_ k,
  Forall contig_ok u -> 0 <= off -> 0 <= left_ -> off + left_ + sum u < 2 ^ 64 ->
  off + left_ <= k ->
  covered (iter_from off left_ (u ++ empties m)) k = present u (k - off - left_).
Proof.
  induction u as [|c u IH]; intros off left_ k Hu Hoff Hl Hsum Hk.
  - by apply iter_empties.
  - apply Forall_cons in Hu as [Hc Hu]. pose proof (sum_nonneg u Hu). cbn [sum app iter_from present] in *.
    unfold contig_ok, tot in *. rewrite !uadd_id by lia. rewrite (proj2 (Z.ltb_lt _ _)) by lia.
    rewrite covered_cons.
    destruct (Z.ltb_spec (k - off - left_) (hole_size c + data_size c)).
    + rewrite iter_from_above by (done || lia). cases.
    + rewrite IH by (done || lia). replace (in_range _ _ k) with false by cases. cbn [orb]. f_equal. lia.
Qed.

(** ** A run of segments *)

(** The segments offered one after the other, each at an offset from the end of
    what was given before: the assembler, the number of octets given, the ranges
    accepted, counted from the start, and the answers. *)
Fixpoint run (segments : list (Z * Z)) (a : t) (base : Z) (acc : list (Z * Z)) :
    outcome (t * Z * list (Z * Z) * list bool) :=
  match segments with
  | [] => Ret (a, base, acc, [])
  | (o, s) :: rest =>
      '(a', r) ← add_then_remove_front a o s;
      let '(base', acc', ok) :=
        match r with
        | Ok n => (base + n, (base + o, base + o + s) :: acc, true)
        | Err _ => (base, acc, false)
        end in
      '(a'', b'', acc'', oks) ← run rest a' base' acc';
      Ret (a'', b'', acc'', ok :: oks)
  end.

(** The assembler knows exactly what was accepted and not yet given. *)
Record knows (a : t) (base : Z) (acc : list (Z * Z)) : Prop := mkKnows {
  knows_wf : wf a;
  knows_base : 0 <= base;
  knows_given : forall k, 0 <= k < base -> covered acc k = true;
  knows_next : covered acc base = false;
  knows_ahead : forall k, 0 <= k -> present a k = covered acc (base + k)
}.

Definition segment_ok (seg : Z * Z) : Prop := 0 <= seg.1 /\ 0 <= seg.2 /\ seg.1 + seg.2 < 2 ^ 64.

Lemma knows_step a base acc o s a' n :
  knows a base acc -> 0 <= o -> 0 <= n -> wf a' ->
  present a' 0 = false ->
  (forall k, 0 <= k -> present a' k = present a (k + n) || in_range o (o + s) (k + n)) ->
  (forall k, 0 <= k < n -> present a k || in_range o (o + s) k = true) ->
  knows a' (base + n) ((base + o, base + o + s) :: acc).
Proof.
  intros [Hwf Hb Hg Hnx Ha] Ho Hn Hwf' H0 Hk Hlow.
  assert (Hin : forall k, in_range (base + o) (base + o + s) (base + k) = in_range o (o + s) k).
  { intros k. cases. }
  assert (Hpr : forall k, 0 <= k -> present a' k = covered ((base + o, base + o + s) :: acc) (base + n + k)).
  { intros k Hk0. rewrite Hk, Ha, covered_cons, <-Hin by lia. rewrite orb_comm.
    by replace (base + (k + n)) with (base + n + k) by lia. }
  split; [done|lia| | |done].
  - intros k Hk0. rewrite covered_cons. destruct (decide (k < base)).
    { rewrite Hg by lia. apply orb_true_r. }
    specialize (Hlow (k - base)). rewrite Ha in Hlow by lia. rewrite <-Hin in Hlow.
    replace (base + (k - base)) with k in Hlow by lia. rewrite orb_comm. apply Hlow. lia.
  - specialize (Hpr 0). rewrite Z.add_0_r in Hpr. rewrite <-Hpr by lia. done.
Qed.

Lemma run_knows segments : forall a base acc,
  knows a base acc -> Forall segment_ok segments ->
  exists a' base' acc' oks, run segments a base acc = Ret (a', base', acc', oks) /\
    knows a' base' acc' /\ Forall2 (fun seg ok => seg.1 = 0 -> ok = true) segments oks.
Proof.
  induction segments as [|[o s] rest IH]; intros a base acc Hk Hs.
  { eexists _, _, _, _. split; [done|]. split; [done|constructor]. }
  apply Forall_cons in Hs as [(Ho & Hsz & Hos) Hs]. cbn [run fst snd] in *.
  destruct (add_then_remove_front_octets a o s (knows_wf _ _ _ Hk) Ho Hsz Hos)
    as (a1 & r & -> & Hwf1 & _ & Hr). rbind. destruct r as [n|e].
  - destruct Hr as (Hn & _ & H0 & Hk1 & Hlow).
    destruct (IH _ _ _ (knows_step a base acc o s a1 n Hk Ho Hn Hwf1 H0 Hk1 Hlow) Hs)
      as (a2 & b2 & acc2 & oks & -> & Hk2 & Hall).
    rbind. eexists _, _, _, _. split; [done|]. split; [done|]. by constructor.
  - destruct Hr as (-> & Ho0 & _). destruct (IH _ _ _ Hk Hs) as (a2 & b2 & acc2 & oks & -> & Hk2 & Hall).
    rbind. eexists _, _, _, _. split; [done|]. split; [done|]. constructor; [simpl; lia|done].
Qed.

Lemma knows_new n : (0 < n)%nat -> knows (new n) 0 [].
Proof.
  intros Hn. split; [by apply assembler_new_wf|done|lia|done|]. intros k Hk. by apply present_new.
Qed.

(** C12: Segments offered one after the other to a new assembler are put together
    right, whatever their order and overlap: the octets given are the longest
    prefix of the stream that the accepted segments cover, the octets recorded
    ahead are exactly the accepted ones behind it, no call panics, and a segment
    at the front is always accepted. *)
Theorem assembler_gives_the_covered_prefix n segments :
  (0 < n)%nat -> Forall segment_ok segments ->
  exists a given accepted oks, run segments (new n) 0 [] = Ret (a, given, accepted, oks) /\
    (forall k, 0 <= k < given -> covered accepted k = true) /\ covered accepted given = false /\
    (forall k, 0 <= k -> present a k = covered accepted (given + k)) /\
    Forall2 (fun seg ok => seg.1 = 0 -> ok = true) segments oks.
Proof.
  intros Hn Hs. destruct (run_knows segments _ _ _ (knows_new n Hn) Hs)
    as (a & given & acc & oks & Hrun & [_ _ Hg Hnx Ha] & Hoks).
  by exists a, given, acc, oks.
Qed.

Lemma assembler_gives_the_covered_prefix_witness :
  exists a given accepted oks,
    run [(4, 4); (12, 4); (20, 4); (0, 2); (2, 6); (0, 4)] (new 2) 0 [] = Ret (a, given, accepted, oks) /\
    (forall k, 0 <= k < given -> covered accepted k = true) /\ covered accepted given = false /\
    (forall k, 0 <= k -> present a k = covered accepted (given + k)) /\
    Forall2 (fun seg ok => seg.1 = 0 -> ok = true) [(4, 4); (12, 4); (20, 4); (0, 2); (2, 6); (0, 4)] oks.
Proof.
  apply (assembler_gives_the_covered_prefix 2); [lia|].
  repeat constructor; simpl; lia.
Defined.

(** The ranges of the iterator are the octets recorded. *)
Lemma iter_data_spec a off k :
  wf a -> 0 <= off -> off + extent a < 2 ^ 64 -> off <= k ->
  covered (iter_data a off) k = present a (k - off).
Proof.
  intros (u & Hr) Hoff Hsum Hk. pose proof (repr_extent _ _ Hr) as Hex.
  destruct Hr as [[m ->] _ [Hu _] _]. change (replicate m contig_empty) with (empties m) in *.
  unfold iter_data. rewrite iter_from_ranges, present_empties by (done || lia). f_equal. lia.
Qed.

End AssemblerLaws.
