(* ===== verification/RingBuffer.v ===== *)
(** * The ring buffer of [smoltcp/src/storage/ring_buffer.rs]

    [Module RingBuffer] translates the structure and its three interfaces:
    single elements, slices at the ends, and random access.  A [&mut [T]] that
    an operation hands out is its position and size in the storage; a closure
    takes the slice and gives the slice it leaves, the number of elements it
    used and its result.  [RingBufferLaws.v] states what the operations
    promise. *)

From S2P Require Import Prelude.

Module RingBuffer.

(** Addition of [usize]. *)
Definition wadd (a b : nat) : nat := Z.to_nat (wrap 64 (Z.of_nat a + Z.of_nat b)).

(** [storage[at..at + n]] overwritten by the [n] elements [new]. *)
Definition splice {A} (at_ : nat) (new l : list A) : list A :=
  take at_ l ++ new ++ drop (at_ + length new) l.

(** [storage[at..at + n]], which panics when it is out of range. *)
Definition slice {A} (at_ n : nat) (l : list A) : outcome (list A) :=
  if (at_ + n <=? length l)%nat then Ret (take n (drop at_ l)) else Panic.

(** [struct Full] and [struct Empty] of [storage/mod.rs]. *)
Inductive Full : Type := IsFull.
Inductive Empty : Type := IsEmpty.

Section ring_buffer.
Context {T : Type}.

(** [struct RingBuffer]. *)
Record t : Type := mk { storage : list T; read_at : nat; len : nat }.

(** [RingBuffer::new], [clear], [capacity], [window], [is_empty], [is_full]. *)
Definition new (storage : list T) : t := mk storage 0 0.
Definition clear (b : t) : t := mk (storage b) 0 0.
Definition capacity (b : t) : nat := length (storage b).
Definition window (b : t) : nat := capacity b - len b.
Definition is_empty (b : t) : bool := (len b =? 0)%nat.
Definition is_full (b : t) : bool := (window b =? 0)%nat.

(** [RingBuffer::reset], with [reset] of the trait [Resettable]. *)
Definition reset (reset_elem : T -> T) (b : t) : t := mk (reset_elem <$> storage b) 0 0.

(** [RingBuffer::get_idx] and [RingBuffer::get_idx_unchecked]. *)
Definition get_idx (b : t) (idx : nat) : nat :=
  if (0 <? capacity b)%nat then wadd (read_at b) idx mod capacity b else 0.
Definition get_idx_unchecked (b : t) (idx : nat) : outcome nat :=
  if (capacity b =? 0)%nat then Panic else Ret (wadd (read_at b) idx mod capacity b).

(** [RingBuffer::contiguous_window]. *)
Definition contiguous_window (b : t) : nat :=
  Nat.min (window b) (capacity b - get_idx b (len b)).

(** ** Single elements *)

(** [RingBuffer::enqueue_one_with]. *)
Definition enqueue_one_with {R E} (f : T -> T * result R E) (b : t) :
    outcome (t * result (result R E) Full) :=
  if is_full b then Ret (b, Err IsFull)
  else
    i ← get_idx_unchecked b (len b);
    e ← index (storage b) i;
    let '(e', r) := f e in
    st' ← index_set (storage b) i e';
    Ret (mk st' (read_at b) (match r with Ok _ => len b + 1 | Err _ => len b end), Ok r).

(** [RingBuffer::dequeue_one_with]. *)
Definition dequeue_one_with {R E} (f : T -> T * result R E) (b : t) :
    outcome (t * result (result R E) Empty) :=
  if is_empty b then Ret (b, Err IsEmpty)
  else
    next_at ← get_idx_unchecked b 1;
    e ← index (storage b) (read_at b);
    let '(e', r) := f e in
    st' ← index_set (storage b) (read_at b) e';
    Ret (match r with
         | Ok _ => mk st' next_at (len b - 1)
         | Err _ => mk st' (read_at b) (len b)
         end, Ok r).

(** [RingBuffer::enqueue_one] whose caller writes [x] through the reference it
    gets, and [RingBuffer::dequeue_one] whose caller reads it. *)
Definition enqueue_one (x : T) (b : t) : outcome (t * result unit Full) :=
  '(b', r) ← enqueue_one_with (fun _ => (x, Ok tt)) b;
  Ret (b', match r with Ok r' => r' | Err e => Err e end).
Definition dequeue_one (b : t) : outcome (t * result T Empty) :=
  '(b', r) ← dequeue_one_with (fun e => (e, Ok e)) b;
  Ret (b', match r with Ok r' => r' | Err e => Err e end).

(** ** Slices at the ends *)

(** [RingBuffer::enqueue_many_with]. *)
Definition enqueue_many_with {R} (f : list T -> list T * nat * R) (b : t) : outcome (t * (nat * R)) :=
  let b := if (len b =? 0)%nat then mk (storage b) 0 (len b) else b in
  let write_at := get_idx b (len b) in
  let max_size := contiguous_window b in
  s ← slice write_at max_size (storage b);
  let '(s', size, r) := f s in
  _ ← assert_true (size <=? max_size)%nat;
  Ret (mk (splice write_at s' (storage b)) (read_at b) (len b + size), (size, r)).

(** [RingBuffer::enqueue_many] whose caller fills the slice it gets by [fill]. *)
Definition enqueue_many (fill : list T -> list T) (size : nat) (b : t) : outcome (t * nat) :=
  '(b', (n, _)) ← enqueue_many_with (fun buf =>
     let size := Nat.min size (length buf) in
     (fill (take size buf) ++ drop size buf, size, tt)) b;
  Ret (b', n).

(** The closure of [enqueue_slice]: copy what fits of [data] and give the rest. *)
Definition copy_in (data buf : list T) : list T * nat * list T :=
  let size := Nat.min (length buf) (length data) in
  (take size data ++ drop size buf, size, drop size data).

(** [RingBuffer::enqueue_slice]. *)
Definition enqueue_slice (data : list T) (b : t) : outcome (t * nat) :=
  '(b1, (size_1, rest)) ← enqueue_many_with (copy_in data) b;
  '(b2, (size_2, _)) ← enqueue_many_with (copy_in rest) b1;
  Ret (b2, size_1 + size_2).

(** [RingBuffer::dequeue_many_with]. *)
Definition dequeue_many_with {R} (f : list T -> list T * nat * R) (b : t) : outcome (t * (nat * R)) :=
  let max_size := Nat.min (len b) (capacity b - read_at b) in
  s ← slice (read_at b) max_size (storage b);
  let '(s', size, r) := f s in
  _ ← assert_true (size <=? max_size)%nat;
  let read_at' := if (0 <? capacity b)%nat then wadd (read_at b) size mod capacity b else 0 in
  Ret (mk (splice (read_at b) s' (storage b)) read_at' (len b - size), (size, r)).

(** [RingBuffer::dequeue_many]: the slice it gives. *)
Definition dequeue_many (size : nat) (b : t) : outcome (t * list T) :=
  '(b', (_, r)) ← dequeue_many_with (fun buf =>
     let size := Nat.min size (length buf) in (buf, size, take size buf)) b;
  Ret (b', r).

(** The closure of [dequeue_slice]: copy what fits into a slice of [n]
    elements, here the list of what it copied, and give the room left. *)
Definition copy_out (n : nat) (buf : list T) : list T * nat * (list T * nat) :=
  let size := Nat.min (length buf) n in (buf, size, (take size buf, n - size)).

(** [RingBuffer::dequeue_slice] into a slice of [n] elements: what it wrote
    there; its length is the size it returns. *)
Definition dequeue_slice (n : nat) (b : t) : outcome (t * list T) :=
  '(b1, (_, (out_1, n'))) ← dequeue_many_with (copy_out n) b;
  '(b2, (_, (out_2, _))) ← dequeue_many_with (copy_out n') b1;
  Ret (b2, out_1 ++ out_2).

(** ** Random access *)

(** [RingBuffer::get_unallocated]: the position and size of the slice. *)
Definition get_unallocated (offset size : nat) (b : t) : nat * nat :=
  let start_at := get_idx b (wadd (len b) offset) in
  if (window b <? offset)%nat then (0, 0)
  else
    let clamped_window := window b - offset in
    let size := if (clamped_window <? size)%nat then clamped_window else size in
    let until_end := capacity b - start_at in
    let size := if (until_end <? size)%nat then until_end else size in
    (start_at, size).

(** One block of [write_unallocated]: the slice is written with the front of
    [data]; the size of the slice. *)
Definition write_once (offset : nat) (data : list T) (b : t) : outcome (t * nat) :=
  let '(at_, n) := get_unallocated offset (length data) b in
  _ ← slice at_ n (storage b);
  Ret (mk (splice at_ (take n data) (storage b)) (read_at b) (len b), n).

(** [RingBuffer::write_unallocated]. *)
Definition write_unallocated (offset : nat) (data : list T) (b : t) : outcome (t * nat) :=
  '(b1, size_1) ← write_once offset data b;
  '(b2, size_2) ← write_once (wadd offset size_1) (drop size_1 data) b1;
  Ret (b2, size_1 + size_2).

(** [RingBuffer::enqueue_unallocated]. *)
Definition enqueue_unallocated (count : nat) (b : t) : outcome t :=
  _ ← assert_true (count <=? window b)%nat;
  Ret (mk (storage b) (read_at b) (len b + count)).

(** [RingBuffer::get_allocated]. *)
Definition get_allocated (offset size : nat) (b : t) : outcome (list T) :=
  let start_at := get_idx b offset in
  if (len b <? offset)%nat then Ret []
  else
    let clamped_length := len b - offset in
    let size := if (clamped_length <? size)%nat then clamped_length else size in
    let until_end := capacity b - start_at in
    let size := if (until_end <? size)%nat then until_end else size in
    slice start_at size (storage b).

(** [RingBuffer::read_allocated] into a slice of [n] elements: what it wrote. *)
Definition read_allocated (offset n : nat) (b : t) : outcome (list T) :=
  s1 ← get_allocated offset n b;
  s2 ← get_allocated (wadd offset (length s1)) (n - length s1) b;
  Ret (s1 ++ s2).

(** [RingBuffer::dequeue_allocated]. *)
Definition dequeue_allocated (count : nat) (b : t) : outcome t :=
  _ ← assert_true (count <=? len b)%nat;
  let b := mk (storage b) (read_at b) (len b - count) in
  Ret (mk (storage b) (get_idx b count) (len b)).

End ring_buffer.

Arguments t : clear implicits.

End RingBuffer.
