(* ===== verification/RingBufferLaws.v ===== *)
(** * What the ring buffer promises

    Seen from its read position, the storage of a ring buffer is the elements
    it holds, [contents], followed by the room it has, [room].  The laws say
    what each operation of [RingBuffer.v] does to these two lists; none of them
    mentions where the storage wraps around.  [ring_buffer_refines_queue] puts
    them together: a ring buffer is a bounded queue of bytes. *)

From S2P Require Import Prelude RingBuffer.
Import RingBuffer.

Module RingBufferLaws.

(** ** Overwriting a part of a list *)

Section splice.
Context {A : Type}.
Implicit Types l new : list A.

Lemma length_splice_ring p new l : p + length new <= length l -> length (splice p new l) = length l.
Proof. intros H. unfold splice. rewrite !length_app, length_take, length_drop. lia. Qed.

Lemma splice_app_l p new l l' :
  p + length new <= length l -> splice p new (l ++ l') = splice p new l ++ l'.
Proof.
  intros H. unfold splice. rewrite take_app_le, drop_app_le by lia. by rewrite <-!app_assoc.
Qed.

Lemma splice_app_r p new l l' :
  length l <= p -> splice p new (l ++ l') = l ++ splice (p - length l) new l'.
Proof.
  intros H. unfold splice. rewrite take_app_ge, drop_app_ge by lia. rewrite <-app_assoc.
  by replace (p + length new - length l) with (p - length l + length new) by lia.
Qed.

Lemma splice_nil_ring p l : splice p [] l = l.
Proof. unfold splice. cbn [length app]. rewrite Nat.add_0_r. apply take_drop. Qed.

Lemma splice_splice p new new' l :
  splice (p + length new) new' (splice p new l) = splice p (new ++ new') l \/ length l < p.
Proof.
  destruct (decide (length l < p)); [by right|left]. unfold splice.
  assert (Hp : length (take p l) = p) by (rewrite length_take; lia).
  rewrite (app_assoc (take p l)). rewrite take_app_length' by (rewrite length_app; lia).
  rewrite <-!app_assoc. f_equal. f_equal. f_equal. rewrite !length_app.
  rewrite (app_assoc (take p l)), drop_app_ge, drop_drop by (rewrite length_app; lia).
  f_equal. rewrite length_app. lia.
Qed.

Lemma take_splice p new l : p <= length l -> take (p + length new) (splice p new l) = take p l ++ new.
Proof.
  intros H. unfold splice. rewrite app_assoc. apply take_app_length'.
  rewrite length_app, length_take. lia.
Qed.

Lemma drop_splice_ring p new l :
  p <= length l -> drop p (splice p new l) = new ++ drop (p + length new) l.
Proof. intros H. unfold splice. apply drop_app_length'. rewrite length_take. lia. Qed.

Lemma splice_id p n l : p + n <= length l -> splice p (take n (drop p l)) l = l.
Proof.
  intros H. unfold splice. rewrite length_take, length_drop.
  replace (p + n `min` (length l - p)) with (p + n) by lia.
  rewrite <-drop_drop, (take_drop n). apply take_drop.
Qed.

Lemma drop_split p r l : p <= r -> p <= length l -> drop p l = drop p (take r l) ++ drop r l.
Proof.
  intros Hp Hl. rewrite <-(take_drop r l) at 1. rewrite drop_app_le; [done|]. rewrite length_take. lia.
Qed.

Lemma take_split r n l : r <= length l -> take (r + n) l = take r l ++ take n (drop r l).
Proof. intros Hl. rewrite <-(take_drop r l) at 1. rewrite take_app_ge; rewrite ?length_take; [|lia]. f_equal. f_equal. lia. Qed.

End splice.

(** ** A buffer seen from its read position *)

Section laws.
Context {T : Type}.
Implicit Types b : RingBuffer.t T.

Record wf b : Prop := mkWf {
  wf_len : len b <= capacity b;
  wf_read_at : read_at b < Nat.max 1 (capacity b);
  wf_capacity : (Z.of_nat (capacity b) < 2 ^ 63)%Z
}.

Definition rot b : list T := drop (read_at b) (storage b) ++ take (read_at b) (storage b).
Definition contents b : list T := take (len b) (rot b).
Definition room b : list T := drop (len b) (rot b).

Lemma wadd_id a c : (Z.of_nat (a + c) < 2 ^ 64)%Z -> wadd a c = a + c.
Proof. intros H. unfold wadd. rewrite wrap_id by (split; lia). lia. Qed.

Lemma length_rot b : wf b -> length (rot b) = capacity b.
Proof.
  intros [_ Hr _]. unfold rot, capacity in *. rewrite length_app, length_drop, length_take. lia.
Qed.

Lemma length_contents b : wf b -> length (contents b) = len b.
Proof. intros H. unfold contents. rewrite length_take, length_rot by done. pose proof (wf_len _ H). lia. Qed.

Lemma length_room b : wf b -> length (room b) = window b.
Proof. intros H. unfold room, window. by rewrite length_drop, length_rot. Qed.

(** Where the element [i] places behind the read position is stored. *)
Lemma get_idx_spec b i :
  wf b -> i <= capacity b ->
  get_idx b i = if read_at b + i <? capacity b then read_at b + i else read_at b + i - capacity b.
Proof.
  intros [_ Hr Hc] Hi. unfold get_idx. destruct (Nat.ltb_spec 0 (capacity b)) as [H0|H0].
  - rewrite wadd_id by lia. destruct (Nat.ltb_spec (read_at b + i) (capacity b)) as [H1|H1].
    + by apply Nat.mod_small.
    + replace (read_at b + i) with (read_at b + i - capacity b + 1 * capacity b) at 1 by lia.
      rewrite Nat.Div0.mod_add. apply Nat.mod_small. lia.
  - destruct (Nat.ltb_spec (read_at b + i) (capacity b)); lia.
Qed.

Lemma slice_rot b i n :
  wf b -> i + n <= capacity b -> get_idx b i + n <= capacity b ->
  slice (get_idx b i) n (storage b) = Ret (take n (drop i (rot b))).
Proof.
  intros Hwf Hi Hn. unfold slice. unfold capacity in Hn at 1. rewrite (proj2 (Nat.leb_le _ _)) by done.
  f_equal. rewrite get_idx_spec in * by (done || lia). destruct Hwf as [_ Hr _]. unfold rot, capacity in *.
  set (r := read_at b) in *. set (l := storage b) in *.
  destruct (Nat.ltb_spec (r + i) (length l)).
  - rewrite drop_app_le, take_app_le by (rewrite ?length_drop; lia). by rewrite drop_drop.
  - rewrite drop_app_ge by (rewrite length_drop; lia). rewrite length_drop.
    replace (i - (length l - r)) with (r + i - length l) by lia.
    rewrite (drop_split _ r l), take_app_le; rewrite ?length_drop, ?length_take; done || lia.
Qed.

(** Writing in the storage is writing in the rotated list. *)
Lemma rot_splice b i new n :
  wf b -> i + length new <= capacity b -> get_idx b i + length new <= capacity b ->
  rot (mk (splice (get_idx b i) new (storage b)) (read_at b) n) = splice i new (rot b).
Proof.
  intros Hwf Hi Hn. rewrite get_idx_spec in * by (done || lia). destruct Hwf as [_ Hr _].
  unfold rot, capacity in *. cbn [storage read_at]. set (r := read_at b) in *. set (l := storage b) in *.
  assert (Hlr : length (take r l) = r) by (rewrite length_take; lia).
  assert (Hld : length (drop r l) = length l - r) by (by rewrite length_drop).
  assert (Hsp : forall p, splice p new l = splice p new (take r l ++ drop r l)) by (intros p; by rewrite take_drop).
  rewrite Hsp. destruct (Nat.ltb_spec (r + i) (length l)).
  - rewrite (splice_app_r (r + i)), splice_app_l by lia. rewrite Hlr.
    rewrite drop_app_length', take_app_length' by done. by replace (r + i - r) with i by lia.
  - rewrite (splice_app_l (r + i - length l)), (splice_app_r i) by lia. rewrite Hld.
    assert (length (splice (r + i - length l) new (take r l)) = r) by (rewrite length_splice_ring; lia).
    rewrite drop_app_length', take_app_length' by done.
    by replace (i - (length l - r)) with (r + i - length l) by lia.
Qed.

(** Moving the read position rotates the list. *)
Lemma rot_get_idx b n k :
  wf b -> n <= capacity b ->
  rot (mk (storage b) (get_idx b n) k) = drop n (rot b) ++ take n (rot b).
Proof.
  intros Hwf Hi. rewrite get_idx_spec by done. destruct Hwf as [_ Hr _].
  unfold rot, capacity in *. cbn [storage read_at]. set (r := read_at b) in *. set (l := storage b) in *.
  assert (Hlr : length (take r l) = r) by (rewrite length_take; lia).
  assert (Hld : length (drop r l) = length l - r) by (by rewrite length_drop).
  destruct (Nat.ltb_spec (r + n) (length l)).
  - rewrite drop_app_le, take_app_le by lia. rewrite drop_drop, <-app_assoc. f_equal.
    apply take_split. lia.
  - rewrite drop_app_ge, take_app_ge by lia. rewrite Hld, app_assoc.
    replace (n - (length l - r)) with (r + n - length l) by lia. f_equal.
    + apply drop_split; lia.
    + rewrite take_take. f_equal. lia.
Qed.

Lemma get_idx_lt b n : wf b -> n <= capacity b -> get_idx b n < Nat.max 1 (capacity b).
Proof.
  intros Hwf Hn. rewrite get_idx_spec by done. destruct Hwf as [_ Hr _].
  destruct (Nat.ltb_spec (read_at b + n) (capacity b)); lia.
Qed.

(** ** Slices at the end *)

(** What [enqueue_many_with] does first: an empty buffer starts anew. *)
Definition normal b : RingBuffer.t T := if len b =? 0 then mk (storage b) 0 (len b) else b.

Lemma normal_wf b : wf b -> wf (normal b).
Proof.
  intros [Hl Hr Hc]. unfold normal. destruct (len b =? 0) eqn:He; [|done]. b2p.
  split; unfold capacity in *; cbn [storage read_at len]; lia.
Qed.

Lemma normal_same b :
  len (normal b) = len b /\ capacity (normal b) = capacity b /\ contents (normal b) = contents b /\
  window (normal b) = window b.
Proof.
  unfold normal, contents, window. destruct (len b =? 0) eqn:He; [|done]. b2p. by rewrite He.
Qed.

Lemma contiguous_le b : wf b ->
  len b + contiguous_window b <= capacity b /\ get_idx b (len b) + contiguous_window b <= capacity b.
Proof.
  intros Hwf. unfold contiguous_window, window. pose proof (wf_len _ Hwf).
  pose proof (get_idx_lt b (len b) Hwf ltac:(done)). lia.
Qed.

Lemma enqueue_many_with_spec {R} (f : list T -> list T * nat * R) b s' size r :
  wf b -> let b0 := normal b in
  f (take (contiguous_window b0) (room b0)) = (s', size, r) ->
  length s' = contiguous_window b0 -> size <= contiguous_window b0 ->
  exists b', enqueue_many_with f b = Ret (b', (size, r)) /\ wf b' /\ capacity b' = capacity b /\
    read_at b' = read_at b0 /\ len b' = len b + size /\
    contents b' = contents b ++ take size s' /\
    room b' = drop size s' ++ drop (contiguous_window b0) (room b0).
Proof.
  intros Hwf b0 Hf Hls Hsz. pose proof (normal_wf b Hwf) as Hwf0. fold b0 in Hwf0.
  destruct (normal_same b) as (Hl0 & Hc0 & Hcon & Hw). fold b0 in Hl0, Hc0, Hcon, Hw.
  destruct (contiguous_le b0 Hwf0) as [Hcl1 Hcl2]. unfold enqueue_many_with. fold (normal b). fold b0.
  rewrite slice_rot by done. rbind. fold (room b0). rewrite Hf. unfold assert_true.
  rewrite (proj2 (Nat.leb_le _ _)) by done. rbind. eexists. split; [done|].
  assert (Hcap : forall n, capacity (mk (splice (get_idx b0 (len b0)) s' (storage b0)) (read_at b0) n) = capacity b0).
  { intros n. unfold capacity in *. cbn [storage]. apply length_splice_ring. rewrite Hls. done. }
  assert (Hlr : length (rot b0) = capacity b0) by (by apply length_rot).
  split; [|split; [|split; [|split; [|split]]]].
  - split; rewrite Hcap; cbn [len read_at]; [lia|apply Hwf0|apply Hwf0].
  - by rewrite Hcap.
  - done.
  - cbn [len]. lia.
  - rewrite <-Hcon. unfold contents at 1. rewrite rot_splice by (done || lia). cbn [len].
    replace (len b0 + size) with (len b0 + size) by lia. unfold splice.
    rewrite take_app_ge by (rewrite length_take; lia). f_equal.
    rewrite length_take, take_app_le; [f_equal; lia|lia].
  - unfold room at 1. rewrite rot_splice by (done || lia). cbn [len]. unfold splice.
    rewrite drop_app_ge by (rewrite length_take; lia).
    rewrite length_take. replace (len b0 + size - len b0 `min` length (rot b0)) with size by lia.
    rewrite drop_app_le by lia. f_equal. unfold room. by rewrite drop_drop, Hls.
Qed.

(** Where the contiguous room is not all the room, it ends with the storage. *)
Lemma contiguous_full b : wf b -> contiguous_window b < window b -> read_at b + len b + contiguous_window b = capacity b.
Proof.
  intros Hwf. pose proof Hwf as [Hl Hr _]. unfold contiguous_window, window.
  rewrite get_idx_spec by done. destruct (Nat.ltb_spec (read_at b + len b) (capacity b)); lia.
Qed.

Lemma contiguous_wrapped b : wf b -> read_at b + len b = capacity b -> contiguous_window b = window b.
Proof.
  intros Hwf He. pose proof Hwf as [Hl Hr _]. unfold contiguous_window, window.
  rewrite get_idx_spec by done. destruct (Nat.ltb_spec (read_at b + len b) (capacity b)); lia.
Qed.

Lemma copy_in_spec data b :
  wf b ->
  exists b', enqueue_many_with (copy_in data) b =
             Ret (b', (contiguous_window (normal b) `min` length data,
                       drop (contiguous_window (normal b) `min` length data) data)) /\
    wf b' /\ capacity b' = capacity b /\ read_at b' = read_at (normal b) /\
    len b' = len b + contiguous_window (normal b) `min` length data /\
    contents b' = contents b ++ take (contiguous_window (normal b) `min` length data) data.
Proof.
  intros Hwf. set (b0 := normal b). set (cw := contiguous_window b0).
  assert (Hs : length (take cw (room b0)) = cw).
  { pose proof (normal_wf b Hwf) as Hwf0. rewrite length_take, length_room by done.
    unfold cw, contiguous_window. lia. }
  destruct (enqueue_many_with_spec (copy_in data) b (take (cw `min` length data) data ++
      drop (cw `min` length data) (take cw (room b0))) (cw `min` length data)
      (drop (cw `min` length data) data)) as (b' & Hr & Hwf' & Hc & Hra & Hl & Hcon & _); try done.
  - fold b0. fold cw. unfold copy_in. by rewrite Hs.
  - fold b0 cw. rewrite length_app, length_take, length_drop, Hs. lia.
  - fold b0 cw. lia.
  - exists b'. split; [done|]. do 4 (split; [done|]). rewrite Hcon. f_equal.
    apply take_app_length'. rewrite length_take. lia.
Qed.

(** [enqueue_slice] takes as much as there is room for. *)
Lemma enqueue_slice_spec data b :
  wf b ->
  exists b', enqueue_slice data b = Ret (b', window b `min` length data) /\ wf b' /\
    capacity b' = capacity b /\ contents b' = contents b ++ take (window b) data.
Proof.
  intros Hwf. unfold enqueue_slice.
  destruct (copy_in_spec data b Hwf) as (b1 & -> & Hwf1 & Hc1 & Hr1 & Hl1 & Hcon1). rbind.
  set (n1 := _ `min` _) in *.
  destruct (copy_in_spec (drop n1 data) b1 Hwf1) as (b2 & -> & Hwf2 & Hc2 & Hr2 & Hl2 & Hcon2). rbind.
  set (n2 := _ `min` length (drop n1 data)) in *.
  assert (Hn : n1 + n2 = window b `min` length data).
  { subst n2. rewrite length_drop. destruct (normal_same b) as (_ & Hcb & _ & Hw).
    destruct (normal_same b1) as (_ & _ & _ & Hw1).
    pose proof (normal_wf b Hwf) as Hwf0. assert (Hw1' : window b1 = window b - n1) by (unfold window; lia).
    assert (contiguous_window (normal b) <= window b) by (rewrite <-Hw; unfold contiguous_window; lia).
    assert (contiguous_window (normal b1) <= window b1) by (rewrite <-Hw1; unfold contiguous_window; lia).
    destruct (decide (length data <= n1)); [lia|].
    destruct (decide (contiguous_window (normal b) < window b)) as [Hlt|]; [|lia].
    rewrite <-Hw in Hlt. pose proof (contiguous_full _ Hwf0 Hlt) as Hfull.
    assert (Hb1 : contiguous_window (normal b1) = window b1); [|lia].
    destruct (normal_same b) as (Hlen & _). unfold normal at 1.
    destruct (len b1 =? 0) eqn:He; b2p; [|apply contiguous_wrapped; [done|lia]].
    pose proof (normal_wf b1 Hwf1) as Hx. unfold normal in Hx. rewrite (proj2 (Nat.eqb_eq _ _)) in Hx by done.
    unfold contiguous_window. rewrite get_idx_spec by (done || (cbn; lia)).
    unfold window. unfold capacity. cbn [storage read_at len]. unfold capacity in *.
    destruct (Nat.ltb_spec (0 + len b1) (length (storage b1))); lia. }
  exists b2. rewrite Hn. split; [done|]. split; [done|]. split; [lia|].
  rewrite Hcon2, Hcon1, <-app_assoc. f_equal.
  rewrite <-take_split by (subst n1; lia). rewrite Hn.
  destruct (decide (window b <= length data)); [f_equal; lia|]. rewrite !take_ge by lia. done.
Qed.

(** ** Slices at the front *)

(** Moving the read position forward drops elements and makes room. *)
Lemma advance_spec b n :
  wf b -> n <= len b ->
  let b' := mk (storage b) (get_idx b n) (len b - n) in
  wf b' /\ contents b' = drop n (contents b) /\ room b' = room b ++ take n (contents b).
Proof.
  intros Hwf Hn b'. pose proof (wf_len _ Hwf) as Hl. pose proof (length_rot b Hwf) as Hlr. split_and!.
  - split; unfold b'; cbn [len read_at]; change (capacity (mk _ _ _)) with (capacity b); [lia| |apply Hwf].
    apply get_idx_lt; [done|lia].
  - unfold contents, b'. rewrite rot_get_idx by (done || lia). cbn [len].
    rewrite take_app_le by (rewrite length_drop; lia). by rewrite skipn_firstn_comm.
  - unfold room, contents, b'. rewrite rot_get_idx by (done || lia). cbn [len].
    rewrite drop_app_le by (rewrite length_drop; lia).
    rewrite drop_drop, take_take. do 2 f_equal; lia.
Qed.

Lemma get_idx_0 b : wf b -> get_idx b 0 = read_at b.
Proof.
  intros Hwf. rewrite get_idx_spec by (done || lia). destruct Hwf as [_ Hr _].
  destruct (Nat.ltb_spec (read_at b + 0) (capacity b)); lia.
Qed.

(** The largest slice of elements at the front. *)
Definition front_window b : nat := len b `min` (capacity b - read_at b).

(** Writing in the slice at the front. *)
Lemma splice_front_spec b s' :
  wf b -> length s' <= front_window b ->
  let b' := mk (splice (read_at b) s' (storage b)) (read_at b) (len b) in
  wf b' /\ capacity b' = capacity b /\ contents b' = s' ++ drop (length s') (contents b) /\ room b' = room b.
Proof.
  intros Hwf Hs b'. pose proof Hwf as [Hl Hr Hc]. unfold front_window in Hs.
  pose proof (length_rot b Hwf) as Hlr.
  assert (Hrot : rot b' = s' ++ drop (length s') (rot b)).
  { pose proof (rot_splice b 0 s' (len b) Hwf) as Hsp. rewrite get_idx_0 in Hsp by done.
    apply Hsp; lia. }
  assert (Hcap : capacity b' = capacity b) by (apply length_splice_ring; unfold capacity in *; lia).
  split_and!; [split; rewrite Hcap; done|done| |].
  - unfold contents. rewrite Hrot. cbn [b' len]. rewrite take_app_ge by lia. f_equal.
    by rewrite skipn_firstn_comm.
  - unfold room. rewrite Hrot. cbn [b' len]. rewrite drop_app_ge by lia. rewrite drop_drop. f_equal. lia.
Qed.

Lemma dequeue_many_with_spec {R} (f : list T -> list T * nat * R) b s' size r :
  wf b -> f (take (front_window b) (contents b)) = (s', size, r) ->
  length s' = front_window b -> size <= front_window b ->
  exists b', dequeue_many_with f b = Ret (b', (size, r)) /\ wf b' /\ capacity b' = capacity b /\
    read_at b' = get_idx b size /\ len b' = len b - size /\
    contents b' = drop size (s' ++ drop (front_window b) (contents b)) /\
    room b' = room b ++ take size s'.
Proof.
  intros Hwf Hf Hls Hsz. unfold dequeue_many_with. fold (front_window b).
  pose proof Hwf as [Hl Hr Hc]. assert (Hfw : front_window b <= len b) by (unfold front_window; lia).
  pose proof (slice_rot b 0 (front_window b) Hwf) as Hsl. rewrite get_idx_0, drop_0 in Hsl by done.
  cbv zeta. rewrite Hsl by (unfold front_window; lia). rbind. replace (take (front_window b) (rot b)) with (take (front_window b) (contents b))
    by (unfold contents; rewrite take_take; f_equal; lia).
  rewrite Hf. unfold assert_true. rewrite (proj2 (Nat.leb_le _ _)) by done. rbind.
  destruct (splice_front_spec b s' Hwf ltac:(lia)) as (Hwf1 & Hc1 & Hcon1 & Hroom1).
  set (b1 := mk (splice (read_at b) s' (storage b)) (read_at b) (len b)) in *.
  destruct (advance_spec b1 size Hwf1) as (Hwf2 & Hcon2 & Hroom2); [cbn; lia|].
  assert (Hg : get_idx b1 size = if 0 <? capacity b then wadd (read_at b) size mod capacity b else 0)
    by (unfold get_idx; by rewrite Hc1).
  rewrite <-Hg. eexists. split; [done|]. change (mk _ (get_idx b1 size) _) with (mk (storage b1) (get_idx b1 size) (len b1 - size)).
  split; [done|]. split; [done|]. split; [cbn [read_at]; unfold get_idx; by rewrite Hc1|]. split; [done|].
  rewrite Hcon2, Hroom2, Hcon1, Hroom1, Hls. split; [done|]. f_equal. rewrite take_app_le by lia. done.
Qed.

Lemma copy_out_spec n b :
  wf b ->
  let k := front_window b `min` n in
  exists b', dequeue_many_with (copy_out n) b = Ret (b', (k, (take k (contents b), n - k))) /\
    wf b' /\ capacity b' = capacity b /\ read_at b' = get_idx b k /\ len b' = len b - k /\
    contents b' = drop k (contents b) /\ room b' = room b ++ take k (contents b).
Proof.
  intros Hwf k. assert (Hs : length (take (front_window b) (contents b)) = front_window b).
  { rewrite length_take, length_contents by done. unfold front_window. lia. }
  destruct (dequeue_many_with_spec (copy_out n) b (take (front_window b) (contents b)) k
      (take k (contents b), n - k)) as (b' & Hr & Hwf' & Hc & Hra & Hl & Hcon & Hroom); try done.
  - unfold copy_out. rewrite Hs. fold k. rewrite take_take. by replace (k `min` front_window b) with k by (subst k; lia).
  - subst k. lia.
  - exists b'. split; [done|]. do 4 (split; [done|]). rewrite take_drop in Hcon. split; [done|].
    rewrite take_take in Hroom. by replace (k `min` front_window b) with k in Hroom by (subst k; lia).
Qed.

(** [dequeue_slice] gives the elements at the front, as many as it can. *)
Lemma dequeue_slice_spec n b :
  wf b ->
  exists b', dequeue_slice n b = Ret (b', take n (contents b)) /\ wf b' /\
    capacity b' = capacity b /\ contents b' = drop n (contents b) /\ room b' = room b ++ take n (contents b).
Proof.
  intros Hwf. unfold dequeue_slice.
  destruct (copy_out_spec n b Hwf) as (b1 & -> & Hwf1 & Hc1 & Hr1 & Hl1 & Hcon1 & Hroom1). rbind.
  set (k1 := _ `min` n) in *.
  destruct (copy_out_spec (n - k1) b1 Hwf1) as (b2 & -> & Hwf2 & Hc2 & Hr2 & Hl2 & Hcon2 & Hroom2). rbind.
  set (k2 := _ `min` (n - k1)) in *. exists b2.
  pose proof (length_contents b Hwf) as Hlen. pose proof Hwf as [Hl Hr _].
  assert (Hk : k1 + k2 = n `min` len b).
  { subst k2. unfold front_window. destruct (decide (n <= k1)); [subst k1; unfold front_window in *; lia|].
    assert (Hk1 : k1 = front_window b) by lia. rewrite get_idx_spec in Hr1 by (subst k1; unfold front_window; lia || done).
    unfold front_window in Hk1. rewrite Hr1, Hl1, Hc1.
    destruct (Nat.ltb_spec (read_at b + k1) (capacity b)); lia. }
  assert (Hk1 : k1 <= length (contents b)) by (subst k1; unfold front_window; lia).
  assert (Htk : take k1 (contents b) ++ take k2 (contents b1) = take n (contents b)).
  { rewrite Hcon1, <-take_split, Hk by done.
    destruct (decide (n <= len b)); [f_equal; lia|]. by rewrite !take_ge by lia. }
  rewrite Htk, Hroom2, Hroom1, <-app_assoc, Htk, Hcon2, Hcon1, drop_drop, Hk.
  split; [done|]. split; [done|]. split; [lia|]. split; [|done].
  destruct (decide (n <= len b)); [f_equal; lia|]. by rewrite !drop_ge by lia.
Qed.

(** ** Random access *)

(** The elements behind [offset] up to the end of the storage. *)
Definition until_end b i : nat := capacity b - get_idx b i.

Lemma until_end_wraps b i k :
  wf b -> i + k <= capacity b -> k = until_end b i -> i + k < capacity b -> until_end b (i + k) = capacity b.
Proof.
  intros Hwf Hik Hk Hlt. unfold until_end in *. rewrite get_idx_spec in * by (done || lia).
  destruct Hwf as [_ Hr _].
  destruct (Nat.ltb_spec (read_at b + i) (capacity b)), (Nat.ltb_spec (read_at b + (i + k)) (capacity b)); lia.
Qed.

Lemma write_once_spec offset data b :
  wf b ->
  exists b', write_once offset data b =
    Ret (b', (length data `min` (window b - offset)) `min` until_end b (len b + offset)) /\
    wf b' /\ capacity b' = capacity b /\ read_at b' = read_at b /\ len b' = len b /\
    contents b' = contents b /\
    room b' = splice offset (take ((length data `min` (window b - offset)) `min` until_end b (len b + offset)) data) (room b).
Proof.
  intros Hwf. pose proof Hwf as [Hl Hr Hc]. pose proof (length_rot b Hwf) as Hlr.
  unfold write_once, get_unallocated. destruct (Nat.ltb_spec (window b) offset) as [Ho|Ho].
  { replace (window b - offset) with 0 by lia. rewrite Nat.min_0_r. cbn [Nat.min].
    unfold slice. cbn [Nat.add Nat.leb]. rbind. rewrite take_0, !splice_nil_ring. exists b. by destruct b. }
  assert (Hlo : len b + offset <= capacity b) by (unfold window in *; lia).
  rewrite wadd_id by lia. fold (until_end b (len b + offset)).
  replace (if until_end b (len b + offset) <? (if window b - offset <? length data then window b - offset else length data)
           then until_end b (len b + offset)
           else (if window b - offset <? length data then window b - offset else length data))
    with ((length data `min` (window b - offset)) `min` until_end b (len b + offset)).
  2: { destruct (Nat.ltb_spec (window b - offset) (length data));
       match goal with |- context [?x <? ?y] => destruct (Nat.ltb_spec x y) end; lia. }
  set (n := _ `min` until_end _ _). assert (Hn : length (take n data) = n) by (rewrite length_take; lia).
  assert (Hg : get_idx b (len b + offset) + n <= capacity b).
  { pose proof (get_idx_lt b (len b + offset) Hwf Hlo). unfold n, until_end, window in *. lia. }
  assert (Hon : len b + offset + n <= capacity b) by (unfold n, window in *; lia).
  rewrite slice_rot by done. rbind. eexists. split; [done|].
  assert (Hcap : capacity (mk (splice (get_idx b (len b + offset)) (take n data) (storage b)) (read_at b) (len b)) = capacity b)
    by (apply length_splice_ring; rewrite Hn; done).
  split; [split; rewrite Hcap; done|]. do 3 (split; [done|]). unfold contents, room.
  rewrite rot_splice by (rewrite ?Hn; done). cbn [len]. rewrite <-(take_drop (len b) (rot b)) at 1 3.
  assert (Hlt : length (take (len b) (rot b)) = len b) by (rewrite length_take; lia).
  rewrite splice_app_r by lia. rewrite take_app_length', drop_app_length' by done.
  split; [done|]. do 2 f_equal. lia.
Qed.

Lemma until_end_ext b b' i :
  capacity b' = capacity b -> read_at b' = read_at b -> until_end b' i = until_end b i.
Proof. intros Hc Hr. unfold until_end, get_idx. by rewrite Hc, Hr. Qed.

(** Two slices are enough: the second starts at the start of the storage. *)
Lemma two_slices b i n m :
  wf b -> i + n <= capacity b -> n <= m -> let n1 := n `min` until_end b i in
  n1 + ((m - n1) `min` (n - n1)) `min` until_end b (i + n1) = n.
Proof.
  intros Hwf Hi Hm n1. destruct (decide (n <= until_end b i)); [subst n1; lia|].
  rewrite (until_end_wraps b i n1) by (done || lia). lia.
Qed.

(** [write_unallocated] writes in the room what fits there. *)
Lemma write_unallocated_spec offset data b :
  wf b -> (Z.of_nat offset < 2 ^ 64)%Z ->
  let n := length data `min` (window b - offset) in
  exists b', write_unallocated offset data b = Ret (b', n) /\ wf b' /\ capacity b' = capacity b /\
    len b' = len b /\ contents b' = contents b /\ room b' = splice offset (take n data) (room b).
Proof.
  intros Hwf Hoff n. unfold write_unallocated. pose proof Hwf as [Hl Hr Hc].
  destruct (write_once_spec offset data b Hwf) as (b1 & -> & Hwf1 & Hc1 & Hr1 & Hl1 & Hcon1 & Hroom1). rbind.
  fold n in Hroom1 |- *. set (n1 := n `min` _) in *.
  assert (Hw : window b1 = window b) by (unfold window; lia).
  rewrite wadd_id by (unfold window in *; lia).
  destruct (write_once_spec (offset + n1) (drop n1 data) b1 Hwf1)
    as (b2 & -> & Hwf2 & Hc2 & Hr2 & Hl2 & Hcon2 & Hroom2). rbind.
  set (n2 := (_ `min` _) `min` until_end b1 _) in *. pose proof (length_room b Hwf) as Hlroom.
  assert (Hn : n1 + n2 = n).
  { subst n2. rewrite length_drop, (until_end_ext b b1), Hl1, Hw by done.
    destruct (decide (window b < offset)); [lia|].
    pose proof (two_slices b (len b + offset) n (length data) Hwf) as H2.
    cbv zeta in H2. fold n1 in H2. rewrite Nat.add_assoc.
    specialize (H2 ltac:(unfold window in *; lia) ltac:(lia)). lia. }
  exists b2. rewrite Hn. split; [done|]. split; [done|]. do 2 (split; [lia|]). split; [congruence|].
  rewrite Hroom2, Hroom1. assert (Hn1 : length (take n1 data) = n1) by (rewrite length_take; lia).
  destruct (splice_splice offset (take n1 data) (take n2 (drop n1 data)) (room b)) as [Hsp|Hbig].
  - rewrite Hn1 in Hsp. rewrite Hsp, <-take_split, Hn by lia. done.
  - replace n with 0 in * by lia. replace n1 with 0 by lia. replace n2 with 0 by lia.
    by rewrite !take_0, !splice_nil_ring.
Qed.

(** [enqueue_unallocated] takes elements of the room, and panics past it. *)
Lemma enqueue_unallocated_spec count b :
  wf b -> count <= window b ->
  exists b', enqueue_unallocated count b = Ret b' /\ wf b' /\ capacity b' = capacity b /\
    len b' = len b + count /\
    contents b' = contents b ++ take count (room b) /\ room b' = drop count (room b).
Proof.
  intros Hwf Hc. pose proof (length_rot b Hwf) as Hlr. pose proof Hwf as [Hl Hr Hcap].
  unfold enqueue_unallocated, assert_true. rewrite (proj2 (Nat.leb_le _ _)) by done. rbind.
  eexists. split; [done|]. split.
  { split; cbn [len read_at]; change (capacity (mk _ _ _)) with (capacity b); [unfold window in Hc; lia|done|done]. }
  split; [done|]. split; [done|]. unfold contents, room. cbn [len]. change (rot (mk _ _ _)) with (rot b).
  rewrite take_split by lia. by rewrite drop_drop.
Qed.

(** [get_allocated] gives elements from [offset], at least one if there is one. *)
Lemma get_allocated_spec offset size b :
  wf b ->
  get_allocated offset size b =
    Ret (take ((size `min` (len b - offset)) `min` until_end b offset) (drop offset (contents b))).
Proof.
  intros Hwf. pose proof Hwf as [Hl Hr Hc]. pose proof (length_contents b Hwf) as Hlc.
  unfold get_allocated. destruct (Nat.ltb_spec (len b) offset) as [Ho|Ho].
  { replace (len b - offset) with 0 by lia. by rewrite Nat.min_0_r. }
  fold (until_end b offset).
  replace (if until_end b offset <? (if len b - offset <? size then len b - offset else size)
           then until_end b offset else (if len b - offset <? size then len b - offset else size))
    with ((size `min` (len b - offset)) `min` until_end b offset).
  2: { destruct (Nat.ltb_spec (len b - offset) size);
       match goal with |- context [?x <? ?y] => destruct (Nat.ltb_spec x y) end; lia. }
  set (n := _ `min` until_end _ _).
  assert (Hg : get_idx b offset + n <= capacity b).
  { pose proof (get_idx_lt b offset Hwf ltac:(lia)). unfold n, until_end in *. lia. }
  rewrite slice_rot by (done || lia). f_equal. unfold contents.
  rewrite skipn_firstn_comm, take_take. f_equal. lia.
Qed.

Lemma until_end_pos b i : wf b -> i < capacity b -> 0 < until_end b i.
Proof.
  intros Hwf Hi. unfold until_end. pose proof (get_idx_lt b i Hwf ltac:(lia)). lia.
Qed.

(** [read_allocated] gives all the elements from [offset] that fit. *)
Lemma read_allocated_spec offset n b :
  wf b -> (Z.of_nat offset < 2 ^ 64)%Z ->
  read_allocated offset n b = Ret (take n (drop offset (contents b))).
Proof.
  intros Hwf Hoff. unfold read_allocated. rewrite get_allocated_spec by done. rbind.
  pose proof (length_contents b Hwf) as Hlc. pose proof Hwf as [Hl Hr Hc].
  set (n1 := _ `min` until_end _ _). assert (Hn1 : length (take n1 (drop offset (contents b))) = n1)
    by (rewrite length_take, length_drop; lia).
  rewrite Hn1, wadd_id, get_allocated_spec by (done || lia). rbind.
  set (n2 := _ `min` until_end _ _). rewrite <-drop_drop, <-take_split by (rewrite length_drop; lia).
  f_equal. assert (Hn : n1 + n2 = n `min` (len b - offset)).
  { destruct (decide (len b < offset)); [lia|].
    pose proof (two_slices b offset (n `min` (len b - offset)) n Hwf) as H2. cbv zeta in H2. fold n1 in H2.
    specialize (H2 ltac:(lia) ltac:(lia)). subst n2. lia. }
  rewrite Hn. destruct (decide (n <= len b - offset)); [f_equal; lia|].
  rewrite !take_ge; rewrite ?length_drop; done || lia.
Qed.

(** [dequeue_allocated] drops elements, and panics past them. *)
Lemma dequeue_allocated_spec count b :
  wf b -> count <= len b ->
  exists b', dequeue_allocated count b = Ret b' /\ wf b' /\ capacity b' = capacity b /\
    len b' = len b - count /\ contents b' = drop count (contents b) /\
    room b' = room b ++ take count (contents b).
Proof.
  intros Hwf Hc. destruct (advance_spec b count Hwf Hc) as (Hwf' & Hcon & Hroom).
  unfold dequeue_allocated, assert_true. rewrite (proj2 (Nat.leb_le _ _)) by done. rbind.
  eexists. split; [done|]. by split_and!.
Qed.

(** ** Single elements *)

Lemma index_slice {A} (l : list A) i x : slice i 1 l = Ret [x] -> index l i = Ret x.
Proof.
  unfold slice. destruct (_ <=? _)%nat eqn:Hb; [|done]. intros [= He]. apply index_Some.
  rewrite <-(Nat.add_0_r i), <-lookup_drop, <-(lookup_take_lt _ 1) by lia. by rewrite He.
Qed.

Lemma unwrap_lookup {A} (l : list A) i x : index l i = Ret x -> l !! i = Some x.
Proof. unfold index. by destruct (l !! i); intros [= ->]. Qed.

Lemma insert_splice {A} (l : list A) i x : i < length l -> <[i:=x]> l = splice i [x] l.
Proof.
  intros Hi. unfold splice. cbn [length]. rewrite insert_take_drop by done.
  by replace (S i) with (i + 1) by lia.
Qed.

Lemma enqueue_one_spec x b :
  wf b ->
  if decide (len b < capacity b) then
    exists b', enqueue_one x b = Ret (b', Ok tt) /\ wf b' /\ capacity b' = capacity b /\
      contents b' = contents b ++ [x]
  else enqueue_one x b = Ret (b, Err IsFull).
Proof.
  intros Hwf. pose proof Hwf as [Hl Hr Hc]. unfold enqueue_one, enqueue_one_with, is_full, window.
  case_decide as Hlt; [|by rewrite (proj2 (Nat.eqb_eq _ _)) by lia].
  rewrite (proj2 (Nat.eqb_neq _ _)) by lia. unfold get_idx_unchecked.
  rewrite (proj2 (Nat.eqb_neq _ _)) by lia. rbind.
  assert (Hg : wadd (read_at b) (len b) mod capacity b = get_idx b (len b)).
  { unfold get_idx. by rewrite (proj2 (Nat.ltb_lt _ _)) by lia. }
  rewrite Hg. pose proof (get_idx_lt b (len b) Hwf Hl) as Hgl.
  pose proof (slice_rot b (len b) 1 Hwf ltac:(lia) ltac:(lia)) as Hsl.
  pose proof (length_rot b Hwf) as Hlr. destruct (lookup_lt_is_Some_2 (rot b) (len b) ltac:(lia)) as [e He].
  rewrite (drop_S _ _ _ He) in Hsl. apply index_slice in Hsl. rewrite Hsl. rbind.
  rewrite index_set_lt by (unfold capacity in *; lia). rbind. eexists. split; [done|].
  rewrite insert_splice by (unfold capacity in *; lia).
  assert (Hcap : forall n, capacity (mk (splice (get_idx b (len b)) [x] (storage b)) (read_at b) n) = capacity b)
    by (intros n; apply length_splice_ring; cbn; unfold capacity in *; lia).
  split; [split; rewrite Hcap; cbn [len]; done || lia|]. split; [apply Hcap|].
  unfold contents. rewrite rot_splice by (cbn; unfold capacity in *; done || lia). cbn [len].
  rewrite <-(take_splice (len b) [x]) by lia. done.
Qed.

Lemma dequeue_one_spec b :
  wf b ->
  match contents b with
  | [] => dequeue_one b = Ret (b, Err IsEmpty)
  | x :: q => exists b', dequeue_one b = Ret (b', Ok x) /\ wf b' /\ capacity b' = capacity b /\
      contents b' = q
  end.
Proof.
  intros Hwf. pose proof Hwf as [Hl Hr Hc]. pose proof (length_contents b Hwf) as Hlc.
  unfold dequeue_one, dequeue_one_with, is_empty.
  destruct (contents b) as [|x q] eqn:Hcon; cbn [length] in Hlc.
  { by rewrite (proj2 (Nat.eqb_eq _ _)) by lia. }
  rewrite (proj2 (Nat.eqb_neq _ _)) by lia. unfold get_idx_unchecked.
  rewrite (proj2 (Nat.eqb_neq _ _)) by lia. rbind.
  assert (Hg : wadd (read_at b) 1 mod capacity b = get_idx b 1).
  { unfold get_idx. by rewrite (proj2 (Nat.ltb_lt _ _)) by lia. }
  rewrite Hg. pose proof (slice_rot b 0 1 Hwf ltac:(lia)) as Hsl. rewrite get_idx_0, drop_0 in Hsl by done.
  assert (Hx : take 1 (rot b) = [x]).
  { assert (Ht : take 1 (contents b) = [x]) by (rewrite Hcon; cbn; by rewrite take_0).
    unfold contents in Ht. rewrite take_take in Ht. by replace (1 `min` len b) with 1 in Ht by lia. }
  rewrite Hx in Hsl. rewrite (index_slice _ _ _ (Hsl ltac:(lia))). rbind.
  unfold capacity in Hr. rewrite index_set_lt by (unfold capacity in *; lia). rbind.
  rewrite list_insert_id by (apply unwrap_lookup, index_slice, Hsl; unfold capacity in *; lia).
  destruct (advance_spec b 1 Hwf ltac:(lia)) as (Hwf' & Hc' & _).
  eexists. split; [done|]. split; [done|]. split; [done|]. by rewrite Hc', Hcon.
Qed.

(** ** A bounded queue *)

(** The operations that see the buffer as a queue, and what they answer. *)
Inductive op : Type :=
| EnqueueOne (x : T) | DequeueOne | EnqueueSlice (data : list T) | DequeueSlice (n : nat)
| ReadAllocated (offset n : nat) | DequeueAllocated (count : nat) | Clear.
Inductive answer : Type := Refused | Count (n : nat) | Elems (l : list T).

Definition do_op (o : op) b : outcome (RingBuffer.t T * answer) :=
  match o with
  | EnqueueOne x => '(b', r) ← enqueue_one x b; Ret (b', match r with Ok _ => Count 1 | Err _ => Refused end)
  | DequeueOne => '(b', r) ← dequeue_one b; Ret (b', match r with Ok x => Elems [x] | Err _ => Refused end)
  | EnqueueSlice data => '(b', n) ← enqueue_slice data b; Ret (b', Count n)
  | DequeueSlice n => '(b', l) ← dequeue_slice n b; Ret (b', Elems l)
  | ReadAllocated offset n => l ← read_allocated offset n b; Ret (b, Elems l)
  | DequeueAllocated count => b' ← dequeue_allocated count b; Ret (b', Count count)
  | Clear => Ret (clear b, Count 0)
  end.

(** The same on a list of at most [cap] elements. *)
Definition queue_op (cap : nat) (o : op) (q : list T) : outcome (list T * answer) :=
  match o with
  | EnqueueOne x => Ret (if length q <? cap then (q ++ [x], Count 1) else (q, Refused))
  | DequeueOne => Ret (match q with [] => ([], Refused) | x :: q' => (q', Elems [x]) end)
  | EnqueueSlice data => Ret (q ++ take (cap - length q) data, Count ((cap - length q) `min` length data))
  | DequeueSlice n => Ret (drop n q, Elems (take n q))
  | ReadAllocated offset n => Ret (q, Elems (take n (drop offset q)))
  | DequeueAllocated count => if length q <? count then Panic else Ret (drop count q, Count count)
  | Clear => Ret ([], Count 0)
  end.

Fixpoint run_ops {S A} (step : op -> S -> outcome (S * A)) (os : list op) (s : S) : outcome (S * list A) :=
  match os with
  | [] => Ret (s, [])
  | o :: os' => '(s1, x) ← step o s; '(s2, xs) ← run_ops step os' s1; Ret (s2, x :: xs)
  end.

Definition op_ok (o : op) : Prop :=
  match o with ReadAllocated offset _ => (Z.of_nat offset < 2 ^ 64)%Z | _ => True end.

Lemma do_op_refines o b :
  wf b -> op_ok o ->
  match queue_op (capacity b) o (contents b) with
  | Panic => do_op o b = Panic
  | Ret (q, x) => exists b', do_op o b = Ret (b', x) /\ wf b' /\ capacity b' = capacity b /\ contents b' = q
  end.
Proof.
  intros Hwf Hok. pose proof (length_contents b Hwf) as Hlc.
  destruct o as [x| |data|n|offset n|count|]; cbn [queue_op do_op].
  - pose proof (enqueue_one_spec x b Hwf) as H. rewrite Hlc. case_decide as Hlt.
    + rewrite (proj2 (Nat.ltb_lt _ _)) by done. destruct H as (b' & -> & ?). by exists b'.
    + rewrite (proj2 (Nat.ltb_ge _ _)) by lia. rewrite H. by exists b.
  - pose proof (dequeue_one_spec b Hwf) as H. destruct (contents b) as [|x q] eqn:Hcon.
    + rewrite H. by exists b.
    + destruct H as (b' & -> & ?). by exists b'.
  - destruct (enqueue_slice_spec data b Hwf) as (b' & -> & ?). rewrite Hlc. by exists b'.
  - destruct (dequeue_slice_spec n b Hwf) as (b' & -> & ? & ? & ? & _). by exists b'.
  - rewrite read_allocated_spec by done. by exists b.
  - rewrite Hlc. destruct (Nat.ltb_spec (len b) count) as [Hlt|Hge].
    + unfold dequeue_allocated, assert_true. by rewrite (proj2 (Nat.leb_gt _ _)).
    + destruct (dequeue_allocated_spec count b Hwf Hge) as (b' & -> & ? & ? & _ & ? & _). by exists b'.
  - exists (clear b). split; [done|]. destruct Hwf as [Hl Hr Hc].
    split; [split; unfold clear; cbn [len read_at]; change (capacity (mk _ _ _)) with (capacity b); done || lia|].
    done.
Qed.

Lemma run_ops_refines os : forall b,
  wf b -> Forall op_ok os ->
  match run_ops (queue_op (capacity b)) os (contents b) with
  | Panic => run_ops do_op os b = Panic
  | Ret (q, xs) => exists b', run_ops do_op os b = Ret (b', xs) /\ contents b' = q
  end.
Proof.
  induction os as [|o os IH]; intros b Hwf Hok; cbn [run_ops]; [by exists b|].
  apply Forall_cons in Hok as [Ho Hok]. pose proof (do_op_refines o b Hwf Ho) as H.
  destruct (queue_op (capacity b) o (contents b)) as [[q x]|]; rbind; [|by rewrite H].
  destruct H as (b1 & -> & Hwf1 & Hc1 & Hcon1). rbind. specialize (IH b1 Hwf1 Hok).
  rewrite Hc1, Hcon1 in IH. destruct (run_ops _ os q) as [[q' xs]|]; rbind; [|by rewrite IH].
  destruct IH as (b2 & -> & ?). by exists b2.
Qed.

Lemma wf_new l : (Z.of_nat (length l) < 2 ^ 63)%Z -> wf (new l).
Proof. intros Hl. split; unfold capacity; cbn [new storage read_at len]; done || lia. Qed.

End laws.

(** C21: A ring buffer is a bounded queue: from a new buffer, any sequence of the
    operations that enqueue and dequeue elements and slices answers as the
    operations on a list with the capacity of the storage do, wherever the
    storage wraps around, and panics only where they do, on dequeuing more than
    there is. *)
Theorem ring_buffer_refines_queue {T} (storage : list T) os :
  (Z.of_nat (length storage) < 2 ^ 63)%Z -> Forall op_ok os ->
  match run_ops (queue_op (length storage)) os [] with
  | Panic => run_ops do_op os (new storage) = Panic
  | Ret (q, xs) => exists b, run_ops do_op os (new storage) = Ret (b, xs) /\ contents b = q
  end.
Proof. intros Hl Hok. exact (run_ops_refines os (new storage) (wf_new storage Hl) Hok). Qed.

Lemma ring_buffer_refines_queue_witness :
  exists b, run_ops do_op [EnqueueSlice [1; 2; 3]; DequeueSlice 2; EnqueueSlice [4; 5; 6; 7]; ReadAllocated 1 9; DequeueOne]
    (new [0; 0; 0; 0]) = Ret (b, [Count 3; Elems [1; 2]; Count 3; Elems [4; 5; 6]; Elems [3]]) /\
    contents b = [4; 5; 6].
Proof.
  apply (ring_buffer_refines_queue [0; 0; 0; 0]
    [EnqueueSlice [1; 2; 3]; DequeueSlice 2; EnqueueSlice [4; 5; 6; 7]; ReadAllocated 1 9; DequeueOne]).
  - done.
  - repeat constructor.
Defined.


End RingBufferLaws.
