(* ===== verification/TcpWire.v ===== *)
(** * What the TCP socket is built from

    The values that [smoltcp/src/socket/tcp.rs] works on: sequence numbers and
    segments ([wire/tcp.rs]), addresses and IP headers ([wire/ip.rs]), time
    ([time.rs]) and the random numbers of the interface ([rand.rs]).  Octets are
    integers from 0 to 255. *)

From S2P Require Import Prelude.

Local Open Scope Z_scope.

(** The value a signed [w]-bit operation that wraps around keeps. *)
Definition signed (w z : Z) : Z := (z + 2 ^ (w - 1)) mod 2 ^ w - 2 ^ (w - 1).
Definition i32 (z : Z) : Z := signed 32 z.
Definition i64 (z : Z) : Z := signed 64 z.

(** ** [time.rs] *)

Module Time.

(** [struct Instant] and [struct Duration], in microseconds. *)
Definition Instant : Type := Z.
Definition Duration : Type := Z.

(** [Instant::from_millis], [Duration::from_millis] and [Duration::from_secs]. *)
Definition instant_from_millis (millis : Z) : Instant := i64 (millis * 1000).
Definition from_millis (millis : Z) : Duration := wrap 64 (millis * 1000).
Definition from_secs (secs : Z) : Duration := wrap 64 (secs * 1000000).
Definition total_millis (d : Duration) : Z := d / 1000.

(** [Instant + Duration], [Instant - Instant], [Duration + Duration] and
    [Duration * u32]. *)
Definition add (t : Instant) (d : Duration) : Instant := i64 (t + i64 d).
Definition since (t u : Instant) : Duration := Z.abs (i64 (t - u)).
Definition plus (d e : Duration) : Duration := wrap 64 (d + e).
Definition times (d : Duration) (n : Z) : Duration := wrap 64 (d * n).

End Time.

(** ** [SeqNumber] of [wire/tcp.rs] *)

Module SeqNumber.

(** [struct SeqNumber], an [i32]. *)
Definition t : Type := Z.

(** [ops::Add<usize>], [ops::Sub<usize>] and [ops::Sub]. *)
Definition add (a : t) (n : Z) : outcome t :=
  if 2 ^ 31 - 1 <? n then Panic else Ret (i32 (a + i32 n)).
Definition sub_usize (a : t) (n : Z) : outcome t :=
  if 2 ^ 31 - 1 <? n then Panic else Ret (i32 (a - i32 n)).
Definition sub (a b : t) : outcome Z :=
  let result := i32 (a - b) in
  if result <? 0 then Panic else Ret result.

(** [cmp::PartialOrd]: the operators [<], [<=], [>] and [>=]. *)
Definition lt (a b : t) : bool := i32 (a - b) <? 0.
Definition le (a b : t) : bool := i32 (a - b) <=? 0.
Definition gt (a b : t) : bool := 0 <? i32 (a - b).
Definition ge (a b : t) : bool := 0 <=? i32 (a - b).

(** [SeqNumber::max] and [SeqNumber::min]. *)
Definition max (a b : t) : t := if gt a b then a else b.
Definition min (a b : t) : t := if lt a b then a else b.

End SeqNumber.

(** ** Segments of [wire/tcp.rs] *)

Module Tcp.

(** [enum Control]. *)
Inductive Control : Type := None_ | Psh | Syn | Fin | Rst.
#[global] Instance control_eq : EqDecision Control.
Proof. solve_decision. Defined.

(** [Control::len] and [Control::quash_psh]. *)
Definition control_len (c : Control) : Z := match c with Syn | Fin => 1 | _ => 0 end.
Definition quash_psh (c : Control) : Control := match c with Psh => None_ | _ => c end.

(** [struct Repr]. *)
Record Repr : Type := mkRepr {
  src_port : Z;
  dst_port : Z;
  control : Control;
  seq_number : SeqNumber.t;
  ack_number : option SeqNumber.t;
  window_len : Z;
  window_scale : option Z;
  max_seg_size : option Z;
  sack_permitted : bool;
  sack_ranges : list (option (Z * Z));
  payload : list Z
}.

Definition payload_len (r : Repr) : Z := Z.of_nat (length (payload r)).

(** [Repr::header_len] and [Repr::buffer_len]. *)
Definition header_len (r : Repr) : Z :=
  let length := 20 in
  let length := match max_seg_size r with Some _ => length + 4 | None => length end in
  let length := match window_scale r with Some _ => length + 3 | None => length end in
  let length := if sack_permitted r then length + 2 else length in
  let sack_range_len := foldr (fun o n => match o with Some _ => 8 | None => 0 end + n) 0 (sack_ranges r) in
  let length := if 0 <? sack_range_len then length + (sack_range_len + 2) else length in
  if length mod 4 =? 0 then length else length + (4 - length mod 4).
Definition buffer_len (r : Repr) : Z := header_len r + payload_len r.

(** [Repr::segment_len] and [Repr::is_empty]. *)
Definition segment_len (r : Repr) : Z := payload_len r + control_len (control r).
Definition is_empty (r : Repr) : bool :=
  if negb (payload_len r =? 0) then false
  else match control r with Syn | Fin | Rst => false | None_ | Psh => true end.

(** [TCP_HEADER_LEN]. *)
Definition HEADER_LEN : Z := 20.

End Tcp.

(** ** Addresses and headers of [wire/ip.rs] *)

Module Ip.

(** [enum Address], by its octets, and [enum Version]. *)
Inductive Address : Type := Ipv4 (octets : list Z) | Ipv6 (octets : list Z).
Inductive Version : Type := V4 | V6.
#[global] Instance address_eq : EqDecision Address.
Proof. solve_decision. Defined.
#[global] Instance version_eq : EqDecision Version.
Proof. solve_decision. Defined.

(** [Address::version] and [Address::is_unspecified]. *)
Definition version (a : Address) : Version := match a with Ipv4 _ => V4 | Ipv6 _ => V6 end.
Definition is_unspecified (a : Address) : bool :=
  match a with
  | Ipv4 o => match o with x :: _ => x =? 0 | [] => false end
  | Ipv6 o => forallb (Z.eqb 0) o
  end.

(** [struct Endpoint] and [struct ListenEndpoint]. *)
Record Endpoint : Type := mkEndpoint { addr : Address; port : Z }.
Record ListenEndpoint : Type := mkListen { listen_addr : option Address; listen_port : Z }.
#[global] Instance endpoint_eq : EqDecision Endpoint.
Proof. solve_decision. Defined.
#[global] Instance listen_endpoint_eq : EqDecision ListenEndpoint.
Proof. solve_decision. Defined.

(** [enum Protocol]. *)
Inductive Protocol : Type :=
| HopByHop | Icmp | Igmp | TcpProtocol | Udp | Ipv6Route | Ipv6Frag | IpSecEsp | IpSecAh | Icmpv6
| Ipv6NoNxt | Ipv6Opts | Unknown (id : Z).

(** [struct Ipv4Repr] and [struct Ipv6Repr], and [enum Repr] of the two. *)
Record VRepr : Type := mkV {
  v_src : list Z; v_dst : list Z; next_header : Protocol; v_payload_len : Z; hop_limit : Z
}.
Inductive Repr : Type := RIpv4 (r : VRepr) | RIpv6 (r : VRepr).

(** [Repr::new], which panics when the versions differ. *)
Definition new (src dst : Address) (next : Protocol) (payload_len hop : Z) : outcome Repr :=
  match src, dst with
  | Ipv4 s, Ipv4 d => Ret (RIpv4 (mkV s d next payload_len hop))
  | Ipv6 s, Ipv6 d => Ret (RIpv6 (mkV s d next payload_len hop))
  | _, _ => Panic
  end.

(** [Repr::src_addr], [dst_addr], [set_payload_len] and [header_len]. *)
Definition src_addr (r : Repr) : Address :=
  match r with RIpv4 v => Ipv4 (v_src v) | RIpv6 v => Ipv6 (v_src v) end.
Definition dst_addr (r : Repr) : Address :=
  match r with RIpv4 v => Ipv4 (v_dst v) | RIpv6 v => Ipv6 (v_dst v) end.
Definition with_payload_len (n : Z) (v : VRepr) : VRepr :=
  mkV (v_src v) (v_dst v) (next_header v) n (hop_limit v).
Definition set_payload_len (n : Z) (r : Repr) : Repr :=
  match r with RIpv4 v => RIpv4 (with_payload_len n v) | RIpv6 v => RIpv6 (with_payload_len n v) end.
Definition header_len (r : Repr) : Z := match r with RIpv4 _ => 20 | RIpv6 _ => 40 end.

End Ip.

(** ** The interface a socket is called with *)

Module Iface.

(** What the socket uses of [struct InterfaceInner]: the time of the poll, the
    largest IP packet, the state of the random numbers, and the source address
    its table of addresses has for a destination. *)
Record Context : Type := mkContext {
  now : Time.Instant;
  ip_mtu : Z;
  rand_state : Z;
  get_source_address : Ip.Address -> option Ip.Address
}.

(** [Rand::rand_u32]. *)
Definition rand_u32 (cx : Context) : Context * Z :=
  let s := wrap 64 (wrap 64 (rand_state cx * 0xbb2efcec3c39611d) + 0x7590ef39) in
  let shift := 29 - Z.shiftr s 61 in
  (mkContext (now cx) (ip_mtu cx) s (get_source_address cx), wrap 32 (Z.shiftr s shift)).

End Iface.

(** ** Arithmetic of sequence numbers *)

Lemma signed_id w z : 0 < w -> - 2 ^ (w - 1) <= z < 2 ^ (w - 1) -> signed w z = z.
Proof.
  intros Hw Hz. unfold signed. rewrite Z.mod_small; [lia|].
  replace (2 ^ w) with (2 ^ (w - 1) + 2 ^ (w - 1)); [lia|].
  replace w with (Z.succ (w - 1)) at 3 by lia. rewrite Z.pow_succ_r; lia.
Qed.

Lemma i32_id z : - 2 ^ 31 <= z < 2 ^ 31 -> i32 z = z.
Proof. intros Hz. apply signed_id; lia. Qed.

Lemma i32_mod z : exists k, i32 z = z + k * 2 ^ 32.
Proof.
  unfold i32, signed. exists (- ((z + 2 ^ (32 - 1)) / 2 ^ 32)).
  pose proof (Z.div_mod (z + 2 ^ (32 - 1)) (2 ^ 32) ltac:(lia)). lia.
Qed.

Lemma i32_range z : - 2 ^ 31 <= i32 z < 2 ^ 31.
Proof.
  unfold i32, signed. pose proof (Z.mod_pos_bound (z + 2 ^ (32 - 1)) (2 ^ 32)). lia.
Qed.

Lemma i32_add z k : i32 (z + k * 2 ^ 32) = i32 z.
Proof.
  unfold i32, signed. replace (z + k * 2 ^ 32 + 2 ^ (32 - 1)) with (z + 2 ^ (32 - 1) + k * 2 ^ 32) by lia.
  by rewrite Z_mod_plus_full.
Qed.

(** The two numbers may each be taken modulo 2^32 first. *)
Lemma i32_add_l a b : i32 (i32 a + b) = i32 (a + b).
Proof.
  destruct (i32_mod a) as [k ->]. replace (a + k * 2 ^ 32 + b) with (a + b + k * 2 ^ 32) by lia. apply i32_add.
Qed.
Lemma i32_add_r a b : i32 (a + i32 b) = i32 (a + b).
Proof. by rewrite Z.add_comm, i32_add_l, Z.add_comm. Qed.
Lemma i32_sub_l a b : i32 (i32 a - b) = i32 (a - b).
Proof. apply (i32_add_l a (- b)). Qed.
Lemma i32_sub_r a b : i32 (a - i32 b) = i32 (a - b).
Proof.
  destruct (i32_mod b) as [k ->]. replace (a - (b + k * 2 ^ 32)) with (a - b + (- k) * 2 ^ 32) by lia.
  apply i32_add.
Qed.

(** A sequence number stands for a position in a stream that starts at [base]. *)
Definition seq_at (base p : Z) : SeqNumber.t := i32 (base + p).

Lemma seq_add base p n : 0 <= n < 2 ^ 31 -> SeqNumber.add (seq_at base p) n = Ret (seq_at base (p + n)).
Proof.
  intros Hn. unfold SeqNumber.add, seq_at. rewrite (proj2 (Z.ltb_ge _ _)) by lia.
  rewrite i32_add_l, (i32_id n) by lia. do 2 f_equal. lia.
Qed.

Lemma seq_sub_usize base p n :
  0 <= n < 2 ^ 31 -> SeqNumber.sub_usize (seq_at base p) n = Ret (seq_at base (p - n)).
Proof.
  intros Hn. unfold SeqNumber.sub_usize, seq_at. rewrite (proj2 (Z.ltb_ge _ _)) by lia.
  rewrite i32_sub_l, (i32_id n) by lia. do 2 f_equal. lia.
Qed.

(** Positions less than 2^31 apart compare and subtract as they are. *)
Lemma seq_diff base p q : - 2 ^ 31 <= p - q < 2 ^ 31 -> i32 (seq_at base p - seq_at base q) = p - q.
Proof.
  intros Hd. unfold seq_at. rewrite i32_sub_l, i32_sub_r.
  replace (base + p - (base + q)) with (p - q) by lia. by apply i32_id.
Qed.

Lemma seq_sub base p q : 0 <= p - q < 2 ^ 31 -> SeqNumber.sub (seq_at base p) (seq_at base q) = Ret (p - q).
Proof.
  intros Hd. unfold SeqNumber.sub. rewrite seq_diff by lia. by rewrite (proj2 (Z.ltb_ge _ _)) by lia.
Qed.

Lemma seq_lt base p q : - 2 ^ 31 <= p - q < 2 ^ 31 -> SeqNumber.lt (seq_at base p) (seq_at base q) = (p <? q).
Proof. intros Hd. unfold SeqNumber.lt. rewrite seq_diff by done. apply eq_true_iff_eq. rewrite !Z.ltb_lt. lia. Qed.
Lemma seq_le base p q : - 2 ^ 31 <= p - q < 2 ^ 31 -> SeqNumber.le (seq_at base p) (seq_at base q) = (p <=? q).
Proof. intros Hd. unfold SeqNumber.le. rewrite seq_diff by done. apply eq_true_iff_eq. rewrite !Z.leb_le. lia. Qed.
Lemma seq_gt base p q : - 2 ^ 31 <= p - q < 2 ^ 31 -> SeqNumber.gt (seq_at base p) (seq_at base q) = (q <? p).
Proof. intros Hd. unfold SeqNumber.gt. rewrite seq_diff by done. apply eq_true_iff_eq. rewrite !Z.ltb_lt. lia. Qed.
Lemma seq_ge base p q : - 2 ^ 31 <= p - q < 2 ^ 31 -> SeqNumber.ge (seq_at base p) (seq_at base q) = (q <=? p).
Proof. intros Hd. unfold SeqNumber.ge. rewrite seq_diff by done. apply eq_true_iff_eq. rewrite !Z.leb_le. lia. Qed.

Lemma seq_eq base p q : - 2 ^ 32 < p - q < 2 ^ 32 -> (seq_at base p =? seq_at base q) = (p =? q).
Proof.
  intros Hd. apply eq_true_iff_eq. rewrite !Z.eqb_eq. split; [|by intros ->]. unfold seq_at. intros He.
  destruct (i32_mod (base + p)) as [k Hk], (i32_mod (base + q)) as [k' Hk']. nia.
Qed.

(** Any sequence number is a position. *)
Lemma seq_at_0 a : - 2 ^ 31 <= a < 2 ^ 31 -> seq_at a 0 = a.
Proof. intros Ha. unfold seq_at. rewrite Z.add_0_r. by apply i32_id. Qed.
