(* ===== verification/TcpState.v ===== *)
(** * The state of a TCP socket

    The types of [smoltcp/src/socket/tcp.rs]: the connection state, the estimate
    of the round trip time, the timers and [struct Socket], with the operations
    of the timers and of the estimate.  A call on a socket works on [Env]: the
    interface, the socket, and the wakers it has woken. *)

From S2P Require Import Prelude TcpWire Assembler RingBuffer.

Local Open Scope Z_scope.

Module TcpState.

(** [enum State]. *)
Inductive State : Type :=
| Closed | Listen | SynSent | SynReceived | Established | FinWait1 | FinWait2 | CloseWait | Closing
| LastAck | TimeWait.
#[export] Instance state_eq : EqDecision State.
Proof. solve_decision. Defined.

(** [enum ListenError], [ConnectError], [SendError] and [RecvError]. *)
Inductive OpenError : Type := InvalidState | Unaddressable.
Inductive SendError : Type := SendInvalidState.
Inductive RecvError : Type := RecvInvalidState | Finished.

(** ** The estimate of the round trip time *)

(** [struct RttEstimator], in milliseconds. *)
Record RttEstimator : Type := mkRtt {
  rtt : Z;
  deviation : Z;
  timestamp : option (Time.Instant * SeqNumber.t);
  max_seq_sent : option SeqNumber.t;
  rto_count : Z
}.

Definition RTTE_MIN_MARGIN : Z := 5.
Definition RTTE_MIN_RTO : Z := 10.
Definition RTTE_MAX_RTO : Z := 10000.

Definition rtte_default : RttEstimator := mkRtt 300 100 None None 0.

(** [RttEstimator::retransmission_timeout]. *)
Definition retransmission_timeout (r : RttEstimator) : Time.Duration :=
  let margin := Z.max RTTE_MIN_MARGIN (wrap 32 (deviation r * 4)) in
  let ms := Z.min RTTE_MAX_RTO (Z.max RTTE_MIN_RTO (wrap 32 (rtt r + margin))) in
  Time.from_millis ms.

(** [RttEstimator::sample]. *)
Definition sample (new_rtt : Z) (r : RttEstimator) : RttEstimator :=
  let rtt' := wrap 32 (rtt r * 7 + new_rtt + 7) / 8 in
  let diff := Z.abs (i32 (i32 rtt' - i32 new_rtt)) in
  mkRtt rtt' (wrap 32 (deviation r * 3 + diff + 3) / 4) (timestamp r) (max_seq_sent r) 0.

(** [RttEstimator::on_send]. *)
Definition on_send (now : Time.Instant) (seq : SeqNumber.t) (r : RttEstimator) : RttEstimator :=
  if match max_seq_sent r with Some m => SeqNumber.gt seq m | None => true end then
    mkRtt (rtt r) (deviation r)
      (match timestamp r with None => Some (now, seq) | Some x => Some x end) (Some seq) (rto_count r)
  else r.

(** [RttEstimator::on_ack]. *)
Definition on_ack (now : Time.Instant) (seq : SeqNumber.t) (r : RttEstimator) : RttEstimator :=
  match timestamp r with
  | Some (sent_timestamp, sent_seq) =>
      if SeqNumber.ge seq sent_seq then
        let r' := sample (wrap 32 (Time.total_millis (Time.since now sent_timestamp))) r in
        mkRtt (rtt r') (deviation r') None (max_seq_sent r') (rto_count r')
      else r
  | None => r
  end.

(** [RttEstimator::on_retransmit]. *)
Definition on_retransmit (r : RttEstimator) : RttEstimator :=
  let count := Z.min 255 (rto_count r + 1) in
  if 3 <=? count
  then mkRtt (Z.min RTTE_MAX_RTO (wrap 32 (rtt r * 2))) (deviation r) None (max_seq_sent r) 0
  else mkRtt (rtt r) (deviation r) None (max_seq_sent r) count.

(** ** The timers *)

(** [enum Timer] and [enum AckDelayTimer]. *)
Inductive Timer : Type :=
| Idle (keep_alive_at : option Time.Instant)
| Retransmit (expires_at : Time.Instant) (delay : Time.Duration)
| FastRetransmit
| Close (expires_at : Time.Instant).
Inductive AckDelayTimer : Type :=
| AckIdle
| Waiting (t : Time.Instant)
| Immediate.

(** [enum PollAt] of [socket/mod.rs]; its derived order is [Now], then the
    instants, then [Ingress]. *)
Inductive PollAt : Type := Now | At (t : Time.Instant) | Ingress.
Definition poll_min (p q : PollAt) : PollAt :=
  match p, q with
  | Now, _ | _, Now => Now
  | At t, At u => At (Z.min t u)
  | At t, Ingress | Ingress, At t => At t
  | Ingress, Ingress => Ingress
  end.

Definition ACK_DELAY_DEFAULT : Time.Duration := Time.from_millis 10.
Definition CLOSE_DELAY : Time.Duration := Time.from_millis 10000.

(** The methods of [Timer]. *)
Definition timer_new : Timer := Idle None.
Definition should_keep_alive (now : Time.Instant) (t : Timer) : bool :=
  match t with Idle (Some at_) => at_ <=? now | _ => false end.
Definition should_retransmit (now : Time.Instant) (t : Timer) : option Time.Duration :=
  match t with
  | Retransmit expires_at delay =>
      if expires_at <=? now then Some (Time.plus (Time.since now expires_at) delay) else None
  | FastRetransmit => Some (Time.from_millis 0)
  | _ => None
  end.
Definition should_close (now : Time.Instant) (t : Timer) : bool :=
  match t with Close expires_at => expires_at <=? now | _ => false end.
Definition timer_poll_at (t : Timer) : PollAt :=
  match t with
  | Idle (Some at_) => At at_
  | Idle None => Ingress
  | Retransmit expires_at _ => At expires_at
  | FastRetransmit => Now
  | Close expires_at => At expires_at
  end.
Definition set_for_idle (now : Time.Instant) (interval : option Time.Duration) (t : Timer) : Timer :=
  Idle (Time.add now <$> interval).
Definition timer_set_keep_alive (t : Timer) : Timer :=
  match t with Idle None => Idle (Some (Time.instant_from_millis 0)) | _ => t end.
Definition rewind_keep_alive (now : Time.Instant) (interval : option Time.Duration) (t : Timer) : Timer :=
  match t with Idle _ => Idle (Time.add now <$> interval) | _ => t end.
Definition set_for_retransmit (now : Time.Instant) (delay : Time.Duration) (t : Timer) : Timer :=
  match t with
  | Idle _ | FastRetransmit => Retransmit (Time.add now delay) delay
  | Retransmit expires_at delay' =>
      if expires_at <=? now then Retransmit (Time.add now delay') (Time.times delay' 2) else t
  | Close _ => t
  end.
Definition set_for_fast_retransmit (t : Timer) : Timer := FastRetransmit.
Definition set_for_close (now : Time.Instant) (t : Timer) : Timer := Close (Time.add now CLOSE_DELAY).
Definition is_retransmit (t : Timer) : bool :=
  match t with Retransmit _ _ | FastRetransmit => true | _ => false end.

(** ** The socket *)

(** [struct Tuple]. *)
Record Tuple : Type := mkTuple { local : Ip.Endpoint; remote : Ip.Endpoint }.

(** A [Waker], by the task it wakes. *)
Definition Waker : Type := nat.

(** [struct Socket]. *)
Record Socket : Type := mkSocket {
  state : State;
  timer : Timer;
  rtte : RttEstimator;
  assembler : Assembler.t;
  rx_buffer : RingBuffer.t Z;
  rx_fin_received : bool;
  tx_buffer : RingBuffer.t Z;
  timeout : option Time.Duration;
  keep_alive : option Time.Duration;
  hop_limit : option Z;
  listen_endpoint : Ip.ListenEndpoint;
  tuple : option Tuple;
  local_seq_no : SeqNumber.t;
  remote_seq_no : SeqNumber.t;
  remote_last_seq : SeqNumber.t;
  remote_last_ack : option SeqNumber.t;
  remote_last_win : Z;
  remote_win_shift : Z;
  remote_win_len : Z;
  remote_win_scale : option Z;
  remote_has_sack : bool;
  remote_mss : Z;
  remote_last_ts : option Time.Instant;
  local_rx_last_seq : option SeqNumber.t;
  local_rx_last_ack : option SeqNumber.t;
  local_rx_dup_acks : Z;
  ack_delay : option Time.Duration;
  ack_delay_timer : AckDelayTimer;
  challenge_ack_timer : Time.Instant;
  nagle : bool;
  rx_waker : option Waker;
  tx_waker : option Waker
}.

(** Assignments to the fields. *)
Definition set_state (v : State) (s : Socket) : Socket :=
  mkSocket
    v (timer s) (rtte s) (assembler s) (rx_buffer s) (rx_fin_received s) (tx_buffer s)
    (timeout s) (keep_alive s) (hop_limit s) (listen_endpoint s) (tuple s) (local_seq_no s)
    (remote_seq_no s) (remote_last_seq s) (remote_last_ack s) (remote_last_win s)
    (remote_win_shift s) (remote_win_len s) (remote_win_scale s) (remote_has_sack s)
    (remote_mss s) (remote_last_ts s) (local_rx_last_seq s) (local_rx_last_ack s)
    (local_rx_dup_acks s) (ack_delay s) (ack_delay_timer s) (challenge_ack_timer s) (nagle s)
    (rx_waker s) (tx_waker s).
Definition set_timer (v : Timer) (s : Socket) : Socket :=
  mkSocket
    (state s) v (rtte s) (assembler s) (rx_buffer s) (rx_fin_received s) (tx_buffer s)
    (timeout s) (keep_alive s) (hop_limit s) (listen_endpoint s) (tuple s) (local_seq_no s)
    (remote_seq_no s) (remote_last_seq s) (remote_last_ack s) (remote_last_win s)
    (remote_win_shift s) (remote_win_len s) (remote_win_scale s) (remote_has_sack s)
    (remote_mss s) (remote_last_ts s) (local_rx_last_seq s) (local_rx_last_ack s)
    (local_rx_dup_acks s) (ack_delay s) (ack_delay_timer s) (challenge_ack_timer s) (nagle s)
    (rx_waker s) (tx_waker s).
Definition set_rtte (v : RttEstimator) (s : Socket) : Socket :=
  mkSocket
    (state s) (timer s) v (assembler s) (rx_buffer s) (rx_fin_received s) (tx_buffer s)
    (timeout s) (keep_alive s) (hop_limit s) (listen_endpoint s) (tuple s) (local_seq_no s)
    (remote_seq_no s) (remote_last_seq s) (remote_last_ack s) (remote_last_win s)
    (remote_win_shift s) (remote_win_len s) (remote_win_scale s) (remote_has_sack s)
    (remote_mss s) (remote_last_ts s) (local_rx_last_seq s) (local_rx_last_ack s)
    (local_rx_dup_acks s) (ack_delay s) (ack_delay_timer s) (challenge_ack_timer s) (nagle s)
    (rx_waker s) (tx_waker s).
Definition set_assembler (v : Assembler.t) (s : Socket) : Socket :=
  mkSocket
    (state s) (timer s) (rtte s) v (rx_buffer s) (rx_fin_received s) (tx_buffer s) (timeout s)
    (keep_alive s) (hop_limit s) (listen_endpoint s) (tuple s) (local_seq_no s)
    (remote_seq_no s) (remote_last_seq s) (remote_last_ack s) (remote_last_win s)
    (remote_win_shift s) (remote_win_len s) (remote_win_scale s) (remote_has_sack s)
    (remote_mss s) (remote_last_ts s) (local_rx_last_seq s) (local_rx_last_ack s)
    (local_rx_dup_acks s) (ack_delay s) (ack_delay_timer s) (challenge_ack_timer s) (nagle s)
    (rx_waker s) (tx_waker s).
Definition set_rx_buffer (v : RingBuffer.t Z) (s : Socket) : Socket :=
  mkSocket
    (state s) (timer s) (rtte s) (assembler s) v (rx_fin_received s) (tx_buffer s) (timeout s)
    (keep_alive s) (hop_limit s) (listen_endpoint s) (tuple s) (local_seq_no s)
    (remote_seq_no s) (remote_last_seq s) (remote_last_ack s) (remote_last_win s)
    (remote_win_shift s) (remote_win_len s) (remote_win_scale s) (remote_has_sack s)
    (remote_mss s) (remote_last_ts s) (local_rx_last_seq s) (local_rx_last_ack s)
    (local_rx_dup_acks s) (ack_delay s) (ack_delay_timer s) (challenge_ack_timer s) (nagle s)
    (rx_waker s) (tx_waker s).
Definition set_rx_fin_received (v : bool) (s : Socket) : Socket :=
  mkSocket
    (state s) (timer s) (rtte s) (assembler s) (rx_buffer s) v (tx_buffer s) (timeout s)
    (keep_alive s) (hop_limit s) (listen_endpoint s) (tuple s) (local_seq_no s)
    (remote_seq_no s) (remote_last_seq s) (remote_last_ack s) (remote_last_win s)
    (remote_win_shift s) (remote_win_len s) (remote_win_scale s) (remote_has_sack s)
    (remote_mss s) (remote_last_ts s) (local_rx_last_seq s) (local_rx_last_ack s)
    (local_rx_dup_acks s) (ack_delay s) (ack_delay_timer s) (challenge_ack_timer s) (nagle s)
    (rx_waker s) (tx_waker s).
Definition set_tx_buffer (v : RingBuffer.t Z) (s : Socket) : Socket :=
  mkSocket
    (state s) (timer s) (rtte s) (assembler s) (rx_buffer s) (rx_fin_received s) v (timeout s)
    (keep_alive s) (hop_limit s) (listen_endpoint s) (tuple s) (local_seq_no s)
    (remote_seq_no s) (remote_last_seq s) (remote_last_ack s) (remote_last_win s)
    (remote_win_shift s) (remote_win_len s) (remote_win_scale s) (remote_has_sack s)
    (remote_mss s) (remote_last_ts s) (local_rx_last_seq s) (local_rx_last_ack s)
    (local_rx_dup_acks s) (ack_delay s) (ack_delay_timer s) (challenge_ack_timer s) (nagle s)
    (rx_waker s) (tx_waker s).
Definition set_timeout (v : option Time.Duration) (s : Socket) : Socket :=
  mkSocket
    (state s) (timer s) (rtte s) (assembler s) (rx_buffer s) (rx_fin_received s) (tx_buffer s) v
    (keep_alive s) (hop_limit s) (listen_endpoint s) (tuple s) (local_seq_no s)
    (remote_seq_no s) (remote_last_seq s) (remote_last_ack s) (remote_last_win s)
    (remote_win_shift s) (remote_win_len s) (remote_win_scale s) (remote_has_sack s)
    (remote_mss s) (remote_last_ts s) (local_rx_last_seq s) (local_rx_last_ack s)
    (local_rx_dup_acks s) (ack_delay s) (ack_delay_timer s) (challenge_ack_timer s) (nagle s)
    (rx_waker s) (tx_waker s).
Definition set_keep_alive (v : option Time.Duration) (s : Socket) : Socket :=
  mkSocket
    (state s) (timer s) (rtte s) (assembler s) (rx_buffer s) (rx_fin_received s) (tx_buffer s)
    (timeout s) v (hop_limit s) (listen_endpoint s) (tuple s) (local_seq_no s) (remote_seq_no s)
    (remote_last_seq s) (remote_last_ack s) (remote_last_win s) (remote_win_shift s)
    (remote_win_len s) (remote_win_scale s) (remote_has_sack s) (remote_mss s)
    (remote_last_ts s) (local_rx_last_seq s) (local_rx_last_ack s) (local_rx_dup_acks s)
    (ack_delay s) (ack_delay_timer s) (challenge_ack_timer s) (nagle s) (rx_waker s)
    (tx_waker s).
Definition set_hop_limit (v : option Z) (s : Socket) : Socket :=
  mkSocket
    (state s) (timer s) (rtte s) (assembler s) (rx_buffer s) (rx_fin_received s) (tx_buffer s)
    (timeout s) (keep_alive s) v (listen_endpoint s) (tuple s) (local_seq_no s)
    (remote_seq_no s) (remote_last_seq s) (remote_last_ack s) (remote_last_win s)
    (remote_win_shift s) (remote_win_len s) (remote_win_scale s) (remote_has_sack s)
    (remote_mss s) (remote_last_ts s) (local_rx_last_seq s) (local_rx_last_ack s)
    (local_rx_dup_acks s) (ack_delay s) (ack_delay_timer s) (challenge_ack_timer s) (nagle s)
    (rx_waker s) (tx_waker s).
Definition set_listen_endpoint (v : Ip.ListenEndpoint) (s : Socket) : Socket :=
  mkSocket
    (state s) (timer s) (rtte s) (assembler s) (rx_buffer s) (rx_fin_received s) (tx_buffer s)
    (timeout s) (keep_alive s) (hop_limit s) v (tuple s) (local_seq_no s) (remote_seq_no s)
    (remote_last_seq s) (remote_last_ack s) (remote_last_win s) (remote_win_shift s)
    (remote_win_len s) (remote_win_scale s) (remote_has_sack s) (remote_mss s)
    (remote_last_ts s) (local_rx_last_seq s) (local_rx_last_ack s) (local_rx_dup_acks s)
    (ack_delay s) (ack_delay_timer s) (challenge_ack_timer s) (nagle s) (rx_waker s)
    (tx_waker s).
Definition set_tuple (v : option Tuple) (s : Socket) : Socket :=
  mkSocket
    (state s) (timer s) (rtte s) (assembler s) (rx_buffer s) (rx_fin_received s) (tx_buffer s)
    (timeout s) (keep_alive s) (hop_limit s) (listen_endpoint s) v (local_seq_no s)
    (remote_seq_no s) (remote_last_seq s) (remote_last_ack s) (remote_last_win s)
    (remote_win_shift s) (remote_win_len s) (remote_win_scale s) (remote_has_sack s)
    (remote_mss s) (remote_last_ts s) (local_rx_last_seq s) (local_rx_last_ack s)
    (local_rx_dup_acks s) (ack_delay s) (ack_delay_timer s) (challenge_ack_timer s) (nagle s)
    (rx_waker s) (tx_waker s).
Definition set_local_seq_no (v : SeqNumber.t) (s : Socket) : Socket :=
  mkSocket
    (state s) (timer s) (rtte s) (assembler s) (rx_buffer s) (rx_fin_received s) (tx_buffer s)
    (timeout s) (keep_alive s) (hop_limit s) (listen_endpoint s) (tuple s) v (remote_seq_no s)
    (remote_last_seq s) (remote_last_ack s) (remote_last_win s) (remote_win_shift s)
    (remote_win_len s) (remote_win_scale s) (remote_has_sack s) (remote_mss s)
    (remote_last_ts s) (local_rx_last_seq s) (local_rx_last_ack s) (local_rx_dup_acks s)
    (ack_delay s) (ack_delay_timer s) (challenge_ack_timer s) (nagle s) (rx_waker s)
    (tx_waker s).
Definition set_remote_seq_no (v : SeqNumber.t) (s : Socket) : Socket :=
  mkSocket
    (state s) (timer s) (rtte s) (assembler s) (rx_buffer s) (rx_fin_received s) (tx_buffer s)
    (timeout s) (keep_alive s) (hop_limit s) (listen_endpoint s) (tuple s) (local_seq_no s) v
    (remote_last_seq s) (remote_last_ack s) (remote_last_win s) (remote_win_shift s)
    (remote_win_len s) (remote_win_scale s) (remote_has_sack s) (remote_mss s)
    (remote_last_ts s) (local_rx_last_seq s) (local_rx_last_ack s) (local_rx_dup_acks s)
    (ack_delay s) (ack_delay_timer s) (challenge_ack_timer s) (nagle s) (rx_waker s)
    (tx_waker s).
Definition set_remote_last_seq (v : SeqNumber.t) (s : Socket) : Socket :=
  mkSocket
    (state s) (timer s) (rtte s) (assembler s) (rx_buffer s) (rx_fin_received s) (tx_buffer s)
    (timeout s) (keep_alive s) (hop_limit s) (listen_endpoint s) (tuple s) (local_seq_no s)
    (remote_seq_no s) v (remote_last_ack s) (remote_last_win s) (remote_win_shift s)
    (remote_win_len s) (remote_win_scale s) (remote_has_sack s) (remote_mss s)
    (remote_last_ts s) (local_rx_last_seq s) (local_rx_last_ack s) (local_rx_dup_acks s)
    (ack_delay s) (ack_delay_timer s) (challenge_ack_timer s) (nagle s) (rx_waker s)
    (tx_waker s).
Definition set_remote_last_ack (v : option SeqNumber.t) (s : Socket) : Socket :=
  mkSocket
    (state s) (timer s) (rtte s) (assembler s) (rx_buffer s) (rx_fin_received s) (tx_buffer s)
    (timeout s) (keep_alive s) (hop_limit s) (listen_endpoint s) (tuple s) (local_seq_no s)
    (remote_seq_no s) (remote_last_seq s) v (remote_last_win s) (remote_win_shift s)
    (remote_win_len s) (remote_win_scale s) (remote_has_sack s) (remote_mss s)
    (remote_last_ts s) (local_rx_last_seq s) (local_rx_last_ack s) (local_rx_dup_acks s)
    (ack_delay s) (ack_delay_timer s) (challenge_ack_timer s) (nagle s) (rx_waker s)
    (tx_waker s).
Definition set_remote_last_win (v : Z) (s : Socket) : Socket :=
  mkSocket
    (state s) (timer s) (rtte s) (assembler s) (rx_buffer s) (rx_fin_received s) (tx_buffer s)
    (timeout s) (keep_alive s) (hop_limit s) (listen_endpoint s) (tuple s) (local_seq_no s)
    (remote_seq_no s) (remote_last_seq s) (remote_last_ack s) v (remote_win_shift s)
    (remote_win_len s) (remote_win_scale s) (remote_has_sack s) (remote_mss s)
    (remote_last_ts s) (local_rx_last_seq s) (local_rx_last_ack s) (local_rx_dup_acks s)
    (ack_delay s) (ack_delay_timer s) (challenge_ack_timer s) (nagle s) (rx_waker s)
    (tx_waker s).
Definition set_remote_win_shift (v : Z) (s : Socket) : Socket :=
  mkSocket
    (state s) (timer s) (rtte s) (assembler s) (rx_buffer s) (rx_fin_received s) (tx_buffer s)
    (timeout s) (keep_alive s) (hop_limit s) (listen_endpoint s) (tuple s) (local_seq_no s)
    (remote_seq_no s) (remote_last_seq s) (remote_last_ack s) (remote_last_win s) v
    (remote_win_len s) (remote_win_scale s) (remote_has_sack s) (remote_mss s)
    (remote_last_ts s) (local_rx_last_seq s) (local_rx_last_ack s) (local_rx_dup_acks s)
    (ack_delay s) (ack_delay_timer s) (challenge_ack_timer s) (nagle s) (rx_waker s)
    (tx_waker s).
Definition set_remote_win_len (v : Z) (s : Socket) : Socket :=
  mkSocket
    (state s) (timer s) (rtte s) (assembler s) (rx_buffer s) (rx_fin_received s) (tx_buffer s)
    (timeout s) (keep_alive s) (hop_limit s) (listen_endpoint s) (tuple s) (local_seq_no s)
    (remote_seq_no s) (remote_last_seq s) (remote_last_ack s) (remote_last_win s)
    (remote_win_shift s) v (remote_win_scale s) (remote_has_sack s) (remote_mss s)
    (remote_last_ts s) (local_rx_last_seq s) (local_rx_last_ack s) (local_rx_dup_acks s)
    (ack_delay s) (ack_delay_timer s) (challenge_ack_timer s) (nagle s) (rx_waker s)
    (tx_waker s).
Definition set_remote_win_scale (v : option Z) (s : Socket) : Socket :=
  mkSocket
    (state s) (timer s) (rtte s) (assembler s) (rx_buffer s) (rx_fin_received s) (tx_buffer s)
    (timeout s) (keep_alive s) (hop_limit s) (listen_endpoint s) (tuple s) (local_seq_no s)
    (remote_seq_no s) (remote_last_seq s) (remote_last_ack s) (remote_last_win s)
    (remote_win_shift s) (remote_win_len s) v (remote_has_sack s) (remote_mss s)
    (remote_last_ts s) (local_rx_last_seq s) (local_rx_last_ack s) (local_rx_dup_acks s)
    (ack_delay s) (ack_delay_timer s) (challenge_ack_timer s) (nagle s) (rx_waker s)
    (tx_waker s).
Definition set_remote_has_sack (v : bool) (s : Socket) : Socket :=
  mkSocket
    (state s) (timer s) (rtte s) (assembler s) (rx_buffer s) (rx_fin_received s) (tx_buffer s)
    (timeout s) (keep_alive s) (hop_limit s) (listen_endpoint s) (tuple s) (local_seq_no s)
    (remote_seq_no s) (remote_last_seq s) (remote_last_ack s) (remote_last_win s)
    (remote_win_shift s) (remote_win_len s) (remote_win_scale s) v (remote_mss s)
    (remote_last_ts s) (local_rx_last_seq s) (local_rx_last_ack s) (local_rx_dup_acks s)
    (ack_delay s) (ack_delay_timer s) (challenge_ack_timer s) (nagle s) (rx_waker s)
    (tx_waker s).
Definition set_remote_mss (v : Z) (s : Socket) : Socket :=
  mkSocket
    (state s) (timer s) (rtte s) (assembler s) (rx_buffer s) (rx_fin_received s) (tx_buffer s)
    (timeout s) (keep_alive s) (hop_limit s) (listen_endpoint s) (tuple s) (local_seq_no s)
    (remote_seq_no s) (remote_last_seq s) (remote_last_ack s) (remote_last_win s)
    (remote_win_shift s) (remote_win_len s) (remote_win_scale s) (remote_has_sack s) v
    (remote_last_ts s) (local_rx_last_seq s) (local_rx_last_ack s) (local_rx_dup_acks s)
    (ack_delay s) (ack_delay_timer s) (challenge_ack_timer s) (nagle s) (rx_waker s)
    (tx_waker s).
Definition set_remote_last_ts (v : option Time.Instant) (s : Socket) : Socket :=
  mkSocket
    (state s) (timer s) (rtte s) (assembler s) (rx_buffer s) (rx_fin_received s) (tx_buffer s)
    (timeout s) (keep_alive s) (hop_limit s) (listen_endpoint s) (tuple s) (local_seq_no s)
    (remote_seq_no s) (remote_last_seq s) (remote_last_ack s) (remote_last_win s)
    (remote_win_shift s) (remote_win_len s) (remote_win_scale s) (remote_has_sack s)
    (remote_mss s) v (local_rx_last_seq s) (local_rx_last_ack s) (local_rx_dup_acks s)
    (ack_delay s) (ack_delay_timer s) (challenge_ack_timer s) (nagle s) (rx_waker s)
    (tx_waker s).
Definition set_local_rx_last_seq (v : option SeqNumber.t) (s : Socket) : Socket :=
  mkSocket
    (state s) (timer s) (rtte s) (assembler s) (rx_buffer s) (rx_fin_received s) (tx_buffer s)
    (timeout s) (keep_alive s) (hop_limit s) (listen_endpoint s) (tuple s) (local_seq_no s)
    (remote_seq_no s) (remote_last_seq s) (remote_last_ack s) (remote_last_win s)
    (remote_win_shift s) (remote_win_len s) (remote_win_scale s) (remote_has_sack s)
    (remote_mss s) (remote_last_ts s) v (local_rx_last_ack s) (local_rx_dup_acks s)
    (ack_delay s) (ack_delay_timer s) (challenge_ack_timer s) (nagle s) (rx_waker s)
    (tx_waker s).
Definition set_local_rx_last_ack (v : option SeqNumber.t) (s : Socket) : Socket :=
  mkSocket
    (state s) (timer s) (rtte s) (assembler s) (rx_buffer s) (rx_fin_received s) (tx_buffer s)
    (timeout s) (keep_alive s) (hop_limit s) (listen_endpoint s) (tuple s) (local_seq_no s)
    (remote_seq_no s) (remote_last_seq s) (remote_last_ack s) (remote_last_win s)
    (remote_win_shift s) (remote_win_len s) (remote_win_scale s) (remote_has_sack s)
    (remote_mss s) (remote_last_ts s) (local_rx_last_seq s) v (local_rx_dup_acks s)
    (ack_delay s) (ack_delay_timer s) (challenge_ack_timer s) (nagle s) (rx_waker s)
    (tx_waker s).
Definition set_local_rx_dup_acks (v : Z) (s : Socket) : Socket :=
  mkSocket
    (state s) (timer s) (rtte s) (assembler s) (rx_buffer s) (rx_fin_received s) (tx_buffer s)
    (timeout s) (keep_alive s) (hop_limit s) (listen_endpoint s) (tuple s) (local_seq_no s)
    (remote_seq_no s) (remote_last_seq s) (remote_last_ack s) (remote_last_win s)
    (remote_win_shift s) (remote_win_len s) (remote_win_scale s) (remote_has_sack s)
    (remote_mss s) (remote_last_ts s) (local_rx_last_seq s) (local_rx_last_ack s) v
    (ack_delay s) (ack_delay_timer s) (challenge_ack_timer s) (nagle s) (rx_waker s)
    (tx_waker s).
Definition set_ack_delay (v : option Time.Duration) (s : Socket) : Socket :=
  mkSocket
    (state s) (timer s) (rtte s) (assembler s) (rx_buffer s) (rx_fin_received s) (tx_buffer s)
    (timeout s) (keep_alive s) (hop_limit s) (listen_endpoint s) (tuple s) (local_seq_no s)
    (remote_seq_no s) (remote_last_seq s) (remote_last_ack s) (remote_last_win s)
    (remote_win_shift s) (remote_win_len s) (remote_win_scale s) (remote_has_sack s)
    (remote_mss s) (remote_last_ts s) (local_rx_last_seq s) (local_rx_last_ack s)
    (local_rx_dup_acks s) v (ack_delay_timer s) (challenge_ack_timer s) (nagle s) (rx_waker s)
    (tx_waker s).
Definition set_ack_delay_timer (v : AckDelayTimer) (s : Socket) : Socket :=
  mkSocket
    (state s) (timer s) (rtte s) (assembler s) (rx_buffer s) (rx_fin_received s) (tx_buffer s)
    (timeout s) (keep_alive s) (hop_limit s) (listen_endpoint s) (tuple s) (local_seq_no s)
    (remote_seq_no s) (remote_last_seq s) (remote_last_ack s) (remote_last_win s)
    (remote_win_shift s) (remote_win_len s) (remote_win_scale s) (remote_has_sack s)
    (remote_mss s) (remote_last_ts s) (local_rx_last_seq s) (local_rx_last_ack s)
    (local_rx_dup_acks s) (ack_delay s) v (challenge_ack_timer s) (nagle s) (rx_waker s)
    (tx_waker s).
Definition set_challenge_ack_timer (v : Time.Instant) (s : Socket) : Socket :=
  mkSocket
    (state s) (timer s) (rtte s) (assembler s) (rx_buffer s) (rx_fin_received s) (tx_buffer s)
    (timeout s) (keep_alive s) (hop_limit s) (listen_endpoint s) (tuple s) (local_seq_no s)
    (remote_seq_no s) (remote_last_seq s) (remote_last_ack s) (remote_last_win s)
    (remote_win_shift s) (remote_win_len s) (remote_win_scale s) (remote_has_sack s)
    (remote_mss s) (remote_last_ts s) (local_rx_last_seq s) (local_rx_last_ack s)
    (local_rx_dup_acks s) (ack_delay s) (ack_delay_timer s) v (nagle s) (rx_waker s)
    (tx_waker s).
Definition set_nagle (v : bool) (s : Socket) : Socket :=
  mkSocket
    (state s) (timer s) (rtte s) (assembler s) (rx_buffer s) (rx_fin_received s) (tx_buffer s)
    (timeout s) (keep_alive s) (hop_limit s) (listen_endpoint s) (tuple s) (local_seq_no s)
    (remote_seq_no s) (remote_last_seq s) (remote_last_ack s) (remote_last_win s)
    (remote_win_shift s) (remote_win_len s) (remote_win_scale s) (remote_has_sack s)
    (remote_mss s) (remote_last_ts s) (local_rx_last_seq s) (local_rx_last_ack s)
    (local_rx_dup_acks s) (ack_delay s) (ack_delay_timer s) (challenge_ack_timer s) v
    (rx_waker s) (tx_waker s).
Definition set_rx_waker (v : option Waker) (s : Socket) : Socket :=
  mkSocket
    (state s) (timer s) (rtte s) (assembler s) (rx_buffer s) (rx_fin_received s) (tx_buffer s)
    (timeout s) (keep_alive s) (hop_limit s) (listen_endpoint s) (tuple s) (local_seq_no s)
    (remote_seq_no s) (remote_last_seq s) (remote_last_ack s) (remote_last_win s)
    (remote_win_shift s) (remote_win_len s) (remote_win_scale s) (remote_has_sack s)
    (remote_mss s) (remote_last_ts s) (local_rx_last_seq s) (local_rx_last_ack s)
    (local_rx_dup_acks s) (ack_delay s) (ack_delay_timer s) (challenge_ack_timer s) (nagle s) v
    (tx_waker s).
Definition set_tx_waker (v : option Waker) (s : Socket) : Socket :=
  mkSocket
    (state s) (timer s) (rtte s) (assembler s) (rx_buffer s) (rx_fin_received s) (tx_buffer s)
    (timeout s) (keep_alive s) (hop_limit s) (listen_endpoint s) (tuple s) (local_seq_no s)
    (remote_seq_no s) (remote_last_seq s) (remote_last_ack s) (remote_last_win s)
    (remote_win_shift s) (remote_win_len s) (remote_win_scale s) (remote_has_sack s)
    (remote_mss s) (remote_last_ts s) (local_rx_last_seq s) (local_rx_last_ack s)
    (local_rx_dup_acks s) (ack_delay s) (ack_delay_timer s) (challenge_ack_timer s) (nagle s)
    (rx_waker s) v.

(** Run the reads of assigned fields, and nothing else. *)
Ltac fields :=
  cbn [
    state timer rtte assembler rx_buffer rx_fin_received tx_buffer timeout keep_alive hop_limit
    listen_endpoint tuple local_seq_no remote_seq_no remote_last_seq remote_last_ack
    remote_last_win remote_win_shift remote_win_len remote_win_scale remote_has_sack remote_mss
    remote_last_ts local_rx_last_seq local_rx_last_ack local_rx_dup_acks ack_delay
    ack_delay_timer challenge_ack_timer nagle rx_waker tx_waker set_state set_timer set_rtte
    set_assembler set_rx_buffer set_rx_fin_received set_tx_buffer set_timeout set_keep_alive
    set_hop_limit set_listen_endpoint set_tuple set_local_seq_no set_remote_seq_no
    set_remote_last_seq set_remote_last_ack set_remote_last_win set_remote_win_shift
    set_remote_win_len set_remote_win_scale set_remote_has_sack set_remote_mss
    set_remote_last_ts set_local_rx_last_seq set_local_rx_last_ack set_local_rx_dup_acks
    set_ack_delay set_ack_delay_timer set_challenge_ack_timer set_nagle set_rx_waker
    set_tx_waker
  ].
Ltac fields_in H :=
  cbn [
    state timer rtte assembler rx_buffer rx_fin_received tx_buffer timeout keep_alive hop_limit
    listen_endpoint tuple local_seq_no remote_seq_no remote_last_seq remote_last_ack
    remote_last_win remote_win_shift remote_win_len remote_win_scale remote_has_sack remote_mss
    remote_last_ts local_rx_last_seq local_rx_last_ack local_rx_dup_acks ack_delay
    ack_delay_timer challenge_ack_timer nagle rx_waker tx_waker set_state set_timer set_rtte
    set_assembler set_rx_buffer set_rx_fin_received set_tx_buffer set_timeout set_keep_alive
    set_hop_limit set_listen_endpoint set_tuple set_local_seq_no set_remote_seq_no
    set_remote_last_seq set_remote_last_ack set_remote_last_win set_remote_win_shift
    set_remote_win_len set_remote_win_scale set_remote_has_sack set_remote_mss
    set_remote_last_ts set_local_rx_last_seq set_local_rx_last_ack set_local_rx_dup_acks
    set_ack_delay set_ack_delay_timer set_challenge_ack_timer set_nagle set_rx_waker
    set_tx_waker
  ] in H.

(** ** Calls on a socket *)

(** What a call sees: the interface, the socket, and the wakers woken so far. *)
Record Env : Type := mkEnv { cx : Iface.Context; self : Socket; woken : list Waker }.

(** A part of a call either returns from the call or goes on. *)
Inductive flow (R A : Type) : Type :=
| Return (r : R)
| Next (a : A).
Arguments Return {R A} r.
Arguments Next {R A} a.

Definition proc (R A : Type) : Type := Env -> outcome (Env * flow R A).

#[export] Instance proc_ret {R} : MRet (proc R) := fun A a e => Ret (e, Next a).
#[export] Instance proc_bind {R} : MBind (proc R) := fun A B f m e =>
  match m e with
  | Ret (e', Next a) => f a e'
  | Ret (e', Return r) => Ret (e', Return r)
  | Panic => Panic
  end.

(** [return r], reading and assigning, and calls that touch no socket. *)
Definition return_ {R A} (r : R) : proc R A := fun e => Ret (e, Return r).
Definition get {R A} (f : Socket -> A) : proc R A := fun e => Ret (e, Next (f (self e))).
Definition context {R} : proc R Iface.Context := fun e => Ret (e, Next (cx e)).
Definition upd {R} (f : Socket -> Socket) : proc R unit :=
  fun e => Ret (mkEnv (cx e) (f (self e)) (woken e), Next tt).
Definition do {R A} (m : outcome A) : proc R A :=
  fun e => a ← m; Ret (e, Next a).
Definition try_upd {R} (f : Socket -> outcome Socket) : proc R unit :=
  fun e => s ← f (self e); Ret (mkEnv (cx e) s (woken e), Next tt).

(** A call whose last part gives its value. *)
Definition run {R} (m : proc R R) (e : Env) : outcome (Env * R) :=
  '(e', r) ← m e; Ret (e', match r with Return r => r | Next r => r end).

(** [WakerRegistration::register] and [WakerRegistration::wake]. *)
Definition register_recv_waker (w : Waker) (s : Socket) : Socket := set_rx_waker (Some w) s.
Definition register_send_waker (w : Waker) (s : Socket) : Socket := set_tx_waker (Some w) s.
Definition wake_rx {R} : proc R unit := fun e =>
  Ret (mkEnv (cx e) (set_rx_waker None (self e)) (woken e ++ option_list (rx_waker (self e))), Next tt).
Definition wake_tx {R} : proc R unit := fun e =>
  Ret (mkEnv (cx e) (set_tx_waker None (self e)) (woken e ++ option_list (tx_waker (self e))), Next tt).

(** [Socket::set_state]. *)
Definition enter {R} (st : State) : proc R unit :=
  upd (set_state st);; wake_rx;; wake_tx.

End TcpState.
