(* ===== verification/TcpSocket.v ===== *)
(** * The interface of a TCP socket to its user

    The methods of [smoltcp/src/socket/tcp.rs] that an application calls:
    creating a socket, its settings, [listen], [connect], [close] and [abort],
    the questions on its state, and sending and receiving octets. *)

From S2P Require Import Prelude TcpWire Assembler RingBuffer TcpState.
Import TcpState.

Local Open Scope Z_scope.

Module TcpSocket.

Definition DEFAULT_MSS : Z := 536.

(** [mem::size_of::<usize>() * 8 - capacity.leading_zeros()]: the bits of a number. *)
Definition bit_length (n : Z) : Z := if n =? 0 then 0 else Z.log2 n + 1.

(** The largest shift that lets the window field hold the receive buffer. *)
Definition win_shift (b : RingBuffer.t Z) : Z :=
  Z.max 0 (bit_length (Z.of_nat (RingBuffer.capacity b)) - 16).

(** [Socket::new]; [max_segments] is [ASSEMBLER_MAX_SEGMENT_COUNT], which the
    build sets. *)
Definition new (max_segments : nat) (rx tx : RingBuffer.t Z) : outcome Socket :=
  if 2 ^ 30 <? Z.of_nat (RingBuffer.capacity rx) then Panic
  else Ret (mkSocket Closed timer_new rtte_default (Assembler.new max_segments) rx false tx None None None
              (Ip.mkListen None 0) None 0 0 0 None 0 (win_shift rx) 0 None false DEFAULT_MSS None None None 0
              (Some ACK_DELAY_DEFAULT) AckIdle 0 true None None).

(** ** Settings *)

(** [Socket::set_keep_alive] and [Socket::set_hop_limit]; [set_timeout],
    [set_ack_delay] and [set_nagle_enabled] assign their field. *)
Definition set_keep_alive_interval (interval : option Time.Duration) (s : Socket) : Socket :=
  let s := set_keep_alive interval s in
  match interval with
  | Some _ => set_timer (timer_set_keep_alive (timer s)) s
  | None => s
  end.
Definition set_hop_limit_checked (h : option Z) (s : Socket) : outcome Socket :=
  match h with Some 0 => Panic | _ => Ret (set_hop_limit h s) end.

(** [Socket::scaled_window]. *)
Definition scaled_window (s : Socket) : Z :=
  Z.min (Z.shiftr (Z.of_nat (RingBuffer.window (rx_buffer s))) (remote_win_shift s)) (2 ^ 16 - 1).

(** ** Opening and closing *)

(** What [Socket::reset] assigns. *)
Definition reset_fields (s : Socket) : Socket :=
  mkSocket Closed timer_new rtte_default (Assembler.new (length (assembler s)))
    (RingBuffer.clear (rx_buffer s)) false (RingBuffer.clear (tx_buffer s))
    (timeout s) (keep_alive s) (hop_limit s) (Ip.mkListen None 0) None 0 0 0 None 0
    (win_shift (rx_buffer s)) 0 None (remote_has_sack s) DEFAULT_MSS None
    (local_rx_last_seq s) (local_rx_last_ack s) (local_rx_dup_acks s) (ack_delay s) AckIdle 0 (nagle s)
    (rx_waker s) (tx_waker s).

(** [Socket::reset]. *)
Definition reset {R} : proc R unit :=
  upd reset_fields;; wake_rx;; wake_tx.

(** [Socket::is_open], [is_listening] and [is_active]. *)
Definition is_open (s : Socket) : bool := match state s with Closed | TimeWait => false | _ => true end.
Definition is_listening (s : Socket) : bool := match state s with Listen => true | _ => false end.
Definition is_active (s : Socket) : bool :=
  match state s with Closed | TimeWait | Listen => false | _ => true end.

(** [Socket::listen]. *)
Definition listen (ep : Ip.ListenEndpoint) : Env -> outcome (Env * result unit OpenError) := run (
  if Ip.listen_port ep =? 0 then return_ (Err Unaddressable)
  else
    open ← get is_open;
    _ ← (if (open : bool) then
           same ← get (fun s => bool_decide (state s = Listen /\ listen_endpoint s = ep));
           if (same : bool) then return_ (Ok tt) else return_ (Err InvalidState)
         else mret tt);
    reset;;
    upd (set_listen_endpoint ep);;
    upd (set_tuple None);;
    enter Listen;;
    mret (Ok tt)).

(** [Socket::random_seq_no]. *)
Definition random_seq_no {R} : proc R SeqNumber.t := fun e =>
  let '(c, n) := Iface.rand_u32 (cx e) in Ret (mkEnv c (self e) (woken e), Next (i32 n)).

(** [Socket::connect]. *)
Definition connect (remote_ep : Ip.Endpoint) (local_ep : Ip.ListenEndpoint) :
    Env -> outcome (Env * result unit OpenError) := run (
  open ← get is_open;
  if (open : bool) then return_ (Err InvalidState)
  else if (Ip.port remote_ep =? 0) || Ip.is_unspecified (Ip.addr remote_ep) then return_ (Err Unaddressable)
  else if Ip.listen_port local_ep =? 0 then return_ (Err Unaddressable)
  else
    c ← context;
    address ← match Ip.listen_addr local_ep with
              | Some a => if Ip.is_unspecified a then return_ (Err Unaddressable) else mret a
              | None =>
                  match Iface.get_source_address c (Ip.addr remote_ep) with
                  | Some a => mret a
                  | None => return_ (Err Unaddressable)
                  end
              end;
    if bool_decide (Ip.version address <> Ip.version (Ip.addr remote_ep)) then return_ (Err Unaddressable)
    else
      reset;;
      upd (set_tuple (Some (mkTuple (Ip.mkEndpoint address (Ip.listen_port local_ep)) remote_ep)));;
      enter SynSent;;
      seq ← random_seq_no;
      upd (set_local_seq_no seq);;
      upd (set_remote_last_seq seq);;
      mret (Ok tt)).

(** [Socket::close] and [Socket::abort]. *)
Definition close : Env -> outcome (Env * unit) := run (
  st ← get state;
  match st with
  | Listen => enter Closed
  | SynSent => enter Closed
  | SynReceived | Established => enter FinWait1
  | CloseWait => enter LastAck
  | FinWait1 | FinWait2 | Closing | TimeWait | LastAck | Closed => mret tt
  end).
Definition abort : Env -> outcome (Env * unit) := run (enter Closed).

(** ** Questions *)

(** [Socket::may_send], [may_recv], [can_send] and [can_recv]. *)
Definition may_send (s : Socket) : bool := match state s with Established | CloseWait => true | _ => false end.
Definition may_recv (s : Socket) : bool :=
  match state s with
  | Established | FinWait1 | FinWait2 => true
  | _ => negb (RingBuffer.is_empty (rx_buffer s))
  end.
Definition can_send (s : Socket) : bool := if negb (may_send s) then false else negb (RingBuffer.is_full (tx_buffer s)).
Definition can_recv (s : Socket) : bool := if negb (may_recv s) then false else negb (RingBuffer.is_empty (rx_buffer s)).

(** [Socket::send_queue] and [Socket::recv_queue]. *)
Definition send_queue (s : Socket) : nat := RingBuffer.len (tx_buffer s).
Definition recv_queue (s : Socket) : nat := RingBuffer.len (rx_buffer s).

(** ** Sending *)

(** [Socket::send_impl]. *)
Definition send_impl {R} (f : RingBuffer.t Z -> outcome (RingBuffer.t Z * R)) (s : Socket) :
    outcome (Socket * result R SendError) :=
  if negb (may_send s) then Ret (s, Err SendInvalidState)
  else
    let s := if RingBuffer.is_empty (tx_buffer s) then set_remote_last_ts None s else s in
    '(b, r) ← f (tx_buffer s);
    Ret (set_tx_buffer b s, Ok r).

(** [Socket::send] and [Socket::send_slice]. *)
Definition send {R} (f : list Z -> list Z * nat * R) : Socket -> outcome (Socket * result R SendError) :=
  send_impl (fun b => '(b', (_, r)) ← RingBuffer.enqueue_many_with f b; Ret (b', r)).
Definition send_slice (data : list Z) : Socket -> outcome (Socket * result nat SendError) :=
  send_impl (RingBuffer.enqueue_slice data).

(** ** Receiving *)

(** [Socket::recv_error_check]. *)
Definition recv_error_check (s : Socket) : result unit RecvError :=
  if negb (may_recv s) then if rx_fin_received s then Err Finished else Err RecvInvalidState
  else Ok tt.

(** [Socket::recv_impl]; [f] gives the number of octets it took. *)
Definition recv_impl {R} (f : RingBuffer.t Z -> outcome (RingBuffer.t Z * (nat * R))) (s : Socket) :
    outcome (Socket * result R RecvError) :=
  match recv_error_check s with
  | Err e => Ret (s, Err e)
  | Ok _ =>
      '(b, (size, r)) ← f (rx_buffer s);
      seq ← SeqNumber.add (remote_seq_no s) (Z.of_nat size);
      Ret (set_remote_seq_no seq (set_rx_buffer b s), Ok r)
  end.

(** [Socket::recv], and [Socket::recv_slice] into a slice of [n] octets: what it
    wrote there. *)
Definition recv {R} (f : list Z -> list Z * nat * R) : Socket -> outcome (Socket * result R RecvError) :=
  recv_impl (RingBuffer.dequeue_many_with f).
Definition recv_slice (n : nat) : Socket -> outcome (Socket * result (list Z) RecvError) :=
  recv_impl (fun b => '(b', out) ← RingBuffer.dequeue_slice n b; Ret (b', (length out, out))).

(** [Socket::peek] and [Socket::peek_slice] into a slice of [n] octets. *)
Definition peek (size : nat) (s : Socket) : outcome (result (list Z) RecvError) :=
  match recv_error_check s with
  | Err e => Ret (Err e)
  | Ok _ => b ← RingBuffer.get_allocated 0 size (rx_buffer s); Ret (Ok b)
  end.
Definition peek_slice (n : nat) (s : Socket) : outcome (result (list Z) RecvError) :=
  b ← RingBuffer.read_allocated 0 n (rx_buffer s); Ret (Ok b).

End TcpSocket.
