(* ===== verification/TcpProcess.v ===== *)
(** * A TCP socket that receives a segment

    [Socket::accepts] and [Socket::process] of [smoltcp/src/socket/tcp.rs], with
    the replies they make.  [process] is the composition of the parts that the
    method has, in their order: [reject_acks], [receive_window], [ack_info],
    [transition], [update_remote], [take_acked], [count_acks], [place_payload]
    and [delay_ack]. *)

From S2P Require Import Prelude TcpWire Assembler RingBuffer TcpState TcpSocket.
Import TcpState TcpSocket.

Local Open Scope Z_scope.

Module TcpProcess.

Definition reply_t : Type := Ip.Repr * Tcp.Repr.

(** ** Replies *)

(** [Socket::reply]. *)
Definition reply (ip_repr : Ip.Repr) (repr : Tcp.Repr) : outcome reply_t :=
  let reply_repr := Tcp.mkRepr (Tcp.dst_port repr) (Tcp.src_port repr) Tcp.None_ 0 None 0 None None false
                      [None; None; None] [] in
  ip ← Ip.new (Ip.dst_addr ip_repr) (Ip.src_addr ip_repr) Ip.TcpProtocol (Tcp.buffer_len reply_repr) 64;
  Ret (ip, reply_repr).

(** [Socket::rst_reply]. *)
Definition rst_reply (ip_repr : Ip.Repr) (repr : Tcp.Repr) : outcome reply_t :=
  '(ip, r) ← reply ip_repr repr;
  ack ← (if bool_decide (Tcp.control repr = Tcp.Syn /\ Tcp.ack_number repr = None)
         then a ← SeqNumber.add (Tcp.seq_number repr) (Tcp.segment_len repr); Ret (Some a)
         else Ret (Tcp.ack_number r));
  Ret (ip, Tcp.mkRepr (Tcp.src_port r) (Tcp.dst_port r) Tcp.Rst (default 0 (Tcp.ack_number repr)) ack
             (Tcp.window_len r) (Tcp.window_scale r) (Tcp.max_seg_size r) (Tcp.sack_permitted r)
             (Tcp.sack_ranges r) (Tcp.payload r)).

(** The ranges an assembler reports from the acknowledgement number [ack], as
    the selective acknowledgement option has them. *)
Definition sack_blocks (a : Assembler.t) (ack : SeqNumber.t) : list (Z * Z) :=
  (fun '(l, r) => (wrap 32 l, wrap 32 r)) <$> Assembler.iter_data a (wrap 64 ack).

(** The first range of [ack_reply]. *)
Definition first_sack (s : Socket) (ack : SeqNumber.t) : option (Z * Z) :=
  let blocks := sack_blocks (assembler s) ack in
  let matching :=
    match local_rx_last_seq s with
    | Some seq => let last_seg_seq := wrap 32 seq in
        snd <$> list_find (fun b => fst b <= last_seg_seq /\ last_seg_seq <= snd b) blocks
    | None => None
    end in
  match matching with Some b => Some b | None => head blocks end.

(** [Socket::ack_reply]. *)
Definition ack_reply {R} (ip_repr : Ip.Repr) (repr : Tcp.Repr) : proc R reply_t :=
  '(ip, r) ← do (reply ip_repr repr);
  s ← get id;
  ack ← do (SeqNumber.add (remote_seq_no s) (Z.of_nat (RingBuffer.len (rx_buffer s))));
  upd (set_remote_last_ack (Some ack));;
  let window_len := scaled_window s in
  upd (set_remote_last_win window_len);;
  let sack_ranges := if remote_has_sack s then [first_sack s ack; None; None] else Tcp.sack_ranges r in
  let r := Tcp.mkRepr (Tcp.src_port r) (Tcp.dst_port r) (Tcp.control r) (remote_last_seq s) (Some ack) window_len
             (Tcp.window_scale r) (Tcp.max_seg_size r) (Tcp.sack_permitted r) sack_ranges (Tcp.payload r) in
  mret (Ip.set_payload_len (Tcp.buffer_len r) ip, r).

(** [Socket::challenge_ack_reply]. *)
Definition challenge_ack_reply {R} (ip_repr : Ip.Repr) (repr : Tcp.Repr) : proc R (option reply_t) :=
  c ← context;
  t ← get challenge_ack_timer;
  if Iface.now c <? t then mret None
  else
    upd (set_challenge_ack_timer (Time.add (Iface.now c) (Time.from_secs 1)));;
    r ← ack_reply ip_repr repr;
    mret (Some r).

(** ** Which segments *)

(** [Socket::accepts]. *)
Definition accepts (ip_repr : Ip.Repr) (repr : Tcp.Repr) (s : Socket) : bool :=
  if bool_decide (state s = Closed) then false
  else if bool_decide (state s = Listen) && match Tcp.ack_number repr with Some _ => true | None => false end
  then false
  else
    match tuple s with
    | Some t =>
        bool_decide (Ip.dst_addr ip_repr = Ip.addr (local t)) && (Tcp.dst_port repr =? Ip.port (local t)) &&
        bool_decide (Ip.src_addr ip_repr = Ip.addr (remote t)) && (Tcp.src_port repr =? Ip.port (remote t))
    | None =>
        let addr_ok :=
          match Ip.listen_addr (listen_endpoint s) with
          | Some a => bool_decide (Ip.dst_addr ip_repr = a)
          | None => true
          end in
        addr_ok && negb (Tcp.dst_port repr =? 0) && (Tcp.dst_port repr =? Ip.listen_port (listen_endpoint s))
    end.

(** ** The parts of [process] *)

Section process.
Variables (ip_repr : Ip.Repr) (repr : Tcp.Repr).

(** A part of [process]: it returns a reply or nothing. *)
Definition part (A : Type) : Type := proc (option reply_t) A.

Definition sent_syn (st : State) : bool := match st with SynSent | SynReceived => true | _ => false end.
Definition sent_fin (st : State) : bool := match st with FinWait1 | LastAck | Closing => true | _ => false end.
Definition control_len (st : State) : Z := Z.b2z (sent_syn st) + Z.b2z (sent_fin st).

Definition return_rst : part unit := r ← do (rst_reply ip_repr repr); return_ (Some r).

(** "Every acknowledgement must be for transmitted but unacknowledged data." *)
Definition check_ack (ack : SeqNumber.t) : part unit :=
  s ← get id;
  let unacknowledged := Z.of_nat (RingBuffer.len (tx_buffer s)) + control_len (state s) in
  ack_max ← do (SeqNumber.add (local_seq_no s) unacknowledged);
  ack_min ← do (if sent_syn (state s) then SeqNumber.add (local_seq_no s) 1 else Ret (local_seq_no s));
  if SeqNumber.lt ack ack_min then return_ None
  else if SeqNumber.gt ack ack_max then r ← challenge_ack_reply ip_repr repr; return_ r
  else mret tt.

(** "Reject unacceptable acknowledgements." *)
Definition reject_acks : part unit :=
  s ← get id;
  next ← do (SeqNumber.add (local_seq_no s) 1);
  match state s, Tcp.control repr, Tcp.ack_number repr with
  | SynSent, Tcp.Rst, None => return_ None
  | SynSent, Tcp.Rst, Some ack => if ack =? next then mret tt else return_ None
  | _, Tcp.Rst, _ => mret tt
  | Listen, _, None => mret tt
  | Listen, _, Some _ => do Panic
  | _, _, None => return_ None
  | SynSent, Tcp.Syn, Some ack => if ack =? next then mret tt else return_rst
  | SynSent, Tcp.None_, Some ack => if ack =? next then return_ None else return_rst
  | SynSent, _, _ => return_ None
  | SynReceived, _, Some ack => if ack =? next then mret tt else return_rst
  | _, _, Some ack => check_ack ack
  end.

(** Whether a segment has something to do with the window. *)
Definition segment_in_window (window_start window_end segment_start segment_end : SeqNumber.t) : outcome bool :=
  before ← SeqNumber.sub_usize window_start 1;
  Ret (match segment_start =? segment_end, window_start =? window_end with
       | true, empty =>
           if segment_end =? before then false
           else if empty then window_start =? segment_start
           else SeqNumber.le window_start segment_start && SeqNumber.lt segment_start window_end
       | false, true => false
       | false, false =>
           (SeqNumber.le window_start segment_start && SeqNumber.lt segment_start window_end) ||
           (SeqNumber.lt window_start segment_end && SeqNumber.le segment_end window_end)
       end).

(** [payload[from..to]]. *)
Definition range_slice (from to : Z) (l : list Z) : outcome (list Z) :=
  if (from <=? to) && (to <=? Z.of_nat (length l))
  then Ret (take (Z.to_nat (to - from)) (drop (Z.to_nat from) l)) else Panic.

(** The part of the payload inside the window, and its offset there. *)
Definition cut (window_start window_end segment_start segment_end : SeqNumber.t) : outcome (list Z * Z) :=
  let overlap_start := SeqNumber.max window_start segment_start in
  let overlap_end := SeqNumber.min window_end segment_end in
  from ← SeqNumber.sub overlap_start segment_start;
  to ← SeqNumber.sub overlap_end segment_start;
  payload ← range_slice from to (Tcp.payload repr);
  offset ← SeqNumber.sub overlap_start window_start;
  Ret (payload, offset).

(** The segment against the receive window: the start of the window, and the
    payload to take with its offset. *)
Definition receive_window : part (SeqNumber.t * (list Z * Z)) :=
  s ← get id;
  window_start ← do (SeqNumber.add (remote_seq_no s) (Z.of_nat (RingBuffer.len (rx_buffer s))));
  window_end ← do (SeqNumber.add (remote_seq_no s) (Z.of_nat (RingBuffer.capacity (rx_buffer s))));
  let segment_start := Tcp.seq_number repr in
  segment_end ← do (SeqNumber.add (Tcp.seq_number repr) (Tcp.payload_len repr));
  match state s with
  | Listen | SynSent => mret (window_start, ([], 0))
  | st =>
      inside ← do (segment_in_window window_start window_end segment_start segment_end);
      if (inside : bool) then
        upd (set_local_rx_last_seq (Some (Tcp.seq_number repr)));;
        p ← do (cut window_start window_end segment_start segment_end);
        mret (window_start, p)
      else
        c ← context;
        upd (fun s => if bool_decide (st = TimeWait)
                      then set_timer (set_for_close (Iface.now c) (timer s)) s else s);;
        r ← challenge_ack_reply ip_repr repr;
        return_ r
  end.

(** What an acknowledgement covers: the octets of the transmit buffer, our FIN,
    and whether it is all that was sent. *)
Record Acked : Type := mkAcked { ack_len : Z; ack_of_fin : bool; ack_all : bool }.

(** "Compute the amount of acknowledged octets." *)
Definition ack_info : part Acked :=
  s ← get id;
  c ← context;
  match Tcp.control repr, Tcp.ack_number repr with
  | Tcp.Rst, _ | _, None => mret (mkAcked 0 false false)
  | _, Some ack =>
      start ← do (SeqNumber.add (local_seq_no s) (Z.b2z (sent_syn (state s))));
      info ← (if SeqNumber.ge ack start then
                n ← do (SeqNumber.sub ack start);
                let fin := sent_fin (state s) && (Z.of_nat (RingBuffer.len (tx_buffer s)) + 1 =? n) in
                mret (mkAcked (if fin then n - 1 else n) fin (remote_last_seq s =? ack))
              else mret (mkAcked 0 false false));
      upd (fun s => set_rtte (on_ack (Iface.now c) ack (rtte s)) s);;
      mret info
  end.

(** The control flag to act on: a FIN counts only at the start of the window. *)
Definition effective_control (window_start : SeqNumber.t) : Tcp.Control :=
  let control := Tcp.quash_psh (Tcp.control repr) in
  if bool_decide (control = Tcp.Fin) && negb (window_start =? Tcp.seq_number repr) then Tcp.None_ else control.

Definition idle : part unit :=
  c ← context;
  upd (fun s => set_timer (set_for_idle (Iface.now c) (keep_alive s) (timer s)) s).
Definition close_later : part unit :=
  c ← context;
  upd (fun s => set_timer (set_for_close (Iface.now c) (timer s)) s).

(** The remote has closed its half. *)
Definition receive_fin : part unit :=
  seq ← get remote_seq_no;
  seq' ← do (SeqNumber.add seq 1);
  upd (set_remote_seq_no seq');;
  upd (set_rx_fin_received true).

(** The option [max_seg_size] of a SYN. *)
Definition take_mss : part unit :=
  match Tcp.max_seg_size repr with
  | Some mss => if mss =? 0 then return_ None else upd (set_remote_mss mss)
  | None => mret tt
  end.

(** The option [window_scale] of a SYN. *)
Definition take_window_scale : part unit :=
  upd (set_remote_win_scale (Tcp.window_scale repr));;
  match Tcp.window_scale repr with None => upd (set_remote_win_shift 0) | Some _ => mret tt end.

(** "SYN packets in the LISTEN state change it to SYN-RECEIVED." *)
Definition receive_syn : part unit :=
  take_mss;;
  upd (set_tuple (Some (mkTuple (Ip.mkEndpoint (Ip.dst_addr ip_repr) (Tcp.dst_port repr))
                                (Ip.mkEndpoint (Ip.src_addr ip_repr) (Tcp.src_port repr)))));;
  seq ← random_seq_no;
  upd (set_local_seq_no seq);;
  rseq ← do (SeqNumber.add (Tcp.seq_number repr) 1);
  upd (set_remote_seq_no rseq);;
  upd (fun s => set_remote_last_seq (local_seq_no s) s);;
  upd (set_remote_has_sack (Tcp.sack_permitted repr));;
  take_window_scale;;
  enter SynReceived;;
  idle.

(** "SYN|ACK packets in the SYN-SENT state change it to ESTABLISHED." *)
Definition receive_syn_ack : part unit :=
  take_mss;;
  rseq ← do (SeqNumber.add (Tcp.seq_number repr) 1);
  upd (set_remote_seq_no rseq);;
  seq ← get local_seq_no;
  next ← do (SeqNumber.add seq 1);
  upd (set_remote_last_seq next);;
  upd (set_remote_last_ack (Some (Tcp.seq_number repr)));;
  take_window_scale;;
  enter Established;;
  idle.

(** "Validate and update the state." *)
Definition transition (control : Tcp.Control) (a : Acked) : part unit :=
  st ← get state;
  match st, control with
  | Listen, Tcp.Rst => return_ None
  | SynReceived, Tcp.Rst => upd (set_tuple None);; enter Listen;; return_ None
  | _, Tcp.Rst => enter Closed;; upd (set_tuple None);; return_ None
  | Listen, Tcp.Syn => receive_syn
  | SynReceived, Tcp.None_ => enter Established;; idle
  | SynReceived, Tcp.Fin => receive_fin;; enter CloseWait;; idle
  | SynSent, Tcp.Syn => receive_syn_ack
  | Established, Tcp.None_ =>
      t ← get timer;
      if negb (is_retransmit t) || ack_all a then idle else mret tt
  | Established, Tcp.Fin => receive_fin;; enter CloseWait;; idle
  | FinWait1, Tcp.None_ =>
      (if ack_of_fin a then enter FinWait2 else mret tt);;
      (if ack_all a then idle else mret tt)
  | FinWait1, Tcp.Fin =>
      receive_fin;;
      if ack_of_fin a then enter TimeWait;; close_later else enter Closing;; idle
  | FinWait2, Tcp.None_ => idle
  | FinWait2, Tcp.Fin => receive_fin;; enter TimeWait;; close_later
  | Closing, Tcp.None_ => if ack_of_fin a then enter TimeWait;; close_later else idle
  | CloseWait, Tcp.None_ => idle
  | LastAck, Tcp.None_ => if ack_of_fin a then enter Closed;; upd (set_tuple None) else idle
  | _, _ => return_ None
  end.

(** "Update remote state": whether the window has changed. *)
Definition update_remote : part bool :=
  c ← context;
  s ← get id;
  let scale := match Tcp.control repr with Tcp.Syn => 0 | _ => default 0 (remote_win_scale s) end in
  let new_remote_win_len := Z.shiftl (Tcp.window_len repr) scale in
  upd (set_remote_last_ts (Some (Iface.now c)));;
  upd (set_remote_win_len new_remote_win_len);;
  mret (negb (new_remote_win_len =? remote_win_len s)).

(** "Dequeue acknowledged octets." *)
Definition take_acked (n : Z) : part unit :=
  if 0 <? n then
    try_upd (fun s => b ← RingBuffer.dequeue_allocated (Z.to_nat n) (tx_buffer s); Ret (set_tx_buffer b s));;
    wake_tx
  else mret tt.

(** "Detect and react to duplicate ACKs", and move past what is acknowledged. *)
Definition count_acks (is_window_update : bool) : part unit :=
  match Tcp.ack_number repr with
  | None => mret tt
  | Some ack =>
      upd (fun s =>
        let duplicate :=
          match local_rx_last_ack s with
          | Some last => (Tcp.payload_len repr =? 0) && (last =? ack) && SeqNumber.lt ack (remote_last_seq s)
                         && negb is_window_update
          | None => false
          end in
        let s :=
          if duplicate then
            let n := Z.min 255 (local_rx_dup_acks s + 1) in
            let s := set_local_rx_dup_acks n s in
            if n =? 3 then set_timer (set_for_fast_retransmit (timer s)) s else s
          else set_local_rx_last_ack (Some ack) (set_local_rx_dup_acks 0 s) in
        let s := set_local_seq_no ack s in
        if SeqNumber.lt (remote_last_seq s) (local_seq_no s) then set_remote_last_seq (local_seq_no s) s else s)
  end.

(** "Try adding payload octets to the assembler", and "place payload octets
    into the buffer": whether the assembler was empty before. *)
Definition place_payload (payload : list Z) (offset : Z) : part bool :=
  a ← get assembler;
  was_empty ← do (Assembler.is_empty a);
  '(a', r) ← do (Assembler.add_then_remove_front a offset (Z.of_nat (length payload)));
  upd (set_assembler a');;
  match r with
  | Err _ => return_ None
  | Ok contig_len =>
      try_upd (fun s => '(b, _) ← RingBuffer.write_unallocated (Z.to_nat offset) payload (rx_buffer s);
                        Ret (set_rx_buffer b s));;
      (if negb (contig_len =? 0) then
         try_upd (fun s => b ← RingBuffer.enqueue_unallocated (Z.to_nat contig_len) (rx_buffer s);
                           Ret (set_rx_buffer b s));;
         wake_rx
       else mret tt);;
      mret was_empty
  end.

(** [Socket::ack_to_transmit] and [Socket::window_to_update]. *)
Definition ack_to_transmit (s : Socket) : outcome bool :=
  match remote_last_ack s with
  | Some last =>
      next ← SeqNumber.add (remote_seq_no s) (Z.of_nat (RingBuffer.len (rx_buffer s)));
      Ret (SeqNumber.lt last next)
  | None => Ret false
  end.
Definition window_to_update (s : Socket) : bool :=
  match state s with
  | SynSent | SynReceived | Established | FinWait1 | FinWait2 => remote_last_win s <? scaled_window s
  | _ => false
  end.

(** "Handle delayed acks." *)
Definition delay_ack : part unit :=
  s ← get id;
  c ← context;
  match ack_delay s with
  | Some delay =>
      want ← do (ack_to_transmit s);
      if (want : bool) || window_to_update s then
        upd (set_ack_delay_timer
               (match ack_delay_timer s with
                | AckIdle => Waiting (Time.add (Iface.now c) delay)
                | Waiting _ => Immediate
                | Immediate => Immediate
                end))
      else mret tt
  | None => mret tt
  end.

(** [Socket::process]. *)
Definition process : Env -> outcome (Env * option reply_t) := run (
  reject_acks;;
  '(window_start, (payload, payload_offset)) ← receive_window;
  acked ← ack_info;
  transition (effective_control window_start) acked;;
  is_window_update ← update_remote;
  take_acked (ack_len acked);;
  count_acks is_window_update;;
  if (length payload =? 0)%nat then return_ None
  else
    assembler_was_empty ← place_payload payload payload_offset;
    delay_ack;;
    a ← get assembler;
    empty ← do (Assembler.is_empty a);
    if negb empty || negb assembler_was_empty then r ← ack_reply ip_repr repr; mret (Some r)
    else mret None).

End process.

End TcpProcess.
