(* ===== verification/TcpDispatch.v ===== *)
(** * A TCP socket that sends a segment

    [Socket::dispatch] and [Socket::poll_at] of [smoltcp/src/socket/tcp.rs].  The
    closure that hands a packet to the device is the argument [emit] of
    [dispatch], which also gives the packet it was called with. *)

From S2P Require Import Prelude TcpWire Assembler RingBuffer TcpState TcpSocket TcpProcess.
Import TcpState TcpSocket TcpProcess.

Local Open Scope Z_scope.

Module TcpDispatch.

(** [Socket::timed_out]. *)
Definition timed_out (now : Time.Instant) (s : Socket) : bool :=
  match remote_last_ts s, timeout s with
  | Some last, Some timeout => Time.add last timeout <=? now
  | _, _ => false
  end.

(** [IPV4_HEADER_LEN] and [IPV6_HEADER_LEN]. *)
Definition ip_header_len (a : Ip.Address) : Z := match a with Ip.Ipv4 _ => 20 | Ip.Ipv6 _ => 40 end.

(** The largest segment the device takes, [cx.ip_mtu() - ip_header_len -
    TCP_HEADER_LEN] in [usize]. *)
Definition local_mss (c : Iface.Context) (header : Z) : Z :=
  wrap 64 (wrap 64 (Iface.ip_mtu c - header) - Tcp.HEADER_LEN).

Definition want_fin (st : State) : bool :=
  match st with FinWait1 | Closing | LastAck => true | _ => false end.

(** The octets from [remote_last_seq] up to [edge], none if it is past. *)
Definition octets_up_to (edge last : SeqNumber.t) : outcome Z :=
  if SeqNumber.ge edge last then SeqNumber.sub edge last else Ret 0.

(** [Socket::seq_to_transmit]. *)
Definition seq_to_transmit (c : Iface.Context) (s : Socket) : outcome bool :=
  t ← unwrap (tuple s);
  let effective_mss := Z.min (local_mss c (ip_header_len (Ip.addr (local t)))) (remote_mss s) in
  let data_in_flight := negb (remote_last_seq s =? local_seq_no s) in
  if match state s with SynSent | SynReceived => true | _ => false end && negb data_in_flight then Ret true
  else
    let tx_len := Z.of_nat (RingBuffer.len (tx_buffer s)) in
    max_send_seq ← SeqNumber.add (local_seq_no s) (Z.min (remote_win_len s) tx_len);
    max_send ← octets_up_to max_send_seq (remote_last_seq s);
    let can_send := negb (max_send =? 0) in
    let can_send_full := effective_mss <=? max_send in
    let can_send :=
      if nagle s && data_in_flight && negb can_send_full && negb (want_fin (state s)) then false else can_send in
    end_ ← SeqNumber.add (local_seq_no s) tx_len;
    let can_fin := want_fin (state s) && (remote_last_seq s =? end_) in
    Ret (can_send || can_fin).

(** [Socket::delayed_ack_expired]. *)
Definition delayed_ack_expired (now : Time.Instant) (s : Socket) : bool :=
  match ack_delay_timer s with
  | AckIdle => true
  | Waiting t => t <=? now
  | Immediate => true
  end.

Section dispatch.
Context {E : Type} (emit : Iface.Context -> reply_t -> Iface.Context * result unit E).

(** The packet a call of [dispatch] emitted, and what it returned. *)
Definition sent : Type := option reply_t * result unit E.
Definition nothing : sent := (None, Ok tt).

(** "Check if any state needs to be changed because of a timer." *)
Definition check_timers : proc sent unit :=
  c ← context;
  s ← get id;
  if timed_out (Iface.now c) s then enter Closed
  else
    transmit ← do (seq_to_transmit c s);
    if (transmit : bool) then mret tt
    else
      match should_retransmit (Iface.now c) (timer s) with
      | Some _ =>
          upd (fun s => set_remote_last_seq (local_seq_no s) s);;
          upd (fun s => set_timer (set_for_idle (Iface.now c) (keep_alive s) (timer s)) s);;
          upd (fun s => set_rtte (on_retransmit (rtte s)) s)
      | None => mret tt
      end.

(** "Decide whether we're sending a packet." *)
Definition decide_sending : proc sent unit :=
  c ← context;
  s ← get id;
  transmit ← do (seq_to_transmit c s);
  if (transmit : bool) then mret tt
  else
    ack ← do (ack_to_transmit s);
    if (ack : bool) && delayed_ack_expired (Iface.now c) s then mret tt
    else if window_to_update s && delayed_ack_expired (Iface.now c) s then mret tt
    else if bool_decide (state s = Closed) then mret tt
    else if should_keep_alive (Iface.now c) (timer s) then mret tt
    else if should_close (Iface.now c) (timer s) then reset;; return_ nothing
    else return_ nothing.

(** "An empty ACK packet", which the state makes more specific. *)
Definition basic_repr (t : Tuple) (ack : SeqNumber.t) (s : Socket) : Tcp.Repr :=
  Tcp.mkRepr (Ip.port (local t)) (Ip.port (remote t)) Tcp.None_ (remote_last_seq s) (Some ack)
    (scaled_window s) None None false [None; None; None] [].

Definition with_control (c : Tcp.Control) (r : Tcp.Repr) : Tcp.Repr :=
  Tcp.mkRepr (Tcp.src_port r) (Tcp.dst_port r) c (Tcp.seq_number r) (Tcp.ack_number r) (Tcp.window_len r)
    (Tcp.window_scale r) (Tcp.max_seg_size r) (Tcp.sack_permitted r) (Tcp.sack_ranges r) (Tcp.payload r).
Definition with_payload (p : list Z) (r : Tcp.Repr) : Tcp.Repr :=
  Tcp.mkRepr (Tcp.src_port r) (Tcp.dst_port r) (Tcp.control r) (Tcp.seq_number r) (Tcp.ack_number r)
    (Tcp.window_len r) (Tcp.window_scale r) (Tcp.max_seg_size r) (Tcp.sack_permitted r) (Tcp.sack_ranges r) p.

(** The SYN of the states SYN-SENT and SYN-RECEIVED. *)
Definition syn_repr (r : Tcp.Repr) (s : Socket) : Tcp.Repr :=
  let window := Z.min (Z.of_nat (RingBuffer.window (rx_buffer s))) (2 ^ 16 - 1) in
  let '(ack, scale, sack) :=
    if bool_decide (state s = SynSent) then (None, Some (remote_win_shift s), true)
    else (Tcp.ack_number r, (fun _ => remote_win_shift s) <$> remote_win_scale s, remote_has_sack s) in
  Tcp.mkRepr (Tcp.src_port r) (Tcp.dst_port r) Tcp.Syn (Tcp.seq_number r) ack window scale
    (Tcp.max_seg_size r) sack (Tcp.sack_ranges r) (Tcp.payload r).

(** The data of the states with data to send. *)
Definition data_repr (c : Iface.Context) (header : Z) (r : Tcp.Repr) (s : Socket) : outcome Tcp.Repr :=
  win_right_edge ← SeqNumber.add (local_seq_no s) (remote_win_len s);
  win_limit ← octets_up_to win_right_edge (remote_last_seq s);
  let size := Z.min (Z.min win_limit (remote_mss s)) (local_mss c header) in
  offset ← SeqNumber.sub (remote_last_seq s) (local_seq_no s);
  payload ← RingBuffer.get_allocated (Z.to_nat offset) (Z.to_nat size) (tx_buffer s);
  let r := with_payload payload r in
  Ret (if (Z.to_nat offset + length payload =? RingBuffer.len (tx_buffer s))%nat then
         match state s with
         | FinWait1 | LastAck | Closing => with_control Tcp.Fin r
         | Established | CloseWait => if (length payload =? 0)%nat then r else with_control Tcp.Psh r
         | _ => r
         end
       else r).

(** The packet of each state. *)
Definition build_repr (c : Iface.Context) (header : Z) (t : Tuple) : proc sent Tcp.Repr :=
  s ← get id;
  ack ← do (SeqNumber.add (remote_seq_no s) (Z.of_nat (RingBuffer.len (rx_buffer s))));
  let r := basic_repr t ack s in
  match state s with
  | Closed => mret (with_control Tcp.Rst r)
  | Listen => return_ nothing
  | SynSent | SynReceived => mret (syn_repr r s)
  | Established | FinWait1 | Closing | CloseWait | LastAck => do (data_repr c header r s)
  | FinWait2 | TimeWait => mret r
  end.

(** A keep-alive packet in place of an empty one. *)
Definition as_keep_alive (r : Tcp.Repr) : outcome Tcp.Repr :=
  seq ← SeqNumber.sub_usize (Tcp.seq_number r) 1;
  Ret (Tcp.mkRepr (Tcp.src_port r) (Tcp.dst_port r) (Tcp.control r) seq (Tcp.ack_number r) (Tcp.window_len r)
         (Tcp.window_scale r) (Tcp.max_seg_size r) (Tcp.sack_permitted r) (Tcp.sack_ranges r) [0]).

(** The option [max_seg_size] of a SYN. *)
Definition with_mss (c : Iface.Context) (header : Z) (r : Tcp.Repr) : Tcp.Repr :=
  if bool_decide (Tcp.control r = Tcp.Syn) then
    Tcp.mkRepr (Tcp.src_port r) (Tcp.dst_port r) (Tcp.control r) (Tcp.seq_number r) (Tcp.ack_number r)
      (Tcp.window_len r) (Tcp.window_scale r) (Some (wrap 16 (local_mss c header))) (Tcp.sack_permitted r)
      (Tcp.sack_ranges r) (Tcp.payload r)
  else r.

(** [emit(cx, packet)?]. *)
Definition emit_packet (p : reply_t) : proc sent unit := fun e =>
  let '(c, r) := emit (cx e) p in
  Ret (mkEnv c (self e) (woken e), match r with Ok _ => Next tt | Err x => Return (Some p, Err x) end).

(** "If we've transmitted all data we could, wind up the retransmit timer." *)
Definition wind_up_timer (n : Z) : proc sent unit :=
  c ← context;
  s ← get id;
  transmit ← do (seq_to_transmit c s);
  if negb transmit && (0 <? n)
  then upd (set_timer (set_for_retransmit (Iface.now c) (retransmission_timeout (rtte s)) (timer s)))
  else mret tt.

(** "When aborting a connection, forget about it after sending a single RST." *)
Definition forget_closed : proc sent unit :=
  st ← get state;
  match st with Closed => upd (set_tuple None);; wake_tx | _ => mret tt end.

(** "We've sent a packet successfully, so we can update the internal state." *)
Definition after_sending (p : reply_t) : proc sent sent :=
  let repr := snd p in
  c ← context;
  next ← do (SeqNumber.add (Tcp.seq_number repr) (Tcp.segment_len repr));
  upd (set_remote_last_seq next);;
  upd (set_remote_last_ack (Tcp.ack_number repr));;
  upd (set_remote_last_win (Tcp.window_len repr));;
  upd (fun s => if 0 <? Tcp.segment_len repr then set_rtte (on_send (Iface.now c) next (rtte s)) s else s);;
  wind_up_timer (Tcp.segment_len repr);;
  forget_closed;;
  mret (Some p, Ok tt).

(** [Socket::dispatch]. *)
Definition dispatch : Env -> outcome (Env * sent) := run (
  c ← context;
  t0 ← get tuple;
  match t0 with
  | None => return_ nothing
  | Some _ =>
      upd (fun s => match remote_last_ts s with
                    | None => set_remote_last_ts (Some (Iface.now c)) s
                    | Some _ => s
                    end);;
      check_timers;;
      decide_sending;;
      t1 ← get tuple;
      t ← do (unwrap t1);
      hop ← get hop_limit;
      ip ← do (Ip.new (Ip.addr (local t)) (Ip.addr (remote t)) Ip.TcpProtocol 0 (default 64 hop));
      repr ← build_repr c (Ip.header_len ip) t;
      tm ← get timer;
      let is_keep_alive := should_keep_alive (Iface.now c) tm && Tcp.is_empty repr in
      repr ← do (if is_keep_alive then as_keep_alive repr else Ret repr);
      let repr := with_mss c (Ip.header_len ip) repr in
      let packet := (Ip.set_payload_len (Tcp.buffer_len repr) ip, repr) in
      emit_packet packet;;
      c ← context;
      upd (fun s => set_timer (rewind_keep_alive (Iface.now c) (keep_alive s) (timer s)) s);;
      upd (set_ack_delay_timer AckIdle);;
      if is_keep_alive then return_ (Some packet, Ok tt) else after_sending packet
  end).

End dispatch.

(** [Socket::poll_at]. *)
Definition poll_at (c : Iface.Context) (s : Socket) : outcome PollAt :=
  match tuple s, remote_last_ts s with
  | None, _ => Ret Ingress
  | _, None => Ret Now
  | Some _, Some last =>
      if bool_decide (state s = Closed) then Ret Now
      else
        transmit ← seq_to_transmit c s;
        if (transmit : bool) then Ret Now
        else
          ack ← ack_to_transmit s;
          let want_ack := (ack : bool) || window_to_update s in
          let delayed_ack_poll_at :=
            match want_ack, ack_delay_timer s with
            | false, _ => Ingress
            | true, AckIdle => Now
            | true, Waiting t => At t
            | true, Immediate => Now
            end in
          let timeout_poll_at :=
            match timeout s with Some timeout => At (Time.add last timeout) | None => Ingress end in
          Ret (poll_min (timer_poll_at (timer s)) (poll_min timeout_poll_at delayed_ack_poll_at))
  end.

End TcpDispatch.
