(* ===== verification/TcpLogic.v ===== *)
(** * Reasoning about calls on a TCP socket

    A weakest precondition for the parts of a call on a socket, with the tactic
    [steps], and the receive window: [segment_in_window_spec] says which segments
    it lets through, for any sequence numbers, and [cut_spec] which part of them. *)

From S2P Require Import Prelude TcpWire Assembler AssemblerLaws RingBuffer RingBufferLaws TcpState TcpSocket TcpProcess.
Import TcpState TcpSocket TcpProcess.

Local Open Scope Z_scope.

Module TcpLogic.

(** ** Weakest preconditions *)

(** The part [m] of a call does not panic; [Q] holds where it goes on, [QR] where
    it returns from the call. *)
Definition wp {R A} (m : proc R A) (Q : A -> Env -> Prop) (QR : R -> Env -> Prop) (e : Env) : Prop :=
  match m e with
  | Ret (e', Next a) => Q a e'
  | Ret (e', Return r) => QR r e'
  | Panic => False
  end.

Section wp.
Context {R : Type} (QR : R -> Env -> Prop).

Lemma wp_seq {A B} (m : proc R A) (f : A -> proc R B) Q e :
  wp m (fun a => wp (f a) Q QR) QR e -> wp (m ≫= f) Q QR e.
Proof. unfold wp, mbind, proc_bind. by destruct (m e) as [[e' [r|a]]|]. Qed.

Lemma wp_weaken {A} (m : proc R A) (Q Q' : A -> Env -> Prop) (QR' : R -> Env -> Prop) e :
  wp m Q' QR' e -> (forall a e', Q' a e' -> Q a e') -> (forall r e', QR' r e' -> QR r e') -> wp m Q QR e.
Proof. unfold wp. destruct (m e) as [[e' [r|a]]|]; auto. Qed.

Lemma wp_next {A} (a : A) Q e : Q a e -> wp (mret a) Q QR e.
Proof. done. Qed.

Lemma wp_return {A} r Q e : QR r e -> wp (return_ (A := A) r) Q QR e.
Proof. done. Qed.

Lemma wp_get {A} (f : Socket -> A) Q e : Q (f (self e)) e -> wp (get f) Q QR e.
Proof. done. Qed.

Lemma wp_context Q e : Q (cx e) e -> wp context Q QR e.
Proof. done. Qed.

Lemma wp_upd f Q e : Q tt (mkEnv (cx e) (f (self e)) (woken e)) -> wp (upd f) Q QR e.
Proof. done. Qed.

Lemma wp_do {A} (m : outcome A) a Q e : m = Ret a -> Q a e -> wp (do m) Q QR e.
Proof. intros -> H. done. Qed.

Lemma wp_try_upd f s Q e :
  f (self e) = Ret s -> Q tt (mkEnv (cx e) s (woken e)) -> wp (try_upd f) Q QR e.
Proof. unfold wp, try_upd. intros -> H. done. Qed.

Lemma wp_wake_rx Q e :
  Q tt (mkEnv (cx e) (set_rx_waker None (self e)) (woken e ++ option_list (rx_waker (self e)))) ->
  wp wake_rx Q QR e.
Proof. done. Qed.

Lemma wp_wake_tx Q e :
  Q tt (mkEnv (cx e) (set_tx_waker None (self e)) (woken e ++ option_list (tx_waker (self e)))) ->
  wp wake_tx Q QR e.
Proof. done. Qed.

Lemma wp_random_seq_no Q e :
  (forall c n, Q (i32 n) (mkEnv c (self e) (woken e))) -> wp random_seq_no Q QR e.
Proof. intros H. unfold wp, random_seq_no. destruct (Iface.rand_u32 (cx e)). apply H. Qed.

Lemma wp_if {A} (b : bool) (m m' : proc R A) Q e :
  (b = true -> wp m Q QR e) -> (b = false -> wp m' Q QR e) -> wp (if b then m else m') Q QR e.
Proof. destruct b; auto. Qed.

End wp.

Lemma wp_call {R} (m : proc R R) (P : R -> Env -> Prop) e :
  wp m P P e -> exists e' r, run m e = Ret (e', r) /\ P r e'.
Proof.
  unfold wp, run. destruct (m e) as [[e' [r|r]]|]; [| |done]; intros H; exists e', r; done.
Qed.

(** One step of a call: the rule for its first part. *)
Ltac step :=
  match goal with
  | |- wp (mbind _ _) _ _ _ => apply wp_seq
  | |- wp (mret _) _ _ _ => apply wp_next
  | |- wp (return_ _) _ _ _ => apply wp_return
  | |- wp (get _) _ _ _ => apply wp_get
  | |- wp context _ _ _ => apply wp_context
  | |- wp (upd _) _ _ _ => apply wp_upd
  | |- wp (enter _) _ _ _ => unfold enter
  | |- wp wake_rx _ _ _ => apply wp_wake_rx
  | |- wp wake_tx _ _ _ => apply wp_wake_tx
  | |- wp (if _ then _ else _) _ _ _ => apply wp_if; intros ?
  | |- wp (match (_, _) with (_, _) => _ end) _ _ _ => cbv beta iota
  end; cbn [cx self woken id]; fields.
Ltac steps := repeat step.

(** ** Sequence numbers as values of 32 bits *)

Definition is_seq (z : Z) : Prop := - 2 ^ 31 <= z < 2 ^ 31.

Lemma is_seq_i32 z : is_seq (i32 z).
Proof. apply i32_range. Qed.
Lemma is_seq_at b p : is_seq (seq_at b p).
Proof. apply i32_range. Qed.

(** Seen from [a], any sequence number is a position from -2^31 to 2^31 - 1. *)
Lemma seq_from a b : is_seq b -> b = seq_at a (i32 (b - a)).
Proof.
  intros Hb. unfold seq_at. rewrite i32_add_r. replace (a + (b - a)) with b by lia. symmetry. by apply i32_id.
Qed.
Lemma seq_self a : is_seq a -> a = seq_at a 0.
Proof. intros Ha. unfold seq_at. rewrite Z.add_0_r. symmetry. by apply i32_id. Qed.

Lemma seq_at_inj b p q : seq_at b p = seq_at b q -> - 2 ^ 32 < p - q < 2 ^ 32 -> p = q.
Proof. intros He Hd. apply Z.eqb_eq. rewrite <-(seq_eq b) by done. by apply Z.eqb_eq. Qed.

Lemma seq_at_at b p q : seq_at (seq_at b p) q = seq_at b (p + q).
Proof. unfold seq_at. rewrite i32_add_l. f_equal. lia. Qed.

Lemma add_seq a n : 0 <= n < 2 ^ 31 -> SeqNumber.add a n = Ret (seq_at a n).
Proof.
  intros Hn. unfold SeqNumber.add, seq_at. rewrite (proj2 (Z.ltb_ge _ _)) by lia.
  by rewrite (i32_id n) by lia.
Qed.

(** ** The receive window *)

(** Where the segment of [n] octets from [off] lies in a window of [win] octets
    that starts at 0. *)
Definition inside (win off n : Z) : Prop :=
  (n = 0 /\ (0 <= off < win \/ (win = 0 /\ off = 0))) \/
  (0 < n /\ 0 < win /\ (0 <= off < win \/ 0 < off + n <= win)).

Lemma i32_opp x : - 2 ^ 31 <= x < 2 ^ 31 -> i32 (- x) = if x =? - 2 ^ 31 then - 2 ^ 31 else - x.
Proof. intros Hx. destruct (Z.eqb_spec x (- 2 ^ 31)) as [->|]; [done|]. apply i32_id. lia. Qed.

Lemma i32_sub_self a x : i32 (a - seq_at a x) = i32 (- x).
Proof. unfold seq_at. rewrite i32_sub_r. f_equal. lia. Qed.

Lemma i32_sub_at a x y : i32 (seq_at a x - seq_at a y) = i32 (x - y).
Proof. unfold seq_at. rewrite i32_sub_l, i32_sub_r. f_equal. lia. Qed.

Lemma i32_below x win : - 2 ^ 31 <= x < 2 ^ 31 -> 0 < win <= 2 ^ 30 ->
  i32 (x - win) = if x - win <? - 2 ^ 31 then x - win + 2 ^ 32 else x - win.
Proof.
  intros Hx Hw. destruct (Z.ltb_spec (x - win) (- 2 ^ 31)).
  - rewrite <-(i32_add _ 1), Z.mul_1_l. apply i32_id. lia.
  - apply i32_id. lia.
Qed.

(** Both comparisons with the window hold only inside it. *)
Lemma window_left a x win :
  - 2 ^ 31 <= x < 2 ^ 31 -> 0 < win <= 2 ^ 30 ->
  SeqNumber.le a (seq_at a x) && SeqNumber.lt (seq_at a x) (seq_at a win) = (0 <=? x) && (x <? win).
Proof.
  intros Hx Hw. unfold SeqNumber.le, SeqNumber.lt. rewrite i32_sub_self, i32_sub_at, i32_opp, i32_below by done.
  destruct (Z.eqb_spec x (- 2 ^ 31)), (Z.ltb_spec (x - win) (- 2 ^ 31));
    apply eq_true_iff_eq; rewrite !andb_true_iff, !Z.leb_le, !Z.ltb_lt; lia.
Qed.

Lemma window_right a x win :
  - 2 ^ 31 <= x < 2 ^ 31 -> 0 < win <= 2 ^ 30 ->
  SeqNumber.lt a (seq_at a x) && SeqNumber.le (seq_at a x) (seq_at a win) = (0 <? x) && (x <=? win).
Proof.
  intros Hx Hw. unfold SeqNumber.le, SeqNumber.lt. rewrite i32_sub_self, i32_sub_at, i32_opp, i32_below by done.
  destruct (Z.eqb_spec x (- 2 ^ 31)), (Z.ltb_spec (x - win) (- 2 ^ 31));
    apply eq_true_iff_eq; rewrite !andb_true_iff, !Z.leb_le, !Z.ltb_lt; lia.
Qed.

Lemma seq_at_i32 a x : seq_at a (i32 x) = seq_at a x.
Proof. unfold seq_at. by rewrite i32_add_r. Qed.

Lemma eq_self a x : is_seq a -> - 2 ^ 32 < x < 2 ^ 32 -> (a =? seq_at a x) = (x =? 0).
Proof.
  intros Ha Hx. pose proof (seq_eq a 0 x) as H. rewrite <-seq_self in H by done. rewrite H by lia.
  apply Z.eqb_sym.
Qed.

(** The window lets a segment through only if it has something to do with it. *)
Lemma segment_in_window_spec ws win ss n :
  is_seq ws -> is_seq ss -> 0 <= win <= 2 ^ 30 -> 0 <= n <= 2 ^ 16 ->
  exists b, segment_in_window ws (seq_at ws win) ss (seq_at ss n) = Ret b /\
    (b = true -> inside win (i32 (ss - ws)) n).
Proof.
  intros Hws Hss Hwin Hn. set (off := i32 (ss - ws)). pose proof (i32_range (ss - ws)) as Hoff. fold off in Hoff.
  unfold segment_in_window, SeqNumber.sub_usize. cbn [Z.ltb Z.compare]. rbind. eexists. split; [done|].
  assert (Hs : ss = seq_at ws off) by (by apply seq_from). rewrite Hs, seq_at_at, seq_eq by lia.
  replace (off =? off + n) with (n =? 0) by (apply eq_true_iff_eq; rewrite !Z.eqb_eq; lia).
  rewrite !eq_self by (done || lia). unfold inside.
  destruct (Z.eqb_spec n 0) as [->|Hn0].
  - case_if; [done|]. destruct (Z.eqb_spec win 0) as [->|Hw0].
    + intros He%Z.eqb_eq. lia.
    + rewrite window_left by lia. intros H. b2p. lia.
  - destruct (Z.eqb_spec win 0) as [->|Hw0]; [done|]. rewrite window_left by lia.
    rewrite <-(seq_at_i32 ws (off + n)), window_right by (apply i32_range || lia).
    intros [H|H]%orb_true_iff; b2p; [lia|]. destruct (decide (off + n < 2 ^ 31)).
    + rewrite i32_id in * by lia. lia.
    + rewrite <-(i32_add _ (-1)), i32_id in * by lia. lia.
Qed.

(** What is cut of a segment that is inside the window: the octets of the
    payload from [a], as many as fit, at [off + a]. *)
Lemma cut_spec repr ws win ss :
  is_seq ws -> is_seq ss -> 0 <= win <= 2 ^ 30 -> Tcp.payload_len repr <= 2 ^ 16 ->
  let off := i32 (ss - ws) in let n := Tcp.payload_len repr in
  inside win off n ->
  let a := Z.max 0 (- off) in
  cut repr ws (seq_at ws win) ss (seq_at ss n) =
    Ret (take (Z.to_nat (Z.min win (off + n) - (off + a))) (drop (Z.to_nat a) (Tcp.payload repr)), off + a) /\
  0 <= off + a /\ off + a <= Z.min win (off + n) /\ a <= n.
Proof.
  intros Hws Hss Hwin Hn off n Hin a. pose proof (i32_range (ss - ws)) as Hoff. fold off in Hoff.
  assert (Hn0 : 0 <= n) by (unfold n, Tcp.payload_len; lia).
  assert (Hb : - 2 ^ 16 <= off <= win /\ a <= n /\ off + a <= Z.min win (off + n))
    by (unfold inside in Hin; lia).
  assert (Hs : ss = seq_at ws off) by (by apply seq_from).
  assert (Hmax : SeqNumber.max ws ss = seq_at ws (off + a)).
  { unfold SeqNumber.max, SeqNumber.gt. rewrite Hs, i32_sub_self, i32_id by lia.
    destruct (Z.ltb_spec 0 (- off)); [|f_equal; lia].
    replace (off + a) with 0 by lia. by apply seq_self. }
  assert (Hmin : SeqNumber.min (seq_at ws win) (seq_at ss n) = seq_at ws (Z.min win (off + n))).
  { unfold SeqNumber.min. rewrite Hs, seq_at_at, seq_lt by lia. destruct (Z.ltb_spec win (off + n)); f_equal; lia. }
  unfold cut. rewrite Hmax, Hmin. rewrite Hs at 1. rewrite seq_sub by lia. rbind.
  rewrite Hs at 1. rewrite seq_sub by lia. rbind.
  unfold range_slice. replace (off + a - off) with a by lia.
  rewrite (proj2 (Z.leb_le _ _)), (proj2 (Z.leb_le _ _)) by (fold (Tcp.payload_len repr); lia). cbn [andb]. rbind.
  pose proof (seq_sub ws (off + a) 0) as Hsub. rewrite <-seq_self in Hsub by done. rewrite Hsub by lia. rbind.
  split; [|lia]. do 2 f_equal; [|lia]. f_equal. lia.
Qed.

End TcpLogic.
