(* ===== verification/TcpInv.v ===== *)
(** * The invariant of a TCP socket, and the parts of receiving a segment

    [ok] is the well-formedness of a socket: its buffers, its assembler and its
    sequence numbers fit together.  The lemmas of this file say what the first
    parts of [TcpProcess.process] do on a socket that is [ok]. *)

From S2P Require Import Prelude TcpWire Assembler AssemblerLaws RingBuffer RingBufferLaws TcpState TcpSocket TcpProcess TcpLogic.
Import TcpState TcpSocket TcpProcess TcpLogic.

Local Open Scope Z_scope.

Module TcpInv.

(** ** The invariant *)

(** The octets sent and not yet acknowledged, control flags included. *)
Definition in_flight (s : Socket) : Z := i32 (remote_last_seq s - local_seq_no s).
Definition tx_len (s : Socket) : Z := Z.of_nat (RingBuffer.len (tx_buffer s)).
Definition rx_len (s : Socket) : Z := Z.of_nat (RingBuffer.len (rx_buffer s)).
Definition rx_window (s : Socket) : Z := Z.of_nat (RingBuffer.window (rx_buffer s)).

(** Nothing is to be acknowledged and no window to be announced. *)
Definition told (s : Socket) : Prop := ack_to_transmit s = Ret false /\ window_to_update s = false.

(** A SYN is out and nothing but the retransmission timer sends it again. *)
Definition quiet (s : Socket) : Prop :=
  told s /\ match timer s with Idle _ => False | _ => True end.

Record ok (s : Socket) : Prop := mkOk {
  ok_rx : RingBufferLaws.wf (rx_buffer s);
  ok_tx : RingBufferLaws.wf (tx_buffer s);
  ok_rx_cap : Z.of_nat (RingBuffer.capacity (rx_buffer s)) <= 2 ^ 30;
  ok_tx_cap : Z.of_nat (RingBuffer.capacity (tx_buffer s)) < 2 ^ 31 - 1;
  ok_assembler : AssemblerLaws.wf (assembler s);
  ok_extent : AssemblerLaws.extent (assembler s) <= rx_window s;
  ok_local : is_seq (local_seq_no s);
  ok_remote : is_seq (remote_seq_no s);
  ok_last : is_seq (remote_last_seq s);
  ok_in_flight : 0 <= in_flight s <= tx_len s + 1;
  ok_win : 0 <= remote_win_len s < 2 ^ 31;
  ok_scale : forall k, remote_win_scale s = Some k -> 0 <= k <= 14;
  ok_shift : 0 <= remote_win_shift s;
  ok_tuple : forall t, tuple s = Some t -> Ip.version (Ip.addr (local t)) = Ip.version (Ip.addr (remote t));
  ok_syn : sent_syn (state s) = true \/ state s = Listen -> tx_len s = 0 /\ rx_len s = 0;
  ok_syn_sent : sent_syn (state s) = true -> in_flight s = 0 \/ quiet s
}.

(** The values a segment that [Tcp.Repr] holds after it was parsed. *)
Record repr_ok (r : Tcp.Repr) : Prop := mkReprOk {
  ro_seq : is_seq (Tcp.seq_number r);
  ro_ack : forall a, Tcp.ack_number r = Some a -> is_seq a;
  ro_payload : Tcp.payload_len r < 2 ^ 16;
  ro_window : 0 <= Tcp.window_len r < 2 ^ 16;
  ro_scale : forall k, Tcp.window_scale r = Some k -> 0 <= k <= 14
}.

(** ** What a call leaves as it was *)

(** The fields that the invariant, the streams and the states are about. *)
Definition core (s : Socket) :=
  (state s, assembler s, rx_buffer s, rx_fin_received s, tx_buffer s, tuple s,
   (local_seq_no s, remote_seq_no s, remote_last_seq s, remote_win_len s, remote_win_scale s,
    remote_win_shift s, keep_alive s)).

(** A socket that was quiet stays quiet. *)
Definition calm (s s' : Socket) : Prop := quiet s -> quiet s'.

(** The fields of [core] one by one. *)
Ltac use_core H :=
  unfold core in H; fields_in H; injection H as ? ? ? ? ? ? ? ? ? ? ? ? ?.

Lemma core_state s s' : core s' = core s -> state s' = state s.
Proof. intros H. by use_core H. Qed.
Lemma core_in_flight s s' : core s' = core s -> in_flight s' = in_flight s.
Proof. intros H. use_core H. unfold in_flight. congruence. Qed.

Lemma told_core s s' :
  core s' = core s -> remote_last_ack s' = remote_last_ack s -> remote_last_win s' = remote_last_win s ->
  told s -> told s'.
Proof.
  intros Hc Ha Hw. use_core Hc. unfold told, ack_to_transmit, window_to_update, scaled_window.
  rewrite Ha, Hw. by repeat match goal with H : _ s' = _ s |- _ => rewrite H; clear H end.
Qed.

Lemma calm_core s s' :
  core s' = core s -> remote_last_ack s' = remote_last_ack s -> remote_last_win s' = remote_last_win s ->
  timer s' = timer s -> calm s s'.
Proof. intros Hc Ha Hw Ht [Htold Htm]. split; [by eapply told_core|by rewrite Ht]. Qed.

Lemma ok_core s s' : ok s -> core s' = core s -> calm s s' -> ok s'.
Proof.
  intros Hok Hc Hcalm. use_core Hc. destruct Hok. unfold rx_window, in_flight, tx_len, rx_len in *.
  split; unfold rx_window, in_flight, tx_len, rx_len;
    repeat match goal with H : _ s' = _ s |- _ => rewrite H end; try done.
  intros Hs. destruct (ok_syn_sent0 Hs); [by left|right; auto].
Qed.

Lemma lt_refl a : SeqNumber.lt a a = false.
Proof. unfold SeqNumber.lt. by rewrite Z.sub_diag. Qed.

Lemma ok_rx_len s : ok s -> 0 <= rx_len s <= 2 ^ 30 - rx_window s /\ rx_len s + rx_window s = Z.of_nat (RingBuffer.capacity (rx_buffer s)) /\
  0 <= rx_window s <= 2 ^ 30.
Proof.
  intros [Hrx _ Hc _ _ _ _ _ _ _ _ _ _ _ _ _]. destruct Hrx as [Hl _ _].
  unfold rx_len, rx_window, RingBuffer.window. lia.
Qed.

Lemma ok_tx_len s : ok s -> 0 <= tx_len s < 2 ^ 31 - 1.
Proof. intros [_ Htx _ Hc _ _ _ _ _ _ _ _ _ _ _ _]. destruct Htx as [Hl _ _]. unfold tx_len. lia. Qed.

(** ** Replies *)

(** An acknowledgement of all that has been received. *)
Record is_ack (s : Socket) (p : reply_t) : Prop := mkIsAck {
  ia_control : Tcp.control (snd p) = Tcp.None_;
  ia_seq : Tcp.seq_number (snd p) = remote_last_seq s;
  ia_ack : Tcp.ack_number (snd p) = Some (seq_at (remote_seq_no s) (rx_len s));
  ia_window : Tcp.window_len (snd p) = scaled_window s;
  ia_payload : Tcp.payload (snd p) = []
}.

(** A reset. *)
Definition is_rst (p : reply_t) : Prop := Tcp.control (snd p) = Tcp.Rst /\ Tcp.payload (snd p) = [].

Lemma reply_ret ip repr : exists i, reply ip repr =
  Ret (i, Tcp.mkRepr (Tcp.dst_port repr) (Tcp.src_port repr) Tcp.None_ 0 None 0 None None false [None; None; None] []).
Proof. unfold reply. destruct ip; eexists; done. Qed.

Lemma rst_reply_ret ip repr : repr_ok repr -> exists p, rst_reply ip repr = Ret p /\ is_rst p.
Proof.
  intros Hro. destruct (reply_ret ip repr) as [i Hr]. unfold rst_reply. rewrite Hr. rbind.
  case_bool_decide as Hc.
  - rewrite add_seq; [rbind; eexists; split; [done|by split]|].
    destruct Hc as [Hs _]. unfold Tcp.segment_len, Tcp.payload_len. rewrite Hs. cbn [Tcp.control_len].
    pose proof (ro_payload _ Hro) as Hp. unfold Tcp.payload_len in Hp. lia.
  - rbind. eexists. split; [done|by split].
Qed.

(** What [ack_reply] does: the fields of the last acknowledgement change. *)
Definition ack_told (s : Socket) : Socket :=
  set_remote_last_win (scaled_window s) (set_remote_last_ack (Some (seq_at (remote_seq_no s) (rx_len s))) s).

Lemma ack_told_told s : ok s -> told (ack_told s).
Proof.
  intros Hok. destruct (ok_rx_len s Hok) as (H1 & H2 & H3). unfold told, ack_told, ack_to_transmit, window_to_update.
  fields. fold (rx_len s). rewrite add_seq by lia. rbind. rewrite lt_refl. split; [done|].
  change (scaled_window (set_remote_last_win _ _)) with (scaled_window s). rewrite Z.ltb_irrefl. by destruct (state s).
Qed.

Lemma ack_reply_wp {R} ip repr (QR : R -> Env -> Prop) Q e :
  ok (self e) ->
  (forall p, is_ack (self e) p -> Q p (mkEnv (cx e) (ack_told (self e)) (woken e))) ->
  wp (ack_reply ip repr) Q QR e.
Proof.
  intros Hok HQ. destruct (ok_rx_len _ Hok) as (H1 & H2 & H3). unfold ack_reply.
  destruct (reply_ret ip repr) as [i Hr]. steps. eapply wp_do; [exact Hr|]. steps.
  eapply wp_do; [apply add_seq; fold (rx_len (self e)); lia|]. steps. apply HQ. split; done.
Qed.

(** What a challenge acknowledgement may change. *)
Definition challenged (s s' : Socket) : Prop := core s' = core s /\ calm s s'.

Lemma challenged_refl s : challenged s s.
Proof. split; [done|]. by intros ?. Qed.

(** The states that know the remote's sequence numbers. *)
Definition live (st : State) : bool := match st with Closed | Listen | SynSent => false | _ => true end.

(** A reply made on the way: nothing, an acknowledgement or a reset. *)
Definition reply_fine (s : Socket) (r : option reply_t) : Prop :=
  match r with None => True | Some p => (is_ack s p /\ live (state s) = true) \/ is_rst p end.

Lemma ack_told_challenged s s' : ok s -> core s' = core s -> timer s' = timer s -> ok s' -> challenged s (ack_told s').
Proof.
  intros Hok Hc Ht Hok'. split; [done|]. intros [_ Htm]. split; [by apply ack_told_told|].
  unfold ack_told. fields. by rewrite Ht.
Qed.

Lemma challenge_ack_reply_wp {R} ip repr (QR : R -> Env -> Prop) Q e :
  ok (self e) -> live (state (self e)) = true ->
  (forall r e', reply_fine (self e) r -> cx e' = cx e -> challenged (self e) (self e') -> Q r e') ->
  wp (challenge_ack_reply ip repr) Q QR e.
Proof.
  intros Hok Hlv HQ. unfold challenge_ack_reply. steps.
  - apply HQ; [done|done|apply challenged_refl].
  - set (s' := set_challenge_ack_timer _ (self e)).
    assert (Hok' : ok s') by (eapply ok_core; [exact Hok|done|by apply calm_core]).
    apply ack_reply_wp; [exact Hok'|]. intros p [? ? ? ? ?]. steps. apply HQ; [left; split; [by split|done]|done|].
    apply ack_told_challenged; done.
Qed.

(** ** The acknowledgement of a segment *)

(** The acknowledgements that [process] goes on with. *)
Definition acceptable (s : Socket) (repr : Tcp.Repr) : Prop :=
  Tcp.control repr = Tcp.Rst \/
  match state s with
  | Listen => Tcp.ack_number repr = None
  | SynSent => Tcp.control repr = Tcp.Syn /\ Tcp.ack_number repr = Some (seq_at (local_seq_no s) 1)
  | SynReceived => Tcp.ack_number repr = Some (seq_at (local_seq_no s) 1)
  | _ => exists d, 0 <= d <= tx_len s + control_len (state s) /\
           Tcp.ack_number repr = Some (seq_at (local_seq_no s) d)
  end.

Lemma control_len_01 st : 0 <= control_len st <= 1.
Proof. by destruct st. Qed.

(** Numbers that are neither below [a] nor above [a + n] are in between. *)
Lemma ack_between a n x :
  is_seq x -> 0 <= n < 2 ^ 31 -> SeqNumber.lt x a = false -> SeqNumber.gt x (seq_at a n) = false ->
  exists d, 0 <= d <= n /\ x = seq_at a d.
Proof.
  intros Hx Hn Hlt Hgt. exists (i32 (x - a)). pose proof (i32_range (x - a)) as Hr.
  assert (Hxa : x = seq_at a (i32 (x - a))) by (by apply seq_from). split; [|done].
  unfold SeqNumber.lt in Hlt. b2p. unfold SeqNumber.gt in Hgt. rewrite Hxa, i32_sub_at in Hgt. b2p.
  rewrite (i32_id (i32 (x - a) - n)) in Hgt by lia. lia.
Qed.

Lemma check_ack_wp ip repr ack (QR : option reply_t -> Env -> Prop) (Q : unit -> Env -> Prop) e :
  ok (self e) -> is_seq ack -> sent_syn (state (self e)) = false -> live (state (self e)) = true ->
  (forall d, 0 <= d <= tx_len (self e) + control_len (state (self e)) ->
     ack = seq_at (local_seq_no (self e)) d -> Q tt e) ->
  (forall r e', reply_fine (self e) r -> cx e' = cx e -> challenged (self e) (self e') -> QR r e') ->
  wp (check_ack ip repr ack) Q QR e.
Proof.
  intros Hok Hack Hsyn Hlv HQ HR. unfold check_ack. pose proof (ok_tx_len _ Hok) as Htx.
  pose proof (control_len_01 (state (self e))). steps. fold (tx_len (self e)).
  eapply wp_do; [apply add_seq; lia|]. steps. rewrite Hsyn. eapply wp_do; [done|]. steps.
  - apply HR; [done|done|apply challenged_refl].
  - apply challenge_ack_reply_wp; [done|done|]. intros r e' ???. steps. by apply HR.
  - destruct (ack_between (local_seq_no (self e)) (tx_len (self e) + control_len (state (self e))) ack)
      as (d & Hd & He); [done|lia|done|done|]. by apply (HQ d).
Qed.

Lemma return_rst_wp ip repr Q (QR : option reply_t -> Env -> Prop) e :
  repr_ok repr -> (forall p, is_rst p -> QR (Some p) e) -> wp (return_rst ip repr) Q QR e.
Proof.
  intros Hro HR. unfold return_rst. destruct (rst_reply_ret ip repr Hro) as (p & Hp & Hrst).
  steps. eapply wp_do; [exact Hp|]. steps. by apply HR.
Qed.

Lemma reject_acks_wp ip repr Q (QR : option reply_t -> Env -> Prop) e :
  ok (self e) -> repr_ok repr -> accepts ip repr (self e) = true ->
  (acceptable (self e) repr -> Q tt e) ->
  (forall r e', reply_fine (self e) r -> cx e' = cx e -> challenged (self e) (self e') -> QR r e') ->
  wp (reject_acks ip repr) Q QR e.
Proof.
  intros Hok Hro Hacc HQ HR. unfold reject_acks. steps. eapply wp_do; [apply add_seq; lia|].
  assert (Hsame : forall r, reply_fine (self e) r -> QR r e).
  { intros r Hr. apply HR; [done|done|apply challenged_refl]. }
  assert (Hrst : forall p, is_rst p -> QR (Some p) e) by (intros p Hp; apply Hsame; by right).
  assert (Hcl : state (self e) <> Closed).
  { intros Hc. unfold accepts in Hacc. by rewrite bool_decide_true in Hacc. }
  assert (Hli : state (self e) = Listen -> Tcp.ack_number repr = None).
  { intros Hc. unfold accepts in Hacc. rewrite bool_decide_false in Hacc by done.
    rewrite bool_decide_true in Hacc by done. by destruct (Tcp.ack_number repr). }
  unfold acceptable in HQ.
  destruct (state (self e)) eqn:Hst, (Tcp.control repr) eqn:Hct, (Tcp.ack_number repr) as [ack|] eqn:Hak;
    try done; try (specialize (Hli eq_refl)); try done;
    steps; b2p; subst; try (by apply Hsame); try (by apply return_rst_wp); try (apply HQ; by eauto);
    (apply check_ack_wp; [done|by eapply ro_ack|by rewrite Hst|by rewrite Hst| |done]; intros d Hd ->;
     apply HQ; right; exists d; rewrite Hst in Hd; done).
Qed.

(** ** The payload of a segment *)

(** The segment seen from the start of the window. *)
Definition seg_off (s : Socket) (repr : Tcp.Repr) : Z :=
  i32 (Tcp.seq_number repr - seq_at (remote_seq_no s) (rx_len s)).

(** The payload taken: the octets from [a] on that fit in the window, at [off]. *)
Definition taken (s : Socket) (repr : Tcp.Repr) (p : list Z) (off : Z) : Prop :=
  match state s with
  | Listen | SynSent => p = [] /\ off = 0
  | _ =>
      let o := seg_off s repr in let a := Z.max 0 (- o) in
      inside (rx_window s) o (Tcp.payload_len repr) /\ off = o + a /\ 0 <= off /\ a <= Tcp.payload_len repr /\
      off <= Z.min (rx_window s) (o + Tcp.payload_len repr) /\
      p = take (Z.to_nat (Z.min (rx_window s) (o + Tcp.payload_len repr) - off))
               (drop (Z.to_nat a) (Tcp.payload repr))
  end.

(** Its length, and that it fits. *)
Lemma taken_fits s repr p off :
  ok s -> taken s repr p off -> 0 <= off /\ off + Z.of_nat (length p) <= rx_window s.
Proof.
  intros Hok Ht. destruct (ok_rx_len s Hok) as (H1 & H2 & H3). unfold taken in Ht.
  assert (Hor : (p = [] /\ off = 0) \/ (0 <= off /\ off + Z.of_nat (length p) <= rx_window s)).
  { destruct (state s); try (by left); right; destruct Ht as (_ & _ & ? & ? & ? & ->);
      rewrite length_take; lia. }
  destruct Hor as [[-> ->]|]; simpl; lia.
Qed.

Lemma payload_len_pos repr : 0 <= Tcp.payload_len repr.
Proof. unfold Tcp.payload_len. lia. Qed.

Lemma receive_window_wp ip repr Q (QR : option reply_t -> Env -> Prop) e :
  ok (self e) -> repr_ok repr -> state (self e) <> Closed ->
  (forall p off e', taken (self e) repr p off -> cx e' = cx e -> challenged (self e) (self e') ->
     Q (seq_at (remote_seq_no (self e)) (rx_len (self e)), (p, off)) e') ->
  (forall r e', reply_fine (self e) r -> cx e' = cx e -> challenged (self e) (self e') -> QR r e') ->
  wp (receive_window ip repr) Q QR e.
Proof.
  intros Hok Hro Hcl HQ HR. unfold receive_window. destruct (ok_rx_len _ Hok) as (H1 & H2 & H3).
  pose proof (ro_payload _ Hro). pose proof (payload_len_pos repr). set (s := self e) in *.
  steps. fold s (rx_len s). eapply wp_do; [apply add_seq; lia|]. steps. rewrite <-H2.
  eapply wp_do; [apply add_seq; lia|]. steps. eapply wp_do; [apply add_seq; lia|].
  set (ws := seq_at (remote_seq_no s) (rx_len s)) in *.
  replace (seq_at (remote_seq_no s) (rx_len s + rx_window s)) with (seq_at ws (rx_window s)) by apply seq_at_at.
  assert (Hws : is_seq ws) by apply is_seq_at.
  destruct (segment_in_window_spec ws (rx_window s) (Tcp.seq_number repr) (Tcp.payload_len repr) Hws
    (ro_seq _ Hro) H3 ltac:(lia)) as (b & Hb & Hin).
  assert (Hmain : sent_syn (state s) = true /\ state s <> SynReceived \/ state s = Listen \/
    wp (inside ← do (segment_in_window ws (seq_at ws (rx_window s)) (Tcp.seq_number repr)
                     (seq_at (Tcp.seq_number repr) (Tcp.payload_len repr)));
        if (inside : bool) then
          upd (set_local_rx_last_seq (Some (Tcp.seq_number repr)));;
          p ← do (cut repr ws (seq_at ws (rx_window s)) (Tcp.seq_number repr)
                    (seq_at (Tcp.seq_number repr) (Tcp.payload_len repr)));
          mret (ws, p)
        else
          c ← context;
          upd (fun s0 => if bool_decide (state s = TimeWait)
                        then set_timer (set_for_close (Iface.now c) (timer s0)) s0 else s0);;
          r ← challenge_ack_reply ip repr;
          return_ r) Q QR e).
  2: { unfold taken in HQ. fold s in HQ |- *. destruct (state s) eqn:Hst; cbn [sent_syn] in Hmain;
       try (destruct Hmain as [[??]|[?|Hmain]]; [done|done|exact Hmain]);
       apply wp_next, HQ; done || apply challenged_refl. }
  destruct (decide (state s = Listen \/ state s = SynSent)) as [[->| ->]|Hst]; [by auto|by left|right; right].
  steps. eapply wp_do; [exact Hb|]. steps.
  - destruct (cut_spec repr ws (rx_window s) (Tcp.seq_number repr) Hws (ro_seq _ Hro) H3 ltac:(lia) (Hin H4))
      as (Hcut & Ha & Hb' & Hc). eapply wp_do; [exact Hcut|]. steps. apply HQ; [|done|split; [done|by apply calm_core]].
    unfold taken. destruct (state s); try (by destruct Hst; auto); unfold seg_off; fold ws;
      (split; [by apply Hin|]; split; [done|]; split; [lia|]; split; [lia|]; split; [lia|done]).
  - set (s' := if bool_decide _ then _ else _).
    assert (Hok' : core s' = core s /\ ok s').
    { unfold s'. case_bool_decide as Htw; [|done]. split; [done|]. apply (ok_core s); [done|done|].
      intros [Ht Htm]. split; [by apply (told_core s)|done]. }
    destruct Hok' as [Hc' Hok'].
    assert (Hlv : live (state s') = true) by (rewrite (core_state _ _ Hc'); destruct (state s); by auto).
    apply challenge_ack_reply_wp; [exact Hok'|exact Hlv|]. intros r e' Hr Hcx [Hc Hcalm]. steps.
    apply HR; [|done|].
    + destruct r as [p|]; [|done]. destruct Hr as [[[? ? ? ? ?] _]|Hr]; [|by right]. left.
      cbn [self] in *. rewrite (core_state _ _ Hc') in Hlv. split; [|done]. use_core Hc'. split; unfold scaled_window, rx_len in *; by
        repeat match goal with H : _ s' = _ s |- _ => rewrite H in * end.
    + split; [by rewrite Hc|]. intros [Ht Htm]. apply Hcalm. unfold s'. cbn [self].
      case_bool_decide; [|done]. split; [by apply (told_core s)|done].
Qed.

(** ** What is acknowledged *)

Definition unsynchronized (st : State) : bool :=
  match st with Listen | SynSent | SynReceived => true | _ => false end.

Record acked_ok (s : Socket) (repr : Tcp.Repr) (a : Acked) : Prop := mkAckedOk {
  ao_len : 0 <= ack_len a <= tx_len s;
  ao_fin : ack_of_fin a = true -> sent_fin (state s) = true /\ ack_len a = tx_len s;
  ao_syn : unsynchronized (state s) = true -> ack_len a = 0;
  ao_ack : Tcp.control repr <> Tcp.Rst -> unsynchronized (state s) = false ->
    Tcp.ack_number repr = Some (seq_at (local_seq_no s) (ack_len a + Z.b2z (ack_of_fin a)))
}.

Lemma ack_number_wp repr ack d Q (QR : option reply_t -> Env -> Prop) e :
  let s := self e in
  ok s -> repr_ok repr -> Tcp.control repr <> Tcp.Rst -> Tcp.ack_number repr = Some ack ->
  0 <= d <= tx_len s + Z.b2z (sent_fin (state s)) ->
  ack = seq_at (local_seq_no s) (Z.b2z (sent_syn (state s)) + d) ->
  (forall all e', cx e' = cx e -> challenged s (self e') ->
     Q (mkAcked (if sent_fin (state s) && (tx_len s + 1 =? d) then d - 1 else d)
          (sent_fin (state s) && (tx_len s + 1 =? d)) all) e') ->
  wp (ack_info repr) Q QR e.
Proof.
  intros s Hok Hro Hrst Hak Hd Hack HQ. pose proof (ok_tx_len s Hok). unfold ack_info. steps. rewrite Hak.
  assert (Hfin : forall all, Q (mkAcked (if sent_fin (state s) && (tx_len s + 1 =? d) then d - 1 else d)
          (sent_fin (state s) && (tx_len s + 1 =? d)) all)
        (mkEnv (cx e) (set_rtte (on_ack (Iface.now (cx e)) ack (rtte s)) s) (woken e))).
  { intros all. apply HQ; [done|]. split; [done|by apply calm_core]. }
  assert (Hb : 0 <= Z.b2z (sent_syn (state s)) <= 1) by (destruct (sent_syn (state s)); done).
  assert (Hf : 0 <= Z.b2z (sent_fin (state s)) <= 1) by (destruct (sent_fin (state s)); done).
  assert (Hge : SeqNumber.ge ack (seq_at (local_seq_no s) (Z.b2z (sent_syn (state s)))) = true).
  { rewrite Hack, seq_ge by lia. apply Z.leb_le. lia. }
  assert (Hsub : SeqNumber.sub ack (seq_at (local_seq_no s) (Z.b2z (sent_syn (state s)))) = Ret d).
  { rewrite Hack, seq_sub by lia. f_equal. lia. }
  destruct (Tcp.control repr) eqn:Hct; try done;
    (steps; eapply wp_do; [apply add_seq; fold s; lia|]; steps; fold s in H0 |- *;
     [eapply wp_do; [exact Hsub|]; steps; apply Hfin|congruence]).
Qed.

Lemma ack_info_wp repr Q (QR : option reply_t -> Env -> Prop) e :
  ok (self e) -> repr_ok repr -> acceptable (self e) repr -> state (self e) <> Closed ->
  (forall a e', acked_ok (self e) repr a -> cx e' = cx e -> challenged (self e) (self e') -> Q a e') ->
  wp (ack_info repr) Q QR e.
Proof.
  intros Hok Hro Hacc Hcl HQ. pose proof (ok_tx_len _ Hok) as Htx. set (s := self e) in *.
  assert (Hnone : (Tcp.control repr = Tcp.Rst \/ (Tcp.ack_number repr = None /\ state s = Listen)) -> wp (ack_info repr) Q QR e).
  { intros Hn. unfold ack_info. steps. fold s.
    assert (HQ0 : Q (mkAcked 0 false false) e).
    { apply HQ; [|done|apply challenged_refl]. split; cbn [ack_len ack_of_fin]; [lia|done|done|].
      intros Hr Hu. destruct Hn as [|[_ Hl]]; [done|]. by rewrite Hl in Hu. }
    destruct (Tcp.control repr) eqn:Hc; try (by steps); destruct Hn as [|[-> _]]; try done; by steps. }
  destruct (decide (Tcp.control repr = Tcp.Rst)) as [Hrst|Hrst]; [by apply Hnone; left|].
  destruct Hacc as [|Hacc]; [done|].
  destruct (decide (state s = Listen)) as [Hli|Hli]; [rewrite Hli in Hacc; apply Hnone; by right|].
  assert (Hex : exists ack d, Tcp.ack_number repr = Some ack /\
    0 <= d <= tx_len s + Z.b2z (sent_fin (state s)) /\ (sent_syn (state s) = true -> d = 0) /\
    ack = seq_at (local_seq_no s) (Z.b2z (sent_syn (state s)) + d)).
  { destruct (state s); try done; try (destruct Hacc as (d & Hd & ->); by exists (seq_at (local_seq_no s) d), d);
      [destruct Hacc as [_ ->]|rewrite Hacc]; exists (seq_at (local_seq_no s) 1), 0; split_and!; done || (cbn [sent_fin Z.b2z]; lia). }
  destruct Hex as (ack & d & Hak & Hd & Hsyn & Hack).
  apply (ack_number_wp repr ack d); try done. fold s. intros all e' Hcx Hch. apply HQ; [|done|done].
  assert (Hu : unsynchronized (state s) = true -> sent_syn (state s) = true) by (by destruct (state s)).
  split; cbn [ack_len ack_of_fin].
  - destruct (sent_fin (state s)) eqn:Hsf; cbn [andb Z.b2z] in *; [|lia].
    destruct (Z.eqb_spec (tx_len s + 1) d); lia.
  - intros [Hf He]%andb_true_iff. rewrite Hf, He. cbn [andb]. apply Z.eqb_eq in He. split; [done|lia].
  - intros Hun. rewrite (Hsyn (Hu Hun)). replace (sent_fin (state s)) with false; [done|]. by destruct (state s).
  - intros _ Hun. rewrite Hak, Hack. do 2 f_equal.
    replace (Z.b2z (sent_syn (state s))) with 0 by (by destruct (state s)).
    destruct (sent_fin (state s) && (tx_len s + 1 =? d)); cbn [Z.b2z]; lia.
Qed.

End TcpInv.
