(* ===== verification/TcpSegment.v ===== *)
(** * What receiving a segment does to a TCP socket

    The rest of the parts of [TcpProcess.process], from the change of state to
    the payload, and [process_spec]: a segment is refused, resets the connection,
    or is taken, and then changes the socket as [took] says. *)

From S2P Require Import Prelude TcpWire Assembler AssemblerLaws RingBuffer RingBufferLaws TcpState TcpSocket TcpProcess TcpLogic TcpInv.
Import TcpState TcpSocket TcpProcess TcpLogic TcpInv.

Local Open Scope Z_scope.

Module TcpSegment.

(** ** The state *)

(** The state after a segment with the control flag [c]; [fin] says that it
    acknowledges our FIN. *)
Definition next_state (st : State) (c : Tcp.Control) (fin : bool) : option State :=
  match st, c with
  | Listen, Tcp.Syn => Some SynReceived
  | SynSent, Tcp.Syn => Some Established
  | SynReceived, Tcp.None_ => Some Established
  | SynReceived, Tcp.Fin => Some CloseWait
  | Established, Tcp.None_ => Some Established
  | Established, Tcp.Fin => Some CloseWait
  | FinWait1, Tcp.None_ => Some (if fin then FinWait2 else FinWait1)
  | FinWait1, Tcp.Fin => Some (if fin then TimeWait else Closing)
  | FinWait2, Tcp.None_ => Some FinWait2
  | FinWait2, Tcp.Fin => Some TimeWait
  | Closing, Tcp.None_ => Some (if fin then TimeWait else Closing)
  | CloseWait, Tcp.None_ => Some CloseWait
  | LastAck, Tcp.None_ => Some (if fin then Closed else LastAck)
  | _, _ => None
  end.

(** The state a reset leads to. *)
Definition reset_state (st : State) : State := match st with SynReceived => Listen | _ => Closed end.

(** The fields after a change of state, by the flag. *)
Definition plain (s : Socket) (c : Tcp.Control) (st : State) : Socket :=
  match c with
  | Tcp.Fin => set_rx_fin_received true (set_remote_seq_no (seq_at (remote_seq_no s) 1) (set_state st s))
  | _ => match st with Closed => set_tuple None (set_state st s) | _ => set_state st s end
  end.

(** The fields a SYN sets, with our initial sequence number [isn]. *)
Definition opened (repr : Tcp.Repr) (t : option Tuple) (isn last : SeqNumber.t) (st : State) (s : Socket) : Socket :=
  set_state st
    (set_remote_win_scale (Tcp.window_scale repr)
       (set_remote_win_shift (match Tcp.window_scale repr with None => 0 | Some _ => remote_win_shift s end)
          (set_remote_last_seq last
             (set_remote_seq_no (seq_at (Tcp.seq_number repr) 1)
                (set_local_seq_no isn (set_tuple t s)))))).

(** The tuple of a connection that a segment opens. *)
Definition tuple_of (ip : Ip.Repr) (repr : Tcp.Repr) : Tuple :=
  mkTuple (Ip.mkEndpoint (Ip.dst_addr ip) (Tcp.dst_port repr))
          (Ip.mkEndpoint (Ip.src_addr ip) (Tcp.src_port repr)).

(** The effect of [transition] on the core of the socket. *)
Inductive moved (ip : Ip.Repr) (repr : Tcp.Repr) (s : Socket) (c : Tcp.Control) (fin : bool) (s1 : Socket) : Prop :=
| moved_listen isn :
    state s = Listen -> c = Tcp.Syn -> is_seq isn ->
    core s1 = core (opened repr (Some (tuple_of ip repr)) isn isn SynReceived s) -> moved ip repr s c fin s1
| moved_connect :
    state s = SynSent -> c = Tcp.Syn ->
    core s1 = core (opened repr (tuple s) (local_seq_no s) (seq_at (local_seq_no s) 1) Established s) ->
    moved ip repr s c fin s1
| moved_plain st :
    c <> Tcp.Syn -> next_state (state s) c fin = Some st -> core s1 = core (plain s c st) ->
    moved ip repr s c fin s1.

(** A part that [transition] is made of. *)
Ltac part_steps :=
  repeat (steps; match goal with
  | |- wp (idle) _ _ _ => unfold idle
  | |- wp (close_later) _ _ _ => unfold close_later
  | |- wp (receive_fin) _ _ _ => unfold receive_fin
  | |- wp (do (SeqNumber.add _ 1)) _ _ _ => eapply wp_do; [apply add_seq; lia|]
  end); steps.

Lemma take_mss_wp repr Q (QR : option reply_t -> Env -> Prop) e :
  (forall m, Q tt (mkEnv (cx e) (set_remote_mss m (self e)) (woken e))) -> Q tt e -> QR None e ->
  wp (take_mss repr) Q QR e.
Proof. intros H1 H2 H3. unfold take_mss. destruct (Tcp.max_seg_size repr); steps; done || apply H1. Qed.

Lemma take_window_scale_wp repr Q (QR : option reply_t -> Env -> Prop) e :
  Q tt (mkEnv (cx e)
         (match Tcp.window_scale repr with
          | None => set_remote_win_shift 0 (set_remote_win_scale None (self e))
          | Some k => set_remote_win_scale (Some k) (self e)
          end) (woken e)) ->
  wp (take_window_scale repr) Q QR e.
Proof. intros H. unfold take_window_scale. steps. by destruct (Tcp.window_scale repr); steps. Qed.

Lemma receive_syn_wp ip repr Q (QR : option reply_t -> Env -> Prop) e :
  (forall isn e', is_seq isn ->
     core (self e') = core (opened repr (Some (tuple_of ip repr)) isn isn SynReceived (self e)) -> Q tt e') ->
  QR None e -> wp (receive_syn ip repr) Q QR e.
Proof.
  intros HQ HR. unfold receive_syn. apply wp_seq.
  assert (H : forall e0, core (self e0) = core (self e) -> wp (
      upd (set_tuple (Some (tuple_of ip repr)));;
      seq ← random_seq_no;
      upd (set_local_seq_no seq);;
      rseq ← do (SeqNumber.add (Tcp.seq_number repr) 1);
      upd (set_remote_seq_no rseq);;
      upd (fun s => set_remote_last_seq (local_seq_no s) s);;
      upd (set_remote_has_sack (Tcp.sack_permitted repr));;
      take_window_scale repr;;
      enter SynReceived;;
      idle) Q QR e0).
  { intros e0 He0. steps. apply wp_random_seq_no. intros c n. part_steps. apply take_window_scale_wp. part_steps. apply (HQ (i32 n)); [apply is_seq_i32|].
    use_core He0. unfold core, opened. destruct (Tcp.window_scale repr); cbn [self]; fields; congruence. }
  apply take_mss_wp; [intros m; by apply H|by apply H|done].
Qed.

Lemma receive_syn_ack_wp repr Q (QR : option reply_t -> Env -> Prop) e :
  (forall e', core (self e') = core (opened repr (tuple (self e)) (local_seq_no (self e))
                (seq_at (local_seq_no (self e)) 1) Established (self e)) -> cx e' = cx e -> Q tt e') ->
  QR None e -> wp (receive_syn_ack repr) Q QR e.
Proof.
  intros HQ HR. unfold receive_syn_ack. apply wp_seq.
  apply take_mss_wp; [intros m|..]; [..|done]; part_steps; apply take_window_scale_wp; part_steps;
    (apply HQ; [|done]; unfold core, opened; destruct (Tcp.window_scale repr); cbn [self]; fields; done).
Qed.

Lemma transition_wp ip repr c a Q (QR : option reply_t -> Env -> Prop) e :
  state (self e) <> Closed ->
  (forall e', moved ip repr (self e) c (ack_of_fin a) (self e') -> Q tt e') ->
  (forall e', (c = Tcp.Rst /\ core (self e') = core (set_tuple None (set_state (reset_state (state (self e))) (self e))))
              \/ core (self e') = core (self e) /\ calm (self e) (self e') -> QR None e') ->
  wp (transition ip repr c a) Q QR e.
Proof.
  intros Hcl HQ HR. unfold transition. steps.
  assert (Hn : forall st e', c <> Tcp.Syn -> next_state (state (self e)) c (ack_of_fin a) = Some st ->
    core (self e') = core (plain (self e) c st) -> Q tt e').
  { intros st e' H1 H2 H3. apply HQ. by eapply moved_plain. }
  assert (Hsame : QR None e) by (apply HR; right; split; [done|by intros ?]).
  assert (Hreset : forall e', c = Tcp.Rst ->
    core (self e') = core (set_tuple None (set_state (reset_state (state (self e))) (self e))) -> QR None e').
  { intros e' H1 H2. apply HR. by left. }
  clear HR. destruct c; destruct (state (self e)) eqn:Hst; try congruence; clear Hcl; part_steps; try exact Hsame;
    lazymatch goal with
    | |- wp (receive_syn _ _) _ _ _ =>
        apply receive_syn_wp; [intros isn e' H1 H2; apply HQ; by eapply moved_listen|done]
    | |- wp (receive_syn_ack _) _ _ _ =>
        apply receive_syn_ack_wp; [intros e' H1 H2; apply HQ; by eapply moved_connect|done]
    | |- QR None _ => apply Hreset; [done|reflexivity]
    | |- _ => idtac
    end; clear Hreset HQ;
    destruct (ack_of_fin a); part_steps;
    (eapply Hn; [discriminate|reflexivity|unfold core, plain; cbn [self]; fields; congruence]).
Qed.

(** ** The remote window and the transmit buffer *)

(** The window a segment announces. *)
Definition announced (s : Socket) (repr : Tcp.Repr) : Z :=
  Z.shiftl (Tcp.window_len repr)
    (match Tcp.control repr with Tcp.Syn => 0 | _ => default 0 (remote_win_scale s) end).

Lemma announced_range s repr :
  repr_ok repr -> (forall k, remote_win_scale s = Some k -> 0 <= k <= 14) -> 0 <= announced s repr < 2 ^ 31.
Proof.
  intros Hro Hsc. pose proof (ro_window _ Hro). unfold announced.
  assert (Hk : exists k, match Tcp.control repr with Tcp.Syn => 0 | _ => default 0 (remote_win_scale s) end = k /\ 0 <= k <= 14).
  { destruct (remote_win_scale s) as [k|]; [specialize (Hsc k eq_refl)|]; destruct (Tcp.control repr); eexists; split; done || lia. }
  destruct Hk as (k & -> & Hk). rewrite Z.shiftl_mul_pow2 by lia.
  assert (2 ^ k <= 2 ^ 14) by (apply Z.pow_le_mono_r; lia). assert (0 < 2 ^ k) by (apply Z.pow_pos_nonneg; lia). nia.
Qed.

(** The transmit buffer without the [n] octets at its front. *)
Definition dropped (b b' : RingBuffer.t Z) (n : Z) : Prop :=
  RingBufferLaws.wf b' /\ RingBuffer.capacity b' = RingBuffer.capacity b /\
  Z.of_nat (RingBuffer.len b') = Z.of_nat (RingBuffer.len b) - n /\
  RingBufferLaws.contents b' = drop (Z.to_nat n) (RingBufferLaws.contents b).

Lemma take_acked_wp n Q (QR : option reply_t -> Env -> Prop) e :
  RingBufferLaws.wf (tx_buffer (self e)) -> 0 <= n <= tx_len (self e) ->
  (forall b e', dropped (tx_buffer (self e)) b n -> cx e' = cx e ->
     (exists w, self e' = set_tx_waker w (set_tx_buffer b (self e))) -> Q tt e') ->
  wp (take_acked n) Q QR e.
Proof.
  intros Hwf Hn HQ. unfold take_acked. unfold tx_len in Hn. steps.
  - destruct (RingBufferLaws.dequeue_allocated_spec (Z.to_nat n) (tx_buffer (self e)) Hwf ltac:(lia))
      as (b & Hb & Hwf' & Hc & Hl & Hcon & _).
    eapply wp_try_upd; [by rewrite Hb|]. steps. apply (HQ b); [|done|by eexists].
    split; [done|]. split; [done|]. split; [lia|done].
  - b2p. assert (n = 0) as -> by lia. apply (HQ (tx_buffer (self e))); [|done|].
    + split; [done|]. split; [done|]. split; [lia|done].
    + exists (tx_waker (self e)). by destruct e as [? [] ?].
Qed.

(** The sequence numbers moved past an acknowledgement. *)
Definition advance (s : Socket) (ack : option SeqNumber.t) : Socket :=
  match ack with
  | None => s
  | Some ack => set_remote_last_seq (if SeqNumber.lt (remote_last_seq s) ack then ack else remote_last_seq s)
                  (set_local_seq_no ack s)
  end.

Lemma count_acks_wp repr b Q (QR : option reply_t -> Env -> Prop) e :
  (forall e', cx e' = cx e -> core (self e') = core (advance (self e) (Tcp.ack_number repr)) ->
     remote_last_ack (self e') = remote_last_ack (self e) -> remote_last_win (self e') = remote_last_win (self e) ->
     Q tt e') ->
  wp (count_acks repr b) Q QR e.
Proof.
  intros HQ. unfold count_acks. destruct (Tcp.ack_number repr) as [ack|]; [|steps; by apply HQ].
  steps. set (d := match local_rx_last_ack (self e) with Some _ => _ | None => false end).
  destruct d; [destruct (_ =? 3)|]; fields;
    destruct (SeqNumber.lt (remote_last_seq (self e)) ack) eqn:Hlt;
    (apply HQ; cbn [self cx]; [done|unfold advance; rewrite Hlt; done|done|done]).
Qed.

(** ** The receive buffer *)

(** What placing the octets [p] at [off] makes of the assembler and the buffer:
    [n] octets are new in front. *)
Record placed (a : Assembler.t) (b : RingBuffer.t Z) (p : list Z) (off : Z)
    (a' : Assembler.t) (b' : RingBuffer.t Z) (n : Z) : Prop := mkPlaced {
  pl_wf : AssemblerLaws.wf a';
  pl_n : 0 <= n <= Z.of_nat (RingBuffer.window b);
  pl_extent : AssemblerLaws.extent a' <= Z.of_nat (RingBuffer.window b) - n;
  pl_next : AssemblerLaws.present a' 0 = false;
  pl_ahead : forall k, 0 <= k -> AssemblerLaws.present a' k =
    AssemblerLaws.present a (k + n) || AssemblerLaws.in_range off (off + Z.of_nat (length p)) (k + n);
  pl_given : forall k, 0 <= k < n ->
    AssemblerLaws.present a k || AssemblerLaws.in_range off (off + Z.of_nat (length p)) k = true;
  pl_buffer : RingBufferLaws.wf b';
  pl_capacity : RingBuffer.capacity b' = RingBuffer.capacity b;
  pl_len : Z.of_nat (RingBuffer.len b') = Z.of_nat (RingBuffer.len b) + n;
  pl_contents : RingBufferLaws.contents b' = RingBufferLaws.contents b ++
    take (Z.to_nat n) (RingBuffer.splice (Z.to_nat off) p (RingBufferLaws.room b));
  pl_room : RingBufferLaws.room b' =
    drop (Z.to_nat n) (RingBuffer.splice (Z.to_nat off) p (RingBufferLaws.room b))
}.

Lemma is_empty_ret a : AssemblerLaws.wf a -> exists b, Assembler.is_empty a = Ret b.
Proof. intros (u & [_ Hl _ _]). destruct a; [by apply Nat.lt_irrefl in Hl|]. by eexists. Qed.

Lemma place_payload_wp p off Q (QR : option reply_t -> Env -> Prop) e :
  let s := self e in
  AssemblerLaws.wf (assembler s) -> RingBufferLaws.wf (rx_buffer s) ->
  AssemblerLaws.extent (assembler s) <= rx_window s -> 0 <= off -> 0 < Z.of_nat (length p) ->
  off + Z.of_nat (length p) <= rx_window s ->
  (forall a' b' n was e', placed (assembler s) (rx_buffer s) p off a' b' n -> cx e' = cx e ->
     (exists w, self e' = set_rx_waker w (set_rx_buffer b' (set_assembler a' s))) -> Q was e') ->
  (forall e', cx e' = cx e -> self e' = s -> 0 < off -> QR None e') ->
  wp (place_payload p off) Q QR e.
Proof.
  intros s Ha Hb Hex Hoff Hp Hfit HQ HR. unfold place_payload. steps.
  assert (Hw : rx_window s < 2 ^ 63) by (destruct Hb as [_ _ Hc]; unfold rx_window, RingBuffer.window; lia).
  destruct (is_empty_ret _ Ha) as [was Hwas]. eapply wp_do; [exact Hwas|]. steps.
  destruct (AssemblerLaws.add_then_remove_front_octets (assembler s) off (Z.of_nat (length p)) Ha Hoff ltac:(lia) ltac:(lia))
    as (a' & r & Hadd & Hwf' & _ & Hr). eapply wp_do; [exact Hadd|]. steps. destruct r as [n|err].
  2: { steps. destruct Hr as (-> & Ho & _). apply HR; [done| |done]. cbn [self]. unfold s. by destruct e as [? [] ?]. }
  destruct Hr as (Hn & Hext & H0 & Hahead & Hgiven).
  rewrite (proj2 (Z.eqb_neq _ _)) in Hext by lia.
  destruct (RingBufferLaws.write_unallocated_spec (Z.to_nat off) p (rx_buffer s) Hb ltac:(lia))
    as (b1 & Hb1 & Hwf1 & Hc1 & Hl1 & Hcon1 & Hroom1).
  unfold rx_window in *.
  replace (length p `min` (RingBuffer.window (rx_buffer s) - Z.to_nat off))%nat with (length p) in * by lia.
  rewrite take_ge in Hroom1 by lia.
  assert (Hex' : 0 <= AssemblerLaws.extent a').
  { destruct Hwf' as (u & Hrep). rewrite (AssemblerLaws.repr_extent _ _ Hrep). destruct Hrep as [_ _ [Hu _] _].
    by apply AssemblerLaws.sum_nonneg. }
  assert (Hw1 : RingBuffer.window b1 = RingBuffer.window (rx_buffer s)) by (unfold RingBuffer.window; lia).
  destruct (RingBufferLaws.enqueue_unallocated_spec (Z.to_nat n) b1 Hwf1 ltac:(lia))
    as (b2 & Hb2 & Hwf2 & Hc2 & Hl2 & Hcon2 & Hroom2).
  assert (Hpl : placed (assembler s) (rx_buffer s) p off a' b2 n).
  { split; try done; try lia; try congruence. }
  apply wp_seq. eapply wp_try_upd; [cbn [self]; fields; fold s; by rewrite Hb1|]. steps.
  - eapply wp_try_upd; [cbn [self]; fields; by rewrite Hb2|]. steps. apply (HQ a' b2 n); [done|done|]. by eexists.
  - b2p. subst n. apply (HQ a' b2 0); [done|done|]. exists (rx_waker s). cbn [self].
    assert (b2 = b1) as ->; [|by unfold s; destruct e as [? [] ?]].
    unfold RingBuffer.enqueue_unallocated, assert_true in Hb2. cbn in Hb2. rewrite Nat.add_0_r in Hb2.
    injection Hb2 as <-. by destruct b1.
Qed.

(** ** A segment that is taken *)

Definition window_start (s : Socket) : SeqNumber.t := seq_at (remote_seq_no s) (rx_len s).

Inductive took (ip : Ip.Repr) (repr : Tcp.Repr) (s s' : Socket) (r : option reply_t) : Prop :=
| Took a p off s1 b s2 :
    acceptable s repr -> acked_ok s repr a -> taken s repr p off ->
    moved ip repr s (effective_control repr (window_start s)) (ack_of_fin a) s1 ->
    dropped (tx_buffer s) b (ack_len a) ->
    core s2 = core (advance (set_tx_buffer b (set_remote_win_len (announced s1 repr) s1)) (Tcp.ack_number repr)) ->
    (core s' = core s2 /\ (p = [] \/ 0 < off) \/
     p <> [] /\ exists a' b' n, placed (assembler s2) (rx_buffer s2) p off a' b' n /\
                 core s' = core (set_rx_buffer b' (set_assembler a' s2))) ->
    (forall q, r = Some q -> p <> [] /\ is_ack s' q) ->
    took ip repr s s' r.

Lemma effective_not_rst repr ws : Tcp.control repr <> Tcp.Rst <-> effective_control repr ws <> Tcp.Rst.
Proof.
  unfold effective_control. destruct (Tcp.control repr); cbn [Tcp.quash_psh]; try (by split);
    repeat case_bool_decide; cbn [andb]; try done; by destruct (negb _).
Qed.

(** The fields that a change of state leaves as they were. *)
Lemma moved_same ip repr s c fin s1 :
  moved ip repr s c fin s1 ->
  assembler s1 = assembler s /\ rx_buffer s1 = rx_buffer s /\ tx_buffer s1 = tx_buffer s /\
  keep_alive s1 = keep_alive s.
Proof.
  intros [isn _ _ _ H|_ _ H|st _ _ H]; unfold plain in H; [use_core H; by split_and!|use_core H; by split_and!|].
  destruct c, st; use_core H; by split_and!.
Qed.

Lemma moved_not_rst ip repr s c fin s1 : moved ip repr s c fin s1 -> c <> Tcp.Rst.
Proof. intros [isn _ -> _ _|_ -> _|st _ Hn _]; [done|done|]. intros ->. by destruct (state s). Qed.

(** How far ahead the last number sent is, after an acknowledgement. *)
Lemma in_flight_after b f k :
  0 <= f < 2 ^ 31 -> 0 <= k < 2 ^ 31 ->
  i32 ((if SeqNumber.lt (seq_at b f) (seq_at b k) then seq_at b k else seq_at b f) - seq_at b k) = Z.max 0 (f - k).
Proof.
  intros Hf Hk. rewrite seq_lt by lia. destruct (Z.ltb_spec f k); rewrite i32_sub_at, i32_id; lia.
Qed.

Lemma in_flight_pos s : is_seq (remote_last_seq s) -> remote_last_seq s = seq_at (local_seq_no s) (in_flight s).
Proof. intros H. by apply seq_from. Qed.

(** A socket whose fields are those of an [ok] one is [ok], unless a SYN is out. *)
Lemma ok_core0 s s' :
  ok s -> core s' = core s -> (sent_syn (state s) = true -> in_flight s = 0) -> ok s'.
Proof.
  intros Hok Hc Hs. use_core Hc. destruct Hok. unfold rx_window, in_flight, tx_len, rx_len in *.
  split; unfold rx_window, in_flight, tx_len, rx_len;
    repeat match goal with H : _ s' = _ s |- _ => rewrite H end; try done. by left; auto.
Qed.

Lemma ok_placed s p off a' b' n :
  ok s -> unsynchronized (state s) = false -> placed (assembler s) (rx_buffer s) p off a' b' n ->
  ok (set_rx_buffer b' (set_assembler a' s)).
Proof.
  intros [] Hs []. split; unfold rx_window, rx_len, tx_len, in_flight in *; fields; try done; try congruence.
  - unfold RingBuffer.window in *. lia.
  - intros [Hx|Hx]; [|by rewrite Hx in Hs]. by destruct (state s).
  - intros Hx. by destruct (state s).
Qed.

(** The socket once the sequence numbers have moved. *)
Definition advanced (s1 : Socket) (repr : Tcp.Repr) (b : RingBuffer.t Z) : Socket :=
  advance (set_tx_buffer b (set_remote_win_len (announced s1 repr) s1)) (Tcp.ack_number repr).

Lemma dropped_0 b b' : dropped b b' 0 -> RingBuffer.len b' = RingBuffer.len b.
Proof. intros (_ & _ & H & _). lia. Qed.

Lemma announced_core s s' repr : core s' = core s -> announced s' repr = announced s repr.
Proof. intros H. use_core H. unfold announced. by repeat match goal with H : _ s' = _ s |- _ => rewrite H; clear H end. Qed.

Lemma advanced_core s s' repr b : core s' = core s -> core (advanced s' repr b) = core (advanced s repr b).
Proof.
  intros H. pose proof (announced_core _ _ repr H) as Ha. use_core H. unfold advanced, advance, core.
  destruct (Tcp.ack_number repr); fields; rewrite Ha;
    by repeat match goal with H : _ s' = _ s |- _ => rewrite H; clear H end.
Qed.

(** The fields of [advanced]. *)
Lemma advanced_fields s repr b :
  state (advanced s repr b) = state s /\ assembler (advanced s repr b) = assembler s /\
  rx_buffer (advanced s repr b) = rx_buffer s /\ tx_buffer (advanced s repr b) = b /\
  tuple (advanced s repr b) = tuple s /\ remote_seq_no (advanced s repr b) = remote_seq_no s /\
  remote_win_scale (advanced s repr b) = remote_win_scale s /\
  remote_win_shift (advanced s repr b) = remote_win_shift s /\
  remote_win_len (advanced s repr b) = announced s repr /\
  rx_fin_received (advanced s repr b) = rx_fin_received s /\ keep_alive (advanced s repr b) = keep_alive s.
Proof. unfold advanced, advance. by destruct (Tcp.ack_number repr). Qed.

Lemma advanced_seqs s repr b f k :
  is_seq (local_seq_no s) -> remote_last_seq s = seq_at (local_seq_no s) f -> 0 <= f < 2 ^ 31 -> 0 <= k < 2 ^ 31 ->
  match Tcp.ack_number repr with None => k = 0 | Some ack => ack = seq_at (local_seq_no s) k end ->
  local_seq_no (advanced s repr b) = seq_at (local_seq_no s) k /\
  is_seq (remote_last_seq (advanced s repr b)) /\ in_flight (advanced s repr b) = Z.max 0 (f - k).
Proof.
  intros Hl Hlast Hf Hk Hack. unfold in_flight, advanced, advance.
  destruct (Tcp.ack_number repr) as [ack|]; fields.
  - rewrite Hlast, Hack. split; [done|]. split; [by case_match; apply is_seq_at|by apply in_flight_after].
  - rewrite Hack, Hlast. split; [by apply seq_self|]. split; [apply is_seq_at|].
    unfold seq_at. rewrite i32_sub_l. replace (local_seq_no s + f - local_seq_no s) with f by lia.
    rewrite i32_id; lia.
Qed.

(** The invariant after the sequence numbers have moved, from what is known of
    the socket before. *)
Record ready (s : Socket) (b : RingBuffer.t Z) (f k : Z) : Prop := mkReady {
  rd_rx : RingBufferLaws.wf (rx_buffer s);
  rd_rx_cap : Z.of_nat (RingBuffer.capacity (rx_buffer s)) <= 2 ^ 30;
  rd_tx : RingBufferLaws.wf b;
  rd_tx_cap : Z.of_nat (RingBuffer.capacity b) < 2 ^ 31 - 1;
  rd_assembler : AssemblerLaws.wf (assembler s);
  rd_extent : AssemblerLaws.extent (assembler s) <= rx_window s;
  rd_local : is_seq (local_seq_no s);
  rd_remote : is_seq (remote_seq_no s);
  rd_last : remote_last_seq s = seq_at (local_seq_no s) f;
  rd_f : 0 <= f < 2 ^ 31;
  rd_k : 0 <= k < 2 ^ 31;
  rd_fk : f - k <= Z.of_nat (RingBuffer.len b) + 1;
  rd_scale : forall k, remote_win_scale s = Some k -> 0 <= k <= 14;
  rd_shift : 0 <= remote_win_shift s;
  rd_tuple : forall t, tuple s = Some t -> Ip.version (Ip.addr (local t)) = Ip.version (Ip.addr (remote t));
  rd_syn : sent_syn (state s) = true \/ state s = Listen -> RingBuffer.len b = 0%nat /\ rx_len s = 0 /\ f <= k
}.

Lemma ready_ok s repr b f k :
  repr_ok repr -> ready s b f k ->
  match Tcp.ack_number repr with None => k = 0 | Some ack => ack = seq_at (local_seq_no s) k end ->
  ok (advanced s repr b) /\ in_flight (advanced s repr b) = Z.max 0 (f - k).
Proof.
  intros Hro [] Hack.
  destruct (advanced_seqs s repr b f k) as (Hl & Hlast & Hfl); try done. split; [|done].
  pose proof (announced_range s repr Hro rd_scale0) as Hwin.
  destruct (advanced_fields s repr b) as (F1 & F2 & F3 & F4 & F5 & F6 & F7 & F8 & F9 & _).
  generalize dependent (advanced s repr b). intros q Hl Hlast Hfl F1 F2 F3 F4 F5 F6 F7 F8 F9.
  unfold rx_len, rx_window in *.
  split; unfold rx_window, tx_len, rx_len; rewrite ?F1, ?F2, ?F3, ?F4, ?F5, ?F6, ?F7, ?F8, ?F9, ?Hl, ?Hfl; try done.
  - apply is_seq_at.
  - lia.
  - intros Hx. destruct (rd_syn0 Hx) as (? & ? & ?). lia.
  - intros Hx. destruct rd_syn0 as (? & ? & ?); [by left|]. left. lia.
Qed.

(** The fields of [opened]. *)
Lemma opened_fields repr t isn last st s :
  state (opened repr t isn last st s) = st /\ assembler (opened repr t isn last st s) = assembler s /\
  rx_buffer (opened repr t isn last st s) = rx_buffer s /\ tx_buffer (opened repr t isn last st s) = tx_buffer s /\
  tuple (opened repr t isn last st s) = t /\ local_seq_no (opened repr t isn last st s) = isn /\
  remote_seq_no (opened repr t isn last st s) = seq_at (Tcp.seq_number repr) 1 /\
  remote_last_seq (opened repr t isn last st s) = last /\
  remote_win_scale (opened repr t isn last st s) = Tcp.window_scale repr /\
  remote_win_shift (opened repr t isn last st s) =
    match Tcp.window_scale repr with None => 0 | Some _ => remote_win_shift s end /\
  rx_fin_received (opened repr t isn last st s) = rx_fin_received s.
Proof. unfold opened. fields. by split_and!. Qed.

(** A connection that a SYN opens. *)
Lemma opened_ok s repr t isn st b f :
  ok s -> repr_ok repr -> tx_len s = 0 -> rx_len s = 0 -> is_seq isn -> 0 <= f < 2 ^ 31 ->
  (forall t', t = Some t' -> Ip.version (Ip.addr (local t')) = Ip.version (Ip.addr (remote t'))) ->
  dropped (tx_buffer s) b 0 ->
  match Tcp.ack_number repr with None => f = 0 | Some ack => ack = seq_at isn f end ->
  ok (advanced (opened repr t isn (seq_at isn f) st s) repr b) /\
  (in_flight (advanced (opened repr t isn (seq_at isn f) st s) repr b) = 0).
Proof.
  intros Hok Hro Htx Hrx Hisn Hf Ht Hb Hack.
  pose proof (dropped_0 _ _ Hb) as Hlen. destruct Hb as (Hwb & Hcb & _ & _).
  destruct (opened_fields repr t isn (seq_at isn f) st s) as (F1 & F2 & F3 & F4 & F5 & F6 & F7 & F8 & F9 & F10 & _).
  generalize dependent (opened repr t isn (seq_at isn f) st s). intros q F1 F2 F3 F4 F5 F6 F7 F8 F9 F10.
  destruct (ready_ok q repr b f f Hro) as [Hq Hfl]; [|by rewrite F6|split; [done|lia]].
  destruct Hok. unfold rx_len, tx_len, rx_window in *.
  split; unfold rx_len, rx_window; rewrite ?F1, ?F2, ?F3, ?F4, ?F5, ?F6, ?F7, ?F8, ?F9, ?F10; try done; try lia.
  - apply is_seq_at.
  - intros k Hk. by apply (ro_scale _ Hro).
  - by destruct (Tcp.window_scale repr).
Qed.

Lemma next_state_sync st c fin st' :
  c <> Tcp.Syn -> next_state st c fin = Some st' -> unsynchronized st' = false /\ st <> Listen /\ st <> SynSent.
Proof. by destruct st, c, fin; intros ? [= <-]. Qed.

(** The acknowledgement of a segment in a connection that is open. *)
Lemma plain_ack s repr a c st :
  acceptable s repr -> acked_ok s repr a -> Tcp.control repr <> Tcp.Rst ->
  c <> Tcp.Syn -> next_state (state s) c (ack_of_fin a) = Some st ->
  exists k, Tcp.ack_number repr = Some (seq_at (local_seq_no s) k) /\
    (state s = SynReceived /\ k = 1 \/
     unsynchronized (state s) = false /\ k = ack_len a + Z.b2z (ack_of_fin a)).
Proof.
  intros [|Hacc] Hao Hrst Hc Hn; [done|]. destruct (next_state_sync _ _ _ _ Hc Hn) as (_ & Hl & Hs).
  destruct (decide (state s = SynReceived)) as [He|He].
  - rewrite He in Hacc. exists 1. auto.
  - assert (Hu : unsynchronized (state s) = false) by (by destruct (state s)).
    exists (ack_len a + Z.b2z (ack_of_fin a)). split; [by apply (ao_ack _ _ _ Hao)|by right].
Qed.

(** The fields of [plain] but the state and what a FIN changes. *)
Lemma plain_fields s c st :
  state (plain s c st) = st /\ assembler (plain s c st) = assembler s /\ rx_buffer (plain s c st) = rx_buffer s /\
  tx_buffer (plain s c st) = tx_buffer s /\ local_seq_no (plain s c st) = local_seq_no s /\
  remote_last_seq (plain s c st) = remote_last_seq s /\ remote_win_scale (plain s c st) = remote_win_scale s /\
  remote_win_shift (plain s c st) = remote_win_shift s /\ keep_alive (plain s c st) = keep_alive s /\
  (tuple (plain s c st) = tuple s \/ tuple (plain s c st) = None) /\
  remote_seq_no (plain s c st) = (if bool_decide (c = Tcp.Fin) then seq_at (remote_seq_no s) 1 else remote_seq_no s) /\
  rx_fin_received (plain s c st) = (if bool_decide (c = Tcp.Fin) then true else rx_fin_received s).
Proof. unfold plain. destruct c; try (destruct st); fields; split_and!; auto. Qed.

Lemma plain_ok s repr a c st b :
  ok s -> repr_ok repr -> acceptable s repr -> acked_ok s repr a -> Tcp.control repr <> Tcp.Rst ->
  c <> Tcp.Syn -> next_state (state s) c (ack_of_fin a) = Some st -> dropped (tx_buffer s) b (ack_len a) ->
  ok (advanced (plain s c st) repr b).
Proof.
  intros Hok Hro Hacc Hao Hrst Hc Hn (Hwb & Hcb & Hlb & _).
  destruct (plain_ack _ _ _ _ _ Hacc Hao Hrst Hc Hn) as (k & Hak & Hk).
  destruct (next_state_sync _ _ _ _ Hc Hn) as (Hu & _ & _).
  destruct (plain_fields s c st) as (P1 & P2 & P3 & P4 & P5 & P6 & P7 & P8 & _ & P9 & P10 & _).
  generalize dependent (plain s c st). intros q P1 P2 P3 P4 P5 P6 P7 P8 P9 P10.
  pose proof (ok_tx_len s Hok) as Htx. pose proof (ao_len _ _ _ Hao) as Hal.
  pose proof (ok_in_flight s Hok) as Hif. pose proof (in_flight_pos s (ok_last s Hok)) as Hlast.
  assert (Hk' : ack_len a <= k <= ack_len a + 1 /\ in_flight s - k <= tx_len s - ack_len a + 1).
  { destruct Hk as [[Hs ->]|[_ ->]]; [|destruct (ack_of_fin a); cbn [Z.b2z]; lia].
    destruct (ok_syn s Hok) as [Ht _]; [left; by rewrite Hs|]. rewrite (ao_syn _ _ _ Hao) by (by rewrite Hs). lia. }
  apply (ready_ok q repr b (in_flight s) k Hro); [|by rewrite Hak, P5].
  destruct Hok. unfold rx_len, tx_len, rx_window in *.
  split; unfold rx_len, rx_window; rewrite ?P1, ?P2, ?P3, ?P4, ?P5, ?P6, ?P7, ?P8, ?P10; try done; try lia.
  - case_bool_decide; [apply is_seq_at|done].
  - intros t Ht. destruct P9 as [P9|P9]; rewrite P9 in Ht; [auto|done].
  - intros [Hx|Hx]; [by destruct st|by rewrite Hx in Hu].
Qed.

(** The invariant holds after the sequence numbers have moved. *)
Lemma advanced_ok ip repr s a s1 b c :
  ok s -> repr_ok repr -> acceptable s repr -> acked_ok s repr a -> Tcp.control repr <> Tcp.Rst ->
  moved ip repr s c (ack_of_fin a) s1 -> dropped (tx_buffer s) b (ack_len a) ->
  ok (advanced s1 repr b) /\
  (sent_syn (state (advanced s1 repr b)) = true -> in_flight (advanced s1 repr b) = 0) /\
  (state s <> Listen -> unsynchronized (state (advanced s1 repr b)) = false).
Proof.
  intros Hok Hro Hacc Hao Hrst Hm Hb.
  assert (Hst : forall s0, state (advanced s0 repr b) = state s0)
    by (intros s0; unfold advanced, advance; by destruct (Tcp.ack_number repr)).
  destruct Hm as [isn Hs -> Hisn H|Hs -> H|st Hc Hn H]; pose proof (advanced_core _ _ repr b H) as Hcore.
  - destruct (ok_syn s Hok) as [Htx Hrx]; [by right|].
    rewrite (ao_syn _ _ _ Hao) in Hb by (by rewrite Hs). destruct Hacc as [|Hacc]; [done|]. rewrite Hs in Hacc.
    destruct (opened_ok s repr (Some (tuple_of ip repr)) isn SynReceived b 0) as [Ho Hf]; try done.
    { intros t [= <-]. by destruct ip. }
    { by rewrite Hacc. }
    rewrite <-(seq_self isn Hisn) in Ho, Hf.
    split; [by apply (ok_core0 _ _ Ho)|]. split; [|done]. intros _.
    by rewrite (core_in_flight _ _ Hcore).
  - destruct (ok_syn s Hok) as [Htx Hrx]; [left; by rewrite Hs|].
    rewrite (ao_syn _ _ _ Hao) in Hb by (by rewrite Hs). destruct Hacc as [|Hacc]; [done|]. rewrite Hs in Hacc.
    destruct (opened_ok s repr (tuple s) (local_seq_no s) Established b 1) as [Ho Hf];
      try done; [by apply Hok|by apply Hok|by destruct Hacc as [_ ->]|].
    split; [by apply (ok_core0 _ _ Ho)|]. rewrite Hst, (core_state _ _ H).
    destruct (opened_fields repr (tuple s) (local_seq_no s) (seq_at (local_seq_no s) 1) Established s) as [-> _]. done.
  - pose proof (plain_ok s repr a c st b Hok Hro Hacc Hao Hrst Hc Hn Hb) as Ho.
    destruct (next_state_sync _ _ _ _ Hc Hn) as (Hu & _ & _). rewrite !Hst.
    assert (Hst1 : state s1 = st) by (rewrite (core_state _ _ H); apply plain_fields).
    assert (Hss : sent_syn st = false) by (by destruct st). rewrite Hst1. split; [|by rewrite Hss].
    apply (ok_core0 _ _ Ho Hcore). rewrite Hst. destruct (plain_fields s c st) as [-> _]. by rewrite Hss.
Qed.

(** ** The whole of [process] *)

Lemma challenged_trans s s' s'' : challenged s s' -> challenged s' s'' -> challenged s s''.
Proof. intros [H1 H2] [H3 H4]. split; [congruence|]. intros H. auto. Qed.

Lemma ok_challenged s s' : ok s -> challenged s s' -> ok s'.
Proof. intros Hok [H1 H2]. by apply (ok_core s). Qed.

(** What the parts read depends on the core only. *)
Section core_ext.
Context (s s' : Socket) (Hcore : core s' = core s).

Ltac by_core := use_core Hcore;
  by repeat match goal with H : _ s' = _ s |- _ => rewrite H; clear H end.

Lemma acceptable_ext repr : acceptable s' repr <-> acceptable s repr.
Proof. unfold acceptable, tx_len. by_core. Qed.
Lemma taken_ext repr p off : taken s' repr p off <-> taken s repr p off.
Proof. unfold taken, seg_off, rx_len, rx_window. by_core. Qed.
Lemma acked_ok_ext repr a : acked_ok s' repr a -> acked_ok s repr a.
Proof.
  use_core Hcore. intros []. unfold tx_len in *.
  split; unfold tx_len; repeat match goal with H : _ s' = _ s |- _ => rewrite <-H end; done.
Qed.
Lemma window_start_ext : window_start s' = window_start s.
Proof. unfold window_start, rx_len. by_core. Qed.
Lemma plain_ext c st : core (plain s' c st) = core (plain s c st).
Proof. unfold plain, core. destruct c; try (destruct st); fields; by_core. Qed.
Lemma opened_ext repr t isn last st : core (opened repr t isn last st s') = core (opened repr t isn last st s).
Proof. unfold opened, core. fields. by_core. Qed.
Lemma moved_ext ip repr c fin s1 : moved ip repr s' c fin s1 -> moved ip repr s c fin s1.
Proof.
  intros [isn H1 H2 H3 H|H1 H2 H|st H1 H2 H]; [eapply moved_listen|apply moved_connect|eapply moved_plain]; try done.
  - use_core Hcore. congruence.
  - by rewrite <-opened_ext.
  - use_core Hcore. congruence.
  - rewrite H. pose proof Hcore as Hc. use_core Hc.
    repeat match goal with H : _ s' = _ s |- _ => rewrite H end. apply opened_ext.
  - use_core Hcore. replace (state s) with (state s') by congruence. exact H2.
  - by rewrite H, plain_ext.
Qed.

End core_ext.

Lemma delay_ack_wp Q (QR : option reply_t -> Env -> Prop) e :
  ok (self e) -> (forall t, Q tt (mkEnv (cx e) (set_ack_delay_timer t (self e)) (woken e))) ->
  wp delay_ack Q QR e.
Proof.
  intros Hok HQ. unfold delay_ack. steps. destruct (ok_rx_len _ Hok) as (H1 & _ & H3).
  assert (Hsame : Q tt e).
  { specialize (HQ (ack_delay_timer (self e))). by destruct e as [? [] ?]. }
  destruct (ack_delay (self e)); [|by steps]. steps.
  assert (Hret : exists b, ack_to_transmit (self e) = Ret b).
  { unfold ack_to_transmit. destruct (remote_last_ack (self e)); [|by eexists].
    fold (rx_len (self e)). rewrite add_seq by lia. by eexists. }
  destruct Hret as [b Hb]. eapply wp_do; [exact Hb|]. steps; [|done]. apply HQ.
Qed.

(** The end of [process], once the sequence numbers have moved. *)
Lemma finish_wp ip repr p off (P : option reply_t -> Env -> Prop) e :
  let s := self e in
  ok s -> 0 <= off -> off + Z.of_nat (length p) <= rx_window s ->
  (p <> [] -> unsynchronized (state s) = false) ->
  (forall r e', (forall q, r = Some q -> p <> [] /\ is_ack (self e') q) -> ok (self e') ->
     (core (self e') = core s /\ (p = [] \/ 0 < off) \/
      p <> [] /\ exists a' b' n, placed (assembler s) (rx_buffer s) p off a' b' n /\
                  core (self e') = core (set_rx_buffer b' (set_assembler a' s))) -> P r e') ->
  wp (if (length p =? 0)%nat then return_ None
      else
        assembler_was_empty ← place_payload p off;
        delay_ack;;
        a ← get assembler;
        empty ← do (Assembler.is_empty a);
        if negb empty || negb assembler_was_empty then r ← ack_reply ip repr; mret (Some r)
        else mret None) P P e.
Proof.
  intros s Hok Hoff Hfit Hsync HP. steps.
  { b2p. apply HP; [done|done|]. left. split; [done|]. left. by apply length_zero_iff_nil. }
  b2p. assert (Hp : p <> []) by (by intros ->). pose proof Hok as [].
  apply place_payload_wp; fold s; try done; [lia| |].
  2: { intros e' Hcx Hs' Ho. apply HP; [done|by rewrite Hs'|]. left. rewrite Hs'. auto. }
  intros a' b' n was e1 Hpl Hcx (w & Hs1).
  assert (Hok1 : ok (self e1)).
  { apply (ok_core0 (set_rx_buffer b' (set_assembler a' s))); [by eapply ok_placed; auto|by rewrite Hs1|].
    fields. specialize (Hsync Hp). by destruct (state s). }
  assert (Hfin : forall r e', (forall q, r = Some q -> p <> [] /\ is_ack (self e') q) ->
    challenged (self e1) (self e') -> P r e').
  { intros r e' Hr Hch. apply HP; [done|by eapply ok_challenged|]. right. split; [done|].
    exists a', b', n. split; [done|]. destruct Hch as [-> _]. by rewrite Hs1. }
  steps. apply delay_ack_wp; [done|]. intros t. set (s2 := set_ack_delay_timer t (self e1)).
  assert (Hch : challenged (self e1) s2) by (split; [done|by apply calm_core]). steps.
  destruct (is_empty_ret a') as [em Hem]; [apply Hpl|]. 
  assert (Has : assembler s2 = a') by (unfold s2; fields; by rewrite Hs1).
  eapply wp_do; [by rewrite Has|]. steps.
  - apply ack_reply_wp; [by apply (ok_challenged (self e1))|]. intros q Hq. steps. apply Hfin.
    + intros q' [= <-]. split; [done|]. destruct Hq. by split.
    + eapply challenged_trans; [exact Hch|]. cbn [self].
      apply ack_told_challenged; try done; by apply (ok_challenged (self e1)).
  - apply Hfin; [done|exact Hch].
Qed.

Lemma accepts_not_closed ip repr s : accepts ip repr s = true -> state s <> Closed.
Proof. intros Hacc Hc. unfold accepts in Hacc. by rewrite bool_decide_true in Hacc. Qed.

(** What an accepted segment does: it is refused, it resets the connection, or
    it is taken.  [process] returns in every case. *)
Lemma process_spec ip repr (P : option reply_t -> Env -> Prop) e :
  ok (self e) -> repr_ok repr -> accepts ip repr (self e) = true ->
  (forall r e', reply_fine (self e) r -> challenged (self e) (self e') -> P r e') ->
  (forall e', Tcp.control repr = Tcp.Rst ->
     core (self e') = core (set_tuple None (set_state (reset_state (state (self e))) (self e))) -> P None e') ->
  (forall r e', ok (self e') -> took ip repr (self e) (self e') r -> P r e') ->
  exists e' r, process ip repr e = Ret (e', r) /\ P r e'.
Proof.
  intros Hok Hro Hacc Hrefused Hreset Htook. apply wp_call. set (s := self e) in *.
  pose proof (accepts_not_closed _ _ _ Hacc) as Hcl.
  apply wp_seq, reject_acks_wp; [done|done|done| |].
  2: { intros r e' Hr _ Hch. by apply Hrefused. }
  intros Hacceptable. apply wp_seq, receive_window_wp; [done|done|done| |].
  2: { intros r e' Hr _ Hch. by apply Hrefused. }
  intros p off e1 Htaken _ Hch1. fold s in Htaken, Hch1 |- *. fold (window_start s).
  assert (Hok1 : ok (self e1)) by (by eapply ok_challenged). destruct Hch1 as [Hc1 Hcalm1].
  assert (Hst1 : state (self e1) = state s) by (by apply core_state).
  apply wp_seq, ack_info_wp; [done|done|by rewrite acceptable_ext|by rewrite Hst1|].
  intros a e2 Hacked%(acked_ok_ext s _ Hc1) _ [Hc2 Hcalm2].
  assert (Hok2 : ok (self e2)) by (by apply (ok_core (self e1))).
  assert (Hc20 : core (self e2) = core s) by congruence.
  assert (Hst2 : state (self e2) = state s) by (by apply core_state).
  apply wp_seq, transition_wp; [by rewrite Hst2| |].
  2: { intros e' [[Hr Hc]|[Hc Hcm]].
    - apply Hreset; [destruct (decide (Tcp.control repr = Tcp.Rst)) as [|Hn]; [done|]; by apply (effective_not_rst _ (window_start s)) in Hn|].
      rewrite Hc. use_core Hc20. unfold core. fields. congruence.
    - apply Hrefused; [done|]. split; [congruence|]. intros Hq. auto. }
  intros e3 Hmoved%(moved_ext s _ Hc20).
  destruct (moved_same _ _ _ _ _ _ Hmoved) as (Ha3 & Hr3 & Ht3 & _).
  assert (Hnr : Tcp.control repr <> Tcp.Rst) by (eapply effective_not_rst, moved_not_rst; exact Hmoved).
  unfold update_remote. steps.
  apply take_acked_wp; cbn [self]; unfold tx_len; fields; rewrite ?Ht3; [apply Hok|apply Hacked|].
  intros b e4 Hdrop _ (w & He4). steps. apply count_acks_wp. intros e5 _ Hc5 _ _.
  assert (Hcore5 : core (self e5) = core (advanced (self e3) repr b)).
  { rewrite Hc5, He4. unfold advanced, advance, announced. destruct (Tcp.ack_number repr); done. }
  destruct (advanced_ok ip repr s a (self e3) b _ Hok Hro Hacceptable Hacked Hnr Hmoved Hdrop) as (Hok5 & Hsyn5 & Hsync5).
  assert (Hok5' : ok (self e5)) by (by apply (ok_core0 _ _ Hok5)).
  assert (Hrx5 : rx_buffer (self e5) = rx_buffer s).
  { use_core Hcore5. destruct (advanced_fields (self e3) repr b) as (_ & _ & Hx & _). congruence. }
  destruct (taken_fits _ _ _ _ Hok Htaken) as [Hoff Hfit].
  apply (finish_wp ip repr p off); [done|done|unfold rx_window; by rewrite Hrx5| |].
  - intros Hp. rewrite (core_state _ _ Hcore5).
    apply Hsync5. intros Hl. unfold taken in Htaken. rewrite Hl in Htaken. by destruct Htaken.
  - intros r e6 Hr Hok6 Hplaced. apply Htook; [done|]. by eapply (Took ip repr s _ r a p off (self e3) b (self e5)).
Qed.

End TcpSegment.
