(* ===== verification/TcpSend.v ===== *)
(** * What sending does to a TCP socket

    The parts of [TcpDispatch.dispatch] on a socket that is [ok], and
    [dispatch_spec]: a call sends nothing, resets the socket, or hands a segment
    to the device that is [outgoing] from the socket. *)

From S2P Require Import Prelude TcpWire Assembler AssemblerLaws RingBuffer RingBufferLaws TcpState TcpSocket TcpProcess TcpDispatch TcpLogic TcpInv TcpSegment.
Import TcpState TcpSocket TcpProcess TcpDispatch TcpLogic TcpInv TcpSegment.

Local Open Scope Z_scope.

Module TcpSend.

(** ** Whether there is something to send *)

Lemma octets_up_to_ret a w f :
  0 <= w < 2 ^ 31 -> 0 <= f < 2 ^ 31 -> octets_up_to (seq_at a w) (seq_at a f) = Ret (Z.max 0 (w - f)).
Proof.
  intros Hw Hf. unfold octets_up_to. rewrite seq_ge by lia. destruct (Z.leb_spec f w).
  - rewrite seq_sub by lia. f_equal. lia.
  - f_equal. lia.
Qed.

Lemma ok_flight s : ok s -> remote_last_seq s = seq_at (local_seq_no s) (in_flight s) /\ 0 <= in_flight s < 2 ^ 31.
Proof.
  intros Hok. split; [apply in_flight_pos, Hok|]. pose proof (ok_in_flight s Hok). pose proof (ok_tx_len s Hok). lia.
Qed.

(** [seq_to_transmit] as a function of what is in flight. *)
Definition transmits (c : Iface.Context) (t : Tuple) (s : Socket) : bool :=
  let f := in_flight s in
  if sent_syn (state s) && (f =? 0) then true
  else
    let max_send := Z.max 0 (Z.min (remote_win_len s) (tx_len s) - f) in
    let full := Z.min (local_mss c (ip_header_len (Ip.addr (local t)))) (remote_mss s) <=? max_send in
    let can_send := if nagle s && negb (f =? 0) && negb full && negb (want_fin (state s)) then false
                    else negb (max_send =? 0) in
    can_send || want_fin (state s) && (f =? tx_len s).

(** The numbers that [seq_to_transmit] works on. *)
Record flows (s : Socket) : Prop := mkFlows {
  fl_local : is_seq (local_seq_no s);
  fl_last : remote_last_seq s = seq_at (local_seq_no s) (in_flight s);
  fl_flight : 0 <= in_flight s < 2 ^ 31;
  fl_tx : 0 <= tx_len s < 2 ^ 31;
  fl_win : 0 <= remote_win_len s < 2 ^ 31
}.

Lemma ok_flows s : ok s -> flows s.
Proof.
  intros Hok. destruct (ok_flight s Hok). pose proof (ok_tx_len s Hok). split; try done; try lia; apply Hok.
Qed.

Lemma flows_ret c t s : flows s -> tuple s = Some t -> seq_to_transmit c s = Ret (transmits c t s).
Proof.
  intros [Hlo Hl Hf Htx Hwin] Ht. unfold seq_to_transmit, transmits. rewrite Ht. rbind. rewrite Hl.
  assert (Hz : forall n, 0 <= n < 2 ^ 31 -> (seq_at (local_seq_no s) (in_flight s) =? seq_at (local_seq_no s) n) = (in_flight s =? n))
    by (intros n Hn; apply seq_eq; lia).
  pose proof (Hz 0 ltac:(lia)) as Hz0. rewrite <-seq_self in Hz0 by done. rewrite Hz0.
  replace (match state s with SynSent | SynReceived => true | _ => false end) with (sent_syn (state s))
    by (by destruct (state s)).
  rewrite negb_involutive. destruct (sent_syn (state s) && (in_flight s =? 0)); [done|].
  fold (tx_len s). rewrite (add_seq _ (Z.min (remote_win_len s) (tx_len s))), (add_seq _ (tx_len s)) by lia. rbind.
  rewrite octets_up_to_ret by lia. rbind. rewrite Hz by lia. done.
Qed.

Lemma flows_syn c t s :
  flows s -> sent_syn (state s) = true -> tx_len s = 0 -> transmits c t s = (in_flight s =? 0).
Proof.
  intros [_ _ Hf _ Hwin] Hs Htx. unfold transmits. rewrite Hs. cbn [andb].
  destruct (Z.eqb_spec (in_flight s) 0); [done|]. replace (want_fin (state s)) with false by (by destruct (state s)).
  rewrite Htx. replace (Z.max 0 (Z.min (remote_win_len s) 0 - in_flight s)) with 0 by lia. cbn.
  rewrite orb_false_r. by case_match.
Qed.

Lemma seq_to_transmit_ret c t s :
  ok s -> tuple s = Some t -> seq_to_transmit c s = Ret (transmits c t s).
Proof. intros Hok. by apply flows_ret, ok_flows. Qed.

Lemma transmits_syn c t s :
  ok s -> sent_syn (state s) = true -> transmits c t s = (in_flight s =? 0).
Proof. intros Hok Hs. apply flows_syn; [by apply ok_flows|done|]. apply (ok_syn s Hok). by left. Qed.

(** ** The timers *)

(** What the timers may do before a segment is sent. *)
Inductive timed (now : Time.Instant) (s s1 : Socket) : Prop :=
| timed_same : s1 = s -> timed now s s1
| timed_out_closed w w' : timed_out now s = true -> s1 = set_tx_waker w' (set_rx_waker w (set_state Closed s)) -> timed now s s1
| timed_rewound d r :
    should_retransmit now (timer s) = Some d ->
    s1 = set_rtte r (set_timer (set_for_idle now (keep_alive s) (timer s)) (set_remote_last_seq (local_seq_no s) s)) ->
    timed now s s1.

Lemma in_flight_rewound s : i32 (local_seq_no s - local_seq_no s) = 0.
Proof. by rewrite Z.sub_diag. Qed.

Lemma timed_ok now s s1 : ok s -> timed now s s1 -> ok s1.
Proof.
  intros Hok [->|w w' _ ->|d r _ ->]; [done|..].
  - destruct Hok. unfold rx_window, in_flight, tx_len, rx_len in *.
    split; unfold rx_window, in_flight, tx_len, rx_len; fields; try done. by intros [|].
  - pose proof (ok_tx_len s Hok). destruct Hok. unfold rx_window, in_flight, tx_len, rx_len in *.
    split; unfold rx_window, in_flight, tx_len, rx_len; fields; rewrite ?in_flight_rewound; try done.
    + lia.
    + intros _. by left.
Qed.

Lemma timed_tuple now s s1 : timed now s s1 -> tuple s1 = tuple s.
Proof. by intros [->|w w' _ ->|d r _ ->]. Qed.

(** ** The segment *)

(** The states in which data is sent. *)
Definition sends_data (st : State) : bool :=
  match st with Established | FinWait1 | Closing | CloseWait | LastAck => true | _ => false end.

(** A segment the socket sends: its place in the stream, and what it carries. *)
Record outgoing (s : Socket) (r : Tcp.Repr) : Prop := mkOutgoing {
  og_seq : Tcp.seq_number r = remote_last_seq s;
  og_ack : Tcp.ack_number r = if bool_decide (state s = SynSent) then None
                              else Some (seq_at (remote_seq_no s) (rx_len s));
  og_window : Tcp.window_len r = if sent_syn (state s) then Z.min (rx_window s) (2 ^ 16 - 1) else scaled_window s;
  og_state : state s <> Listen;
  og_syn : Tcp.control r = Tcp.Syn <-> sent_syn (state s) = true;
  og_scale : Tcp.control r = Tcp.Syn -> Tcp.window_scale r =
    if bool_decide (state s = SynSent) then Some (remote_win_shift s)
    else (fun _ => remote_win_shift s) <$> remote_win_scale s;
  og_rst : Tcp.control r = Tcp.Rst <-> state s = Closed;
  og_psh : Tcp.control r = Tcp.Psh -> Tcp.payload r <> [];
  og_fin : Tcp.control r = Tcp.Fin <->
    sent_fin (state s) = true /\ in_flight s + Tcp.payload_len r = tx_len s;
  og_payload : Tcp.payload r =
    if sends_data (state s)
    then take (length (Tcp.payload r)) (drop (Z.to_nat (in_flight s)) (RingBufferLaws.contents (tx_buffer s))) else [];
  og_fits : in_flight s + Tcp.payload_len r <= Z.max (in_flight s) (tx_len s);
  og_limit : Tcp.payload_len r <= Z.max 0 (Z.min (remote_win_len s - in_flight s) (remote_mss s))
}.

Lemma with_mss_outgoing c h s r : outgoing s r -> outgoing s (with_mss c h r).
Proof.
  intros Ho. unfold with_mss. case_bool_decide; [|done]. destruct Ho.
  by split; unfold Tcp.payload_len in *; cbn [Tcp.seq_number Tcp.ack_number Tcp.window_len Tcp.window_scale Tcp.control Tcp.payload].
Qed.

Lemma data_repr_ret c h t s :
  ok s -> sends_data (state s) = true ->
  exists r, data_repr c h (basic_repr t (seq_at (remote_seq_no s) (rx_len s)) s) s = Ret r /\ outgoing s r.
Proof.
  intros Hok Hd. destruct (ok_flight s Hok) as [Hl Hf]. pose proof (ok_win s Hok) as Hwin.
  pose proof (RingBufferLaws.length_contents _ (ok_tx s Hok)) as Hlc. unfold data_repr.
  pose proof (octets_up_to_ret (local_seq_no s) (remote_win_len s) (in_flight s)) as Hup. rewrite <-Hl in Hup.
  rewrite add_seq by lia. rbind. rewrite Hup by lia. rbind.
  set (size := Z.min (Z.min (Z.max 0 (remote_win_len s - in_flight s)) (remote_mss s)) (local_mss c h)).
  pose proof (seq_sub (local_seq_no s) (in_flight s) 0) as Hsub. rewrite <-Hl, <-seq_self in Hsub by apply Hok.
  rewrite Hsub, Z.sub_0_r by lia. rbind.
  rewrite RingBufferLaws.get_allocated_spec by apply Hok. rbind.
  set (n := (_ `min` _)%nat). set (p := take n (drop (Z.to_nat (in_flight s)) (RingBufferLaws.contents (tx_buffer s)))).
  assert (Hlp : length p = n) by (unfold p; rewrite length_take, length_drop; lia).
  assert (Hpl : p = take (length p) (drop (Z.to_nat (in_flight s)) (RingBufferLaws.contents (tx_buffer s)))) by (by rewrite Hlp).
  assert (Hn : Z.of_nat n <= Z.max 0 size) by lia.
  assert (Hfit : in_flight s + Z.of_nat n <= Z.max (in_flight s) (tx_len s)) by (unfold tx_len; lia).
  assert (Hlim : Z.of_nat (length p) <= Z.max 0 (Z.min (remote_win_len s - in_flight s) (remote_mss s))) by lia.
  eexists. split; [done|].
  assert (Hout : forall k, k <> Tcp.Syn -> k <> Tcp.Rst -> (k = Tcp.Psh -> p <> []) ->
    (k = Tcp.Fin <-> sent_fin (state s) = true /\ in_flight s + Z.of_nat (length p) = tx_len s) ->
    outgoing s (with_control k (with_payload p (basic_repr t (seq_at (remote_seq_no s) (rx_len s)) s)))).
  { intros k Hk1 Hk2 Hkp Hk3. destruct (state s) eqn:Hst; try done;
      (split; rewrite ?Hst; unfold Tcp.payload_len; cbn; try done; try (rewrite Hlp; done)). }
  unfold tx_len in *. destruct (Nat.eqb_spec (Z.to_nat (in_flight s) + length p) (RingBuffer.len (tx_buffer s))) as [He|He].
  - destruct (state s) eqn:Hst; try done;
      try (apply Hout; [done|done|done|split; [intros _; split; [done|lia]|done]]);
      (destruct (Nat.eqb_spec (length p) 0);
       [apply (Hout Tcp.None_); [done|done|done|]|apply (Hout Tcp.Psh); [done|done|by intros _ Hp0; rewrite Hp0 in *|]]; (split; [done|]; by intros [? _])).
  - apply (Hout Tcp.None_); [done|done|done|]. split; [done|]. intros [_ Hx]. lia.
Qed.

Lemma build_repr_wp {E} c h t Q (QR : sent (E := E) -> Env -> Prop) e :
  ok (self e) -> (forall r, outgoing (self e) r -> Q r e) -> (state (self e) = Listen -> QR nothing e) ->
  wp (build_repr c h t) Q QR e.
Proof.
  intros Hok HQ HR. destruct (ok_rx_len _ Hok) as (H1 & _ & H3). unfold build_repr. steps. set (s := self e) in *.
  fold (rx_len s). eapply wp_do; [apply add_seq; lia|].
  pose proof (data_repr_ret c h t s Hok) as Hdata. pose proof (ok_flight s Hok) as [_ Hf].
  destruct (state s) eqn:Hst;
    try (destruct (Hdata eq_refl) as (r & Hr & Ho); eapply wp_do; [exact Hr|]; by apply HQ);
    steps; try (by apply HR); apply HQ;
    (split; rewrite ?Hst; unfold syn_repr, Tcp.payload_len; rewrite ?Hst; cbn;
     repeat case_bool_decide; cbn; try done; try lia; try (split; [done|intros [? _]; done])).
Qed.

Section dispatch.
Context {E : Type} (emit : Iface.Context -> reply_t -> Iface.Context * result unit E).

Lemma check_timers_wp t Q (QR : sent (E := E) -> Env -> Prop) e :
  ok (self e) -> tuple (self e) = Some t ->
  (forall e', timed (Iface.now (cx e)) (self e) (self e') -> cx e' = cx e -> Q tt e') ->
  wp check_timers Q QR e.
Proof.
  intros Hok Ht HQ. unfold check_timers. steps.
  - apply HQ; [by eapply timed_out_closed|done].
  - eapply wp_do; [by apply (seq_to_transmit_ret _ t)|]. steps; [apply HQ; [by apply timed_same|done]|].
    destruct (should_retransmit _ _) as [d|] eqn:Hr; steps; (apply HQ; [|done]).
    + by eapply timed_rewound.
    + by apply timed_same.
Qed.

Lemma ack_to_transmit_ret s : ok s -> exists b, ack_to_transmit s = Ret b.
Proof.
  intros Hok. destruct (ok_rx_len _ Hok) as (H1 & _ & H3). unfold ack_to_transmit.
  destruct (remote_last_ack s); [|by eexists]. fold (rx_len s). rewrite add_seq by lia. by eexists.
Qed.

(** A segment is sent, and if it is a SYN it is not out yet; or none is. *)
Lemma decide_sending_wp t Q (QR : sent (E := E) -> Env -> Prop) e :
  ok (self e) -> tuple (self e) = Some t ->
  ((sent_syn (state (self e)) = true -> in_flight (self e) = 0) -> Q tt e) ->
  (forall e', cx e' = cx e -> self e' = self e \/
     (exists w w', self e' = set_tx_waker w' (set_rx_waker w (reset_fields (self e))) /\
                   should_close (Iface.now (cx e)) (timer (self e)) = true) ->
     QR nothing e') ->
  wp decide_sending Q QR e.
Proof.
  intros Hok Ht HQ HR. unfold decide_sending. steps. eapply wp_do; [by apply (seq_to_transmit_ret _ t)|].
  apply wp_if; intros Htr.
  { steps. apply HQ. intros Hs. rewrite transmits_syn in Htr by done. by apply Z.eqb_eq in Htr. }
  destruct (ack_to_transmit_ret _ Hok) as [b Hb]. steps. eapply wp_do; [exact Hb|].
  assert (Hquiet : sent_syn (state (self e)) = true -> in_flight (self e) = 0 \/ quiet (self e)) by apply Hok.
  assert (HQ' : (sent_syn (state (self e)) = true -> ~ quiet (self e)) -> Q tt e).
  { intros Hn. apply HQ. intros Hs. destruct (Hquiet Hs); [done|]. by destruct (Hn Hs). }
  steps; b2p.
  - apply HQ'. intros _ [[Ha _] _]. congruence.
  - apply HQ'. intros _ [[_ Hw] _]. congruence.
  - apply HQ'. intros Hs. by destruct (state (self e)).
  - apply HQ'. intros _ [_ Hi]. by destruct (timer (self e)) as [[]| | |].
  - unfold reset. steps. apply HR; [done|]. right. by eexists _, _.
  - apply HR; [done|by left].
Qed.

(** The socket after a segment of [n] octets and flags was sent. *)
Definition sent_on (s : Socket) (n : Z) : Socket :=
  let s' := set_remote_last_seq (seq_at (remote_last_seq s) n) s in
  match state s with Closed => set_tuple None s' | _ => s' end.

Lemma segment_len_range s r :
  ok s -> outgoing s r -> (sent_syn (state s) = true -> in_flight s = 0) ->
  0 <= Tcp.segment_len r /\ in_flight s + Tcp.segment_len r <= tx_len s + 1 /\
  (sent_syn (state s) = true -> Tcp.segment_len r = 1).
Proof.
  intros Hok Ho Hsyn. pose proof (payload_len_pos r). destruct (ok_flight s Hok) as [_ Hf].
  pose proof (ok_in_flight s Hok). pose proof (og_fits _ _ Ho). unfold Tcp.segment_len.
  assert (Hp : sent_syn (state s) = true -> Tcp.payload_len r = 0).
  { intros Hs. unfold Tcp.payload_len. rewrite (og_payload _ _ Ho). by destruct (state s). }
  pose proof (og_syn _ _ Ho) as Hos. pose proof (og_fin _ _ Ho) as Hof.
  destruct (Tcp.control r) eqn:Hc; cbn [Tcp.control_len];
    try (split; [lia|]; split; [lia|]; intros Hs; by apply Hos in Hs).
  - assert (Hs : sent_syn (state s) = true) by (by apply Hos). rewrite (Hp Hs), (Hsyn Hs) in *.
    destruct (ok_syn s Hok) as [-> _]; [by left|]. lia.
  - destruct Hof as [Hof _]. destruct (Hof eq_refl) as [Hfin Hlen]. split; [lia|]. split; [lia|].
    intros Hs. by destruct (state s).
Qed.

Lemma in_flight_sent s n : ok s -> 0 <= n -> in_flight s + n < 2 ^ 31 ->
  i32 (seq_at (remote_last_seq s) n - local_seq_no s) = in_flight s + n.
Proof.
  intros Hok Hn Hlt. destruct (ok_flight s Hok) as [Hl Hf]. rewrite Hl, seq_at_at.
  unfold seq_at at 1. rewrite i32_sub_l.
  replace (local_seq_no s + (in_flight s + n) - local_seq_no s) with (in_flight s + n) by lia. apply i32_id. lia.
Qed.

(** A SYN that is out keeps quiet. *)
Lemma syn_told s q r :
  ok s -> outgoing s r -> sent_syn (state s) = true ->
  state q = state s -> rx_buffer q = rx_buffer s -> remote_seq_no q = remote_seq_no s ->
  remote_win_shift q = remote_win_shift s -> remote_last_ack q = Tcp.ack_number r ->
  remote_last_win q = Tcp.window_len r -> told q.
Proof.
  intros Hok Ho Hs H1 H2 H3 H4 H5 H6. destruct (ok_rx_len s Hok) as (Hr1 & _ & Hr3). split.
  - unfold ack_to_transmit. rewrite H5, (og_ack _ _ Ho). case_bool_decide; [done|].
    rewrite H2, H3. fold (rx_len s). rewrite add_seq by lia. rbind. by rewrite lt_refl.
  - unfold window_to_update, scaled_window. rewrite H1, H2, H4, H6, (og_window _ _ Ho), Hs. fold (rx_window s).
    assert (Hw : Z.shiftr (rx_window s) (remote_win_shift s) <= rx_window s).
    { pose proof (ok_shift s Hok) as Hsh. rewrite Z.shiftr_div_pow2 by done.
      assert (0 < 2 ^ remote_win_shift s) by (by apply Z.pow_pos_nonneg).
      apply Z.div_le_upper_bound; [done|]. nia. }
    destruct (state s); try done; apply Z.ltb_ge; lia.
Qed.

Lemma sent_on_fields s n :
  state (sent_on s n) = state s /\ assembler (sent_on s n) = assembler s /\ rx_buffer (sent_on s n) = rx_buffer s /\
  tx_buffer (sent_on s n) = tx_buffer s /\ local_seq_no (sent_on s n) = local_seq_no s /\
  remote_seq_no (sent_on s n) = remote_seq_no s /\
  remote_last_seq (sent_on s n) = seq_at (remote_last_seq s) n /\ remote_win_len (sent_on s n) = remote_win_len s /\
  remote_win_scale (sent_on s n) = remote_win_scale s /\ remote_win_shift (sent_on s n) = remote_win_shift s /\
  (tuple (sent_on s n) = tuple s \/ tuple (sent_on s n) = None) /\
  rx_fin_received (sent_on s n) = rx_fin_received s /\ keep_alive (sent_on s n) = keep_alive s.
Proof. unfold sent_on. destruct (state s) eqn:Hs; fields; rewrite ?Hs; split_and!; auto. Qed.

Lemma ok_sent s r q :
  ok s -> outgoing s r -> (sent_syn (state s) = true -> in_flight s = 0) ->
  core q = core (sent_on s (Tcp.segment_len r)) -> (sent_syn (state s) = true -> quiet q) -> ok q.
Proof.
  intros Hok Ho Hsyn Hc Hq. destruct (segment_len_range s r Hok Ho Hsyn) as (Hn & Hle & _).
  pose proof (ok_tx_len s Hok). pose proof (in_flight_sent s _ Hok Hn ltac:(lia)) as Hfl.
  destruct (sent_on_fields s (Tcp.segment_len r)) as (F1 & F2 & F3 & F4 & F5 & F6 & F7 & F8 & F9 & F10 & F11 & _).
  generalize dependent (sent_on s (Tcp.segment_len r)). intros s1 Hc F1 F2 F3 F4 F5 F6 F7 F8 F9 F10 F11. use_core Hc.
  destruct (ok_flight s Hok) as [_ Hf0]. destruct Hok. unfold rx_window, tx_len, rx_len in *.
  split; unfold rx_window, in_flight, tx_len, rx_len;
    repeat match goal with H : _ q = _ s1 |- _ => rewrite H end;
    rewrite ?F1, ?F2, ?F3, ?F4, ?F5, ?F6, ?F7, ?F8, ?F9, ?F10, ?Hfl; try done; try lia.
  - apply is_seq_at.
  - intros t Ht. destruct F11 as [F11|F11]; rewrite F11 in Ht; [auto|done].
  - intros Hs. right. auto.
Qed.

Lemma set_for_retransmit_not_idle now d t : match set_for_retransmit now d t with Idle _ => False | _ => True end.
Proof. destruct t; cbn; try done. by destruct (_ <=? _). Qed.

Lemma flows_sent s n q :
  ok s -> 0 <= n -> in_flight s + n <= tx_len s + 1 ->
  local_seq_no q = local_seq_no s -> remote_last_seq q = seq_at (remote_last_seq s) n ->
  tx_buffer q = tx_buffer s -> remote_win_len q = remote_win_len s -> flows q /\ in_flight q = in_flight s + n.
Proof.
  intros Hok Hn Hle H1 H2 H3 H4. pose proof (ok_tx_len s Hok). destruct (ok_flight s Hok) as [Hl Hf].
  pose proof (ok_win s Hok). pose proof (in_flight_sent s n Hok Hn ltac:(lia)) as Hfl.
  assert (Hq : in_flight q = in_flight s + n) by (unfold in_flight at 1; by rewrite H1, H2).
  split; [|done]. split; rewrite ?Hq; unfold tx_len; rewrite ?H1, ?H3, ?H4; try (unfold tx_len in *; lia).
  - apply (ok_local s Hok).
  - by rewrite H2, Hl, seq_at_at.
Qed.

Lemma wind_up_timer_wp n t Q (QR : sent (E := E) -> Env -> Prop) e :
  flows (self e) -> tuple (self e) = Some t ->
  (forall tm, tm = timer (self e) /\ (transmits (cx e) t (self e) = true \/ n <= 0) \/
              (exists d, tm = set_for_retransmit (Iface.now (cx e)) d (timer (self e))) ->
     Q tt (mkEnv (cx e) (set_timer tm (self e)) (woken e))) ->
  wp (wind_up_timer n) Q QR e.
Proof.
  intros Hfl Ht HQ. unfold wind_up_timer. steps. eapply wp_do; [by apply (flows_ret _ t)|]. steps.
  - apply HQ. right. by eexists.
  - assert (He : e = mkEnv (cx e) (set_timer (timer (self e)) (self e)) (woken e)) by (by destruct e as [? [] ?]).
    rewrite He. apply HQ. left. split; [done|]. apply andb_false_iff in H as [H|H]; b2p; auto.
Qed.

Lemma forget_closed_wp Q (QR : sent (E := E) -> Env -> Prop) e :
  (forall e', cx e' = cx e ->
     self e' = match state (self e) with Closed => set_tx_waker None (set_tuple None (self e)) | _ => self e end ->
     Q tt e') ->
  wp forget_closed Q QR e.
Proof. intros HQ. unfold forget_closed. steps. destruct (state (self e)); steps; by apply HQ. Qed.

Lemma after_sending_wp (p : reply_t) t (P : sent (E := E) -> Env -> Prop) e :
  let s := self e in
  ok s -> tuple s = Some t -> outgoing s (snd p) -> (sent_syn (state s) = true -> in_flight s = 0) ->
  (forall e', cx e' = cx e -> ok (self e') -> core (self e') = core (sent_on s (Tcp.segment_len (snd p))) ->
     timer (self e') = timer s \/ (exists now d, timer (self e') = set_for_retransmit now d (timer s)) ->
     P (Some p, Ok tt) e') ->
  wp (after_sending p) P P e.
Proof.
  intros s Hok Ht Ho Hsyn HP. destruct (segment_len_range s _ Hok Ho Hsyn) as (Hn & Hle & Hone).
  pose proof (ok_tx_len s Hok). destruct (ok_flight s Hok) as [_ Hf0]. unfold after_sending.
  set (n := Tcp.segment_len (snd p)) in *. steps. eapply wp_do; [apply add_seq; lia|]. steps.
  set (q := if 0 <? n then _ else _).
  assert (Hq : exists r, q = set_rtte r (set_remote_last_win (Tcp.window_len (snd p))
      (set_remote_last_ack (Tcp.ack_number (snd p)) (set_remote_last_seq (seq_at (Tcp.seq_number (snd p)) n) s)))).
  { unfold q, s. destruct (0 <? n); [by eexists|]. exists (rtte (self e)). by destruct e as [? [] ?]. }
  clearbody q. destruct Hq as (rt & Hq). rewrite (og_seq _ _ Ho) in Hq.
  destruct (flows_sent s n q Hok Hn Hle) as [Hfl Hif]; try (by rewrite Hq).
  apply (wind_up_timer_wp n t); [done|by rewrite Hq|]. cbn [self cx woken]. intros tm Htm. steps.
  apply forget_closed_wp. intros e' Hcx He'. cbn [self cx woken] in *. fields_in He'. steps.
  assert (Hcore : core (self e') = core (sent_on s n)).
  { rewrite He', Hq. fields. unfold sent_on. by destruct (state s). }
  assert (Htmr : timer (self e') = tm) by (rewrite He'; by destruct (state q)).
  assert (Htq : timer q = timer s) by (by rewrite Hq).
  apply HP; [done| |done|].
  - apply (ok_sent s (snd p)); try done. intros Hs. split.
    + apply (syn_told s _ (snd p)); try done; rewrite He', Hq; fields;
        destruct (state s) eqn:Hst; fields; done.
    + rewrite Htmr. destruct Htm as [[_ Hx]|(d & ->)]; [|apply set_for_retransmit_not_idle].
      assert (Hstq : state q = state s) by (by rewrite Hq).
      destruct (ok_syn s Hok) as [Htx _]; [by left|].
      assert (Htxq : tx_len q = 0) by (unfold tx_len; by rewrite Hq). rewrite (Hone Hs) in *.
      destruct Hx as [Hx|Hx]; [|lia]. rewrite flows_syn in Hx by (done || by rewrite Hstq).
      rewrite Hif, (Hsyn Hs) in Hx. done.
  - rewrite Htmr. destruct Htm as [[-> _]|(d & ->)]; rewrite Htq; [by left|right; by eexists _, _].
Qed.

(** ** The whole of [dispatch] *)

(** The time of the last packet is taken when the socket starts to talk. *)
Definition stamped (now : Time.Instant) (s : Socket) : Socket :=
  match remote_last_ts s with None => set_remote_last_ts (Some now) s | Some _ => s end.

(** A keep-alive packet: one octet before what was sent last. *)
Definition is_keep_alive (now : Time.Instant) (s : Socket) (r : Tcp.Repr) : Prop :=
  should_keep_alive now (timer s) = true /\ Tcp.payload r = [0] /\
  Tcp.seq_number r = seq_at (remote_last_seq s) (-1) /\ Tcp.control r = Tcp.None_.

(** What a call has done. *)
Inductive dispatched (now : Time.Instant) (s s' : Socket) : sent (E := E) -> Prop :=
| dispatched_unbound : tuple s = None -> s' = s -> dispatched now s s' nothing
| dispatched_nothing s1 : timed now (stamped now s) s1 -> s' = s1 -> dispatched now s s' nothing
| dispatched_reset s1 w w' :
    timed now (stamped now s) s1 -> should_close now (timer s1) = true ->
    s' = set_tx_waker w' (set_rx_waker w (reset_fields s1)) -> dispatched now s s' nothing
| dispatched_failed s1 p x :
    timed now (stamped now s) s1 -> outgoing s1 (snd p) \/ is_keep_alive now s1 (snd p) -> s' = s1 ->
    dispatched now s s' (Some p, Err x)
| dispatched_keep_alive s1 p :
    timed now (stamped now s) s1 -> is_keep_alive now s1 (snd p) -> core s' = core s1 ->
    dispatched now s s' (Some p, Ok tt)
| dispatched_sent s1 p :
    timed now (stamped now s) s1 -> outgoing s1 (snd p) -> (sent_syn (state s1) = true -> in_flight s1 = 0) ->
    core s' = core (sent_on s1 (Tcp.segment_len (snd p))) -> dispatched now s s' (Some p, Ok tt).

Lemma stamped_core now s : core (stamped now s) = core s /\ calm s (stamped now s).
Proof.
  unfold stamped. destruct (remote_last_ts s); [split; [done|by intros ?]|]. split; [done|by apply calm_core].
Qed.

Lemma bit_length_pos n : 0 <= bit_length n.
Proof. unfold bit_length. case_match; [done|]. pose proof (Z.log2_nonneg n). lia. Qed.

Lemma reset_ok s : ok s -> ok (reset_fields s).
Proof.
  intros [Hrx Htx Hrc Htc Ha _ _ _ _ _ _ _ _ _ _ _].
  assert (Hwf : forall b : RingBuffer.t Z, RingBufferLaws.wf b -> RingBufferLaws.wf (RingBuffer.clear b)).
  { intros b [Hl Hr Hc]. split; unfold RingBuffer.clear, RingBuffer.capacity in *; cbn in *; lia. }
  assert (Hn : AssemblerLaws.wf (Assembler.new (length (assembler s)))).
  { apply AssemblerLaws.assembler_new_wf. by destruct Ha as (u & [_ ? _ _]). }
  split; unfold rx_window, tx_len, rx_len, in_flight, reset_fields; fields; try done; try (by apply Hwf).
  - rewrite AssemblerLaws.extent_new. lia.
  - unfold win_shift. lia.
Qed.

Lemma ok_wakers s w w' : ok s -> ok (set_tx_waker w' (set_rx_waker w s)).
Proof. intros Hok. apply (ok_core s); [done|done|by apply calm_core]. Qed.

Lemma keep_alive_ret s r :
  ok s -> outgoing s r -> Tcp.is_empty r = true -> exists r', as_keep_alive r = Ret r' /\
    Tcp.payload r' = [0] /\ Tcp.seq_number r' = seq_at (remote_last_seq s) (-1) /\ Tcp.control r' = Tcp.None_.
Proof.
  intros Hok Ho He. unfold as_keep_alive, SeqNumber.sub_usize. cbn [Z.ltb Z.compare]. rbind. eexists. split; [done|].
  rewrite (og_seq _ _ Ho). split; [done|]. split; [done|]. cbn [Tcp.control].
  unfold Tcp.is_empty, Tcp.payload_len in He. destruct (Tcp.payload r) eqn:Hp; [|done]. cbn in He.
  destruct (Tcp.control r) eqn:Hc; try done. by destruct (og_psh _ _ Ho Hc).
Qed.

Lemma emit_packet_wp p Q (QR : sent (E := E) -> Env -> Prop) e :
  (forall c, Q tt (mkEnv c (self e) (woken e))) ->
  (forall c x, QR (Some p, Err x) (mkEnv c (self e) (woken e))) ->
  wp (emit_packet emit p) Q QR e.
Proof.
  intros HQ HR. unfold wp, emit_packet. destruct (emit (cx e) p) as [c [[]|x]]; [apply HQ|apply HR].
Qed.

Lemma ip_new_ret t hop :
  Ip.version (Ip.addr (local t)) = Ip.version (Ip.addr (remote t)) ->
  exists ip, Ip.new (Ip.addr (local t)) (Ip.addr (remote t)) Ip.TcpProtocol 0 hop = Ret ip.
Proof. unfold Ip.new. destruct (Ip.addr (local t)), (Ip.addr (remote t)); by eauto. Qed.

Lemma outgoing_timers s r tm d : outgoing s r -> outgoing (set_ack_delay_timer d (set_timer tm s)) r.
Proof. by intros []; split. Qed.

(** [dispatch] returns, keeps the invariant, and does what [dispatched] says. *)
Lemma dispatch_spec e :
  ok (self e) ->
  exists e' r, dispatch emit e = Ret (e', r) /\ ok (self e') /\ dispatched (Iface.now (cx e)) (self e) (self e') r.
Proof.
  intros Hok. set (now := Iface.now (cx e)). set (s := self e) in *.
  enough (Hwp : exists e' r, dispatch emit e = Ret (e', r) /\ (fun r e' => ok (self e') /\ dispatched now s (self e') r) r e').
  { exact Hwp. }
  apply wp_call. steps. fold s. destruct (tuple s) as [t|] eqn:Ht; [|steps; split; [done|by constructor]].
  steps. fold s now. fold (stamped now s). destruct (stamped_core now s) as [Hc0 Hcm0].
  assert (Hok0 : ok (stamped now s)) by (by apply (ok_core s)).
  assert (Ht0 : tuple (stamped now s) = Some t) by (unfold stamped; by destruct (remote_last_ts s)).
  apply (check_timers_wp t); [done|done|]. intros e1 Htimed Hcx1. cbn [cx self] in *. fold now in Htimed. steps.
  pose proof (timed_ok _ _ _ Hok0 Htimed) as Hok1.
  assert (Ht1 : tuple (self e1) = Some t) by (by rewrite (timed_tuple _ _ _ Htimed)).
  apply (decide_sending_wp t); [done|done| |].
  2: { intros e' _ [Hs'|(w & w' & Hs' & Hclose)]; rewrite Hs'.
    - split; [done|]. by apply (dispatched_nothing _ _ _ (self e1)).
    - split; [by apply ok_wakers, reset_ok|]. rewrite Hcx1 in Hclose. by apply (dispatched_reset _ _ _ (self e1) w w'). }
  intros Hsyn. steps. eapply wp_do; [by rewrite Ht1|]. steps.
  destruct (ip_new_ret t (default 64 (hop_limit (self e1)))) as [ip Hip]; [by apply (ok_tuple _ Hok1)|].
  eapply wp_do; [exact Hip|]. steps. apply build_repr_wp; [done| |].
  2: { intros _. split; [done|]. by apply (dispatched_nothing _ _ _ (self e1)). }
  intros r Hout. steps. set (ka := should_keep_alive _ (timer (self e1)) && Tcp.is_empty r).
  assert (Hrepr : exists r1, (if ka then as_keep_alive r else Ret r) = Ret r1 /\
    if ka then is_keep_alive now (self e1) (with_mss (cx e) (Ip.header_len ip) r1)
    else outgoing (self e1) (with_mss (cx e) (Ip.header_len ip) r1)).
  { destruct ka eqn:Hka; [|eexists; split; [done|by apply with_mss_outgoing]].
    apply andb_true_iff in Hka as [Hka1 Hka2].
    destruct (keep_alive_ret _ _ Hok1 Hout Hka2) as (r1 & Hr1 & Hp1 & Hs1 & Hc1). exists r1. split; [done|].
    unfold with_mss. rewrite bool_decide_false by congruence. by split. }
  destruct Hrepr as (r1 & Hr1 & Hk). eapply wp_do; [exact Hr1|]. steps.
  set (p := (Ip.set_payload_len _ ip, with_mss (cx e) (Ip.header_len ip) r1)).
  apply emit_packet_wp.
  2: { intros c x. split; [done|]. apply (dispatched_failed _ _ _ (self e1)); [done| |done]. destruct ka; auto. }
  intros c. apply wp_seq, wp_context, wp_seq, wp_upd, wp_seq, wp_upd. cbn [self cx woken]. fields.
  set (s2 := set_ack_delay_timer AckIdle _).
  assert (Hok2 : ok s2) by (by apply (ok_core0 (self e1))).
  destruct ka; steps.
  - split; [done|]. by apply (dispatched_keep_alive _ _ _ (self e1)).
  - apply (after_sending_wp p t); cbn [self]; [done|done|by apply outgoing_timers|done|].
    intros e' _ Hok' Hcore _. split; [done|]. apply (dispatched_sent _ _ _ (self e1)); [done|done|done|].
    rewrite Hcore. unfold sent_on, s2. fields. by destruct (state (self e1)).
Qed.

End dispatch.

End TcpSend.
