(* ===== verification/TcpRun.v ===== *)
(** * The life of a TCP socket

    Everything that can happen to a socket as an [event]: the calls of its user,
    the segments the interface gives it, and the polls that send.  [run] is a
    history of events.  No history that starts with [Socket::new] makes the
    socket panic, and each step keeps its invariant. *)

From S2P Require Import Prelude TcpWire Assembler AssemblerLaws RingBuffer RingBufferLaws TcpState TcpSocket TcpProcess TcpDispatch TcpLogic TcpInv TcpSegment TcpSend.
Import TcpState TcpSocket TcpProcess TcpDispatch TcpLogic TcpInv TcpSegment TcpSend.

Local Open Scope Z_scope.

Module TcpRun.

(** ** Events *)

Inductive event : Type :=
| EvListen (ep : Ip.ListenEndpoint)
| EvConnect (remote_ep : Ip.Endpoint) (local_ep : Ip.ListenEndpoint)
| EvClose
| EvAbort
| EvSend (data : list Z)
| EvRecv (n : nat)
| EvPeek (n : nat)
| EvPeekSlice (n : nat)
| EvTimeout (d : option Time.Duration)
| EvKeepAlive (d : option Time.Duration)
| EvAckDelay (d : option Time.Duration)
| EvNagle (b : bool)
| EvHopLimit (h : option Z)
| EvRecvWaker (w : Waker)
| EvSendWaker (w : Waker)
| EvSegment (ip : Ip.Repr) (repr : Tcp.Repr)
| EvDispatch (device_ready : bool)
| EvPollAt.

Inductive answer : Type :=
| Done
| Opened (r : result unit OpenError)
| Sent (r : result nat SendError)
| Received (r : result (list Z) RecvError)
| Peeked (r : result (list Z) RecvError)
| Replied (r : option reply_t)
| Emitted (r : sent (E := unit))
| Polled (p : PollAt).

(** A device that takes the packet or refuses it. *)
Definition device (ready : bool) (c : Iface.Context) (p : reply_t) : Iface.Context * result unit unit :=
  (c, if ready then Ok tt else Err tt).

(** A call on the socket in the context [c]. *)
Definition call {R} (f : R -> answer) (m : Env -> outcome (Env * R)) (c : Iface.Context) (s : Socket) :
    outcome (Socket * answer) :=
  '(e, r) ← m (mkEnv c s []); Ret (self e, f r).

(** One event, with the context of the interface at the time.  A segment reaches
    the socket only if it [accepts] it. *)
Definition step (c : Iface.Context) (ev : event) (s : Socket) : outcome (Socket * answer) :=
  match ev with
  | EvListen ep => call Opened (listen ep) c s
  | EvConnect remote_ep local_ep => call Opened (connect remote_ep local_ep) c s
  | EvClose => call (fun _ => Done) close c s
  | EvAbort => call (fun _ => Done) abort c s
  | EvSend data => '(s', r) ← send_slice data s; Ret (s', Sent r)
  | EvRecv n => '(s', r) ← recv_slice n s; Ret (s', Received r)
  | EvPeek n => r ← peek n s; Ret (s, Peeked r)
  | EvPeekSlice n => r ← peek_slice n s; Ret (s, Peeked r)
  | EvTimeout d => Ret (set_timeout d s, Done)
  | EvKeepAlive d => Ret (set_keep_alive_interval d s, Done)
  | EvAckDelay d => Ret (set_ack_delay d s, Done)
  | EvNagle b => Ret (set_nagle b s, Done)
  | EvHopLimit h => s' ← set_hop_limit_checked h s; Ret (s', Done)
  | EvRecvWaker w => Ret (register_recv_waker w s, Done)
  | EvSendWaker w => Ret (register_send_waker w s, Done)
  | EvSegment ip repr => if accepts ip repr s then call Replied (process ip repr) c s else Ret (s, Done)
  | EvDispatch ready => call Emitted (dispatch (device ready)) c s
  | EvPollAt => p ← poll_at c s; Ret (s, Polled p)
  end.

(** A history: what the socket is at the end and what each event gave. *)
Fixpoint run (h : list (Iface.Context * event)) (s : Socket) : outcome (Socket * list answer) :=
  match h with
  | [] => Ret (s, [])
  | (c, ev) :: h' => '(s1, x) ← step c ev s; '(s2, xs) ← run h' s1; Ret (s2, x :: xs)
  end.

(** What the callers must not do: a hop limit of zero, and a segment whose
    numbers are not those of a parsed one. *)
Definition event_ok (ev : event) : Prop :=
  match ev with
  | EvHopLimit h => h <> Some 0
  | EvSegment _ repr => repr_ok repr
  | _ => True
  end.

(** ** The calls of the user *)

(** A state that is neither LISTEN nor one with a SYN out. *)
Lemma ok_set_state s st : ok s -> unsynchronized st = false -> ok (set_state st s).
Proof.
  intros [] Hst. unfold rx_window, in_flight, tx_len, rx_len in *.
  split; unfold rx_window, in_flight, tx_len, rx_len; fields; try done.
  - intros [Hs| ->]; [|done]. by destruct st.
  - intros Hs. by destruct st.
Qed.

(** A socket just reset is ready to be opened. *)
Lemma ok_listening s ep w w' :
  ok s -> ok (set_state Listen (set_tuple None (set_listen_endpoint ep (set_tx_waker w' (set_rx_waker w (reset_fields s)))))).
Proof.
  intros Hok%reset_ok. destruct Hok. unfold rx_window, in_flight, tx_len, rx_len in *.
  split; unfold rx_window, in_flight, tx_len, rx_len; fields; try done.
Qed.

Lemma ok_connecting s t seq w w' :
  ok s -> is_seq seq -> Ip.version (Ip.addr (local t)) = Ip.version (Ip.addr (remote t)) ->
  ok (set_remote_last_seq seq (set_local_seq_no seq (set_state SynSent (set_tuple (Some t)
        (set_tx_waker w' (set_rx_waker w (reset_fields s))))))).
Proof.
  intros Hok%reset_ok Hseq Hv. destruct Hok. unfold rx_window, in_flight, tx_len, rx_len in *.
  split; unfold rx_window, in_flight, tx_len, rx_len; fields; rewrite ?Z.sub_diag; try done.
  - by intros t' [= <-].
  - by left.
Qed.

(** The socket after [listen] and after [connect]. *)
Definition listening (s : Socket) (ep : Ip.ListenEndpoint) : Socket :=
  set_state Listen (set_tuple None (set_listen_endpoint ep (reset_fields s))).
Definition connecting (s : Socket) (t : Tuple) (seq : SeqNumber.t) : Socket :=
  set_remote_last_seq seq (set_local_seq_no seq (set_state SynSent (set_tuple (Some t) (reset_fields s)))).

(** What opening a socket gives. *)
Inductive opens (ev : event) (s s' : Socket) : result unit OpenError -> Prop :=
| opens_same r : s' = s -> opens ev s s' r
| opens_listening ep :
    ev = EvListen ep -> is_open s = false -> core s' = core (listening s ep) -> opens ev s s' (Ok tt)
| opens_connecting remote_ep local_ep t seq :
    ev = EvConnect remote_ep local_ep -> is_open s = false -> is_seq seq -> core s' = core (connecting s t seq) ->
    opens ev s s' (Ok tt).

Lemma listen_spec ep e :
  ok (self e) ->
  exists e' r, listen ep e = Ret (e', r) /\ ok (self e') /\ opens (EvListen ep) (self e) (self e') r.
Proof.
  intros Hok. apply (wp_call _ (fun r e' => ok (self e') /\ opens (EvListen ep) (self e) (self e') r)).
  steps; try (split; [done|by constructor]).
  unfold reset. steps. split; [by apply ok_wakers, ok_listening|by apply (opens_listening _ _ _ ep)].
Qed.

Lemma connect_spec remote_ep local_ep e :
  ok (self e) ->
  exists e' r, connect remote_ep local_ep e = Ret (e', r) /\ ok (self e') /\
    opens (EvConnect remote_ep local_ep) (self e) (self e') r.
Proof.
  intros Hok. set (P := fun r e' => ok (self e') /\ opens (EvConnect remote_ep local_ep) (self e) (self e') r). apply (wp_call _ P).
  assert (Hsame : forall r, P r e) by (by intros r; split; [|constructor]). steps; try (apply Hsame).
  assert (Hmain : forall a, wp (if bool_decide (Ip.version a <> Ip.version (Ip.addr remote_ep))
      then return_ (Err Unaddressable)
      else reset;;
        upd (set_tuple (Some (mkTuple (Ip.mkEndpoint a (Ip.listen_port local_ep)) remote_ep)));;
        enter SynSent;; seq ← random_seq_no; upd (set_local_seq_no seq);; upd (set_remote_last_seq seq);;
        mret (Ok (E := OpenError) tt)) P P e).
  { intros a. steps; [apply Hsame|]. b2p. unfold reset. steps. apply wp_random_seq_no. intros c n. steps.
    set (t := mkTuple (Ip.mkEndpoint a (Ip.listen_port local_ep)) remote_ep). split.
    - apply (ok_connecting (self e) t (i32 n) None None); [done|apply is_seq_i32|]. cbn.
      by destruct (decide (Ip.version a = Ip.version (Ip.addr remote_ep))).
    - apply (opens_connecting _ _ _ remote_ep local_ep t (i32 n)); [done|done|apply is_seq_i32|done]. }
  destruct (Ip.listen_addr local_ep) as [a|].
  - destruct (Ip.is_unspecified a); [steps; apply Hsame|apply wp_next, Hmain].
  - destruct (Iface.get_source_address _ _) as [a|]; [apply wp_next, Hmain|steps; apply Hsame].
Qed.

(** The state [close] leads to. *)
Definition close_state (st : State) : State :=
  match st with
  | Listen | SynSent => Closed
  | SynReceived | Established => FinWait1
  | CloseWait => LastAck
  | _ => st
  end.

Lemma close_spec e :
  ok (self e) -> exists e' r, close e = Ret (e', r) /\ ok (self e') /\
    core (self e') = core (set_state (close_state (state (self e))) (self e)).
Proof.
  intros Hok. apply (wp_call _ (fun _ e' => ok (self e') /\ core (self e') = core (set_state _ (self e)))). steps.
  destruct (state (self e)) eqn:Hst; steps; cbn [close_state];
    (split; [try done; by apply ok_wakers, ok_set_state|by unfold core; fields; rewrite ?Hst]).
Qed.

Lemma abort_spec e :
  ok (self e) -> exists e' r, abort e = Ret (e', r) /\ ok (self e') /\
    core (self e') = core (set_state Closed (self e)).
Proof.
  intros Hok. apply (wp_call _ (fun _ e' => ok (self e') /\ core (self e') = core (set_state Closed (self e)))). steps.
  split; [by apply ok_wakers, ok_set_state|done].
Qed.

(** What writing [data] to a socket gives. *)
Inductive wrote (s : Socket) (data : list Z) (s' : Socket) : result nat SendError -> Prop :=
| wrote_refused : may_send s = false -> s' = s -> wrote s data s' (Err SendInvalidState)
| wrote_some n b :
    may_send s = true -> RingBufferLaws.contents b = RingBufferLaws.contents (tx_buffer s) ++ take n data ->
    RingBufferLaws.wf b -> RingBuffer.capacity b = RingBuffer.capacity (tx_buffer s) ->
    n = (RingBuffer.window (tx_buffer s) `min` length data)%nat ->
    core s' = core (set_tx_buffer b s) -> wrote s data s' (Ok n).

Lemma send_slice_spec data s :
  ok s -> exists s' r, send_slice data s = Ret (s', r) /\ ok s' /\ wrote s data s' r.
Proof.
  intros Hok. unfold send_slice, send_impl. destruct (may_send s) eqn:Hm; cbn [negb].
  2: { exists s, (Err SendInvalidState). split; [done|]. split; [done|by constructor]. }
  set (s1 := if RingBuffer.is_empty (tx_buffer s) then _ else s).
  assert (Ht1 : tx_buffer s1 = tx_buffer s) by (unfold s1; by case_match).
  assert (Hc1 : core s1 = core s) by (unfold s1; by case_match).
  rewrite Ht1. destruct (RingBufferLaws.enqueue_slice_spec data _ (ok_tx s Hok)) as (b & -> & Hwf & Hcap & Hcon). rbind.
  eexists _, _. split; [done|].
  assert (Hcore : core (set_tx_buffer b s1) = core (set_tx_buffer b s)) by (use_core Hc1; unfold core; fields; congruence).
  assert (Hst : unsynchronized (state s) = false) by (unfold may_send in Hm; by destruct (state s)).
  assert (Hlen : (RingBuffer.len (tx_buffer s) <= RingBuffer.len b)%nat).
  { rewrite <-(RingBufferLaws.length_contents b), <-(RingBufferLaws.length_contents (tx_buffer s)), Hcon by (done || apply Hok).
    rewrite length_app. lia. }
  split.
  - apply (ok_core0 (set_tx_buffer b s)); [|done|fields; by destruct (state s)].
    destruct Hok. unfold rx_window, in_flight, tx_len, rx_len in *.
    split; unfold rx_window, in_flight, tx_len, rx_len; fields; try done; try lia.
    intros [Hs|Hs]; [|by rewrite Hs in Hst]. by destruct (state s).
  - eapply wrote_some; try done. rewrite Hcon. f_equal.
    destruct (decide (RingBuffer.window (tx_buffer s) <= length data)%nat); [f_equal; lia|].
    by rewrite !take_ge by lia.
Qed.

(** What reading from a socket gives. *)
Inductive gave (s : Socket) (n : nat) (s' : Socket) : result (list Z) RecvError -> Prop :=
| gave_error : may_recv s = false -> s' = s ->
    gave s n s' (Err (if rx_fin_received s then Finished else RecvInvalidState))
| gave_some b :
    let out := take n (RingBufferLaws.contents (rx_buffer s)) in
    unsynchronized (state s) = false ->
    RingBufferLaws.wf b -> RingBuffer.capacity b = RingBuffer.capacity (rx_buffer s) ->
    RingBufferLaws.contents b = drop n (RingBufferLaws.contents (rx_buffer s)) ->
    RingBufferLaws.room b = RingBufferLaws.room (rx_buffer s) ++ out ->
    core s' = core (set_remote_seq_no (seq_at (remote_seq_no s) (Z.of_nat (length out))) (set_rx_buffer b s)) ->
    gave s n s' (Ok out).

(** Octets can be read only in a connection that is synchronised. *)
Lemma may_recv_sync s : ok s -> may_recv s = true -> unsynchronized (state s) = false.
Proof.
  intros Hok Hm. destruct (unsynchronized (state s)) eqn:Hu; [|done].
  destruct (ok_syn s Hok) as [_ Hrx]; [destruct (state s); by auto|].
  unfold may_recv, RingBuffer.is_empty, rx_len in *. destruct (RingBuffer.len (rx_buffer s)) eqn:Hl; [|done].
  by destruct (state s).
Qed.

Lemma recv_slice_spec n s :
  ok s -> exists s' r, recv_slice n s = Ret (s', r) /\ ok s' /\ gave s n s' r.
Proof.
  intros Hok. unfold recv_slice, recv_impl, recv_error_check. destruct (may_recv s) eqn:Hm; cbn [negb].
  2: { destruct (rx_fin_received s) eqn:Hf; eexists s, _; (split; [done|]); (split; [done|]);
       pose proof (gave_error s n s Hm eq_refl) as Hg; by rewrite Hf in Hg. }
  pose proof (may_recv_sync s Hok Hm) as Hst.
  destruct (RingBufferLaws.dequeue_slice_spec n _ (ok_rx s Hok)) as (b & -> & Hwf & Hcap & Hcon & Hroom). rbind.
  pose proof (RingBufferLaws.length_contents b Hwf) as Hlb.
  pose proof (RingBufferLaws.length_contents _ (ok_rx s Hok)) as Hls.
  destruct (ok_rx_len s Hok) as (H1 & H2 & H3). unfold rx_len in H1.
  assert (Hlen : (length (take n (RingBufferLaws.contents (rx_buffer s))) <= RingBuffer.len (rx_buffer s))%nat)
    by (rewrite length_take; lia).
  rewrite add_seq by lia. rbind. eexists _, _. split; [done|]. split; [|by apply (gave_some s n _ b)].
  assert (Hle : (RingBuffer.len b <= RingBuffer.len (rx_buffer s))%nat) by (rewrite <-Hlb, Hcon, length_drop; lia).
  destruct Hok. unfold rx_window, RingBuffer.window, in_flight, tx_len, rx_len in *.
  split; unfold rx_window, RingBuffer.window, in_flight, tx_len, rx_len; fields; try done; try lia.
  - apply is_seq_at.
  - intros [Hs|Hs]; [|by rewrite Hs in Hst]. by destruct (state s).
  - intros Hs. by destruct (state s).
Qed.

Lemma poll_at_ret c s : ok s -> exists p, poll_at c s = Ret p.
Proof.
  intros Hok. unfold poll_at. destruct (tuple s) as [t|] eqn:Ht; [|by eexists].
  destruct (remote_last_ts s); [|by eexists]. case_bool_decide; [by eexists|].
  rewrite (seq_to_transmit_ret c t) by done. rbind. case_match; [by eexists|].
  destruct (ack_to_transmit_ret s Hok) as [b ->]. rbind. by eexists.
Qed.

Lemma ok_keep_alive d s : ok s -> ok (set_keep_alive_interval d s).
Proof.
  intros Hok. assert (Hok1 : ok (set_keep_alive d s)).
  { destruct Hok. split; unfold rx_window, in_flight, tx_len, rx_len in *; fields; try done. }
  destruct d; [|done]. apply (ok_core (set_keep_alive (Some d) s)); [done|done|].
  intros [Ht Hi]. split; [by eapply told_core; [..|exact Ht]|]. fields. fields_in Hi.
  unfold set_keep_alive_interval. fields. by destruct (timer s).
Qed.

(** A segment that reaches the socket. *)
Inductive arrived (ip : Ip.Repr) (repr : Tcp.Repr) (s s' : Socket) : option reply_t -> Prop :=
| arrived_refused r : reply_fine s r -> core s' = core s -> arrived ip repr s s' r
| arrived_reset :
    Tcp.control repr = Tcp.Rst -> core s' = core (set_tuple None (set_state (reset_state (state s)) s)) ->
    arrived ip repr s s' None
| arrived_taken r : took ip repr s s' r -> arrived ip repr s s' r.

Lemma ok_reset s : ok s -> ok (set_tuple None (set_state (reset_state (state s)) s)).
Proof.
  intros []. unfold rx_window, in_flight, tx_len, rx_len in *.
  split; unfold rx_window, in_flight, tx_len, rx_len; fields; try done.
  - intros [Hs|Hs]; apply ok_syn0; destruct (state s); by auto.
  - intros Hs. by destruct (state s).
Qed.

Lemma segment_spec ip repr e :
  ok (self e) -> repr_ok repr -> accepts ip repr (self e) = true ->
  exists e' r, process ip repr e = Ret (e', r) /\ ok (self e') /\ arrived ip repr (self e) (self e') r.
Proof.
  intros Hok Hro Hacc.
  apply (process_spec ip repr (fun r e' => ok (self e') /\ arrived ip repr (self e) (self e') r)); try done.
  - intros r e' Hr [Hc Hcalm]. split; [by apply (ok_core (self e))|by constructor].
  - intros e' Hrst Hc. split; [|by apply arrived_reset].
    apply (ok_core0 _ _ (ok_reset _ Hok) Hc). fields. by destruct (state (self e)).
  - intros r e' Hok' Ht. split; [done|by apply arrived_taken].
Qed.

(** ** The effect of an event *)

(** An answer that gives no octets and no packet. *)
Definition silent (x : answer) : Prop := match x with Done | Peeked _ | Polled _ => True | _ => False end.

Definition effect (c : Iface.Context) (ev : event) (s s' : Socket) (x : answer) : Prop :=
  match ev with
  | EvListen _ | EvConnect _ _ => exists r, x = Opened r /\ opens ev s s' r
  | EvClose => core s' = core (set_state (close_state (state s)) s) /\ x = Done
  | EvAbort => core s' = core (set_state Closed s) /\ x = Done
  | EvSend data => exists r, x = Sent r /\ wrote s data s' r
  | EvRecv n => exists r, x = Received r /\ gave s n s' r
  | EvKeepAlive d => core s' = core (set_keep_alive d s) /\ x = Done
  | EvSegment ip repr =>
      core s' = core s /\ x = Done \/
      (exists r, x = Replied r /\ accepts ip repr s = true /\ arrived ip repr s s' r)
  | EvDispatch _ => exists r, x = Emitted r /\ dispatched (Iface.now c) s s' r
  | _ => core s' = core s /\ silent x
  end.

Lemma step_spec c ev s :
  ok s -> event_ok ev -> exists s' x, step c ev s = Ret (s', x) /\ ok s' /\ effect c ev s s' x.
Proof.
  intros Hok Hev.
  assert (Hset : forall s', core s' = core s -> timer s' = timer s -> remote_last_ack s' = remote_last_ack s ->
    remote_last_win s' = remote_last_win s -> ok s') by (intros; apply (ok_core s); [done|done|by apply calm_core]).
  destruct ev; cbn [step effect event_ok] in *; unfold call.
  - destruct (listen_spec ep (mkEnv c s [])) as (e & r & -> & Hok' & Ho); [done|].
    eexists _, _. split; [done|]. eauto.
  - destruct (connect_spec remote_ep local_ep (mkEnv c s [])) as (e & r & -> & Hok' & Ho); [done|].
    eexists _, _. split; [done|]. eauto.
  - destruct (close_spec (mkEnv c s [])) as (e & r & -> & Hok' & Hc); [done|]. by eexists _, _.
  - destruct (abort_spec (mkEnv c s [])) as (e & r & -> & Hok' & Hc); [done|]. by eexists _, _.
  - destruct (send_slice_spec data s Hok) as (s' & r & -> & Hok' & Hw). eexists _, _. split; [done|]. eauto.
  - destruct (recv_slice_spec n s Hok) as (s' & r & -> & Hok' & Hg). eexists _, _. split; [done|]. eauto.
  - unfold peek. destruct (recv_error_check s); [rewrite RingBufferLaws.get_allocated_spec by apply Hok|]; rbind;
      by eexists _, _.
  - unfold peek_slice. rewrite RingBufferLaws.read_allocated_spec by (apply Hok || done). rbind. by eexists _, _.
  - eexists _, _. split; [done|]. split; [by apply Hset|done].
  - eexists _, _. split; [done|]. split; [by apply ok_keep_alive|]. by destruct d.
  - eexists _, _. split; [done|]. split; [by apply Hset|done].
  - eexists _, _. split; [done|]. split; [by apply Hset|done].
  - unfold set_hop_limit_checked. destruct h as [[| |]|]; try done; (eexists _, _; split; [done|]; split; [by apply Hset|done]).
  - eexists _, _. split; [done|]. split; [by apply Hset|done].
  - eexists _, _. split; [done|]. split; [by apply Hset|done].
  - destruct (accepts ip repr s) eqn:Hacc; [|eexists _, _; split; [done|]; split; [done|]; by left].
    destruct (segment_spec ip repr (mkEnv c s [])) as (e & r & -> & Hok' & Ha); [done..|].
    eexists _, _. split; [done|]. split; [done|]. right. by exists r.
  - destruct (dispatch_spec (device device_ready) (mkEnv c s [])) as (e & r & -> & Hok' & Hd); [done|].
    eexists _, _. split; [done|]. split; [done|]. by exists r.
  - destruct (poll_at_ret c s Hok) as [q ->]. by eexists _, _.
Qed.

Lemma run_ok h : forall s,
  ok s -> Forall (fun ce => event_ok (snd ce)) h -> exists s' xs, run h s = Ret (s', xs) /\ ok s'.
Proof.
  induction h as [|[c ev] h IH]; intros s Hok Hh; cbn [run]; [by eexists _, _|].
  apply Forall_cons in Hh as [Hev Hh]. destruct (step_spec c ev s Hok Hev) as (s1 & x & -> & Hok1 & _). rbind.
  destruct (IH s1 Hok1 Hh) as (s2 & xs & -> & Hok2). rbind. by eexists _, _.
Qed.

(** A new socket is [ok]. *)
Lemma ok_new max_segments rx tx :
  (0 < max_segments)%nat -> Z.of_nat (length rx) <= 2 ^ 30 -> Z.of_nat (length tx) < 2 ^ 31 - 1 ->
  exists s, new max_segments (RingBuffer.new rx) (RingBuffer.new tx) = Ret s /\ ok s /\ state s = Closed /\
    rx_buffer s = RingBuffer.new rx.
Proof.
  intros Hm Hrx Htx. unfold new. rewrite (proj2 (Z.ltb_ge _ _)) by done. eexists. split; [done|]. split; [|done].
  split; unfold rx_window, tx_len, rx_len, in_flight; fields; try done.
  - apply RingBufferLaws.wf_new. lia.
  - apply RingBufferLaws.wf_new. lia.
  - by apply AssemblerLaws.assembler_new_wf.
  - rewrite AssemblerLaws.extent_new. lia.
  - unfold win_shift. lia.
Qed.

End TcpRun.
