(* ===== verification/TcpStream.v ===== *)
(** * The octet streams of a TCP connection

    What a segment that is taken does to the two streams of a connection, field
    by field, and the invariant [receiving], that the receive buffer holds the
    next octets of the remote's stream.  Positions in a stream are integers: the
    octet at position [p] of the stream that starts at [base] has the sequence
    number [seq_at base p], and the SYN is at -1. *)

From S2P Require Import Prelude TcpWire Assembler AssemblerLaws RingBuffer RingBufferLaws TcpState TcpSocket TcpProcess TcpDispatch TcpLogic TcpInv TcpSegment TcpSend TcpRun.
Import TcpState TcpSocket TcpProcess TcpDispatch TcpLogic TcpInv TcpSegment TcpSend TcpRun.

Local Open Scope Z_scope.

Module TcpStream.

(** ** A segment that is taken, field by field *)

(** A SYN that opens the connection. *)
Record opening (repr : Tcp.Repr) (s s' : Socket) : Prop := mkOpening {
  op_state : (state s = Listen /\ state s' = SynReceived) \/ (state s = SynSent /\ state s' = Established);
  op_syn : Tcp.control repr = Tcp.Syn;
  op_rx : rx_buffer s' = rx_buffer s;
  op_assembler : assembler s' = assembler s;
  op_fin : rx_fin_received s' = rx_fin_received s;
  op_remote : remote_seq_no s' = seq_at (Tcp.seq_number repr) 1;
  op_tx : RingBuffer.len (tx_buffer s') = 0%nat;
  op_tx_cap : RingBuffer.capacity (tx_buffer s') = RingBuffer.capacity (tx_buffer s);
  op_local : state s = SynSent ->
    Tcp.ack_number repr = Some (seq_at (local_seq_no s) 1) /\ local_seq_no s' = seq_at (local_seq_no s) 1;
  op_listen : state s = Listen -> is_seq (local_seq_no s');
  op_window : remote_win_len s' = Tcp.window_len repr;
  op_scale : remote_win_scale s' = Tcp.window_scale repr;
  op_shift : Tcp.window_scale repr <> None -> remote_win_shift s' = remote_win_shift s
}.

(** A segment of an open connection; [p] at [off] is what is taken of its payload
    and [k] the distance its acknowledgement moves. *)
Record continued (repr : Tcp.Repr) (s s' : Socket) (a : Acked) (p : list Z) (off k : Z) : Prop := mkContinued {
  ct_control : effective_control repr (window_start s) = Tcp.None_ \/
               effective_control repr (window_start s) = Tcp.Fin;
  ct_state : next_state (state s) (effective_control repr (window_start s)) (ack_of_fin a) = Some (state s');
  ct_acked : acked_ok s repr a;
  ct_ack : Tcp.ack_number repr = Some (seq_at (local_seq_no s) k);
  ct_k : state s = SynReceived /\ k = 1 \/ unsynchronized (state s) = false /\ k = ack_len a + Z.b2z (ack_of_fin a);
  ct_taken : taken s repr p off;
  ct_remote : remote_seq_no s' =
    if bool_decide (effective_control repr (window_start s) = Tcp.Fin) then seq_at (remote_seq_no s) 1 else remote_seq_no s;
  ct_fin : rx_fin_received s' =
    if bool_decide (effective_control repr (window_start s) = Tcp.Fin) then true else rx_fin_received s;
  ct_placed :
    (assembler s' = assembler s /\ rx_buffer s' = rx_buffer s /\ (p = [] \/ 0 < off)) \/
    (p <> [] /\ exists n, placed (assembler s) (rx_buffer s) p off (assembler s') (rx_buffer s') n);
  ct_tx : dropped (tx_buffer s) (tx_buffer s') (ack_len a);
  ct_local : local_seq_no s' = seq_at (local_seq_no s) k;
  ct_window : remote_win_len s' = announced s repr;
  ct_scale : remote_win_scale s' = remote_win_scale s;
  ct_shift : remote_win_shift s' = remote_win_shift s
}.

(** The control flag a segment acts with is its own, or none for a FIN. *)
Lemma effective_cases repr ws :
  effective_control repr ws = Tcp.None_ \/
  (effective_control repr ws = Tcp.Fin /\ Tcp.control repr = Tcp.Fin /\ ws = Tcp.seq_number repr) \/
  (effective_control repr ws = Tcp.Syn /\ Tcp.control repr = Tcp.Syn) \/
  (effective_control repr ws = Tcp.Rst /\ Tcp.control repr = Tcp.Rst).
Proof.
  unfold effective_control. destruct (Tcp.control repr); cbn [Tcp.quash_psh].
  - by left.
  - by left.
  - right; right; left. by rewrite bool_decide_false.
  - rewrite bool_decide_true by done. cbn [andb]. destruct (Z.eqb_spec ws (Tcp.seq_number repr)); cbn [negb]; auto.
  - right; right; right. by rewrite bool_decide_false.
Qed.

Lemma next_state_flag st c fin st' :
  next_state st c fin = Some st' -> c <> Tcp.Syn -> c = Tcp.None_ \/ c = Tcp.Fin.
Proof. destruct st, c; try done; auto. Qed.

(** The fields of the socket at the end, from those before the payload. *)
Lemma placed_fields (s2 s' : Socket) p off :
  (core s' = core s2 /\ (p = [] \/ 0 < off) \/
   p <> [] /\ exists a' b' n, placed (assembler s2) (rx_buffer s2) p off a' b' n /\
               core s' = core (set_rx_buffer b' (set_assembler a' s2))) ->
  (state s' = state s2 /\ rx_fin_received s' = rx_fin_received s2 /\ tx_buffer s' = tx_buffer s2 /\
   local_seq_no s' = local_seq_no s2 /\ remote_seq_no s' = remote_seq_no s2 /\
   remote_win_len s' = remote_win_len s2 /\ remote_win_scale s' = remote_win_scale s2 /\
   remote_win_shift s' = remote_win_shift s2) /\
  ((assembler s' = assembler s2 /\ rx_buffer s' = rx_buffer s2 /\ (p = [] \/ 0 < off)) \/
   (p <> [] /\ exists n, placed (assembler s2) (rx_buffer s2) p off (assembler s') (rx_buffer s') n)).
Proof.
  intros [[Hc Hp]|[Hp (a' & b' & n & Hpl & Hc)]]; use_core Hc; (split; [by split_and!|]); [by left|].
  right. split; [done|]. exists n. congruence.
Qed.

(** A SYN taken in a state that has no connection yet. *)
Lemma opening_of repr s s' s2 a b p off t isn last st :
  let q := opened repr t isn last st s in
  ok s -> unsynchronized (state s) = true -> acked_ok s repr a -> dropped (tx_buffer s) b (ack_len a) ->
  core s2 = core (advanced q repr b) -> (p = [] /\ off = 0) ->
  (core s' = core s2 /\ (p = [] \/ 0 < off) \/
   p <> [] /\ exists a' b' n, placed (assembler s2) (rx_buffer s2) p off a' b' n /\
               core s' = core (set_rx_buffer b' (set_assembler a' s2))) ->
  (state s = Listen /\ st = SynReceived) \/ (state s = SynSent /\ st = Established) ->
  Tcp.control repr = Tcp.Syn ->
  (state s = SynSent -> Tcp.ack_number repr = Some (seq_at (local_seq_no s) 1)) ->
  (state s = Listen -> Tcp.ack_number repr = None /\ is_seq isn) ->
  opening repr s s'.
Proof.
  intros q Hok Hu Hao Hd Hc2 [Hp _] Hpl Hst Hsyn Hack Hlis.
  destruct Hpl as [[Hc _]|[Hp' _]]; [|done].
  assert (Htx : RingBuffer.len b = 0%nat).
  { rewrite (ao_syn _ _ _ Hao Hu) in Hd. rewrite (dropped_0 _ _ Hd).
    destruct (ok_syn s Hok) as [Htx _]; [destruct (state s); by auto|]. unfold tx_len in Htx. lia. }
  assert (Htc : RingBuffer.capacity b = RingBuffer.capacity (tx_buffer s)) by apply Hd.
  destruct (advanced_fields q repr b) as (F1 & F2 & F3 & F4 & _ & F6 & F7 & F8 & F9 & F10 & _).
  assert (F11 : local_seq_no (advanced q repr b) = match Tcp.ack_number repr with Some k => k | None => isn end).
  { unfold advanced, advance, q. by destruct (Tcp.ack_number repr). }
  destruct (opened_fields repr t isn last st s) as (P1 & P2 & P3 & P4 & _ & P6 & P7 & P8 & P9 & P10 & P11).
  assert (F12 : announced q repr = Tcp.window_len repr) by (unfold announced; rewrite Hsyn; apply Z.shiftl_0_r).
  rewrite Hc2 in Hc. generalize dependent (advanced q repr b). intros q' Hc2 Hc F1 F2 F3 F4 F6 F7 F8 F9 F10 F11.
  fold q in P1, P2, P3, P4, P6, P7, P8, P9, P10, P11. clearbody q. use_core Hc.
  split; try congruence.
  - intros Hs. specialize (Hack Hs). split; [done|]. rewrite Hack in F11. congruence.
  - intros Hs. destruct (Hlis Hs) as [Ha Hi]. rewrite Ha in F11. congruence.
  - intros Hs. destruct (Tcp.window_scale repr); [congruence|done].
Qed.

Lemma took_cases ip repr s s' r :
  ok s -> took ip repr s s' r ->
  (opening repr s s' /\ r = None) \/
  exists a p off k, continued repr s s' a p off k /\ forall q, r = Some q -> p <> [] /\ is_ack s' q.
Proof.
  intros Hok [a p off s1 b s2 Hacc Hao Ht Hm Hd Hc2 Hpl Hrep].
  assert (Hnr : Tcp.control repr <> Tcp.Rst) by (eapply effective_not_rst, moved_not_rst; exact Hm).
  change (core s2 = core (advanced s1 repr b)) in Hc2.
  destruct Hm as [isn Hst Hcs Hisn Hc1|Hst Hcs Hc1|st Hcs Hn Hc1].
  1,2: left; (split; [|destruct r as [q|]; [|done]; destruct (Hrep q eq_refl) as [Hne _]; unfold taken in Ht;
    rewrite Hst in Ht; by destruct Ht]); rewrite (advanced_core _ _ repr b Hc1) in Hc2; destruct Hacc as [|Hacc]; [done|]; rewrite Hst in Hacc;
    unfold taken in Ht; rewrite Hst in Ht; eapply opening_of; try done; rewrite ?Hst; try done; auto;
    first [by intros _; apply Hacc|
      destruct (effective_cases repr (window_start s)) as [?|[(? & ? & ?)|[(? & ?)|(? & ?)]]]; congruence].
  - right. destruct (plain_ack _ _ _ _ _ Hacc Hao Hnr Hcs Hn) as (k & Hak & Hk). exists a, p, off, k. split; [|done].
    rewrite (advanced_core _ _ repr b Hc1) in Hc2.
    apply placed_fields in Hpl as [(G1 & G2 & G3 & G4 & G5 & G6 & G7 & G8) Hpl].
    destruct (advanced_fields (plain s (effective_control repr (window_start s)) st) repr b) as
      (F1 & F2 & F3 & F4 & _ & F6 & F7 & F8 & F9 & F10 & _).
    assert (F11 : local_seq_no (advanced (plain s (effective_control repr (window_start s)) st) repr b) = seq_at (local_seq_no s) k).
    { unfold advanced, advance. by rewrite Hak. }
    assert (F12 : announced (plain s (effective_control repr (window_start s)) st) repr = announced s repr).
    { unfold announced. by destruct (plain_fields s (effective_control repr (window_start s)) st) as (_ & _ & _ & _ & _ & _ & -> & _). }
    generalize dependent (advanced (plain s (effective_control repr (window_start s)) st) repr b).
    intros q Hc2 F1 F2 F3 F4 F6 F7 F8 F9 F10 F11. use_core Hc2.
    destruct (plain_fields s (effective_control repr (window_start s)) st) as (P1 & P2 & P3 & P4 & P5 & P6 & P7 & P8 & _ & _ & P10 & P11).
    split; try done; try congruence.
    + by apply (next_state_flag _ _ _ _ Hn).
    + assert (Ha2 : assembler s2 = assembler s) by congruence. assert (Hr2 : rx_buffer s2 = rx_buffer s) by congruence.
      by rewrite <-Ha2, <-Hr2.
Qed.

(** ** The stream that is received *)

Definition pending (st : State) : bool := match st with Listen | SynSent => true | _ => false end.
Definition half_closed (st : State) : bool :=
  match st with CloseWait | LastAck | Closing | TimeWait | Closed => true | _ => false end.

Definition len_rx (s : Socket) : nat := RingBuffer.len (rx_buffer s).

(** The buffer of [s] is that of a connection whose remote sends [D] from [base],
    of which the first [r] octets were read. *)
Record receiving (D : list Z) (base : SeqNumber.t) (r : nat) (s : Socket) : Prop := mkReceiving {
  rc_contents : RingBufferLaws.contents (rx_buffer s) = take (len_rx s) (drop r D);
  rc_len : (r + len_rx s <= length D)%nat;
  rc_fin : rx_fin_received s = true -> (r + len_rx s = length D)%nat;
  rc_half : rx_fin_received s = true -> half_closed (state s) = true;
  rc_closed : half_closed (state s) = true -> live (state s) = true -> rx_fin_received s = true;
  rc_pending : pending (state s) = true ->
    r = 0%nat /\ rx_fin_received s = false /\ forall k, 0 <= k -> AssemblerLaws.present (assembler s) k = false;
  rc_seq : live (state s) = true -> remote_seq_no s = seq_at base (Z.of_nat r + Z.b2z (rx_fin_received s));
  rc_next : live (state s) = true -> AssemblerLaws.present (assembler s) 0 = false;
  rc_room : live (state s) = true -> forall k : nat, AssemblerLaws.present (assembler s) (Z.of_nat k) = true ->
    (r + len_rx s + k < length D)%nat /\
    RingBufferLaws.room (rx_buffer s) !! k = D !! (r + len_rx s + k)%nat
}.

(** The position of the window, and the position where the buffer is full. *)
Definition window_pos (r : nat) (s : Socket) : Z := Z.of_nat (r + len_rx s) + Z.b2z (rx_fin_received s).
Definition edge_pos (r : nat) (s : Socket) : Z := Z.of_nat (r + RingBuffer.capacity (rx_buffer s)).

(** A segment of the stream [D] that reaches a window at [w]: the payload is a
    part of the stream that is less than 2^31 away, a FIN is at its end, and the
    payload of a FIN does not go beyond [edge]. *)
Record carries (D : list Z) (base : SeqNumber.t) (w edge : Z) (repr : Tcp.Repr) : Prop := mkCarries {
  ca_syn : Tcp.control repr = Tcp.Syn -> Tcp.seq_number repr = seq_at base (-1);
  ca_data : Tcp.payload repr <> [] \/ Tcp.control repr = Tcp.Fin -> exists pos : nat,
    - 2 ^ 31 <= Z.of_nat pos - w < 2 ^ 31 /\
    Tcp.seq_number repr = seq_at base (Z.of_nat pos) /\
    Tcp.payload repr = take (length (Tcp.payload repr)) (drop pos D) /\
    (pos + length (Tcp.payload repr) <= length D)%nat /\
    (Tcp.control repr = Tcp.Fin -> (pos + length (Tcp.payload repr) = length D)%nat /\
       (Tcp.payload repr <> [] -> Z.of_nat pos + Tcp.payload_len repr <= edge))
}.

Lemma window_start_pos D base r s :
  receiving D base r s -> live (state s) = true -> window_start s = seq_at base (window_pos r s).
Proof.
  intros Hr Hl. unfold window_start, window_pos, rx_len. rewrite (rc_seq _ _ _ _ Hr Hl), seq_at_at.
  f_equal. unfold len_rx. lia.
Qed.

Lemma lookup_splice_ring (at_ i : nat) (new l : list Z) :
  (at_ + length new <= length l)%nat ->
  RingBuffer.splice at_ new l !! i =
    if decide (at_ <= i < at_ + length new)%nat then new !! (i - at_)%nat else l !! i.
Proof.
  intros Hl. unfold RingBuffer.splice. assert (Ht : length (take at_ l) = at_) by (rewrite length_take; lia).
  destruct (decide (i < at_)%nat).
  - rewrite decide_False by lia. rewrite lookup_app_l by lia. by rewrite lookup_take_lt.
  - rewrite lookup_app_r, Ht by lia. case_decide.
    + by rewrite lookup_app_l by lia.
    + rewrite lookup_app_r, lookup_drop by lia. f_equal. lia.
Qed.

(** Octets of the stream placed at their position keep the buffer a part of the
    stream. *)
Section placed.
Context (D : list Z) (base : SeqNumber.t) (r : nat) (s : Socket) (p : list Z) (off : nat).
Context (Hok : ok s) (Hrc : receiving D base r s) (Hlive : live (state s) = true).
Context (Hfit : Z.of_nat off + Z.of_nat (length p) <= rx_window s).
Context (Hp : p = take (length p) (drop (r + len_rx s + off) D)) (Hend : (r + len_rx s + off + length p <= length D)%nat).

(** What is at [k] behind the window, if something is. *)
Lemma spliced_lookup (k : nat) :
  AssemblerLaws.present (assembler s) (Z.of_nat k) ||
    AssemblerLaws.in_range (Z.of_nat off) (Z.of_nat off + Z.of_nat (length p)) (Z.of_nat k) = true ->
  (r + len_rx s + k < length D)%nat /\
  RingBuffer.splice off p (RingBufferLaws.room (rx_buffer s)) !! k = D !! (r + len_rx s + k)%nat.
Proof.
  intros Hk. pose proof (RingBufferLaws.length_room _ (ok_rx s Hok)) as Hlr. unfold rx_window in Hfit.
  rewrite lookup_splice_ring by lia. case_decide as Hin.
  - split; [lia|]. rewrite Hp, lookup_take_lt, lookup_drop by lia. f_equal. lia.
  - apply orb_true_iff in Hk as [Hk|Hk]; [by apply (rc_room _ _ _ _ Hrc Hlive)|].
    unfold AssemblerLaws.in_range in Hk. b2p. lia.
Qed.

Lemma placed_stream a' b' n :
  placed (assembler s) (rx_buffer s) p (Z.of_nat off) a' b' n ->
  RingBuffer.len b' = (len_rx s + Z.to_nat n)%nat /\
  RingBufferLaws.contents b' = take (RingBuffer.len b') (drop r D) /\
  (r + RingBuffer.len b' <= length D)%nat /\
  (forall k : nat, AssemblerLaws.present a' (Z.of_nat k) = true ->
     (r + RingBuffer.len b' + k < length D)%nat /\
     RingBufferLaws.room b' !! k = D !! (r + RingBuffer.len b' + k)%nat).
Proof.
  intros Hpl. pose proof (pl_n _ _ _ _ _ _ _ Hpl) as Hn.
  assert (Hlen : RingBuffer.len b' = (len_rx s + Z.to_nat n)%nat).
  { pose proof (pl_len _ _ _ _ _ _ _ Hpl). unfold len_rx. lia. }
  assert (Hgiven : forall k, (k < Z.to_nat n)%nat -> (r + len_rx s + k < length D)%nat /\
    RingBuffer.splice off p (RingBufferLaws.room (rx_buffer s)) !! k = D !! (r + len_rx s + k)%nat).
  { intros k Hk. apply spliced_lookup, (pl_given _ _ _ _ _ _ _ Hpl). lia. }
  assert (Hle : (r + RingBuffer.len b' <= length D)%nat).
  { rewrite Hlen. pose proof (rc_len _ _ _ _ Hrc). destruct (Z.to_nat n) as [|m] eqn:Hm; [lia|].
    destruct (Hgiven m); lia. }
  split; [done|]. split; [|split; [done|]].
  - rewrite (pl_contents _ _ _ _ _ _ _ Hpl), Nat2Z.id, (rc_contents _ _ _ _ Hrc), Hlen.
    pose proof (rc_len _ _ _ _ Hrc). rewrite RingBufferLaws.take_split by (rewrite length_drop; lia).
    f_equal. rewrite drop_drop. apply list_eq. intros i.
    destruct (decide (i < Z.to_nat n)%nat).
    + rewrite !lookup_take_lt, lookup_drop by done. by apply Hgiven.
    + by rewrite !lookup_take_ge by lia.
  - intros k Hk. rewrite (pl_ahead _ _ _ _ _ _ _ Hpl) in Hk by lia.
    rewrite (pl_room _ _ _ _ _ _ _ Hpl), lookup_drop, Nat2Z.id, Hlen.
    replace (Z.of_nat k + n) with (Z.of_nat (Z.to_nat n + k)) in Hk by lia.
    apply spliced_lookup in Hk. rewrite !Nat.add_assoc in *. done.
Qed.

(** All that follows without a hole is in front. *)
Lemma placed_front a' b' n :
  off = 0%nat -> (r + len_rx s + length p = length D)%nat ->
  placed (assembler s) (rx_buffer s) p (Z.of_nat off) a' b' n -> (r + RingBuffer.len b' = length D)%nat.
Proof.
  intros Hoff HD Hpl. destruct (placed_stream _ _ _ Hpl) as (Hlen & _ & Hle & _).
  pose proof (pl_n _ _ _ _ _ _ _ Hpl) as Hn. pose proof (pl_ahead _ _ _ _ _ _ _ Hpl 0 ltac:(lia)) as H0.
  rewrite (pl_next _ _ _ _ _ _ _ Hpl) in H0. symmetry in H0. apply orb_false_iff in H0 as [_ H0].
  unfold AssemblerLaws.in_range in H0. rewrite Hlen. lia.
Qed.

End placed.

(** A part of a part of a list. *)
Lemma part_of (D l : list Z) (pos m a x : nat) :
  l = take x (drop a (take m (drop pos D))) -> l = take (length l) (drop (pos + a) D).
Proof.
  intros ->. rewrite skipn_firstn_comm, take_take, drop_drop. set (n := (x `min` (m - a))%nat).
  rewrite length_take. destruct (decide (n <= length (drop (pos + a) D))%nat).
  - by rewrite Nat.min_l.
  - rewrite Nat.min_r by lia. by rewrite !take_ge by lia.
Qed.

Section segment.
Context (D : list Z) (base : SeqNumber.t) (r : nat) (s : Socket) (repr : Tcp.Repr).
Context (Hok : ok s) (Hrc : receiving D base r s) (Hlive : live (state s) = true).
Context (Hca : carries D base (window_pos r s) (edge_pos r s) repr).

Lemma taken_live p off :
  taken s repr p off ->
  let o := seg_off s repr in let a := Z.max 0 (- o) in
  inside (rx_window s) o (Tcp.payload_len repr) /\ off = o + a /\ 0 <= off /\ a <= Tcp.payload_len repr /\
  off <= Z.min (rx_window s) (o + Tcp.payload_len repr) /\
  p = take (Z.to_nat (Z.min (rx_window s) (o + Tcp.payload_len repr) - off)) (drop (Z.to_nat a) (Tcp.payload repr)).
Proof. unfold taken. by destruct (state s). Qed.

(** Where a segment is, seen from the window. *)
Lemma seg_off_pos (pos : nat) :
  - 2 ^ 31 <= Z.of_nat pos - window_pos r s < 2 ^ 31 -> Tcp.seq_number repr = seq_at base (Z.of_nat pos) ->
  seg_off s repr = Z.of_nat pos - window_pos r s.
Proof.
  intros Hd Hseq. unfold seg_off. fold (window_start s).
  rewrite (window_start_pos _ _ _ _ Hrc Hlive), Hseq, i32_sub_at. by apply i32_id.
Qed.

Lemma taken_stream p off :
  taken s repr p off -> p <> [] ->
  rx_fin_received s = false /\ 0 <= off /\
  p = take (length p) (drop (r + len_rx s + Z.to_nat off) D) /\
  (r + len_rx s + Z.to_nat off + length p <= length D)%nat.
Proof.
  intros (Hin & Hoff & Hoff0 & Ha & Hm & Hp)%taken_live Hne.
  assert (Hpay : Tcp.payload repr <> []) by (intros Hx; rewrite Hx, drop_nil, take_nil in Hp; done).
  destruct (ca_data _ _ _ _ _ Hca) as (pos & Hd & Hseq & Hpd & Hle & _); [by left|].
  rewrite (seg_off_pos _ Hd Hseq) in *. unfold window_pos, Tcp.payload_len in *.
  assert (Hlen : (0 < length (Tcp.payload repr))%nat) by (by destruct (Tcp.payload repr); [|cbn; lia]).
  destruct (rx_fin_received s) eqn:Hfin; cbn [Z.b2z] in *.
  { pose proof (rc_fin _ _ _ _ Hrc Hfin). unfold inside in Hin. lia. }
  split; [done|]. split; [done|]. rewrite Hpd in Hp. apply part_of in Hp.
  set (a := Z.max 0 _) in *. replace (pos + Z.to_nat a)%nat with (r + len_rx s + Z.to_nat off)%nat in Hp by lia.
  split; [done|]. apply (f_equal length) in Hp. rewrite length_take, length_drop in Hp.
  assert (0 < length p)%nat by (by destruct p; [|cbn; lia]). lia.
Qed.

(** A FIN that counts: its whole payload is taken, and the stream ends there. *)
Lemma fin_stream p off :
  taken s repr p off -> rx_fin_received s = false -> effective_control repr (window_start s) = Tcp.Fin ->
  off = 0 /\ p = Tcp.payload repr /\ (r + len_rx s + length p = length D)%nat.
Proof.
  intros (Hin & Hoff & Hoff0 & Ha & Hm & Hp)%taken_live Hfin Hc.
  destruct (effective_cases repr (window_start s)) as [?|[(_ & Hf & Hw)|[(? & ?)|(? & ?)]]]; try congruence.
  destruct (ca_data _ _ _ _ _ Hca) as (pos & Hd & Hseq & Hpd & Hle & Hend); [by right|].
  destruct (Hend Hf) as [Hend' Hedge]. rewrite (window_start_pos _ _ _ _ Hrc Hlive), Hseq in Hw.
  apply seq_at_inj in Hw; [|lia]. rewrite (seg_off_pos _ Hd Hseq), <-Hw, Z.sub_diag in *.
  unfold window_pos, edge_pos, Tcp.payload_len in *. rewrite Hfin in *. cbn [Z.b2z] in *.
  destruct (ok_rx_len s Hok) as (_ & H2 & _). unfold rx_len in H2. fold (len_rx s) in H2.
  assert (Hall : p = Tcp.payload repr).
  { rewrite Hp. change (Z.to_nat (Z.max 0 (- 0))) with 0%nat. rewrite drop_0. apply take_ge.
    destruct (decide (Tcp.payload repr = [])) as [He|He]; [rewrite He; cbn; lia|]. specialize (Hedge He). lia. }
  split; [lia|]. split; [done|]. rewrite Hall. lia.
Qed.

End segment.

Lemma next_live st c fin st' :
  next_state st c fin = Some st' -> c = Tcp.None_ \/ c = Tcp.Fin ->
  live st = true /\ pending st' = false /\ (half_closed st = true -> half_closed st' = true /\ c = Tcp.None_) /\
  (c = Tcp.Fin -> half_closed st' = true) /\
  (half_closed st' = true -> c = Tcp.Fin \/ half_closed st = true) /\ (live st' = false -> half_closed st = true).
Proof. intros Hn [-> | ->]; destruct st, fin; try done; injection Hn as <-; split_and!; done || auto. Qed.

(** The rest of the invariant follows from what the buffer and the assembler hold. *)
Lemma receiving_at D base r s' :
  RingBufferLaws.contents (rx_buffer s') = take (len_rx s') (drop r D) -> (r + len_rx s' <= length D)%nat ->
  pending (state s') = false -> remote_seq_no s' = seq_at base (Z.of_nat r + Z.b2z (rx_fin_received s')) ->
  (rx_fin_received s' = true -> (r + len_rx s' = length D)%nat /\ half_closed (state s') = true) ->
  (half_closed (state s') = true -> rx_fin_received s' = true) ->
  AssemblerLaws.present (assembler s') 0 = false ->
  (forall k : nat, AssemblerLaws.present (assembler s') (Z.of_nat k) = true ->
     (r + len_rx s' + k < length D)%nat /\ RingBufferLaws.room (rx_buffer s') !! k = D !! (r + len_rx s' + k)%nat) ->
  receiving D base r s'.
Proof.
  intros H1 H2 H3 H4 H5 H6 H7 H8. split; try done; try (by intros; apply H5); [by intros; apply H6|by rewrite H3].
Qed.

Lemma receiving_continued D base r s s' repr a p off k :
  ok s -> receiving D base r s -> carries D base (window_pos r s) (edge_pos r s) repr ->
  continued repr s s' a p off k -> receiving D base r s'.
Proof.
  intros Hok Hrc Hca Hct. pose proof (ct_control _ _ _ _ _ _ _ Hct) as Hc. pose proof (ct_taken _ _ _ _ _ _ _ Hct) as Ht.
  destruct (next_live _ _ _ _ (ct_state _ _ _ _ _ _ _ Hct) Hc) as (Hlive & Hpend & Hhalf & Hfinst & Hhalf2 & _).
  pose proof (ct_remote _ _ _ _ _ _ _ Hct) as Hseq. pose proof (ct_fin _ _ _ _ _ _ _ Hct) as Hfin.
  assert (Hnofin : effective_control repr (window_start s) = Tcp.Fin -> rx_fin_received s = false).
  { intros He. destruct (rx_fin_received s) eqn:Hf; [|done].
    destruct (Hhalf (rc_half _ _ _ _ Hrc Hf)) as [_ ?]. congruence. }
  assert (Hseq' : remote_seq_no s' = seq_at base (Z.of_nat r + Z.b2z (rx_fin_received s'))).
  { rewrite Hseq, Hfin, (rc_seq _ _ _ _ Hrc Hlive). case_bool_decide as He; [|done].
    rewrite (Hnofin He), seq_at_at. f_equal. cbn [Z.b2z]. lia. }
  assert (Hhalf' : rx_fin_received s' = true -> half_closed (state s') = true).
  { rewrite Hfin. case_bool_decide as He; [by intros _; apply Hfinst|]. intros Hf. by apply Hhalf, (rc_half _ _ _ _ Hrc). }
  assert (Hclosed' : half_closed (state s') = true -> rx_fin_received s' = true).
  { intros H. rewrite Hfin. case_bool_decide; [done|]. destruct (Hhalf2 H); [done|]. by apply (rc_closed _ _ _ _ Hrc). }
  destruct (ct_placed _ _ _ _ _ _ _ Hct) as [(Has & Hrx & Hnop)|(Hne & n & Hpl)].
  - apply receiving_at; unfold len_rx; rewrite ?Has, ?Hrx; fold (len_rx s); try done;
      [by apply (rc_contents _ _ _ _ Hrc)|by apply (rc_len _ _ _ _ Hrc)| |by apply (rc_next _ _ _ _ Hrc)|by apply (rc_room _ _ _ _ Hrc)].
    intros Hf. split; [|auto]. rewrite Hfin in Hf. case_bool_decide as He; [|by apply (rc_fin _ _ _ _ Hrc)].
    destruct (fin_stream D base r s repr Hok Hrc Hlive Hca _ _ Ht (Hnofin He) He) as (Hoff & _ & HD).
    destruct Hnop as [->|]; [cbn in HD; lia|lia].
  - destruct (taken_stream D base r s repr Hrc Hlive Hca _ _ Ht Hne) as (Hnf & Hoff0 & Hp & Hle).
    destruct (taken_fits _ _ _ _ Hok Ht) as [_ Hfit].
    rewrite <-(Z2Nat.id off) in Hpl by done.
    destruct (placed_stream D base r s p (Z.to_nat off) Hok Hrc Hlive ltac:(lia) Hp Hle _ _ _ Hpl) as (Hlen & Hcon & Hle' & Hroom).
    apply receiving_at; try done; [|by apply Hpl]. intros Hf. split; [|auto].
    rewrite Hfin in Hf. case_bool_decide as He; [|congruence].
    destruct (fin_stream D base r s repr Hok Hrc Hlive Hca _ _ Ht Hnf He) as (Hoff & _ & HD).
    eapply (placed_front D base r s p (Z.to_nat off)); try done; lia.
Qed.

Lemma receiving_opening D base r s s' repr :
  ok s -> receiving D base r s -> carries D base (window_pos r s) (edge_pos r s) repr ->
  opening repr s s' -> receiving D base r s'.
Proof.
  intros Hok Hrc Hca Hop. pose proof (op_state _ _ _ Hop) as Hst.
  destruct (rc_pending _ _ _ _ Hrc) as (-> & Hfin & Hnone); [destruct Hst as [[-> _]|[-> _]]; done|].
  apply receiving_at; unfold len_rx; rewrite ?(op_rx _ _ _ Hop), ?(op_assembler _ _ _ Hop), ?(op_fin _ _ _ Hop);
    fold (len_rx s); [by apply (rc_contents _ _ _ _ Hrc)|by apply (rc_len _ _ _ _ Hrc)|..].
  - destruct Hst as [[_ ->]|[_ ->]]; done.
  - rewrite (op_remote _ _ _ Hop), (ca_syn _ _ _ _ _ Hca (op_syn _ _ _ Hop)), seq_at_at, Hfin. done.
  - congruence.
  - by destruct Hst as [[_ ->]|[_ ->]].
  - by apply Hnone.
  - intros k Hk. rewrite Hnone in Hk by lia. done.
Qed.

(** ** What else can happen to the received stream *)

(** The fields the invariant is about. *)
Definition rx_view (s : Socket) := (assembler s, rx_buffer s, rx_fin_received s, remote_seq_no s).

Lemma core_rx_view s s' : core s' = core s -> rx_view s' = rx_view s /\ state s' = state s.
Proof. intros H. use_core H. unfold rx_view. split; congruence. Qed.

(** A change of the state that opens nothing. *)
Definition quieter (st st' : State) : Prop :=
  st' = st \/ (pending st' = false /\ (live st' = true -> live st = true) /\ (half_closed st = true -> half_closed st' = true) /\
               (live st' = true -> half_closed st' = true -> half_closed st = true)).

Lemma receiving_view D base r s s' :
  receiving D base r s -> rx_view s' = rx_view s -> quieter (state s) (state s') -> receiving D base r s'.
Proof.
  intros Hrc Hv Hq. unfold rx_view in Hv. injection Hv as Ha Hr Hf Hn. destruct Hrc. unfold len_rx in *.
  split; unfold len_rx; rewrite ?Ha, ?Hr, ?Hf, ?Hn; try done;
    (destruct Hq as [->|(Hp & Hl & Hh & Hc)]; [done|]); intros; try congruence; auto.
Qed.

Lemma quieter_closed st : quieter st Closed.
Proof. by right. Qed.

Lemma receiving_reset D base r s w w' :
  receiving D base r s -> receiving D base r (set_tx_waker w' (set_rx_waker w (reset_fields s))).
Proof. intros Hrc. pose proof (rc_len _ _ _ _ Hrc). split; unfold len_rx; fields; try done. cbn. lia. Qed.

Lemma timed_view now s s1 : timed now s s1 -> rx_view s1 = rx_view s /\ quieter (state s) (state s1).
Proof. intros [->|w w' _ ->|d q _ ->]; (split; [done|]); [by left|by right|by left]. Qed.

Lemma receiving_dispatched {E} D base r now s s' (x : sent (E := E)) :
  receiving D base r s -> dispatched now s s' x -> receiving D base r s'.
Proof.
  intros Hrc Hd.
  assert (Hst : receiving D base r (stamped now s)).
  { destruct (core_rx_view _ _ (proj1 (stamped_core now s))) as [Hv Hs]. apply (receiving_view _ _ _ s); [done|done|by left]. }
  assert (Htm : forall s1, timed now (stamped now s) s1 -> receiving D base r s1).
  { intros s1 Ht. destruct (timed_view _ _ _ Ht) as [Hv Hq]. by apply (receiving_view _ _ _ (stamped now s)). }
  destruct Hd as [_ ->|s1 Ht ->|s1 w w' Ht _ ->|s1 p e Ht _ ->|s1 p Ht _ Hc|s1 p Ht _ _ Hc]; auto.
  - by apply receiving_reset, Htm.
  - destruct (core_rx_view _ _ Hc) as [Hv Hs]. apply (receiving_view _ _ _ s1); [auto|done|by left].
  - destruct (core_rx_view _ _ Hc) as [Hv Hs]. apply (receiving_view _ _ _ s1); [by apply Htm|..].
    + rewrite Hv. unfold sent_on. by destruct (state s1).
    + rewrite Hs. destruct (sent_on_fields s1 (Tcp.segment_len (snd p))) as [-> _]. by left.
Qed.

Lemma receiving_gave D base r n s s' x :
  ok s -> receiving D base r s -> gave s n s' x ->
  match x with
  | Ok out => out = take (length out) (drop r D) /\ receiving D base (r + length out) s'
  | Err e => s' = s /\ (e = Finished -> (r = length D)%nat)
  end.
Proof.
  intros Hok Hrc [Hm ->|b out Hu Hwf Hcap Hcon Hroom Hc].
  - split; [done|]. destruct (rx_fin_received s) eqn:Hf; [|done]. intros _.
    rewrite <-(rc_fin _ _ _ _ Hrc Hf). unfold may_recv, RingBuffer.is_empty in Hm. unfold len_rx.
    destruct (RingBuffer.len (rx_buffer s)); [lia|]. by destruct (state s).
  - pose proof (rc_contents _ _ _ _ Hrc) as Hcs. pose proof (rc_len _ _ _ _ Hrc) as Hle.
    pose proof (RingBufferLaws.length_contents _ (ok_rx s Hok)) as Hls. fold (len_rx s) in Hls.
    pose proof (RingBufferLaws.length_contents b Hwf) as Hlb. rewrite Hcon, length_drop, Hls in Hlb.
    assert (Hlo : length out = (n `min` len_rx s)%nat) by (unfold out; by rewrite length_take, Hls).
    use_core Hc. assert (Hlen : len_rx s' = (len_rx s - n)%nat) by (unfold len_rx in *; congruence).
    assert (Hpre : (r + length out + len_rx s' = r + len_rx s)%nat) by lia.
    split.
    + rewrite Hlo. unfold out. rewrite Hcs, take_take. done.
    + split; rewrite ?Hpre; try congruence.
      * rewrite Hlen. replace (rx_buffer s') with b by congruence. rewrite Hcon, Hcs, skipn_firstn_comm, drop_drop.
        destruct (decide (n <= len_rx s)%nat); [f_equal; f_equal; lia|].
        replace (len_rx s - n)%nat with 0%nat by lia. done.
      * intros Hf. apply (rc_fin _ _ _ _ Hrc). congruence.
      * intros Hf. replace (state s') with (state s) by congruence. apply (rc_half _ _ _ _ Hrc). congruence.
      * replace (state s') with (state s) by congruence. replace (rx_fin_received s') with (rx_fin_received s) by congruence.
        apply (rc_closed _ _ _ _ Hrc).
      * intros Hp. replace (state s') with (state s) in Hp by congruence. by destruct (state s).
      * intros Hl. replace (state s') with (state s) in Hl by congruence.
        replace (remote_seq_no s') with (seq_at (remote_seq_no s) (Z.of_nat (length out))) by congruence.
        rewrite (rc_seq _ _ _ _ Hrc Hl), seq_at_at. replace (rx_fin_received s') with (rx_fin_received s) by congruence.
        f_equal. lia.
      * intros Hl. replace (state s') with (state s) in Hl by congruence.
        replace (assembler s') with (assembler s) by congruence. by apply (rc_next _ _ _ _ Hrc).
      * intros Hl k. replace (state s') with (state s) in Hl by congruence.
        replace (assembler s') with (assembler s) by congruence. intros Hk.
        destruct (rc_room _ _ _ _ Hrc Hl k Hk) as [Hlt Hlk]. split; [done|].
        replace (rx_buffer s') with b by congruence. rewrite Hroom, lookup_app_l; [done|].
        rewrite (RingBufferLaws.length_room _ (ok_rx s Hok)).
        pose proof (AssemblerLaws.present_extent _ _ (ok_assembler s Hok) Hk ltac:(lia)).
        pose proof (ok_extent s Hok). unfold rx_window in *. lia.
Qed.

(** What an event gave its caller. *)
Definition delivered (x : answer) : list Z := match x with Received (Ok out) => out | _ => [] end.

(** The socket is opened only once. *)
Definition opens_again (ev : event) : bool := match ev with EvListen _ | EvConnect _ _ => true | _ => false end.

(** The segments that reach the socket are those of the stream, and none refuses
    the connection while it is being opened. *)
Definition segment_carries (D : list Z) (base : SeqNumber.t) (r : nat) (s : Socket) (ev : event) : Prop :=
  match ev with
  | EvSegment ip repr =>
      accepts ip repr s = true ->
      carries D base (window_pos r s) (edge_pos r s) repr /\ (Tcp.control repr = Tcp.Rst -> state s <> SynReceived)
  | _ => True
  end.

Lemma receiving_arrived D base r ip repr s s' x :
  ok s -> receiving D base r s -> carries D base (window_pos r s) (edge_pos r s) repr ->
  (Tcp.control repr = Tcp.Rst -> state s <> SynReceived) -> arrived ip repr s s' x -> receiving D base r s'.
Proof.
  intros Hok Hrc Hca Hrst [q _ Hc|Hr Hc|q Ht].
  - destruct (core_rx_view _ _ Hc) as [Hv Hs]. apply (receiving_view _ _ _ s); [done|done|by left].
  - destruct (core_rx_view _ _ Hc) as [Hv Hs]. apply (receiving_view _ _ _ s); [done|done|].
    rewrite Hs. fields. specialize (Hrst Hr). destruct (state s); try done; apply quieter_closed.
  - destruct (took_cases ip repr s s' q Hok Ht) as [[Hop _]|(a & p & off & k & Hct & _)].
    + by eapply receiving_opening.
    + by eapply receiving_continued.
Qed.

Lemma receiving_step D base r c ev s s' x :
  ok s -> receiving D base r s -> opens_again ev = false -> segment_carries D base r s ev ->
  effect c ev s s' x ->
  receiving D base (r + length (delivered x)) s' /\ delivered x = take (length (delivered x)) (drop r D).
Proof.
  intros Hok Hrc Ho Hseg He.
  assert (Hnil : delivered x = [] -> receiving D base r s' -> receiving D base (r + length (delivered x)) s' /\
    delivered x = take (length (delivered x)) (drop r D)).
  { intros -> H. cbn. by rewrite Nat.add_0_r. }
  assert (Hcore : forall s1, rx_view s1 = rx_view s -> quieter (state s) (state s1) -> core s' = core s1 ->
    receiving D base r s').
  { intros s1 Hv Hq Hc. destruct (core_rx_view _ _ Hc) as [Hv' Hs'].
    apply (receiving_view _ _ _ s); [done|congruence|by rewrite Hs']. }
  assert (Hsame : core s' = core s /\ silent x -> receiving D base (r + length (delivered x)) s' /\
    delivered x = take (length (delivered x)) (drop r D)).
  { intros [Hc Hx]. apply Hnil; [by destruct x|]. by apply (Hcore s); [|left|]. }
  destruct ev; cbn [effect opens_again segment_carries] in *; try done; try (by apply Hsame).
  - destruct He as [Hc ->]. apply Hnil; [done|]. apply (Hcore (set_state (close_state (state s)) s)); [done| |done]. fields.
    destruct (state s); first [by left|by right].
  - destruct He as [Hc ->]. apply Hnil; [done|]. apply (Hcore (set_state Closed s)); [done|apply quieter_closed|done].
  - destruct He as (q & -> & Hw). apply Hnil; [done|].
    destruct Hw as [_ ->|n b _ _ _ _ _ Hc]; [done|]. by apply (Hcore (set_tx_buffer b s)); [|left|].
  - destruct He as (q & -> & Hg). pose proof (receiving_gave _ _ _ _ _ _ _ Hok Hrc Hg) as H. destruct q as [out|e].
    + destruct H. by split.
    + destruct H as [-> _]. by apply Hnil.
  - destruct He as [Hc ->]. apply Hnil; [done|]. by apply (Hcore (set_keep_alive d s)); [|left|].
  - destruct He as [[Hc ->]|(q & -> & Hacc & Ha)].
    + apply Hnil; [done|]. by apply (Hcore s); [|left|].
    + apply Hnil; [done|]. destruct (Hseg Hacc) as [Hca Hrst]. by eapply receiving_arrived.
  - destruct He as (q & -> & Hd). apply Hnil; [done|]. by eapply receiving_dispatched.
Qed.

End TcpStream.
