(* ===== verification/TcpOut.v ===== *)
(** * The octets a TCP socket sends

    The invariant [sending]: the transmit buffer holds what is left of our
    stream, and every segment a socket sends carries the part of the stream its
    sequence number says.  [mute] is a socket that sends no keep-alive packets. *)

From S2P Require Import Prelude TcpWire Assembler AssemblerLaws RingBuffer RingBufferLaws TcpState TcpSocket TcpProcess TcpDispatch TcpLogic TcpInv TcpSegment TcpSend TcpRun TcpStream.
Import TcpState TcpSocket TcpProcess TcpDispatch TcpLogic TcpInv TcpSegment TcpSend TcpRun TcpStream.

Local Open Scope Z_scope.

Module TcpOut.

(** ** The stream that is sent *)

(** The transmit buffer of [s] is that of a socket whose user has written [S], to
    be sent from [base], of which [a] octets are acknowledged; -1 while the SYN
    is not. *)
Record sending (S : list Z) (base : SeqNumber.t) (a : Z) (s : Socket) : Prop := mkSending {
  sn_listen : state s = Listen -> S = [];
  sn_syn : sent_syn (state s) = true -> S = [] /\ a = -1 /\ local_seq_no s = seq_at base (-1);
  sn_data : sends_data (state s) = true ->
    0 <= a /\ local_seq_no s = seq_at base a /\
    RingBufferLaws.contents (tx_buffer s) = drop (Z.to_nat a) S /\ a + tx_len s = Z.of_nat (length S)
}.

(** The states in which nothing more can be written. *)
Definition ended (st : State) : bool :=
  match st with FinWait1 | FinWait2 | Closing | TimeWait | LastAck | Closed => true | _ => false end.

Definition tx_view (s : Socket) := (tx_buffer s, local_seq_no s).

(** A change of the state that starts no sending. *)
Definition calmer (st st' : State) : Prop :=
  st' = st \/ (ended st' = true /\ (sends_data st' = true -> sends_data st = true)).

Lemma sending_view S base a s s' :
  sending S base a s -> tx_view s' = tx_view s -> calmer (state s) (state s') -> sending S base a s'.
Proof.
  intros [H1 H2 H3] Hv Hc. unfold tx_view in Hv. injection Hv as Ht Hl. unfold tx_len in *.
  split; unfold tx_len; rewrite ?Ht, ?Hl; (destruct Hc as [->|[He Hd]]; [done|]).
  - intros Hs. by rewrite Hs in He.
  - intros Hs. by destruct (state s').
  - auto.
Qed.

Lemma core_tx_view s s' : core s' = core s -> tx_view s' = tx_view s /\ state s' = state s.
Proof. intros H. use_core H. unfold tx_view. split; congruence. Qed.

Lemma calmer_ended st st' : ended st = true -> calmer st st' -> ended st' = true.
Proof. intros He [->|[H _]]; done. Qed.

(** ** Writing *)

Definition accepted (ev : event) (x : answer) : list Z :=
  match ev, x with EvSend data, Sent (Ok n) => take n data | _, _ => [] end.

Lemma sending_wrote S base a s data s' x :
  sending S base a s -> wrote s data s' x ->
  sending (S ++ match x with Ok n => take n data | Err _ => [] end) base a s' /\
  (ended (state s) = true -> match x with Ok n => False | Err _ => True end).
Proof.
  intros Hs [Hm ->|n b Hm Hcon Hwf Hcap Hn Hc].
  - rewrite app_nil_r. done.
  - assert (Hst : state s = Established \/ state s = CloseWait) by (unfold may_send in Hm; destruct (state s); done || auto).
    split; [|by destruct Hst as [-> | ->]]. use_core Hc.
    assert (Hd : sends_data (state s) = true) by (by destruct Hst as [-> | ->]).
    destruct (sn_data _ _ _ _ Hs Hd) as (Ha & Hl & Hct & Hlen). fields_in Hl.
    pose proof (RingBufferLaws.length_contents b Hwf) as Hlb. rewrite Hcon, Hct, length_app, length_drop in Hlb.
    assert (Hs' : state s' = state s) by congruence.
    split; [rewrite Hs'; destruct Hst as [-> | ->]; done..|]. intros _.
    split; [done|]. split; [congruence|]. unfold tx_len in *. replace (tx_buffer s') with b by congruence.
    rewrite Hcon, Hct. split; [by rewrite drop_app_le by lia|]. rewrite length_app. lia.
Qed.

(** ** Segments that arrive *)

Lemma sending_opening S base a s s' repr :
  ok s' -> sending S base a s -> opening repr s s' ->
  match state s with
  | Listen => sending S (seq_at (local_seq_no s') 1) (-1) s'
  | _ => sending S base 0 s'
  end.
Proof.
  intros Hok Hs Hop. pose proof (op_tx _ _ _ Hop) as Htx.
  assert (Hcon : RingBufferLaws.contents (tx_buffer s') = []).
  { apply length_zero_iff_nil. by rewrite RingBufferLaws.length_contents by apply Hok. }
  destruct (op_state _ _ _ Hop) as [[Hst Hst']|[Hst Hst']]; rewrite Hst.
  - rewrite (sn_listen _ _ _ _ Hs Hst). split; rewrite Hst'; try done. intros _. split; [done|]. split; [done|].
    rewrite seq_at_at. apply seq_self, (op_listen _ _ _ Hop Hst).
  - destruct (sn_syn _ _ _ _ Hs) as (-> & _ & Hl); [by rewrite Hst|]. destruct (op_local _ _ _ Hop Hst) as [_ Hl'].
    split; rewrite Hst'; try done. intros _. split; [done|]. split; [|split; [done|unfold tx_len; rewrite Htx; done]].
    rewrite Hl', Hl, seq_at_at. done.
Qed.

Lemma next_sends st c fin st' :
  next_state st c fin = Some st' -> c = Tcp.None_ \/ c = Tcp.Fin ->
  (sends_data st' = true -> st = SynReceived \/ (sends_data st = true /\ (sent_fin st = true -> fin = false))) /\
  (ended st = true -> ended st' = true) /\ st' <> Listen /\ sent_syn st' = false.
Proof. intros Hn [-> | ->]; destruct st, fin; try done; injection Hn as <-; split_and!; done || auto. Qed.

Lemma sending_continued S base a s s' repr ac p off k :
  ok s -> sending S base a s -> continued repr s s' ac p off k ->
  sending S base (a + k) s' /\
  (sends_data (state s') = true -> Tcp.ack_number repr = Some (seq_at base (a + k)) /\ 0 <= k < 2 ^ 31).
Proof.
  intros Hok Hs Hct. pose proof (ct_control _ _ _ _ _ _ _ Hct) as Hc. pose proof (ok_tx_len s Hok) as Htxl.
  destruct (next_sends _ _ _ _ (ct_state _ _ _ _ _ _ _ Hct) Hc) as (Hd & _ & Hnl & Hns).
  pose proof (ct_acked _ _ _ _ _ _ _ Hct) as Hao. pose proof (ct_tx _ _ _ _ _ _ _ Hct) as (_ & _ & Hlen & Hcon).
  pose proof (ct_local _ _ _ _ _ _ _ Hct) as Hl. pose proof (ct_k _ _ _ _ _ _ _ Hct) as Hk.
  pose proof (ao_len _ _ _ Hao) as Hal.
  assert (Hmain : sends_data (state s') = true -> 0 <= k < 2 ^ 31 /\ 0 <= a + k /\ local_seq_no s = seq_at base a /\
    RingBufferLaws.contents (tx_buffer s') = drop (Z.to_nat (a + k)) S /\ a + k + tx_len s' = Z.of_nat (length S)).
  { intros Hsd. destruct (Hd Hsd) as [He|[Hsd0 Hfin]].
    - destruct (sn_syn _ _ _ _ Hs) as (-> & -> & Hl0); [by rewrite He|]. rewrite He in Hk. destruct Hk as [[_ ->]|[? _]]; [|done].
      rewrite (ao_syn _ _ _ Hao) in * by (by rewrite He).
      destruct (ok_syn s Hok) as [Htx _]; [left; by rewrite He|]. unfold tx_len in *.
      split; [lia|]. split; [lia|]. split; [done|]. split; [|cbn [length]; lia].
      rewrite drop_nil. apply length_zero_iff_nil. rewrite Hcon, length_drop, RingBufferLaws.length_contents by apply Hok. lia.
    - destruct (sn_data _ _ _ _ Hs Hsd0) as (Ha & Hl0 & Hct0 & Hlen0).
      assert (Hf : ack_of_fin ac = false).
      { destruct (ack_of_fin ac) eqn:Hf; [|done]. destruct (ao_fin _ _ _ Hao Hf) as [Hsf _]. specialize (Hfin Hsf). congruence. }
      rewrite Hf in Hk. cbn [Z.b2z] in Hk.
      destruct Hk as [[He ->]|[_ Hk]]; [by rewrite He in Hsd0|]. rewrite Z.add_0_r in Hk. subst k. unfold tx_len in *.
      split; [lia|]. split; [lia|]. split; [done|]. rewrite Hcon, Hct0, drop_drop. split; [f_equal; lia|lia]. }
  split.
  - split; [by intros|by rewrite Hns|]. intros Hsd. destruct (Hmain Hsd) as (_ & H1 & H2 & H3 & H4).
    split; [done|]. split; [|done]. by rewrite Hl, H2, seq_at_at.
  - intros Hsd. destruct (Hmain Hsd) as (H0 & _ & H2 & _). split; [|done].
    by rewrite (ct_ack _ _ _ _ _ _ _ Hct), H2, seq_at_at.
Qed.

(** ** Segments that are sent *)

(** A segment a socket sends has the octets of its stream, and a FIN is at the
    end of the stream. *)
Lemma outgoing_stream S base a s r :
  ok s -> sending S base a s -> outgoing s r -> (sent_syn (state s) = true -> in_flight s = 0) ->
  (Tcp.control r = Tcp.Syn -> Tcp.seq_number r = seq_at base (-1)) /\
  (Tcp.payload r <> [] \/ Tcp.control r = Tcp.Fin -> exists pos : nat,
     Z.of_nat pos = a + in_flight s /\ sends_data (state s) = true /\
     Tcp.seq_number r = seq_at base (Z.of_nat pos) /\
     Tcp.payload r = take (length (Tcp.payload r)) (drop pos S) /\
     (pos + length (Tcp.payload r) <= length S)%nat /\
     (Tcp.control r = Tcp.Fin -> (pos + length (Tcp.payload r) = length S)%nat /\ ended (state s) = true) /\
     (Tcp.payload r <> [] -> Z.of_nat pos + Tcp.payload_len r <= a + remote_win_len s)).
Proof.
  intros Hok Hs Ho Hsyn. destruct (ok_flight s Hok) as [Hl Hf]. split.
  - intros Hc. apply (og_syn _ _ Ho) in Hc. destruct (sn_syn _ _ _ _ Hs Hc) as (_ & _ & Hlo).
    rewrite (og_seq _ _ Ho), Hl, (Hsyn Hc), Hlo, seq_at_at. done.
  - intros Hor. assert (Hsd : sends_data (state s) = true).
    { destruct Hor as [Hp|Hfin].
      - destruct (sends_data (state s)) eqn:Hsd; [done|]. pose proof (og_payload _ _ Ho) as Hpl. by rewrite Hsd in Hpl.
      - apply (og_fin _ _ Ho) in Hfin as [Hfin _]. by destruct (state s). }
    destruct (sn_data _ _ _ _ Hs Hsd) as (Ha & Hlo & Hcon & Hlen). exists (Z.to_nat (a + in_flight s)).
    pose proof (og_fits _ _ Ho) as Hfit. pose proof (og_payload _ _ Ho) as Hpay. rewrite Hsd, Hcon, drop_drop in Hpay.
    pose proof (og_limit _ _ Ho) as Hlim. unfold Tcp.payload_len in *.
    assert (Hle : (Z.to_nat (a + in_flight s) + length (Tcp.payload r) <= length S)%nat).
    { destruct Hor as [Hp|Hfin].
      - assert (0 < length (Tcp.payload r))%nat by (by destruct (Tcp.payload r); [|cbn; lia]). lia.
      - apply (og_fin _ _ Ho) in Hfin as [_ Hfin]. unfold Tcp.payload_len in Hfin. lia. }
    split; [lia|]. split; [done|]. split; [rewrite (og_seq _ _ Ho), Hl, Hlo, seq_at_at; f_equal; lia|].
    split; [rewrite Hpay at 1; do 2 f_equal; lia|]. split; [done|]. split.
    + intros Hfin. apply (og_fin _ _ Ho) in Hfin as [Hsf Hfin]. unfold Tcp.payload_len in Hfin. split; [lia|].
      by destruct (state s).
    + intros Hp. assert (0 < length (Tcp.payload r))%nat by (by destruct (Tcp.payload r); [|cbn; lia]). lia.
Qed.

(** A socket without keep-alive packets. *)
Definition mute (s : Socket) : Prop :=
  keep_alive s = None /\ match timer s with Idle (Some _) => False | _ => True end.

(** The socket [s1] that a segment of such a socket is [outgoing] from. *)
Lemma dispatched_outgoing {E} now s s' p :
  ok s -> mute s -> dispatched (E := E) now s s' (Some p, Ok tt) -> exists s1,
    timed now (stamped now s) s1 /\ ok s1 /\ outgoing s1 (snd p) /\
    (sent_syn (state s1) = true -> in_flight s1 = 0) /\ core s' = core (sent_on s1 (Tcp.segment_len (snd p))).
Proof.
  intros Hok [Hka Hmute] Hd. pose proof (stamped_core now s) as [Hc0 Hcalm0].
  assert (Hok0 : ok (stamped now s)) by (by apply (ok_core s)).
  assert (Ht0 : timer (stamped now s) = timer s /\ keep_alive (stamped now s) = None)
    by (unfold stamped; by destruct (remote_last_ts s)).
  destruct Ht0 as [Ht0 Hk0]. inversion Hd as [| | | |s1 p' Ht [Hk _] Hc|s1 p' Ht Ho Hsyn Hc]; subst.
  - destruct Ht as [->|w w' _ ->|d q _ ->]; fields_in Hk; rewrite ?Ht0, ?Hk0 in Hk;
      [by destruct (timer s) as [[]| | |]..|done].
  - exists s1. pose proof (timed_ok _ _ _ Hok0 Ht). by split_and!.
Qed.

(** ** No keep-alive packets *)

(** What every part of a call keeps. *)
Definition pkeeps {R A} (I : Socket -> Prop) (m : proc R A) : Prop :=
  forall e, I (self e) -> match m e with Ret (e', _) => I (self e') | Panic => True end.

Section pkeeps.
Context (I : Socket -> Prop) {R : Type}.

Lemma pk_bind {A B} (m : proc R A) (f : A -> proc R B) :
  pkeeps I m -> (forall a, pkeeps I (f a)) -> pkeeps I (m ≫= f).
Proof.
  intros Hm Hf e He. specialize (Hm e He). unfold mbind, proc_bind. destruct (m e) as [[e' [r|a]]|]; [done| |done].
  by apply Hf.
Qed.
Lemma pk_ret {A} (a : A) : pkeeps (R := R) I (mret a).
Proof. by intros e He. Qed.
Lemma pk_return {A} r : pkeeps (R := R) (A := A) I (return_ r).
Proof. by intros e He. Qed.
Lemma pk_get {A} (f : Socket -> A) : pkeeps (R := R) I (get f).
Proof. by intros e He. Qed.
Lemma pk_context : pkeeps (R := R) I context.
Proof. by intros e He. Qed.
Lemma pk_upd f : (forall s, I s -> I (f s)) -> pkeeps (R := R) I (upd f).
Proof. intros Hf e He. by apply Hf. Qed.
Lemma pk_do {A} (m : outcome A) : pkeeps (R := R) I (do m).
Proof. intros e He. unfold do. by destruct m. Qed.
Lemma pk_try_upd f : (forall s s', f s = Ret s' -> I s -> I s') -> pkeeps (R := R) I (try_upd f).
Proof. intros Hf e He. unfold try_upd. destruct (f (self e)) eqn:Hs; [|done]. by eapply Hf. Qed.
Lemma pk_run (m : proc R R) e e' r : pkeeps I m -> I (self e) -> TcpState.run m e = Ret (e', r) -> I (self e').
Proof.
  intros Hm He Hr. specialize (Hm e He). unfold TcpState.run in Hr. destruct (m e) as [[e1 [r1|r1]]|]; [| |done]; by injection Hr as <- _.
Qed.

End pkeeps.

(** A change of a field other than the timer and the keep-alive interval, or of
    the timer to one that sends no keep-alive packet. *)
Ltac mute_upd :=
  let H1 := fresh in let H2 := fresh in
  intros ? [H1 H2]; repeat case_match; first
    [ exact (conj H1 H2)
    | split; [exact H1|]; fields; cbn [set_for_idle set_for_close set_for_fast_retransmit]; rewrite ?H1; exact I
    | split; [exact H1|]; fields; unfold rewind_keep_alive, set_for_retransmit; rewrite ?H1;
      repeat case_match; simplify_eq; done ].
Ltac head_of t := match t with ?f _ => head_of f | _ => t end.

Lemma mute_wakes {R} : pkeeps (R := R) mute wake_rx /\ pkeeps (R := R) mute wake_tx.
Proof. by split; intros e [H1 H2]. Qed.
Lemma mute_random {R} : pkeeps (R := R) mute random_seq_no.
Proof. intros e He. unfold random_seq_no. by destruct (Iface.rand_u32 (cx e)). Qed.

Ltac mute_step :=
  match goal with
  | |- pkeeps _ (mbind _ _) => apply pk_bind; [|intros ?]
  | |- pkeeps _ (mret _) => apply pk_ret
  | |- pkeeps _ (return_ _) => apply pk_return
  | |- pkeeps _ (get _) => apply pk_get
  | |- pkeeps _ context => apply pk_context
  | |- pkeeps _ (do _) => apply pk_do
  | |- pkeeps _ wake_rx => apply (proj1 mute_wakes)
  | |- pkeeps _ wake_tx => apply (proj2 mute_wakes)
  | |- pkeeps _ random_seq_no => apply mute_random
  | |- pkeeps _ (upd _) => apply pk_upd; mute_upd
  | |- pkeeps _ (try_upd _) =>
      let H := fresh in let HI := fresh in
      apply pk_try_upd; intros ? ? H HI; unfold mbind, outcome_bind in H;
      repeat case_match; simplify_eq; exact HI
  | |- pkeeps _ (match ?x with _ => _ end) => destruct x
  | |- pkeeps _ (let _ := _ in _) => cbv zeta
  | |- pkeeps _ ?m => let h := head_of m in unfold h
  end.

Lemma mute_process ip repr e e' r : mute (self e) -> process ip repr e = Ret (e', r) -> mute (self e').
Proof. apply pk_run. repeat mute_step. Qed.

Lemma mute_close e e' r : mute (self e) -> close e = Ret (e', r) -> mute (self e').
Proof. apply pk_run. repeat mute_step. Qed.

Lemma mute_listen ep e e' r : mute (self e) -> listen ep e = Ret (e', r) -> mute (self e').
Proof. apply pk_run. repeat mute_step. Qed.

Lemma mute_connect remote_ep local_ep e e' r :
  mute (self e) -> connect remote_ep local_ep e = Ret (e', r) -> mute (self e').
Proof. apply pk_run. repeat mute_step. Qed.

Lemma mute_emit {E} (emit : Iface.Context -> reply_t -> Iface.Context * result unit E) p :
  pkeeps mute (emit_packet emit p).
Proof. intros e He. unfold emit_packet. by destruct (emit (cx e) p). Qed.

Lemma mute_dispatch {E} (emit : Iface.Context -> reply_t -> Iface.Context * result unit E) e e' r :
  mute (self e) -> dispatch emit e = Ret (e', r) -> mute (self e').
Proof. apply pk_run. repeat first [apply mute_emit|mute_step]. Qed.

(** Nothing but [set_keep_alive] asks for keep-alive packets. *)
Lemma mute_step_spec c ev s s' x :
  mute s -> (forall d, ev <> EvKeepAlive (Some d)) -> step c ev s = Ret (s', x) -> mute s'.
Proof.
  intros Hm Hk Hs. destruct ev; cbn [step] in *; unfold call in Hs; try (by injection Hs as <- _).
  - destruct (listen ep (mkEnv c s [])) as [[e r]|] eqn:He; [|done]. injection Hs as <- _.
    exact (mute_listen ep (mkEnv c s []) _ _ Hm He).
  - destruct (connect remote_ep local_ep (mkEnv c s [])) as [[e r]|] eqn:He; [|done]. injection Hs as <- _.
    exact (mute_connect _ _ (mkEnv c s []) _ _ Hm He).
  - destruct (close (mkEnv c s [])) as [[e r]|] eqn:He; [|done]. injection Hs as <- _.
    exact (mute_close (mkEnv c s []) _ _ Hm He).
  - unfold send_slice, send_impl in Hs. destruct (may_send s); cbn [negb] in Hs; [|by injection Hs as <- _].
    set (s1 := if RingBuffer.is_empty (tx_buffer s) then _ else s) in Hs.
    assert (Hm1 : mute s1) by (unfold s1; by case_match).
    destruct (RingBuffer.enqueue_slice data (tx_buffer s1)) as [[b n]|]; [|done]. by injection Hs as <- _.
  - unfold recv_slice, recv_impl in Hs. destruct (recv_error_check s); [|by injection Hs as <- _].
    destruct (RingBuffer.dequeue_slice n (rx_buffer s)) as [[b out]|]; [|done]. cbn in Hs.
    destruct (SeqNumber.add _ _); [|done]. by injection Hs as <- _.
  - destruct (peek n s); [|done]. by injection Hs as <- _.
  - destruct (peek_slice n s); [|done]. by injection Hs as <- _.
  - destruct d as [d|]; [by destruct (Hk d)|]. injection Hs as <- _. by destruct Hm.
  - unfold set_hop_limit_checked in Hs. destruct h as [[| |]|]; try done; by injection Hs as <- _.
  - destruct (accepts ip repr s); [|by injection Hs as <- _].
    destruct (process ip repr (mkEnv c s [])) as [[e r]|] eqn:He; [|done]. injection Hs as <- _. exact (mute_process ip repr (mkEnv c s []) _ _ Hm He).
  - destruct (dispatch (device device_ready) (mkEnv c s [])) as [[e r]|] eqn:He; [|done]. injection Hs as <- _.
    exact (mute_dispatch _ (mkEnv c s []) _ _ Hm He).
  - destruct (poll_at c s); [|done]. by injection Hs as <- _.
Qed.

End TcpOut.
