(* ===== verification/TcpWorld.v ===== *)
(** * Two TCP sockets and a network between them

    A [world] is two sockets, what their users have written and read, and the
    packets in the network.  The network may lose packets, deliver them late, in
    any order and more than once; only a packet so old that a side has since
    written more than 2^30 octets is not delivered any more.  The invariant
    [good] relates the two sockets and the packets. *)

From S2P Require Import Prelude TcpWire Assembler AssemblerLaws RingBuffer RingBufferLaws TcpState TcpSocket TcpProcess TcpDispatch TcpLogic TcpInv TcpSegment TcpSend TcpRun TcpStream TcpOut.
Import TcpState TcpSocket TcpProcess TcpDispatch TcpLogic TcpInv TcpSegment TcpSend TcpRun TcpStream TcpOut.

Local Open Scope Z_scope.

Module TcpWorld.

(** ** The system *)

(** A socket, the octets it took from its user and those it gave them. *)
Record side : Type := mkSide { sock : Socket; written : list Z; read : list Z }.

(** A packet, who sent it, and how much each side had written then. *)
Record packet : Type := mkPacket { from : bool; segment : reply_t; stamp : bool -> nat }.

Record world : Type := mkWorld { side_of : bool -> side; net : list packet }.

Definition put (x : bool) (d : side) (f : bool -> side) : bool -> side := fun y => if Bool.eqb x y then d else f y.

(** The packets an event puts into the network. *)
Definition emitted (x : answer) : list reply_t :=
  match x with
  | Emitted (Some p, Ok _) => [p]
  | Replied (Some p) => [p]
  | _ => []
  end.

(** An event at the side [x]. *)
Definition world_step (w : world) (x : bool) (c : Iface.Context) (ev : event) : outcome world :=
  let d := side_of w x in
  '(s', ans) ← step c ev (sock d);
  let sides := put x (mkSide s' (written d ++ accepted ev ans) (read d ++ delivered ans)) (side_of w) in
  Ret (mkWorld sides
         (net w ++ map (fun p => mkPacket x p (fun y => length (written (sides y)))) (emitted ans))).

(** A packet that is not too old. *)
Definition fresh (w : world) (pk : packet) : Prop :=
  forall y, Z.of_nat (length (written (side_of w y))) - Z.of_nat (stamp pk y) <= 2 ^ 30.

(** What may happen at the side [x]: everything but opening the socket again,
    keep-alive packets, a close while the connection is being accepted and a
    reset that sends the socket back to LISTEN.  Segments come from the network. *)
Definition allowed (w : world) (x : bool) (ev : event) : Prop :=
  match ev with
  | EvListen _ | EvConnect _ _ | EvKeepAlive (Some _) => False
  | EvHopLimit h => h <> Some 0
  | EvClose => state (sock (side_of w x)) <> SynReceived
  | EvSegment ip repr =>
      repr_ok repr /\ (Tcp.control repr = Tcp.Rst -> state (sock (side_of w x)) <> SynReceived) /\
      exists pk, In pk (net w) /\ from pk = negb x /\ segment pk = (ip, repr) /\ fresh w pk
  | _ => True
  end.

Inductive reach (w0 : world) : world -> Prop :=
| reach_start : reach w0 w0
| reach_step w x c ev w' : reach w0 w -> allowed w x ev -> world_step w x c ev = Ret w' -> reach w0 w'.

(** A new socket that was opened: it listens or connects. *)
Definition starts (s : Socket) : Prop :=
  exists max_segments rx tx s0 c ev,
    (0 < max_segments)%nat /\ Z.of_nat (length rx) < 2 ^ 30 /\ Z.of_nat (length tx) < 2 ^ 30 /\
    new max_segments (RingBuffer.new rx) (RingBuffer.new tx) = Ret s0 /\
    opens_again ev = true /\ step c ev s0 = Ret (s, Opened (Ok tt)).

Definition start_world (a b : Socket) : world :=
  mkWorld (fun x => if x then mkSide a [] [] else mkSide b [] []) [].

(** ** The invariant *)

Definition wpos (d : side) : Z := window_pos (length (read d)) (sock d).
Definition edge (d : side) : Z := edge_pos (length (read d)) (sock d).
Definition st (d : side) : State := state (sock d).
Definition shift_of (d : side) : Z := win_shift (rx_buffer (sock d)).

(** The states in which our stream is not yet finished. *)
Definition going (s : State) : bool := match s with FinWait2 | TimeWait | Closed => false | _ => true end.

(** What holds of one side alone. *)
Record local_ok (d : side) : Prop := mkLocalOk {
  lo_ok : ok (sock d);
  lo_mute : mute (sock d);
  lo_cap : Z.of_nat (RingBuffer.capacity (tx_buffer (sock d))) < 2 ^ 30;
  lo_shift : remote_win_shift (sock d) = shift_of d
}.

(** The stream from [x] to [y]: [b] is where it starts and [a] what [x] knows to
    have arrived. *)
Record flow (b : SeqNumber.t) (a : Z) (x y : side) : Prop := mkFlow {
  fw_sending : sending (written x) b a (sock x);
  fw_receiving : receiving (written x) b (length (read y)) (sock y);
  fw_read : read y = take (length (read y)) (written x);
  fw_window : sends_data (st x) = true -> a + remote_win_len (sock x) <= edge y;
  fw_acked : live (st y) = true -> sends_data (st x) = true -> a <= wpos y;
  fw_pending : pending (st y) = true -> sends_data (st x) = false;
  fw_listen : live (st y) = true -> st x <> Listen;
  fw_scale : live (st x) = true -> remote_win_scale (sock x) = Some (shift_of y);
  fw_fin : rx_fin_received (sock y) = true -> ended (st x) = true
}.

(** The window a segment of [x] announces. *)
Definition window_of (x : side) (r : Tcp.Repr) : Z :=
  match Tcp.control r with Tcp.Syn => Tcp.window_len r | _ => Z.shiftl (Tcp.window_len r) (shift_of x) end.

(** A packet on its way from [x] to [y], whose streams start at [bx] and [by_]. *)
Record travels (bx by_ : SeqNumber.t) (x y : side) (sx sy : nat) (r : Tcp.Repr) : Prop := mkTravels {
  tr_syn : Tcp.control r = Tcp.Syn ->
    Tcp.seq_number r = seq_at bx (-1) /\ st x <> Listen /\ Tcp.window_scale r = Some (shift_of x);
  tr_data : Tcp.payload r <> [] \/ Tcp.control r = Tcp.Fin -> exists pos : nat,
    Tcp.seq_number r = seq_at bx (Z.of_nat pos) /\ st x <> Listen /\ pending (st y) = false /\
    Tcp.payload r = take (length (Tcp.payload r)) (drop pos (written x)) /\
    (pos + length (Tcp.payload r) <= length (written x))%nat /\
    (Tcp.control r = Tcp.Fin -> (pos + length (Tcp.payload r) = length (written x))%nat /\ ended (st x) = true) /\
    (Tcp.payload r <> [] -> Z.of_nat pos + Tcp.payload_len r <= edge y) /\
    Z.of_nat sx - 2 ^ 30 < Z.of_nat pos /\ (live (st y) = true -> Z.of_nat pos <= wpos y + 2 ^ 30);
  tr_ack : forall k, Tcp.ack_number r = Some k -> Tcp.control r <> Tcp.Rst -> exists apos,
    k = seq_at by_ apos /\ 0 <= apos /\ st y <> Listen /\ pending (st x) = false /\
    (live (st x) = true -> apos <= wpos x) /\ apos <= Z.of_nat (length (written y)) + 1 /\
    (going (st y) = true -> Z.of_nat sy - 2 ^ 30 <= apos) /\
    (apos + window_of x r <= edge x \/ (apos = Z.of_nat (length (written y)) + 1 /\ ended (st y) = true))
}.

Record good (b : bool -> SeqNumber.t) (a : bool -> Z) (w : world) : Prop := mkGood {
  gd_local : forall x, local_ok (side_of w x);
  gd_flow : forall x, flow (b x) (a x) (side_of w x) (side_of w (negb x));
  gd_net : forall pk, In pk (net w) ->
    let x := from pk in
    travels (b x) (b (negb x)) (side_of w x) (side_of w (negb x)) (stamp pk x) (stamp pk (negb x)) (snd (segment pk))
}.

End TcpWorld.
