(* ===== verification/TcpChange.v ===== *)
(** * The kinds of change an event makes to a socket

    [change] sums up [TcpRun.effect]: an event writes, reads, opens the
    connection, continues it with a segment, resets the socket or leaves both
    streams as they were.  [origin] says where a packet comes from. *)

From S2P Require Import Prelude TcpWire Assembler AssemblerLaws RingBuffer RingBufferLaws TcpState TcpSocket TcpProcess TcpDispatch TcpLogic TcpInv TcpSegment TcpSend TcpRun TcpStream TcpOut TcpWorld.
Import TcpState TcpSocket TcpProcess TcpDispatch TcpLogic TcpInv TcpSegment TcpSend TcpRun TcpStream TcpOut TcpWorld.

Local Open Scope Z_scope.

Module TcpChange.

(** ** Changes *)

Record same_views (s s' : Socket) : Prop := mkSame {
  sv_rx : rx_view s' = rx_view s;
  sv_tx : tx_view s' = tx_view s;
  sv_win : remote_win_len s' = remote_win_len s;
  sv_scale : remote_win_scale s' = remote_win_scale s;
  sv_shift : remote_win_shift s' = remote_win_shift s;
  sv_quieter : quieter (state s) (state s');
  sv_calmer : calmer (state s) (state s')
}.

Inductive change (o : option Tcp.Repr) (s s' : Socket) : list Z -> list Z -> Prop :=
| ch_same : same_views s s' -> change o s s' [] []
| ch_reset s1 w w' :
    same_views s s1 -> s' = set_tx_waker w' (set_rx_waker w (reset_fields s1)) -> change o s s' [] []
| ch_wrote data n : wrote s data s' (Ok n) -> change o s s' (take n data) []
| ch_gave n out : gave s n s' (Ok out) -> change o s s' [] out
| ch_opening repr : o = Some repr -> opening repr s s' -> change o s s' [] []
| ch_continued repr a p off k : o = Some repr -> continued repr s s' a p off k -> change o s s' [] [].

Lemma same_core s s' : core s' = core s -> same_views s s'.
Proof. intros H. use_core H. split; try done; unfold rx_view, tx_view; try congruence; by left. Qed.

(** [same_views] from the fields of a socket that has another state. *)
Lemma same_state s s' q st' :
  core s' = core q -> q = set_state st' s -> quieter (state s) st' -> calmer (state s) st' -> same_views s s'.
Proof.
  intros H -> Hq Hc. use_core H. split; unfold rx_view, tx_view; try congruence.
Qed.

Lemma same_views_trans s s1 s' : same_views s s1 -> core s' = core s1 -> same_views s s'.
Proof.
  intros [] H. use_core H. unfold rx_view, tx_view in *. split; unfold rx_view, tx_view; try congruence.
Qed.

Lemma timed_same_views now s s1 : timed now (stamped now s) s1 -> same_views s s1.
Proof.
  intros Ht. destruct (stamped_core now s) as [Hc _].
  assert (H1 : same_views (stamped now s) s1) by (destruct Ht as [->|w w' _ ->|d q _ ->]; split; try done; first [by left|by right]).
  use_core Hc. destruct H1. unfold rx_view, tx_view in *. split; unfold rx_view, tx_view; try congruence.
Qed.

Lemma sent_on_same_views s n s' : core s' = core (sent_on s n) -> same_views s s'.
Proof.
  intros Hc. destruct (sent_on_fields s n) as (F1 & F2 & F3 & F4 & F5 & F6 & F7 & F8 & F9 & F10 & _ & F12 & _).
  generalize dependent (sent_on s n). intros q Hc F1 F2 F3 F4 F5 F6 F7 F8 F9 F10 F12. use_core Hc.
  split; unfold rx_view, tx_view; try congruence; left; congruence.
Qed.

Lemma same_same s s1 s' : same_views s s1 -> same_views s1 s' -> state s' = state s1 -> same_views s s'.
Proof. intros [] [] H. rewrite H in *. split; congruence. Qed.

(** ** What an event changes *)

Definition segment_of (ev : event) : option Tcp.Repr := match ev with EvSegment _ repr => Some repr | _ => None end.

(** No close and no reset while the connection is being accepted. *)
Definition steady (s : Socket) (ev : event) : Prop :=
  match ev with
  | EvClose => state s <> SynReceived
  | EvSegment _ repr => Tcp.control repr = Tcp.Rst -> state s <> SynReceived
  | _ => True
  end.

Lemma change_arrived ip repr s s' r :
  ok s -> (Tcp.control repr = Tcp.Rst -> state s <> SynReceived) -> arrived ip repr s s' r ->
  change (Some repr) s s' [] [].
Proof.
  intros Hok Hst [q _ Hc|Hrst Hc|q Ht].
  - by apply ch_same, same_core.
  - apply ch_same. apply (same_views_trans _ (set_tuple None (set_state Closed s))).
    + split; try done; apply quieter_closed || by right.
    + specialize (Hst Hrst). rewrite Hc. by destruct (state s).
  - destruct (took_cases _ _ _ _ _ Hok Ht) as [[Hop _]|(a & p & off & k & Hct & _)].
    + by eapply ch_opening.
    + by eapply ch_continued.
Qed.

Lemma change_dispatched {E} o now s s' (x : TcpDispatch.sent (E := E)) :
  dispatched now s s' x -> change o s s' [] [].
Proof.
  intros [_ ->|s1 Ht ->|s1 w w' Ht _ ->|s1 p e Ht _ ->|s1 p Ht _ Hc|s1 p Ht _ _ Hc];
    try (apply timed_same_views in Ht); try (by apply ch_same).
  - by apply ch_same, same_core.
  - by eapply ch_reset.
  - by eapply ch_same, same_views_trans.
  - eapply ch_same, same_same; [done|by eapply sent_on_same_views|].
    rewrite (core_state _ _ Hc). apply sent_on_fields.
Qed.

Lemma step_change c ev s s' x :
  ok s -> opens_again ev = false -> steady s ev -> effect c ev s s' x ->
  change (segment_of ev) s s' (accepted ev x) (delivered x).
Proof.
  intros Hok Ho Hst He.
  assert (Hsame : core s' = core s /\ silent x -> forall o, change o s s' [] (delivered x)).
  { intros [Hc Hx] o. destruct x; try done; by apply ch_same, same_core. }
  destruct ev; cbn [effect opens_again segment_of steady accepted] in *; try done; try (by apply Hsame).
  - destruct He as [Hc ->]. apply ch_same. eapply same_state; [exact Hc|done|..];
      destruct (state s); first [done|by left|by right].
  - destruct He as [Hc ->]. apply ch_same. eapply same_state; [exact Hc|done|..]; by right.
  - destruct He as (q & -> & Hw). destruct q as [n|e].
    + by apply ch_wrote.
    + inversion Hw; subst. by apply ch_same, same_core.
  - destruct He as (q & -> & Hg). destruct q as [out|e].
    + by eapply ch_gave.
    + inversion Hg; subst. by apply ch_same, same_core.
  - destruct He as [Hc ->]. apply ch_same. use_core Hc.
    split; unfold rx_view, tx_view; try congruence; left; congruence.
  - destruct He as [[Hc ->]|(q & -> & Hacc & Ha)].
    + by apply ch_same, same_core.
    + by eapply change_arrived.
  - destruct He as (q & -> & Hd). by eapply change_dispatched.
Qed.

(** ** Where packets come from *)

Inductive origin (s s' : Socket) (r : Tcp.Repr) : Prop :=
| or_rst : Tcp.control r = Tcp.Rst -> Tcp.payload r = [] -> origin s s' r
| or_ack p : r = snd p -> is_ack s' p -> live (state s') = true -> origin s s' r
| or_sent s1 :
    ok s1 -> same_views s s1 -> same_views s1 s' -> state s' = state s1 ->
    outgoing s1 r -> (sent_syn (state s1) = true -> in_flight s1 = 0) -> origin s s' r.

Lemma is_ack_core s s' p : core s' = core s -> is_ack s p -> is_ack s' p.
Proof.
  intros H [H1 H2 H3 H4 H5]. use_core H. unfold rx_len, scaled_window in *.
  split; try done; unfold rx_len, scaled_window; repeat match goal with H : _ s' = _ s |- _ => rewrite H; clear H end; done.
Qed.

Lemma origin_arrived D base n ip repr s s' r p :
  ok s -> receiving D base n s -> carries D base (window_pos n s) (edge_pos n s) repr ->
  arrived ip repr s s' r -> r = Some p -> origin s s' (snd p).
Proof.
  intros Hok Hrc Hca [q Hf Hc|Hrst Hc|q Ht] Hr; [..|done|].
  - rewrite Hr in Hf. destruct Hf as [[Ha Hl]|[H1 H2]]; [|by apply or_rst].
    apply (or_ack _ _ _ p); [done|by eapply is_ack_core|by rewrite (core_state _ _ Hc)].
  - destruct (took_cases _ _ _ _ _ Hok Ht) as [[_ Hn]|(a & l & off & k & Hct & Hrep)]; [congruence|].
    destruct (Hrep p Hr) as [Hne Ha]. apply (or_ack _ _ _ p); [done|done|].
    pose proof (ct_control _ _ _ _ _ _ _ Hct) as Hc. pose proof (ct_taken _ _ _ _ _ _ _ Hct) as Htk.
    destruct (next_live _ _ _ _ (ct_state _ _ _ _ _ _ _ Hct) Hc) as (Hlive & _ & _ & _ & _ & Hdead).
    destruct (live (state s')) eqn:Hl; [done|].
    destruct (taken_stream D base n s repr Hrc Hlive Hca _ _ Htk Hne) as (Hnf & _).
    rewrite (rc_closed _ _ _ _ Hrc (Hdead eq_refl) Hlive) in Hnf. done.
Qed.

Lemma step_origin D base n c ev s s' x p :
  ok s -> mute s -> receiving D base n s -> segment_carries D base n s ev -> effect c ev s s' x ->
  In p (emitted x) -> origin s s' (snd p).
Proof.
  intros Hok Hm Hrc Hca He Hin.
  assert (Hx : (exists q, x = Replied (Some q) /\ q = p) \/ (exists u, x = Emitted (Some p, Ok u))).
  { destruct x as [| | | | |[q|]|[[q|] [u|e]]|]; try done; destruct Hin as [<-|[]]; [left; by exists q|right; by exists u]. }
  destruct ev; cbn [effect segment_carries] in *;
    try (by destruct He as (q & -> & _), Hx as [(? & ? & _)|(? & ?)]);
    try (by destruct He as [_ Hsil], Hx as [(? & -> & _)|(? & ->)]).
  - destruct He as [[_ ->]|(q & -> & Hacc & Ha)]; [by destruct Hx as [(? & ? & _)|(? & ?)]|].
    destruct Hx as [(q' & [= ->] & ->)|(? & ?)]; [|done]. destruct (Hca Hacc) as [Hc _].
    by eapply (origin_arrived D base n).
  - destruct He as (q & -> & Hd). destruct Hx as [(? & ? & _)|(u & [= ->])]; [done|]. destruct u.
    destruct (dispatched_outgoing _ _ _ _ Hok Hm Hd) as (s1 & Ht & Hok1 & Ho & Hsyn & Hc).
    apply (or_sent _ _ _ s1); try done; [by eapply timed_same_views|by eapply sent_on_same_views|].
    rewrite (core_state _ _ Hc). apply sent_on_fields.
Qed.

End TcpChange.
