(* ===== verification/TcpWorldInv.v ===== *)
(** * The invariant of two connected TCP sockets

    Every event keeps [TcpWorld.good]: the side it happens at only grows, its
    streams stay streams, and the packets it sends belong to them. *)

From S2P Require Import Prelude TcpWire Assembler AssemblerLaws RingBuffer RingBufferLaws TcpState TcpSocket TcpProcess TcpDispatch TcpLogic TcpInv TcpSegment TcpSend TcpRun TcpStream TcpOut TcpWorld TcpChange.
Import TcpState TcpSocket TcpProcess TcpDispatch TcpLogic TcpInv TcpSegment TcpSend TcpRun TcpStream TcpOut TcpWorld TcpChange.

Local Open Scope Z_scope.

Module TcpWorldInv.

(** ** A side only grows *)

Record grows (d d' : side) : Prop := mkGrows {
  gr_written : exists l, written d' = written d ++ l /\ (ended (st d) = true -> l = []);
  gr_ended : ended (st d) = true -> ended (st d') = true;
  gr_listen : st d <> Listen -> st d' <> Listen;
  gr_pending : pending (st d') = true -> pending (st d) = true;
  gr_live : live (st d') = true -> live (st d) = true \/ pending (st d) = true;
  gr_going : going (st d') = true -> going (st d) = true;
  gr_wpos : live (st d) = true -> live (st d') = true -> wpos d <= wpos d';
  gr_edge : edge d <= edge d';
  gr_shift : shift_of d' = shift_of d
}.

Lemma grows_refl d : grows d d.
Proof. split; try done; [exists []; by rewrite app_nil_r|auto]. Qed.

(** A packet stays a packet of the streams. *)
Lemma travels_grow bx by_ x y x' y' sx sy r :
  grows x x' -> grows y y' -> travels bx by_ x y sx sy r -> travels bx by_ x' y' sx sy r.
Proof.
  intros Hx Hy Ht. destruct (gr_written _ _ Hx) as (lx & Hwx & Hex). destruct (gr_written _ _ Hy) as (ly & Hwy & Hey).
  split.
  - intros Hs. destruct (tr_syn _ _ _ _ _ _ _ Ht Hs) as (H1 & H2 & H3).
    split; [done|]. split; [by apply Hx|]. by rewrite (gr_shift _ _ Hx).
  - intros Hd. destruct (tr_data _ _ _ _ _ _ _ Ht Hd) as (pos & H1 & H2 & H3 & H4 & H5 & H6 & H7 & H8 & H9). exists pos.
    split; [done|]. split; [by apply Hx|].
    split; [destruct (pending (st y')) eqn:Hp; [apply (gr_pending _ _ Hy) in Hp; congruence|done]|].
    rewrite Hwx. split; [rewrite drop_app_le, take_app_le by (rewrite ?length_drop; lia); done|].
    split; [rewrite length_app; lia|]. split; [|split; [|split; [done|]]].
    + intros Hf. destruct (H6 Hf) as [H61 H62]. rewrite (Hex H62), app_nil_r. split; [done|by apply Hx].
    + intros Hp. specialize (H7 Hp). pose proof (gr_edge _ _ Hy). lia.
    + intros Hl. destruct (gr_live _ _ Hy Hl) as [Hl0|Hp]; [|congruence].
      specialize (H9 Hl0). pose proof (gr_wpos _ _ Hy Hl0 Hl). lia.
  - intros k Hk Hr. destruct (tr_ack _ _ _ _ _ _ _ Ht k Hk Hr) as (apos & H1 & H2 & H3 & H4 & H5 & H6 & H7 & H8). exists apos.
    split; [done|]. split; [done|]. split; [by apply Hy|].
    split; [destruct (pending (st x')) eqn:Hp; [apply (gr_pending _ _ Hx) in Hp; congruence|done]|].
    split; [|split; [|split]].
    + intros Hl. destruct (gr_live _ _ Hx Hl) as [Hl0|Hp]; [|congruence].
      specialize (H5 Hl0). pose proof (gr_wpos _ _ Hx Hl0 Hl). lia.
    + rewrite Hwy, length_app. lia.
    + intros Hg. apply H7. by apply (gr_going _ _ Hy).
    + pose proof (gr_edge _ _ Hx). unfold window_of in *. rewrite (gr_shift _ _ Hx).
      destruct H8 as [H8|[H81 H82]]; [left; lia|right]. rewrite Hwy, (Hey H82), app_nil_r. split; [done|by apply Hy].
Qed.

(** The start of the stream of a side that still listens does not matter yet. *)
Lemma travels_base bx bx' by_ x y sx sy r : st x = Listen -> travels bx by_ x y sx sy r -> travels bx' by_ x y sx sy r.
Proof.
  intros Hl Ht. split.
  - intros Hs. by destruct (tr_syn _ _ _ _ _ _ _ Ht Hs) as (_ & ? & _).
  - intros Hd. by destruct (tr_data _ _ _ _ _ _ _ Ht Hd) as (_ & _ & ? & _).
  - apply (tr_ack _ _ _ _ _ _ _ Ht).
Qed.
Lemma travels_base' bx by_ by' x y sx sy r : st y = Listen -> travels bx by_ x y sx sy r -> travels bx by' x y sx sy r.
Proof.
  intros Hl Ht. split; [apply (tr_syn _ _ _ _ _ _ _ Ht)|apply (tr_data _ _ _ _ _ _ _ Ht)|].
  intros k Hk Hr. by destruct (tr_ack _ _ _ _ _ _ _ Ht k Hk Hr) as (_ & _ & _ & ? & _).
Qed.

(** The side after an event. *)
Definition after (d : side) (s' : Socket) (wr rd : list Z) : side := mkSide s' (written d ++ wr) (read d ++ rd).

(** The state of a socket that goes on. *)
Lemma calmer_going s s' : calmer s s' -> going s' = true -> going s = true.
Proof. intros [->|[H1 H2]]; [done|]. destruct s', s; try done; by specialize (H2 eq_refl). Qed.

Lemma grows_same d s' rd :
  quieter (st d) (state s') -> calmer (st d) (state s') ->
  RingBuffer.capacity (rx_buffer s') = RingBuffer.capacity (rx_buffer (sock d)) ->
  (live (st d) = true -> live (state s') = true -> wpos d <= wpos (after d s' [] rd)) ->
  grows d (after d s' [] rd).
Proof.
  intros Hq Hc Hcap Hw. split; unfold after, st, edge, edge_pos, shift_of, win_shift in *; cbn [sock written read] in *;
    rewrite ?Hcap; try done.
  - by exists [].
  - intros He. by apply (calmer_ended (state (sock d))).
  - destruct Hc as [->|[He _]]; [done|]. intros _ Hl. by rewrite Hl in He.
  - destruct Hq as [->|[-> _]]; done.
  - destruct Hq as [->|(_ & H & _)]; auto.
  - by apply calmer_going.
  - rewrite length_app. lia.
Qed.

(** The window of a socket whose receiving half is the same. *)
Lemma wpos_view d s' rd :
  rx_view s' = rx_view (sock d) -> wpos d <= wpos (after d s' [] rd) /\
  RingBuffer.capacity (rx_buffer s') = RingBuffer.capacity (rx_buffer (sock d)).
Proof.
  unfold rx_view. intros [= Ha Hr Hf Hn]. unfold wpos, window_pos, len_rx, after. cbn [sock read].
  rewrite Hr, Hf, length_app. split; [lia|done].
Qed.

Lemma grows_continued d s' repr a p off k :
  ok (sock d) -> continued repr (sock d) s' a p off k -> grows d (after d s' [] []).
Proof.
  intros Hok Hct. pose proof (ct_control _ _ _ _ _ _ _ Hct) as Hc. pose proof (ct_state _ _ _ _ _ _ _ Hct) as Hn.
  destruct (next_live _ _ _ _ Hn Hc) as (Hlive & Hpend & _). destruct (next_sends _ _ _ _ Hn Hc) as (_ & He & Hnl & _).
  assert (Hrx : (len_rx (sock d) <= len_rx s')%nat /\
    RingBuffer.capacity (rx_buffer s') = RingBuffer.capacity (rx_buffer (sock d))).
  { unfold len_rx. destruct (ct_placed _ _ _ _ _ _ _ Hct) as [(_ & -> & _)|(_ & n & Hpl)]; [done|].
    pose proof (pl_n _ _ _ _ _ _ _ Hpl). pose proof (pl_len _ _ _ _ _ _ _ Hpl). split; [lia|by apply Hpl]. }
  destruct Hrx as [Hlen Hcap].
  split; unfold after, st, edge, edge_pos, shift_of, win_shift, wpos, window_pos; cbn [sock written read];
    rewrite ?Hcap, ?length_app, ?app_nil_r; try done.
  - exists []. by rewrite app_nil_r.
  - by rewrite Hpend.
  - auto.
  - intros Hg. destruct Hc as [Hc|Hc]; rewrite Hc in Hn; destruct (state (sock d)); try done;
      injection Hn as Hn; by rewrite <-Hn in Hg.
  - intros _ _. rewrite (ct_fin _ _ _ _ _ _ _ Hct). cbn [length].
    case_bool_decide; destruct (rx_fin_received (sock d)); cbn [Z.b2z]; lia.
  - cbn [length]. lia.
Qed.

Lemma change_grows o d s' wr rd :
  ok (sock d) -> change o (sock d) s' wr rd -> grows d (after d s' wr rd).
Proof.
  intros Hok [Hs|s1 w w' Hs ->|data n Hw|n out Hg|repr _ Hop|repr a p off k _ Hct].
  - destruct (wpos_view d s' [] (sv_rx _ _ Hs)) as [Hw Hc]. apply grows_same; try done; apply Hs.
  - pose proof (sv_rx _ _ Hs) as Hv. unfold rx_view in Hv. injection Hv as _ Hr _ _.
    apply grows_same; [apply quieter_closed|by right|unfold reset_fields; fields; by rewrite Hr|done].
  - inversion Hw as [|n' b Hm Hcon Hwf Hcap Hn Hc]; subst. destruct (core_rx_view _ _ Hc) as [Hv Hst].
    change (state (set_tx_buffer b (sock d))) with (st d) in Hst. destruct (wpos_view d s' [] Hv) as [Hwp Hcp].
    split; unfold after, st, edge, edge_pos, shift_of, win_shift in *; cbn [sock written read] in *; rewrite ?Hst, ?Hcp; try done; auto.
    + eexists. split; [done|]. intros He. unfold may_send in Hm. by destruct (state (sock d)).
    + rewrite app_nil_r. lia.
  - inversion Hg as [|b out' Hu Hwf Hcap Hcon Hroom Hc]; subst. use_core Hc.
    assert (Hst : state s' = st d) by (unfold st; congruence).
    apply grows_same; [by left|by left|congruence|]. intros _ _. unfold wpos, window_pos, len_rx, after. cbn [sock read].
    pose proof (RingBufferLaws.length_contents b Hwf) as Hlb. pose proof (RingBufferLaws.length_contents _ (ok_rx _ Hok)) as Hls.
    rewrite Hcon, length_drop, Hls in Hlb. replace (rx_buffer s') with b by congruence.
    replace (rx_fin_received s') with (rx_fin_received (sock d)) by congruence.
    rewrite length_app. unfold out'. rewrite length_take, Hls. lia.
  - pose proof (op_rx _ _ _ Hop) as Hr.
    split; unfold after, st, edge, edge_pos, shift_of, win_shift; cbn [sock written read]; rewrite ?Hr, ?app_nil_r; try done;
      try (exists []; by rewrite app_nil_r);
      destruct (op_state _ _ _ Hop) as [[Hs Hs']|[Hs Hs']]; rewrite ?Hs, ?Hs'; done || auto.
  - by eapply grows_continued.
Qed.

(** ** The stream a side receives *)

Lemma flow_receiver b a y x s' wr rd :
  flow b a y x -> grows x (after x s' wr rd) ->
  receiving (written y) b (length (read x) + length rd) s' -> rd = take (length rd) (drop (length (read x)) (written y)) ->
  (pending (st x) = true -> live (state s') = true -> st y <> Listen) ->
  (rx_fin_received s' = true -> rx_fin_received (sock x) = true \/ ended (st y) = true) ->
  flow b a y (after x s' wr rd).
Proof.
  intros Hf Hg Hrc Hrd Hopen Hfin. pose proof (gr_edge _ _ Hg) as Hedge.
  split; try apply Hf.
  - unfold after. cbn [read sock]. by rewrite length_app.
  - unfold after. cbn [read]. rewrite length_app, RingBufferLaws.take_split.
    + by rewrite <-Hrd, <-(fw_read _ _ _ _ Hf).
    + pose proof (rc_len _ _ _ _ (fw_receiving _ _ _ _ Hf)). lia.
  - intros Hs. pose proof (fw_window _ _ _ _ Hf Hs). lia.
  - intros Hl Hs. destruct (gr_live _ _ Hg Hl) as [Hl0|Hp].
    + pose proof (fw_acked _ _ _ _ Hf Hl0 Hs). pose proof (gr_wpos _ _ Hg Hl0 Hl). lia.
    + rewrite (fw_pending _ _ _ _ Hf Hp) in Hs. done.
  - intros Hp. by apply (fw_pending _ _ _ _ Hf), (gr_pending _ _ Hg).
  - intros Hl. destruct (gr_live _ _ Hg Hl) as [Hl0|Hp]; [by apply (fw_listen _ _ _ _ Hf)|by apply Hopen].
  - intros Hl. rewrite (gr_shift _ _ Hg). by apply (fw_scale _ _ _ _ Hf).
  - intros Hx. destruct (Hfin Hx) as [Hx0|He]; [by apply (fw_fin _ _ _ _ Hf)|done].
Qed.

(** ** The stream a side sends *)

Lemma receiving_mono D l b r s :
  receiving D b r s -> (rx_fin_received s = true -> l = []) -> receiving (D ++ l) b r s.
Proof.
  intros Hrc Hl. pose proof (rc_len _ _ _ _ Hrc) as Hle.
  split; try apply Hrc.
  - rewrite (rc_contents _ _ _ _ Hrc). rewrite drop_app_le, take_app_le by (rewrite ?length_drop; lia). done.
  - rewrite length_app. lia.
  - intros Hf. rewrite (Hl Hf), app_nil_r. by apply (rc_fin _ _ _ _ Hrc).
  - intros Hlv k Hk. destruct (rc_room _ _ _ _ Hrc Hlv k Hk) as [H1 H2].
    rewrite length_app, lookup_app_l by lia. split; [lia|done].
Qed.

Lemma receiving_base D b b' r s : live (state s) = false -> receiving D b r s -> receiving D b' r s.
Proof. intros Hl []. split; try done; by rewrite Hl. Qed.

(** The flow of a side whose sending half is the same. *)
Lemma flow_same b a x y s' :
  flow b a x y -> (st x <> Listen -> state s' <> Listen) -> (ended (st x) = true -> ended (state s') = true) ->
  sending (written x) b a s' -> (sends_data (state s') = true -> sends_data (st x) = true) ->
  (live (state s') = true -> live (st x) = true /\ remote_win_scale s' = remote_win_scale (sock x)) ->
  (sends_data (state s') = true -> remote_win_len s' = remote_win_len (sock x)) ->
  forall rd, flow b a (after x s' [] rd) y.
Proof.
  intros Hf Hli He Hsn Hsd Hlv Hwin rd. unfold after in *.
  split; unfold st in *; cbn [sock written read] in *; rewrite ?app_nil_r; try done; try apply Hf.
  - intros Hs. rewrite (Hwin Hs). apply (fw_window _ _ _ _ Hf). auto.
  - intros Hl Hs. apply (fw_acked _ _ _ _ Hf); unfold st; auto.
  - intros Hp. destruct (sends_data (state s')) eqn:Hs; [|done].
    pose proof (fw_pending _ _ _ _ Hf Hp) as Hn. unfold st in Hn. by rewrite Hsd in Hn.
  - intros Hl. apply Hli. by apply (fw_listen _ _ _ _ Hf).
  - intros Hl. destruct (Hlv Hl) as [Hl0 ->]. by apply (fw_scale _ _ _ _ Hf).
  - intros Hx. apply He. by apply (fw_fin _ _ _ _ Hf).
Qed.

Lemma flow_wrote b a x y data n s' :
  flow b a x y -> wrote (sock x) data s' (Ok n) -> flow b a (after x s' (take n data) []) y.
Proof.
  intros Hf Hw. destruct (sending_wrote _ _ _ _ _ _ _ (fw_sending _ _ _ _ Hf) Hw) as [Hsn Hne].
  assert (Hnofin : rx_fin_received (sock y) = true -> False) by (intros Hx; exact (Hne (fw_fin _ _ _ _ Hf Hx))).
  inversion Hw as [|n' q Hm Hcon Hwf Hcap Hn Hc]; subst. use_core Hc.
  assert (Hst : state s' = state (sock x)) by congruence.
  split; unfold after, st in *; cbn [sock written read] in *; rewrite ?Hst; try done; try apply Hf.
  - apply receiving_mono; [apply Hf|]. intros Hx. by destruct (Hnofin Hx).
  - pose proof (rc_len _ _ _ _ (fw_receiving _ _ _ _ Hf)). rewrite take_app_le by lia. apply (fw_read _ _ _ _ Hf).
  - replace (remote_win_len s') with (remote_win_len (sock x)) by congruence. apply (fw_window _ _ _ _ Hf).
  - replace (remote_win_scale s') with (remote_win_scale (sock x)) by congruence. apply (fw_scale _ _ _ _ Hf).
Qed.

Lemma wpos_pos d : 0 <= wpos d.
Proof. unfold wpos, window_pos. destruct (rx_fin_received (sock d)); cbn [Z.b2z]; lia. Qed.

(** A SYN of [y] opens the connection at [x]. *)
Lemma flow_opening b by_ a x y s' sx sy repr :
  ok s' -> flow b a x y -> travels by_ b y x sy sx repr -> opening repr (sock x) s' ->
  exists b' a', flow b' a' (after x s' [] []) y /\ (st x <> Listen -> b' = b).
Proof.
  intros Hok Hf Ht Hop. pose proof (sending_opening _ _ _ _ _ _ Hok (fw_sending _ _ _ _ Hf) Hop) as Hsn.
  destruct (tr_syn _ _ _ _ _ _ _ Ht (op_syn _ _ _ Hop)) as (_ & Hnl & Hsc).
  assert (Hnofin : ended (st x) = false -> rx_fin_received (sock y) = true -> False).
  { intros He Hx. rewrite (fw_fin _ _ _ _ Hf Hx) in He. done. }
  destruct (op_state _ _ _ Hop) as [[Hs Hs']|[Hs Hs']]; rewrite Hs in Hsn; unfold st in *.
  - exists (seq_at (local_seq_no s') 1), (-1). split; [|done].
    split; unfold after, st in *; cbn [sock written read]; rewrite ?Hs', ?app_nil_r, ?(op_scale _ _ _ Hop); try done; try apply Hf.
    + apply (receiving_base _ b); [|apply Hf]. destruct (live (state (sock y))) eqn:Hl; [|done].
      by destruct (fw_listen _ _ _ _ Hf Hl).
    + intros Hx. destruct (Hnofin ltac:(by rewrite Hs) Hx).
  - exists b, 0. split; [|done]. destruct (op_local _ _ _ Hop Hs) as [Hak _].
    destruct (tr_ack _ _ _ _ _ _ _ Ht _ Hak) as (apos & Hk & H0 & _ & Hp & _ & Hle & _ & Hw); [by rewrite (op_syn _ _ _ Hop)|].
    destruct (sn_syn _ _ _ _ (fw_sending _ _ _ _ Hf)) as (HW & _ & Hl); [by rewrite Hs|].
    rewrite HW in Hle, Hw. cbn [length] in Hle, Hw. rewrite Hl, seq_at_at in Hk.
    apply seq_at_inj in Hk; [|lia]. unfold window_of in Hw. rewrite (op_syn _ _ _ Hop) in Hw.
    split; unfold after, st in *; cbn [sock written read]; rewrite ?Hs', ?app_nil_r, ?(op_scale _ _ _ Hop); try done; try apply Hf.
    + intros _. rewrite (op_window _ _ _ Hop). lia.
    + intros _ _. apply wpos_pos.
    + congruence.
    + intros Hx. destruct (Hnofin ltac:(by rewrite Hs) Hx).
Qed.

(** A segment of [y] continues the connection at [x]. *)
Lemma flow_continued b by_ a x y s' sx sy repr ac p off k :
  local_ok x -> flow b a x y -> travels by_ b y x sy sx repr -> continued repr (sock x) s' ac p off k ->
  Z.of_nat (length (written x)) - Z.of_nat sx <= 2 ^ 30 ->
  flow b (a + k) (after x s' [] []) y.
Proof.
  intros Hlo Hf Ht Hct Hfresh. pose proof (lo_ok _ Hlo) as Hok.
  pose proof (ct_control _ _ _ _ _ _ _ Hct) as Hc. pose proof (ct_state _ _ _ _ _ _ _ Hct) as Hn.
  destruct (next_live _ _ _ _ Hn Hc) as (Hlive & _). destruct (next_sends _ _ _ _ Hn Hc) as (Hsd & He & Hnl & _).
  destruct (sending_continued _ _ _ _ _ _ _ _ _ _ Hok (fw_sending _ _ _ _ Hf) Hct) as [Hsn Hack].
  assert (Hctl : Tcp.control repr <> Tcp.Rst /\ Tcp.control repr <> Tcp.Syn).
  { destruct (effective_cases repr (window_start (sock x))) as [Hx|[(? & -> & _)|[(? & _)|(? & _)]]]; [|done|..];
      try (destruct Hc; congruence). unfold effective_control in Hx. destruct (Tcp.control repr); try done; split; done || by intros. }
  assert (Hkey : sends_data (state s') = true -> pending (st y) = false /\ (live (st y) = true -> a + k <= wpos y) /\
    a + k + announced (sock x) repr <= edge y).
  { intros Hs'. destruct (Hack Hs') as [Hak Hk]. destruct (sn_data _ _ _ _ Hsn Hs') as (Ha & _ & _ & Hlen).
    destruct (tr_ack _ _ _ _ _ _ _ Ht _ Hak (proj1 Hctl)) as (apos & Hap & H0 & _ & Hp & Hwp & Hle & Hlow & Hw).
    assert (Hgo : going (st x) = true) by (unfold st; destruct (Hsd Hs') as [->|[Hq _]]; [done|by destruct (state (sock x))]).
    specialize (Hlow Hgo). pose proof (ok_tx_len _ Hok) as Htx.
    assert (Hb : -1 <= a <= Z.of_nat (length (written x)) /\ Z.of_nat (length (written x)) <= a + tx_len (sock x) + 1).
    { destruct (Hsd Hs') as [Hq|[Hq _]].
      - destruct (sn_syn _ _ _ _ (fw_sending _ _ _ _ Hf)) as (-> & -> & _); [by rewrite Hq|]. cbn [length]. lia.
      - destruct (sn_data _ _ _ _ (fw_sending _ _ _ _ Hf) Hq) as (? & _ & _ & ?). lia. }
    apply seq_at_inj in Hap; [|lia]. rewrite Hap in *. split; [done|]. split; [done|].
    assert (Hann : announced (sock x) repr = window_of y repr).
    { unfold announced, window_of. rewrite (fw_scale _ _ _ _ Hf Hlive). by destruct (Tcp.control repr); destruct Hctl. }
    rewrite Hann. pose proof (ok_tx_len _ Hok). unfold tx_len in Hlen. lia. }
  split; unfold after, st in *; cbn [sock written read] in *; rewrite ?app_nil_r; try done; try apply Hf.
  - intros Hs'. rewrite (ct_window _ _ _ _ _ _ _ Hct). by apply Hkey.
  - intros Hl Hs'. by apply Hkey.
  - intros Hp. destruct (sends_data (state s')) eqn:Hs'; [|done]. destruct (Hkey eq_refl) as [Hq _]. congruence.
  - intros _. rewrite (ct_scale _ _ _ _ _ _ _ Hct). by apply (fw_scale _ _ _ _ Hf).
  - intros Hx. by apply He, (fw_fin _ _ _ _ Hf).
Qed.

Lemma flow_views b a x y s' rd :
  ok (sock x) -> flow b a x y -> same_views (sock x) s' -> flow b a (after x s' [] rd) y.
Proof.
  intros Hok Hf Hs. pose proof (change_grows None x s' [] [] Hok (ch_same _ _ _ Hs)) as Hg. destruct Hs.
  apply flow_same; [done|by apply (gr_listen _ _ Hg)|by apply (gr_ended _ _ Hg)|..]; try done.
  - by eapply sending_view; [apply Hf|..].
  - unfold st. destruct sv_calmer0 as [->|[_ H]]; done.
  - unfold st. intros Hl. split; [|done]. destruct sv_quieter0 as [Hq|(_ & H & _)]; [by rewrite <-Hq|auto].
Qed.

Lemma flow_sender o b by_ a x y s' wr rd sx sy :
  local_ok x -> ok s' -> flow b a x y -> change o (sock x) s' wr rd ->
  (forall repr, o = Some repr -> travels by_ b y x sy sx repr /\ Z.of_nat (length (written x)) - Z.of_nat sx <= 2 ^ 30) ->
  exists b' a', flow b' a' (after x s' wr rd) y /\ (st x <> Listen -> b' = b).
Proof.
  intros Hlo Hok' Hf Hch Htr. pose proof (lo_ok _ Hlo) as Hok. pose proof (change_grows _ _ _ _ _ Hok Hch) as Hg.
  destruct Hch as [Hs|s1 w w' Hs ->|data n Hw|n out Hgv|repr Ho Hop|repr ac p off k Ho Hct].
  - exists b, a. split; [by apply flow_views|done].
  - exists b, a. split; [|done]. by apply flow_same; try done; split.
  - exists b, a. split; [by apply flow_wrote|done].
  - exists b, a. split; [|done]. inversion Hgv as [|q out' Hu Hwf Hcap Hcon Hroom Hc]; subst.
    assert (Hv : tx_view s' = tx_view (sock x) /\ state s' = state (sock x) /\ remote_win_len s' = remote_win_len (sock x) /\
      remote_win_scale s' = remote_win_scale (sock x)) by (use_core Hc; unfold tx_view; split_and!; congruence).
    destruct Hv as (Hv & Hst & Hw & Hsc).
    apply flow_same; unfold st; rewrite ?Hst; try done.
    eapply sending_view; [apply Hf|done|by left].
  - destruct (Htr repr Ho) as [Ht _]. by eapply flow_opening.
  - destruct (Htr repr Ho) as [Ht Hfr]. exists b, (a + k). split; [|done]. by eapply flow_continued.
Qed.

(** ** Packets that are sent *)

(** What a side acknowledges and the window it announces. *)
Lemma ack_travels by_ ay x y r :
  local_ok x -> local_ok y -> flow by_ ay y x -> live (st x) = true -> window_of x r <= rx_window (sock x) ->
  exists apos, window_start (sock x) = seq_at by_ apos /\ 0 <= apos /\ st y <> Listen /\ pending (st x) = false /\
    (live (st x) = true -> apos <= wpos x) /\ apos <= Z.of_nat (length (written y)) + 1 /\
    (going (st y) = true -> Z.of_nat (length (written y)) - 2 ^ 30 <= apos) /\
    (apos + window_of x r <= edge x \/ (apos = Z.of_nat (length (written y)) + 1 /\ ended (st y) = true)).
Proof.
  intros Hx Hy Hf Hl Hw. pose proof (fw_receiving _ _ _ _ Hf) as Hrc. exists (wpos x).
  split; [by apply (window_start_pos (written y))|]. split; [apply wpos_pos|].
  split; [by apply (fw_listen _ _ _ _ Hf)|]. split; [by destruct (st x)|]. split; [done|].
  pose proof (rc_len _ _ _ _ Hrc) as Hle. pose proof (wpos_pos x) as Hp.
  destruct (ok_rx_len _ (lo_ok _ Hx)) as (_ & Hcap & _). unfold rx_len in Hcap. fold (len_rx (sock x)) in Hcap.
  assert (Hb : Z.b2z (rx_fin_received (sock x)) <= 1) by (by destruct (rx_fin_received (sock x))).
  split; [unfold wpos, window_pos; lia|]. split.
  - intros Hg. pose proof (fw_sending _ _ _ _ Hf) as Hsn. unfold st in *.
    destruct (sends_data (state (sock y))) eqn:Hsd.
    + pose proof (fw_acked _ _ _ _ Hf Hl Hsd). destruct (sn_data _ _ _ _ Hsn Hsd) as (_ & _ & _ & Hlen).
      pose proof (lo_cap _ Hy). pose proof (RingBufferLaws.wf_len _ (ok_tx _ (lo_ok _ Hy))). unfold tx_len in Hlen. lia.
    + assert (Hnil : written y = []).
      { destruct (sent_syn (state (sock y))) eqn:Hss; [by apply (sn_syn _ _ _ _ Hsn)|].
        apply (sn_listen _ _ _ _ Hsn). by destruct (state (sock y)). }
      rewrite Hnil. cbn [length]. lia.
  - destruct (rx_fin_received (sock x)) eqn:Hfin.
    + right. split; [|by apply (fw_fin _ _ _ _ Hf)]. pose proof (rc_fin _ _ _ _ Hrc Hfin).
      unfold wpos, window_pos. rewrite Hfin. cbn [Z.b2z]. lia.
    + left. unfold wpos, window_pos, edge, edge_pos. rewrite Hfin. cbn [Z.b2z]. lia.
Qed.

(** A window that was scaled down is not larger once it is scaled up. *)
Lemma scaled_window_le x r :
  local_ok x -> Tcp.control r <> Tcp.Syn -> Tcp.window_len r = scaled_window (sock x) -> window_of x r <= rx_window (sock x).
Proof.
  intros Hx Hc Hw. destruct (ok_rx_len _ (lo_ok _ Hx)) as (_ & _ & Hr).
  assert (Hwin : window_of x r = Z.shiftl (Tcp.window_len r) (shift_of x)) by (unfold window_of; by destruct (Tcp.control r)).
  rewrite Hwin, Hw. unfold scaled_window. rewrite (lo_shift _ Hx). fold (rx_window (sock x)).
  assert (Hs : 0 <= shift_of x) by (rewrite <-(lo_shift _ Hx); apply (ok_shift _ (lo_ok _ Hx))).
  rewrite Z.shiftr_div_pow2, Z.shiftl_mul_pow2 by done. assert (0 < 2 ^ shift_of x) by (by apply Z.pow_pos_nonneg).
  pose proof (Z.mul_div_le (rx_window (sock x)) (2 ^ shift_of x) ltac:(done)). nia.
Qed.

(** A segment that is [outgoing] from a socket with the streams of [x]. *)
Section outgoing.
Context (b by_ : SeqNumber.t) (a ay : Z) (x y : side) (s1 : Socket) (r : Tcp.Repr).
Context (Hx : local_ok x) (Hy : local_ok y) (Hf : flow b a x y) (Hf' : flow by_ ay y x).
Context (Hok : ok s1) (Hv : same_views s1 (sock x)) (Hst : state (sock x) = state s1).
Context (Ho : outgoing s1 r) (Hsyn : sent_syn (state s1) = true -> in_flight s1 = 0).

Lemma outgoing_sending : sending (written x) b a s1.
Proof.
  eapply sending_view; [apply Hf|symmetry; apply (sv_tx _ _ Hv)|]. left. congruence.
Qed.

Lemma outgoing_syn :
  Tcp.control r = Tcp.Syn ->
  Tcp.seq_number r = seq_at b (-1) /\ st x <> Listen /\ Tcp.window_scale r = Some (shift_of x).
Proof.
  intros Hc. destruct (outgoing_stream _ _ _ _ _ Hok outgoing_sending Ho Hsyn) as [Hs _].
  split; [auto|]. unfold st. rewrite Hst. split; [apply (og_state _ _ Ho)|]. rewrite (og_scale _ _ Ho Hc), <-(lo_shift _ Hx).
  rewrite (sv_shift _ _ Hv). case_bool_decide as Hss; [done|]. apply (og_syn _ _ Ho) in Hc.
  rewrite <-(sv_scale _ _ Hv), (fw_scale _ _ _ _ Hf); [done|]. unfold st. rewrite Hst. by destruct (state s1).
Qed.

Lemma outgoing_data :
  Tcp.payload r <> [] \/ Tcp.control r = Tcp.Fin -> exists pos : nat,
    Tcp.seq_number r = seq_at b (Z.of_nat pos) /\ st x <> Listen /\ pending (st y) = false /\
    Tcp.payload r = take (length (Tcp.payload r)) (drop pos (written x)) /\
    (pos + length (Tcp.payload r) <= length (written x))%nat /\
    (Tcp.control r = Tcp.Fin -> (pos + length (Tcp.payload r) = length (written x))%nat /\ ended (st x) = true) /\
    (Tcp.payload r <> [] -> Z.of_nat pos + Tcp.payload_len r <= edge y) /\
    Z.of_nat (length (written x)) - 2 ^ 30 < Z.of_nat pos /\
    (live (st y) = true -> Z.of_nat pos <= wpos y + 2 ^ 30).
Proof.
  intros Hd. destruct (outgoing_stream _ _ _ _ _ Hok outgoing_sending Ho Hsyn) as [_ Hs].
  destruct (Hs Hd) as (pos & Hpos & Hsd & H1 & H2 & H3 & H4 & H5). exists pos.
  destruct (sn_data _ _ _ _ outgoing_sending Hsd) as (_ & _ & _ & Hlen). pose proof (ok_in_flight _ Hok) as Hfl.
  assert (Hsx : sends_data (st x) = true) by (unfold st; by rewrite Hst).
  assert (Hcap : tx_len s1 < 2 ^ 30).
  { pose proof (lo_cap _ Hx). pose proof (RingBufferLaws.wf_len _ (ok_tx _ Hok)). pose proof (sv_tx _ _ Hv) as Htx.
    unfold tx_view in Htx. injection Htx as Htx _. rewrite Htx in *. unfold tx_len. lia. }
  split; [done|]. split; [by unfold st; rewrite Hst; apply Ho|].
  split; [destruct (pending (st y)) eqn:Hp; [|done]; by rewrite (fw_pending _ _ _ _ Hf Hp) in Hsx|].
  split; [done|]. split; [done|]. split; [unfold st; by rewrite Hst|]. split; [|split; [lia|]].
  - intros Hp. specialize (H5 Hp). pose proof (fw_window _ _ _ _ Hf Hsx). rewrite (sv_win _ _ Hv) in *. lia.
  - intros Hl. pose proof (fw_acked _ _ _ _ Hf Hl Hsx). lia.
Qed.

Lemma outgoing_acks k :
  Tcp.ack_number r = Some k -> Tcp.control r <> Tcp.Rst ->
  k = window_start (sock x) /\ live (st x) = true /\ window_of x r <= rx_window (sock x).
Proof.
  intros Hk Hc. pose proof (sv_rx _ _ Hv) as Hrx. unfold rx_view in Hrx. injection Hrx as _ Hr _ Hn.
  rewrite (og_ack _ _ Ho) in Hk. case_bool_decide as Hss; [done|]. injection Hk as <-.
  split; [unfold window_start, rx_len; by rewrite Hr, Hn|].
  assert (Hcl : state s1 <> Closed) by (intros Hx0; apply (og_rst _ _ Ho) in Hx0; done).
  pose proof (og_state _ _ Ho). split; [unfold st; rewrite Hst; by destruct (state s1)|].
  pose proof (og_window _ _ Ho) as Hw. destruct (sent_syn (state s1)) eqn:Hsy.
  - unfold window_of. rewrite (proj2 (og_syn _ _ Ho) Hsy), Hw. unfold rx_window. rewrite Hr. lia.
  - apply scaled_window_le; [done|intros Hx0; apply (og_syn _ _ Ho) in Hx0; congruence|].
    rewrite Hw. unfold scaled_window. by rewrite Hr, (sv_shift _ _ Hv).
Qed.

End outgoing.

Lemma origin_travels b by_ a ay x y s r :
  local_ok x -> local_ok y -> flow b a x y -> flow by_ ay y x -> origin s (sock x) r ->
  travels b by_ x y (length (written x)) (length (written y)) r.
Proof.
  intros Hx Hy Hf Hf' [Hc Hp|p -> Ha Hl|s1 Hok1 _ Hv Hst Ho Hsyn].
  - split; [by rewrite Hc|by rewrite Hc, Hp; intros [|]|by rewrite Hc].
  - destruct Ha as [Hc Hs Hk Hw Hp]. split; [by rewrite Hc|by rewrite Hc, Hp; intros [|]|].
    intros k Hk' _. rewrite Hk in Hk'. injection Hk' as <-.
    apply (ack_travels _ ay); try done. apply scaled_window_le; [done|by rewrite Hc|done].
  - split.
    + by apply (outgoing_syn b a x y s1).
    + by apply (outgoing_data b a x y s1).
    + intros k Hk Hc. destruct (outgoing_acks x s1 r Hx Hv Hst Ho Hsyn k Hk Hc) as (-> & Hl & Hw).
      by apply (ack_travels _ ay).
Qed.

(** ** Packets that arrive *)

Section arriving.
Context (b by_ : SeqNumber.t) (a ay : Z) (x y : side) (sx sy : nat) (r : Tcp.Repr).
Context (Hf : flow b a x y) (Hf' : flow by_ ay y x) (Ht : travels by_ b y x sy sx r).
Context (Hfresh : Z.of_nat (length (written y)) - Z.of_nat sy <= 2 ^ 30).

(** A packet of the network carries a part of the stream. *)
Lemma travels_carries :
  st x <> Closed -> carries (written y) by_ (window_pos (length (read x)) (sock x)) (edge_pos (length (read x)) (sock x)) r.
Proof.
  intros Hcl. split.
  - intros Hc. by apply (tr_syn _ _ _ _ _ _ _ Ht).
  - intros Hd. destruct (tr_data _ _ _ _ _ _ _ Ht Hd) as (pos & H1 & H2 & H3 & H4 & H5 & H6 & H7 & H8 & H9). exists pos.
    fold (wpos x) (edge x). assert (Hl : live (st x) = true) by (by destruct (st x)).
    specialize (H9 Hl). pose proof (rc_len _ _ _ _ (fw_receiving _ _ _ _ Hf')) as Hle.
    assert (Hw : wpos x <= Z.of_nat (length (written y)) + 1).
    { unfold wpos, window_pos. destruct (rx_fin_received (sock x)); cbn [Z.b2z]; lia. }
    split; [lia|]. split; [done|]. split; [done|]. split; [done|]. intros Hfin. split; [by apply H6|done].
Qed.

End arriving.

(** The capacities and the window shift, which no event changes. *)
Lemma change_caps o x s' wr rd :
  change o (sock x) s' wr rd ->
  RingBuffer.capacity (tx_buffer s') = RingBuffer.capacity (tx_buffer (sock x)) /\
  RingBuffer.capacity (rx_buffer s') = RingBuffer.capacity (rx_buffer (sock x)) /\
  (remote_win_shift (sock x) = shift_of x ->
   (forall r, o = Some r -> Tcp.control r = Tcp.Syn -> Tcp.window_scale r <> None) ->
   remote_win_shift s' = win_shift (rx_buffer s')).
Proof.
  unfold shift_of, win_shift. intros [Hs|s1 w w' Hs ->|data n Hw|n out Hg|repr Ho Hop|repr a p off k Ho Hct].
  - destruct Hs. unfold rx_view, tx_view in *. simplify_eq. repeat match goal with H : _ s' = _ |- _ => rewrite H end. done.
  - destruct Hs. unfold rx_view, tx_view in *. simplify_eq. unfold reset_fields, win_shift. fields.
    repeat match goal with H : _ s1 = _ |- _ => rewrite H end. done.
  - inversion Hw as [|n' b Hm Hcon Hwf Hcap Hn Hc]; subst. use_core Hc.
    repeat match goal with H : _ s' = _ |- _ => rewrite H; clear H end. done.
  - inversion Hg as [|b out' Hu Hwf Hcap Hcon Hroom Hc]; subst. use_core Hc.
    repeat match goal with H : _ s' = _ |- _ => rewrite H; clear H end. by rewrite Hcap.
  - split; [by apply Hop|]. rewrite (op_rx _ _ _ Hop). split; [done|].
    intros Hs Hsc. rewrite (op_shift _ _ _ Hop); [done|]. apply (Hsc repr Ho), Hop.
  - destruct (ct_tx _ _ _ _ _ _ _ Hct) as (_ & Htx & _). split; [done|].
    assert (Hrx : RingBuffer.capacity (rx_buffer s') = RingBuffer.capacity (rx_buffer (sock x))).
    { destruct (ct_placed _ _ _ _ _ _ _ Hct) as [(_ & -> & _)|(_ & n & Hpl)]; [done|apply Hpl]. }
    split; [done|]. intros Hs _. by rewrite (ct_shift _ _ _ _ _ _ _ Hct), Hrx.
Qed.

(** What a packet lets the receiver know of the sender. *)
Lemma change_learns o by_ b y x s' wr rd sx sy :
  change o (sock x) s' wr rd -> (forall r, o = Some r -> travels by_ b y x sy sx r) ->
  (pending (st x) = true -> live (state s') = true -> st y <> Listen) /\
  (rx_fin_received s' = true -> rx_fin_received (sock x) = true \/ ended (st y) = true).
Proof.
  intros Hch Htr. unfold st. destruct Hch as [Hs|s1 w w' Hs ->|data n Hw|n out Hg|repr Ho Hop|repr a p off k Ho Hct].
  - pose proof (sv_rx _ _ Hs) as Hv. unfold rx_view in Hv. injection Hv as _ _ Hf _. split; [|rewrite Hf; auto].
    destruct (sv_quieter _ _ Hs) as [->|(_ & Hl & _)]; intros Hp Hl'; [by destruct (state (sock x))|].
    specialize (Hl Hl'). by destruct (state (sock x)).
  - done.
  - inversion Hw as [|n' q Hm Hcon Hwf Hcap Hn Hc]; subst. use_core Hc. split; [|intros; left; congruence].
    replace (state s') with (state (sock x)) by congruence. by destruct (state (sock x)).
  - inversion Hg as [|q out' Hu Hwf Hcap Hcon Hroom Hc]; subst. use_core Hc. split; [|intros; left; congruence].
    replace (state s') with (state (sock x)) by congruence. by destruct (state (sock x)).
  - split; [intros _ _; by apply (tr_syn _ _ _ _ _ _ _ (Htr repr Ho)), Hop|]. rewrite (op_fin _ _ _ Hop). auto.
  - pose proof (ct_control _ _ _ _ _ _ _ Hct) as Hc. pose proof (ct_state _ _ _ _ _ _ _ Hct) as Hn.
    destruct (next_live _ _ _ _ Hn Hc) as (Hlive & _). split; [by destruct (state (sock x))|].
    rewrite (ct_fin _ _ _ _ _ _ _ Hct). case_bool_decide as He; [|auto]. intros _. right.
    destruct (effective_cases repr (window_start (sock x))) as [?|[(_ & Hfin & _)|[(? & _)|(? & _)]]]; try congruence.
    destruct (tr_data _ _ _ _ _ _ _ (Htr repr Ho)) as (pos & _ & _ & _ & _ & _ & H & _); [by right|]. by apply H.
Qed.

(** ** An event at one side *)

Lemma side_step b by_ a ay x y c ev sx sy :
  local_ok x -> local_ok y -> flow b a x y -> flow by_ ay y x ->
  event_ok ev -> opens_again ev = false -> steady (sock x) ev -> (forall d, ev <> EvKeepAlive (Some d)) ->
  (forall r, segment_of ev = Some r -> travels by_ b y x sy sx r /\
     Z.of_nat (length (written x)) - Z.of_nat sx <= 2 ^ 30 /\ Z.of_nat (length (written y)) - Z.of_nat sy <= 2 ^ 30) ->
  exists s' ans, step c ev (sock x) = Ret (s', ans) /\
    let x' := after x s' (accepted ev ans) (delivered ans) in
    local_ok x' /\ grows x x' /\
    exists b' a', flow b' a' x' y /\ flow by_ ay y x' /\ (st x <> Listen -> b' = b) /\
      forall p, In p (emitted ans) -> travels b' by_ x' y (length (written x')) (length (written y)) (snd p).
Proof.
  intros Hx Hy Hf Hf' Hev Ho Hst Hka Hseg. pose proof (lo_ok _ Hx) as Hok.
  destruct (step_spec c ev (sock x) Hok Hev) as (s' & ans & Hs & Hok' & He). exists s', ans. split; [done|].
  pose proof (step_change _ _ _ _ _ Hok Ho Hst He) as Hch. set (x' := after x s' (accepted ev ans) (delivered ans)).
  pose proof (change_grows _ _ _ _ _ Hok Hch) as Hg. fold x' in Hg.
  assert (Hca : segment_carries (written y) by_ (length (read x)) (sock x) ev).
  { destruct ev; try done. intros Hacc. destruct (Hseg repr eq_refl) as (Ht & _ & Hfy).
    split; [|done]. apply (travels_carries b by_ ay x y sx sy); try done. by eapply accepts_not_closed. }
  destruct (receiving_step _ _ _ _ _ _ _ _ Hok (fw_receiving _ _ _ _ Hf') Ho Hca He) as [Hrc Hdel].
  destruct (change_learns _ by_ b y x s' _ _ sx sy Hch) as [Hl1 Hl2]; [by intros r Hr; apply Hseg|].
  destruct (change_caps _ x s' _ _ Hch) as (Hc1 & Hc2 & Hc3).
  assert (Hlo : local_ok x').
  { split; unfold x', after, shift_of; cbn [sock]; [done|by eapply mute_step_spec; [apply Hx|..]|rewrite Hc1; apply Hx|].
    apply Hc3; [apply Hx|]. intros r Hr Hsy. destruct (Hseg r Hr) as (Ht & _).
    destruct (tr_syn _ _ _ _ _ _ _ Ht Hsy) as (_ & _ & ->). done. }
  assert (Hf1 : flow by_ ay y x') by (by apply flow_receiver).
  destruct (flow_sender _ b by_ a x y s' _ _ sx sy Hx Hok' Hf Hch) as (b' & a' & Hf2 & Hb).
  { intros r Hr. destruct (Hseg r Hr) as (Ht & Hfx & _). done. }
  split; [done|]. split; [done|]. exists b', a'. split; [done|]. split; [done|]. split; [done|].
  intros p Hp. apply (origin_travels b' by_ a' ay x' y (sock x)); try done.
  by eapply (step_origin (written y) by_ (length (read x))); [..|apply Hp]; try done; apply Hx || apply Hf'.
Qed.

(** ** An event in the world *)

Lemma allowed_spec w x ev :
  allowed w x ev ->
  event_ok ev /\ opens_again ev = false /\ steady (sock (side_of w x)) ev /\ (forall d, ev <> EvKeepAlive (Some d)) /\
  (forall r, segment_of ev = Some r -> exists pk, In pk (net w) /\ from pk = negb x /\ snd (segment pk) = r /\ fresh w pk).
Proof.
  destruct ev; cbn; try done; try (by intros; split_and!).
  - by destruct d.
  - intros (Hro & Hrst & pk & Hin & Hfrom & Hseg & Hfr). split_and!; try done.
    intros r [= <-]. exists pk. by rewrite Hseg.
Qed.

Lemma good_step b a w x c ev :
  good b a w -> allowed w x ev -> exists w' b' a', world_step w x c ev = Ret w' /\ good b' a' w'.
Proof.
  intros Hgd Hal. destruct (allowed_spec _ _ _ Hal) as (Hev & Ho & Hst & Hka & Hpk). set (y := negb x).
  assert (Hseg : exists sx sy, forall r, segment_of ev = Some r ->
    travels (b y) (b x) (side_of w y) (side_of w x) sy sx r /\
    Z.of_nat (length (written (side_of w x))) - Z.of_nat sx <= 2 ^ 30 /\
    Z.of_nat (length (written (side_of w y))) - Z.of_nat sy <= 2 ^ 30).
  { destruct (segment_of ev) as [r|]; [|by exists 0%nat, 0%nat].
    destruct (Hpk r eq_refl) as (pk & Hin & Hfrom & Hr & Hfr). exists (stamp pk x), (stamp pk y).
    intros r' [= <-]. split; [|split; apply Hfr]. pose proof (gd_net _ _ _ Hgd pk Hin) as Ht.
    cbv zeta in Ht. rewrite Hfrom, negb_involutive, Hr in Ht. exact Ht. }
  destruct Hseg as (sx & sy & Hseg). pose proof (gd_flow _ _ _ Hgd x) as Hf. pose proof (gd_flow _ _ _ Hgd y) as Hf'.
  unfold y in Hf'. rewrite negb_involutive in Hf'. fold y in Hf, Hf'.
  destruct (side_step (b x) (b y) (a x) (a y) (side_of w x) (side_of w y) c ev sx sy) as
    (s' & ans & Hs & Hlo & Hg & b1 & a1 & Hf1 & Hf2 & Hb & Hnew); try done; try apply Hgd.
  set (x' := after (side_of w x) s' (accepted ev ans) (delivered ans)) in *.
  unfold world_step. rewrite Hs. rbind. eexists _, (fun z => if Bool.eqb x z then b1 else b z), (fun z => if Bool.eqb x z then a1 else a z).
  split; [done|]. fold (after (side_of w x) s' (accepted ev ans) (delivered ans)). fold x'.
  assert (Hxx : Bool.eqb x x = true) by apply eqb_reflx. assert (Hxy : Bool.eqb x y = false) by (by destruct x).
  assert (Hcase : forall z, z = x \/ z = y) by (intros z; unfold y; destruct x, z; auto).
  split; cbn [side_of net]; unfold put.
  - intros z. destruct (Hcase z) as [-> | ->]; rewrite ?Hxx, ?Hxy; [done|apply Hgd].
  - intros z. destruct (Hcase z) as [-> | ->]; unfold y; rewrite ?negb_involutive; fold y; by rewrite Hxx, Hxy.
  - intros pk [Hin|Hin]%in_app_or.
    + pose proof (gd_net _ _ _ Hgd pk Hin) as Ht. cbv zeta in *. destruct (Hcase (from pk)) as [Hfr|Hfr]; rewrite Hfr in *.
      * fold y in Ht |- *. rewrite Hxx, Hxy. apply (travels_grow _ _ (side_of w x) (side_of w y)); [done|apply grows_refl|].
        destruct (decide (st (side_of w x) = Listen)) as [Hl|Hl]; [by apply (travels_base (b x))|by rewrite (Hb Hl)].
      * unfold y in Ht |- *. rewrite negb_involutive in Ht |- *. fold y in Ht |- *. rewrite Hxx, Hxy.
        apply (travels_grow _ _ (side_of w y) (side_of w x)); [apply grows_refl|done|].
        destruct (decide (st (side_of w x) = Listen)) as [Hl|Hl]; [by apply (travels_base' _ (b x))|by rewrite (Hb Hl)].
    + apply in_map_iff in Hin as (p & <- & Hp). cbn [from segment stamp]. fold y. rewrite Hxx, Hxy. by apply Hnew.
Qed.

(** ** The start *)

(** A socket that was just opened. *)
Record young (s : Socket) : Prop := mkYoung {
  yg_local : local_ok (mkSide s [] []);
  yg_live : live (state s) = false;
  yg_rx : RingBuffer.len (rx_buffer s) = 0%nat;
  yg_fin : rx_fin_received s = false;
  yg_none : forall k, 0 <= k -> AssemblerLaws.present (assembler s) k = false
}.

Lemma starts_young s : starts s -> young s.
Proof.
  intros (m & rx & tx & s0 & c & ev & Hm & Hrx & Htx & Hnew & Ho & Hs).
  destruct (ok_new m rx tx) as (s0' & Hnew' & Hok0 & _); [done|lia|lia|]. rewrite Hnew in Hnew'. injection Hnew' as <-.
  destruct (step_spec c ev s0 Hok0) as (s1 & x & Hs1 & Hok & He); [by destruct ev|].
  rewrite Hs in Hs1. injection Hs1 as <- <-.
  assert (Hm0 : mute s0) by (unfold new in Hnew; case_match; [done|]; by injection Hnew as <-).
  pose proof (mute_step_spec c ev s0 s _ Hm0 ltac:(by destruct ev) Hs) as Hmute.
  assert (Hop : exists r, opens ev s0 s r) by (destruct ev; try done; destruct He as (r & _ & ?); by exists r).
  unfold new in Hnew. case_match; [done|]. injection Hnew as <-. destruct Hop as (r & Hop).
  assert (Hc : live (state s) = false /\ RingBuffer.len (rx_buffer s) = 0%nat /\ rx_fin_received s = false /\
    assembler s = Assembler.new m /\ Z.of_nat (RingBuffer.capacity (tx_buffer s)) < 2 ^ 30 /\
    remote_win_shift s = win_shift (rx_buffer s)).
  { destruct Hop as [q ->|ep _ _ Hc|re le t seq _ _ _ Hc]; [by cbn| |]; use_core Hc;
      repeat match goal with H : _ s = _ |- _ => rewrite H; clear H end;
      (unfold listening, connecting, reset_fields, Assembler.new; fields; rewrite ?length_replicate; split_and!; try done). }
  destruct Hc as (H1 & H2 & H3 & H4 & H5 & H6). split; try done.
  intros k Hk. rewrite H4. by apply AssemblerLaws.present_new.
Qed.

Lemma flow_young s s' : young s -> young s' -> flow (seq_at (local_seq_no s) 1) (-1) (mkSide s [] []) (mkSide s' [] []).
Proof.
  intros Hs Hs'. pose proof (yg_live _ Hs) as Hl. pose proof (yg_live _ Hs') as Hl'.
  assert (Hnd : sends_data (state s) = false) by (by destruct (state s)).
  split; unfold st; cbn [sock written read length]; rewrite ?Hnd, ?Hl, ?Hl'; try done.
  - split; [done|..]; [|by rewrite Hnd]. intros _. split; [done|]. split; [done|].
    rewrite seq_at_at. apply seq_self, (ok_local _ (lo_ok _ (yg_local _ Hs))).
  - split; rewrite ?Hl'; unfold len_rx; rewrite ?(yg_rx _ Hs'), ?(yg_fin _ Hs'); try done.
    + apply length_zero_iff_nil. rewrite RingBufferLaws.length_contents; [apply Hs'|]. apply (ok_rx _ (lo_ok _ (yg_local _ Hs'))).
    + split; [done|]. split; [done|apply Hs'].
  - by rewrite (yg_fin _ Hs').
Qed.

Lemma good_start s s' : starts s -> starts s' -> exists b a, good b a (start_world s s').
Proof.
  intros Hs%starts_young Hs'%starts_young.
  exists (fun x => seq_at (local_seq_no (sock (side_of (start_world s s') x))) 1), (fun _ => -1).
  split; [..|done]; intros [|]; cbn; try (by apply yg_local); by apply flow_young.
Qed.

Lemma reach_good w0 w : (exists b a, good b a w0) -> reach w0 w -> exists b a, good b a w.
Proof.
  intros H0 Hr. induction Hr as [|w x c ev w' Hr (b & a & Hgd) Hal Hs]; [done|].
  destruct (good_step b a w x c ev Hgd Hal) as (w1 & b' & a' & Hs' & Hgd'). rewrite Hs in Hs'. injection Hs' as <-. eauto.
Qed.

End TcpWorldInv.
