(* ===== verification/TcpProps.v ===== *)
(** * What the TCP socket promises

    The properties of a TCP socket and of two of them that talk over a network,
    with a run of [play], an executable reading of [TcpWorld.reach], as their
    witness. *)

From S2P Require Import Prelude TcpWire Assembler AssemblerLaws RingBuffer RingBufferLaws TcpState TcpSocket TcpProcess TcpDispatch TcpLogic TcpInv TcpSegment TcpSend TcpRun TcpStream TcpOut TcpWorld TcpChange TcpWorldInv.
Import TcpState TcpSocket TcpProcess TcpDispatch TcpLogic TcpInv TcpSegment TcpSend TcpRun TcpStream TcpOut TcpWorld TcpChange TcpWorldInv.

Local Open Scope Z_scope.

Module TcpProps.

(** ** Runs of the world *)

(** An event of the user or the interface at a side, or the delivery of the
    packet with an index of the network. *)
Inductive action : Type :=
| Act (x : bool) (c : Iface.Context) (ev : event)
| Deliver (x : bool) (c : Iface.Context) (i : nat).

#[global] Instance is_seq_dec z : Decision (is_seq z).
Proof. unfold is_seq. apply _. Defined.

Definition repr_okb (r : Tcp.Repr) : bool :=
  bool_decide (is_seq (Tcp.seq_number r)) && forallb (fun a => bool_decide (is_seq a)) (option_list (Tcp.ack_number r)) &&
  (Tcp.payload_len r <? 2 ^ 16) && (0 <=? Tcp.window_len r) && (Tcp.window_len r <? 2 ^ 16) &&
  forallb (fun k => (0 <=? k) && (k <=? 14)) (option_list (Tcp.window_scale r)).

Definition allowedb (w : world) (x : bool) (ev : event) : bool :=
  match ev with
  | EvListen _ | EvConnect _ _ | EvKeepAlive (Some _) | EvSegment _ _ | EvHopLimit (Some 0) => false
  | EvClose => bool_decide (state (sock (side_of w x)) <> SynReceived)
  | _ => true
  end.

Definition freshb (w : world) (pk : packet) : bool :=
  forallb (fun y => Z.of_nat (length (written (side_of w y))) - Z.of_nat (stamp pk y) <=? 2 ^ 30) [true; false].

Definition play_one (w : world) (act : action) : option world :=
  match act with
  | Act x c ev => if allowedb w x ev then match world_step w x c ev with Ret w' => Some w' | Panic => None end else None
  | Deliver x c i =>
      pk ← nth_error (net w) i;
      let '(ip, repr) := segment pk in
      if repr_okb repr && negb (bool_decide (Tcp.control repr = Tcp.Rst /\ state (sock (side_of w x)) = SynReceived)) &&
         Bool.eqb (from pk) (negb x) && freshb w pk
      then match world_step w x c (EvSegment ip repr) with Ret w' => Some w' | Panic => None end else None
  end.

Fixpoint play (acts : list action) (w : world) : option world :=
  match acts with
  | [] => Some w
  | act :: acts' => w' ← play_one w act; play acts' w'
  end.

Lemma repr_okb_spec r : repr_okb r = true -> repr_ok r.
Proof.
  unfold repr_okb. intros H. b2p. split; try done.
  - intros a Ha. rewrite Ha in *. cbn in *. b2p. done.
  - intros k Hk. rewrite Hk in *. cbn in *. b2p. done.
Qed.

Lemma play_one_reach w0 w act w' : reach w0 w -> play_one w act = Some w' -> reach w0 w'.
Proof.
  intros Hr. destruct act as [x c ev|x c i]; cbn [play_one].
  - destruct (allowedb w x ev) eqn:Ha; [|done]. destruct (world_step w x c ev) as [w1|] eqn:Hs; [|done].
    intros [= <-]. eapply reach_step; [done| |exact Hs].
    destruct ev; cbn in *; try done; [by b2p|by destruct d|by destruct h as [[| |]|]].
  - destruct (nth_error (net w) i) as [pk|] eqn:Hn; [|done]. cbn [mbind option_bind]. destruct (segment pk) as [ip repr] eqn:Hseg.
    destruct (repr_okb repr && _ && _ && _) eqn:Hc; [|done].
    destruct (world_step w x c (EvSegment ip repr)) as [w1|] eqn:Hs; [|done]. intros [= <-].
    apply andb_true_iff in Hc as [[[Hro Hrst]%andb_true_iff Hfrom]%andb_true_iff Hfr].
    eapply reach_step; [done| |exact Hs]. cbn. split; [by apply repr_okb_spec|]. split.
    + intros Hc Hst. rewrite bool_decide_true in Hrst by done. done.
    + exists pk. split; [by eapply nth_error_In|]. split; [by apply eqb_prop|]. split; [done|].
      unfold freshb in Hfr. cbn in Hfr. b2p. by intros [|].
Qed.

Lemma play_reach w0 acts : forall w w', reach w0 w -> play acts w = Some w' -> reach w0 w'.
Proof.
  induction acts as [|act acts IH]; intros w w' Hr Hp; cbn [play] in Hp; [by injection Hp as <-|].
  destruct (play_one w act) as [w1|] eqn:H1; [|done]. by eapply IH; [eapply play_one_reach|].
Qed.

(** ** An example *)

Definition example_context (now : Time.Instant) : Iface.Context := Iface.mkContext now 1500 (now + 17) (fun _ => None).

(** A socket with buffers of 8 octets, and a client and a server made of it. *)
Definition example_socket : Socket :=
  mkSocket Closed timer_new rtte_default (Assembler.new 2) (RingBuffer.new (replicate 8 0)) false
    (RingBuffer.new (replicate 8 0)) None None None (Ip.mkListen None 0) None 0 0 0 None 0 0 0 None false 536 None None
    None 0 (Some ACK_DELAY_DEFAULT) AckIdle 0 true None None.
Definition opened_by (ev : event) : Socket :=
  match step (example_context 1) ev example_socket with Ret (s, _) => s | Panic => example_socket end.
Definition connects : event :=
  EvConnect (Ip.mkEndpoint (Ip.Ipv4 [10; 0; 0; 2]) 80) (Ip.mkListen (Some (Ip.Ipv4 [10; 0; 0; 1])) 4000).
Definition listens : event := EvListen (Ip.mkListen None 80).
Definition client : Socket := opened_by connects.
Definition server : Socket := opened_by listens.

Lemma starts_opened ev :
  opens_again ev = true -> step (example_context 1) ev example_socket = Ret (opened_by ev, Opened (Ok tt)) ->
  starts (opened_by ev).
Proof.
  intros Ho Hs. exists 2%nat, (replicate 8 0), (replicate 8 0), example_socket, (example_context 1), ev.
  split; [lia|]. split; [done|]. split; [done|]. split; [reflexivity|]. done.
Qed.

(** A connection is opened, three octets go from the client to the server, and
    the client closes. *)
Definition example_run : list action :=
  let c := example_context in
  [Act true (c 1) (EvDispatch true); Deliver false (c 2) 0; Act false (c 3) (EvDispatch true); Deliver true (c 4) 1;
   Act true (c 5) (EvDispatch true); Deliver false (c 6) 2; Act true (c 7) (EvSend [1; 2; 3]);
   Act true (c 8) (EvDispatch true); Act true (c 9) EvClose; Act true (c 10) (EvDispatch true);
   Deliver false (c 11) 3; Deliver false (c 12) 4; Act false (c 13) (EvRecv 8)].

Lemma example_starts : starts client /\ starts server.
Proof. split; apply starts_opened; vm_compute; reflexivity. Qed.

(** ** Two sockets and a network *)



(** ** One socket *)



(** A socket in use after it was opened, with a remote that sends the stream [D]
    from the sequence number [base]; the list is what the user has read. *)
Inductive receives (D : list Z) (base : SeqNumber.t) (s0 : Socket) : Socket -> list Z -> Prop :=
| receives_start : receives D base s0 s0 []
| receives_step s got c ev s' x :
    receives D base s0 s got -> event_ok ev -> opens_again ev = false ->
    segment_carries D base (length got) s ev -> step c ev s = Ret (s', x) ->
    receives D base s0 s' (got ++ delivered x).

Lemma receives_inv D base s0 s got :
  starts s0 -> receives D base s0 s got ->
  ok s /\ receiving D base (length got) s /\ got = take (length got) D.
Proof.
  intros Hs0%starts_young Hr. induction Hr as [|s got c ev s' x Hr (Hok & Hrc & Hgot) Hev Ho Hseg Hs].
  - pose proof (ok_rx _ (lo_ok _ (yg_local _ Hs0))) as Hwf.
    split; [apply (lo_ok _ (yg_local _ Hs0))|]. split; [|done].
    split; rewrite ?(yg_live _ Hs0); unfold len_rx; rewrite ?(yg_rx _ Hs0), ?(yg_fin _ Hs0); try done; cbn [length].
    + apply length_zero_iff_nil. rewrite RingBufferLaws.length_contents by done. apply Hs0.
    + lia.
    + intros _. split; [done|]. split; [done|apply Hs0].
  - destruct (step_spec c ev s Hok Hev) as (s1 & x1 & Hs1 & Hok1 & He). rewrite Hs in Hs1. injection Hs1 as <- <-.
    destruct (receiving_step _ _ _ _ _ _ _ _ Hok Hrc Ho Hseg He) as [Hrc' Hd]. rewrite length_app.
    split; [done|]. split; [done|]. pose proof (rc_len _ _ _ _ Hrc) as Hle.
    rewrite RingBufferLaws.take_split by lia. by rewrite <-Hgot, <-Hd.
Qed.


(** The packets of the example, and a socket after an event. *)
Definition example_packet (i : nat) : option reply_t :=
  w ← play example_run (start_world client server); segment <$> nth_error (net w) i.
Definition arrives (i : nat) : event :=
  match example_packet i with Some (ip, repr) => EvSegment ip repr | None => EvPollAt end.

(** A history of one socket in which each event passes [guard]; [out] is what is
    collected of the answers. *)
Fixpoint drive (guard : nat -> Socket -> event -> bool) (out : event -> answer -> list Z)
    (h : list (Z * event)) (s : Socket) (acc : list Z) : option (Socket * list Z) :=
  match h with
  | [] => Some (s, acc)
  | (n, ev) :: h' =>
      if guard (length acc) s ev then
        match step (example_context n) ev s with
        | Ret (s', x) => drive guard out h' s' (acc ++ out ev x)
        | Panic => None
        end
      else None
  end.

Definition event_okb (ev : event) : bool :=
  match ev with EvHopLimit (Some 0) => false | EvSegment _ r => repr_okb r | _ => true end.
Lemma event_okb_spec ev : event_okb ev = true -> event_ok ev.
Proof. destruct ev; try done; [by destruct h as [[| |]|]|apply repr_okb_spec]. Qed.

(** [carries], for a position that is given. *)
Definition carriesb (D : list Z) (base w edge : Z) (r : Tcp.Repr) (pos : nat) : bool :=
  let n := length (Tcp.payload r) in
  (negb (bool_decide (Tcp.control r = Tcp.Syn)) || (Tcp.seq_number r =? seq_at base (-1))) &&
  ((n =? 0)%nat && negb (bool_decide (Tcp.control r = Tcp.Fin)) ||
   ((- 2 ^ 31 <=? Z.of_nat pos - w) && (Z.of_nat pos - w <? 2 ^ 31) && (Tcp.seq_number r =? seq_at base (Z.of_nat pos)) &&
    bool_decide (Tcp.payload r = take n (drop pos D)) && (pos + n <=? length D)%nat &&
    (negb (bool_decide (Tcp.control r = Tcp.Fin)) ||
     (pos + n =? length D)%nat && (Z.of_nat pos + Z.of_nat n <=? edge)))).

Lemma carriesb_spec D base w edge r pos : carriesb D base w edge r pos = true -> carries D base w edge r.
Proof.
  unfold carriesb. intros [Hs Hd]%andb_true_iff. split.
  - intros Hc. rewrite bool_decide_true in Hs by done. by apply Z.eqb_eq.
  - intros Hor. apply orb_true_iff in Hd as [Hd|Hd].
    + apply andb_true_iff in Hd as [Hn Hf]. apply Nat.eqb_eq, length_zero_iff_nil in Hn.
      destruct Hor as [?|Hc]; [done|]. by rewrite bool_decide_true in Hf.
    + exists pos. apply andb_true_iff in Hd as [Hd Hfin]. b2p. split; [done|]. split; [done|]. split; [done|].
      split; [done|]. intros Hc. rewrite bool_decide_true in Hfin by done. cbn [negb orb] in Hfin. b2p. done.
Qed.

Definition receives_guard (D : list Z) (base : Z) (r : nat) (s : Socket) (ev : event) : bool :=
  event_okb ev && negb (opens_again ev) &&
  match ev with
  | EvSegment ip repr =>
      existsb (carriesb D base (window_pos r s) (edge_pos r s) repr) (seq 0 (S (length D))) &&
      negb (bool_decide (Tcp.control repr = Tcp.Rst))
  | _ => true
  end.

Lemma drive_receives D base s0 h : forall s got s' got',
  receives D base s0 s got ->
  drive (receives_guard D base) (fun _ => delivered) h s got = Some (s', got') -> receives D base s0 s' got'.
Proof.
  induction h as [|[n ev] h IH]; intros s got s' got' Hr Hd; cbn [drive] in Hd; [by injection Hd as <- <-|].
  destruct (receives_guard D base (length got) s ev) eqn:Hg; [|done].
  destruct (step (example_context n) ev s) as [[s1 x]|] eqn:Hs; [|done].
  apply andb_true_iff in Hg as [[Hev Ho]%andb_true_iff Hseg]. eapply IH; [|exact Hd].
  eapply receives_step; [done|by apply event_okb_spec|by destruct (opens_again ev)| |exact Hs].
  destruct ev; try done. intros _. apply andb_true_iff in Hseg as [(pos & _ & Hc)%existsb_exists Hrst].
  split; [by eapply carriesb_spec|]. intros Hx. by rewrite bool_decide_true in Hrst.
Qed.

(** The server of the example until it has the three octets. *)
Definition server_run : list (Z * event) :=
  [(2, arrives 0); (3, EvDispatch true); (6, arrives 2); (11, arrives 3); (12, arrives 4); (13, EvRecv 8)].


(** A socket in use after it was opened; the list is what it took from its user. *)
Inductive writes (s0 : Socket) : Socket -> list Z -> Prop :=
| writes_start : writes s0 s0 []
| writes_step s S c ev s' x :
    writes s0 s S -> event_ok ev -> opens_again ev = false -> steady s ev -> (forall d, ev <> EvKeepAlive (Some d)) ->
    step c ev s = Ret (s', x) -> writes s0 s' (S ++ accepted ev x).

(** What an event leaves of the stream that is sent. *)
Lemma sending_change o S base a s s' wr rd :
  ok s -> ok s' -> state s <> Listen -> sending S base a s -> change o s s' wr rd ->
  state s' <> Listen /\ exists a', sending (S ++ wr) base a' s'.
Proof.
  intros Hok Hok' Hnl Hsn [Hs|s1 w w' Hs ->|data n Hw|n out Hg|repr _ Hop|repr ac p off k _ Hct]; rewrite ?app_nil_r.
  - destruct Hs. split; [|exists a; by eapply sending_view]. destruct sv_calmer0 as [->|[He _]]; [done|].
    intros Hl. by rewrite Hl in He.
  - split; [done|]. exists a. by split.
  - destruct (sending_wrote _ _ _ _ _ _ _ Hsn Hw) as [Hsn' _]. split; [|by exists a].
    inversion Hw as [|n' q Hm Hcon Hwf Hcap Hn Hc]; subst. rewrite (core_state _ _ Hc). done.
  - inversion Hg as [|q out' Hu Hwf Hcap Hcon Hroom Hc]; subst. use_core Hc. split; [congruence|]. exists a.
    eapply sending_view; [exact Hsn|unfold tx_view; congruence|left; congruence].
  - pose proof (sending_opening _ _ _ _ _ _ Hok' Hsn Hop) as H.
    destruct (op_state _ _ _ Hop) as [[Hl _]|[Hl Hl']]; [done|]. rewrite Hl in H. split; [by rewrite Hl'|by exists 0].
  - destruct (sending_continued _ _ _ _ _ _ _ _ _ _ Hok Hsn Hct) as [H _].
    destruct (next_sends _ _ _ _ (ct_state _ _ _ _ _ _ _ Hct) (ct_control _ _ _ _ _ _ _ Hct)) as (_ & _ & Hl & _).
    split; [done|by eexists].
Qed.

Lemma writes_inv s0 s S :
  starts s0 -> state s0 = SynSent -> writes s0 s S ->
  ok s /\ mute s /\ state s <> Listen /\ exists a, sending S (seq_at (local_seq_no s0) 1) a s.
Proof.
  intros Hs0%starts_young Hst Hw. pose proof (yg_local _ Hs0) as Hlo.
  induction Hw as [|s S c ev s' x Hw (Hok & Hm & Hnl & a & Hsn) Hev Ho Hsd Hka Hs].
  - split; [apply (lo_ok _ Hlo)|]. split; [apply (lo_mute _ Hlo)|]. split; [by rewrite Hst|]. exists (-1).
    split; rewrite Hst; try done. intros _. split; [done|]. split; [done|].
    rewrite seq_at_at. apply seq_self, (ok_local _ (lo_ok _ Hlo)).
  - destruct (step_spec c ev s Hok Hev) as (s1 & x1 & Hs1 & Hok1 & He). rewrite Hs in Hs1. injection Hs1 as <- <-.
    destruct (sending_change _ _ _ _ _ _ _ _ Hok Hok1 Hnl Hsn (step_change _ _ _ _ _ Hok Ho Hsd He)) as [Hnl' Hsn'].
    split; [done|]. split; [by eapply mute_step_spec|]. by split.
Qed.

Lemma timed_mss now s s1 : timed now (stamped now s) s1 -> remote_mss s1 = remote_mss s.
Proof.
  assert (H : remote_mss (stamped now s) = remote_mss s) by (unfold stamped; by destruct (remote_last_ts s)).
  by intros [->|w w' _ ->|d q _ ->].
Qed.


Definition writes_guard (n : nat) (s : Socket) (ev : event) : bool :=
  event_okb ev && negb (opens_again ev) &&
  match ev with
  | EvClose => bool_decide (state s <> SynReceived)
  | EvSegment _ repr => negb (bool_decide (Tcp.control repr = Tcp.Rst))
  | EvKeepAlive (Some _) => false
  | _ => true
  end.

Lemma drive_writes s0 h : forall s S s' S',
  writes s0 s S -> drive writes_guard accepted h s S = Some (s', S') -> writes s0 s' S'.
Proof.
  induction h as [|[n ev] h IH]; intros s S s' S' Hw Hd; cbn [drive] in Hd; [by injection Hd as <- <-|].
  destruct (writes_guard (length S) s ev) eqn:Hg; [|done].
  destruct (step (example_context n) ev s) as [[s1 x]|] eqn:Hs; [|done].
  apply andb_true_iff in Hg as [[Hev Ho]%andb_true_iff Hst]. eapply IH; [|exact Hd].
  eapply writes_step; [done|by apply event_okb_spec|by destruct (opens_again ev)| | |exact Hs].
  - destruct ev; try done; cbn in *; [by b2p|]. intros Hx. by rewrite bool_decide_true in Hst.
  - intros d ->. done.
Qed.

(** The client of the example until it sends. *)
Definition client_run : list (Z * event) :=
  [(1, EvDispatch true); (4, arrives 1); (5, EvDispatch true); (7, EvSend [1; 2; 3])].


(** ** The states *)

(** The changes of state that an event may make. *)
Definition follows (ev : event) (s : Socket) (st' : State) : Prop :=
  match ev with
  | EvListen _ => is_open s = false /\ st' = Listen
  | EvConnect _ _ => is_open s = false /\ st' = SynSent
  | EvClose => st' = close_state (state s)
  | EvAbort => st' = Closed
  | EvSegment _ repr =>
      (Tcp.control repr = Tcp.Rst /\ st' = reset_state (state s)) \/
      exists fin, (next_state (state s) (Tcp.quash_psh (Tcp.control repr)) fin = Some st' \/
                   Tcp.control repr = Tcp.Fin /\ next_state (state s) Tcp.None_ fin = Some st') /\
        (fin = true -> sent_fin (state s) = true /\ Tcp.ack_number repr = Some (seq_at (local_seq_no s) (tx_len s + 1)))
  | EvDispatch _ => st' = Closed /\ (timeout s <> None \/ exists t, timer s = Close t)
  | _ => False
  end.

Lemma follows_arrived ip repr s s' r :
  ok s -> arrived ip repr s s' r -> state s' = state s \/ follows (EvSegment ip repr) s (state s').
Proof.
  intros Hok [q _ Hc|Hrst Hc|q Ht]; [left; by apply core_state|right; left; by rewrite (core_state _ _ Hc)|right; right].
  destruct (took_cases _ _ _ _ _ Hok Ht) as [[Hop _]|(a & p & off & k & Hct & _)].
  - exists false. rewrite (op_syn _ _ _ Hop). split; [|done]. left.
    by destruct (op_state _ _ _ Hop) as [[-> ->]|[-> ->]].
  - exists (ack_of_fin a). pose proof (ct_state _ _ _ _ _ _ _ Hct) as Hn. pose proof (ct_control _ _ _ _ _ _ _ Hct) as Hc. split.
    + unfold effective_control in *. destruct (bool_decide _ && negb _) eqn:He; [|by left]. right. split; [|done].
      apply andb_true_iff in He as [He _]. apply bool_decide_eq_true in He. by destruct (Tcp.control repr).
    + intros Hf. pose proof (ct_acked _ _ _ _ _ _ _ Hct) as Hao. destruct (ao_fin _ _ _ Hao Hf) as [Hsf Hl]. split; [done|].
      rewrite (ao_ack _ _ _ Hao), Hl, Hf; [done| |by destruct (state s)].
      intros Hr. unfold effective_control in Hc. rewrite Hr in Hc. cbn in Hc. by destruct Hc.
Qed.

Lemma follows_dispatched {E} now s s' (x : TcpDispatch.sent (E := E)) :
  dispatched now s s' x ->
  state s' = state s \/ (state s' = Closed /\ (timeout s <> None \/ exists t, timer s = Close t)).
Proof.
  intros Hd. assert (Hst : state (stamped now s) = state s /\ timeout (stamped now s) = timeout s /\ timer (stamped now s) = timer s)
    by (unfold stamped; by destruct (remote_last_ts s)). destruct Hst as (H1 & H2 & H3).
  assert (Htm : forall s1, timed now (stamped now s) s1 ->
    (state s1 = state s \/ (state s1 = Closed /\ timeout s <> None)) /\ (timer s1 = timer s \/ exists o, timer s1 = Idle o)).
  { intros s1 [->|w w' Ho ->|d q _ ->]; fields; rewrite ?H1, ?H3.
    - auto.
    - split; [right|by left]. split; [done|]. unfold timed_out in Ho. rewrite H2 in Ho.
      destruct (remote_last_ts (stamped now s)), (timeout s); done.
    - split; [by left|right]. by eexists. }
  destruct Hd as [_ ->|s1 Ht ->|s1 w w' Ht Hcl ->|s1 p e Ht _ ->|s1 p Ht _ Hc|s1 p Ht _ _ Hc]; [by left|..];
    try (destruct (Htm s1 Ht) as [[?|[? ?]] _]; by auto).
  - right. split; [done|]. right. destruct (Htm s1 Ht) as [_ [He|(o & He)]]; rewrite He in Hcl.
    + destruct (timer s) as [| | |t]; try done. by exists t.
    + done.
  - rewrite (core_state _ _ Hc). destruct (Htm s1 Ht) as [[?|[? ?]] _]; auto.
  - rewrite (core_state _ _ Hc). destruct (sent_on_fields s1 (Tcp.segment_len (snd p))) as [-> _].
    destruct (Htm s1 Ht) as [[?|[? ?]] _]; auto.
Qed.



(** ** When to poll *)

Definition later (now : Time.Instant) (p : PollAt) : bool :=
  match p with Now => false | At t => now <? t | Ingress => true end.

Lemma later_min now p q : later now (poll_min p q) = later now p && later now q.
Proof.
  destruct p as [|t|], q as [|u|]; cbn; rewrite ?andb_true_r, ?andb_false_r; try done.
  destruct (Z.leb_spec t u); destruct (Z.ltb_spec now t), (Z.ltb_spec now u); done || lia.
Qed.

Lemma later_timer now t :
  later now (timer_poll_at t) = true ->
  should_keep_alive now t = false /\ should_retransmit now t = None /\ should_close now t = false.
Proof.
  destruct t as [[k|]|e d| |e]; cbn; try done; intros H%Z.ltb_lt; rewrite (proj2 (Z.leb_gt _ _)) by done; done.
Qed.

(** What [poll_at] has seen when nothing is due. *)
Lemma not_due c s t p :
  ok s -> tuple s = Some t -> poll_at c s = Ret p -> later (Iface.now c) p = true ->
  remote_last_ts s <> None /\ state s <> Closed /\ transmits c t s = false /\ timed_out (Iface.now c) s = false /\
  later (Iface.now c) (timer_poll_at (timer s)) = true /\
  exists b, ack_to_transmit s = Ret b /\ (b || window_to_update s = true -> delayed_ack_expired (Iface.now c) s = false).
Proof.
  intros Hok Ht Hp Hl. unfold poll_at in Hp. rewrite Ht in Hp.
  destruct (remote_last_ts s) as [last|] eqn:Hts; [|by injection Hp as <-].
  case_bool_decide as Hcl; [by injection Hp as <-|]. rewrite (seq_to_transmit_ret c t s Hok Ht) in Hp.
  cbn [mbind outcome_bind] in Hp. destruct (transmits c t s); [by injection Hp as <-|].
  destruct (ack_to_transmit_ret s Hok) as [b Hb]. rewrite Hb in Hp. cbn [mbind outcome_bind] in Hp.
  injection Hp as <-. rewrite !later_min in Hl. apply andb_true_iff in Hl as [Hl1 [Hl2 Hl3]%andb_true_iff].
  split; [done|]. split; [done|]. split; [done|]. split; [|split; [done|]].
  - unfold timed_out. rewrite Hts. destruct (timeout s) as [d|]; [|done]. cbn in Hl2. apply Z.leb_gt. by apply Z.ltb_lt.
  - exists b. split; [done|]. intros Hw. rewrite Hw in Hl3. unfold delayed_ack_expired.
    destruct (ack_delay_timer s); try done. cbn in Hl3. apply Z.leb_gt. by apply Z.ltb_lt.
Qed.

(** C38: when [poll_at] answers that nothing is due, or not yet, a poll at that time
    sends nothing and changes nothing. *)
Theorem poll_at_is_sound {E} (emit : Iface.Context -> reply_t -> Iface.Context * result unit E) c s p :
  ok s -> poll_at c s = Ret p -> p = Ingress \/ (exists t, p = At t /\ Iface.now c < t) ->
  dispatch emit (mkEnv c s []) = Ret (mkEnv c s [], nothing).
Proof.
  intros Hok Hp Hdue. assert (Hl : later (Iface.now c) p = true).
  { destruct Hdue as [->|(t & -> & Ht)]; [done|]. by apply Z.ltb_lt. }
  enough (Hwp : exists e' r, dispatch emit (mkEnv c s []) = Ret (e', r) /\ (r = nothing /\ e' = mkEnv c s [])).
  { destruct Hwp as (e' & r & -> & -> & ->). done. }
  apply (wp_call _ (fun r e' => r = nothing /\ e' = mkEnv c s [])). steps.
  destruct (tuple s) as [t|] eqn:Ht; [|by steps].
  destruct (not_due c s t p Hok Ht Hp Hl) as (Hts & Hcl & Htr & Hto & Htm & b & Hb & Hack).
  destruct (later_timer _ _ Htm) as (Hk & Hr & Hc).
  assert (Hst : match remote_last_ts s with None => set_remote_last_ts (Some (Iface.now c)) s | Some _ => s end = s)
    by (by destruct (remote_last_ts s)).
  assert (Htx : seq_to_transmit c s = Ret false) by (by rewrite (seq_to_transmit_ret c t), Htr).
  steps. rewrite Hst. unfold check_timers. apply wp_seq, wp_context, wp_seq, wp_get. cbn [self cx id]. rewrite Hto.
  apply wp_seq. eapply wp_do; [exact Htx|]. rewrite Hr. apply wp_next. unfold decide_sending.
  apply wp_seq, wp_seq, wp_context, wp_seq, wp_get. cbn [self cx id]. apply wp_seq. eapply wp_do; [exact Htx|].
  apply wp_seq. eapply wp_do; [exact Hb|].
  assert (Hx : b && delayed_ack_expired (Iface.now c) s = false /\ window_to_update s && delayed_ack_expired (Iface.now c) s = false).
  { destruct b, (window_to_update s); cbn [andb orb] in *; auto. }
  destruct Hx as [-> ->]. rewrite bool_decide_false by done. rewrite Hk, Hc. by steps.
Qed.

Lemma poll_at_is_sound_witness :
  dispatch (device true) (mkEnv (example_context 1) (opened_by listens) []) =
    Ret (mkEnv (example_context 1) (opened_by listens) [], nothing).
Proof.
  apply (poll_at_is_sound (device true) (example_context 1) (opened_by listens) Ingress); [|reflexivity|by left].
  apply (lo_ok _ (yg_local _ (starts_young _ (proj2 example_starts)))).
Defined.

End TcpProps.
