(* ===== verification/TcpBugs.v ===== *)
(** * Histories of a TCP socket that go wrong

    Four histories of the server of [TcpProps.v] with a remote that is not the
    client of that file.  The end of a stream is reported before its last octets,
    a FIN counts as acknowledged that was never sent, octets in flight are never
    sent again, and a keep-alive packet writes over one of them.  The largest
    receive buffer gets a window shift that the protocol does not allow. *)

From S2P Require Import Prelude TcpWire Assembler RingBuffer TcpState TcpSocket TcpProcess TcpDispatch TcpRun TcpProps.
Import TcpState TcpSocket TcpProcess TcpDispatch TcpRun TcpProps.

Local Open Scope Z_scope.

Module TcpBugs.

(** A segment of a remote whose stream begins after the number 100; the server
    has answered with [isn]. *)
Definition remote_ip : Ip.Repr := Ip.RIpv4 (Ip.mkV [10; 0; 0; 1] [10; 0; 0; 2] Ip.TcpProtocol 0 64).
Definition arriving (control : Tcp.Control) (seq : Z) (ack : option Z) (payload : list Z) : event :=
  EvSegment remote_ip (Tcp.mkRepr 4000 80 control seq ack 1000 None None false [None; None; None] payload).

Definition accepting : list (Iface.Context * event) :=
  [(example_context 2, arriving Tcp.Syn 100 None []); (example_context 3, EvDispatch true)].
Definition isn : Z := match run accepting server with Ret (s, _) => local_seq_no s | Panic => 0 end.
Definition established : list (Iface.Context * event) :=
  accepting ++ [(example_context 4, arriving Tcp.None_ 101 (Some (isn + 1)) [])].

(** What a history gives after it has opened the connection. *)
Definition answers (opening h : list (Iface.Context * event)) : option (list answer) :=
  match run (opening ++ h) server with Ret (_, xs) => Some (drop (length opening) xs) | Panic => None end.
Definition ends_in {A} (f : Socket -> A) (h : list (Iface.Context * event)) : option A :=
  match run h server with Ret (s, _) => Some (f s) | Panic => None end.

(** The octets and the FIN of a packet that was sent. *)
Definition packets (xs : list answer) : list (Tcp.Control * Z * list Z) :=
  flat_map (fun x => match x with
                     | Emitted (Some p, _) => [(Tcp.control (snd p), Tcp.seq_number (snd p), Tcp.payload (snd p))]
                     | _ => []
                     end) xs.

(** A segment of ten octets with a FIN reaches a window of eight: the user reads
    eight octets and is told that the stream has ended. *)
Theorem fin_after_the_window_ends_the_stream :
  answers established
    [(example_context 5, arriving Tcp.Fin 101 (Some (isn + 1)) [1; 2; 3; 4; 5; 6; 7; 8; 9; 10]);
     (example_context 6, EvRecv 20); (example_context 7, EvRecv 20)]
  = Some [Replied None; Received (Ok [1; 2; 3; 4; 5; 6; 7; 8]); Received (Err Finished)].
Proof. vm_compute. reflexivity. Qed.

(** A socket closed in SYN-RECEIVED takes the acknowledgement of its SYN for that
    of a FIN: it waits in FIN-WAIT-2 and has sent nothing but the SYN. *)
Definition closed_early : list (Iface.Context * event) :=
  accepting ++ [(example_context 4, EvClose); (example_context 5, arriving Tcp.None_ 101 (Some (isn + 1)) []);
                (example_context 6, EvDispatch true)].
Theorem close_in_syn_received_sends_no_fin :
  ends_in state closed_early = Some FinWait2 /\
  match run closed_early server with Ret (_, xs) => map (fun x => x.1.1) (packets xs) | Panic => [] end = [Tcp.Syn].
Proof. vm_compute. split; reflexivity. Qed.

(** An octet is sent and lost; then the remote closes.  The octet is still in
    flight, and no poll will ever send it again. *)
Definition lost_octet : list (Iface.Context * event) :=
  established ++ [(example_context 5, EvSend [7]); (example_context 6, EvDispatch true);
                  (example_context 7, arriving Tcp.Fin 101 (Some (isn + 1)) []); (example_context 8, EvDispatch true)].
Theorem octet_in_flight_is_never_sent_again :
  ends_in (fun s => (state s, RingBuffer.len (tx_buffer s), remote_last_seq s - local_seq_no s)) lost_octet
  = Some (CloseWait, 1%nat, 1) /\
  answers lost_octet [(example_context 100000000, EvPollAt)] = Some [Polled Ingress].
Proof. vm_compute. split; reflexivity. Qed.

(** With keep-alive packets on, the packet that is sent has the octet 0 with the
    sequence number of the octet that was lost. *)
Theorem keep_alive_overwrites_an_octet :
  (packets <$> answers [] ((example_context 1, EvKeepAlive (Some 1000)) :: lost_octet ++ [(example_context 5000, EvDispatch true)]))
  = Some [(Tcp.Syn, isn, []); (Tcp.Psh, isn + 1, [7]); (Tcp.None_, isn + 2, []); (Tcp.None_, isn + 1, [0])].
Proof. vm_compute. reflexivity. Qed.

(** A receive buffer of exactly 2^30 octets, which [Socket::new] takes, announces
    the shift 15, which a remote reads as 14. *)
Theorem largest_buffer_has_shift_15 (max_segments : nat) (rx tx : RingBuffer.t Z) :
  Z.of_nat (RingBuffer.capacity rx) = 2 ^ 30 ->
  exists s, new max_segments rx tx = Ret s /\ remote_win_shift s = 15.
Proof.
  intros Hc. unfold new, win_shift. rewrite Hc. by eexists.
Qed.

End TcpBugs.
