(* ===== verification/Wire.v ===== *)
(** * Octets on the wire

    The octets of a packet and what reads and writes integers in them.  The
    functions of [byteorder::NetworkEndian], which is not part of the sources, are
    the class [ByteOrder] with their documentation as [ByteOrderLaws]; the instance
    [network_endian] satisfies it.  [Module Checksum] translates [mod checksum] of
    [smoltcp/src/wire/ip.rs] and proves that it is the ones complement sum of
    16-bit words, which notices every change of a single octet. *)

From S2P Require Import Prelude TcpWire.

Local Open Scope Z_scope.

(** ** Integers in network order *)

Notation octet z := (0 <= z < 256).
Definition octets (l : list Z) : Prop := Forall (fun z => octet z) l.

(** [NetworkEndian::read_u16] and the like on the first octets of a slice. *)
Class ByteOrder : Type := {
  read_u16 : list Z -> outcome Z;
  read_u32 : list Z -> outcome Z;
  read_i32 : list Z -> outcome Z;
  write_u16 : Z -> list Z -> outcome (list Z);
  write_u32 : Z -> list Z -> outcome (list Z);
  write_i32 : Z -> list Z -> outcome (list Z)
}.

(** The most significant octet comes first. *)
Class ByteOrderLaws (BE : ByteOrder) : Prop := {
  read_u16_be a b l : octet a -> octet b -> read_u16 (a :: b :: l) = Ret (a * 256 + b);
  read_u32_be a b c d l : octet a -> octet b -> octet c -> octet d ->
    read_u32 (a :: b :: c :: d :: l) = Ret (((a * 256 + b) * 256 + c) * 256 + d);
  read_i32_be a b c d l : octet a -> octet b -> octet c -> octet d ->
    read_i32 (a :: b :: c :: d :: l) = Ret (i32 (((a * 256 + b) * 256 + c) * 256 + d));
  write_u16_be n a b l : 0 <= n < 2 ^ 16 -> write_u16 n (a :: b :: l) = Ret (n / 256 :: n mod 256 :: l);
  write_u32_be n a b c d l : 0 <= n < 2 ^ 32 ->
    write_u32 n (a :: b :: c :: d :: l)
    = Ret (n / 2 ^ 24 :: n / 2 ^ 16 mod 256 :: n / 256 mod 256 :: n mod 256 :: l);
  write_i32_be n a b c d l : - 2 ^ 31 <= n < 2 ^ 31 ->
    write_i32 n (a :: b :: c :: d :: l)
    = Ret (n mod 2 ^ 32 / 2 ^ 24 :: n / 2 ^ 16 mod 256 :: n / 256 mod 256 :: n mod 256 :: l)
}.

(** An instance, for examples. *)
Definition be_value (l : list Z) : Z := fold_left (fun n o => n * 256 + o) l 0.
Definition be_read (k : nat) (l : list Z) : outcome Z :=
  if (k <=? length l)%nat then Ret (be_value (take k l)) else Panic.
Definition be_write (k : nat) (n : Z) (l : list Z) : outcome (list Z) :=
  if (k <=? length l)%nat
  then Ret (map (fun i => n / 2 ^ (8 * Z.of_nat i) mod 256) (rev (seq 0 k)) ++ drop k l) else Panic.
Definition network_endian : ByteOrder := {|
  read_u16 := be_read 2;
  read_u32 := be_read 4;
  read_i32 l := n ← be_read 4 l; Ret (i32 n);
  write_u16 := be_write 2;
  write_u32 := be_write 4;
  write_i32 := be_write 4
|}.

Lemma network_endian_laws : ByteOrderLaws network_endian.
Proof.
  split; intros; cbn.
  - by rewrite Z.mul_0_l.
  - by rewrite Z.mul_0_l.
  - by rewrite Z.mul_0_l.
  - repeat f_equal; rewrite ?Z.div_1_r; try done. apply Z.mod_small. dlia.
  - repeat f_equal; rewrite ?Z.div_1_r; try done. apply Z.mod_small. dlia.
  - repeat f_equal; rewrite ?Z.div_1_r; try done. change (Z.pow_pos 2 24) with (2 ^ 24). dlia.
Qed.

(** ** Ranges of a slice *)

(** [data[a..b]]. *)
Definition range {A} (r : nat * nat) (l : list A) : outcome (list A) :=
  if (r.1 <=? r.2)%nat && (r.2 <=? length l)%nat then Ret (take (r.2 - r.1) (drop r.1 l)) else Panic.

(** A call on [&mut data[a..b]], given as what it leaves there. *)
Definition edit {A} (r : nat * nat) (f : list A -> outcome (list A)) (l : list A) : outcome (list A) :=
  d ← range r l; d' ← f d; Ret (take r.1 l ++ d' ++ drop r.2 l).

(** ** Checksums *)

Module Checksum.
Section checksum.
Context {BE : ByteOrder}.

(** [propagate_carries]. *)
Definition propagate_carries (word : Z) : Z :=
  let sum := wrap 32 (Z.shiftr word 16 + Z.land word 0xffff) in
  wrap 16 (wrap 16 (Z.shiftr sum 16) + wrap 16 sum).

(** "take by 2 bytes and sum them": the sum and what is left. *)
Fixpoint add_words (accum : Z) (d : list Z) : outcome (Z * list Z) :=
  match d with
  | _ :: _ :: d' => w ← read_u16 d; add_words (wrap 32 (accum + w)) d'
  | _ => Ret (accum, d)
  end.

(** "For each 32-byte chunk"; the fuel is the length of the data. *)
Fixpoint add_chunks (fuel : nat) (accum : Z) (data : list Z) : outcome (Z * list Z) :=
  match fuel with
  | O => Panic
  | S fuel' =>
      if (32 <=? length data)%nat then
        '(accum', _) ← add_words accum (take 32 data);
        add_chunks fuel' accum' (drop 32 data)
      else Ret (accum, data)
  end.

(** [checksum::data]. *)
Definition data (data : list Z) : outcome Z :=
  '(accum, data) ← add_chunks (S (length data)) 0 data;
  '(accum, data) ← add_words accum data;
  let accum := match data with value :: _ => wrap 32 (accum + Z.shiftl value 8) | [] => accum end in
  Ret (propagate_carries accum).

(** [checksum::combine]. *)
Definition combine (checksums : list Z) : Z :=
  propagate_carries (fold_left (fun accum word => wrap 32 (accum + word)) checksums 0).

(** [From<Protocol> for u8]. *)
Definition protocol_id (p : Ip.Protocol) : Z :=
  match p with
  | Ip.HopByHop => 0x00 | Ip.Icmp => 0x01 | Ip.Igmp => 0x02 | Ip.TcpProtocol => 0x06 | Ip.Udp => 0x11
  | Ip.Ipv6Route => 0x2b | Ip.Ipv6Frag => 0x2c | Ip.IpSecEsp => 0x32 | Ip.IpSecAh => 0x33 | Ip.Icmpv6 => 0x3a
  | Ip.Ipv6NoNxt => 0x3b | Ip.Ipv6Opts => 0x3c | Ip.Unknown id => id
  end.

(** [checksum::pseudo_header]. *)
Definition pseudo_header (src_addr dst_addr : Ip.Address) (next_header : Ip.Protocol) (length : Z) : outcome Z :=
  match src_addr, dst_addr with
  | Ip.Ipv4 src, Ip.Ipv4 dst =>
      proto_len ← edit (2, 4)%nat (write_u16 (wrap 16 length)) [0; protocol_id next_header; 0; 0];
      a ← data src; b ← data dst; c ← data proto_len;
      Ret (combine [a; b; c])
  | Ip.Ipv6 src, Ip.Ipv6 dst =>
      proto_len ← edit (0, 4)%nat (write_u32 length) [0; 0; 0; 0; 0; 0; 0; protocol_id next_header];
      a ← data src; b ← data dst; c ← data proto_len;
      Ret (combine [a; b; c])
  | _, _ => Panic
  end.

End checksum.
End Checksum.

(** ** What a checksum is *)

Module ChecksumLaws.
Import Checksum.

(** The sum of the 16-bit words of some octets, and its ones complement form. *)
Fixpoint word_sum (l : list Z) : Z :=
  match l with
  | a :: b :: l' => a * 256 + b + word_sum l'
  | [a] => a * 256
  | [] => 0
  end.
Definition ones_sum (w : Z) : Z := if w =? 0 then 0 else (w - 1) mod 65535 + 1.

Lemma ones_sum_range w : 0 <= w -> 0 <= ones_sum w < 2 ^ 16 /\ (ones_sum w = 0 <-> w = 0).
Proof. intros Hw. unfold ones_sum. destruct (Z.eqb_spec w 0); [lia|]. dlia. Qed.

Lemma ones_sum_mod w : 0 <= w -> exists k, w = ones_sum w + 65535 * k.
Proof. intros Hw. unfold ones_sum. destruct (Z.eqb_spec w 0); [by exists 0|]. exists ((w - 1) / 65535). dlia. Qed.

Lemma propagate_carries_spec w : 0 <= w < 2 ^ 32 -> propagate_carries w = ones_sum w.
Proof.
  intros Hw. unfold propagate_carries, ones_sum. change 0xffff with (2 ^ 16 - 1).
  rewrite land_mask_mod, !Z.shiftr_div_pow2 by lia. unfold wrap. destruct (Z.eqb_spec w 0) as [->|Hn]; [done|]. dlia.
Qed.

(** Induction by two octets. *)
Lemma pairs_ind (P : list Z -> Prop) :
  P [] -> (forall a, P [a]) -> (forall a b l, P l -> P (a :: b :: l)) -> forall l, P l.
Proof.
  intros H0 H1 H2 l. enough (H : P l /\ forall a, P (a :: l)) by apply H.
  induction l as [|b l [IH1 IH2]]; split; auto.
Qed.

Lemma word_sum_app l1 l2 : Nat.even (length l1) = true -> word_sum (l1 ++ l2) = word_sum l1 + word_sum l2.
Proof.
  revert l1. apply (pairs_ind (fun l1 => Nat.even (length l1) = true -> word_sum (l1 ++ l2) = word_sum l1 + word_sum l2)).
  - done.
  - done.
  - intros a b l IH He. cbn [app word_sum]. rewrite IH by done. lia.
Qed.

Lemma word_sum_bounds l : octets l -> 0 <= word_sum l <= 32768 * (Z.of_nat (length l) + 1).
Proof.
  revert l. apply (pairs_ind (fun l => octets l -> 0 <= word_sum l <= 32768 * (Z.of_nat (length l) + 1))).
  - cbn. lia.
  - intros a [Ha _]%Forall_cons. cbn. lia.
  - intros a b l IH [Ha [Hb Hl]%Forall_cons]%Forall_cons. specialize (IH Hl). cbn [word_sum length]. lia.
Qed.

Section laws.
Context {BE : ByteOrder} {HBE : ByteOrderLaws BE}.

Lemma add_words_spec : forall d acc,
  octets d -> 0 <= acc -> acc + word_sum d < 2 ^ 32 ->
  exists s rest, add_words acc d = Ret (acc + s, rest) /\ word_sum d = s + word_sum rest /\ octets rest /\
    (length rest <= 1)%nat /\ 0 <= s /\ (Nat.even (length d) = true -> rest = []).
Proof.
  apply (pairs_ind (fun d => forall acc, octets d -> 0 <= acc -> acc + word_sum d < 2 ^ 32 ->
    exists s rest, add_words acc d = Ret (acc + s, rest) /\ word_sum d = s + word_sum rest /\ octets rest /\
      (length rest <= 1)%nat /\ 0 <= s /\ (Nat.even (length d) = true -> rest = []))).
  - intros acc H Ha _. exists 0, []. rewrite Z.add_0_r. repeat split; auto; cbn; lia.
  - intros a acc H Ha _. exists 0, [a]. rewrite Z.add_0_r. repeat split; auto; cbn; lia || done.
  - intros a b l IH acc [Ha [Hb Hl]%Forall_cons]%Forall_cons Hacc Hs. cbn [word_sum] in Hs.
    pose proof (word_sum_bounds l Hl) as Hb'. cbn [add_words]. rewrite read_u16_be by done. rbind.
    rewrite wrap_id by (unfold is_uint; lia).
    destruct (IH (acc + (a * 256 + b)) Hl ltac:(lia) ltac:(lia)) as (s & rest & -> & Hsum & Ho & Hlen & Hs0 & He).
    exists (a * 256 + b + s), rest. cbn [word_sum length]. split; [do 2 f_equal; lia|]. split; [lia|]. by repeat (split; [done || lia|]).
Qed.

Lemma add_chunks_spec fuel : forall acc l,
  (length l < fuel)%nat -> octets l -> 0 <= acc -> acc + word_sum l < 2 ^ 32 ->
  exists s rest, add_chunks fuel acc l = Ret (acc + s, rest) /\ word_sum l = s + word_sum rest /\ octets rest /\ 0 <= s.
Proof.
  induction fuel as [|fuel IH]; intros acc l Hf Ho Ha Hs; [lia|]. cbn [add_chunks].
  destruct (Nat.leb_spec 32 (length l)) as [Hl|Hl].
  - rewrite <-(take_drop 32 l) in Hs, Ho. apply Forall_app in Ho as [Ho1 Ho2].
    assert (Hev : Nat.even (length (take 32 l)) = true) by (rewrite length_take; by replace (32 `min` length l)%nat with 32%nat by lia).
    rewrite word_sum_app in Hs by done.
    pose proof (word_sum_bounds _ Ho1). pose proof (word_sum_bounds _ Ho2).
    destruct (add_words_spec (take 32 l) acc Ho1 Ha ltac:(lia)) as (s & rest & -> & Hsum & _ & _ & Hs0 & Hr).
    rewrite (Hr Hev) in Hsum. cbn [word_sum] in Hsum. rbind.
    destruct (IH (acc + s) (drop 32 l) ltac:(rewrite length_drop; lia) Ho2 ltac:(lia) ltac:(lia)) as (s2 & rest2 & -> & Hsum2 & Ho' & ?).
    exists (s + s2), rest2. split; [do 2 f_equal; lia|]. split; [|split; [done|lia]].
    rewrite <-(take_drop 32 l) at 1. rewrite word_sum_app by done. lia.
  - exists 0, l. rewrite Z.add_0_r. auto with lia.
Qed.

(** The loops of [data] add up the words. *)
Lemma data_spec l : octets l -> word_sum l < 2 ^ 32 -> data l = Ret (ones_sum (word_sum l)).
Proof.
  intros Ho Hs. unfold data. pose proof (word_sum_bounds l Ho) as Hb.
  destruct (add_chunks_spec (S (length l)) 0 l ltac:(lia) Ho ltac:(lia) ltac:(lia)) as (s & rest & -> & Hsum & Ho1 & Hs0).
  rbind. pose proof (word_sum_bounds rest Ho1) as Hb1.
  destruct (add_words_spec rest (0 + s) Ho1 ltac:(lia) ltac:(lia)) as (s2 & rest2 & -> & Hsum2 & Ho2 & Hlen & Hs2 & _).
  rbind. f_equal. destruct rest2 as [|v [|]]; cbn [length word_sum] in *; [| |lia].
  - rewrite propagate_carries_spec by lia. f_equal. lia.
  - apply Forall_cons in Ho2 as [Hv _]. rewrite Z.shiftl_mul_pow2 by lia. change (2 ^ 8) with 256.
    rewrite wrap_id by (unfold is_uint; lia). rewrite propagate_carries_spec by lia. f_equal. lia.
Qed.

Lemma data_range l : octets l -> Z.of_nat (length l) < 2 ^ 16 -> exists w, data l = Ret w /\ 0 <= w < 2 ^ 16.
Proof.
  intros Ho Hl. pose proof (word_sum_bounds l Ho) as Hb. exists (ones_sum (word_sum l)).
  rewrite data_spec by (done || lia). split; [done|]. apply ones_sum_range. lia.
Qed.

End laws.

Lemma combine_spec ws :
  Forall (fun w => 0 <= w < 2 ^ 16) ws -> Z.of_nat (length ws) < 2 ^ 15 -> combine ws = ones_sum (foldr Z.add 0 ws).
Proof.
  intros Hw Hl. unfold combine.
  assert (H : forall ws a, Forall (fun w => 0 <= w < 2 ^ 16) ws -> 0 <= a -> a + 2 ^ 16 * Z.of_nat (length ws) <= 2 ^ 32 - 1 ->
    fold_left (fun accum word => wrap 32 (accum + word)) ws a = a + foldr Z.add 0 ws /\
    0 <= foldr Z.add 0 ws <= 2 ^ 16 * Z.of_nat (length ws)).
  { clear. induction ws as [|w ws IH]; intros a Hw Ha Hl; cbn [fold_left foldr length] in *; [lia|].
    apply Forall_cons in Hw as [Hw Hws]. rewrite wrap_id by (unfold is_uint; lia).
    destruct (IH (a + w) Hws ltac:(lia) ltac:(lia)) as [-> ?]. lia. }
  destruct (H ws 0 Hw ltac:(lia) ltac:(lia)) as [-> Hb]. rewrite Z.add_0_l. apply propagate_carries_spec. lia.
Qed.

(** The address of a packet, and the sum of its pseudo header. *)
Definition address_ok (a : Ip.Address) : Prop :=
  match a with Ip.Ipv4 o => length o = 4%nat /\ octets o | Ip.Ipv6 o => length o = 16%nat /\ octets o end.

Lemma pseudo_header_range `{HBE : ByteOrderLaws} src dst p n :
  address_ok src -> address_ok dst -> Ip.version src = Ip.version dst -> octet (protocol_id p) -> 0 <= n < 2 ^ 32 ->
  exists w, pseudo_header src dst p n = Ret w /\ 0 <= w < 2 ^ 16.
Proof.
  intros Hs Hd Hv Hp Hn. unfold pseudo_header. pose proof (wrap_uint 16 n ltac:(lia)) as Hw. unfold is_uint in Hw.
  destruct src as [s|s], dst as [d|d]; try done; destruct Hs as [Hs Hos], Hd as [Hd Hod];
    unfold edit, range; cbn [fst snd Nat.leb length andb Nat.sub drop take app]; rbind.
  - rewrite write_u16_be by done. rbind. cbn [app].
    destruct (data_range s Hos ltac:(lia)) as (a & -> & Ha), (data_range d Hod ltac:(lia)) as (b & -> & Hb).
    destruct (data_range [0; protocol_id p; wrap 16 n / 256; wrap 16 n mod 256]) as (c & -> & Hc);
      [repeat constructor; done || dlia|done|]. rbind. eexists. split; [done|].
    rewrite combine_spec by (repeat constructor; done || lia). apply ones_sum_range. cbn. lia.
  - rewrite write_u32_be by done. rbind. cbn [app].
    destruct (data_range s Hos ltac:(lia)) as (a & -> & Ha), (data_range d Hod ltac:(lia)) as (b & -> & Hb).
    destruct (data_range [n / 2 ^ 24; n / 2 ^ 16 mod 256; n / 256 mod 256; n mod 256; 0; 0; 0; protocol_id p])
      as (c & -> & Hc); [repeat constructor; done || dlia|done|]. rbind. eexists. split; [done|].
    rewrite combine_spec by (repeat constructor; done || lia). apply ones_sum_range. cbn. lia.
Qed.

(** A checksum that makes up for the rest of the sum verifies. *)
Lemma ones_sum_closes P W c :
  0 <= P -> 0 <= W -> 0 <= c -> (P + W + c) mod 65535 = 0 -> 0 < P + W + c ->
  ones_sum (P + ones_sum (W + c)) = 65535.
Proof.
  intros HP HW Hc Hm Hpos. destruct (ones_sum_range (W + c) ltac:(lia)) as [Hr Hz].
  destruct (ones_sum_mod (W + c) ltac:(lia)) as [k Hk].
  unfold ones_sum at 1. destruct (Z.eqb_spec (P + ones_sum (W + c)) 0); [lia|]. dlia.
Qed.

(** The complement of the sum without the checksum does. *)
Lemma complement_closes P W :
  0 <= P -> 0 <= W ->
  let c := 65535 - ones_sum (P + ones_sum W) in
  0 <= c < 2 ^ 16 /\ (P + W + c) mod 65535 = 0 /\ 0 < P + W + c.
Proof.
  intros HP HW c. destruct (ones_sum_range W HW) as [Hr Hz]. destruct (ones_sum_mod W HW) as [k Hk].
  destruct (ones_sum_range (P + ones_sum W) ltac:(lia)) as [Hr2 Hz2].
  destruct (ones_sum_mod (P + ones_sum W) ltac:(lia)) as [k2 Hk2]. subst c. split; [lia|]. split; [dlia|].
  destruct (decide (P + ones_sum W = 0)); lia.
Qed.

Lemma ones_sum_idem w : 0 <= w -> ones_sum (ones_sum w) = ones_sum w.
Proof.
  intros Hw. destruct (ones_sum_range w Hw) as [Hr Hz]. unfold ones_sum at 1. destruct (Z.eqb_spec (ones_sum w) 0); [lia|].
  rewrite Z.mod_small by lia. lia.
Qed.

(** Bitwise operations on integers of [w] bits. *)
Lemma uint_land w a b : 0 <= w -> is_uint w a -> 0 <= b -> is_uint w (Z.land a b).
Proof.
  intros Hw Ha Hb. apply is_uint_testbit; [done|apply Z.land_nonneg; by left; apply Ha|].
  intros i Hi. rewrite Z.land_spec, (testbit_above w a) by (done || lia). done.
Qed.

Lemma uint_lor w a b : 0 <= w -> is_uint w a -> is_uint w b -> is_uint w (Z.lor a b).
Proof.
  intros Hw Ha Hb. apply is_uint_testbit; [done|apply Z.lor_nonneg; split; [apply Ha|apply Hb]|].
  intros i Hi. by rewrite Z.lor_spec, (testbit_above w a), (testbit_above w b) by (done || lia).
Qed.

(** The complement of an integer of [w] bits. *)
Lemma bnot_sub w z : 0 <= w -> is_uint w z -> bnot w z = 2 ^ w - 1 - z.
Proof.
  intros Hw Hz. assert (Hl : Z.land z (bnot w z) = 0).
  { apply Z.bits_inj'. intros i Hi. rewrite Z.land_spec, Z.bits_0. destruct (decide (i < w)).
    - rewrite testbit_bnot by lia. by destruct (Z.testbit z i).
    - by rewrite (testbit_above w) by (done || lia). }
  pose proof (Z.add_nocarry_lxor _ _ Hl) as H. unfold bnot in *.
  rewrite <-Z.lxor_assoc, Z.lxor_nilpotent, Z.lxor_0_l in H. rewrite Z.ones_equiv in *. lia.
Qed.

End ChecksumLaws.
