(* ===== verification/TcpPacket.v ===== *)
(** * TCP segments as octets

    [struct Packet], [enum TcpOption] and [Repr::parse], [Repr::emit] of
    [smoltcp/src/wire/tcp.rs], on the octets of a buffer.  [TcpPacketLaws.v] states
    what they promise. *)

From S2P Require Import Prelude TcpWire Wire.

Local Open Scope Z_scope.

(** [enum Checksum] of [phy/mod.rs], and [wire::Error]. *)
Module Caps.
Inductive Checksum : Type := Both | Rx | Tx | NoChecksum.
Definition rx (c : Checksum) : bool := match c with Both | Rx => true | _ => false end.
Definition tx (c : Checksum) : bool := match c with Both | Tx => true | _ => false end.
End Caps.
Inductive WireError : Type := Malformed.

Module TcpPacket.

(** ** [mod field] *)

Definition SRC_PORT : nat * nat := (0, 2)%nat.
Definition DST_PORT : nat * nat := (2, 4)%nat.
Definition SEQ_NUM : nat * nat := (4, 8)%nat.
Definition ACK_NUM : nat * nat := (8, 12)%nat.
Definition FLAGS : nat * nat := (12, 14)%nat.
Definition WIN_SIZE : nat * nat := (14, 16)%nat.
Definition CHECKSUM : nat * nat := (16, 18)%nat.
Definition URGENT : nat * nat := (18, 20)%nat.
Definition OPTIONS (length : Z) : nat * nat := (20%nat, Z.to_nat length).

Definition FLG_FIN : Z := 0x001.
Definition FLG_SYN : Z := 0x002.
Definition FLG_RST : Z := 0x004.
Definition FLG_PSH : Z := 0x008.
Definition FLG_ACK : Z := 0x010.
Definition FLG_URG : Z := 0x020.
Definition FLG_ECE : Z := 0x040.
Definition FLG_CWR : Z := 0x080.
Definition FLG_NS : Z := 0x100.

Definition OPT_END : Z := 0x00.
Definition OPT_NOP : Z := 0x01.
Definition OPT_MSS : Z := 0x02.
Definition OPT_WS : Z := 0x03.
Definition OPT_SACKPERM : Z := 0x04.
Definition OPT_SACKRNG : Z := 0x05.

(** [enum TcpOption]. *)
Inductive TcpOption : Type :=
| EndOfList
| NoOperation
| MaxSegmentSize (value : Z)
| WindowScale (value : Z)
| SackPermitted
| SackRange (ranges : list (option (Z * Z)))
| Unknown (kind : Z) (data : list Z).

Section packet.
Context {BE : ByteOrder}.

(** ** Reading the fields *)

Definition get_u16 (f : nat * nat) (p : list Z) : outcome Z := d ← range f p; read_u16 d.
Definition get_i32 (f : nat * nat) (p : list Z) : outcome Z := d ← range f p; read_i32 d.

Definition src_port : list Z -> outcome Z := get_u16 SRC_PORT.
Definition dst_port : list Z -> outcome Z := get_u16 DST_PORT.
Definition seq_number : list Z -> outcome SeqNumber.t := get_i32 SEQ_NUM.
Definition ack_number : list Z -> outcome SeqNumber.t := get_i32 ACK_NUM.
Definition window_len : list Z -> outcome Z := get_u16 WIN_SIZE.
Definition checksum : list Z -> outcome Z := get_u16 CHECKSUM.
Definition urgent_at : list Z -> outcome Z := get_u16 URGENT.

(** [raw & field::FLG_... != 0]. *)
Definition flag (mask : Z) (p : list Z) : outcome bool :=
  raw ← get_u16 FLAGS p; Ret (negb (Z.land raw mask =? 0)).
Definition fin : list Z -> outcome bool := flag FLG_FIN.
Definition syn : list Z -> outcome bool := flag FLG_SYN.
Definition rst : list Z -> outcome bool := flag FLG_RST.
Definition psh : list Z -> outcome bool := flag FLG_PSH.
Definition ack : list Z -> outcome bool := flag FLG_ACK.
Definition urg : list Z -> outcome bool := flag FLG_URG.
Definition ece : list Z -> outcome bool := flag FLG_ECE.
Definition cwr : list Z -> outcome bool := flag FLG_CWR.
Definition ns : list Z -> outcome bool := flag FLG_NS.

(** [Packet::header_len]. *)
Definition header_len (p : list Z) : outcome Z :=
  raw ← get_u16 FLAGS p; Ret (wrap 8 (wrap 16 (Z.shiftr raw 12 * 4))).

(** [Packet::check_len] and [Packet::new_checked]. *)
Definition check_len (p : list Z) : res WireError unit :=
  let len := Z.of_nat (length p) in
  if len <? 20 then err Malformed
  else h ← call (header_len p);
       if (len <? h) || (h <? 20) then err Malformed else mret tt.
Definition new_checked (buffer : list Z) : res WireError (list Z) :=
  _ ← check_len buffer; mret buffer.

(** [Packet::options] and [Packet::payload]. *)
Definition options (p : list Z) : outcome (list Z) := h ← header_len p; range (OPTIONS h) p.
Definition payload (p : list Z) : outcome (list Z) := h ← header_len p; range (Z.to_nat h, length p) p.

(** [Packet::segment_len]. *)
Definition segment_len (p : list Z) : outcome Z :=
  h ← header_len p; s ← syn p; f ← fin p;
  Ret (wrap 64 (Z.of_nat (length p) - h) + Z.b2z s + Z.b2z f).

(** ** Options *)

(** The ranges of a SACK option. *)
Definition sack_range (data : list Z) (i : nat) : outcome (option (Z * Z)) :=
  let left := (i * 8)%nat in
  if (left <? length data)%nat then
    let mid := (left + 4)%nat in
    let right := (mid + 4)%nat in
    a ← range (left, mid) data; range_left ← read_u32 a;
    b ← range (mid, right) data; range_right ← read_u32 b;
    Ret (Some (range_left, range_right))
  else Ret None.

(** [TcpOption::parse]: the octets behind the option, and the option. *)
Definition parse_option (buffer : list Z) : res WireError (list Z * TcpOption) :=
  match buffer with
  | [] => err Malformed
  | kind :: rest =>
      if kind =? OPT_END then mret (rest, EndOfList)
      else if kind =? OPT_NOP then mret (rest, NoOperation)
      else match rest with
           | [] => err Malformed
           | n :: _ =>
               let length := Z.to_nat n in
               if (length <? 2)%nat || (List.length buffer <? length)%nat then err Malformed
               else
                 let data := take (length - 2) (drop 2 buffer) in
                 option ← (if kind =? OPT_MSS then
                             if n =? 4 then v ← call (read_u16 data); mret (MaxSegmentSize v) else err Malformed
                           else if kind =? OPT_WS then
                             if n =? 3 then v ← call (index data 0); mret (WindowScale v) else err Malformed
                           else if kind =? OPT_SACKPERM then
                             if n =? 2 then mret SackPermitted else err Malformed
                           else if kind =? OPT_SACKRNG then
                             if (n <? 10) || negb ((n - 2) mod 8 =? 0) then err Malformed
                             else r0 ← call (sack_range data 0); r1 ← call (sack_range data 1);
                                  r2 ← call (sack_range data 2); mret (SackRange [r0; r1; r2])
                           else mret (Unknown kind data) : res WireError TcpOption);
                 mret (drop length buffer, option)
           end
  end.

(** [TcpOption::buffer_len]. *)
Definition option_len (o : TcpOption) : nat :=
  match o with
  | EndOfList | NoOperation => 1
  | MaxSegmentSize _ => 4
  | WindowScale _ => 3
  | SackPermitted => 2
  | SackRange s => length (filter is_Some s) * 8 + 2
  | Unknown _ data => 2 + length data
  end.

(** The blocks of a SACK option, written from the octet [pos] on. *)
Fixpoint emit_blocks (pos : nat) (blocks : list (Z * Z)) (buffer : list Z) : outcome (list Z) :=
  match blocks with
  | [] => Ret buffer
  | (first, second) :: blocks' =>
      b1 ← edit (pos, length buffer) (write_u32 first) buffer;
      b2 ← edit (pos + 4, length b1)%nat (write_u32 second) b1;
      emit_blocks (pos + 8) blocks' b2
  end.

(** [TcpOption::emit]: the octets of the option, and those behind it. *)
Definition emit_option (o : TcpOption) (buffer : list Z) : outcome (list Z * list Z) :=
  let length := option_len o in
  buffer ←
    match o with
    | EndOfList => Ret (replicate (List.length buffer) OPT_END)
    | NoOperation => index_set buffer 0 OPT_NOP
    | _ =>
        b ← index_set buffer 1 (wrap 8 (Z.of_nat length));
        match o with
        | MaxSegmentSize value =>
            b ← index_set b 0 OPT_MSS; edit (2, List.length b)%nat (write_u16 value) b
        | WindowScale value => b ← index_set b 0 OPT_WS; index_set b 2 value
        | SackPermitted => index_set b 0 OPT_SACKPERM
        | SackRange slice => b ← index_set b 0 OPT_SACKRNG; emit_blocks 2 (omap id slice) b
        | Unknown kind provided =>
            b ← index_set b 0 kind;
            edit (2, List.length b)%nat
              (fun d => if (List.length d =? List.length provided)%nat then Ret provided else Panic) b
        | EndOfList | NoOperation => Panic
        end
    end;
  _ ← range (length, List.length buffer) buffer;
  Ret (take length buffer, drop length buffer).

(** [Packet::selective_ack_permitted] and [Packet::selective_ack_ranges]; the
    fuel is the number of octets of the options. *)
Fixpoint find_sack_permitted (fuel : nat) (options : list Z) : res WireError bool :=
  match fuel with
  | O => Panic
  | S fuel' =>
      match options with
      | [] => mret false
      | _ => '(next_options, option) ← parse_option options;
             match option with SackPermitted => mret true | _ => find_sack_permitted fuel' next_options end
      end
  end.
Definition selective_ack_permitted (p : list Z) : res WireError bool :=
  o ← call (options p); find_sack_permitted (S (length o)) o.

Fixpoint find_sack_ranges (fuel : nat) (options : list Z) : res WireError (list (option (Z * Z))) :=
  match fuel with
  | O => Panic
  | S fuel' =>
      match options with
      | [] => mret [None; None; None]
      | _ => '(next_options, option) ← parse_option options;
             match option with SackRange slice => mret slice | _ => find_sack_ranges fuel' next_options end
      end
  end.
Definition selective_ack_ranges (p : list Z) : res WireError (list (option (Z * Z))) :=
  o ← call (options p); find_sack_ranges (S (length o)) o.

(** ** Writing the fields *)

Definition set_u16 (f : nat * nat) (value : Z) (p : list Z) : outcome (list Z) := edit f (write_u16 value) p.
Definition set_i32 (f : nat * nat) (value : Z) (p : list Z) : outcome (list Z) := edit f (write_i32 value) p.

Definition set_src_port : Z -> list Z -> outcome (list Z) := set_u16 SRC_PORT.
Definition set_dst_port : Z -> list Z -> outcome (list Z) := set_u16 DST_PORT.
Definition set_seq_number : SeqNumber.t -> list Z -> outcome (list Z) := set_i32 SEQ_NUM.
Definition set_ack_number : SeqNumber.t -> list Z -> outcome (list Z) := set_i32 ACK_NUM.
Definition set_window_len : Z -> list Z -> outcome (list Z) := set_u16 WIN_SIZE.
Definition set_checksum : Z -> list Z -> outcome (list Z) := set_u16 CHECKSUM.
Definition set_urgent_at : Z -> list Z -> outcome (list Z) := set_u16 URGENT.

(** [Packet::clear_flags] and [Packet::set_header_len]. *)
Definition clear_flags (p : list Z) : outcome (list Z) :=
  raw ← get_u16 FLAGS p; set_u16 FLAGS (Z.land raw (bnot 16 0x0fff)) p.
Definition set_header_len (value : Z) (p : list Z) : outcome (list Z) :=
  raw ← get_u16 FLAGS p;
  set_u16 FLAGS (Z.lor (Z.land raw (bnot 16 0xf000)) (wrap 16 (Z.shiftl (value / 4) 12))) p.

(** [if value { raw | field::FLG_... } else { raw & !field::FLG_... }]. *)
Definition set_flag (mask : Z) (value : bool) (p : list Z) : outcome (list Z) :=
  raw ← get_u16 FLAGS p;
  set_u16 FLAGS (if value then Z.lor raw mask else Z.land raw (bnot 16 mask)) p.
Definition set_fin : bool -> list Z -> outcome (list Z) := set_flag FLG_FIN.
Definition set_syn : bool -> list Z -> outcome (list Z) := set_flag FLG_SYN.
Definition set_rst : bool -> list Z -> outcome (list Z) := set_flag FLG_RST.
Definition set_psh : bool -> list Z -> outcome (list Z) := set_flag FLG_PSH.
Definition set_ack : bool -> list Z -> outcome (list Z) := set_flag FLG_ACK.
Definition set_urg : bool -> list Z -> outcome (list Z) := set_flag FLG_URG.
Definition set_ece : bool -> list Z -> outcome (list Z) := set_flag FLG_ECE.
Definition set_cwr : bool -> list Z -> outcome (list Z) := set_flag FLG_CWR.
Definition set_ns : bool -> list Z -> outcome (list Z) := set_flag FLG_NS.

(** ** Checksums *)

(** The sum over the pseudo header and the segment. *)
Definition packet_sum (src_addr dst_addr : Ip.Address) (p : list Z) : outcome Z :=
  h ← Checksum.pseudo_header src_addr dst_addr Ip.TcpProtocol (wrap 32 (Z.of_nat (length p)));
  d ← Checksum.data p;
  Ret (Checksum.combine [h; d]).

(** [Packet::verify_checksum] and [Packet::fill_checksum]. *)
Definition verify_checksum (src_addr dst_addr : Ip.Address) (p : list Z) : outcome bool :=
  c ← packet_sum src_addr dst_addr p; Ret (c =? bnot 16 0).
Definition fill_checksum (src_addr dst_addr : Ip.Address) (p : list Z) : outcome (list Z) :=
  p ← set_checksum 0 p;
  c ← packet_sum src_addr dst_addr p;
  set_checksum (bnot 16 c) p.

(** ** [Repr::parse] *)

(** The options of a segment that [Repr] keeps. *)
Record Options : Type := mkOptions {
  max_seg_size : option Z; window_scale : option Z; sack_permitted : bool; sack_ranges : list (option (Z * Z))
}.
Definition no_options : Options := mkOptions None None false [None; None; None].

Definition take_option (option : TcpOption) (o : Options) : Options :=
  match option with
  | MaxSegmentSize v => mkOptions (Some v) (window_scale o) (sack_permitted o) (sack_ranges o)
  | WindowScale v => mkOptions (max_seg_size o) (Some (if 14 <? v then 14 else v)) (sack_permitted o) (sack_ranges o)
  | SackPermitted => mkOptions (max_seg_size o) (window_scale o) true (sack_ranges o)
  | SackRange s => mkOptions (max_seg_size o) (window_scale o) (sack_permitted o) s
  | EndOfList | NoOperation | Unknown _ _ => o
  end.

(** "while !options.is_empty()"; the fuel is the number of octets. *)
Fixpoint parse_options (fuel : nat) (options : list Z) (o : Options) : res WireError Options :=
  match fuel with
  | O => Panic
  | S fuel' =>
      match options with
      | [] => mret o
      | _ => '(next_options, option) ← parse_option options;
             match option with
             | EndOfList => mret o
             | _ => parse_options fuel' next_options (take_option option o)
             end
      end
  end.

(** The control flag of a segment. *)
Definition control_of (syn fin rst psh : bool) : option Tcp.Control :=
  match syn, fin, rst, psh with
  | false, false, false, false => Some Tcp.None_
  | false, false, false, true => Some Tcp.Psh
  | true, false, false, _ => Some Tcp.Syn
  | false, true, false, _ => Some Tcp.Fin
  | false, false, true, _ => Some Tcp.Rst
  | _, _, _, _ => None
  end.

(** [Repr::parse]. *)
Definition parse (src_addr dst_addr : Ip.Address) (caps : Caps.Checksum) (p : list Z) : res WireError Tcp.Repr :=
  sport ← call (src_port p);
  if sport =? 0 then err Malformed else
  dport ← call (dst_port p);
  if dport =? 0 then err Malformed else
  good ← (if Caps.rx caps then call (verify_checksum src_addr dst_addr p) else mret true);
  if negb good then err Malformed else
  s ← call (syn p); f ← call (fin p); r ← call (rst p); h ← call (psh p);
  match control_of s f r h with
  | None => err Malformed
  | Some control =>
      has_ack ← call (ack p);
      ack_number ← (if (has_ack : bool) then n ← call (ack_number p); mret (Some n) else mret None);
      opts ← call (options p);
      o ← parse_options (S (length opts)) opts no_options;
      seq ← call (seq_number p); win ← call (window_len p); data ← call (payload p);
      mret (Tcp.mkRepr sport dport control seq ack_number win (window_scale o) (max_seg_size o)
              (sack_permitted o) (sack_ranges o) data)
  end.

(** ** [Repr::emit] *)

(** One option, behind those already written. *)
Definition emit_next (o : TcpOption) (written : list Z * list Z) : outcome (list Z * list Z) :=
  '(d, rest) ← emit_option o (snd written); Ret (fst written ++ d, rest).

(** The options of a segment, over the octets [buffer]. *)
Definition emit_options (repr : Tcp.Repr) (buffer : list Z) : outcome (list Z) :=
  w ← Ret ([], buffer);
  w ← match Tcp.max_seg_size repr with Some v => emit_next (MaxSegmentSize v) w | None => Ret w end;
  w ← match Tcp.window_scale repr with Some v => emit_next (WindowScale v) w | None => Ret w end;
  w ← (if Tcp.sack_permitted repr then emit_next SackPermitted w
       else if bool_decide (is_Some (Tcp.ack_number repr)) && existsb (fun s => bool_decide (is_Some s)) (Tcp.sack_ranges repr)
       then emit_next (SackRange (Tcp.sack_ranges repr)) w
       else Ret w);
  w ← match snd w with [] => Ret w | _ => emit_next EndOfList w end;
  Ret (fst w ++ snd w).

(** [Repr::emit]. *)
Definition emit (repr : Tcp.Repr) (src_addr dst_addr : Ip.Address) (caps : Caps.Checksum) (p : list Z) : outcome (list Z) :=
  p ← set_src_port (Tcp.src_port repr) p;
  p ← set_dst_port (Tcp.dst_port repr) p;
  p ← set_seq_number (Tcp.seq_number repr) p;
  p ← set_ack_number (default 0 (Tcp.ack_number repr)) p;
  p ← set_window_len (Tcp.window_len repr) p;
  p ← set_header_len (wrap 8 (Tcp.header_len repr)) p;
  p ← clear_flags p;
  p ← match Tcp.control repr with
      | Tcp.None_ => Ret p
      | Tcp.Psh => set_psh true p
      | Tcp.Syn => set_syn true p
      | Tcp.Fin => set_fin true p
      | Tcp.Rst => set_rst true p
      end;
  p ← set_ack (bool_decide (is_Some (Tcp.ack_number repr))) p;
  h ← header_len p;
  p ← edit (OPTIONS h) (emit_options repr) p;
  p ← set_urgent_at 0 p;
  h ← header_len p;
  p ← edit (Z.to_nat h, length p) (fun d =>
        edit (0, length (Tcp.payload repr))%nat (fun _ => Ret (Tcp.payload repr)) d) p;
  if Caps.tx caps then fill_checksum src_addr dst_addr p else set_checksum 0 p.

End packet.
End TcpPacket.
