(* ===== verification/TcpPacketLaws.v ===== *)
(** * What TCP segments on the wire promise

    A segment that is written into a buffer is read back as it was, whatever the
    buffer held before; any octets that pass [new_checked] are parsed without a
    panic, into a segment the socket can take; and a checksum notices a change of
    a single octet. *)

From S2P Require Import Prelude TcpWire Wire TcpPacket Assembler RingBuffer TcpState TcpSocket TcpProcess TcpLogic TcpInv.
Import ChecksumLaws TcpPacket TcpLogic TcpInv.

Local Open Scope Z_scope.

Module TcpPacketLaws.

(** ** The fixed header *)

Record hdr : Type := mkHdr {
  h_src : Z; h_dst : Z; h_seq : Z; h_ack : Z; h_flags : Z; h_win : Z; h_sum : Z; h_urg : Z
}.
Record hdr_ok (h : hdr) : Prop := mkHdrOk {
  ho_src : 0 <= h_src h < 2 ^ 16; ho_dst : 0 <= h_dst h < 2 ^ 16; ho_seq : is_seq (h_seq h); ho_ack : is_seq (h_ack h);
  ho_flags : 0 <= h_flags h < 2 ^ 16; ho_win : 0 <= h_win h < 2 ^ 16; ho_sum : 0 <= h_sum h < 2 ^ 16;
  ho_urg : 0 <= h_urg h < 2 ^ 16
}.

Definition u16_octets (n : Z) : list Z := [n / 256; n mod 256].
Definition i32_octets (n : Z) : list Z := [n mod 2 ^ 32 / 2 ^ 24; n / 2 ^ 16 mod 256; n / 256 mod 256; n mod 256].
Definition put (h : hdr) : list Z :=
  u16_octets (h_src h) ++ u16_octets (h_dst h) ++ i32_octets (h_seq h) ++ i32_octets (h_ack h) ++
  u16_octets (h_flags h) ++ u16_octets (h_win h) ++ u16_octets (h_sum h) ++ u16_octets (h_urg h).

Lemma octets_u16 n : 0 <= n < 2 ^ 16 -> octets (u16_octets n).
Proof. intros Hn. repeat constructor; dlia. Qed.
Lemma octets_i32 n : octets (i32_octets n).
Proof. repeat constructor; dlia. Qed.

Lemma split_u16 l :
  octets l -> (2 <= length l)%nat ->
  exists n l', 0 <= n < 2 ^ 16 /\ l = u16_octets n ++ l' /\ octets l' /\ length l = (2 + length l')%nat.
Proof.
  intros Ho Hl. destruct l as [|a [|b l]]; cbn in Hl; try lia.
  apply Forall_cons in Ho as [Ha [Hb Ho]%Forall_cons]. exists (a * 256 + b), l. split; [lia|]. split; [|done].
  unfold u16_octets. cbn [app]. f_equal; [dlia|f_equal; dlia].
Qed.

Lemma split_i32 l :
  octets l -> (4 <= length l)%nat ->
  exists n l', is_seq n /\ l = i32_octets n ++ l' /\ octets l' /\ length l = (4 + length l')%nat.
Proof.
  intros Ho Hl. destruct l as [|a [|b [|c [|d l]]]]; cbn in Hl; try lia.
  apply Forall_cons in Ho as [Ha [Hb [Hc [Hd Ho]%Forall_cons]%Forall_cons]%Forall_cons].
  exists (i32 (((a * 256 + b) * 256 + c) * 256 + d)), l. unfold is_seq, i32, signed. split; [dlia|]. split; [|done].
  unfold i32_octets. cbn [app]. f_equal; [dlia|f_equal; [dlia|f_equal; [dlia|f_equal; dlia]]].
Qed.

Lemma header_split p :
  octets p -> (20 <= length p)%nat -> exists h l, hdr_ok h /\ p = put h ++ l /\ octets l /\ length p = (20 + length l)%nat.
Proof.
  intros Ho Hl.
  destruct (split_u16 p Ho ltac:(lia)) as (n1 & l1 & H1 & -> & Ho1 & E1).
  destruct (split_u16 l1 Ho1 ltac:(lia)) as (n2 & l2 & H2 & -> & Ho2 & E2).
  destruct (split_i32 l2 Ho2 ltac:(lia)) as (n3 & l3 & H3 & -> & Ho3 & E3).
  destruct (split_i32 l3 Ho3 ltac:(lia)) as (n4 & l4 & H4 & -> & Ho4 & E4).
  destruct (split_u16 l4 Ho4 ltac:(lia)) as (n5 & l5 & H5 & -> & Ho5 & E5).
  destruct (split_u16 l5 Ho5 ltac:(lia)) as (n6 & l6 & H6 & -> & Ho6 & E6).
  destruct (split_u16 l6 Ho6 ltac:(lia)) as (n7 & l7 & H7 & -> & Ho7 & E7).
  destruct (split_u16 l7 Ho7 ltac:(lia)) as (n8 & l8 & H8 & -> & Ho8 & E8).
  exists (mkHdr n1 n2 n3 n4 n5 n6 n7 n8), l8. unfold put. rewrite <-!app_assoc. split; [done|]. split; [done|]. split; [done|lia].
Qed.

Lemma octets_put h : hdr_ok h -> octets (put h).
Proof. intros []. unfold put, octets. rewrite !Forall_app. split_and!; by (apply octets_i32 || apply octets_u16). Qed.

(** ** Fields of the header *)

(** A header with one field changed. *)
Definition with_src (v : Z) (h : hdr) : hdr :=
  mkHdr v (h_dst h) (h_seq h) (h_ack h) (h_flags h) (h_win h) (h_sum h) (h_urg h).
Definition with_dst (v : Z) (h : hdr) : hdr :=
  mkHdr (h_src h) v (h_seq h) (h_ack h) (h_flags h) (h_win h) (h_sum h) (h_urg h).
Definition with_seq (v : Z) (h : hdr) : hdr :=
  mkHdr (h_src h) (h_dst h) v (h_ack h) (h_flags h) (h_win h) (h_sum h) (h_urg h).
Definition with_ack (v : Z) (h : hdr) : hdr :=
  mkHdr (h_src h) (h_dst h) (h_seq h) v (h_flags h) (h_win h) (h_sum h) (h_urg h).
Definition with_flags (v : Z) (h : hdr) : hdr :=
  mkHdr (h_src h) (h_dst h) (h_seq h) (h_ack h) v (h_win h) (h_sum h) (h_urg h).
Definition with_win (v : Z) (h : hdr) : hdr :=
  mkHdr (h_src h) (h_dst h) (h_seq h) (h_ack h) (h_flags h) v (h_sum h) (h_urg h).
Definition with_sum (v : Z) (h : hdr) : hdr :=
  mkHdr (h_src h) (h_dst h) (h_seq h) (h_ack h) (h_flags h) (h_win h) v (h_urg h).
Definition with_urg (v : Z) (h : hdr) : hdr :=
  mkHdr (h_src h) (h_dst h) (h_seq h) (h_ack h) (h_flags h) (h_win h) (h_sum h) v.

Section fields.
Context {BE : ByteOrder} {HBE : ByteOrderLaws BE}.

Lemma read_u16_octets n l : 0 <= n < 2 ^ 16 -> read_u16 (u16_octets n ++ l) = Ret n.
Proof. intros Hn. unfold u16_octets. cbn [app]. rewrite read_u16_be by dlia. f_equal. dlia. Qed.

Lemma read_i32_octets n l : is_seq n -> read_i32 (i32_octets n ++ l) = Ret n.
Proof.
  intros Hn. unfold i32_octets, is_seq in *. cbn [app]. rewrite read_i32_be by dlia. f_equal. unfold i32, signed. dlia.
Qed.

Lemma write_u16_octets n m l : 0 <= n < 2 ^ 16 -> write_u16 n (u16_octets m ++ l) = Ret (u16_octets n ++ l).
Proof. intros Hn. unfold u16_octets. cbn [app]. by rewrite write_u16_be. Qed.

Lemma write_i32_octets n m l : is_seq n -> write_i32 n (i32_octets m ++ l) = Ret (i32_octets n ++ l).
Proof. intros Hn. unfold i32_octets, is_seq in *. cbn [app]. by rewrite write_i32_be. Qed.

(** Reading and writing a part of a list. *)
Lemma range_app {A} (pre d post : list A) a b :
  length pre = a -> (length pre + length d)%nat = b -> range (a, b) (pre ++ d ++ post) = Ret d.
Proof.
  intros <- <-. unfold range. cbn [fst snd]. rewrite !length_app, (proj2 (Nat.leb_le _ _)), (proj2 (Nat.leb_le _ _)) by lia.
  cbn [andb]. f_equal. rewrite drop_app_length. replace (length pre + length d - length pre)%nat with (length d) by lia.
  apply take_app_length.
Qed.

Lemma edit_app {A} (pre d d' post : list A) a b f :
  length pre = a -> (length pre + length d)%nat = b -> f d = Ret d' -> edit (a, b) f (pre ++ d ++ post) = Ret (pre ++ d' ++ post).
Proof.
  intros Ha Hb Hf. unfold edit. rewrite (range_app pre d post a b Ha Hb). rbind. rewrite Hf. rbind. cbn [fst snd]. subst a b.
  rewrite take_app_length. do 3 f_equal. rewrite app_assoc, <-length_app. apply drop_app_length.
Qed.

(** Each field, read from and written to a packet. *)
Ltac get_field :=
  intros []; unfold get_u16, get_i32, range, put, u16_octets, i32_octets;
  cbn [app fst snd Nat.leb length andb Nat.sub drop take SRC_PORT DST_PORT SEQ_NUM ACK_NUM FLAGS WIN_SIZE CHECKSUM URGENT];
  rbind; first [by apply (read_u16_octets _ [])|by apply (read_i32_octets _ [])].
Ltac set_field :=
  intros ?; unfold set_u16, set_i32, edit, range, put, u16_octets, i32_octets, is_seq in *;
  cbn [app fst snd Nat.leb length andb Nat.sub drop take SRC_PORT DST_PORT SEQ_NUM ACK_NUM FLAGS WIN_SIZE CHECKSUM URGENT];
  rbind; rewrite ?write_u16_be, ?write_i32_be by done; reflexivity.

Lemma get_src h l : hdr_ok h -> get_u16 SRC_PORT (put h ++ l) = Ret (h_src h).
Proof. get_field. Qed.
Lemma get_dst h l : hdr_ok h -> get_u16 DST_PORT (put h ++ l) = Ret (h_dst h).
Proof. get_field. Qed.
Lemma get_seq h l : hdr_ok h -> get_i32 SEQ_NUM (put h ++ l) = Ret (h_seq h).
Proof. get_field. Qed.
Lemma get_ack h l : hdr_ok h -> get_i32 ACK_NUM (put h ++ l) = Ret (h_ack h).
Proof. get_field. Qed.
Lemma get_flags h l : hdr_ok h -> get_u16 FLAGS (put h ++ l) = Ret (h_flags h).
Proof. get_field. Qed.
Lemma get_win h l : hdr_ok h -> get_u16 WIN_SIZE (put h ++ l) = Ret (h_win h).
Proof. get_field. Qed.
Lemma put_src v h l : 0 <= v < 2 ^ 16 -> set_u16 SRC_PORT v (put h ++ l) = Ret (put (with_src v h) ++ l).
Proof. set_field. Qed.
Lemma put_dst v h l : 0 <= v < 2 ^ 16 -> set_u16 DST_PORT v (put h ++ l) = Ret (put (with_dst v h) ++ l).
Proof. set_field. Qed.
Lemma put_seq v h l : is_seq v -> set_i32 SEQ_NUM v (put h ++ l) = Ret (put (with_seq v h) ++ l).
Proof. set_field. Qed.
Lemma put_ack v h l : is_seq v -> set_i32 ACK_NUM v (put h ++ l) = Ret (put (with_ack v h) ++ l).
Proof. set_field. Qed.
Lemma put_flags v h l : 0 <= v < 2 ^ 16 -> set_u16 FLAGS v (put h ++ l) = Ret (put (with_flags v h) ++ l).
Proof. set_field. Qed.
Lemma put_win v h l : 0 <= v < 2 ^ 16 -> set_u16 WIN_SIZE v (put h ++ l) = Ret (put (with_win v h) ++ l).
Proof. set_field. Qed.
Lemma put_sum v h l : 0 <= v < 2 ^ 16 -> set_u16 CHECKSUM v (put h ++ l) = Ret (put (with_sum v h) ++ l).
Proof. set_field. Qed.
Lemma put_urg v h l : 0 <= v < 2 ^ 16 -> set_u16 URGENT v (put h ++ l) = Ret (put (with_urg v h) ++ l).
Proof. set_field. Qed.

End fields.

(** ** Options *)

Definition u32_octets (n : Z) : list Z := [n / 2 ^ 24; n / 2 ^ 16 mod 256; n / 256 mod 256; n mod 256].
Definition block_octets (b : Z * Z) : list Z := u32_octets b.1 ++ u32_octets b.2.
Definition option_octets (o : TcpOption) : list Z :=
  match o with
  | EndOfList => [0]
  | NoOperation => [1]
  | MaxSegmentSize v => [2; 4] ++ u16_octets v
  | WindowScale v => [3; 3; v]
  | SackPermitted => [4; 2]
  | SackRange s => [5; Z.of_nat (option_len o)] ++ concat (block_octets <$> omap id s)
  | Unknown kind data => [kind; Z.of_nat (option_len o)] ++ data
  end.

(** The ranges of an option that [emit] can write: one to three, the first ones. *)
Definition is_u32 (z : Z) : Prop := 0 <= z < 2 ^ 32.
Definition ranges_ok (s : list (option (Z * Z))) : Prop :=
  exists blocks, s = (Some <$> blocks) ++ replicate (3 - length blocks) None /\ (length blocks <= 3)%nat /\
    Forall (fun b => is_u32 b.1 /\ is_u32 b.2) blocks.
Definition option_ok (o : TcpOption) : Prop :=
  match o with
  | MaxSegmentSize v => 0 <= v < 2 ^ 16
  | WindowScale v => octet v
  | SackPermitted => True
  | SackRange s => ranges_ok s /\ omap id s <> []
  | _ => False
  end.

Section options.
Context {BE : ByteOrder} {HBE : ByteOrderLaws BE}.

Lemma index_set_at {A} (pre l : list A) x v i : length pre = i -> index_set (pre ++ x :: l) i v = Ret (pre ++ v :: l).
Proof.
  intros <-. rewrite index_set_lt by (rewrite length_app; cbn; lia). f_equal. by rewrite insert_app_r_alt, Nat.sub_diag by lia.
Qed.

Lemma write_u32_octets n l : is_u32 n -> (4 <= length l)%nat -> write_u32 n l = Ret (u32_octets n ++ drop 4 l).
Proof.
  intros Hn Hl. destruct l as [|a [|b [|c [|d l]]]]; cbn in Hl; try lia. by rewrite write_u32_be.
Qed.

Lemma read_u32_octets n l : is_u32 n -> read_u32 (u32_octets n ++ l) = Ret n.
Proof. intros Hn. unfold u32_octets, is_u32 in *. cbn [app]. rewrite read_u32_be by dlia. f_equal. dlia. Qed.

Lemma range_tail {A} (pre d : list A) a n : length pre = a -> n = length (pre ++ d) -> range (a, n) (pre ++ d) = Ret d.
Proof.
  intros Ha ->. rewrite <-(app_nil_r d) at 2. by rewrite (range_app pre d []) by (done || by rewrite length_app).
Qed.

Lemma edit_tail {A} (pre d d' : list A) f a n :
  length pre = a -> n = length (pre ++ d) -> f d = Ret d' -> edit (a, n) f (pre ++ d) = Ret (pre ++ d').
Proof.
  intros Ha -> Hf. rewrite <-(app_nil_r d) at 2. rewrite (edit_app pre d d' []) by (done || by rewrite length_app).
  by rewrite app_nil_r.
Qed.

Lemma emit_blocks_spec blocks : forall pre d,
  Forall (fun b => is_u32 b.1 /\ is_u32 b.2) blocks -> (8 * length blocks <= length d)%nat ->
  emit_blocks (length pre) blocks (pre ++ d) = Ret (pre ++ concat (block_octets <$> blocks) ++ drop (8 * length blocks) d).
Proof.
  induction blocks as [|[x y] blocks IH]; intros pre d Hb Hl; [done|].
  apply Forall_cons in Hb as [[Hx Hy] Hb]. cbn [emit_blocks fst snd length] in *.
  rewrite (edit_tail pre d (u32_octets x ++ drop 4 d)) by (done || apply write_u32_octets; done || lia). rbind.
  rewrite app_assoc, (edit_tail (pre ++ u32_octets x) (drop 4 d) (u32_octets y ++ drop 8 d)).
  2: by rewrite length_app. 2: done.
  2: { rewrite write_u32_octets by (done || rewrite length_drop; lia). by rewrite drop_drop. }
  rbind. rewrite !app_assoc. replace (length pre + 8)%nat with (length ((pre ++ u32_octets x) ++ u32_octets y)) by (by rewrite !length_app, <-Nat.add_assoc).
  rewrite IH by (done || rewrite length_drop; lia). f_equal. cbn [fmap list_fmap concat]. unfold block_octets. cbn [fst snd].
  rewrite <-!app_assoc, drop_drop. do 5 f_equal. lia.
Qed.

Lemma omap_blocks (blocks : list (Z * Z)) k :
  omap id ((Some <$> blocks) ++ replicate k None) = blocks /\
  length (filter is_Some ((Some <$> blocks) ++ replicate k None)) = length blocks.
Proof.
  assert (Hn : omap id (replicate k None) = [] :> list (Z * Z) /\ filter is_Some (replicate k (None : option (Z * Z))) = []).
  { induction k as [|k [IH1 IH2]]; [done|]. cbn [replicate]. split; [done|].
    rewrite filter_cons_False by (by intros [? ?]). done. }
  destruct Hn as [Hn1 Hn2]. induction blocks as [|x blocks [IH1 IH2]]; [split; [exact Hn1|cbn [fmap list_fmap app]; by rewrite Hn2]|].
  cbn [fmap list_fmap app]. split; [cbn; by rewrite IH1|]. rewrite filter_cons_True by done. cbn [length]. by rewrite IH2.
Qed.

Lemma split_written (d rest : list Z) n :
  length d = n ->
  (_ ← range (n, length (d ++ rest)) (d ++ rest); Ret (take n (d ++ rest), drop n (d ++ rest))) = Ret (d, rest).
Proof.
  intros <-. rewrite <-(app_nil_r rest) at 2. rewrite (range_app d rest []) by (done || by rewrite length_app). rbind.
  by rewrite take_app_length, drop_app_length.
Qed.

Lemma length_block b : length (block_octets b) = 8%nat.
Proof. done. Qed.

Lemma length_sack_blocks blocks : length (concat (block_octets <$> blocks)) = (8 * length blocks)%nat.
Proof. induction blocks as [|b blocks IH]; [done|]. cbn [fmap list_fmap concat]. rewrite length_app, IH, length_block. cbn. lia. Qed.

Lemma length_option o : option_ok o -> length (option_octets o) = option_len o.
Proof.
  destruct o as [| |v|v| |s|]; try done. intros [(blocks & -> & _ & _) _]. cbn [option_octets option_len].
  destruct (omap_blocks blocks (3 - length blocks)) as [-> ->]. cbn [app length]. rewrite length_sack_blocks. lia.
Qed.

Lemma emit_option_spec o buffer :
  option_ok o -> (option_len o <= length buffer)%nat ->
  emit_option o buffer = Ret (option_octets o, drop (option_len o) buffer).
Proof.
  intros Ho Hl. pose proof (length_option o Ho) as Hlen. unfold emit_option.
  destruct buffer as [|b0 [|b1 buffer]];
    [destruct o as [| | | | |s|]; cbn [option_len length] in Hl; done || lia..|].
  pose proof (fun v => index_set_at [b0] buffer b1 v 1 eq_refl : index_set (b0 :: b1 :: buffer) 1 v = Ret (b0 :: v :: buffer)) as H1.
  pose proof (fun l v => index_set_at [] l b0 v 0 eq_refl : index_set (b0 :: l) 0 v = Ret (v :: l)) as H0.
  destruct o as [| |v|v| |s|]; try done.
  - destruct buffer as [|b2 [|b3 buffer]]; [cbn in Hl; lia..|]. rewrite H1. rbind.
    rewrite H0. rbind.
    rewrite (edit_tail [OPT_MSS; 4] (b2 :: b3 :: buffer) (u16_octets v ++ buffer)) by (done || by apply write_u16_be).
    rbind. by apply (split_written (option_octets (MaxSegmentSize v)) buffer).
  - destruct buffer as [|b2 buffer]; [cbn in Hl; lia..|]. rewrite H1. rbind.
    rewrite H0. rbind.
    change (wrap 8 _) with 3.
    pose proof (index_set_at [OPT_WS; 3] buffer b2 v 2 eq_refl) as H2. cbn [app] in H2. rewrite H2. rbind.
    by apply (split_written (option_octets (WindowScale v)) buffer).
  - rewrite H1. rbind. rewrite H0. rbind.
    by apply (split_written (option_octets SackPermitted) buffer).
  - rewrite H1. rbind. rewrite H0. rbind.
    destruct Ho as [(blocks & -> & Hb3 & Hb) _]. destruct (omap_blocks blocks (3 - length blocks)) as [He Hf].
    cbn [option_len option_octets] in *. rewrite Hf, He in *.
    rewrite wrap_id by (unfold is_uint; lia).
    pose proof (emit_blocks_spec blocks [OPT_SACKRNG; Z.of_nat (length blocks * 8 + 2)] buffer Hb ltac:(cbn in Hl; lia)) as Hem.
    cbn [app length] in Hem. rewrite Hem. rbind. clear Hem.
    replace (drop (length blocks * 8 + 2) (b0 :: b1 :: buffer)) with (drop (8 * length blocks) buffer)
      by (replace (length blocks * 8 + 2)%nat with (S (S (8 * length blocks))) by lia; done).
    exact (split_written _ (drop (8 * length blocks) buffer) _ Hlen).
Qed.

(** The blocks of an option, read back. *)
Lemma sack_range_at pre b post i :
  is_u32 b.1 -> is_u32 b.2 -> length pre = (8 * i)%nat -> sack_range (pre ++ block_octets b ++ post) i = Ret (Some b).
Proof.
  intros Hx Hy Hp. destruct b as [x y]. unfold sack_range, block_octets. cbv zeta. cbn [fst snd] in *. rewrite <-!app_assoc.
  rewrite (proj2 (Nat.ltb_lt _ _)) by (rewrite !length_app; cbn; lia).
  rewrite (range_app pre (u32_octets x) _ (i * 8) (i * 8 + 4)) by (rewrite ?Hp; cbn [length u32_octets]; lia). rbind.
  rewrite <-(app_nil_r (u32_octets x)) at 1. rewrite read_u32_octets by done. rbind. rewrite app_assoc.
  rewrite (range_app (pre ++ u32_octets x) (u32_octets y)) by (rewrite ?length_app, Hp; cbn [length u32_octets]; lia). rbind.
  rewrite <-(app_nil_r (u32_octets y)), read_u32_octets by done. done.
Qed.

Lemma sack_range_none data i : (length data <= 8 * i)%nat -> sack_range data i = Ret None.
Proof. intros H. unfold sack_range. by rewrite (proj2 (Nat.ltb_ge _ _)) by lia. Qed.

Lemma parse_sack_range blocks :
  blocks <> [] -> (length blocks <= 3)%nat -> Forall (fun b => is_u32 b.1 /\ is_u32 b.2) blocks ->
  let data := concat (block_octets <$> blocks) in
  exists r0 r1 r2, sack_range data 0 = Ret r0 /\ sack_range data 1 = Ret r1 /\ sack_range data 2 = Ret r2 /\
    [r0; r1; r2] = (Some <$> blocks) ++ replicate (3 - length blocks) None.
Proof.
  intros Hn Hl Hb data. destruct blocks as [|b0 [|b1 [|b2 [|]]]]; try done; [| | |cbn in Hl; lia];
    repeat (apply Forall_cons in Hb as [[? ?] Hb]); exists (Some b0); eexists _, _;
    (split; [by apply (sack_range_at [])|]).
  - split; [apply sack_range_none; unfold data; cbn; lia|]. split; [apply sack_range_none; unfold data; cbn; lia|]. done.
  - split; [by apply (sack_range_at (block_octets b0))|]. split; [apply sack_range_none; unfold data; cbn; lia|]. done.
  - split; [by apply (sack_range_at (block_octets b0))|].
    split; [by apply (sack_range_at (block_octets b0 ++ block_octets b1))|]. done.
Qed.

Lemma parse_option_spec o rest : option_ok o -> parse_option (option_octets o ++ rest) = Ret (Ok (rest, o)).
Proof.
  destruct o as [| |v|v| |s|]; try done; cbn [option_ok]; intros Ho.
  - cbn. change (Z.to_nat 4) with 4%nat. cbn. rewrite read_u16_be by dlia. cbn. by replace (v / 256 * 256 + v mod 256) with v by dlia.
  - destruct Ho as [(blocks & -> & Hb3 & Hb) Hne]. destruct (omap_blocks blocks (3 - length blocks)) as [He Hf].
    rewrite He in Hne. cbn [option_octets option_len]. rewrite Hf, He.
    destruct (parse_sack_range blocks Hne Hb3 Hb) as (r0 & r1 & r2 & H0 & H1 & H2 & <-).
    pose proof (length_sack_blocks blocks) as Hlb.
    assert (Hpos : (1 <= length blocks)%nat) by (destruct blocks; [done|cbn; lia]).
    cbn [app]. unfold parse_option. change (5 =? OPT_END) with false. change (5 =? OPT_NOP) with false. cbn iota.
    rewrite Nat2Z.id. cbn [length]. rewrite length_app, Hlb.
    rewrite (proj2 (Nat.ltb_ge (length blocks * 8 + 2) 2)), (proj2 (Nat.ltb_ge _ (length blocks * 8 + 2))) by lia.
    cbn [orb]. change (drop 2 (5 :: ?n :: ?l)) with l.
    replace (length blocks * 8 + 2 - 2)%nat with (length (concat (block_octets <$> blocks))) by lia.
    rewrite take_app_length.
    change (5 =? OPT_MSS) with false. change (5 =? OPT_WS) with false. change (5 =? OPT_SACKPERM) with false.
    change (5 =? OPT_SACKRNG) with true. cbn iota.
    rewrite (proj2 (Z.ltb_ge _ 10)) by lia. rewrite (proj2 (Z.eqb_eq _ 0)) by dlia. cbn [negb orb].
    rewrite H0, H1, H2. cbn [call mbind res_bind mret res_ret].
    replace (length blocks * 8 + 2)%nat with (S (S (length (concat (block_octets <$> blocks))))) by lia.
    change (drop (S (S ?k)) (5 :: ?n :: ?l)) with (drop k l). by rewrite drop_app_length.
Qed.


End options.

(** ** The options of a segment *)

(** A segment that can be written: the fields fit, and there are ranges only in an
    acknowledgement that does not offer them. *)
Record wire_ok (r : Tcp.Repr) : Prop := mkWireOk {
  wo_src : 0 < Tcp.src_port r < 2 ^ 16;
  wo_dst : 0 < Tcp.dst_port r < 2 ^ 16;
  wo_seq : is_seq (Tcp.seq_number r);
  wo_ack : forall a, Tcp.ack_number r = Some a -> is_seq a;
  wo_win : 0 <= Tcp.window_len r < 2 ^ 16;
  wo_mss : forall v, Tcp.max_seg_size r = Some v -> 0 <= v < 2 ^ 16;
  wo_scale : forall v, Tcp.window_scale r = Some v -> 0 <= v <= 14;
  wo_ranges : ranges_ok (Tcp.sack_ranges r);
  wo_sack : Tcp.sack_permitted r = true \/ Tcp.ack_number r = None -> Tcp.sack_ranges r = [None; None; None];
  wo_payload : octets (Tcp.payload r) /\ Z.of_nat (length (Tcp.payload r)) < 2 ^ 16
}.

Definition mss_opt (r : Tcp.Repr) : list TcpOption := MaxSegmentSize <$> option_list (Tcp.max_seg_size r).
Definition scale_opt (r : Tcp.Repr) : list TcpOption := WindowScale <$> option_list (Tcp.window_scale r).
Definition sack_opt (r : Tcp.Repr) : list TcpOption :=
  if Tcp.sack_permitted r then [SackPermitted]
  else match omap id (Tcp.sack_ranges r) with [] => [] | _ => [SackRange (Tcp.sack_ranges r)] end.
Definition opts_of (r : Tcp.Repr) : list TcpOption := mss_opt r ++ scale_opt r ++ sack_opt r.
Definition opts_len (os : list TcpOption) : nat := sum_list_with option_len os.

Lemma opts_ok r : wire_ok r -> Forall option_ok (opts_of r).
Proof.
  intros []. unfold opts_of, mss_opt, scale_opt, sack_opt. rewrite !Forall_app. split_and!.
  - destruct (Tcp.max_seg_size r); [constructor; [by apply wo_mss0|done]|constructor].
  - destruct (Tcp.window_scale r) as [v|]; [|constructor]. pose proof (wo_scale0 v eq_refl). constructor; [cbn; lia|done].
  - destruct (Tcp.sack_permitted r); [by repeat constructor|].
    destruct (omap id (Tcp.sack_ranges r)) eqn:He; [constructor|]. constructor; [|done]. split; [done|]. by rewrite He.
Qed.

(** Some range is there exactly if one is written. *)
Lemma any_range (s : list (option (Z * Z))) :
  existsb (fun x => bool_decide (is_Some x)) s = match omap id s with [] => false | _ => true end.
Proof.
  induction s as [|[b|] s IH]; [done|done|]. cbn [existsb]. rewrite bool_decide_false by (by intros [? ?]). exact IH.
Qed.

Lemma header_len_opts r :
  wire_ok r -> exists pad q, Tcp.header_len r = 20 + Z.of_nat (opts_len (opts_of r) + pad) /\
    Tcp.header_len r = 4 * q /\ 5 <= q <= 14.
Proof.
  intros []. exists (Z.to_nat (Tcp.header_len r - 20) - opts_len (opts_of r))%nat, (Tcp.header_len r / 4).
  destruct wo_ranges0 as (blocks & Hs & Hb3 & Hb).
  assert (Hsp : Tcp.sack_permitted r = true -> blocks = []).
  { intros Hp. rewrite wo_sack0 in Hs by by left. destruct blocks; [done|]. by injection Hs. }
  unfold Tcp.header_len, opts_of, mss_opt, scale_opt, sack_opt. rewrite Hs. clear -Hb3 Hsp.
  destruct (Tcp.sack_permitted r); [rewrite (Hsp eq_refl)|clear Hsp; destruct blocks as [|b0 [|b1 [|b2 [|]]]]; [..|cbn in Hb3; lia]];
    destruct (Tcp.max_seg_size r), (Tcp.window_scale r); (split; [reflexivity|]; split; [reflexivity|done]).
Qed.


Section segment.
Context {BE : ByteOrder} {HBE : ByteOrderLaws BE}.

Definition opts_octets (os : list TcpOption) : list Z := concat (option_octets <$> os).

Lemma length_opts os : Forall option_ok os -> length (opts_octets os) = opts_len os.
Proof.
  induction 1 as [|o os Ho _ IH]; [done|]. unfold opts_octets, opts_len in *. cbn [fmap list_fmap concat sum_list_with].
  by rewrite length_app, IH, length_option.
Qed.

Lemma opts_octets_app os os' : opts_octets (os ++ os') = opts_octets os ++ opts_octets os'.
Proof. unfold opts_octets. by rewrite fmap_app, concat_app. Qed.

Lemma emit_next_spec o os w :
  option_ok o -> (option_len o <= length (snd w))%nat -> fst w = opts_octets os ->
  emit_next o w = Ret (opts_octets (os ++ [o]), drop (option_len o) (snd w)).
Proof.
  intros Ho Hl Hw. unfold emit_next. rewrite emit_option_spec by done. rbind.
  rewrite opts_octets_app, Hw. replace (opts_octets [o]) with (option_octets o); [done|]. symmetry. apply app_nil_r.
Qed.

(** Options that may be there, one after the other. *)
Lemma emit_some_spec os (o : list TcpOption) (m : list Z * list Z -> outcome (list Z * list Z)) w :
  Forall option_ok o -> (length o <= 1)%nat ->
  m w = match o with [] => Ret w | x :: _ => emit_next x w end ->
  (opts_len o <= length (snd w))%nat -> fst w = opts_octets os ->
  m w = Ret (opts_octets (os ++ o), drop (opts_len o) (snd w)).
Proof.
  intros Ho Hl1 -> Hl Hw. destruct o as [|x [|]]; [|apply Forall_cons in Ho as [Ho _]|cbn in Hl1; lia].
  - rewrite app_nil_r, <-Hw. by destruct w.
  - unfold opts_len in *. cbn [sum_list_with] in *. rewrite Nat.add_0_r in *. by apply emit_next_spec.
Qed.

Lemma emit_sack_opt r w :
  wire_ok r ->
  (if Tcp.sack_permitted r then emit_next SackPermitted w
   else if bool_decide (is_Some (Tcp.ack_number r)) && existsb (fun s => bool_decide (is_Some s)) (Tcp.sack_ranges r)
   then emit_next (SackRange (Tcp.sack_ranges r)) w else Ret w)
  = match sack_opt r with [] => Ret w | x :: _ => emit_next x w end.
Proof.
  intros Hr. unfold sack_opt. destruct (Tcp.sack_permitted r); [done|]. rewrite any_range.
  destruct (Tcp.ack_number r) eqn:Ha; [rewrite bool_decide_true by done|rewrite (wo_sack r Hr) by auto; done].
  by destruct (omap id (Tcp.sack_ranges r)).
Qed.

Lemma emit_end w :
  (w' ← match snd w with [] => Ret w | _ => emit_next EndOfList w end; Ret (fst w' ++ snd w'))
  = Ret (fst w ++ replicate (length (snd w)) 0).
Proof.
  destruct w as [d [|x rest]]; [done|]. cbn [fst snd]. unfold emit_next, emit_option. cbn [snd option_len]. rbind.
  rewrite length_replicate. cbn [length]. unfold range. cbn [fst snd]. rewrite length_replicate. cbn [Nat.leb andb].
  rewrite Nat.leb_refl. rbind. cbn [fst snd]. by rewrite <-app_assoc, take_drop.
Qed.

Lemma emit_options_spec r buffer :
  wire_ok r -> (opts_len (opts_of r) <= length buffer)%nat ->
  emit_options r buffer = Ret (opts_octets (opts_of r) ++ replicate (length buffer - opts_len (opts_of r)) 0).
Proof.
  intros Hr Hl. pose proof (opts_ok r Hr) as Hok. unfold opts_of in *.
  apply Forall_app in Hok as [H1 [H2 H3]%Forall_app]. unfold opts_len in *. rewrite !sum_list_with_app in *.
  change (sum_list_with option_len) with opts_len in *. unfold emit_options. rbind.
  rewrite (emit_some_spec [] (mss_opt r) (fun w => match Tcp.max_seg_size r with Some v => emit_next (MaxSegmentSize v) w | None => Ret w end));
    [|done|unfold mss_opt; destruct (Tcp.max_seg_size r); cbn; lia|by unfold mss_opt; destruct (Tcp.max_seg_size r)|cbn; lia|done].
  rbind. cbn [snd fst].
  rewrite (emit_some_spec (mss_opt r) (scale_opt r) (fun w => match Tcp.window_scale r with Some v => emit_next (WindowScale v) w | None => Ret w end));
    [|done|unfold scale_opt; destruct (Tcp.window_scale r); cbn; lia|by unfold scale_opt; destruct (Tcp.window_scale r)
     |cbn [snd]; rewrite length_drop; lia|done].
  rbind. cbn [snd fst].
  rewrite emit_sack_opt by done.
  rewrite (emit_some_spec (mss_opt r ++ scale_opt r) (sack_opt r) (fun w => match sack_opt r with [] => Ret w | x :: _ => emit_next x w end));
    [|done|unfold sack_opt; destruct (Tcp.sack_permitted r), (omap id (Tcp.sack_ranges r)); cbn; lia|done
     |cbn [snd]; rewrite !length_drop; lia|done].
  cbn [mbind outcome_bind]. rewrite emit_end. cbn [fst snd]. rewrite !length_drop, <-app_assoc. do 3 f_equal. lia.
Qed.


Lemma parse_options_spec os pad : forall fuel o,
  Forall option_ok os -> (opts_len os + pad < fuel)%nat ->
  parse_options fuel (opts_octets os ++ replicate pad 0) o = Ret (Ok (fold_left (fun o x => take_option x o) os o)).
Proof.
  induction os as [|x os IH]; intros fuel o Ho Hf; (destruct fuel as [|fuel]; [lia|]).
  - by destruct pad.
  - apply Forall_cons in Ho as [Hx Ho]. change (opts_octets (x :: os)) with (option_octets x ++ opts_octets os).
    rewrite <-app_assoc. unfold opts_len in *. cbn [sum_list_with] in Hf.
    assert (Hpos : (0 < option_len x)%nat) by (destruct x; cbn; lia).
    cbn [parse_options]. rewrite parse_option_spec by done. cbn [mbind res_bind].
    pose proof (length_option x Hx) as Hlx. destruct (option_octets x ++ _) eqn:He.
    { apply app_eq_nil in He as [He _]. rewrite He in Hlx. cbn in Hlx. lia. }
    rewrite IH by (done || lia). by destruct x.
Qed.

Lemma opts_of_fold r :
  wire_ok r ->
  fold_left (fun o x => take_option x o) (opts_of r) no_options
  = mkOptions (Tcp.max_seg_size r) (Tcp.window_scale r) (Tcp.sack_permitted r) (Tcp.sack_ranges r).
Proof.
  intros Hr. unfold opts_of, mss_opt, scale_opt, sack_opt.
  pose proof (wo_scale r Hr) as Hws. pose proof (wo_sack r Hr) as Hsk. destruct (wo_ranges r Hr) as (blocks & Hs & Hb3 & _).
  destruct (omap_blocks blocks (3 - length blocks)) as [He _]. rewrite <-Hs in He. rewrite He.
  destruct (Tcp.window_scale r) as [v|]; [specialize (Hws v eq_refl)|clear Hws];
    destruct (Tcp.sack_permitted r), (Tcp.max_seg_size r) as [w|]; cbn;
    try rewrite Hsk by auto; rewrite ?(proj2 (Z.ltb_ge 14 v)) by lia; try done;
    destruct blocks; cbn; rewrite ?(proj2 (Z.ltb_ge 14 v)) by lia; try done; by rewrite Hs.
Qed.

End segment.

(** ** Flags *)

Definition control_bits (c : Tcp.Control) : Z :=
  match c with Tcp.None_ => 0 | Tcp.Fin => 1 | Tcp.Syn => 2 | Tcp.Rst => 4 | Tcp.Psh => 8 end.
Definition flags_of (q : Z) (c : Tcp.Control) (a : bool) : Z := q * 4096 + control_bits c + (if a then 16 else 0).

(** Eleven lengths, five controls and two values: a finite matter. *)
Ltac all_lengths q :=
  let Hq := fresh in
  assert (Hq : q = 5 \/ q = 6 \/ q = 7 \/ q = 8 \/ q = 9 \/ q = 10 \/ q = 11 \/ q = 12 \/ q = 13 \/ q = 14 \/ q = 15) by lia;
  repeat (destruct Hq as [->|Hq]; [done|]); subst q; done.
Ltac all_flags q c a := destruct c, a; all_lengths q.

Section flags.
Context {BE : ByteOrder} {HBE : ByteOrderLaws BE}.

Lemma header_len_flags h l q c a :
  hdr_ok h -> h_flags h = flags_of q c a -> 5 <= q <= 15 -> header_len (put h ++ l) = Ret (4 * q).
Proof.
  intros Hh Hf Hq. unfold header_len. rewrite get_flags by done. rbind. rewrite Hf. f_equal. all_flags q c a.
Qed.

Lemma flags_read h l q c a :
  hdr_ok h -> h_flags h = flags_of q c a -> 5 <= q <= 15 ->
  exists s f r p, syn (put h ++ l) = Ret s /\ fin (put h ++ l) = Ret f /\ rst (put h ++ l) = Ret r /\ psh (put h ++ l) = Ret p /\
    control_of s f r p = Some c /\ ack (put h ++ l) = Ret a.
Proof.
  intros Hh Hf Hq. unfold syn, fin, rst, psh, ack, flag. rewrite get_flags by done. rbind. rewrite Hf.
  do 4 eexists. do 4 (split; [done|]). all_flags q c a.
Qed.

(** The flags of a header whose length is written and whose flags are cleared. *)
Lemma masks raw q :
  5 <= q <= 15 -> 0 <= raw < 2 ^ 16 ->
  let raw' := Z.lor (Z.land raw (bnot 16 0xf000)) (wrap 16 (Z.shiftl (4 * q / 4) 12)) in
  Z.land raw' (bnot 16 0x0fff) = q * 4096 /\ 0 <= raw' < 2 ^ 16.
Proof.
  intros Hq Hr. cbv zeta. change (bnot 16 0xf000) with (2 ^ 12 - 1). change (bnot 16 0x0fff) with 0xf000.
  rewrite (Z.mul_comm 4), Z.div_mul, Z.shiftl_mul_pow2, wrap_id by (unfold is_uint; lia). split.
  - rewrite Z.land_lor_distr_l, <-Z.land_assoc. change (Z.land (2 ^ 12 - 1) 0xf000) with 0. rewrite Z.land_0_r, Z.lor_0_l.
    all_lengths q.
  - rewrite land_mask_mod, Z.lor_comm, lor_mul_add by (unfold is_uint; dlia). dlia.
Qed.

Lemma set_flag_put mask v h l f :
  hdr_ok h -> (if v : bool then Z.lor (h_flags h) mask else Z.land (h_flags h) (bnot 16 mask)) = f -> 0 <= f < 2 ^ 16 ->
  set_flag mask v (put h ++ l) = Ret (put (with_flags f h) ++ l).
Proof. intros Hh <- Hf. unfold set_flag. rewrite get_flags by done. rbind. by apply put_flags. Qed.

Lemma set_header_flags h l q c a :
  hdr_ok h -> 5 <= q <= 14 ->
  (p ← set_header_len (wrap 8 (4 * q)) (put h ++ l);
   p ← clear_flags p;
   p ← match c with
       | Tcp.None_ => Ret p
       | Tcp.Psh => set_psh true p
       | Tcp.Syn => set_syn true p
       | Tcp.Fin => set_fin true p
       | Tcp.Rst => set_rst true p
       end;
   set_ack a p) = Ret (put (with_flags (flags_of q c a) h) ++ l).
Proof.
  intros Hh Hq. rewrite wrap_id by (unfold is_uint; lia). unfold set_header_len. rewrite get_flags by done. rbind.
  destruct (masks (h_flags h) q ltac:(lia) (ho_flags h Hh)) as [Hm Hr]. set (raw' := Z.lor _ _) in *.
  rewrite put_flags by done. rbind. unfold clear_flags.
  assert (H1 : hdr_ok (with_flags raw' h)) by (destruct Hh; by split). rewrite get_flags by done. rbind. cbn [h_flags with_flags].
  rewrite Hm, put_flags by lia. rbind. change (with_flags ?x (with_flags _ h)) with (with_flags x h).
  assert (H2 : hdr_ok (with_flags (q * 4096) h)) by (destruct Hh; split; try done; cbn; lia).
  unfold set_ack, set_psh, set_syn, set_fin, set_rst. clear raw' Hm Hr H1.
  assert (Hc : match c with
       | Tcp.None_ => Ret (put (with_flags (q * 4096) h) ++ l)
       | Tcp.Psh => set_flag FLG_PSH true (put (with_flags (q * 4096) h) ++ l)
       | Tcp.Syn => set_flag FLG_SYN true (put (with_flags (q * 4096) h) ++ l)
       | Tcp.Fin => set_flag FLG_FIN true (put (with_flags (q * 4096) h) ++ l)
       | Tcp.Rst => set_flag FLG_RST true (put (with_flags (q * 4096) h) ++ l)
       end = Ret (put (with_flags (flags_of q c false) h) ++ l)).
  { destruct c; [unfold flags_of; cbn; by rewrite !Z.add_0_r|..];
      (apply (set_flag_put _ true (with_flags (q * 4096) h)); [done|cbn [h_flags with_flags]|unfold flags_of; cbn; lia]).
    - all_lengths q.
    - all_lengths q.
    - all_lengths q.
    - all_lengths q. }
  rewrite Hc. rbind.
  assert (H3 : hdr_ok (with_flags (flags_of q c false) h))
    by (destruct Hh; split; try done; unfold flags_of; destruct c; cbn; lia).
  rewrite (set_flag_put _ a _ _ (flags_of q c a)); [done|done|cbn [h_flags with_flags]|unfold flags_of; destruct c, a; cbn; lia].
  all_flags q c a.
Qed.


End flags.

(** ** Checksums *)

Definition same_family (src dst : Ip.Address) : Prop :=
  address_ok src /\ address_ok dst /\ Ip.version src = Ip.version dst.

Section checksums.
Context {BE : ByteOrder} {HBE : ByteOrderLaws BE}.

(** The sum that is verified, as the sum of the words. *)
Lemma packet_sum_spec src dst n :
  same_family src dst -> Z.of_nat n < 2 ^ 17 - 1 -> exists P, 0 <= P < 2 ^ 16 /\
    forall p, octets p -> length p = n -> packet_sum src dst p = Ret (ones_sum (P + ones_sum (word_sum p))).
Proof.
  intros (Hs & Hd & Hv) Hn.
  destruct (pseudo_header_range src dst Ip.TcpProtocol (Z.of_nat n) Hs Hd Hv ltac:(cbn; lia) ltac:(lia)) as (P & HP & HPr).
  exists P. split; [done|]. intros p Ho <-. unfold packet_sum. rewrite wrap_id by (unfold is_uint; lia). rewrite HP. rbind.
  pose proof (word_sum_bounds p Ho) as Hb. rewrite data_spec by (done || lia). rbind.
  pose proof (ones_sum_range (word_sum p) ltac:(lia)) as [Hr _].
  rewrite combine_spec by (done || (repeat constructor; done || lia)). cbn [foldr]. by rewrite Z.add_0_r.
Qed.

Lemma word_sum_checksum c h l :
  word_sum (put (with_sum c h) ++ l) = word_sum (put (with_sum 0 h) ++ l) + c.
Proof.
  unfold put, u16_octets, i32_octets. cbn [app word_sum with_sum h_src h_dst h_seq h_ack h_flags h_win h_sum h_urg].
  change (0 / 256) with 0. change (0 mod 256) with 0. pose proof (Z.div_mod c 256 ltac:(lia)). lia.
Qed.

Lemma fill_checksum_spec src dst h l :
  hdr_ok h -> octets l -> same_family src dst -> Z.of_nat (length l) < 2 ^ 16 + 100 ->
  exists c, 0 <= c < 2 ^ 16 /\ fill_checksum src dst (put h ++ l) = Ret (put (with_sum c h) ++ l) /\
    verify_checksum src dst (put (with_sum c h) ++ l) = Ret true.
Proof.
  intros Hh Hl Hf Hn. destruct (packet_sum_spec src dst (20 + length l) Hf ltac:(lia)) as (P & HP & Hsum).
  assert (Hok : forall c, 0 <= c < 2 ^ 16 -> octets (put (with_sum c h) ++ l)).
  { intros c Hc. apply Forall_app. split; [|done]. apply octets_put. destruct Hh. by split. }
  pose proof (Hok 0 ltac:(lia)) as Ho0. pose proof (word_sum_bounds _ Ho0) as Hb0.
  set (W := word_sum (put (with_sum 0 h) ++ l)) in *.
  destruct (complement_closes P W ltac:(lia) ltac:(lia)) as (Hc & Hm & Hpos).
  set (c := 65535 - ones_sum (P + ones_sum W)) in *. exists c. split; [done|]. split.
  - unfold fill_checksum, set_checksum. rewrite put_sum by done. rbind. rewrite Hsum by done. rbind. fold W.
    pose proof (ones_sum_range W ltac:(lia)) as [Hr0 _]. pose proof (ones_sum_range (P + ones_sum W) ltac:(lia)) as [Hr _].
    rewrite bnot_sub by (done || lia). change (2 ^ 16 - 1) with 65535. fold c. rewrite put_sum by done. done.
  - unfold verify_checksum. rewrite Hsum by (done || by apply Hok). rbind. rewrite word_sum_checksum. fold W.
    rewrite ones_sum_closes by lia. done.
Qed.

(** Writing another octet changes the sum of the words. *)
Lemma word_sum_insert l : forall i x y,
  l !! i = Some y -> word_sum (<[i:=x]> l) = word_sum l + (x - y) * (if Nat.even i then 256 else 1).
Proof.
  revert l. apply (pairs_ind (fun l => forall i x y, l !! i = Some y ->
    word_sum (<[i:=x]> l) = word_sum l + (x - y) * (if Nat.even i then 256 else 1))).
  - done.
  - intros a [|i] x y H; [|done]. injection H as ->. cbn. lia.
  - intros a b l IH [|[|i]] x y H.
    + injection H as ->. cbn. lia.
    + injection H as ->. cbn. lia.
    + change (<[S (S i):=x]> (a :: b :: l)) with (a :: b :: <[i:=x]> l). cbn [word_sum].
      rewrite (IH i x y H). cbn [Nat.even]. lia.
Qed.

(** A packet that verifies does not verify any more after one of its octets has changed. *)
Lemma verify_checksum_detects src dst p i x y :
  same_family src dst -> octets p -> Z.of_nat (length p) < 2 ^ 17 - 1 ->
  verify_checksum src dst p = Ret true -> p !! i = Some y -> octet x -> x <> y ->
  verify_checksum src dst (<[i:=x]> p) = Ret false.
Proof.
  intros Hf Ho Hl Hv Hi Hx Hne. destruct (packet_sum_spec src dst (length p) Hf Hl) as (P & HP & Hsum).
  assert (Ho' : octets (<[i:=x]> p)) by (by apply Forall_insert).
  pose proof (word_sum_bounds _ Ho) as Hb. pose proof (word_sum_bounds _ Ho') as Hb'.
  pose proof (Forall_lookup_1 _ _ _ _ Ho Hi) as Hy. cbn in Hy.
  unfold verify_checksum in *. rewrite Hsum in * by (done || by rewrite length_insert). rbind. cbn [mbind outcome_bind] in Hv.
  injection Hv as Hv%Z.eqb_eq. f_equal. apply Z.eqb_neq. intros Hv'. change (bnot 16 0) with 65535 in *.
  rewrite (word_sum_insert p i x y Hi) in *. set (W := word_sum p) in *.
  assert (Hclosed : forall w, 0 <= w -> ones_sum (P + ones_sum w) = 65535 -> exists k, P + w = 65535 * k).
  { intros w Hw H. destruct (ones_sum_range w Hw) as [Hr _]. destruct (ones_sum_mod w Hw) as [k Hk].
    destruct (ones_sum_mod (P + ones_sum w) ltac:(lia)) as [k2 Hk2]. exists (k + k2 + 1). lia. }
  destruct (Hclosed _ (proj1 Hb) Hv) as [k Hk]. destruct (Hclosed _ (proj1 Hb') Hv') as [k' Hk'].
  destruct (Nat.even i); lia.
Qed.

End checksums.

(** ** Segments *)

Lemma octets_u32 n : is_u32 n -> octets (u32_octets n).
Proof. intros Hn. unfold is_u32 in *. repeat constructor; dlia. Qed.

Ltac octet_list := unfold octets; repeat (apply Forall_cons_2; [lia || dlia|]); apply Forall_nil_2.

Lemma octets_option o : option_ok o -> octets (option_octets o).
Proof.
  destruct o as [| |v|v| |s|]; try done.
  - intros Hv. cbn in Hv. octet_list.
  - intros Hv. cbn in Hv. octet_list.
  - intros _. octet_list.
  - intros [(blocks & -> & Hb3 & Hb) _]. cbn [option_octets option_len].
    destruct (omap_blocks blocks (3 - length blocks)) as [-> ->].
    constructor; [lia|]. constructor; [lia|]. induction Hb as [|b bs [Hx Hy] Hb IH]; [constructor|].
    cbn [fmap list_fmap concat]. apply Forall_app. split; [|apply IH; cbn in Hb3; lia].
    apply Forall_app. split; by apply octets_u32.
Qed.

Lemma octets_opts os : Forall option_ok os -> octets (opts_octets os).
Proof.
  induction 1 as [|o os Ho _ IH]; [constructor|]. change (opts_octets (o :: os)) with (option_octets o ++ opts_octets os).
  apply Forall_app. split; [by apply octets_option|done].
Qed.

(** The octets that [emit] writes. *)
Definition fixed (r : Tcp.Repr) (sum : Z) : hdr :=
  mkHdr (Tcp.src_port r) (Tcp.dst_port r) (Tcp.seq_number r) (default 0 (Tcp.ack_number r))
    (flags_of (Tcp.header_len r / 4) (Tcp.control r) (bool_decide (is_Some (Tcp.ack_number r)))) (Tcp.window_len r) sum 0.
Definition padding (r : Tcp.Repr) : nat := (Z.to_nat (Tcp.header_len r - 20) - opts_len (opts_of r))%nat.
Definition body (r : Tcp.Repr) : list Z := (opts_octets (opts_of r) ++ replicate (padding r) 0) ++ Tcp.payload r.

Section emission.
Context {BE : ByteOrder} {HBE : ByteOrderLaws BE}.

Lemma fixed_ok r c : wire_ok r -> 0 <= c < 2 ^ 16 -> hdr_ok (fixed r c).
Proof.
  intros Hr Hc. destruct (header_len_opts r Hr) as (pad & q & _ & Hq & Hq5). destruct Hr. split; cbn; try done; try lia.
  - destruct (Tcp.ack_number r); [by apply wo_ack0|]. done.
  - rewrite Hq, Z.mul_comm, Z.div_mul by lia. unfold flags_of. destruct (Tcp.control r), (bool_decide _); cbn; lia.
Qed.

Lemma octets_body r : wire_ok r -> octets (body r).
Proof.
  intros Hr. unfold body, octets. rewrite !Forall_app. split; [split|apply Hr].
  - apply octets_opts. by apply opts_ok.
  - apply Forall_replicate. lia.
Qed.

Lemma length_body r : wire_ok r -> Z.of_nat (20 + length (body r)) = Tcp.buffer_len r.
Proof.
  intros Hr. destruct (header_len_opts r Hr) as (pad & q & Hl & _). unfold body, padding, Tcp.buffer_len, Tcp.payload_len.
  rewrite !length_app, length_replicate, length_opts by (by apply opts_ok). lia.
Qed.

(** The options and the payload, behind a header with its flags. *)
Lemma emit_body r h q c a lo lp :
  wire_ok r -> hdr_ok h -> h_flags h = flags_of q c a -> 5 <= q <= 15 -> Tcp.header_len r = 4 * q ->
  length lo = Z.to_nat (4 * q - 20) -> length lp = length (Tcp.payload r) -> (opts_len (opts_of r) <= length lo)%nat ->
  (n ← header_len (put h ++ lo ++ lp);
   p ← edit (OPTIONS n) (emit_options r) (put h ++ lo ++ lp);
   p ← set_urgent_at 0 p;
   n ← header_len p;
   edit (Z.to_nat n, length p) (fun d => edit (0, length (Tcp.payload r))%nat (fun _ => Ret (Tcp.payload r)) d) p)
  = Ret (put (with_urg 0 h) ++ body r).
Proof.
  intros Hr Hh Hfl Hq Hhl Hlo Hlp Hle. rewrite (header_len_flags h _ q c a) by done. rbind. unfold OPTIONS.
  rewrite (edit_app (put h) lo (opts_octets (opts_of r) ++ replicate (padding r) 0) lp).
  2: done. 2: { change (length (put h)) with 20%nat. rewrite Hlo. lia. }
  2: { rewrite emit_options_spec by done. unfold padding. do 3 f_equal. rewrite Hlo, Hhl. done. }
  rbind. unfold set_urgent_at. rewrite put_urg by done. rbind.
  assert (Hh' : hdr_ok (with_urg 0 h)) by (destruct Hh; by split).
  rewrite (header_len_flags (with_urg 0 h) _ q c a) by done. rbind.
  assert (Hlen : length (opts_octets (opts_of r) ++ replicate (padding r) 0) = length lo).
  { rewrite length_app, length_replicate, length_opts by (by apply opts_ok). unfold padding. rewrite Hlo in *. rewrite Hhl. lia. }
  rewrite app_assoc. rewrite (edit_tail (put (with_urg 0 h) ++ _) lp (Tcp.payload r)).
  - by rewrite <-app_assoc.
  - rewrite length_app, Hlen. change (length (put _)) with 20%nat. rewrite Hlo. lia.
  - done.
  - rewrite <-(app_nil_r lp). rewrite (edit_app [] lp (Tcp.payload r) []) by done. by rewrite app_nil_r.
Qed.

Lemma emit_spec r src dst caps p :
  wire_ok r -> same_family src dst -> octets p -> Z.of_nat (length p) = Tcp.buffer_len r ->
  exists c, 0 <= c < 2 ^ 16 /\ emit r src dst caps p = Ret (put (fixed r c) ++ body r) /\
    (Caps.tx caps = true -> verify_checksum src dst (put (fixed r c) ++ body r) = Ret true).
Proof.
  intros Hr Hf Hop Hlen. destruct (header_len_opts r Hr) as (pad & q & Hl & Hq & Hq5).
  assert (Hp : padding r = pad) by (unfold padding; lia).
  unfold Tcp.buffer_len, Tcp.payload_len in Hlen.
  destruct (header_split p Hop ltac:(lia)) as (h & l & Hh & -> & Hol & Hll). rewrite Hll in Hlen.
  rewrite <-(take_drop (opts_len (opts_of r) + pad) l). set (lo := take _ l). set (lp := drop _ l).
  assert (Hlo : length lo = (opts_len (opts_of r) + pad)%nat) by (subst lo; rewrite length_take; lia).
  assert (Hlp : length lp = length (Tcp.payload r)) by (subst lp; rewrite length_drop; lia).
  clearbody lo lp. clear l Hol Hll Hlen Hop.
  pose proof (fixed_ok r 0 Hr ltac:(lia)) as Hfix. pose proof Hr as []. destruct Hfix as [_ _ _ Hack _ _ _ _]. cbn in Hack.
  unfold emit, set_src_port, set_dst_port, set_seq_number, set_ack_number, set_window_len.
  rewrite put_src by lia. rbind. rewrite put_dst by lia. rbind. rewrite put_seq by done. rbind.
  rewrite put_ack by done. rbind. rewrite put_win by done. rbind.
  set (h1 := with_win _ _). assert (Hh1 : hdr_ok h1) by (destruct Hh; split; cbn; try done; lia).
  pose proof (set_header_flags h1 (lo ++ lp) q (Tcp.control r) (bool_decide (is_Some (Tcp.ack_number r))) Hh1 Hq5) as Hset.
  rewrite <-Hq in Hset.
  apply bind_ret in Hset as (p1 & E1 & Hset). apply bind_ret in Hset as (p2 & E2 & Hset). apply bind_ret in Hset as (p3 & E3 & E4).
  rewrite E1. rbind. rewrite E2. rbind. rewrite E3. rbind. rewrite E4. rbind. clear E1 E2 E3 E4 p1 p2 p3.
  set (h2 := with_flags _ h1). assert (Hh2 : hdr_ok h2).
  { destruct Hh1. split; try done. unfold h2, with_flags, flags_of. cbn [h_flags].
    destruct (Tcp.control r), (bool_decide _); cbn [control_bits]; lia. }
  pose proof (emit_body r h2 q (Tcp.control r) (bool_decide (is_Some (Tcp.ack_number r))) lo lp Hr Hh2 eq_refl
    ltac:(lia) Hq ltac:(lia) Hlp ltac:(lia)) as Hb.
  apply bind_ret in Hb as (n1 & E1 & Hb). apply bind_ret in Hb as (p2 & E2 & Hb). apply bind_ret in Hb as (p3 & E3 & Hb).
  apply bind_ret in Hb as (n4 & E4 & E5). rewrite E1. rbind. rewrite E2. rbind. rewrite E3. rbind. rewrite E4. rbind. rewrite E5. rbind.
  assert (Hh3 : hdr_ok (with_urg 0 h2)) by (destruct Hh2; by split).
  assert (Hfx : forall c, with_sum c (with_urg 0 h2) = fixed r c).
  { intros c. unfold fixed. rewrite Hq, (Z.mul_comm 4), Z.div_mul by lia. done. }
  pose proof (octets_body r Hr) as Hob. pose proof (length_body r Hr) as Hlb. unfold Tcp.buffer_len, Tcp.payload_len in Hlb.
  destruct (Caps.tx caps).
  - destruct (fill_checksum_spec src dst (with_urg 0 h2) (body r) Hh3 Hob Hf ltac:(lia)) as (c & Hc & Hfill & Hver).
    exists c. rewrite <-Hfx. done.
  - exists 0. rewrite <-Hfx. split; [done|]. split; [by apply put_sum|done].
Qed.

End emission.

(** ** Parsing *)

Section parsing.
Context {BE : ByteOrder} {HBE : ByteOrderLaws BE}.

Lemma check_len_ok p h :
  header_len p = Ret h -> 20 <= h <= Z.of_nat (length p) -> new_checked p = Ret (Ok p).
Proof.
  intros Hh Hl. unfold new_checked, check_len. rewrite (proj2 (Z.ltb_ge _ 20)) by lia. rewrite Hh. cbn [call mbind res_bind].
  rewrite (proj2 (Z.ltb_ge _ h)), (proj2 (Z.ltb_ge h 20)) by lia. done.
Qed.

(** The options and the payload of a packet that was written. *)
Lemma parts_of_emitted r c q :
  wire_ok r -> header_len (put (fixed r c) ++ body r) = Ret (4 * q) -> Tcp.header_len r = 4 * q -> 5 <= q <= 14 ->
  (opts ← call (options (put (fixed r c) ++ body r)); parse_options (S (length opts)) opts no_options)
  = Ret (Ok (mkOptions (Tcp.max_seg_size r) (Tcp.window_scale r) (Tcp.sack_permitted r) (Tcp.sack_ranges r))) /\
  payload (put (fixed r c) ++ body r) = Ret (Tcp.payload r).
Proof.
  intros Hr Hhl Hq Hq5. destruct (header_len_opts r Hr) as (pad & _ & Hl & _). unfold options, payload. rewrite Hhl. rbind.
  set (os := opts_octets (opts_of r) ++ replicate (padding r) 0).
  assert (Hos : length os = (opts_len (opts_of r) + pad)%nat).
  { subst os. rewrite length_app, length_replicate, length_opts by (by apply opts_ok). unfold padding. lia. }
  unfold OPTIONS. change (body r) with (os ++ Tcp.payload r). split.
  - rewrite (range_app (put (fixed r c)) os (Tcp.payload r) 20 (Z.to_nat (4 * q)))
      by (done || (change (length (put (fixed r c))) with 20%nat; lia)).
    cbn [call mbind res_bind]. rewrite Hos. subst os. rewrite parse_options_spec; [|by apply opts_ok|unfold padding; lia].
    by rewrite opts_of_fold.
  - rewrite app_assoc. apply range_tail; [|done]. rewrite length_app, Hos. change (length (put (fixed r c))) with 20%nat. lia.
Qed.

Lemma parse_fixed r c src dst caps :
  wire_ok r -> 0 <= c < 2 ^ 16 ->
  (Caps.rx caps = true -> verify_checksum src dst (put (fixed r c) ++ body r) = Ret true) ->
  (w ← new_checked (put (fixed r c) ++ body r); parse src dst caps w) = Ret (Ok r).
Proof.
  intros Hr Hc Hv. pose proof (fixed_ok r c Hr Hc) as Hh. pose proof (length_body r Hr) as Hlb.
  destruct (header_len_opts r Hr) as (pad & q & Hl & Hq & Hq5).
  assert (Hfl : h_flags (fixed r c) = flags_of q (Tcp.control r) (bool_decide (is_Some (Tcp.ack_number r))))
    by (cbn; by rewrite Hq, Z.mul_comm, Z.div_mul).
  pose proof (header_len_flags (fixed r c) (body r) q _ _ Hh Hfl ltac:(lia)) as Hhl.
  destruct (parts_of_emitted r c q Hr Hhl Hq Hq5) as [Hopts Hpay].
  assert (Hlen : length (put (fixed r c) ++ body r) = (20 + length (body r))%nat) by (by rewrite length_app).
  unfold Tcp.buffer_len, Tcp.payload_len in Hlb.
  rewrite (check_len_ok _ (4 * q) Hhl) by lia. cbn [mbind res_bind]. unfold parse, src_port, dst_port.
  rewrite get_src, get_dst by done. cbn [call mbind res_bind fixed h_src h_dst].
  destruct (Z.eqb_spec (Tcp.src_port r) 0) as [Hz|_]; [pose proof (wo_src r Hr); lia|].
  destruct (Z.eqb_spec (Tcp.dst_port r) 0) as [Hz|_]; [pose proof (wo_dst r Hr); lia|].
  assert (Hgood : (if Caps.rx caps then call (verify_checksum src dst (put (fixed r c) ++ body r)) else mret true : res WireError bool) = Ret (Ok true)).
  { destruct (Caps.rx caps); [by rewrite Hv|done]. }
  rewrite Hgood. cbn [mbind res_bind negb]. clear Hgood.
  destruct (flags_read (fixed r c) (body r) q _ _ Hh Hfl ltac:(lia)) as (s & f & rs & ps & -> & -> & -> & -> & Hct & ->).
  cbn [call mbind res_bind]. rewrite Hct. clear Hct s f rs ps. cbn [call mbind res_bind].
  unfold ack_number. rewrite get_ack by done.
  match goal with |- context [if ?b then ?m else ?n] => assert (Hack : (if b then m else n) = Ret (Ok (Tcp.ack_number r))) end.
  { cbn [fixed h_ack]. destruct (Tcp.ack_number r); [by rewrite bool_decide_true|]. by rewrite bool_decide_false by (by intros [? ?]). }
  rewrite Hack. cbn [mbind res_bind]. clear Hack.
  destruct (options (put (fixed r c) ++ body r)) as [opts|]; [|done]. cbn [call mbind res_bind] in *. rewrite Hopts.
  cbn [mbind res_bind]. unfold seq_number, window_len. rewrite get_seq, get_win, Hpay by done. cbn. by destruct r.
Qed.

(** ** Parsing any octets *)

Definition option_fine (o : TcpOption) : Prop :=
  match o with MaxSegmentSize v => 0 <= v < 2 ^ 16 | WindowScale v => octet v | _ => True end.

Lemma sack_range_ret data i :
  octets data -> (length data mod 8 = 0)%nat -> exists x, sack_range data i = Ret x.
Proof.
  intros Ho Hm. unfold sack_range. cbv zeta. destruct (Nat.ltb_spec (i * 8) (length data)) as [Hl|]; [|by eexists].
  assert (Hle : (i * 8 + 8 <= length data)%nat).
  { pose proof (Nat.div_mod (length data) 8 ltac:(lia)). lia. }
  assert (Hr : forall k, (k + 4 <= length data)%nat -> exists w, (a ← range (k, k + 4)%nat data; read_u32 a) = Ret w).
  { intros k Hk. unfold range. cbn [fst snd]. rewrite (proj2 (Nat.leb_le k (k + 4))), (proj2 (Nat.leb_le (k + 4) _)) by lia. rbind.
    replace (k + 4 - k)%nat with 4%nat by lia. assert (Hok : octets (take 4 (drop k data))) by (by apply Forall_take, Forall_drop).
    assert (Hlen : length (take 4 (drop k data)) = 4%nat) by (rewrite length_take, length_drop; lia).
    destruct (take 4 (drop k data)) as [|a [|b [|c [|d [|]]]]]; try done.
    repeat (apply Forall_cons in Hok as [? Hok]). cbn [andb]. rbind. rewrite read_u32_be by done. by eexists. }
  destruct (Hr (i * 8)%nat ltac:(lia)) as [w1 H1]. destruct (Hr (i * 8 + 4)%nat ltac:(lia)) as [w2 H2].
  apply bind_ret in H1 as (a & -> & H1). apply bind_ret in H2 as (b & Hb & H2). rbind. rewrite H1. rbind.
  rewrite Hb. rbind. rewrite H2. rbind. by eexists.
Qed.

Lemma parse_option_safe b :
  octets b -> b <> [] -> exists x, parse_option b = Ret x /\
    forall rest o, x = Ok (rest, o) -> octets rest /\ (length rest < length b)%nat /\ option_fine o.
Proof.
  intros Ho Hne. destruct b as [|kind rest]; [done|]. pose proof Ho as [Hk Hr]%Forall_cons. unfold parse_option.
  destruct (kind =? OPT_END); [eexists; split; [done|]; intros ? ? [= <- <-]; cbn; split; [done|split; [lia|done]]|].
  destruct (kind =? OPT_NOP); [eexists; split; [done|]; intros ? ? [= <- <-]; cbn; split; [done|split; [lia|done]]|].
  destruct rest as [|n rest']; [by eexists|]. pose proof Hr as [Hn _]%Forall_cons.
  destruct (Nat.ltb_spec (Z.to_nat n) 2) as [|H2]; [by eexists|].
  destruct (Nat.ltb_spec (length (kind :: n :: rest')) (Z.to_nat n)) as [|Hl]; [by eexists|]. cbn [orb].
  set (buffer := kind :: n :: rest') in *. set (data := take (Z.to_nat n - 2) (drop 2 buffer)).
  assert (Hdo : octets data) by (by apply Forall_take, Forall_drop).
  assert (Hdl : length data = (Z.to_nat n - 2)%nat) by (subst data; rewrite length_take, length_drop; lia). clearbody data.
  assert (Hgo : forall m : res WireError TcpOption,
    (exists x, m = Ret x /\ forall o, x = Ok o -> option_fine o) ->
    exists x, (option ← m; mret (drop (Z.to_nat n) buffer, option)) = Ret x /\
      forall rest o, x = Ok (rest, o) -> octets rest /\ (length rest < length buffer)%nat /\ option_fine o).
  { intros m (x & -> & Hx). destruct x as [o|e]; eexists; (split; [done|]); [|done]. intros ? ? [= <- <-].
    split; [by apply Forall_drop|]. rewrite length_drop. split; [lia|by apply Hx]. }
  apply Hgo. clear Hgo. destruct (kind =? OPT_MSS).
  { destruct (Z.eqb_spec n 4) as [->|]; [|by eexists]. destruct data as [|a [|b [|]]]; try done.
    apply Forall_cons in Hdo as [Ha [Hb _]%Forall_cons]. rewrite read_u16_be by done. eexists. split; [done|].
    intros o [= <-]. cbn. lia. }
  destruct (kind =? OPT_WS).
  { destruct (Z.eqb_spec n 3) as [->|]; [|by eexists]. destruct data as [|a [|]]; try done.
    apply Forall_cons in Hdo as [Ha _]. eexists. split; [done|]. by intros o [= <-]. }
  destruct (kind =? OPT_SACKPERM).
  { destruct (n =? 2); eexists; (split; [done|]); [by intros o [= <-]|done]. }
  destruct (kind =? OPT_SACKRNG); [|eexists; split; [done|]; by intros o [= <-]].
  destruct (Z.ltb_spec n 10); [by eexists|]. destruct (Z.eqb_spec ((n - 2) mod 8) 0) as [Hm|]; [|by eexists]. cbn [negb orb].
  assert (Hd8 : (length data mod 8 = 0)%nat).
  { rewrite Hdl. apply Nat2Z.inj. rewrite Nat2Z.inj_mod. replace (Z.of_nat (Z.to_nat n - 2)) with (n - 2) by lia. done. }
  destruct (sack_range_ret data 0 Hdo Hd8) as [r0 ->], (sack_range_ret data 1 Hdo Hd8) as [r1 ->], (sack_range_ret data 2 Hdo Hd8) as [r2 ->].
  eexists. split; [done|]. by intros o [= <-].
Qed.

Lemma parse_options_safe fuel : forall b o,
  octets b -> (length b < fuel)%nat -> (forall v, window_scale o = Some v -> 0 <= v <= 14) ->
  exists x, parse_options fuel b o = Ret x /\ forall o', x = Ok o' -> forall v, window_scale o' = Some v -> 0 <= v <= 14.
Proof.
  induction fuel as [|fuel IH]; intros b o Hb Hf Ho; [lia|]. cbn [parse_options]. destruct b as [|z b'].
  { eexists. split; [done|]. intros o' [= <-]. exact Ho. }
  destruct (parse_option_safe (z :: b') Hb ltac:(done)) as (x & -> & Hx). destruct x as [[rest op]|e]; cbn [mbind res_bind]; [|by eexists].
  destruct (Hx rest op eq_refl) as (Hro & Hrl & Hfine).
  assert (Hnext : forall v, window_scale (take_option op o) = Some v -> 0 <= v <= 14).
  { destruct op; cbn [take_option window_scale]; try done. intros v [= <-]. cbn in Hfine. destruct (Z.ltb_spec 14 value); lia. }
  destruct op; try (apply IH; [done|cbn in *; lia|done]). eexists. split; [done|]. intros o' [= <-]. exact Ho.
Qed.

Lemma header_len_put h l : hdr_ok h -> exists n, header_len (put h ++ l) = Ret n /\ 0 <= n <= 60.
Proof.
  intros Hh. unfold header_len. rewrite get_flags by done. rbind. eexists. split; [done|].
  pose proof (ho_flags h Hh). rewrite Z.shiftr_div_pow2 by lia. assert (0 <= h_flags h / 2 ^ 12 <= 15) by dlia.
  rewrite (wrap_id 16), (wrap_id 8) by (unfold is_uint; lia). lia.
Qed.

(** The parts of a packet of any octets, when its length is right. *)
Lemma parts_of_any p n :
  octets p -> header_len p = Ret n -> 20 <= n <= Z.of_nat (length p) ->
  exists opts, options p = Ret opts /\ octets opts /\ payload p = Ret (drop (Z.to_nat n) p).
Proof.
  intros Hp Hn Hl. exists (take (Z.to_nat n - 20) (drop 20 p)). unfold options, payload. rewrite Hn. rbind. unfold OPTIONS, range.
  cbn [fst snd]. rewrite (proj2 (Nat.leb_le 20 _)), (proj2 (Nat.leb_le (Z.to_nat n) _)) by lia. split; [done|].
  split; [by apply Forall_take, Forall_drop|]. rewrite Nat.leb_refl. cbn [andb]. f_equal. apply take_ge. rewrite length_drop. lia.
Qed.

Lemma parse_any src dst caps p :
  same_family src dst -> octets p -> Z.of_nat (length p) < 2 ^ 16 ->
  exists x, (w ← new_checked p; parse src dst caps w) = Ret x /\
    forall r, x = Ok r -> repr_ok r /\ Tcp.src_port r <> 0 /\ Tcp.dst_port r <> 0 /\ Tcp.payload r `suffix_of` p /\
      (Caps.rx caps = true -> verify_checksum src dst p = Ret true).
Proof.
  intros Hf Hp Hl. unfold new_checked, check_len. destruct (Z.ltb_spec (Z.of_nat (length p)) 20) as [|Hl20]; [by eexists|].
  destruct (header_split p Hp ltac:(lia)) as (h & l & Hh & -> & Hol & Hll). destruct (header_len_put h l Hh) as (n & Hn & Hn60).
  rewrite Hn. cbn [call mbind res_bind]. destruct (Z.ltb_spec (Z.of_nat (length (put h ++ l))) n) as [|Hln]; [by eexists|].
  destruct (Z.ltb_spec n 20) as [|Hn20]; [by eexists|]. cbn [orb mbind res_bind mret res_ret].
  destruct (parts_of_any _ n Hp Hn ltac:(lia)) as (opts & Hopts & Hoo & Hpay).
  destruct (packet_sum_spec src dst (length (put h ++ l)) Hf ltac:(lia)) as (P & _ & Hsum). specialize (Hsum _ Hp eq_refl).
  unfold parse, src_port, dst_port. rewrite get_src, get_dst by done. cbn [call mbind res_bind].
  destruct (Z.eqb_spec (h_src h) 0) as [|Hsrc]; [by eexists|]. destruct (Z.eqb_spec (h_dst h) 0) as [|Hdst]; [by eexists|].
  assert (Hgood : exists g, (if Caps.rx caps then call (verify_checksum src dst (put h ++ l)) else mret true : res WireError bool) = Ret (Ok g) /\
    (g = true -> Caps.rx caps = true -> verify_checksum src dst (put h ++ l) = Ret true)).
  { destruct (Caps.rx caps); [|by exists true]. unfold verify_checksum. rewrite Hsum. rbind. eexists. split; [done|]. by intros ->. }
  destruct Hgood as (g & -> & Hg). cbn [mbind res_bind]. destruct g; [specialize (Hg eq_refl)|by eexists]. cbn [negb].
  unfold syn, fin, rst, psh, ack, flag. rewrite get_flags by done. rbind. cbn [call mbind res_bind].
  destruct (control_of _ _ _ _) as [c|]; [|by eexists]. unfold ack_number. rewrite get_ack by done. cbn [call mbind res_bind].
  match goal with |- context [if negb ?b then ?m else ?k] =>
    assert (Hack : exists a, (if negb b then m else k) = Ret (Ok a) /\ forall v, a = Some v -> is_seq v) end.
  { destruct (negb _); eexists; (split; [done|]); [intros v [= <-]; apply Hh|done]. }
  destruct Hack as (a & -> & Ha). cbn [mbind res_bind]. rewrite Hopts. cbn [call mbind res_bind].
  destruct (parse_options_safe (S (length opts)) opts no_options Hoo ltac:(lia) ltac:(done)) as (x & -> & Hx).
  destruct x as [o|e]; cbn [mbind res_bind]; [|by eexists]. unfold seq_number, window_len. rewrite get_seq, get_win, Hpay by done.
  cbn [call mbind res_bind mret res_ret]. eexists. split; [done|]. intros r [= <-]. destruct Hh.
  split; [split; unfold Tcp.payload_len; cbn [Tcp.seq_number Tcp.ack_number Tcp.window_len Tcp.window_scale Tcp.payload]; try done|].
  - rewrite length_drop. cbn [length]. lia.
  - by apply Hx.
  - cbn [Tcp.src_port Tcp.dst_port Tcp.payload]. split; [done|]. split; [done|]. split; [|done]. apply suffix_drop.
Qed.

End parsing.

(** ** What is promised *)

(** C22: a segment survives the wire: written into a buffer of the right size,
    whatever octets that held, and checked and parsed with the same addresses, it
    is the same segment, its options and payload included; a receiver that
    verifies checksums takes it from a sender that computes them. *)
Theorem tcp_segment_round_trip `{HBE : ByteOrderLaws} r src dst sender receiver p :
  wire_ok r -> same_family src dst -> octets p -> Z.of_nat (length p) = Tcp.buffer_len r ->
  (Caps.rx receiver = true -> Caps.tx sender = true) ->
  exists w, emit r src dst sender p = Ret w /\ octets w /\ length w = length p /\
    (w ← new_checked w; parse src dst receiver w) = Ret (Ok r).
Proof.
  intros Hr Hf Hp Hl Hcaps. destruct (emit_spec r src dst sender p Hr Hf Hp Hl) as (c & Hc & He & Hv).
  pose proof (length_body r Hr) as Hlb. exists (put (fixed r c) ++ body r). split; [done|]. split.
  { apply Forall_app. split; [apply octets_put; by apply fixed_ok|by apply octets_body]. }
  split; [change (20 + length (body r) = length p)%nat; lia|]. apply parse_fixed; auto.
Qed.

(** An acknowledgement with two ranges and a payload. *)
Definition example_ack : Tcp.Repr :=
  Tcp.mkRepr 4000 80 Tcp.None_ 100 (Some 7) 1000 None None false [Some (20, 30); Some (40, 50); None] [1; 2; 3].
Definition example_src : Ip.Address := Ip.Ipv4 [10; 0; 0; 1].
Definition example_dst : Ip.Address := Ip.Ipv4 [10; 0; 0; 2].

Lemma example_family : same_family example_src example_dst.
Proof. split; [|split]; [split; [done|octet_list]..|done]. Qed.

Lemma tcp_segment_round_trip_witness :
  exists w, emit (BE := network_endian) example_ack example_src example_dst Caps.Both (replicate 43 170) = Ret w /\ octets w /\
    length w = 43%nat /\ (w ← new_checked (BE := network_endian) w; parse (BE := network_endian) example_src example_dst Caps.Both w) = Ret (Ok example_ack).
Proof.
  apply (tcp_segment_round_trip (HBE := network_endian_laws) example_ack example_src example_dst Caps.Both Caps.Both (replicate 43 170)).
  - split; cbn; try done; try lia.
    + by intros a [= <-].
    + exists [(20, 30); (40, 50)]. split; [done|]. split; [cbn; lia|]. by repeat constructor.
    + by intros [|].
    + split; [octet_list|done].
  - apply example_family.
  - apply Forall_replicate. lia.
  - done.
  - done.
Defined.

(** C24: any octets are parsed without a panic, and what is accepted is a segment
    the socket can take: its sequence numbers, window and scale are in range, its
    ports are not zero, its payload is the end of the packet, and its checksum is
    right if it is to be verified. *)
Theorem tcp_parse_takes_any_octets `{HBE : ByteOrderLaws} src dst caps p :
  same_family src dst -> octets p -> Z.of_nat (length p) < 2 ^ 16 ->
  exists x, (w ← new_checked p; parse src dst caps w) = Ret x /\
    forall r, x = Ok r -> repr_ok r /\ Tcp.src_port r <> 0 /\ Tcp.dst_port r <> 0 /\ Tcp.payload r `suffix_of` p /\
      (Caps.rx caps = true -> verify_checksum src dst p = Ret true).
Proof. apply parse_any. Qed.

Lemma tcp_parse_takes_any_octets_witness :
  exists x, (w ← new_checked (BE := network_endian) (replicate 40 85); parse (BE := network_endian) example_src example_dst Caps.NoChecksum w) = Ret x /\
    forall r, x = Ok r -> repr_ok r /\ Tcp.src_port r <> 0 /\ Tcp.dst_port r <> 0 /\ Tcp.payload r `suffix_of` replicate 40 85 /\
      (Caps.rx Caps.NoChecksum = true -> verify_checksum (BE := network_endian) example_src example_dst (replicate 40 85) = Ret true).
Proof.
  apply (tcp_parse_takes_any_octets (HBE := network_endian_laws)); [apply example_family|apply Forall_replicate; lia|done].
Defined.

(** C23: a packet whose checksum is right is refused when any one of its octets has
    changed on the way. *)
Theorem tcp_checksum_detects_a_changed_octet `{HBE : ByteOrderLaws} src dst p i x y :
  same_family src dst -> octets p -> Z.of_nat (length p) < 2 ^ 16 ->
  verify_checksum src dst p = Ret true -> p !! i = Some y -> octet x -> x <> y ->
  (w ← new_checked (<[i:=x]> p); parse src dst Caps.Both w) = Ret (Err Malformed).
Proof.
  intros Hf Hp Hl Hv Hi Hx Hne. pose proof (verify_checksum_detects src dst p i x y Hf Hp ltac:(lia) Hv Hi Hx Hne) as Hd.
  destruct (parse_any src dst Caps.Both (<[i:=x]> p)) as (z & Hz & Hr).
  - done.
  - by apply Forall_insert.
  - by rewrite length_insert.
  - rewrite Hz. destruct z as [r|[]]; [|done]. destruct (Hr r eq_refl) as (_ & _ & _ & _ & Hver).
    rewrite Hd in Hver. by specialize (Hver eq_refl).
Qed.

Lemma tcp_checksum_detects_a_changed_octet_witness :
  match emit (BE := network_endian) example_ack example_src example_dst Caps.Both (replicate 43 0) with
  | Ret p => (w ← new_checked (BE := network_endian) (<[3%nat:=81]> p); parse (BE := network_endian) example_src example_dst Caps.Both w) = Ret (Err Malformed)
  | Panic => False
  end.
Proof.
  destruct (emit (BE := network_endian) example_ack example_src example_dst Caps.Both (replicate 43 0)) as [p|] eqn:Hp;
    [|by vm_compute in Hp].
  vm_compute in Hp. injection Hp as <-.
  apply (tcp_checksum_detects_a_changed_octet (HBE := network_endian_laws) example_src example_dst _ 3 81 80);
    [apply example_family|octet_list|done|vm_compute; reflexivity|done|lia|lia].
Defined.

End TcpPacketLaws.
