(* ===== verification/UdpPacket.v ===== *)
(** * UDP datagrams as octets

    [smoltcp/src/wire/udp.rs]: the fields of a datagram, its checksum, and its
    representation written into a buffer and read back.  A checksum of zero means
    that there is none, also over IPv6, where it may not be left out. *)

From S2P Require Import Prelude TcpWire Wire TcpPacket TcpPacketLaws.
Import ChecksumLaws TcpPacketLaws.

Local Open Scope Z_scope.

Module UdpPacket.

Definition SRC_PORT : nat * nat := (0, 2)%nat.
Definition DST_PORT : nat * nat := (2, 4)%nat.
Definition LENGTH : nat * nat := (4, 6)%nat.
Definition CHECKSUM : nat * nat := (6, 8)%nat.
Definition PAYLOAD (length : Z) : nat * nat := (8%nat, Z.to_nat length).
Definition HEADER_LEN : Z := 8.

(** [struct Repr]. *)
Record Repr : Type := mkRepr { r_src_port : Z; r_dst_port : Z }.

(** [buf.copy_from_slice(data)]. *)
Definition copy_slice (data buf : list Z) : outcome (list Z) := if (length buf =? length data)%nat then Ret data else Panic.

Section packet.
Context {BE : ByteOrder}.

Definition src_port : list Z -> outcome Z := TcpPacket.get_u16 SRC_PORT.
Definition dst_port : list Z -> outcome Z := TcpPacket.get_u16 DST_PORT.
Definition len : list Z -> outcome Z := TcpPacket.get_u16 LENGTH.
Definition checksum : list Z -> outcome Z := TcpPacket.get_u16 CHECKSUM.
Definition set_src_port : Z -> list Z -> outcome (list Z) := TcpPacket.set_u16 SRC_PORT.
Definition set_dst_port : Z -> list Z -> outcome (list Z) := TcpPacket.set_u16 DST_PORT.
Definition set_len : Z -> list Z -> outcome (list Z) := TcpPacket.set_u16 LENGTH.
Definition set_checksum : Z -> list Z -> outcome (list Z) := TcpPacket.set_u16 CHECKSUM.

(** [Packet::check_len] and [Packet::new_checked]. *)
Definition check_len (p : list Z) : res WireError unit :=
  let buffer_len := Z.of_nat (length p) in
  if buffer_len <? HEADER_LEN then err Malformed
  else field_len ← call (len p);
       if (buffer_len <? field_len) || (field_len <? HEADER_LEN) then err Malformed else mret tt.
Definition new_checked (buffer : list Z) : res WireError (list Z) := _ ← check_len buffer; mret buffer.

(** [Packet::payload]. *)
Definition payload (p : list Z) : outcome (list Z) := n ← len p; range (PAYLOAD n) p.

(** The sum over the pseudo header and the datagram. *)
Definition packet_sum (src_addr dst_addr : Ip.Address) (p : list Z) : outcome Z :=
  n ← len p;
  h ← Checksum.pseudo_header src_addr dst_addr Ip.Udp n;
  data ← range (0%nat, Z.to_nat n) p;
  d ← Checksum.data data;
  Ret (Checksum.combine [h; d]).

(** [Packet::verify_checksum]: "an all zero transmitted checksum value means that
    the transmitter generated no checksum". *)
Definition verify_checksum (src_addr dst_addr : Ip.Address) (p : list Z) : outcome bool :=
  c ← checksum p;
  if c =? 0 then Ret true else s ← packet_sum src_addr dst_addr p; Ret (s =? bnot 16 0).

(** [Packet::fill_checksum]. *)
Definition fill_checksum (src_addr dst_addr : Ip.Address) (p : list Z) : outcome (list Z) :=
  p ← set_checksum 0 p;
  s ← packet_sum src_addr dst_addr p;
  let checksum := bnot 16 s in
  set_checksum (if checksum =? 0 then 0xffff else checksum) p.

(** [Repr::parse]. *)
Definition parse (src_addr dst_addr : Ip.Address) (caps : Caps.Checksum) (p : list Z) : res WireError Repr :=
  dport ← call (dst_port p);
  if dport =? 0 then err Malformed else
  good ← (if Caps.rx caps then call (verify_checksum src_addr dst_addr p) else mret true);
  c ← (if (good : bool) then mret 0 else call (checksum p));
  if negb good && negb match src_addr, dst_addr with Ip.Ipv4 _, Ip.Ipv4 _ => c =? 0 | _, _ => false end
  then err Malformed
  else sport ← call (src_port p); mret (mkRepr sport dport).

(** [Repr::emit_header] and [Repr::emit]; [emit_payload] gives what the closure
    leaves of the payload. *)
Definition emit_header (r : Repr) (payload_len : Z) (p : list Z) : outcome (list Z) :=
  p ← set_src_port (r_src_port r) p;
  p ← set_dst_port (r_dst_port r) p;
  p ← set_len (wrap 16 (HEADER_LEN + payload_len)) p;
  set_checksum 0 p.
Definition emit (r : Repr) (src_addr dst_addr : Ip.Address) (payload_len : Z) (emit_payload : list Z -> outcome (list Z))
    (caps : Caps.Checksum) (p : list Z) : outcome (list Z) :=
  p ← set_src_port (r_src_port r) p;
  p ← set_dst_port (r_dst_port r) p;
  p ← set_len (wrap 16 (HEADER_LEN + payload_len)) p;
  n ← len p;
  p ← edit (PAYLOAD n) emit_payload p;
  if Caps.tx caps then fill_checksum src_addr dst_addr p else set_checksum 0 p.

End packet.

(** ** Laws *)

Section laws.
Context {BE : ByteOrder} {HBE : ByteOrderLaws BE}.

(** The octets of a header. *)
Definition put (s d n c : Z) : list Z := u16_octets s ++ u16_octets d ++ u16_octets n ++ u16_octets c.

Ltac compute_fields :=
  unfold TcpPacket.get_u16, TcpPacket.set_u16, edit, range, put, u16_octets;
  cbn [app fst snd Nat.leb length andb Nat.sub drop take SRC_PORT DST_PORT LENGTH CHECKSUM]; rbind.

Lemma udp_get_src s d n c l : 0 <= s < 2 ^ 16 -> src_port (put s d n c ++ l) = Ret s.
Proof. intros H. unfold src_port. compute_fields. by apply (read_u16_octets _ []). Qed.
Lemma udp_get_dst s d n c l : 0 <= d < 2 ^ 16 -> dst_port (put s d n c ++ l) = Ret d.
Proof. intros H. unfold dst_port. compute_fields. by apply (read_u16_octets _ []). Qed.
Lemma udp_get_len s d n c l : 0 <= n < 2 ^ 16 -> len (put s d n c ++ l) = Ret n.
Proof. intros H. unfold len. compute_fields. by apply (read_u16_octets _ []). Qed.
Lemma udp_get_sum s d n c l : 0 <= c < 2 ^ 16 -> checksum (put s d n c ++ l) = Ret c.
Proof. intros H. unfold checksum. compute_fields. by apply (read_u16_octets _ []). Qed.
Lemma udp_put_src v s d n c l : 0 <= v < 2 ^ 16 -> set_src_port v (put s d n c ++ l) = Ret (put v d n c ++ l).
Proof. intros H. unfold set_src_port. compute_fields. by rewrite write_u16_be. Qed.
Lemma udp_put_dst v s d n c l : 0 <= v < 2 ^ 16 -> set_dst_port v (put s d n c ++ l) = Ret (put s v n c ++ l).
Proof. intros H. unfold set_dst_port. compute_fields. by rewrite write_u16_be. Qed.
Lemma udp_put_len v s d n c l : 0 <= v < 2 ^ 16 -> set_len v (put s d n c ++ l) = Ret (put s d v c ++ l).
Proof. intros H. unfold set_len. compute_fields. by rewrite write_u16_be. Qed.
Lemma udp_put_sum v s d n c l : 0 <= v < 2 ^ 16 -> set_checksum v (put s d n c ++ l) = Ret (put s d n v ++ l).
Proof. intros H. unfold set_checksum. compute_fields. by rewrite write_u16_be. Qed.

Lemma udp_octets_put s d n c :
  0 <= s < 2 ^ 16 -> 0 <= d < 2 ^ 16 -> 0 <= n < 2 ^ 16 -> 0 <= c < 2 ^ 16 -> octets (put s d n c).
Proof. intros. unfold put, octets. rewrite !Forall_app. split_and!; by apply octets_u16. Qed.

Lemma udp_header_split p :
  octets p -> (8 <= length p)%nat -> exists s d n c l,
    0 <= s < 2 ^ 16 /\ 0 <= d < 2 ^ 16 /\ 0 <= n < 2 ^ 16 /\ 0 <= c < 2 ^ 16 /\
    p = put s d n c ++ l /\ octets l /\ length p = (8 + length l)%nat.
Proof.
  intros Ho Hl.
  destruct (split_u16 p Ho ltac:(lia)) as (n1 & l1 & H1 & -> & Ho1 & E1).
  destruct (split_u16 l1 Ho1 ltac:(lia)) as (n2 & l2 & H2 & -> & Ho2 & E2).
  destruct (split_u16 l2 Ho2 ltac:(lia)) as (n3 & l3 & H3 & -> & Ho3 & E3).
  destruct (split_u16 l3 Ho3 ltac:(lia)) as (n4 & l4 & H4 & -> & Ho4 & E4).
  exists n1, n2, n3, n4, l4. unfold put. rewrite <-!app_assoc. do 4 (split; [done|]). split; [done|]. split; [done|lia].
Qed.

(** The sum of a datagram that fills its length. *)
Lemma udp_packet_sum_spec src dst n :
  same_family src dst -> 0 <= n < 2 ^ 16 -> exists P, 0 <= P < 2 ^ 16 /\
    forall s d c l, octets (put s d n c ++ l) -> Z.of_nat (8 + length l) = n ->
      packet_sum src dst (put s d n c ++ l) = Ret (ones_sum (P + ones_sum (word_sum (put s d n c ++ l)))).
Proof.
  intros (Hs & Hd & Hv) Hn.
  destruct (pseudo_header_range src dst Ip.Udp n Hs Hd Hv ltac:(cbn; lia) ltac:(lia)) as (P & HP & HPr).
  exists P. split; [done|]. intros s d c l Ho Hl. unfold packet_sum. rewrite udp_get_len by done. rbind. rewrite HP. rbind.
  assert (Hlen : Z.to_nat n = length (put s d n c ++ l)) by (rewrite length_app; change (length (put s d n c)) with 8%nat; lia).
  pose proof (range_tail [] (put s d n c ++ l) 0 _ eq_refl Hlen) as Hrg. cbn [app] in Hrg.
  rewrite Hrg. rbind.
  pose proof (word_sum_bounds _ Ho) as Hb. rewrite data_spec by (done || lia). rbind.
  pose proof (ones_sum_range (word_sum (put s d n c ++ l)) ltac:(lia)) as [Hr _].
  rewrite combine_spec by (done || (repeat constructor; done || lia)). cbn [foldr]. by rewrite Z.add_0_r.
Qed.

Lemma udp_word_sum_checksum c s d n l : word_sum (put s d n c ++ l) = word_sum (put s d n 0 ++ l) + c.
Proof.
  unfold put, u16_octets. cbn [app word_sum]. change (0 / 256) with 0. change (0 mod 256) with 0.
  pose proof (Z.div_mod c 256 ltac:(lia)). lia.
Qed.

Lemma udp_fill_checksum_spec src dst s d n c0 l :
  same_family src dst -> 0 <= s < 2 ^ 16 -> 0 <= d < 2 ^ 16 -> 0 <= n < 2 ^ 16 -> octets l -> Z.of_nat (8 + length l) = n ->
  exists c, 0 < c < 2 ^ 16 /\ fill_checksum src dst (put s d n c0 ++ l) = Ret (put s d n c ++ l) /\
    verify_checksum src dst (put s d n c ++ l) = Ret true.
Proof.
  intros Hf Hs Hd Hn Hl Hlen. destruct (udp_packet_sum_spec src dst n Hf Hn) as (P & HP & Hsum).
  assert (Hok : forall c, 0 <= c < 2 ^ 16 -> octets (put s d n c ++ l)).
  { intros c Hc. apply Forall_app. split; [|done]. by apply udp_octets_put. }
  pose proof (Hok 0 ltac:(lia)) as Ho0. pose proof (word_sum_bounds _ Ho0) as Hb0.
  set (W := word_sum (put s d n 0 ++ l)) in *.
  destruct (complement_closes P W ltac:(lia) ltac:(lia)) as (Hc & Hm & Hpos).
  pose proof (ones_sum_range W ltac:(lia)) as [Hr0 _]. pose proof (ones_sum_range (P + ones_sum W) ltac:(lia)) as [Hr _].
  set (c := 65535 - ones_sum (P + ones_sum W)) in *.
  set (c' := if c =? 0 then 0xffff else c).
  assert (Hc' : 0 < c' < 2 ^ 16 /\ (P + W + c') mod 65535 = 0).
  { subst c'. destruct (Z.eqb_spec c 0) as [Hz|]; [|lia]. split; [lia|]. rewrite Hz in Hm. dlia. }
  destruct Hc' as [Hc' Hm']. exists c'. split; [done|]. split.
  - unfold fill_checksum. rewrite udp_put_sum by done. rbind. rewrite Hsum by done. rbind. fold W.
    rewrite bnot_sub by (done || lia). change (2 ^ 16 - 1) with 65535. fold c. fold c'. rewrite udp_put_sum by lia. done.
  - unfold verify_checksum. rewrite udp_get_sum by lia. rbind. destruct (Z.eqb_spec c' 0); [lia|].
    rewrite Hsum by (done || apply Hok; lia). rbind. rewrite udp_word_sum_checksum. fold W. rewrite ones_sum_closes by lia. done.
Qed.

Lemma udp_check_len_ok s d n c l :
  0 <= n < 2 ^ 16 -> Z.of_nat (8 + length l) = n -> new_checked (put s d n c ++ l) = Ret (Ok (put s d n c ++ l)).
Proof.
  intros Hn Hl. unfold new_checked, check_len, HEADER_LEN.
  assert (Hlen : Z.of_nat (length (put s d n c ++ l)) = n) by (rewrite length_app; change (length (put s d n c)) with 8%nat; lia).
  rewrite Hlen. rewrite (proj2 (Z.ltb_ge n 8)) by lia. rewrite udp_get_len by done. cbn [call mbind res_bind].
  rewrite (proj2 (Z.ltb_ge n n)), (proj2 (Z.ltb_ge n 8)) by lia. done.
Qed.

End laws.

(** A datagram that can be written. *)
Definition repr_ok (r : Repr) : Prop := 0 <= r_src_port r < 2 ^ 16 /\ 0 < r_dst_port r < 2 ^ 16.

Section round_trip.
Context {BE : ByteOrder} {HBE : ByteOrderLaws BE}.

(** The octets of a datagram with a checksum. *)
Definition written (r : Repr) (data : list Z) (c : Z) : list Z :=
  put (r_src_port r) (r_dst_port r) (8 + Z.of_nat (length data)) c ++ data.

Lemma udp_length_written r data c : length (written r data c) = (8 + length data)%nat.
Proof. unfold written. rewrite length_app. done. Qed.

Lemma udp_emit_spec r data src dst sender p :
  repr_ok r -> octets data -> same_family src dst -> octets p ->
  length p = (8 + length data)%nat -> Z.of_nat (length p) < 2 ^ 16 ->
  exists c, 0 <= c < 2 ^ 16 /\ emit r src dst (Z.of_nat (length data)) (copy_slice data) sender p = Ret (written r data c) /\
    (Caps.tx sender = true -> verify_checksum src dst (written r data c) = Ret true).
Proof.
  intros [Hs Hd] Hdata Hf Hp Hlen Hlt. unfold written.
  destruct (udp_header_split p Hp ltac:(lia)) as (s0 & d0 & n0 & c0 & l & _ & _ & _ & _ & -> & Hl & Hll).
  set (n := 8 + Z.of_nat (length data)). assert (Hn : 0 <= n < 2 ^ 16) by lia.
  unfold emit. rewrite udp_put_src by done. rbind. rewrite udp_put_dst by lia. rbind. unfold HEADER_LEN. fold n.
  rewrite wrap_id by done. rewrite udp_put_len by done. rbind. rewrite udp_get_len by done. rbind. unfold PAYLOAD.
  rewrite (edit_tail (put (r_src_port r) (r_dst_port r) n c0) l data).
  2: done. 2: { rewrite length_app. change (length (put _ _ _ _)) with 8%nat. lia. }
  2: { unfold copy_slice. by rewrite (proj2 (Nat.eqb_eq _ _)) by lia. }
  rbind. destruct (Caps.tx sender).
  - destruct (udp_fill_checksum_spec src dst (r_src_port r) (r_dst_port r) n c0 data Hf Hs ltac:(lia) Hn Hdata ltac:(lia)) as (c & Hc & Hfill & Hv).
    exists c. split; [lia|]. done.
  - exists 0. split; [lia|]. split; [by apply udp_put_sum|done].
Qed.

Lemma udp_read_back r data src dst receiver c :
  repr_ok r -> octets data -> 8 + Z.of_nat (length data) < 2 ^ 16 -> 0 <= c < 2 ^ 16 ->
  (Caps.rx receiver = true -> verify_checksum src dst (written r data c) = Ret true) ->
  octets (written r data c) /\ new_checked (written r data c) = Ret (Ok (written r data c)) /\
  parse src dst receiver (written r data c) = Ret (Ok r) /\ payload (written r data c) = Ret data.
Proof.
  unfold written. intros [Hs Hd] Hdata Hlt Hc Hv. set (n := 8 + Z.of_nat (length data)) in *.
  split; [apply Forall_app; split; [apply udp_octets_put; lia|done]|]. split; [by rewrite udp_check_len_ok by lia|]. split.
  - unfold parse. rewrite udp_get_dst by lia. cbn [call mbind res_bind]. destruct (Z.eqb_spec (r_dst_port r) 0); [lia|].
    assert (Hgood : (if Caps.rx receiver then call (verify_checksum src dst (put (r_src_port r) (r_dst_port r) n c ++ data)) else mret true
      : res WireError bool) = Ret (Ok true)) by (destruct (Caps.rx receiver); [by rewrite Hv by auto|done]).
    rewrite Hgood. cbn [mbind res_bind negb andb]. rewrite udp_get_src by done. cbn. by destruct r.
  - unfold payload. rewrite udp_get_len by lia. rbind. unfold PAYLOAD. apply range_tail; [done|].
    rewrite length_app. change (length (put _ _ _ _)) with 8%nat. lia.
Qed.

End round_trip.

(** A datagram survives the wire: written into a buffer of the right size,
    whatever octets that held, it is read back with its ports and its payload. *)
Theorem udp_datagram_round_trip `{HBE : ByteOrderLaws} r data src dst sender receiver p :
  repr_ok r -> octets data -> same_family src dst -> octets p ->
  Z.of_nat (length p) = 8 + Z.of_nat (length data) -> Z.of_nat (length p) < 2 ^ 16 ->
  (Caps.rx receiver = true -> Caps.tx sender = true) ->
  exists w, emit r src dst (Z.of_nat (length data)) (copy_slice data) sender p = Ret w /\ octets w /\ length w = length p /\
    (w ← new_checked w; parse src dst receiver w) = Ret (Ok r) /\ payload w = Ret data.
Proof.
  intros Hr Hdata Hf Hp Hlen Hlt Hcaps.
  destruct (udp_emit_spec r data src dst sender p Hr Hdata Hf Hp ltac:(lia) Hlt) as (c & Hc & He & Hv).
  destruct (udp_read_back r data src dst receiver c Hr Hdata ltac:(lia) Hc ltac:(auto)) as (Ho & Hn & Hpr & Hpl).
  exists (written r data c). split; [done|]. split; [done|]. split; [rewrite udp_length_written; lia|].
  split; [|done]. rewrite Hn. exact Hpr.
Qed.

Lemma udp_datagram_round_trip_witness :
  exists w, emit (BE := network_endian) (mkRepr 53 4000) example_src example_dst 3 (copy_slice [1; 2; 3]) Caps.Both (replicate 11 255) = Ret w /\
    octets w /\ length w = 11%nat /\
    (w ← new_checked (BE := network_endian) w; parse (BE := network_endian) example_src example_dst Caps.Both w) = Ret (Ok (mkRepr 53 4000)) /\
    payload (BE := network_endian) w = Ret [1; 2; 3].
Proof.
  apply (udp_datagram_round_trip (HBE := network_endian_laws) (mkRepr 53 4000) [1; 2; 3] example_src example_dst Caps.Both Caps.Both (replicate 11 255)).
  - split; cbn; lia.
  - octet_list.
  - apply example_family.
  - apply Forall_replicate. lia.
  - done.
  - done.
  - done.
Defined.

(** A datagram over IPv6 whose checksum was left out is taken, although only IPv4
    allows it: the test for IPv4 comes after one that takes any zero checksum. *)
Theorem zero_checksum_is_taken_over_ipv6 :
  let a := Ip.Ipv6 (replicate 15 0 ++ [1]) in
  parse (BE := network_endian) a a Caps.Both [0; 53; 15; 160; 0; 11; 0; 0; 1; 2; 3] = Ret (Ok (mkRepr 53 4000)).
Proof. vm_compute. reflexivity. Qed.

End UdpPacket.
