(* ===== verification/Ipv4Packet.v ===== *)
(** * IPv4 packets and address blocks

    [smoltcp/src/wire/ipv4.rs], built without fragmentation: the fields of a
    header, its checksum, its representation written into a buffer and read back,
    and the blocks of addresses that routing asks. *)

From S2P Require Import Prelude TcpWire Wire TcpPacket TcpPacketLaws.
Import ChecksumLaws TcpPacketLaws.

Local Open Scope Z_scope.

Module Ipv4Packet.

(** ** Addresses *)

(** The questions on an [Address]. *)
Definition is_broadcast (a : list Z) : bool := bool_decide (a = [255; 255; 255; 255]).
Definition is_multicast (a : list Z) : outcome bool := x ← index a 0; Ret (Z.land x 0xf0 =? 224).
Definition is_unspecified (a : list Z) : outcome bool := x ← index a 0; Ret (x =? 0).
Definition is_unicast (a : list Z) : outcome bool :=
  m ← is_multicast a; u ← is_unspecified a; Ret (negb (is_broadcast a || m || u)).
Definition is_link_local (a : list Z) : outcome bool := d ← range (0, 2)%nat a; Ret (bool_decide (d = [169; 254])).
Definition is_loopback (a : list Z) : outcome bool := x ← index a 0; Ret (x =? 127).

(** [struct Cidr]. *)
Record Cidr : Type := mkCidr { address : list Z; prefix_len : Z }.
Definition cidr_new (address : list Z) (prefix_len : Z) : outcome Cidr :=
  if 32 <? prefix_len then Panic else Ret (mkCidr address prefix_len).

(** The octets of a number, [((number >> 24) & 0xff) as u8] and so on. *)
Definition number_octets (n : Z) : list Z :=
  [Z.land (Z.shiftr n 24) 0xff; Z.land (Z.shiftr n 16) 0xff; Z.land (Z.shiftr n 8) 0xff; Z.land (Z.shiftr n 0) 0xff].

(** [Cidr::netmask] and [Cidr::network]. *)
Definition netmask (c : Cidr) : list Z :=
  if prefix_len c =? 0 then [0; 0; 0; 0] else number_octets (wrap 32 (Z.shiftl 0xffffffff (32 - prefix_len c))).
Definition network (c : Cidr) : Cidr := mkCidr (zip_with Z.land (address c) (netmask c)) (prefix_len c).

(** [u32::leading_zeros], [u32::trailing_zeros], [u32::count_zeros] and
    [u32::count_ones], from the bits of a number, the lowest first. *)
Definition bits (n : Z) : list bool := map (fun i => Z.testbit n (Z.of_nat i)) (seq 0 32).
Fixpoint zeros_at_start (l : list bool) : Z :=
  match l with false :: l => 1 + zeros_at_start l | _ => 0 end.
Definition trailing_zeros (n : Z) : Z := zeros_at_start (bits n).
Definition leading_zeros (n : Z) : Z := zeros_at_start (rev (bits n)).
Definition count_ones (n : Z) : Z := Z.of_nat (length (filter (fun b => b = true) (bits n))).
Definition count_zeros (n : Z) : Z := Z.of_nat (length (filter (fun b => b = false) (bits n))).

Section cidr.
Context {BE : ByteOrder}.

(** [Cidr::from_netmask]. *)
Definition from_netmask (addr netmask : list Z) : res WireError Cidr :=
  netmask ← call (read_u32 netmask);
  if (leading_zeros netmask =? 0) && (trailing_zeros netmask =? count_zeros netmask)
  then mret (mkCidr addr (wrap 8 (count_ones netmask)))
  else err Malformed.

(** [Cidr::broadcast]. *)
Definition broadcast (c : Cidr) : outcome (option (list Z)) :=
  let n := network c in
  if (prefix_len n =? 31) || (prefix_len n =? 32) then Ret None
  else network_number ← read_u32 (address n);
       Ret (Some (number_octets (Z.lor network_number (Z.shiftr 0xffffffff (prefix_len n))))).

(** [Cidr::contains_addr] and [Cidr::contains_subnet]. *)
Definition contains_addr (c : Cidr) (addr : list Z) : outcome bool :=
  if prefix_len c =? 0 then Ret true
  else let shift := 32 - prefix_len c in
       self_prefix ← read_u32 (address c);
       addr_prefix ← read_u32 addr;
       Ret (Z.shiftr self_prefix shift =? Z.shiftr addr_prefix shift).
Definition contains_subnet (c subnet : Cidr) : outcome bool :=
  if prefix_len c <=? prefix_len subnet then contains_addr c (address subnet) else Ret false.

End cidr.

(** ** Packets *)

Definition VER_IHL : nat := 0.
Definition DSCP_ECN : nat := 1.
Definition LENGTH : nat * nat := (2, 4)%nat.
Definition IDENT : nat * nat := (4, 6)%nat.
Definition FLG_OFF : nat * nat := (6, 8)%nat.
Definition TTL : nat := 8.
Definition PROTOCOL : nat := 9.
Definition CHECKSUM : nat * nat := (10, 12)%nat.
Definition SRC_ADDR : nat * nat := (12, 16)%nat.
Definition DST_ADDR : nat * nat := (16, 20)%nat.
Definition HEADER_LEN : Z := 20.

(** [From<u8> for Protocol]. *)
Definition protocol_of (id : Z) : Ip.Protocol :=
  if id =? 0x00 then Ip.HopByHop else if id =? 0x01 then Ip.Icmp else if id =? 0x02 then Ip.Igmp
  else if id =? 0x06 then Ip.TcpProtocol else if id =? 0x11 then Ip.Udp else if id =? 0x2b then Ip.Ipv6Route
  else if id =? 0x2c then Ip.Ipv6Frag else if id =? 0x32 then Ip.IpSecEsp else if id =? 0x33 then Ip.IpSecAh
  else if id =? 0x3a then Ip.Icmpv6 else if id =? 0x3b then Ip.Ipv6NoNxt else if id =? 0x3c then Ip.Ipv6Opts
  else Ip.Unknown id.

(** [data[i] = f(data[i])]. *)
Definition update (i : nat) (f : Z -> Z) (p : list Z) : outcome (list Z) := x ← index p i; index_set p i (f x).
(** [data[range].copy_from_slice(value)]. *)
Definition copy_to (r : nat * nat) (value p : list Z) : outcome (list Z) :=
  edit r (fun d => if (length d =? length value)%nat then Ret value else Panic) p.

Section packet.
Context {BE : ByteOrder}.

Definition version (p : list Z) : outcome Z := x ← index p VER_IHL; Ret (Z.shiftr x 4).
Definition header_len (p : list Z) : outcome Z := x ← index p VER_IHL; Ret (wrap 8 (Z.land x 0x0f * 4)).
Definition dscp (p : list Z) : outcome Z := x ← index p DSCP_ECN; Ret (Z.shiftr x 2).
Definition ecn (p : list Z) : outcome Z := x ← index p DSCP_ECN; Ret (Z.land x 0x03).
Definition total_len : list Z -> outcome Z := TcpPacket.get_u16 LENGTH.
Definition ident : list Z -> outcome Z := TcpPacket.get_u16 IDENT.
Definition dont_frag (p : list Z) : outcome bool := x ← TcpPacket.get_u16 FLG_OFF p; Ret (negb (Z.land x 0x4000 =? 0)).
Definition more_frags (p : list Z) : outcome bool := x ← TcpPacket.get_u16 FLG_OFF p; Ret (negb (Z.land x 0x2000 =? 0)).
Definition frag_offset (p : list Z) : outcome Z := x ← TcpPacket.get_u16 FLG_OFF p; Ret (wrap 16 (Z.shiftl x 3)).
Definition hop_limit (p : list Z) : outcome Z := index p TTL.
Definition next_header (p : list Z) : outcome Ip.Protocol := x ← index p PROTOCOL; Ret (protocol_of x).
Definition checksum : list Z -> outcome Z := TcpPacket.get_u16 CHECKSUM.
Definition src_addr (p : list Z) : outcome (list Z) := range SRC_ADDR p.
Definition dst_addr (p : list Z) : outcome (list Z) := range DST_ADDR p.

(** [Packet::check_len] and [Packet::new_checked]. *)
Definition check_len (p : list Z) : res WireError unit :=
  let len := Z.of_nat (length p) in
  if len <? HEADER_LEN then err Malformed
  else h ← call (header_len p);
       if len <? h then err Malformed
       else t ← call (total_len p);
            if t <? h then err Malformed
            else if len <? t then err Malformed else mret tt.
Definition new_checked (buffer : list Z) : res WireError (list Z) := _ ← check_len buffer; mret buffer.

(** [Packet::verify_checksum] and [Packet::payload]. *)
Definition header_sum (p : list Z) : outcome Z :=
  h ← header_len p; d ← range (0%nat, Z.to_nat h) p; Checksum.data d.
Definition verify_checksum (p : list Z) : outcome bool := s ← header_sum p; Ret (s =? bnot 16 0).
Definition payload (p : list Z) : outcome (list Z) :=
  h ← header_len p; t ← total_len p; range (Z.to_nat h, Z.to_nat t) p.

Definition set_version (value : Z) : list Z -> outcome (list Z) :=
  update VER_IHL (fun x => Z.lor (Z.land x (bnot 8 0xf0)) (wrap 8 (Z.shiftl value 4))).
Definition set_header_len (value : Z) : list Z -> outcome (list Z) :=
  update VER_IHL (fun x => Z.lor (Z.land x (bnot 8 0x0f)) (Z.land (value / 4) 0x0f)).
Definition set_dscp (value : Z) : list Z -> outcome (list Z) :=
  update DSCP_ECN (fun x => Z.lor (Z.land x (bnot 8 0xfc)) (wrap 8 (Z.shiftl value 2))).
Definition set_ecn (value : Z) : list Z -> outcome (list Z) :=
  update DSCP_ECN (fun x => Z.lor (Z.land x (bnot 8 0x03)) (Z.land value 0x03)).
Definition set_total_len : Z -> list Z -> outcome (list Z) := TcpPacket.set_u16 LENGTH.
Definition set_ident : Z -> list Z -> outcome (list Z) := TcpPacket.set_u16 IDENT.

(** Changes of the field with the flags and the offset. *)
Definition update_flags (f : Z -> Z) (p : list Z) : outcome (list Z) :=
  raw ← TcpPacket.get_u16 FLG_OFF p; TcpPacket.set_u16 FLG_OFF (f raw) p.
Definition clear_flags : list Z -> outcome (list Z) := update_flags (fun raw => Z.land raw (bnot 16 0xe000)).
Definition set_dont_frag (value : bool) : list Z -> outcome (list Z) :=
  update_flags (fun raw => if value then Z.lor raw 0x4000 else Z.land raw (bnot 16 0x4000)).
Definition set_more_frags (value : bool) : list Z -> outcome (list Z) :=
  update_flags (fun raw => if value then Z.lor raw 0x2000 else Z.land raw (bnot 16 0x2000)).
Definition set_frag_offset (value : Z) : list Z -> outcome (list Z) :=
  update_flags (fun raw => Z.lor (Z.land raw 0xe000) (Z.shiftr value 3)).
Definition set_hop_limit (value : Z) (p : list Z) : outcome (list Z) := index_set p TTL value.
Definition set_next_header (value : Ip.Protocol) (p : list Z) : outcome (list Z) :=
  index_set p PROTOCOL (Checksum.protocol_id value).
Definition set_checksum : Z -> list Z -> outcome (list Z) := TcpPacket.set_u16 CHECKSUM.
Definition set_src_addr (value p : list Z) : outcome (list Z) := copy_to SRC_ADDR value p.
Definition set_dst_addr (value p : list Z) : outcome (list Z) := copy_to DST_ADDR value p.

(** [Packet::fill_checksum]. *)
Definition fill_checksum (p : list Z) : outcome (list Z) :=
  p ← set_checksum 0 p; s ← header_sum p; set_checksum (bnot 16 s) p.

(** [Repr::parse]. *)
Definition parse (caps : Caps.Checksum) (p : list Z) : res WireError Ip.VRepr :=
  v ← call (version p);
  if negb (v =? 4) then err Malformed else
  good ← (if Caps.rx caps then call (verify_checksum p) else mret true);
  if negb good then err Malformed else
  more ← call (more_frags p);
  off ← call (frag_offset p);
  if more || negb (off =? 0) then err Malformed else
  t ← call (total_len p); h ← call (header_len p);
  src ← call (src_addr p); dst ← call (dst_addr p); next ← call (next_header p); hop ← call (hop_limit p);
  mret (Ip.mkV src dst next (wrap 64 (t - h)) hop).

(** [Repr::emit]. *)
Definition emit (r : Ip.VRepr) (caps : Caps.Checksum) (p : list Z) : outcome (list Z) :=
  p ← set_version 4 p;
  p ← set_header_len 20 p;
  p ← set_dscp 0 p;
  p ← set_ecn 0 p;
  h ← header_len p;
  p ← set_total_len (wrap 16 (h + wrap 16 (Ip.v_payload_len r))) p;
  p ← set_ident 0 p;
  p ← clear_flags p;
  p ← set_more_frags false p;
  p ← set_dont_frag true p;
  p ← set_frag_offset 0 p;
  p ← set_hop_limit (Ip.hop_limit r) p;
  p ← set_next_header (Ip.next_header r) p;
  p ← set_src_addr (Ip.v_src r) p;
  p ← set_dst_addr (Ip.v_dst r) p;
  if Caps.tx caps then fill_checksum p else set_checksum 0 p.

End packet.

(** ** The header *)

Record hdr : Type := mkHdr {
  h_vi : Z; h_tos : Z; h_len : Z; h_id : Z; h_fl : Z; h_ttl : Z; h_pr : Z; h_su : Z; h_sa : list Z; h_da : list Z
}.
Record hdr_ok (h : hdr) : Prop := mkHdrOk {
  ho_vi : octet (h_vi h); ho_tos : octet (h_tos h); ho_len : 0 <= h_len h < 2 ^ 16; ho_id : 0 <= h_id h < 2 ^ 16;
  ho_fl : 0 <= h_fl h < 2 ^ 16; ho_ttl : octet (h_ttl h); ho_pr : octet (h_pr h); ho_su : 0 <= h_su h < 2 ^ 16;
  ho_sa : length (h_sa h) = 4%nat /\ octets (h_sa h); ho_da : length (h_da h) = 4%nat /\ octets (h_da h)
}.
Definition numbers (h : hdr) : list Z :=
  [h_vi h; h_tos h] ++ u16_octets (h_len h) ++ u16_octets (h_id h) ++ u16_octets (h_fl h) ++ [h_ttl h; h_pr h] ++
  u16_octets (h_su h).
Definition put (h : hdr) : list Z := numbers h ++ h_sa h ++ h_da h.

Definition with_vi (v : Z) (h : hdr) : hdr := mkHdr v (h_tos h) (h_len h) (h_id h) (h_fl h) (h_ttl h) (h_pr h) (h_su h) (h_sa h) (h_da h).
Definition with_tos (v : Z) (h : hdr) : hdr := mkHdr (h_vi h) v (h_len h) (h_id h) (h_fl h) (h_ttl h) (h_pr h) (h_su h) (h_sa h) (h_da h).
Definition with_len (v : Z) (h : hdr) : hdr := mkHdr (h_vi h) (h_tos h) v (h_id h) (h_fl h) (h_ttl h) (h_pr h) (h_su h) (h_sa h) (h_da h).
Definition with_id (v : Z) (h : hdr) : hdr := mkHdr (h_vi h) (h_tos h) (h_len h) v (h_fl h) (h_ttl h) (h_pr h) (h_su h) (h_sa h) (h_da h).
Definition with_fl (v : Z) (h : hdr) : hdr := mkHdr (h_vi h) (h_tos h) (h_len h) (h_id h) v (h_ttl h) (h_pr h) (h_su h) (h_sa h) (h_da h).
Definition with_ttl (v : Z) (h : hdr) : hdr := mkHdr (h_vi h) (h_tos h) (h_len h) (h_id h) (h_fl h) v (h_pr h) (h_su h) (h_sa h) (h_da h).
Definition with_pr (v : Z) (h : hdr) : hdr := mkHdr (h_vi h) (h_tos h) (h_len h) (h_id h) (h_fl h) (h_ttl h) v (h_su h) (h_sa h) (h_da h).
Definition with_su (v : Z) (h : hdr) : hdr := mkHdr (h_vi h) (h_tos h) (h_len h) (h_id h) (h_fl h) (h_ttl h) (h_pr h) v (h_sa h) (h_da h).
Definition with_sa (v : list Z) (h : hdr) : hdr := mkHdr (h_vi h) (h_tos h) (h_len h) (h_id h) (h_fl h) (h_ttl h) (h_pr h) (h_su h) v (h_da h).
Definition with_da (v : list Z) (h : hdr) : hdr := mkHdr (h_vi h) (h_tos h) (h_len h) (h_id h) (h_fl h) (h_ttl h) (h_pr h) (h_su h) (h_sa h) v.

Lemma ip_octets_put h : hdr_ok h -> octets (put h).
Proof.
  intros []. unfold put, numbers, octets. rewrite !Forall_app. split_and!; try by apply octets_u16.
  - octet_list.
  - octet_list.
  - apply ho_sa0.
  - apply ho_da0.
Qed.

Lemma ip_length_put h : hdr_ok h -> length (put h) = 20%nat.
Proof. intros []. unfold put. rewrite !length_app. destruct ho_sa0 as [-> _], ho_da0 as [-> _]. done. Qed.

Lemma ip_header_split p :
  octets p -> (20 <= length p)%nat -> exists h l, hdr_ok h /\ p = put h ++ l /\ octets l /\ length p = (20 + length l)%nat.
Proof.
  intros Ho Hl. destruct p as [|v [|t p]]; [cbn in Hl; lia..|]. cbn [length] in *. apply Forall_cons in Ho as [Hv [Ht Ho]%Forall_cons].
  destruct (split_u16 p Ho ltac:(lia)) as (n1 & l1 & H1 & -> & Ho1 & E1).
  destruct (split_u16 l1 Ho1 ltac:(lia)) as (n2 & l2 & H2 & -> & Ho2 & E2).
  destruct (split_u16 l2 Ho2 ltac:(lia)) as (n3 & l3 & H3 & -> & Ho3 & E3).
  destruct l3 as [|a [|b l3]]; [cbn in *; lia..|]. cbn [length] in *. apply Forall_cons in Ho3 as [Ha [Hb Ho3]%Forall_cons].
  destruct (split_u16 l3 Ho3 ltac:(lia)) as (n4 & l4 & H4 & -> & Ho4 & E4).
  exists (mkHdr v t n1 n2 n3 a b n4 (take 4 l4) (take 4 (drop 4 l4))), (drop 8 l4).
  assert (Hd : octets (drop 4 l4)) by (by apply Forall_drop).
  split; [split; cbn [h_vi h_tos h_len h_id h_fl h_ttl h_pr h_su h_sa h_da]; try done|].
  - split; [rewrite length_take; lia|by apply Forall_take].
  - split; [rewrite length_take, length_drop; lia|by apply Forall_take].
  - split; [|split; [by apply Forall_drop|rewrite length_drop; lia]]. unfold put.
    unfold numbers. cbn [h_vi h_tos h_len h_id h_fl h_ttl h_pr h_su h_sa h_da]. rewrite <-!app_assoc. cbn [app].
    replace (take 4 l4 ++ take 4 (drop 4 l4) ++ drop 8 l4) with l4; [done|].
    rewrite <-(take_drop 4 l4) at 1. f_equal. rewrite <-(take_drop 4 (drop 4 l4)) at 1. f_equal. by rewrite drop_drop.
Qed.

Section fields.
Context {BE : ByteOrder} {HBE : ByteOrderLaws BE}.

Ltac compute_fields :=
  unfold TcpPacket.get_u16, TcpPacket.set_u16, edit, range, put, numbers, u16_octets;
  cbn [app fst snd Nat.leb length andb Nat.sub drop take LENGTH IDENT FLG_OFF CHECKSUM]; rbind.

Lemma ip_index_vi h l : index (put h ++ l) VER_IHL = Ret (h_vi h).
Proof. done. Qed.
Lemma ip_set_vi v h l : index_set (put h ++ l) VER_IHL v = Ret (put (with_vi v h) ++ l).
Proof. unfold index_set. by rewrite decide_True by (unfold VER_IHL, DSCP_ECN, TTL, PROTOCOL; cbn; lia). Qed.
Lemma ip_index_tos h l : index (put h ++ l) DSCP_ECN = Ret (h_tos h).
Proof. done. Qed.
Lemma ip_set_tos v h l : index_set (put h ++ l) DSCP_ECN v = Ret (put (with_tos v h) ++ l).
Proof. unfold index_set. by rewrite decide_True by (unfold VER_IHL, DSCP_ECN, TTL, PROTOCOL; cbn; lia). Qed.
Lemma ip_index_ttl h l : index (put h ++ l) TTL = Ret (h_ttl h).
Proof. done. Qed.
Lemma ip_set_ttl v h l : index_set (put h ++ l) TTL v = Ret (put (with_ttl v h) ++ l).
Proof. unfold index_set. by rewrite decide_True by (unfold VER_IHL, DSCP_ECN, TTL, PROTOCOL; cbn; lia). Qed.
Lemma ip_index_pr h l : index (put h ++ l) PROTOCOL = Ret (h_pr h).
Proof. done. Qed.
Lemma ip_set_pr v h l : index_set (put h ++ l) PROTOCOL v = Ret (put (with_pr v h) ++ l).
Proof. unfold index_set. by rewrite decide_True by (unfold VER_IHL, DSCP_ECN, TTL, PROTOCOL; cbn; lia). Qed.
Lemma ip_get_len h l : 0 <= h_len h < 2 ^ 16 -> TcpPacket.get_u16 LENGTH (put h ++ l) = Ret (h_len h).
Proof. intros H. compute_fields. by apply (read_u16_octets _ []). Qed.
Lemma ip_put_len v h l : 0 <= v < 2 ^ 16 -> TcpPacket.set_u16 LENGTH v (put h ++ l) = Ret (put (with_len v h) ++ l).
Proof. intros H. compute_fields. by rewrite write_u16_be. Qed.
Lemma ip_get_id h l : 0 <= h_id h < 2 ^ 16 -> TcpPacket.get_u16 IDENT (put h ++ l) = Ret (h_id h).
Proof. intros H. compute_fields. by apply (read_u16_octets _ []). Qed.
Lemma ip_put_id v h l : 0 <= v < 2 ^ 16 -> TcpPacket.set_u16 IDENT v (put h ++ l) = Ret (put (with_id v h) ++ l).
Proof. intros H. compute_fields. by rewrite write_u16_be. Qed.
Lemma ip_get_fl h l : 0 <= h_fl h < 2 ^ 16 -> TcpPacket.get_u16 FLG_OFF (put h ++ l) = Ret (h_fl h).
Proof. intros H. compute_fields. by apply (read_u16_octets _ []). Qed.
Lemma ip_put_fl v h l : 0 <= v < 2 ^ 16 -> TcpPacket.set_u16 FLG_OFF v (put h ++ l) = Ret (put (with_fl v h) ++ l).
Proof. intros H. compute_fields. by rewrite write_u16_be. Qed.
Lemma ip_get_su h l : 0 <= h_su h < 2 ^ 16 -> TcpPacket.get_u16 CHECKSUM (put h ++ l) = Ret (h_su h).
Proof. intros H. compute_fields. by apply (read_u16_octets _ []). Qed.
Lemma ip_put_su v h l : 0 <= v < 2 ^ 16 -> TcpPacket.set_u16 CHECKSUM v (put h ++ l) = Ret (put (with_su v h) ++ l).
Proof. intros H. compute_fields. by rewrite write_u16_be. Qed.

Lemma ip_put_sa v h l : hdr_ok h -> length v = 4%nat -> copy_to SRC_ADDR v (put h ++ l) = Ret (put (with_sa v h) ++ l).
Proof.
  intros Hh Hv. destruct (ho_sa h Hh) as [Hs _]. unfold copy_to, SRC_ADDR, put. rewrite <-!app_assoc.
  rewrite (edit_app (numbers h) (h_sa h) v) by (done || (rewrite Hs; done) || by rewrite Hs, Hv). done.
Qed.

Lemma ip_put_da v h l : hdr_ok h -> length v = 4%nat -> copy_to DST_ADDR v (put h ++ l) = Ret (put (with_da v h) ++ l).
Proof.
  intros Hh Hv. destruct (ho_sa h Hh) as [Hs _]. destruct (ho_da h Hh) as [Hd _]. unfold copy_to, DST_ADDR, put.
  rewrite <-!app_assoc, (app_assoc (numbers h)).
  rewrite (edit_app (numbers h ++ h_sa h) (h_da h) v) by (rewrite ?length_app, ?Hs, ?Hd, ?Hv; done). by rewrite <-app_assoc.
Qed.

Lemma ip_addresses h l : hdr_ok h -> src_addr (put h ++ l) = Ret (h_sa h) /\ dst_addr (put h ++ l) = Ret (h_da h).
Proof.
  intros Hh. destruct (ho_sa h Hh) as [Hs _]. destruct (ho_da h Hh) as [Hd _]. unfold src_addr, dst_addr, SRC_ADDR, DST_ADDR, put.
  rewrite <-!app_assoc. split; [by apply range_app; rewrite ?Hs|]. rewrite app_assoc.
  apply range_app; rewrite ?length_app, ?Hs, ?Hd; done.
Qed.

End fields.

(** ** Writing a packet *)

(** The representation of a header that can be written. *)
Record vrepr_ok (r : Ip.VRepr) : Prop := mkVOk {
  vo_src : length (Ip.v_src r) = 4%nat /\ octets (Ip.v_src r);
  vo_dst : length (Ip.v_dst r) = 4%nat /\ octets (Ip.v_dst r);
  vo_next : octet (Checksum.protocol_id (Ip.next_header r)) /\
    protocol_of (Checksum.protocol_id (Ip.next_header r)) = Ip.next_header r;
  vo_hop : octet (Ip.hop_limit r);
  vo_len : 0 <= Ip.v_payload_len r < 2 ^ 16 - 20
}.

Definition written (r : Ip.VRepr) (c : Z) : hdr :=
  mkHdr 0x45 0 (20 + Ip.v_payload_len r) 0 0x4000 (Ip.hop_limit r) (Checksum.protocol_id (Ip.next_header r)) c
    (Ip.v_src r) (Ip.v_dst r).

Lemma written_ok r c : vrepr_ok r -> 0 <= c < 2 ^ 16 -> hdr_ok (written r c).
Proof. intros [] Hc. split; cbn; try done; lia || apply vo_next0. Qed.

(** What is left of the octets of the buffer, bit by bit. *)
Lemma land_disjoint x a b : Z.land a b = 0 -> Z.land (Z.land x a) b = 0.
Proof. intros H. by rewrite <-Z.land_assoc, H, Z.land_0_r. Qed.

Lemma version_bits x :
  Z.lor (Z.land (Z.lor (Z.land x (bnot 8 0xf0)) (wrap 8 (Z.shiftl 4 4))) (bnot 8 0x0f)) (Z.land (20 / 4) 0x0f) = 0x45.
Proof. by rewrite Z.land_lor_distr_l, land_disjoint by done. Qed.

Lemma tos_bits x : Z.lor (Z.land (Z.lor (Z.land x (bnot 8 0xfc)) (wrap 8 (Z.shiftl 0 2))) (bnot 8 0x03)) (Z.land 0 0x03) = 0.
Proof. by rewrite Z.land_lor_distr_l, land_disjoint by done. Qed.

Lemma flag_bits x :
  Z.lor (Z.land (Z.lor (Z.land (Z.land x (bnot 16 0xe000)) (bnot 16 0x2000)) 0x4000) 0xe000) (Z.shiftr 0 3) = 0x4000.
Proof.
  rewrite <-(Z.land_assoc x), Z.land_lor_distr_l, land_disjoint by done. done.
Qed.

Section emission.
Context {BE : ByteOrder} {HBE : ByteOrderLaws BE}.

Lemma update_flags_put f h l :
  0 <= h_fl h < 2 ^ 16 -> 0 <= f (h_fl h) < 2 ^ 16 -> update_flags f (put h ++ l) = Ret (put (with_fl (f (h_fl h)) h) ++ l).
Proof. intros Hh Hf. unfold update_flags. rewrite ip_get_fl by done. rbind. by apply ip_put_fl. Qed.

Lemma update_vi f h l : update VER_IHL f (put h ++ l) = Ret (put (with_vi (f (h_vi h)) h) ++ l).
Proof. unfold update. rewrite ip_index_vi. rbind. apply ip_set_vi. Qed.
Lemma update_tos f h l : update DSCP_ECN f (put h ++ l) = Ret (put (with_tos (f (h_tos h)) h) ++ l).
Proof. unfold update. rewrite ip_index_tos. rbind. apply ip_set_tos. Qed.

Lemma ip_word_sum c h : word_sum (put (with_su c h)) = word_sum (put (with_su 0 h)) + c.
Proof.
  unfold put, numbers, u16_octets. cbn [app word_sum with_su h_vi h_tos h_len h_id h_fl h_ttl h_pr h_su h_sa h_da].
  change (0 / 256) with 0. change (0 mod 256) with 0. pose proof (Z.div_mod c 256 ltac:(lia)). lia.
Qed.

Lemma header_sum_put h l :
  hdr_ok h -> h_vi h = 0x45 -> header_sum (put h ++ l) = Ret (ones_sum (word_sum (put h))).
Proof.
  intros Hh Hv. unfold header_sum, header_len. rewrite ip_index_vi. rbind. rewrite Hv. change (Z.to_nat _) with 20%nat.
  pose proof (range_app [] (put h) l 0 20 eq_refl ltac:(cbn [length]; by rewrite ip_length_put)) as Hr. cbn [app] in Hr.
  rewrite Hr. rbind. pose proof (ip_octets_put h Hh) as Ho. pose proof (word_sum_bounds _ Ho) as Hb.
  rewrite ip_length_put in Hb by done. apply data_spec; [done|lia].
Qed.

Lemma ip_fill_checksum h l :
  hdr_ok h -> h_vi h = 0x45 ->
  exists c, 0 <= c < 2 ^ 16 /\ fill_checksum (put h ++ l) = Ret (put (with_su c h) ++ l) /\
    verify_checksum (put (with_su c h) ++ l) = Ret true.
Proof.
  intros Hh Hv. assert (Hok : forall c, 0 <= c < 2 ^ 16 -> hdr_ok (with_su c h)) by (intros c Hc; destruct Hh; by split).
  pose proof (Hok 0 ltac:(lia)) as H0. pose proof (word_sum_bounds _ (ip_octets_put _ H0)) as Hb.
  set (W := word_sum (put (with_su 0 h))) in *. pose proof (ones_sum_range W ltac:(lia)) as [Hr _].
  pose proof (complement_closes 0 W ltac:(lia) ltac:(lia)) as Hcc. cbn zeta in Hcc.
  rewrite !Z.add_0_l, !ones_sum_idem in Hcc by lia. destruct Hcc as (Hc & Hm & Hpos).
  exists (65535 - ones_sum W). split; [done|]. split.
  - unfold fill_checksum, set_checksum. rewrite ip_put_su by done. rbind. rewrite header_sum_put by done. rbind. fold W.
    rewrite bnot_sub by (done || lia). rewrite ip_put_su by done. done.
  - unfold verify_checksum. rewrite header_sum_put by (done || by apply Hok). rbind. rewrite ip_word_sum. fold W.
    pose proof (ones_sum_closes 0 W (65535 - ones_sum W) ltac:(lia) ltac:(lia) ltac:(lia) Hm Hpos) as Hcl.
    rewrite Z.add_0_l, ones_sum_idem in Hcl by lia. by rewrite Hcl.
Qed.

(** The steps of [emit] that write the first eight octets. *)
Lemma emit_numbers n h l :
  hdr_ok h -> 0 <= n < 2 ^ 16 - 20 ->
  (p ← set_version 4 (put h ++ l); p ← set_header_len 20 p; p ← set_dscp 0 p; p ← set_ecn 0 p;
   k ← header_len p; p ← set_total_len (wrap 16 (k + wrap 16 n)) p; set_ident 0 p) =
  Ret (put (mkHdr 0x45 0 (20 + n) 0 (h_fl h) (h_ttl h) (h_pr h) (h_su h) (h_sa h) (h_da h)) ++ l).
Proof.
  intros Hh Hn. unfold set_version, set_header_len, set_dscp, set_ecn, set_total_len, set_ident.
  rewrite update_vi. rbind. rewrite update_vi. rbind. rewrite update_tos. rbind. rewrite update_tos. rbind.
  unfold with_vi, with_tos. cbn [h_vi h_tos h_len h_id h_fl h_ttl h_pr h_su h_sa h_da]. rewrite version_bits, tos_bits.
  unfold header_len. rewrite ip_index_vi. rbind. cbn [h_vi]. change (wrap 8 (Z.land 69 15 * 4)) with 20.
  rewrite (wrap_id 16 n), wrap_id by (unfold is_uint; lia).
  rewrite ip_put_len by lia. rbind. by rewrite ip_put_id.
Qed.

(** Those that write the flags and the offset. *)
Lemma emit_flags h l :
  0 <= h_fl h < 2 ^ 16 ->
  (p ← clear_flags (put h ++ l); p ← set_more_frags false p; p ← set_dont_frag true p; set_frag_offset 0 p) =
  Ret (put (with_fl 0x4000 h) ++ l).
Proof.
  intros Hfl. unfold clear_flags, set_more_frags, set_dont_frag, set_frag_offset.
  assert (U1 : is_uint 16 (Z.land (h_fl h) (bnot 16 0xe000))) by (by apply uint_land).
  assert (U2 : is_uint 16 (Z.land (Z.land (h_fl h) (bnot 16 0xe000)) (bnot 16 0x2000))) by (by apply uint_land).
  assert (U3 : is_uint 16 (Z.lor (Z.land (Z.land (h_fl h) (bnot 16 0xe000)) (bnot 16 0x2000)) 0x4000)) by (by apply uint_lor).
  pose proof (flag_bits (h_fl h)) as Hb. revert U1 U2 U3 Hb.
  generalize (bnot 16 0xe000), (bnot 16 0x2000). intros m1 m2 U1 U2 U3 Hb.
  do 3 (rewrite update_flags_put by done; rbind).
  rewrite update_flags_put; cbn [with_fl h_fl]; [by rewrite Hb|done|rewrite Hb; lia].
Qed.

(** Those that write the rest of the header but the checksum. *)
Lemma emit_rest r h l :
  vrepr_ok r -> hdr_ok h ->
  (p ← set_hop_limit (Ip.hop_limit r) (put h ++ l); p ← set_next_header (Ip.next_header r) p;
   p ← set_src_addr (Ip.v_src r) p; set_dst_addr (Ip.v_dst r) p) =
  Ret (put (mkHdr (h_vi h) (h_tos h) (h_len h) (h_id h) (h_fl h) (Ip.hop_limit r) (Checksum.protocol_id (Ip.next_header r))
              (h_su h) (Ip.v_src r) (Ip.v_dst r)) ++ l).
Proof.
  intros [[Hs4 Hso] [Hd4 Hdo] [Hn _] Hhop Hlen] []. unfold set_hop_limit, set_next_header, set_src_addr, set_dst_addr.
  rewrite ip_set_ttl. rbind. rewrite ip_set_pr. rbind. rewrite ip_put_sa by (done || by split). rbind.
  by rewrite ip_put_da by (done || by split).
Qed.

Lemma ip_emit_spec r caps p :
  vrepr_ok r -> octets p -> (20 <= length p)%nat ->
  exists c, 0 <= c < 2 ^ 16 /\ emit r caps p = Ret (put (written r c) ++ drop 20 p) /\
    (Caps.tx caps = true -> verify_checksum (put (written r c) ++ drop 20 p) = Ret true).
Proof.
  intros Hr Hp Hl. destruct (ip_header_split p Hp Hl) as (h & l & Hh & -> & _ & _).
  replace (drop 20 (put h ++ l)) with l by (rewrite <-(ip_length_put h Hh); by rewrite drop_app_length).
  pose proof (vo_len r Hr) as Hlen. destruct (ip_fill_checksum (written r (h_su h)) l) as (c & Hc & Hf & Hv);
    [apply written_ok; [done|apply Hh]|done|].
  assert (He : emit r caps (put h ++ l) =
    if Caps.tx caps then fill_checksum (put (written r (h_su h)) ++ l) else set_checksum 0 (put (written r (h_su h)) ++ l)).
  { pose proof (emit_numbers (Ip.v_payload_len r) h l Hh Hlen) as E1.
    pose proof (emit_flags (mkHdr 0x45 0 (20 + Ip.v_payload_len r) 0 (h_fl h) (h_ttl h) (h_pr h) (h_su h) (h_sa h) (h_da h)) l
      (ho_fl h Hh)) as E2.
    pose proof (emit_rest r (mkHdr 0x45 0 (20 + Ip.v_payload_len r) 0 0x4000 (h_ttl h) (h_pr h) (h_su h) (h_sa h) (h_da h)) l Hr) as E3.
    apply bind_ret in E1 as (p1 & H1 & E1). unfold emit. rewrite H1. rbind. clear H1.
    do 5 (apply bind_ret in E1 as (? & H1 & E1); rewrite H1; rbind; clear H1). rewrite E1. rbind. clear E1.
    do 3 (apply bind_ret in E2 as (? & H1 & E2); rewrite H1; rbind; clear H1). rewrite E2. rbind. clear E2.
    unfold with_fl. cbn [h_vi h_tos h_len h_id h_ttl h_pr h_su h_sa h_da].
    specialize (E3 ltac:(destruct Hh; split; cbn; try done; lia)).
    do 3 (apply bind_ret in E3 as (? & H1 & E3); rewrite H1; rbind; clear H1). rewrite E3. rbind. done. }
  rewrite He. destruct (Caps.tx caps); [by exists c|]. exists 0. split; [lia|]. split; [|done]. by apply ip_put_su.
Qed.

(** ** Reading it back *)

Local Ltac cbind := rbind; cbn [call mbind res_bind].

Lemma ip_new_checked r c l :
  vrepr_ok r -> 0 <= c < 2 ^ 16 -> Z.of_nat (length l) = Ip.v_payload_len r ->
  new_checked (put (written r c) ++ l) = mret (put (written r c) ++ l).
Proof.
  intros Hr Hc Hl. pose proof (written_ok r c Hr Hc) as Hw. pose proof (vo_len r Hr). unfold new_checked, check_len.
  rewrite length_app, (ip_length_put _ Hw). rewrite (proj2 (Z.ltb_ge _ HEADER_LEN)) by (unfold HEADER_LEN; lia).
  unfold header_len, total_len. rewrite ip_index_vi. cbind. change (wrap 8 (Z.land (h_vi (written r c)) 15 * 4)) with 20. cbind.
  rewrite (proj2 (Z.ltb_ge _ 20)) by lia. rewrite ip_get_len by apply Hw. cbind. change (h_len (written r c)) with (20 + Ip.v_payload_len r).
  rewrite (proj2 (Z.ltb_ge _ 20)), (proj2 (Z.ltb_ge _ _)) by lia. done.
Qed.

Lemma ip_parse_spec r c caps l :
  vrepr_ok r -> 0 <= c < 2 ^ 16 -> (Caps.rx caps = true -> verify_checksum (put (written r c) ++ l) = Ret true) ->
  parse caps (put (written r c) ++ l) = mret r.
Proof.
  intros Hr Hc Hv. pose proof (written_ok r c Hr Hc) as Hw. destruct (ip_addresses (written r c) l Hw) as [Hs Hd].
  unfold parse, version. rewrite ip_index_vi. cbind. change (Z.shiftr (h_vi (written r c)) 4) with 4. cbn [Z.eqb Pos.eqb negb].
  assert (Hg : (if Caps.rx caps then call (verify_checksum (put (written r c) ++ l)) else mret true : res WireError bool) = mret true).
  { destruct (Caps.rx caps); [|done]. by rewrite Hv. }
  rewrite Hg. cbind. cbn [negb]. unfold more_frags, frag_offset, total_len, header_len, next_header, hop_limit.
  rewrite !ip_get_fl by apply Hw. cbind. change (h_fl (written r c)) with 0x4000.
  change (_ || _) with false. rewrite ip_get_len by apply Hw. cbind. rewrite ip_index_vi. cbind.
  rewrite Hs. cbind. rewrite Hd. cbind. rewrite ip_index_pr, ip_index_ttl. cbind. unfold written. cbn [h_vi h_len h_sa h_da h_pr h_ttl].
  change (wrap 8 (Z.land 69 15 * 4)) with 20. destruct Hr. rewrite (proj2 vo_next0), wrap_id by (unfold is_uint; lia).
  replace (20 + Ip.v_payload_len r - 20) with (Ip.v_payload_len r) by lia. by destruct r.
Qed.

Lemma ip_payload_spec r c l :
  vrepr_ok r -> 0 <= c < 2 ^ 16 -> Z.of_nat (length l) = Ip.v_payload_len r -> payload (put (written r c) ++ l) = Ret l.
Proof.
  intros Hr Hc Hl. pose proof (written_ok r c Hr Hc) as Hw. pose proof (vo_len r Hr). unfold payload, header_len, total_len.
  rewrite ip_index_vi. rbind. rewrite ip_get_len by apply Hw. rbind. unfold written at 1 2. cbn [h_vi h_len].
  change (Z.to_nat (wrap 8 (Z.land 69 15 * 4))) with 20%nat. rewrite <-(app_nil_r l) at 1.
  apply range_app; [by rewrite ip_length_put|rewrite ip_length_put by done; lia].
Qed.

(** C27: an IPv4 packet is read back as it was written.  [Repr::emit] writes
    the header of any representation with addresses of four octets, a known or
    numbered protocol and a payload that fits, into a buffer with whatever was
    there, and does not panic; the octets after the header are kept.  The
    buffer then passes [Packet::new_checked], [Repr::parse] gives back the
    same representation (the header checksum, filled in by the sender, is
    accepted by the receiver), and [Packet::payload] the octets after the
    header. *)
Theorem ipv4_packet_round_trip r tx_caps rx_caps p :
  vrepr_ok r -> octets p -> Z.of_nat (length p) = 20 + Ip.v_payload_len r -> (Caps.rx rx_caps = true -> Caps.tx tx_caps = true) ->
  exists q, emit r tx_caps p = Ret q /\ length q = length p /\ drop 20 q = drop 20 p /\
    new_checked q = mret q /\ parse rx_caps q = mret r /\ payload q = Ret (drop 20 p).
Proof.
  intros Hr Hp Hl Hcaps. pose proof (vo_len r Hr).
  destruct (ip_emit_spec r tx_caps p Hr Hp ltac:(lia)) as (c & Hc & He & Hv). pose proof (ip_length_put _ (written_ok r c Hr Hc)) as Hlp.
  assert (Hd : Z.of_nat (length (drop 20 p)) = Ip.v_payload_len r) by (rewrite length_drop; lia).
  exists (put (written r c) ++ drop 20 p). split; [done|]. split; [rewrite length_app; lia|].
  split; [rewrite <-Hlp at 1; by rewrite drop_app_length|]. split; [by apply ip_new_checked|].
  split; [|by apply ip_payload_spec]. apply ip_parse_spec; [done..|]. intros Hx. by apply Hv, Hcaps.
Qed.

End emission.

(** ** Blocks of addresses *)

Definition address_ok (a : list Z) : Prop := length a = 4%nat /\ octets a.
Definition cidr_ok (c : Cidr) : Prop := address_ok (address c) /\ 0 <= prefix_len c <= 32.
(** The number of an address, and of addresses in a block. *)
Definition value (a : list Z) : Z := be_value a.
Definition block (c : Cidr) : Z := 2 ^ (32 - prefix_len c).

Lemma address_cases a : address_ok a -> exists w x y z, a = [w; x; y; z] /\ octet w /\ octet x /\ octet y /\ octet z.
Proof.
  intros [Hl Ho]. destruct a as [|w [|x [|y [|z [|]]]]]; try done. exists w, x, y, z. split; [done|].
  repeat (apply Forall_cons in Ho as [? Ho]). done.
Qed.

Lemma value_range a : address_ok a -> 0 <= value a < 2 ^ 32.
Proof. intros (w & x & y & z & -> & ? & ? & ? & ?)%address_cases. unfold value, be_value. cbn [fold_left]. lia. Qed.

Lemma number_octets_div n : number_octets n = [n / 2 ^ 24 mod 256; n / 2 ^ 16 mod 256; n / 2 ^ 8 mod 256; n mod 256].
Proof.
  unfold number_octets. change 0xff with (Z.ones 8). rewrite !Z.land_ones, !Z.shiftr_div_pow2 by lia. by rewrite Z.div_1_r.
Qed.

Lemma number_octets_ok n : address_ok (number_octets n).
Proof. rewrite number_octets_div. split; [done|]. octet_list; dlia. Qed.

Lemma value_number_octets n : 0 <= n < 2 ^ 32 -> value (number_octets n) = n.
Proof. intros Hn. rewrite number_octets_div. unfold value, be_value. cbn [fold_left]. dlia. Qed.

Lemma number_octets_value a : address_ok a -> number_octets (value a) = a.
Proof.
  intros (w & x & y & z & -> & ? & ? & ? & ?)%address_cases. rewrite number_octets_div. unfold value, be_value. cbn [fold_left].
  repeat f_equal; dlia.
Qed.

Lemma land_masked x y m : Z.land (Z.land x m) (Z.land y m) = Z.land (Z.land x y) m.
Proof.
  apply Z.bits_inj'. intros i Hi. rewrite !Z.land_spec.
  by destruct (Z.testbit x i), (Z.testbit y i), (Z.testbit m i).
Qed.

Lemma number_octets_land n m : zip_with Z.land (number_octets n) (number_octets m) = number_octets (Z.land n m).
Proof. unfold number_octets. cbn [zip_with]. by rewrite !Z.shiftr_land, !land_masked. Qed.

(** The mask keeps the bits above the size of the block. *)
Lemma mask_bits n k :
  0 <= n < 2 ^ 32 -> 0 <= k <= 32 -> Z.land n (wrap 32 (Z.shiftl 0xffffffff k)) = 2 ^ k * (n / 2 ^ k).
Proof.
  intros Hn Hk. rewrite Z.mul_comm, <-Z.shiftl_mul_pow2, <-Z.shiftr_div_pow2 by lia. change 0xffffffff with (Z.ones 32).
  apply Z.bits_inj'. intros i Hi. rewrite Z.land_spec, (Z.shiftl_spec _ k i) by lia. unfold wrap.
  destruct (decide (32 <= i)).
  { rewrite (testbit_above 32 n) by (done || lia). rewrite Z.shiftr_spec by lia. symmetry. apply (testbit_above 32 n); [done|lia]. }
  rewrite Z.mod_pow2_bits_low, Z.shiftl_spec by lia. destruct (decide (i < k)).
  - by rewrite !(Z.testbit_neg_r _ (i - k)), andb_false_r by lia.
  - rewrite Z.ones_spec_low, andb_true_r, Z.shiftr_spec by lia. f_equal. lia.
Qed.

Lemma network_octets c :
  cidr_ok c -> address (network c) = number_octets (block c * (value (address c) / block c)).
Proof.
  intros [Ha Hp]. pose proof (value_range _ Ha) as Hv. unfold network, netmask, block. cbn [address].
  rewrite <-mask_bits by lia. rewrite <-(number_octets_value (address c)) at 1 by done.
  destruct (Z.eqb_spec (prefix_len c) 0) as [->|]; [|by rewrite number_octets_land].
  change (wrap 32 _) with 0. change [0; 0; 0; 0] with (number_octets 0). by rewrite number_octets_land.
Qed.

Lemma block_pos c : cidr_ok c -> 0 < block c.
Proof. intros [_ Hp]. unfold block. lia. Qed.

Lemma network_value c : cidr_ok c -> value (address (network c)) = block c * (value (address c) / block c).
Proof.
  intros Hc. rewrite network_octets by done. apply value_number_octets. destruct Hc as [Ha Hp].
  pose proof (value_range _ Ha). pose proof (block_pos c (conj Ha Hp)).
  split; [apply Z.mul_nonneg_nonneg; [lia|apply Z.div_pos; lia]|].
  pose proof (Z.mul_div_le (value (address c)) (block c) ltac:(lia)). lia.
Qed.

Lemma network_ok c : cidr_ok c -> cidr_ok (network c).
Proof. intros Hc. split; [rewrite network_octets by done; apply number_octets_ok|apply Hc]. Qed.

Section blocks.
Context {BE : ByteOrder} {HBE : ByteOrderLaws BE}.

Lemma read_address a : address_ok a -> read_u32 a = Ret (value a).
Proof. intros (w & x & y & z & -> & ? & ? & ? & ?)%address_cases. rewrite read_u32_be by done. done. Qed.

Lemma contains_addr_block c a :
  cidr_ok c -> address_ok a ->
  contains_addr c a = Ret (bool_decide (value (address (network c)) <= value a < value (address (network c)) + block c)).
Proof.
  intros Hc Ha. pose proof (block_pos c Hc) as Hb. rewrite network_value by done. pose proof (value_range a Ha) as Hv.
  unfold contains_addr. destruct Hc as [Hca Hp]. pose proof (value_range _ Hca) as Hcv.
  destruct (Z.eqb_spec (prefix_len c) 0) as [E|E].
  { unfold block in *. rewrite E in *. rewrite bool_decide_true; [done|]. change (2 ^ (32 - 0)) with (2 ^ 32).
    rewrite Z.div_small by lia. lia. }
  rewrite !read_address by done. rbind. rewrite !Z.shiftr_div_pow2 by lia. fold (block c). f_equal. apply eq_bool_prop_intro.
  rewrite Is_true_true, Z.eqb_eq, bool_decide_spec. split.
  - intros Eq. rewrite Eq. pose proof (Z.div_mod (value a) (block c)). pose proof (Z.mod_pos_bound (value a) (block c)). lia.
  - intros Hin. apply (Z.div_unique_pos _ _ _ (value a - block c * (value (address c) / block c))); lia.
Qed.

Lemma broadcast_block c :
  cidr_ok c ->
  broadcast c = Ret (if decide (31 <= prefix_len c) then None
                     else Some (number_octets (value (address (network c)) + block c - 1))).
Proof.
  intros Hc. pose proof (network_ok c Hc) as Hn. pose proof Hc as [Ha Hp]. unfold broadcast. cbn [network prefix_len].
  destruct (decide (31 <= prefix_len c)) as [H|H].
  { assert (prefix_len c = 31 \/ prefix_len c = 32) as [-> | ->] by lia; done. }
  rewrite (proj2 (orb_false_iff _ _)) by lia. change (zip_with _ _ _) with (address (network c)).
  rewrite read_address by apply Hn. rbind. do 3 f_equal. rewrite network_value by done. set (q := _ / _). unfold block.
  replace (Z.shiftr 0xffffffff (prefix_len c)) with (Z.ones (32 - prefix_len c)).
  2:{ change 0xffffffff with (Z.ones 32). by rewrite Z.shiftr_div_pow2, <-Z.ones_div_pow2 by lia. }
  rewrite <-Z.lxor_lor, <-Z.add_nocarry_lxor; rewrite ?Z.land_ones, ?Z.ones_equiv by lia; [lia|..];
    rewrite Z.mul_comm; apply Z.mod_mul; lia.
Qed.

Lemma contains_true c a :
  cidr_ok c -> address_ok a -> contains_addr c a = Ret true <->
  block c * (value (address c) / block c) <= value a < block c * (value (address c) / block c) + block c.
Proof.
  intros Hc Ha. rewrite contains_addr_block, network_value by done. case_bool_decide; naive_solver.
Qed.

Lemma own_address c : cidr_ok c -> contains_addr c (address c) = Ret true.
Proof.
  intros Hc. pose proof (block_pos c Hc). apply contains_true; [done|apply Hc|].
  pose proof (Z.div_mod (value (address c)) (block c)). pose proof (Z.mod_pos_bound (value (address c)) (block c)). lia.
Qed.

(** The block of a longer prefix divides that of a shorter one. *)
Lemma block_divides c d : cidr_ok c -> cidr_ok d -> prefix_len c <= prefix_len d -> exists k, 0 < k /\ block c = block d * k.
Proof.
  intros [_ Hc] [_ Hd] H. exists (2 ^ (prefix_len d - prefix_len c)). split; [lia|]. unfold block.
  rewrite <-Z.pow_add_r by lia. f_equal. lia.
Qed.

Lemma block_end d : cidr_ok d -> block d * (value (address d) / block d) + block d <= 2 ^ 32.
Proof.
  intros Hd. pose proof (block_pos d Hd) as Hb. pose proof (value_range _ (proj1 Hd)) as Hv.
  pose proof (Z.mul_div_le (value (address d)) (block d) Hb) as Hle. set (q := _ / _) in *.
  assert (He : 2 ^ 32 = block d * 2 ^ prefix_len d).
  { destruct Hd as [_ Hp]. unfold block. rewrite <-Z.pow_add_r by lia. f_equal. lia. }
  rewrite He in *. assert (q < 2 ^ prefix_len d) by nia. nia.
Qed.

Lemma contains_subnet_iff c d :
  cidr_ok c -> cidr_ok d ->
  contains_subnet c d = Ret true <->
  forall a, address_ok a -> contains_addr d a = Ret true -> contains_addr c a = Ret true.
Proof.
  intros Hc Hd. pose proof (block_pos c Hc) as Hbc. pose proof (block_pos d Hd) as Hbd. unfold contains_subnet.
  pose proof (own_address d Hd) as Hown. pose proof (block_end d Hd) as Hend. pose proof (value_range _ (proj1 Hd)) as Hv.
  assert (Hq : 0 <= block d * (value (address d) / block d)) by (apply Z.mul_nonneg_nonneg; [lia|apply Z.div_pos; lia]). split.
  - destruct (Z.leb_spec (prefix_len c) (prefix_len d)) as [Hp|]; [|done]. intros H%contains_true a Ha Hin%contains_true; try done; try apply Hd.
    apply contains_true in Hown; [|done|apply Hd]. apply contains_true; [done..|].
    destruct (block_divides c d Hc Hd Hp) as (k & Hk & Ek). rewrite Ek in *.
    set (Q := _ / (_ * k)) in *. set (q := _ / block d) in *. clearbody Q q.
    assert (k * Q < q + 1) by (apply (Z.mul_lt_mono_pos_l (block d)); lia).
    assert (q < k * (Q + 1)) by (apply (Z.mul_lt_mono_pos_l (block d)); lia). nia.
  - intros H. rewrite (proj2 (Z.leb_le _ _)); [by apply H; [apply Hd|]|].
    assert (Hx : forall n, block d * (value (address d) / block d) <= n < block d * (value (address d) / block d) + block d ->
      contains_addr c (number_octets n) = Ret true).
    { intros n Hn. apply H; [apply number_octets_ok|]. apply contains_true; [done|apply number_octets_ok|].
      rewrite value_number_octets by lia. done. }
    assert (Hin : forall n, block d * (value (address d) / block d) <= n < block d * (value (address d) / block d) + block d ->
      block c * (value (address c) / block c) <= n < block c * (value (address c) / block c) + block c).
    { intros n Hn. rewrite <-(value_number_octets n) by lia. apply contains_true; [done|apply number_octets_ok|auto]. }
    pose proof (Hin (block d * (value (address d) / block d)) ltac:(lia)).
    pose proof (Hin (block d * (value (address d) / block d) + block d - 1) ltac:(lia)).
    assert (Hle : block d <= block c) by lia. unfold block in Hle. destruct Hc as [_ Hpc], Hd as [_ Hpd].
    apply Z.pow_le_mono_r_iff in Hle; lia.
Qed.

(** The mask of each prefix is turned into the prefix, but for the empty one. *)
Lemma from_netmask_netmask c :
  cidr_ok c -> from_netmask (address c) (netmask c) = if prefix_len c =? 0 then err Malformed else mret c.
Proof.
  destruct c as [a n]. intros [_ Hn]. cbn [prefix_len address] in *. unfold from_netmask.
  assert (Hm : address_ok (netmask (mkCidr a n))).
  { unfold netmask. cbn [prefix_len]. destruct (n =? 0); [split; [done|octet_list]|apply number_octets_ok]. }
  rewrite read_address by done. clear Hm. cbn [call mbind res_bind].
  assert (Hc : exists k, (k <= 32)%nat /\ n = Z.of_nat k) by (exists (Z.to_nat n); lia). destruct Hc as (k & Hk & ->). clear Hn.
  do 33 (destruct k as [|k]; [vm_compute; reflexivity|]). lia.
Qed.


End blocks.

(** ** Instances *)

Definition example_repr : Ip.VRepr := Ip.mkV [192; 168; 1; 42] [10; 0; 0; 1] Ip.Udp 4 64.

Lemma example_repr_ok : vrepr_ok example_repr.
Proof. split; cbn; [split; [done|octet_list]..|split; [lia|done]|lia|lia]. Qed.

Lemma ipv4_packet_round_trip_witness :
  exists q, emit (BE := network_endian) example_repr Caps.Both (replicate 20 255 ++ [1; 2; 3; 4]) = Ret q /\ length q = 24%nat /\
    drop 20 q = [1; 2; 3; 4] /\ new_checked (BE := network_endian) q = mret q /\
    parse (BE := network_endian) Caps.Both q = mret example_repr /\ payload (BE := network_endian) q = Ret [1; 2; 3; 4].
Proof.
  apply (ipv4_packet_round_trip (HBE := network_endian_laws) example_repr Caps.Both Caps.Both (replicate 20 255 ++ [1; 2; 3; 4])).
  - apply example_repr_ok.
  - apply Forall_app. split; [apply Forall_replicate; lia|octet_list].
  - done.
  - done.
Defined.

Definition example_block : Cidr := mkCidr [192; 168; 1; 42] 24.
Definition example_half : Cidr := mkCidr [192; 168; 1; 200] 25.

Lemma example_blocks_ok : cidr_ok example_block /\ cidr_ok example_half.
Proof. split; (split; [split; [done|octet_list]|cbn; lia]). Qed.


(** A header length below the twenty octets of the fixed header is taken: the
    checksum is then that of the first octets alone, the addresses are read from
    what the packet calls its payload, and the payload begins inside the header. *)
Theorem short_header_is_taken :
  let p := [0x42; 0; 0; 20; 0xbd; 0xeb; 0; 0; 64; 17; 9; 9; 1; 1; 1; 1; 2; 2; 2; 2] in
  (p ← new_checked (BE := network_endian) p; parse (BE := network_endian) Caps.Both p)
    = Ret (Ok (Ip.mkV [1; 1; 1; 1] [2; 2; 2; 2] Ip.Udp 12 64)) /\
  payload (BE := network_endian) p = Ret (drop 8 p).
Proof. vm_compute. done. Qed.

End Ipv4Packet.
