(* ===== verification/PacketBuffer.v ===== *)
(** * The packet buffer of [smoltcp/src/storage/packet_buffer.rs]

    A ring of packet descriptions beside a ring of their octets.  A packet lies in
    one piece, so that the octets that are left at the end of the storage may have
    to be skipped: they are described as padding.  [Module PacketBuffer] translates
    the structure; [PacketBufferLaws.v] proves that it is a queue of packets. *)

From S2P Require Import Prelude RingBuffer.
Import RingBuffer.

Module PacketBuffer.

Section packet_buffer.
Context {H : Type}.

(** [struct PacketMetadata] and its constructors. *)
Record PacketMetadata : Type := mkMeta { size : nat; header : option H }.
Definition EMPTY : PacketMetadata := mkMeta 0 None.
Definition padding (size : nat) : PacketMetadata := mkMeta size None.
Definition packet (size : nat) (header : H) : PacketMetadata := mkMeta size (Some header).
Definition is_padding (m : PacketMetadata) : bool := match header m with None => true | Some _ => false end.

(** [struct PacketBuffer]. *)
Record t : Type := mkPB { metadata_ring : RingBuffer.t PacketMetadata; payload_ring : RingBuffer.t Z }.

(** [PacketBuffer::new], [is_empty], [is_full], [packet_capacity],
    [payload_capacity] and [reset]. *)
Definition new (metadata_storage : list PacketMetadata) (payload_storage : list Z) : t :=
  mkPB (RingBuffer.new metadata_storage) (RingBuffer.new payload_storage).
Definition is_empty (b : t) : bool := RingBuffer.is_empty (metadata_ring b).
Definition is_full (b : t) : bool := RingBuffer.is_full (metadata_ring b).
Definition packet_capacity (b : t) : nat := capacity (metadata_ring b).
Definition payload_capacity (b : t) : nat := capacity (payload_ring b).
Definition reset (b : t) : t := mkPB (clear (metadata_ring b)) (clear (payload_ring b)).

(** The part that [enqueue] and [enqueue_with_infallible] share: whether the
    packet fits, and the padding at the end of the storage. *)
Definition make_room (size : nat) (b : t) : outcome (t * result unit Full) :=
  let window := window (payload_ring b) in
  let contig_window := contiguous_window (payload_ring b) in
  if (window <? size)%nat then Ret (b, Err IsFull)
  else if (contig_window <? size)%nat then
    if (window - contig_window <? size)%nat then Ret (b, Err IsFull)
    else
      '(m, r) ← enqueue_one (padding contig_window) (metadata_ring b);
      match r with
      | Err e => Ret (mkPB m (payload_ring b), Err e)
      | Ok _ => '(p, _) ← enqueue_many id contig_window (payload_ring b); Ret (mkPB m p, Ok tt)
      end
  else Ret (b, Ok tt).

(** [PacketBuffer::enqueue] whose caller fills the slice it gets by [fill]: the
    length of the slice. *)
Definition enqueue (size : nat) (header : H) (fill : list Z -> list Z) (b : t) : outcome (t * result nat Full) :=
  if (capacity (payload_ring b) <? size)%nat || is_full b then Ret (b, Err IsFull)
  else
    let b := if RingBuffer.is_empty (payload_ring b) then mkPB (metadata_ring b) (clear (payload_ring b)) else b in
    '(b, r) ← make_room size b;
    match r with
    | Err e => Ret (b, Err e)
    | Ok _ =>
        '(m, r) ← enqueue_one (packet size header) (metadata_ring b);
        match r with
        | Err e => Ret (mkPB m (payload_ring b), Err e)
        | Ok _ => '(p, n) ← enqueue_many fill size (payload_ring b); Ret (mkPB m p, Ok n)
        end
    end.

(** [PacketBuffer::enqueue_with_infallible]; [f] gives the slice it leaves and
    the size it used.  The slice [data[..max_size]] panics when it is too short. *)
Definition enqueue_with_infallible (max_size : nat) (header : H) (f : list Z -> list Z * nat) (b : t) :
    outcome (t * result nat Full) :=
  if (capacity (payload_ring b) <? max_size)%nat || is_full b then Ret (b, Err IsFull)
  else
    '(b, r) ← make_room max_size b;
    match r with
    | Err e => Ret (b, Err e)
    | Ok _ =>
        '(p, (size, fits)) ← enqueue_many_with (fun data =>
           let '(d, n) := f (take max_size data) in
           (d ++ drop max_size data, n, (max_size <=? length data)%nat)) (payload_ring b);
        _ ← assert_true fits;
        '(m, r) ← enqueue_one (packet size header) (metadata_ring b);
        Ret (mkPB m p, match r with Err e => Err e | Ok _ => Ok size end)
    end.

(** [PacketBuffer::dequeue_padding]. *)
Definition dequeue_padding (b : t) : outcome t :=
  '(m, r) ← dequeue_one_with (fun metadata =>
     (metadata, if is_padding metadata then Ok (size metadata) else Err tt)) (metadata_ring b);
  match r with
  | Ok (Ok n) => '(p, _) ← dequeue_many n (payload_ring b); Ret (mkPB m p)
  | _ => Ret (mkPB m (payload_ring b))
  end.

(** [PacketBuffer::dequeue_with].  The closure takes the header and the octets
    and gives those it leaves; the description is read, the octets are handed to
    the closure, and the description is written back and dequeued on success. *)
Definition dequeue_with {R E} (f : H -> list Z -> H * list Z * result R E) (b : t) :
    outcome (t * result (result R E) Empty) :=
  b ← dequeue_padding b;
  '(_, r) ← dequeue_one_with (R := Empty_set) (fun metadata => (metadata, Err metadata)) (metadata_ring b);
  match r with
  | Ok (Err metadata) =>
      h ← unwrap (header metadata);
      '(p, (_, (h', v, fits))) ← dequeue_many_with (fun payload_buf =>
         let '(h', d, v) := f h (take (size metadata) payload_buf) in
         (d ++ drop (size metadata) payload_buf, match v with Ok _ => size metadata | Err _ => 0 end,
          (h', v, (size metadata <=? length payload_buf)%nat))) (payload_ring b);
      _ ← assert_true fits;
      '(m, r) ← dequeue_one_with (fun metadata => (mkMeta (size metadata) (Some h'), v)) (metadata_ring b);
      Ret (mkPB m p, r)
  | _ => Ret (b, Err IsEmpty)
  end.

(** [PacketBuffer::dequeue]. *)
Definition dequeue (b : t) : outcome (t * result (H * list Z) Empty) :=
  b ← dequeue_padding b;
  '(m, r) ← dequeue_one_with (E := Empty_set) (fun meta => (mkMeta (size meta) None, Ok meta)) (metadata_ring b);
  match r with
  | Ok (Ok meta) =>
      '(p, payload_buf) ← dequeue_many (size meta) (payload_ring b);
      h ← unwrap (header meta);
      Ret (mkPB m p, Ok (h, payload_buf))
  | _ => Ret (mkPB m (payload_ring b), Err IsEmpty)
  end.

(** [PacketBuffer::peek]. *)
Definition peek (b : t) : outcome (t * result (H * list Z) Empty) :=
  b ← dequeue_padding b;
  l ← get_allocated 0 1 (metadata_ring b);
  match l with
  | metadata :: _ =>
      h ← unwrap (header metadata);
      payload ← get_allocated 0 (size metadata) (payload_ring b);
      Ret (b, Ok (h, payload))
  | [] => Ret (b, Err IsEmpty)
  end.

End packet_buffer.

Arguments PacketMetadata : clear implicits.
Arguments t : clear implicits.

End PacketBuffer.
