(* ===== verification/PacketBufferLaws.v ===== *)
(** * A packet buffer is a queue of packets *)

From S2P Require Import Prelude RingBuffer RingBufferLaws PacketBuffer.
Import RingBuffer.

Module PacketBufferLaws.
Import PacketBuffer RingBufferLaws.

(** ** Chunks in a ring *)

(** The position [n] places after [pos]. *)
Definition adv (cap pos n : nat) : nat := if (pos + n <? cap)%nat then pos + n else pos + n - cap.

(** Chunks of the sizes [l], one after the other from [pos] on, each in one piece. *)
Fixpoint tiled (cap pos : nat) (l : list nat) : Prop :=
  match l with [] => True | n :: l => pos + n <= cap /\ tiled cap (adv cap pos n) l end.

Lemma adv_adv cap pos a c : pos < Nat.max 1 cap -> a + c <= cap -> adv cap (adv cap pos a) c = adv cap pos (a + c).
Proof. intros Hp Hac. unfold adv. repeat (case_match; b2p); lia. Qed.

Lemma adv_lt cap pos n : pos < Nat.max 1 cap -> n <= cap -> adv cap pos n < Nat.max 1 cap.
Proof. intros Hp Hn. unfold adv. case_match; b2p; lia. Qed.

Lemma tiled_snoc cap n l : forall pos,
  pos < Nat.max 1 cap -> sum_list l + n <= cap ->
  tiled cap pos (l ++ [n]) <-> tiled cap pos l /\ adv cap pos (sum_list l) + n <= cap.
Proof.
  induction l as [|k l IH]; intros pos Hp Hs; cbn [app tiled sum_list sum_list_with foldr] in *.
  - unfold adv. rewrite Nat.add_0_r. destruct (Nat.ltb_spec pos cap); [naive_solver|].
    assert (pos = 0 /\ cap = 0) as [-> ->] by lia. naive_solver lia.
  - change (sum_list_with id l) with (sum_list l) in *. unfold id in *.
    rewrite IH, adv_adv by (apply adv_lt || idtac; lia). tauto.
Qed.

Lemma tiled_zero cap l : forall pos, pos < Nat.max 1 cap -> sum_list l = 0 -> tiled cap pos l.
Proof.
  induction l as [|k l IH]; intros pos Hp Hs; cbn [tiled sum_list sum_list_with foldr] in *; [done|].
  change (sum_list_with id l) with (sum_list l) in *. unfold id in *. assert (k = 0) as -> by lia.
  split; [lia|]. apply IH; [apply adv_lt; lia|lia].
Qed.

(** ** The operations of rings it uses *)

Lemma get_idx_adv {T} (p : RingBuffer.t T) n : wf p -> n <= capacity p -> get_idx p n = adv (capacity p) (read_at p) n.
Proof. apply get_idx_spec. Qed.

Lemma enqueue_many_spec {T} (fill : list T -> list T) size p :
  wf p -> normal p = p -> size <= contiguous_window p -> length (fill (take size (room p))) = size ->
  exists p', enqueue_many fill size p = Ret (p', size) /\ wf p' /\ capacity p' = capacity p /\
    read_at p' = read_at p /\ len p' = len p + size /\ contents p' = contents p ++ fill (take size (room p)).
Proof.
  intros Hwf Hn Hs Hf. unfold enqueue_many. pose proof (length_room p Hwf) as Hr.
  assert (Hcw : contiguous_window p <= window p) by (unfold contiguous_window; lia).
  assert (Hl : length (take (contiguous_window p) (room p)) = contiguous_window p) by (rewrite length_take; lia).
  set (s' := fill (take size (room p)) ++ drop size (take (contiguous_window p) (room p))).
  match goal with |- context [enqueue_many_with ?f p] =>
    destruct (enqueue_many_with_spec f p s' size tt Hwf) as (p' & -> & Hwf' & Hc & Hra & Hlen & Hcon & _) end.
  - rewrite Hn. cbv zeta. rewrite Hl. replace (size `min` contiguous_window p) with size by lia.
    rewrite take_take. by replace (size `min` contiguous_window p) with size by lia.
  - rewrite Hn. subst s'. rewrite length_app, length_drop, Hf, Hl. lia.
  - by rewrite Hn.
  - rbind. exists p'. rewrite Hn in Hra. do 5 (split; [done|]). rewrite Hcon. f_equal. subst s'.
    by rewrite take_app_le, take_ge by lia.
Qed.

Lemma dequeue_many_spec {T} n (p : RingBuffer.t T) :
  wf p -> n <= front_window p ->
  exists p', dequeue_many n p = Ret (p', take n (contents p)) /\ wf p' /\ capacity p' = capacity p /\
    read_at p' = get_idx p n /\ len p' = len p - n /\ contents p' = drop n (contents p).
Proof.
  intros Hwf Hn. unfold dequeue_many. pose proof (length_contents p Hwf) as Hlc.
  assert (Hl : length (take (front_window p) (contents p)) = front_window p)
    by (rewrite length_take, Hlc; unfold front_window; lia).
  match goal with |- context [dequeue_many_with ?f p] =>
    destruct (dequeue_many_with_spec f p (take (front_window p) (contents p)) n (take n (contents p)) Hwf)
      as (p' & -> & Hwf' & Hc & Hra & Hlen & Hcon & _); try done end.
  - cbv zeta. rewrite Hl. replace (n `min` front_window p) with n by lia. rewrite take_take.
    by replace (n `min` front_window p) with n by lia.
  - rbind. exists p'. rewrite take_drop in Hcon. done.
Qed.

Lemma dequeue_one_with_spec {T R E} (f : T -> T * result R E) (p : RingBuffer.t T) :
  wf p ->
  match contents p with
  | [] => dequeue_one_with f p = Ret (p, Err IsEmpty)
  | x :: q => exists p', dequeue_one_with f p = Ret (p', Ok (f x).2) /\ wf p' /\ capacity p' = capacity p /\
      contents p' = match (f x).2 with Ok _ => q | Err _ => (f x).1 :: q end
  end.
Proof.
  intros Hwf. pose proof Hwf as [Hl Hr Hc]. pose proof (length_contents p Hwf) as Hlc. unfold dequeue_one_with, RingBuffer.is_empty.
  destruct (contents p) as [|x q] eqn:Hcon; cbn [length] in Hlc; [by rewrite (proj2 (Nat.eqb_eq _ _)) by lia|].
  rewrite (proj2 (Nat.eqb_neq _ _)) by lia. unfold get_idx_unchecked. rewrite (proj2 (Nat.eqb_neq _ _)) by lia. rbind.
  assert (Hg : wadd (read_at p) 1 mod capacity p = get_idx p 1).
  { unfold get_idx. by rewrite (proj2 (Nat.ltb_lt _ _)) by lia. }
  rewrite Hg. pose proof (slice_rot p 0 1 Hwf ltac:(lia)) as Hsl. rewrite get_idx_0, drop_0 in Hsl by done.
  assert (Hx : take 1 (rot p) = [x]).
  { assert (Ht : take 1 (contents p) = [x]) by (rewrite Hcon; cbn; by rewrite take_0).
    unfold contents in Ht. rewrite take_take in Ht. by replace (1 `min` len p) with 1 in Ht by lia. }
  rewrite Hx in Hsl. rewrite (index_slice _ _ _ (Hsl ltac:(lia))). rbind. destruct (f x) as [x' r]. cbn [fst snd].
  rewrite index_set_lt by (unfold capacity in *; lia). rbind. rewrite insert_splice by (unfold capacity in *; lia).
  destruct (splice_front_spec p [x'] Hwf) as (Hwf1 & Hc1 & Hcon1 & _); [unfold front_window; cbn; lia|].
  rewrite Hcon in Hcon1. cbn [length drop app] in Hcon1.
  set (p1 := mk (splice (read_at p) [x'] (storage p)) (read_at p) (len p)) in *.
  eexists. split; [done|]. destruct r; [|done].
  destruct (advance_spec p1 1 Hwf1) as (Hwf2 & Hcon2 & _); [cbn; lia|]. rewrite Hcon1 in Hcon2.
  assert (Hg1 : get_idx p1 1 = get_idx p 1) by (unfold get_idx; by rewrite Hc1). rewrite Hg1 in *. done.
Qed.

(** ** The entries of a buffer *)

Section laws.
Context {H : Type}.
Implicit Types b : t H.

(** A packet with its header, or padding. *)
Definition entry : Type := option H * list Z.
Definition describe (e : entry) : PacketMetadata H := mkMeta (length e.2) e.1.
Definition sizes (es : list entry) : list nat := map (fun e => length e.2) es.
Definition packets (es : list entry) : list (H * list Z) :=
  omap (fun e => match e.1 with Some h => Some (h, e.2) | None => None end) es.

(** Between two paddings there is a packet. *)
Fixpoint spaced (es : list entry) : Prop :=
  match es with
  | [] => True
  | e :: es => (e.1 = None -> e.2 <> [] /\ match es with [] => True | e' :: _ => e'.1 <> None end) /\ spaced es
  end.

Record holds b (es : list entry) : Prop := mkHolds {
  hd_meta : wf (metadata_ring b); hd_payload : wf (payload_ring b);
  hd_described : contents (metadata_ring b) = map describe es;
  hd_octets : contents (payload_ring b) = concat (map snd es);
  hd_tiled : tiled (capacity (payload_ring b)) (read_at (payload_ring b)) (sizes es);
  hd_spaced : spaced es;
  hd_last : forall d, last es = Some (None, d) ->
    read_at (payload_ring b) + len (payload_ring b) = capacity (payload_ring b)
}.

Lemma length_concat_sizes es : length (concat (map snd es)) = sum_list (sizes es).
Proof. induction es as [|e es IH]; cbn; [done|]. rewrite length_app, IH. done. Qed.

Lemma holds_len b es : holds b es -> len (payload_ring b) = sum_list (sizes es) /\ len (metadata_ring b) = length es.
Proof.
  intros Hb. rewrite <-(length_contents _ (hd_payload _ _ Hb)), <-(length_contents _ (hd_meta _ _ Hb)).
  rewrite (hd_octets _ _ Hb), (hd_described _ _ Hb), length_map. by rewrite length_concat_sizes.
Qed.

Lemma spaced_snoc es e :
  spaced es -> (e.1 = None -> e.2 <> [] /\ forall d, last es <> Some (None, d)) -> spaced (es ++ [e]).
Proof.
  induction es as [|x es IH]; cbn [app spaced]; intros Hs He.
  - split; [|done]. intros Hn. destruct (He Hn). done.
  - destruct Hs as [Hx Hs]. split.
    + intros Hn. destruct (Hx Hn) as [Hne Hh]. split; [done|]. destruct es as [|y es]; cbn [app]; [|done].
      intros Hen. destruct (He Hen) as [_ Hl]. destruct x as [o d]. cbn in Hn. subst o. by apply (Hl d).
    + apply IH; [done|]. intros Hen. destruct (He Hen) as [Hne Hl]. split; [done|]. intros d Hd. apply (Hl d).
      destruct es; [done|]. exact Hd.
Qed.

Lemma packets_snoc es e : packets (es ++ [e]) = packets es ++ packets [e].
Proof. unfold packets. by rewrite omap_app. Qed.

Lemma sizes_snoc es (e : entry) : sizes (es ++ [e]) = sizes es ++ [length e.2].
Proof. unfold sizes. by rewrite map_app. Qed.

(** ** Adding and taking an entry *)

Lemma holds_push b es (e : entry) m' p' :
  holds b es -> length e.2 <= contiguous_window (payload_ring b) ->
  wf m' -> contents m' = contents (metadata_ring b) ++ [describe e] ->
  wf p' -> capacity p' = capacity (payload_ring b) -> read_at p' = read_at (payload_ring b) ->
  len p' = len (payload_ring b) + length e.2 -> contents p' = contents (payload_ring b) ++ e.2 ->
  (e.1 = None -> e.2 <> [] /\ (forall d, last es <> Some (None, d)) /\ read_at p' + len p' = capacity p') ->
  holds (mkPB m' p') (es ++ [e]).
Proof.
  intros Hb Hfit Hwm Hcm Hwp Hcp Hrp Hlp Hop Hpad. destruct (holds_len b es Hb) as [Hlen _].
  pose proof (hd_payload _ _ Hb) as Hwf. destruct (contiguous_le _ Hwf) as [Hc1 Hc2].
  rewrite get_idx_adv in Hc2 by (done || lia). rewrite Hlen in Hc1, Hc2.
  split; cbn [metadata_ring payload_ring]; try done.
  - rewrite Hcm, (hd_described _ _ Hb), map_app. done.
  - rewrite Hop, (hd_octets _ _ Hb), map_app, concat_app. cbn. by rewrite app_nil_r.
  - rewrite Hcp, Hrp, sizes_snoc. apply tiled_snoc; [apply Hwf|lia|]. split; [apply Hb|lia].
  - apply spaced_snoc; [apply Hb|]. intros Hn. destruct (Hpad Hn) as (? & ? & _). done.
  - intros d. rewrite last_snoc. intros [= Hed]. apply Hpad. by rewrite Hed.
Qed.

Lemma last_padding es d : spaced es -> last es = Some (None, d) -> 0 < sum_list (sizes es).
Proof.
  induction es as [|e es IH]; [done|]. cbn [spaced]. intros [He Hs] Hl. unfold sizes. cbn [map sum_list sum_list_with foldr].
  change (sum_list_with id (map (fun e => length e.2) es)) with (sum_list (sizes es)).
  destruct es as [|e' es].
  - cbn in Hl. injection Hl as ->. destruct (He eq_refl) as [Hne _]. destruct d; [done|]. cbn. lia.
  - specialize (IH Hs Hl). lia.
Qed.

Lemma holds_pop b (e : entry) es m' p' :
  holds b (e :: es) -> wf m' -> contents m' = map describe es ->
  wf p' -> capacity p' = capacity (payload_ring b) -> read_at p' = get_idx (payload_ring b) (length e.2) ->
  len p' = len (payload_ring b) - length e.2 -> contents p' = drop (length e.2) (contents (payload_ring b)) ->
  holds (mkPB m' p') es.
Proof.
  intros Hb Hwm Hcm Hwp Hcp Hrp Hlp Hop. destruct (holds_len _ _ Hb) as [Hlen _]. pose proof (hd_payload _ _ Hb) as Hwf.
  destruct (hd_tiled _ _ Hb) as [Ht1 Ht2]. change (sizes (e :: es)) with (length e.2 :: sizes es) in *.
  change (sum_list (length e.2 :: sizes es)) with (length e.2 + sum_list (sizes es)) in Hlen.
  rewrite get_idx_adv in Hrp by (done || lia).
  split; cbn [metadata_ring payload_ring]; try done.
  - rewrite Hop, (hd_octets _ _ Hb). cbn [map concat]. by rewrite drop_app_length.
  - by rewrite Hcp, Hrp.
  - apply Hb.
  - intros d Hd. pose proof (last_padding es d (proj2 (hd_spaced _ _ Hb)) Hd) as Hpos.
    pose proof (hd_last _ _ Hb d) as Hl. rewrite Hcp, Hrp, Hlp. destruct es as [|e' es]; [done|].
    specialize (Hl Hd). unfold adv. rewrite (proj2 (Nat.ltb_lt _ _)) by lia. lia.
Qed.

Lemma head_fits b (e : entry) es : holds b (e :: es) ->
  length e.2 <= front_window (payload_ring b) /\ take (length e.2) (contents (payload_ring b)) = e.2.
Proof.
  intros Hb. destruct (holds_len _ _ Hb) as [Hlen _]. destruct (hd_tiled _ _ Hb) as [Ht1 _].
  change (sum_list (sizes (e :: es))) with (length e.2 + sum_list (sizes es)) in Hlen.
  unfold front_window. split; [lia|]. rewrite (hd_octets _ _ Hb). cbn [map concat]. by rewrite take_app_length.
Qed.

Definition same_capacities b b' : Prop :=
  capacity (metadata_ring b') = capacity (metadata_ring b) /\ capacity (payload_ring b') = capacity (payload_ring b).

Lemma dequeue_padding_spec b es :
  holds b es ->
  exists b' es', dequeue_padding b = Ret b' /\ holds b' es' /\ packets es' = packets es /\ same_capacities b b' /\
    match es' with [] => True | e :: _ => e.1 <> None end.
Proof.
  intros Hb. unfold dequeue_padding.
  pose proof (dequeue_one_with_spec (fun metadata : PacketMetadata H =>
     (metadata, if is_padding metadata then Ok (size metadata) else Err tt)) (metadata_ring b) (hd_meta _ _ Hb)) as Hd.
  rewrite (hd_described _ _ Hb) in Hd. destruct es as [|[o d] es]; cbn [map] in Hd.
  { rewrite Hd. rbind. exists b, []. by destruct b. }
  destruct Hd as (m' & -> & Hwm & Hcm & Hcon). rbind. unfold describe, is_padding in *. cbn [fst snd header size] in *.
  destruct o as [h|].
  - exists (mkPB m' (payload_ring b)), ((Some h, d) :: es). split; [done|]. split; [by destruct Hb; split|]. done.
  - destruct (head_fits _ _ _ Hb) as [Hf _]. destruct (dequeue_many_spec _ _ (hd_payload _ _ Hb) Hf)
      as (p' & Hp & Hwp & Hcp & Hrp & Hlp & Hop). cbn [snd] in Hp. rewrite Hp. rbind.
    exists (mkPB m' p'), es. split; [done|]. split; [by eapply (holds_pop b (None, d) es)|]. split; [done|]. split; [done|].
    destruct (hd_spaced _ _ Hb) as [Hs _]. destruct (Hs eq_refl) as [_ Hh]. by destruct es.
Qed.

(** ** Enqueuing *)

Lemma contiguous_room p : wf p -> @contiguous_window Z p < window p -> 0 < contiguous_window p.
Proof.
  intros Hwf Hlt. pose proof (contiguous_full p Hwf Hlt). destruct (decide (contiguous_window p = 0)) as [E|]; [|lia].
  pose proof (contiguous_wrapped p Hwf ltac:(lia)). lia.
Qed.

Lemma make_packet_room_spec n b es :
  holds b es -> normal (payload_ring b) = payload_ring b -> len (metadata_ring b) < capacity (metadata_ring b) ->
  exists b' r, make_room n b = Ret (b', r) /\
    match r with
    | Err _ => b' = b /\ (es = [] -> capacity (payload_ring b) < n)
    | Ok _ => exists es', holds b' es' /\ packets es' = packets es /\ same_capacities b b' /\
        normal (payload_ring b') = payload_ring b' /\ n <= contiguous_window (payload_ring b') /\ (es = [] -> b' = b)
    end.
Proof.
  intros Hb Hn Hm. pose proof (hd_payload _ _ Hb) as Hwp. destruct (holds_len _ _ Hb) as [Hlen _].
  assert (He : es = [] -> contiguous_window (payload_ring b) = window (payload_ring b) /\
    window (payload_ring b) = capacity (payload_ring b)).
  { intros ->. cbn in Hlen. split; [|unfold window; lia]. rewrite <-Hn. unfold normal. rewrite (proj2 (Nat.eqb_eq _ _)) by done.
    unfold contiguous_window, get_idx, window. cbn [len read_at]. rewrite Hlen.
    change (capacity (mk _ _ _)) with (capacity (payload_ring b)). destruct (Nat.ltb_spec 0 (capacity (payload_ring b))); [|lia].
    rewrite wadd_id by (cbn; lia). rewrite Nat.Div0.mod_0_l by lia. lia. }
  unfold make_room. set (w := window (payload_ring b)) in *. set (cw := contiguous_window (payload_ring b)) in *.
  destruct (Nat.ltb_spec w n) as [Hw|Hw]; [exists b, (Err IsFull); split; [done|]; split; [done|]; intros E; destruct (He E); lia|].
  destruct (Nat.ltb_spec cw n) as [Hc|Hc].
  2: { exists b, (Ok tt). split; [done|]. exists es. done. }
  destruct (Nat.ltb_spec (w - cw) n) as [Hr|Hr]; [exists b, (Err IsFull); split; [done|]; split; [done|]; intros E; destruct (He E); lia|].
  pose proof (enqueue_one_spec (padding cw : PacketMetadata H) (metadata_ring b) (hd_meta _ _ Hb)) as Hq.
  rewrite decide_True in Hq by done. destruct Hq as (m' & -> & Hwm & Hcm & Hcon). rbind.
  pose proof (length_room _ Hwp) as Hroom. fold w in Hroom.
  destruct (enqueue_many_spec id cw (payload_ring b) Hwp Hn ltac:(done)) as (p' & -> & Hwp' & Hcp & Hrp & Hlp & Hop);
    [unfold id; rewrite length_take; lia|]. rbind.
  pose proof (contiguous_full _ Hwp ltac:(fold w cw; lia)) as Hfull. fold cw in Hfull.
  pose proof (contiguous_room _ Hwp ltac:(fold w cw; lia)) as Hpos. fold cw in Hpos.
  exists (mkPB m' p'), (Ok tt). split; [done|]. exists (es ++ [(None, take cw (room (payload_ring b)))]).
  assert (Hlt : length (take cw (room (payload_ring b))) = cw) by (rewrite length_take; lia). split.
  { apply (holds_push b); cbn [fst snd]; rewrite ?Hlt; try done.
    - rewrite Hcon. unfold describe. cbn [fst snd]. by rewrite Hlt.
    - intros _. split; [intros E; rewrite E in Hlt; cbn in Hlt; lia|]. split; [|lia]. intros d Hd.
      pose proof (hd_last _ _ Hb d Hd) as Hl. pose proof (contiguous_wrapped _ Hwp Hl) as Hx. fold w cw in Hx. lia. }
  cbn [payload_ring metadata_ring]. split; [rewrite packets_snoc; cbn; by rewrite app_nil_r|]. split; [done|].
  split; [unfold normal; by rewrite (proj2 (Nat.eqb_neq _ _)) by lia|].
  split; [|intros E; destruct (He E); lia].
  rewrite (contiguous_wrapped p' Hwp') by lia. unfold window in *. rewrite Hcp, Hlp. lia.
Qed.

Lemma normal_normal p : normal (normal p) = @normal Z p.
Proof. unfold normal. destruct (len p =? 0) eqn:E; cbn [len storage]; by rewrite E. Qed.

(** An empty ring of octets may start anew. *)
Lemma holds_normal b es : holds b es -> holds (mkPB (metadata_ring b) (normal (payload_ring b))) es.
Proof.
  intros Hb. pose proof (hd_payload _ _ Hb) as Hwp. destruct (normal_same (payload_ring b)) as (Hl & Hc & Hcon & _).
  destruct (holds_len _ _ Hb) as [Hlen _]. destruct (decide (len (payload_ring b) = 0)) as [E|E].
  - split; cbn [metadata_ring payload_ring]; rewrite ?Hcon, ?Hc; try apply Hb; [by apply normal_wf| |].
    + apply tiled_zero; [|lia]. rewrite <-Hc. by apply normal_wf.
    + intros d Hd. pose proof (last_padding es d (hd_spaced _ _ Hb) Hd). lia.
  - unfold normal. rewrite (proj2 (Nat.eqb_neq _ _)) by done. by destruct b.
Qed.

Lemma enqueue_spec n h fill b es :
  holds b es -> (forall l, length l = n -> length (fill l) = n) ->
  exists b' r es', enqueue n h fill b = Ret (b', r) /\ holds b' es' /\ same_capacities b b' /\
    match r with
    | Ok k => k = n /\ exists old, length old = n /\ packets es' = packets es ++ [(h, fill old)]
    | Err _ => packets es' = packets es /\
        (es = [] -> es' = [] /\ (capacity (payload_ring b) < n \/ capacity (metadata_ring b) = 0))
    end.
Proof.
  intros Hb Hfill. destruct (holds_len _ _ Hb) as [_ Hlm]. unfold enqueue, is_full, RingBuffer.is_full, window.
  destruct (Nat.ltb_spec (capacity (payload_ring b)) n) as [Hbig|Hbig]; cbn [orb].
  { exists b, (Err IsFull), es. split; [done|]. split; [done|]. split; [done|]. split; [done|]. auto. }
  destruct (Nat.eqb_spec (capacity (metadata_ring b) - len (metadata_ring b)) 0) as [Hfull|Hfull].
  { exists b, (Err IsFull), es. split; [done|]. split; [done|]. split; [done|]. split; [done|].
    intros ->. cbn in Hlm. split; [done|]. lia. }
  set (b1 := mkPB (metadata_ring b) (normal (payload_ring b))).
  replace (if RingBuffer.is_empty (payload_ring b) then mkPB (metadata_ring b) (clear (payload_ring b)) else b) with b1.
  2: { unfold b1, normal, RingBuffer.is_empty, clear. destruct (Nat.eqb_spec (len (payload_ring b)) 0) as [->|]; [done|by destruct b]. }
  pose proof (holds_normal b es Hb) as Hb1. fold b1 in Hb1. destruct (normal_same (payload_ring b)) as (_ & Hc1 & _ & _).
  destruct (make_packet_room_spec n b1 es Hb1 (normal_normal _)) as (b2 & r & -> & Hr); [cbn; lia|]. rbind.
  destruct r as [[]|[]].
  2: { destruct Hr as [-> Hr]. exists b1, (Err IsFull), es. split; [done|]. split; [done|]. split; [done|]. split; [done|].
       intros E. specialize (Hr E). cbn in Hr. lia. }
  destruct Hr as (es' & Hb2 & Hpk & [Hcm2 Hcp2] & Hn2 & Hfit & Hsame).
  cbn [b1 payload_ring metadata_ring] in Hcm2, Hcp2. rewrite Hc1 in Hcp2.
  pose proof (enqueue_one_spec (packet n h) (metadata_ring b2) (hd_meta _ _ Hb2)) as Hq. destruct (holds_len _ _ Hb2) as [_ Hlm2].
  case_decide as Hlt.
  2: { rewrite Hq. rbind. exists b2, (Err IsFull), es'. split; [by destruct b2|]. split; [done|]. split; [done|]. split; [done|].
       intros E. specialize (Hsame E). subst b2. cbn in *. lia. }
  destruct Hq as (m' & -> & Hwm & Hcm & Hcon). rbind. pose proof (hd_payload _ _ Hb2) as Hwp.
  pose proof (length_room _ Hwp) as Hroom. assert (Hcw : contiguous_window (payload_ring b2) <= window (payload_ring b2))
    by (unfold contiguous_window; lia).
  assert (Hold : length (take n (room (payload_ring b2))) = n) by (rewrite length_take; lia).
  destruct (enqueue_many_spec fill n (payload_ring b2) Hwp Hn2 Hfit (Hfill _ Hold)) as (p' & -> & Hwp' & Hcp & Hrp & Hlp & Hop). rbind.
  exists (mkPB m' p'), (Ok n), (es' ++ [(Some h, fill (take n (room (payload_ring b2))))]). split; [done|].
  split; [apply (holds_push b2); cbn [fst snd]; rewrite ?(Hfill _ Hold); try done; rewrite Hcon; unfold describe, packet; cbn [fst snd]; by rewrite (Hfill _ Hold)|].
  split; [split; cbn [metadata_ring payload_ring]; lia|]. split; [done|]. eexists. split; [exact Hold|]. by rewrite packets_snoc, Hpk.
Qed.

(** ** Dequeuing *)

Lemma packets_nil_head (es : list entry) : match es with [] => True | e :: _ => e.1 <> None end -> packets es = [] -> es = [].
Proof. destruct es as [|[[h|] d] es]; [done| |by intros []]. done. Qed.

Lemma dequeue_spec b es :
  holds b es ->
  exists b' r es', dequeue b = Ret (b', r) /\ holds b' es' /\ same_capacities b b' /\
    match r with
    | Ok (h, d) => packets es = (h, d) :: packets es'
    | Err _ => packets es = [] /\ es' = []
    end.
Proof.
  intros Hb. unfold dequeue. destruct (dequeue_padding_spec b es Hb) as (b1 & es1 & -> & Hb1 & Hpk & [Hcm1 Hcp1] & Hh). rbind.
  pose proof (dequeue_one_with_spec (E := Empty_set) (fun meta : PacketMetadata H => (mkMeta (size meta) None, Ok meta))
    (metadata_ring b1) (hd_meta _ _ Hb1)) as Hd.
  rewrite (hd_described _ _ Hb1) in Hd. destruct es1 as [|[[h|] d] es1]; cbn [map] in Hd; [|clear Hh|done].
  { rewrite Hd. rbind. exists b1, (Err IsEmpty), []. by destruct b1. }
  destruct Hd as (m' & -> & Hwm & Hcm & Hcon). rbind. unfold describe in *. cbn [fst snd size header] in *.
  destruct (head_fits _ _ _ Hb1) as [Hf Htk]. cbn [snd] in Hf, Htk.
  destruct (dequeue_many_spec _ _ (hd_payload _ _ Hb1) Hf) as (p' & -> & Hwp & Hcp & Hrp & Hlp & Hop). rbind.
  exists (mkPB m' p'), (Ok (h, d)), es1. rewrite Htk. split; [done|]. split; [by eapply (holds_pop b1 (Some h, d) es1)|].
  split; [split; cbn [metadata_ring payload_ring]; lia|]. by rewrite <-Hpk.
Qed.

(** A packet whose header and octets are written. *)
Lemma holds_change b h d h' d' es m' p' :
  holds b ((Some h, d) :: es) -> length d' = length d ->
  wf m' -> contents m' = describe (Some h', d') :: map describe es ->
  wf p' -> capacity p' = capacity (payload_ring b) -> read_at p' = read_at (payload_ring b) ->
  len p' = len (payload_ring b) -> contents p' = d' ++ drop (length d) (contents (payload_ring b)) ->
  holds (mkPB m' p') ((Some h', d') :: es).
Proof.
  intros Hb Hl Hwm Hcm Hwp Hcp Hrp Hlp Hop. split; cbn [metadata_ring payload_ring]; try done.
  - rewrite Hop, (hd_octets _ _ Hb). cbn [map concat snd]. by rewrite drop_app_length.
  - rewrite Hcp, Hrp. pose proof (hd_tiled _ _ Hb) as Ht. unfold sizes in *. cbn [map snd] in *. by rewrite Hl.
  - split; [done|]. apply Hb.
  - intros x Hx. rewrite Hrp, Hlp, Hcp. apply (hd_last _ _ Hb x). by destruct es.
Qed.

Lemma dequeue_with_spec {R E} (f : H -> list Z -> H * list Z * result R E) b es :
  holds b es -> (forall h d, length (f h d).1.2 = length d) ->
  exists b' r es', dequeue_with f b = Ret (b', r) /\ holds b' es' /\ same_capacities b b' /\
    match r with
    | Ok v => exists h d q, packets es = (h, d) :: q /\ v = (f h d).2 /\
        packets es' = match v with Ok _ => q | Err _ => (f h d).1 :: q end
    | Err _ => packets es = [] /\ es' = []
    end.
Proof.
  intros Hb Hf. unfold dequeue_with. destruct (dequeue_padding_spec b es Hb) as (b1 & es1 & -> & Hb1 & Hpk & [Hcm1 Hcp1] & Hh). rbind.
  pose proof (dequeue_one_with_spec (R := Empty_set) (fun m : PacketMetadata H => (m, Err m)) (metadata_ring b1) (hd_meta _ _ Hb1)) as Hd.
  rewrite (hd_described _ _ Hb1) in Hd. destruct es1 as [|[[h|] d] es1]; cbn [map] in Hd; [|clear Hh|done].
  { rewrite Hd. rbind. exists b1, (Err IsEmpty), []. done. }
  destruct Hd as (m1 & -> & _ & _ & _). rbind. unfold describe in *. cbn [fst snd size header unwrap] in *. rbind.
  destruct (head_fits _ _ _ Hb1) as [Hfit Htk]. cbn [snd] in Hfit, Htk. pose proof (hd_payload _ _ Hb1) as Hwp.
  pose proof (Hf h d) as Hlen. destruct (f h d) as [[h' d'] v] eqn:Hfd. cbn [fst snd] in Hlen.
  assert (Hlt : length (take (front_window (payload_ring b1)) (contents (payload_ring b1))) = front_window (payload_ring b1))
    by (rewrite length_take, length_contents by done; unfold front_window; lia).
  match goal with |- context [dequeue_many_with ?g _] =>
    destruct (dequeue_many_with_spec g (payload_ring b1)
      (d' ++ drop (length d) (take (front_window (payload_ring b1)) (contents (payload_ring b1))))
      (match v with Ok _ => length d | Err _ => 0 end) (h', v, true) Hwp) as (p' & -> & Hwp' & Hcp & Hrp & Hlp & Hop & _) end.
  { rewrite take_take. replace (length d `min` _) with (length d) by lia. rewrite Htk, Hfd, Hlt.
    by rewrite (proj2 (Nat.leb_le _ _)) by done. }
  { rewrite length_app, length_drop. lia. }
  { destruct v; lia. }
  rbind. unfold assert_true. rbind.
  match goal with |- context [dequeue_one_with ?g _] => pose proof (dequeue_one_with_spec g (metadata_ring b1) (hd_meta _ _ Hb1)) as Hd end.
  rewrite (hd_described _ _ Hb1) in Hd. destruct Hd as (m' & -> & Hwm & Hcm & Hcon). rbind. cbn [fst snd] in *.
  rewrite <-app_assoc in Hop.
  replace (drop (length d) (take (front_window (payload_ring b1)) (contents (payload_ring b1))) ++ drop (front_window (payload_ring b1)) (contents (payload_ring b1)))
    with (drop (length d) (contents (payload_ring b1))) in Hop.
  2: { rewrite <-(take_drop (front_window (payload_ring b1)) (contents (payload_ring b1))) at 1. by rewrite drop_app_le by lia. }
  exists (mkPB m' p'), (Ok v), (match v with Ok _ => es1 | Err _ => (Some h', d') :: es1 end). split; [done|].
  split; [|split; [split; cbn [metadata_ring payload_ring]; lia|exists h, d, (packets es1); rewrite <-Hpk; rewrite Hfd; by destruct v]].
  destruct v.
  - eapply (holds_pop b1 (Some h, d) es1); cbn [snd]; try done. rewrite Hop, drop_app_ge, <-Hlen by lia. by rewrite Nat.sub_diag.
  - rewrite Nat.sub_0_r in Hlp. rewrite get_idx_0 in Hrp by done. eapply (holds_change b1 h d); try done.
    rewrite Hcon. unfold describe. cbn [fst snd size]. by rewrite Hlen.
Qed.

Lemma peek_spec b es :
  holds b es ->
  exists b' r es', peek b = Ret (b', r) /\ holds b' es' /\ same_capacities b b' /\ packets es' = packets es /\
    match r with Ok (h, d) => exists q, packets es = (h, d) :: q | Err _ => es' = [] end.
Proof.
  intros Hb. unfold peek. destruct (dequeue_padding_spec b es Hb) as (b1 & es1 & -> & Hb1 & Hpk & Hcap & Hh). rbind.
  rewrite get_allocated_spec by apply Hb1. rbind. rewrite drop_0, (hd_described _ _ Hb1), Nat.sub_0_r.
  destruct (holds_len _ _ Hb1) as [Hlen Hlm]. rewrite Hlm. destruct es1 as [|[[h|] d] es1]; cbn [map length]; [|clear Hh|done].
  { rewrite take_nil. exists b1, (Err IsEmpty), []. done. }
  pose proof (wf_len _ (hd_meta _ _ Hb1)) as Hcap1. cbn [length] in Hlm.
  pose proof (until_end_pos (metadata_ring b1) 0 (hd_meta _ _ Hb1) ltac:(lia)).
  replace ((1 `min` S (length es1)) `min` until_end (metadata_ring b1) 0) with 1 by lia. cbn [take].
  unfold describe at 1. cbn [header fst unwrap]. rbind. rewrite get_allocated_spec by apply Hb1. rbind.
  destruct (head_fits _ _ _ Hb1) as [Hfit Htk]. cbn [snd] in Hfit, Htk. unfold describe. cbn [size snd]. rewrite drop_0, Nat.sub_0_r.
  unfold until_end. rewrite get_idx_0 by apply Hb1. unfold front_window in Hfit.
  replace ((length d `min` len (payload_ring b1)) `min` (capacity (payload_ring b1) - read_at (payload_ring b1))) with (length d) by lia.
  rewrite Htk. exists b1, (Ok (h, d)), ((Some h, d) :: es1). split; [done|]. split; [done|]. split; [done|]. split; [done|].
  exists (packets es1). by rewrite <-Hpk.
Qed.

Lemma holds_cleared b : wf (metadata_ring b) -> wf (payload_ring b) -> holds (reset b) [].
Proof.
  intros Hm Hp. split; cbn [reset metadata_ring payload_ring]; try done;
    (split; cbn [clear len read_at]; change (capacity (mk _ _ _)) with (capacity (metadata_ring b)) ||
       change (capacity (mk _ _ _)) with (capacity (payload_ring b)); [lia|lia|apply Hm || apply Hp]).
Qed.

(** ** A queue of packets *)

(** The calls of a packet buffer.  A closure given to [dequeue_with] may write
    the header and the octets of the packet, and keeps or takes it. *)
Inductive op : Type :=
| Enqueue (h : H) (data : list Z) | Dequeue | DequeueWith (write : H -> list Z -> H * list Z) (takes : bool) | Peek | Reset.
Inductive answer : Type := Done | Refused | Packet (h : H) (data : list Z) | Nothing.

Definition answer_of {E} (r : result (H * list Z) E) : answer := match r with Ok (h, d) => Packet h d | Err _ => Nothing end.

Definition do_op (o : op) b : outcome (t H * answer) :=
  match o with
  | Enqueue h data =>
      '(b', r) ← enqueue (length data) h (fun _ => data) b;
      match r with
      | Ok n => _ ← assert_true (n =? length data)%nat; Ret (b', Done)
      | Err _ => Ret (b', Refused)
      end
  | Dequeue => '(b', r) ← dequeue b; Ret (b', answer_of r)
  | DequeueWith write takes =>
      '(b', r) ← dequeue_with (fun h d => (write h d, if takes then Ok (h, d) else Err (h, d))) b;
      Ret (b', match r with Ok (Ok (h, d)) | Ok (Err (h, d)) => Packet h d | Err _ => Nothing end)
  | Peek => '(b', r) ← peek b; Ret (b', answer_of r)
  | Reset => Ret (reset b, Done)
  end.

Fixpoint run (os : list op) b : outcome (t H * list answer) :=
  match os with
  | [] => Ret (b, [])
  | o :: os => '(b1, x) ← do_op o b; '(b2, xs) ← run os b1; Ret (b2, x :: xs)
  end.

(** What the calls do to a queue of packets with room for [octets] octets; [fresh]
    says that the last call found nothing, or that there was none.  The queue may
    refuse a packet unless it is fresh and the packet fits. *)
Inductive queue_step (descriptions octets : nat) : list (H * list Z) * bool -> op -> answer -> list (H * list Z) * bool -> Prop :=
| QEnqueue q fresh h data : queue_step descriptions octets (q, fresh) (Enqueue h data) Done (q ++ [(h, data)], false)
| QRefuse q fresh h data : (fresh = true -> octets < length data \/ descriptions = 0) ->
    queue_step descriptions octets (q, fresh) (Enqueue h data) Refused (q, fresh)
| QDequeue q fresh h data : queue_step descriptions octets ((h, data) :: q, fresh) Dequeue (Packet h data) (q, false)
| QDequeueNone fresh : queue_step descriptions octets ([], fresh) Dequeue Nothing ([], true)
| QTake q fresh h data write : queue_step descriptions octets ((h, data) :: q, fresh) (DequeueWith write true) (Packet h data) (q, false)
| QKeep q fresh h data write :
    queue_step descriptions octets ((h, data) :: q, fresh) (DequeueWith write false) (Packet h data) (write h data :: q, false)
| QWithNone fresh write takes : queue_step descriptions octets ([], fresh) (DequeueWith write takes) Nothing ([], true)
| QPeek q fresh h data : queue_step descriptions octets ((h, data) :: q, fresh) Peek (Packet h data) ((h, data) :: q, false)
| QPeekNone fresh : queue_step descriptions octets ([], fresh) Peek Nothing ([], true)
| QReset q fresh : queue_step descriptions octets (q, fresh) Reset Done ([], true).

Inductive queue_steps (descriptions octets : nat) : list (H * list Z) * bool -> list op -> list answer -> list (H * list Z) * bool -> Prop :=
| QNil s : queue_steps descriptions octets s [] [] s
| QCons s1 s2 s3 o os x xs : queue_step descriptions octets s1 o x s2 -> queue_steps descriptions octets s2 os xs s3 ->
    queue_steps descriptions octets s1 (o :: os) (x :: xs) s3.

Definition op_ok (o : op) : Prop :=
  match o with DequeueWith write _ => forall h d, length (write h d).2 = length d | _ => True end.

Definition models b (s : list (H * list Z) * bool) : Prop := exists es, holds b es /\ packets es = s.1 /\ (s.2 = true -> es = []).

Lemma packet_op_refines b o s :
  models b s -> op_ok o ->
  exists b' x s', do_op o b = Ret (b', x) /\ models b' s' /\ same_capacities b b' /\
    queue_step (capacity (metadata_ring b)) (capacity (payload_ring b)) s o x s'.
Proof.
  destruct s as [q fresh]. intros (es & Hb & Hq & Hfr) Hok. cbn [fst snd] in Hq, Hfr.
  destruct o as [h data| |write takes| |]; cbn [do_op].
  - destruct (enqueue_spec (length data) h (fun _ => data) b es Hb ltac:(done)) as (b' & r & es' & -> & Hb' & Hc & Hr). rbind.
    destruct r as [n|[]].
    + destruct Hr as (-> & old & _ & Hp). unfold assert_true. rewrite Nat.eqb_refl. rbind.
      exists b', Done, (q ++ [(h, data)], false). split; [done|]. split; [exists es'; by rewrite <-Hq|]. split; [done|]. constructor.
    + destruct Hr as [Hp He]. exists b', Refused, (q, fresh). split; [done|].
      split; [exists es'; split; [done|]; cbn; split; [by rewrite Hp|naive_solver]|]. split; [done|]. constructor. naive_solver.
  - destruct (dequeue_spec b es Hb) as (b' & r & es' & -> & Hb' & Hc & Hr). rbind. destruct r as [[h d]|[]]; cbn [answer_of].
    + exists b', (Packet h d), (packets es', false). split; [done|]. split; [by exists es'|]. split; [done|].
      rewrite Hr in Hq. subst q. constructor.
    + destruct Hr as [Hp ->]. rewrite Hp in Hq. subst q. exists b', Nothing, ([], true). split; [done|]. split; [by exists []|]. split; [done|]. constructor.
  - match goal with |- context [dequeue_with ?f b] => destruct (dequeue_with_spec f b es Hb) as (b' & r & es' & -> & Hb' & Hc & Hr) end.
    { intros h d. cbn [fst]. apply Hok. }
    rbind. destruct r as [v|[]].
    + destruct Hr as (h & d & q' & Hp & -> & Hp'). cbn [fst snd] in *. rewrite Hp in Hq. subst q. destruct takes.
      * exists b', (Packet h d), (q', false). split; [done|]. split; [by exists es'|]. split; [done|]. constructor.
      * exists b', (Packet h d), (write h d :: q', false). split; [done|]. split; [by exists es'|]. split; [done|]. constructor.
    + destruct Hr as [Hp ->]. rewrite Hp in Hq. subst q. exists b', Nothing, ([], true). split; [done|]. split; [by exists []|]. split; [done|]. constructor.
  - destruct (peek_spec b es Hb) as (b' & r & es' & -> & Hb' & Hc & Hp & Hr). rbind. destruct r as [[h d]|[]]; cbn [answer_of].
    + destruct Hr as [q' Hq']. exists b', (Packet h d), (q, false). split; [done|]. split; [exists es'; by rewrite Hp|]. split; [done|].
      rewrite Hq' in Hq. subst q. constructor.
    + subst es'. cbn in Hp. rewrite <-Hp in Hq. subst q. exists b', Nothing, ([], true). split; [done|]. split; [by exists []|]. split; [done|]. constructor.
  - exists (reset b), Done, ([], true). split; [done|]. split; [exists []; split; [apply holds_cleared; apply Hb|done]|]. split; [done|]. constructor.
Qed.

Lemma run_packets_refine os : forall b s,
  models b s -> Forall op_ok os ->
  exists b' xs s', run os b = Ret (b', xs) /\ models b' s' /\
    queue_steps (capacity (metadata_ring b)) (capacity (payload_ring b)) s os xs s'.
Proof.
  induction os as [|o os IH]; intros b s Hm Hok; cbn [run]; [exists b, [], s; split; [done|]; split; [done|constructor]|].
  apply Forall_cons in Hok as [Ho Hok]. destruct (packet_op_refines b o s Hm Ho) as (b1 & x & s1 & -> & Hm1 & [Hc1 Hc2] & Hs). rbind.
  destruct (IH b1 s1 Hm1 Hok) as (b2 & xs & s2 & -> & Hm2 & Hss). rbind. exists b2, (x :: xs), s2. rewrite Hc1, Hc2 in Hss.
  split; [done|]. split; [done|]. by econstructor.
Qed.

End laws.

Arguments op : clear implicits.
Arguments answer : clear implicits.

(** C26: a packet buffer is a queue of packets.  From a new buffer, every sequence
    of calls runs without a panic and answers as a queue does: packets come out in
    the order in which they were accepted, each with its header and exactly its
    octets, wherever the storage wraps around and whatever padding that needs; a
    closure that keeps a packet leaves it first in the queue as it wrote it; and a
    packet that fits is refused only when something is, or may still be, stored. *)
Theorem packet_buffer_refines_queue {H} (metadata : list (PacketMetadata H)) (payload : list Z) os :
  (Z.of_nat (length metadata) < 2 ^ 63)%Z -> (Z.of_nat (length payload) < 2 ^ 63)%Z -> Forall op_ok os ->
  exists b xs s, run os (new metadata payload) = Ret (b, xs) /\
    queue_steps (length metadata) (length payload) ([], true) os xs s /\ models b s.
Proof.
  intros Hm Hp Hok. destruct (run_packets_refine os (new metadata payload) ([], true)) as (b & xs & s & Hr & Hs & Hq).
  - exists []. split; [|done]. split; try done; by apply wf_new.
  - done.
  - exists b, xs, s. done.
Qed.

Lemma packet_buffer_refines_queue_witness :
  exists b xs s, run [Enqueue 1 [1; 2; 3]%Z; Enqueue 2 [4]%Z; Dequeue; Enqueue 3 [5; 6; 7]%Z; Peek; Dequeue; Dequeue; Dequeue]
    (new (replicate 4 EMPTY) (replicate 6 0%Z)) = Ret (b, xs) /\
    queue_steps 4 6 ([], true) [Enqueue 1 [1; 2; 3]%Z; Enqueue 2 [4]%Z; Dequeue; Enqueue 3 [5; 6; 7]%Z; Peek; Dequeue; Dequeue; Dequeue] xs s /\
    models b s.
Proof.
  apply (packet_buffer_refines_queue (replicate 4 EMPTY) (replicate 6 0%Z)
    [Enqueue 1 [1; 2; 3]%Z; Enqueue 2 [4]%Z; Dequeue; Enqueue 3 [5; 6; 7]%Z; Peek; Dequeue; Dequeue; Dequeue]).
  - done.
  - done.
  - repeat constructor.
Defined.

(** [enqueue_with_infallible] writes the octets before it knows that there is room
    for their description.  When the padding takes the last description, the call
    is refused but its octets stay, and the next packet is given out with them. *)
Theorem refused_packet_leaves_its_octets :
  exists b1 b2 b3,
    run [Enqueue 1 [1; 1; 1; 1]%Z; Enqueue 2 [2; 2; 2; 2]%Z; Dequeue] (new (replicate 2 EMPTY) (replicate 10 0%Z))
      = Ret (b1, [Done; Done; Packet 1 [1; 1; 1; 1]%Z]) /\
    enqueue_with_infallible 3 3 (fun _ => ([3; 3; 3]%Z, 3)) b1 = Ret (b2, Err IsFull) /\
    run [Dequeue; Enqueue 4 [4]%Z; Dequeue] b2 = Ret (b3, [Packet 2 [2; 2; 2; 2]%Z; Done; Packet 4 [3]%Z]).
Proof. do 3 eexists. split; [vm_compute; reflexivity|]. split; [vm_compute; reflexivity|]. vm_compute. reflexivity. Qed.

End PacketBufferLaws.
