(* ===== verification/IfaceAddr.v ===== *)
(** * The addresses and routes of an interface

    [Module Ipv6Addr] translates the addresses and blocks of
    [smoltcp/src/wire/ipv6.rs], [Module Routes] the routing table of
    [iface/route.rs], [Module IfaceAddr] what [iface/interface/mod.rs] asks of the
    addresses of an interface.  An IPv6 address is the list of its sixteen octets. *)

From S2P Require Import Prelude TcpWire Wire Ipv4Packet.

Local Open Scope Z_scope.

Module Ipv6Addr.

(** [addr.0[i]] of an array. *)
Definition octet_at (a : list Z) (i : nat) : Z := nth i a 0.

(** [enum Scope], its numbers, and [From<u8> for Scope]. *)
Inductive Scope : Type := InterfaceLocal | LinkLocal | AdminLocal | SiteLocal | OrganizationLocal | Global | UnknownScope.
Definition scope_value (s : Scope) : Z :=
  match s with
  | InterfaceLocal => 0x1 | LinkLocal => 0x2 | AdminLocal => 0x4 | SiteLocal => 0x5 | OrganizationLocal => 0x8
  | Global => 0xE | UnknownScope => 0xFF
  end.
Definition scope_from (value : Z) : Scope :=
  if value =? 0x1 then InterfaceLocal else if value =? 0x2 then LinkLocal else if value =? 0x4 then AdminLocal
  else if value =? 0x5 then SiteLocal else if value =? 0x8 then OrganizationLocal else if value =? 0xE then Global
  else UnknownScope.

Definition UNSPECIFIED : list Z := replicate 16 0.
Definition LOOPBACK : list Z := replicate 15 0 ++ [1].
Definition LINK_LOCAL_ALL_NODES : list Z := [0xff; 0x02] ++ replicate 13 0 ++ [1].

(** The questions on an [Address]. *)
Definition is_multicast (a : list Z) : bool := octet_at a 0 =? 0xff.
Definition is_unspecified (a : list Z) : bool := bool_decide (a = UNSPECIFIED).
Definition is_unicast (a : list Z) : bool := negb (is_multicast a || is_unspecified a).
Definition is_global_unicast (a : list Z) : bool := Z.shiftr (octet_at a 0) 5 =? 1.
Definition is_link_local (a : list Z) : bool := bool_decide (take 8 a = [0xfe; 0x80; 0; 0; 0; 0; 0; 0]).
Definition is_unique_local (a : list Z) : bool := Z.land (octet_at a 0) 254 =? 0xfc.
Definition is_loopback (a : list Z) : bool := bool_decide (a = LOOPBACK).

(** [Address::scope]. *)
Definition scope (a : list Z) : Scope :=
  if is_multicast a then scope_from (Z.land (octet_at a 1) 15)
  else if is_link_local a then LinkLocal
  else if is_unique_local a || is_global_unicast a then Global
  else UnknownScope.

(** [Address::mask]. *)
Definition mask (a : list Z) (mask : Z) : outcome (list Z) :=
  _ ← assert_true (mask <=? 128);
  let idx := Z.to_nat (mask / 8) in
  let modulus := mask mod 8 in
  let bytes := take idx a ++ replicate (16 - idx) 0 in
  if (idx <? 16)%nat then index_set bytes idx (Z.land (octet_at a idx) (wrap 8 (bnot 32 (Z.shiftr 0xff modulus))))
  else Ret bytes.

(** [struct Cidr], [Cidr::contains_addr] and [Cidr::contains_subnet]. *)
Record Cidr : Type := mkCidr { address : list Z; prefix_len : Z }.
Definition contains_addr (c : Cidr) (addr : list Z) : outcome bool :=
  if prefix_len c =? 0 then Ret true
  else m ← mask (address c) (prefix_len c); n ← mask addr (prefix_len c); Ret (bool_decide (m = n)).
Definition contains_subnet (c subnet : Cidr) : outcome bool :=
  if prefix_len c <=? prefix_len subnet then contains_addr c (address subnet) else Ret false.

End Ipv6Addr.

(** ** Routes *)

Module Routes.

(** [enum Cidr] of [wire/ip.rs] and its operations. *)
Inductive IpCidr : Type := Cidr4 (c : Ipv4Packet.Cidr) | Cidr6 (c : Ipv6Addr.Cidr).
Definition address (c : IpCidr) : Ip.Address :=
  match c with Cidr4 c => Ip.Ipv4 (Ipv4Packet.address c) | Cidr6 c => Ip.Ipv6 (Ipv6Addr.address c) end.
Definition prefix_len (c : IpCidr) : Z :=
  match c with Cidr4 c => Ipv4Packet.prefix_len c | Cidr6 c => Ipv6Addr.prefix_len c end.

(** [Address::is_unicast] and [Address::is_multicast] of [wire/ip.rs]. *)
Definition is_unicast (a : Ip.Address) : outcome bool :=
  match a with Ip.Ipv4 o => Ipv4Packet.is_unicast o | Ip.Ipv6 o => Ret (Ipv6Addr.is_unicast o) end.
Definition is_multicast (a : Ip.Address) : outcome bool :=
  match a with Ip.Ipv4 o => Ipv4Packet.is_multicast o | Ip.Ipv6 o => Ret (Ipv6Addr.is_multicast o) end.
Definition is_broadcast (a : Ip.Address) : bool :=
  match a with Ip.Ipv4 o => Ipv4Packet.is_broadcast o | Ip.Ipv6 _ => false end.

(** [struct Route]. *)
Record Route : Type := mkRoute {
  cidr : IpCidr; via_router : Ip.Address; preferred_until : option Time.Instant; expires_at : option Time.Instant
}.

(** [IPV4_DEFAULT], [IPV6_DEFAULT], [Route::new_ipv4_gateway] and
    [Route::new_ipv6_gateway]. *)
Definition IPV4_DEFAULT : IpCidr := Cidr4 (Ipv4Packet.mkCidr [0; 0; 0; 0] 0).
Definition IPV6_DEFAULT : IpCidr := Cidr6 (Ipv6Addr.mkCidr Ipv6Addr.UNSPECIFIED 0).
Definition new_ipv4_gateway (gateway : list Z) : Route := mkRoute IPV4_DEFAULT (Ip.Ipv4 gateway) None None.
Definition new_ipv6_gateway (gateway : list Z) : Route := mkRoute IPV6_DEFAULT (Ip.Ipv6 gateway) None None.

#[global] Instance cidr4_eq : EqDecision Ipv4Packet.Cidr.
Proof. solve_decision. Defined.
#[global] Instance cidr6_eq : EqDecision Ipv6Addr.Cidr.
Proof. solve_decision. Defined.
#[global] Instance ip_cidr_eq : EqDecision IpCidr.
Proof. solve_decision. Defined.

(** [IFACE_MAX_ROUTE_COUNT], and [struct Routes] by its storage. *)
Definition IFACE_MAX_ROUTE_COUNT : nat := 4.
Inductive RouteTableFull : Type := IsTableFull.

(** [Routes::remove_default_ipv4_route] and the one for IPv6: the first route to
    [default] is taken out. *)
Fixpoint remove_default (default : IpCidr) (storage : list Route) : list Route * option Route :=
  match storage with
  | [] => ([], None)
  | r :: rest =>
      if bool_decide (cidr r = default) then (rest, Some r)
      else let '(rest', old) := remove_default default rest in (r :: rest', old)
  end.

(** [Routes::add_default_ipv4_route] and [Routes::add_default_ipv6_route]; a
    [heapless::Vec] refuses an element past its capacity. *)
Definition add_default (default : IpCidr) (route : Route) (storage : list Route) :
    list Route * result (option Route) RouteTableFull :=
  let '(storage, old) := remove_default default storage in
  if (length storage <? IFACE_MAX_ROUTE_COUNT)%nat then (storage ++ [route], Ok old) else (storage, Err IsTableFull).
Definition add_default_ipv4_route (gateway : list Z) := add_default IPV4_DEFAULT (new_ipv4_gateway gateway).
Definition add_default_ipv6_route (gateway : list Z) := add_default IPV6_DEFAULT (new_ipv6_gateway gateway).

Section lookup.
Context {BE : ByteOrder}.

(** [Cidr::contains_addr] of [wire/ip.rs]. *)
Definition contains_addr (c : IpCidr) (a : Ip.Address) : outcome bool :=
  match c, a with
  | Cidr4 c, Ip.Ipv4 o => Ipv4Packet.contains_addr c o
  | Cidr6 c, Ip.Ipv6 o => Ipv6Addr.contains_addr c o
  | _, _ => Ret false
  end.

(** The filter of [Routes::lookup]. *)
Definition matches (addr : Ip.Address) (timestamp : Time.Instant) (r : Route) : outcome bool :=
  match expires_at r with
  | Some t => if t <? timestamp then Ret false else contains_addr (cidr r) addr
  | None => contains_addr (cidr r) addr
  end.
Fixpoint filter_matching (addr : Ip.Address) (timestamp : Time.Instant) (l : list Route) : outcome (list Route) :=
  match l with
  | [] => Ret []
  | r :: l => m ← matches addr timestamp r; l' ← filter_matching addr timestamp l; Ret (if (m : bool) then r :: l' else l')
  end.

(** [Iterator::max_by_key], which gives the last of the largest. *)
Fixpoint max_from (best : Route) (l : list Route) : Route :=
  match l with
  | [] => best
  | r :: l => max_from (if prefix_len (cidr r) <? prefix_len (cidr best) then best else r) l
  end.

(** [Routes::lookup]. *)
Definition lookup (storage : list Route) (addr : Ip.Address) (timestamp : Time.Instant) : outcome (option Ip.Address) :=
  u ← is_unicast addr;
  _ ← assert_true u;
  l ← filter_matching addr timestamp storage;
  Ret (match l with [] => None | r :: l => Some (via_router (max_from r l)) end).

End lookup.

End Routes.

(** ** The interface *)

Module IfaceAddr.
Import Routes.

(** What is used here of [struct InterfaceInner]: its addresses, the routes, the
    multicast groups it has joined, whether it takes packets to any address, and
    the time. *)
Record InterfaceInner : Type := mkInner {
  ip_addrs : list IpCidr; any_ip : bool; routes : list Route; ipv4_multicast_groups : list (list Z); now : Time.Instant
}.

(** [InterfaceInner::has_ip_addr], [ipv4_addr] and [get_source_address_ipv4]. *)
Definition has_ip_addr (i : InterfaceInner) (addr : Ip.Address) : bool :=
  existsb (fun probe => bool_decide (address probe = addr)) (ip_addrs i).
Definition ipv4_addr (i : InterfaceInner) : option (list Z) :=
  head (omap (fun c => match c with Cidr4 c => Some (Ipv4Packet.address c) | Cidr6 _ => None end) (ip_addrs i)).
Definition get_source_address_ipv4 (i : InterfaceInner) (_dst_addr : list Z) : option (list Z) :=
  head (omap (fun c => match c with Cidr4 c => Some (Ipv4Packet.address c) | Cidr6 _ => None end) (ip_addrs i)).

(** [is_candidate_source_address]. *)
Definition is_candidate_source_address (dst_addr src_addr : list Z) : bool :=
  if Ipv6Addr.is_link_local dst_addr && negb (Ipv6Addr.is_link_local src_addr) then false
  else if Ipv6Addr.is_multicast dst_addr
       && match Ipv6Addr.scope dst_addr with Ipv6Addr.LinkLocal => true | _ => false end
       && Ipv6Addr.is_multicast src_addr
       && negb match Ipv6Addr.scope src_addr with Ipv6Addr.LinkLocal => true | _ => false end then false
  else if Ipv6Addr.is_loopback src_addr || Ipv6Addr.is_multicast src_addr then false
  else true.

(** [common_prefix_length]; [u8::leading_zeros] of an octet that is not zero. *)
Definition octet_leading_zeros (x : Z) : Z := 7 - Z.log2 x.
Fixpoint common_bits (l r : list Z) : Z :=
  match l, r with
  | x :: l, y :: r => if x =? y then 8 + common_bits l r else octet_leading_zeros (Z.lxor x y)
  | _, _ => 0
  end.
Definition common_prefix_length (dst_addr : Ipv6Addr.Cidr) (src_addr : list Z) : Z :=
  Z.min (common_bits (Ipv6Addr.address dst_addr) src_addr) (Ipv6Addr.prefix_len dst_addr).

Definition ipv6_cidrs (i : InterfaceInner) : list Ipv6Addr.Cidr :=
  omap (fun c => match c with Cidr4 _ => None | Cidr6 c => Some c end) (ip_addrs i).

(** A turn of the loop of [get_source_address_ipv6]. *)
Definition prefer (dst_addr : list Z) (candidate addr : Ipv6Addr.Cidr) : Ipv6Addr.Cidr :=
  if negb (is_candidate_source_address dst_addr (Ipv6Addr.address addr)) then candidate
  else
    let scope_of a := Ipv6Addr.scope_value (Ipv6Addr.scope a) in
    let candidate :=
      if negb (bool_decide (Ipv6Addr.address candidate = dst_addr)) && bool_decide (Ipv6Addr.address addr = dst_addr)
      then addr else candidate in
    let candidate :=
      if scope_of (Ipv6Addr.address candidate) <? scope_of (Ipv6Addr.address addr) then
        if scope_of (Ipv6Addr.address candidate) <? scope_of dst_addr then addr else candidate
      else if scope_of dst_addr <? scope_of (Ipv6Addr.address addr) then addr else candidate in
    if common_prefix_length candidate dst_addr <? common_prefix_length addr dst_addr then addr else candidate.

(** [InterfaceInner::get_source_address_ipv6] and [get_source_address]. *)
Definition get_source_address_ipv6 (i : InterfaceInner) (dst_addr : list Z) : outcome (option (list Z)) :=
  candidate ← unwrap (List.find (fun a => is_candidate_source_address dst_addr (Ipv6Addr.address a)) (ipv6_cidrs i));
  Ret (Some (Ipv6Addr.address (foldl (prefer dst_addr) candidate (ipv6_cidrs i)))).
Definition get_source_address (i : InterfaceInner) (dst_addr : Ip.Address) : outcome (option Ip.Address) :=
  match dst_addr with
  | Ip.Ipv4 a => Ret (option_map Ip.Ipv4 (get_source_address_ipv4 i a))
  | Ip.Ipv6 a => o ← get_source_address_ipv6 i a; Ret (option_map Ip.Ipv6 o)
  end.

(** [InterfaceInner::has_solicited_node] and [has_multicast_group]. *)
Definition has_solicited_node (i : InterfaceInner) (addr : list Z) : bool :=
  existsb (fun c => match c with
    | Cidr6 c => negb (bool_decide (Ipv6Addr.address c = Ipv6Addr.LOOPBACK)) &&
        bool_decide (drop 14 addr = drop 14 (Ipv6Addr.address c))
    | Cidr4 _ => false
    end) (ip_addrs i).
Definition has_multicast_group (i : InterfaceInner) (addr : Ip.Address) : bool :=
  match addr with
  | Ip.Ipv4 key => bool_decide (key = [224; 0; 0; 1]) || bool_decide (key ∈ ipv4_multicast_groups i)
  | Ip.Ipv6 a => if bool_decide (a = Ipv6Addr.LINK_LOCAL_ALL_NODES) then true else has_solicited_node i a
  end.

Section broadcast.
Context {BE : ByteOrder}.

(** [InterfaceInner::is_broadcast_v4], [is_broadcast] and [is_unicast_v4]. *)
Fixpoint any_broadcast (l : list IpCidr) (addr : list Z) : outcome bool :=
  match l with
  | [] => Ret false
  | Cidr4 c :: l => o ← Ipv4Packet.broadcast c; if bool_decide (o = Some addr) then Ret true else any_broadcast l addr
  | Cidr6 _ :: l => any_broadcast l addr
  end.
Definition is_broadcast_v4 (i : InterfaceInner) (addr : list Z) : outcome bool :=
  if Ipv4Packet.is_broadcast addr then Ret true else any_broadcast (ip_addrs i) addr.
Definition is_broadcast (i : InterfaceInner) (addr : Ip.Address) : outcome bool :=
  match addr with Ip.Ipv4 a => is_broadcast_v4 i a | Ip.Ipv6 _ => Ret false end.
Definition is_unicast_v4 (i : InterfaceInner) (addr : list Z) : outcome bool :=
  u ← Ipv4Packet.is_unicast addr; if (u : bool) then b ← is_broadcast_v4 i addr; Ret (negb b) else Ret false.

(** [InterfaceInner::in_same_network] and [route]. *)
Fixpoint any_contains (l : list IpCidr) (addr : Ip.Address) : outcome bool :=
  match l with
  | [] => Ret false
  | c :: l => b ← contains_addr c addr; if (b : bool) then Ret true else any_contains l addr
  end.
Definition in_same_network (i : InterfaceInner) (addr : Ip.Address) : outcome bool := any_contains (ip_addrs i) addr.
Definition route (i : InterfaceInner) (addr : Ip.Address) (timestamp : Time.Instant) : outcome (option Ip.Address) :=
  same ← in_same_network i addr;
  if (same : bool) || Routes.is_broadcast addr then Ret (Some addr) else lookup (routes i) addr timestamp.

End broadcast.

End IfaceAddr.
