(* ===== verification/IfaceAddrLaws.v ===== *)
(** * Blocks of IPv6 addresses, the choice of routes and of source addresses *)

From S2P Require Import Prelude TcpWire Wire TcpPacket TcpPacketLaws Ipv4Packet IfaceAddr.
Import TcpPacketLaws.

Local Open Scope Z_scope.

Module IfaceAddrLaws.
Import Ipv6Addr.

(** ** Prefixes of IPv6 addresses *)

Definition addr6_ok (a : list Z) : Prop := length a = 16%nat /\ octets a.
Definition cidr6_ok (c : Cidr) : Prop := addr6_ok (address c) /\ 0 <= prefix_len c <= 128.

(** A decided statement on all octets. *)
Lemma all_octets (P : Z -> bool) : forallb P (map Z.of_nat (seq 0 256)) = true -> forall x, octet x -> P x = true.
Proof.
  intros H x Hx. rewrite forallb_forall in H. apply H. apply in_map_iff. exists (Z.to_nat x). split; [lia|]. apply in_seq. lia.
Qed.

(** The mask of the octet in which the prefix ends keeps its first bits. *)
Lemma octet_mask r x : 0 <= r < 8 -> octet x ->
  Z.land x (wrap 8 (bnot 32 (Z.shiftr 0xff r))) = 2 ^ (8 - r) * (x / 2 ^ (8 - r)).
Proof.
  intros Hr Hx. apply Z.eqb_eq. revert x Hx.
  assert (r = 0 \/ r = 1 \/ r = 2 \/ r = 3 \/ r = 4 \/ r = 5 \/ r = 6 \/ r = 7) as Hc by lia.
  repeat (destruct Hc as [->|Hc]; [apply all_octets; vm_compute; reflexivity|]). subst r. apply all_octets. vm_compute. reflexivity.
Qed.

Lemma be_value_app l1 l2 : be_value (l1 ++ l2) = be_value l1 * 256 ^ Z.of_nat (length l2) + be_value l2.
Proof.
  unfold be_value. rewrite fold_left_app. generalize (fold_left (fun n o => n * 256 + o) l1 0). intros v.
  revert v. induction l2 as [|x l2 IH] using rev_ind; intros v; cbn [length fold_left].
  { change (256 ^ Z.of_nat 0) with 1. lia. }
  rewrite !fold_left_app, length_app. cbn [fold_left length]. rewrite IH. rewrite Nat2Z.inj_add, Z.pow_add_r by lia.
  change (256 ^ Z.of_nat 1) with 256. lia.
Qed.

Lemma be_value_bounds l : octets l -> 0 <= be_value l < 256 ^ Z.of_nat (length l).
Proof.
  induction l as [|x l IH] using rev_ind; intros Ho; [done|]. apply Forall_app in Ho as [Ho [Hx _]%Forall_cons].
  rewrite be_value_app, length_app. cbn [length]. rewrite Nat2Z.inj_add, Z.pow_add_r by lia. specialize (IH Ho).
  change (be_value [x]) with x. change (256 ^ Z.of_nat 1) with 256. lia.
Qed.

Lemma be_value_inj l : forall l', octets l -> octets l' -> length l = length l' -> be_value l = be_value l' -> l = l'.
Proof.
  induction l as [|x l IH] using rev_ind; intros l' Ho Ho' Hl He.
  { by destruct l'. }
  destruct l' as [|y l' _] using rev_ind; [rewrite length_app in Hl; cbn in Hl; lia|].
  apply Forall_app in Ho as [Ho [Hx _]%Forall_cons]. apply Forall_app in Ho' as [Ho' [Hy _]%Forall_cons].
  rewrite !length_app in Hl. cbn [length] in Hl. rewrite !be_value_app in He. cbn [length] in He. change (be_value [x]) with x in He.
  change (be_value [y]) with y in He. change (256 ^ Z.of_nat 1) with 256 in He.
  rewrite (IH l' Ho Ho' ltac:(lia) ltac:(lia)). f_equal. f_equal. lia.
Qed.

(** The first [p] bits of an address, as a number. *)
Definition top (p : Z) (a : list Z) : Z := be_value a / 2 ^ (128 - p).

Lemma split_at_octet a i : length a = 16%nat -> (i < 16)%nat -> a = take i a ++ octet_at a i :: drop (S i) a.
Proof.
  intros Hl Hi. destruct (lookup_lt_is_Some_2 a i ltac:(lia)) as [x Hx]. unfold octet_at.
  rewrite (nth_lookup_Some _ _ _ _ Hx). by rewrite <-drop_S, take_drop by done.
Qed.

Lemma octet_at_range a i : addr6_ok a -> (i < 16)%nat -> octet (octet_at a i).
Proof.
  intros [Hl Ho] Hi. destruct (lookup_lt_is_Some_2 a i ltac:(lia)) as [x Hx]. unfold octet_at.
  rewrite (nth_lookup_Some _ _ _ _ Hx). exact (Forall_lookup_1 _ _ _ _ Ho Hx).
Qed.

Lemma top_split p a : addr6_ok a -> 0 <= p < 128 ->
  top p a = be_value (take (Z.to_nat (p / 8)) a) * 2 ^ (p mod 8) + octet_at a (Z.to_nat (p / 8)) / 2 ^ (8 - p mod 8).
Proof.
  intros Ha Hp. pose proof Ha as [Hl Ho]. set (i := Z.to_nat (p / 8)). assert (Hi : (i < 16)%nat) by (subst i; dlia).
  pose proof (octet_at_range a i Ha Hi) as Hx. set (r := p mod 8). assert (Hr : 0 <= r < 8) by (subst r; dlia).
  assert (Hpow : 2 ^ (128 - p) = 256 ^ Z.of_nat (15 - i) * 2 ^ (8 - r)).
  { change 256 with (2 ^ 8). rewrite <-Z.pow_mul_r, <-Z.pow_add_r by lia. f_equal. subst i r. dlia. }
  unfold top. rewrite (split_at_octet a i Hl Hi) at 1. rewrite be_value_app. cbn [length]. change (octet_at a i :: drop (S i) a) with ([octet_at a i] ++ drop (S i) a).
  rewrite be_value_app. change (be_value [octet_at a i]) with (octet_at a i). rewrite length_drop, Hl.
  replace (16 - S i)%nat with (15 - i)%nat by lia. rewrite Nat2Z.inj_succ, Z.pow_succ_r by lia.
  pose proof (be_value_bounds (drop (S i) a) ltac:(by apply Forall_drop)) as Hd. rewrite length_drop, Hl in Hd.
  replace (16 - S i)%nat with (15 - i)%nat in Hd by lia. set (D := be_value (drop (S i) a)) in *. set (T := be_value (take i a)).
  set (K := 256 ^ Z.of_nat (15 - i)) in *. set (x := octet_at a i) in *. rewrite Hpow, <-Z.div_div by lia.
  replace (T * (256 * K) + (x * K + D)) with (D + (T * 256 + x) * K) by ring. rewrite Z.div_add, (Z.div_small D) by lia. rewrite Z.add_0_l.
  replace 256 with (2 ^ r * 2 ^ (8 - r)) by (rewrite <-Z.pow_add_r by lia; replace (r + (8 - r)) with 8 by lia; done).
  replace (T * (2 ^ r * 2 ^ (8 - r)) + x) with (x + (T * 2 ^ r) * 2 ^ (8 - r)) by ring. rewrite Z.div_add by lia. ring.
Qed.

Lemma mask_spec p a : addr6_ok a -> 0 <= p < 128 ->
  let i := Z.to_nat (p / 8) in let k := 8 - p mod 8 in
  mask a p = Ret (take i a ++ (2 ^ k * (octet_at a i / 2 ^ k)) :: replicate (15 - i) 0).
Proof.
  intros Ha Hp i k. pose proof Ha as [Hl Ho]. assert (Hi : (i < 16)%nat) by (subst i; dlia). unfold mask, assert_true.
  rewrite (proj2 (Z.leb_le p 128)) by lia. rbind. fold i. rewrite (proj2 (Nat.ltb_lt i 16)) by done.
  rewrite index_set_lt by (rewrite length_app, length_take, length_replicate; lia).
  rewrite octet_mask by (dlia || by apply octet_at_range). fold k.
  replace (16 - i)%nat with (S (15 - i)) by lia. cbn [replicate]. rewrite insert_app_r_alt by (rewrite length_take; lia).
  rewrite length_take. replace (i - i `min` length a)%nat with 0%nat by lia. done.
Qed.

Lemma octet_prefix k x y : 0 <= k -> 2 ^ k * (x / 2 ^ k) = 2 ^ k * (y / 2 ^ k) <-> x / 2 ^ k = y / 2 ^ k.
Proof. intros Hk. rewrite Z.mul_cancel_l by lia. done. Qed.

Lemma contains_addr6_spec c a :
  cidr6_ok c -> addr6_ok a ->
  Ipv6Addr.contains_addr c a = Ret (bool_decide (top (prefix_len c) (address c) = top (prefix_len c) a)).
Proof.
  intros [Hc Hp] Ha. unfold Ipv6Addr.contains_addr. pose proof Hc as [Hlc Hoc]. pose proof Ha as [Hla Hoa].
  assert (Hw : forall b, addr6_ok b -> 0 <= be_value b < 2 ^ 128).
  { intros b [Hl Ho]. pose proof (be_value_bounds b Ho) as Hb. by rewrite Hl in Hb. }
  destruct (Z.eqb_spec (prefix_len c) 0) as [E|E].
  { rewrite E, bool_decide_true; [done|]. unfold top. pose proof (Hw _ Hc). pose proof (Hw _ Ha). by rewrite !Z.div_small by lia. }
  destruct (decide (prefix_len c = 128)) as [E8|E8].
  - rewrite E8. unfold mask, assert_true. cbn [Z.leb Z.compare Pos.compare Pos.compare_cont]. rbind. change (Z.to_nat (128 / 8)) with 16%nat.
    cbn [Nat.ltb Nat.leb Nat.sub replicate]. rbind. rewrite !app_nil_r, !take_ge by lia. f_equal. apply bool_decide_ext.
    unfold top. change (2 ^ (128 - 128)) with 1. rewrite !Z.div_1_r. split; [by intros ->|]. apply be_value_inj; [done..|lia].
  - rewrite !mask_spec by (done || lia). rbind. f_equal. apply bool_decide_ext. rewrite !top_split by (done || lia).
    set (i := Z.to_nat _). set (r := prefix_len c mod 8). assert (Hr : 0 <= r < 8) by (subst r; dlia).
    assert (Hi : (i < 16)%nat) by (subst i; dlia).
    pose proof (octet_at_range _ i Hc Hi) as Hx. pose proof (octet_at_range _ i Ha Hi) as Hy. split.
    + intros Heq. apply app_inj_1 in Heq as [Ht [= Hu]]; [|rewrite !length_take; lia]. apply octet_prefix in Hu; [|lia].
      by rewrite Ht, Hu.
    + intros Heq. set (T1 := be_value (take i (address c))) in *. set (T2 := be_value (take i a)) in *.
      assert (Hb : forall x, octet x -> 0 <= x / 2 ^ (8 - r) < 2 ^ r).
      { intros x Hxx. split; [apply Z.div_pos; lia|]. apply Z.div_lt_upper_bound; [lia|]. rewrite <-Z.pow_add_r by lia.
        replace (8 - r + r) with 8 by lia. lia. }
      pose proof (Hb _ Hx) as H1. pose proof (Hb _ Hy) as H2.
      assert (HT : T1 = T2) by nia. assert (Hu : octet_at (address c) i / 2 ^ (8 - r) = octet_at a i / 2 ^ (8 - r)) by nia.
      rewrite Hu. f_equal. apply be_value_inj; [by apply Forall_take..|rewrite !length_take; lia|done].
Qed.

(** ** Routes *)

Definition ip_addr_ok (a : Ip.Address) : Prop :=
  match a with Ip.Ipv4 o => Ipv4Packet.address_ok o | Ip.Ipv6 o => addr6_ok o end.
Definition ip_cidr_ok (c : Routes.IpCidr) : Prop :=
  match c with Routes.Cidr4 c => Ipv4Packet.cidr_ok c | Routes.Cidr6 c => cidr6_ok c end.

Lemma max_from_spec l : forall best,
  Routes.max_from best l ∈ best :: l /\
  forall r, r ∈ best :: l -> Routes.prefix_len (Routes.cidr r) <= Routes.prefix_len (Routes.cidr (Routes.max_from best l)).
Proof.
  induction l as [|x l IH]; intros best; cbn [Routes.max_from]; [set_solver by lia|].
  destruct (Z.ltb_spec (Routes.prefix_len (Routes.cidr x)) (Routes.prefix_len (Routes.cidr best))) as [Hlt|Hge].
  - destruct (IH best) as [Hin Hmax]. split; [set_solver|]. intros r Hr. apply elem_of_cons in Hr as [->|Hr]; [apply Hmax; set_solver|].
    apply elem_of_cons in Hr as [->|Hr]; [|apply Hmax; set_solver]. specialize (Hmax best ltac:(set_solver)). lia.
  - destruct (IH x) as [Hin Hmax]. split; [set_solver|]. intros r Hr. apply elem_of_cons in Hr as [->|Hr]; [|by apply Hmax].
    specialize (Hmax x ltac:(set_solver)). lia.
Qed.

Section lookup.
Context {BE : ByteOrder} {HBE : ByteOrderLaws BE}.

Lemma contains_addr_total c a : ip_cidr_ok c -> ip_addr_ok a -> exists b, Routes.contains_addr c a = Ret b.
Proof.
  destruct c as [c|c], a as [o|o]; cbn; intros Hc Ha; eauto.
  - eexists. by apply Ipv4Packet.contains_addr_block.
  - eexists. by apply contains_addr6_spec.
Qed.

Lemma filter_matching_spec addr ts l :
  ip_addr_ok addr -> Forall (fun r => ip_cidr_ok (Routes.cidr r)) l ->
  exists l', Routes.filter_matching addr ts l = Ret l' /\ forall r, r ∈ l' <-> r ∈ l /\ Routes.matches addr ts r = Ret true.
Proof.
  intros Ha. induction l as [|r l IH]; intros Hl; cbn [Routes.filter_matching]; [exists []; set_solver|].
  apply Forall_cons in Hl as [Hr Hl]. destruct (IH Hl) as (l' & -> & Hl').
  assert (Hm : exists b, Routes.matches addr ts r = Ret b).
  { unfold Routes.matches. destruct (Routes.expires_at r) as [t|]; [destruct (t <? ts); eauto|]; by apply contains_addr_total. }
  destruct Hm as [b Hb]. rewrite Hb. rbind. eexists. split; [done|]. intros x. destruct b; rewrite ?elem_of_cons, Hl'; naive_solver congruence.
Qed.


End lookup.

Definition example_routes : list Routes.Route :=
  [Routes.mkRoute (Routes.Cidr4 (Ipv4Packet.mkCidr [10; 1; 0; 0] 16)) (Ip.Ipv4 [10; 0; 0; 2]) None (Some 500);
   Routes.new_ipv4_gateway [10; 0; 0; 1];
   Routes.mkRoute (Routes.Cidr4 (Ipv4Packet.mkCidr [10; 1; 2; 0] 24)) (Ip.Ipv4 [10; 0; 0; 3]) None (Some 100)].


(** ** Source addresses *)

Lemma prefer_in dst l : forall c,
  foldl (IfaceAddr.prefer dst) c l = c \/
  (foldl (IfaceAddr.prefer dst) c l ∈ l /\
   IfaceAddr.is_candidate_source_address dst (address (foldl (IfaceAddr.prefer dst) c l)) = true).
Proof.
  induction l as [|x l IH]; intros c; cbn [foldl]; [by left|].
  assert (Hx : IfaceAddr.prefer dst c x = c \/
    (IfaceAddr.prefer dst c x = x /\ IfaceAddr.is_candidate_source_address dst (address x) = true)).
  { unfold IfaceAddr.prefer. destruct (IfaceAddr.is_candidate_source_address dst (address x)); cbn [negb]; [|by left]. cbv zeta.
    repeat match goal with |- context [if ?b then _ else _] => destruct b end; auto. }
  destruct (IH (IfaceAddr.prefer dst c x)) as [->|[Hin Hc]]; [|right; split; [set_solver|done]].
  destruct Hx as [->|[-> Hc]]; [by left|]. right. split; [set_solver|done].
Qed.

(** The source address for an IPv6 destination is one of the interface.
    [get_source_address_ipv6] gives the address of an IPv6 block of the
    interface that RFC 6724 takes as a candidate for the destination; when the
    interface has no such address, it panics, where its callers expect
    [None]. *)
Theorem source_address_is_a_candidate i dst :
  match IfaceAddr.get_source_address_ipv6 i dst with
  | Ret o => exists c, o = Some (address c) /\ Routes.Cidr6 c ∈ IfaceAddr.ip_addrs i /\
      IfaceAddr.is_candidate_source_address dst (address c) = true
  | Panic => forall c, Routes.Cidr6 c ∈ IfaceAddr.ip_addrs i -> IfaceAddr.is_candidate_source_address dst (address c) = false
  end.
Proof.
  unfold IfaceAddr.get_source_address_ipv6.
  assert (Hin : forall c, c ∈ IfaceAddr.ipv6_cidrs i <-> Routes.Cidr6 c ∈ IfaceAddr.ip_addrs i).
  { intros c. unfold IfaceAddr.ipv6_cidrs. rewrite list_elem_of_omap. split; [|by exists (Routes.Cidr6 c)].
    intros ([] & Hx & [= ->]). done. }
  destruct (List.find _ (IfaceAddr.ipv6_cidrs i)) as [c|] eqn:Hf; cbn [unwrap]; rbind.
  - apply find_some in Hf as [Hc Hcand]. apply list_elem_of_In in Hc.
    destruct (prefer_in dst (IfaceAddr.ipv6_cidrs i) c) as [->|[Hx Hy]]; eexists; (split; [done|]); split; try done; by apply Hin.
  - intros c Hc. apply Hin, list_elem_of_In in Hc. exact (find_none _ _ Hf c Hc).
Qed.

(** An address of the interface need not be the source for itself: the rule of the
    longest common prefix is asked after the rule of the same address and undoes
    it when another address has a longer prefix. *)
Theorem same_address_is_not_preferred :
  let addr n := [0x20; 0x01; 0x0d; 0xb8] ++ replicate 11 0 ++ [n] in
  let i := IfaceAddr.mkInner [Routes.Cidr6 (mkCidr (addr 1) 64); Routes.Cidr6 (mkCidr (addr 2) 126)] false [] [] 0 in
  IfaceAddr.get_source_address_ipv6 i (addr 1) = Ret (Some (addr 2)).
Proof. vm_compute. reflexivity. Qed.

(** An address is taken for the solicited node of an interface when its last two
    octets agree with an address of it, whatever the others are. *)
Theorem solicited_node_compares_two_octets :
  let own := [0x20; 0x01; 0x0d; 0xb8] ++ replicate 9 0 ++ [1; 2; 3] in
  let i := IfaceAddr.mkInner [Routes.Cidr6 (mkCidr own 64)] false [] [] 0 in
  let other := [0x20; 0x02] ++ replicate 11 7 ++ [9; 2; 3] in
  IfaceAddr.has_multicast_group i (Ip.Ipv6 other) = true.
Proof. vm_compute. reflexivity. Qed.

End IfaceAddrLaws.
