(* ===== verification/UdpSocket.v ===== *)
(** * The UDP socket of [smoltcp/src/socket/udp.rs]

    The socket with its two packet buffers, the calls of its user, the datagrams it
    receives and those it sends.  A world is a socket, the wakers that have been
    woken and the datagrams that have been handed to the device. *)

From S2P Require Import Prelude RingBuffer PacketBuffer TcpWire Wire UdpPacket IfaceAddr.

Local Open Scope Z_scope.

Module UdpSocket.

(** [struct UdpMetadata]; [PacketMeta] has no field. *)
Record UdpMetadata : Type := mkMetadata { m_endpoint : Ip.Endpoint }.

Inductive BindError : Type := InvalidState | BindUnaddressable.
Inductive SendError : Type := SendUnaddressable | BufferFull.
Inductive RecvError : Type := Exhausted | Truncated.

(** A [Waker], by the task it wakes, and [WakerRegistration]. *)
Definition Waker : Type := nat.
Definition WakerRegistration : Type := option Waker.

(** [struct Socket]. *)
Record Socket : Type := mkSocket {
  endpoint : Ip.ListenEndpoint; rx_buffer : PacketBuffer.t UdpMetadata; tx_buffer : PacketBuffer.t UdpMetadata;
  hop_limit : option Z; rx_waker : WakerRegistration; tx_waker : WakerRegistration
}.

(** What a datagram is handed to the device as. *)
Definition Datagram : Type := Ip.Repr * UdpPacket.Repr * list Z.

Record World : Type := mkWorld { socket : Socket; woken : list Waker; emitted : list Datagram }.
Definition M (A : Type) : Type := st World A.

Definition set_endpoint (e : Ip.ListenEndpoint) (s : Socket) : Socket :=
  mkSocket e (rx_buffer s) (tx_buffer s) (hop_limit s) (rx_waker s) (tx_waker s).
Definition set_rx (b : PacketBuffer.t UdpMetadata) (s : Socket) : Socket :=
  mkSocket (endpoint s) b (tx_buffer s) (hop_limit s) (rx_waker s) (tx_waker s).
Definition set_tx (b : PacketBuffer.t UdpMetadata) (s : Socket) : Socket :=
  mkSocket (endpoint s) (rx_buffer s) b (hop_limit s) (rx_waker s) (tx_waker s).
Definition on_socket (f : Socket -> Socket) : M unit := modify (fun w => mkWorld (f (socket w)) (woken w) (emitted w)).
Definition ask {A} (f : Socket -> A) : M A := gets (fun w => f (socket w)).

(** [Socket::new] with the default endpoint. *)
Definition no_endpoint : Ip.ListenEndpoint := Ip.mkListen None 0.
Definition new (rx tx : PacketBuffer.t UdpMetadata) : Socket := mkSocket no_endpoint rx tx None None None.

(** [register_recv_waker] and [register_send_waker], and [WakerRegistration::wake]
    of the one and the other. *)
Definition register_recv_waker (w : Waker) : M unit :=
  on_socket (fun s => mkSocket (endpoint s) (rx_buffer s) (tx_buffer s) (hop_limit s) (Some w) (tx_waker s)).
Definition register_send_waker (w : Waker) : M unit :=
  on_socket (fun s => mkSocket (endpoint s) (rx_buffer s) (tx_buffer s) (hop_limit s) (rx_waker s) (Some w)).
Definition wake_rx : M unit := modify (fun w =>
  let s := socket w in
  mkWorld (mkSocket (endpoint s) (rx_buffer s) (tx_buffer s) (hop_limit s) None (tx_waker s))
    (woken w ++ option_list (rx_waker s)) (emitted w)).
Definition wake_tx : M unit := modify (fun w =>
  let s := socket w in
  mkWorld (mkSocket (endpoint s) (rx_buffer s) (tx_buffer s) (hop_limit s) (rx_waker s) None)
    (woken w ++ option_list (tx_waker s)) (emitted w)).

(** [Socket::set_hop_limit]. *)
Definition set_hop_limit (hop : option Z) : M unit :=
  if bool_decide (hop = Some 0) then panic
  else on_socket (fun s => mkSocket (endpoint s) (rx_buffer s) (tx_buffer s) hop (rx_waker s) (tx_waker s)).

(** [is_open], [can_send] and [can_recv]. *)
Definition is_open (s : Socket) : bool := negb (Ip.listen_port (endpoint s) =? 0).
Definition can_send (s : Socket) : bool := negb (PacketBuffer.is_full (tx_buffer s)).
Definition can_recv (s : Socket) : bool := negb (PacketBuffer.is_empty (rx_buffer s)).

(** [Socket::bind] and [Socket::close]. *)
Definition bind (e : Ip.ListenEndpoint) : M (result unit BindError) :=
  if Ip.listen_port e =? 0 then mret (Err BindUnaddressable)
  else o ← ask is_open;
       if (o : bool) then mret (Err InvalidState)
       else on_socket (set_endpoint e);; wake_rx;; wake_tx;; mret (Ok tt).
Definition close : M unit :=
  on_socket (fun s => set_rx (PacketBuffer.reset (rx_buffer s)) (set_tx (PacketBuffer.reset (tx_buffer s)) (set_endpoint no_endpoint s)));;
  wake_rx;; wake_tx.

(** What [send] and [send_with] refuse. *)
Definition unaddressable (s : Socket) (meta : UdpMetadata) : bool :=
  (Ip.listen_port (endpoint s) =? 0) || Ip.is_unspecified (Ip.addr (m_endpoint meta)) || (Ip.port (m_endpoint meta) =? 0).

(** [Socket::send] whose caller fills the slice it gets by [fill]: the length of
    the slice. *)
Definition send (size : nat) (meta : UdpMetadata) (fill : list Z -> list Z) : M (result nat SendError) :=
  s ← ask id;
  if unaddressable s meta then mret (Err SendUnaddressable)
  else '(b, r) ← lift (PacketBuffer.enqueue size meta fill (tx_buffer s));
       on_socket (set_tx b);;
       mret (match r with Ok n => Ok n | Err _ => Err BufferFull end).

(** [Socket::send_with]. *)
Definition send_with (max_size : nat) (meta : UdpMetadata) (f : list Z -> list Z * nat) : M (result nat SendError) :=
  s ← ask id;
  if unaddressable s meta then mret (Err SendUnaddressable)
  else '(b, r) ← lift (PacketBuffer.enqueue_with_infallible max_size meta f (tx_buffer s));
       on_socket (set_tx b);;
       mret (match r with Ok n => Ok n | Err _ => Err BufferFull end).

(** [Socket::send_slice]; [copy_from_slice] panics unless the lengths agree. *)
Definition send_slice (data : list Z) (meta : UdpMetadata) : M (result unit SendError) :=
  r ← send (length data) meta (fun _ => data);
  match r with
  | Ok n => _ ← lift (assert_true (n =? length data)%nat); mret (Ok tt)
  | Err e => mret (Err e)
  end.

(** [Socket::recv], [recv_slice] into a slice of [n] octets, [peek] and
    [peek_slice]. *)
Definition recv : M (result (list Z * UdpMetadata) RecvError) :=
  s ← ask id;
  '(b, r) ← lift (PacketBuffer.dequeue (rx_buffer s));
  on_socket (set_rx b);;
  mret (match r with Ok (m, payload) => Ok (payload, m) | Err _ => Err Exhausted end).
Definition recv_slice (n : nat) : M (result (list Z * UdpMetadata) RecvError) :=
  r ← recv;
  mret (match r with
        | Err _ => Err Exhausted
        | Ok (buffer, m) => if (n <? length buffer)%nat then Err Truncated else Ok (take (n `min` length buffer) buffer, m)
        end).
Definition peek : M (result (list Z * UdpMetadata) RecvError) :=
  s ← ask id;
  '(b, r) ← lift (PacketBuffer.peek (rx_buffer s));
  on_socket (set_rx b);;
  mret (match r with Ok (m, payload) => Ok (payload, m) | Err _ => Err Exhausted end).
Definition peek_slice (n : nat) : M (result (list Z * UdpMetadata) RecvError) :=
  r ← peek;
  mret (match r with
        | Err e => Err e
        | Ok (buffer, m) => if (n <? length buffer)%nat then Err Truncated else Ok (take (n `min` length buffer) buffer, m)
        end).

Section interface.
Context {BE : ByteOrder}.

(** [Socket::accepts]. *)
Definition accepts (cx : IfaceAddr.InterfaceInner) (s : Socket) (ip_repr : Ip.Repr) (repr : UdpPacket.Repr) : outcome bool :=
  if negb (Ip.listen_port (endpoint s) =? UdpPacket.r_dst_port repr) then Ret false
  else match Ip.listen_addr (endpoint s) with
  | None => Ret true
  | Some a =>
      if bool_decide (a = Ip.dst_addr ip_repr) then Ret true
      else b ← IfaceAddr.is_broadcast cx (Ip.dst_addr ip_repr);
           if (b : bool) then Ret true else Routes.is_multicast (Ip.dst_addr ip_repr)
  end.

(** [Socket::process]; a datagram for which there is no room is dropped. *)
Definition process (ip_repr : Ip.Repr) (repr : UdpPacket.Repr) (payload : list Z) : M unit :=
  s ← ask id;
  let remote_endpoint := Ip.mkEndpoint (Ip.src_addr ip_repr) (UdpPacket.r_src_port repr) in
  '(b, r) ← lift (PacketBuffer.enqueue (length payload) (mkMetadata remote_endpoint) (fun _ => payload) (rx_buffer s));
  match r with
  | Ok n => _ ← lift (assert_true (n =? length payload)%nat); on_socket (set_rx b)
  | Err _ => on_socket (set_rx b)
  end;;
  wake_rx.

(** The packet that [Socket::dispatch] makes, unless there is no source address. *)
Definition datagram (cx : IfaceAddr.InterfaceInner) (s : Socket) (meta : UdpMetadata) (payload : list Z) :
    outcome (option Datagram) :=
  let hop := default 64 (hop_limit s) in
  src ← match Ip.listen_addr (endpoint s) with
        | Some a => Ret (Some a)
        | None => IfaceAddr.get_source_address cx (Ip.addr (m_endpoint meta))
        end;
  match src with
  | None => Ret None
  | Some src_addr =>
      let repr := UdpPacket.mkRepr (Ip.listen_port (endpoint s)) (Ip.port (m_endpoint meta)) in
      ip_repr ← Ip.new src_addr (Ip.addr (m_endpoint meta)) Ip.Udp (UdpPacket.HEADER_LEN + Z.of_nat (length payload)) hop;
      Ret (Some (ip_repr, repr, payload))
  end.

(** [Socket::dispatch], with the closure [emit] that hands the packet to the
    device.  The closure of [dequeue_with] may panic: [Err None]. *)
Definition dispatch {E} (cx : IfaceAddr.InterfaceInner) (emit : Datagram -> result unit E) : M (result unit E) :=
  s ← ask id;
  '(b, res) ← lift (PacketBuffer.dequeue_with (fun m d => (m, d,
     match datagram cx s m d with
     | Panic => Err None
     | Ret None => Ok None
     | Ret (Some p) => match emit p with Ok _ => Ok (Some p) | Err e => Err (Some e) end
     end)) (tx_buffer s));
  on_socket (set_tx b);;
  match res with
  | Err _ => mret (Ok tt)
  | Ok (Err None) => panic
  | Ok (Err (Some e)) => mret (Err e)
  | Ok (Ok p) => modify (fun w => mkWorld (socket w) (woken w) (emitted w ++ option_list p));; wake_tx;; mret (Ok tt)
  end.

(** [Socket::poll_at]: [true] for [Now], [false] for [Ingress]. *)
Definition poll_at (s : Socket) : bool := negb (PacketBuffer.is_empty (tx_buffer s)).

End interface.

End UdpSocket.
