(* ===== verification/UdpPath.v ===== *)
(** * A datagram from one socket to another

    The way of a datagram through [smoltcp/src/iface/]: from the transmit buffer
    of a socket into the octets of an IPv4 packet ([interface/mod.rs],
    [packet.rs]), and from those octets to the socket of the receiver that accepts
    it ([interface/ipv4.rs], [interface/mod.rs]).  The theorems compose the laws of
    the packet buffers, of the two wire formats and of the sockets. *)

From S2P Require Import Prelude RingBuffer RingBufferLaws PacketBuffer PacketBufferLaws TcpWire Wire TcpPacket TcpPacketLaws UdpPacket Ipv4Packet IfaceAddr UdpSocket.
Import TcpPacketLaws.

Local Open Scope Z_scope.

Module UdpPath.
Import UdpSocket.

(** [struct ChecksumCapabilities], and the fields of [struct DeviceCapabilities]
    that are used here. *)
Record Capabilities : Type := mkCapabilities { c_ipv4 : Caps.Checksum; c_udp : Caps.Checksum; max_transmission_unit : Z }.

Section path.
Context {BE : ByteOrder}.

(** [Packet::emit_payload] for a datagram. *)
Definition emit_payload (caps : Capabilities) (ip_repr : Ip.Repr) (udp_repr : UdpPacket.Repr) (inner payload : list Z) :
    outcome (list Z) :=
  UdpPacket.emit udp_repr (Ip.src_addr ip_repr) (Ip.dst_addr ip_repr) (Z.of_nat (length inner)) (UdpPacket.copy_slice inner)
    (c_udp caps) payload.

(** The closure [emit_ip] of [InterfaceInner::dispatch_ip]. *)
Definition emit_ip (caps : Capabilities) (v : Ip.VRepr) (udp_repr : UdpPacket.Repr) (inner tx_buffer : list Z) : outcome (list Z) :=
  b ← Ipv4Packet.emit v (c_ipv4 caps) tx_buffer;
  edit (20%nat, length b) (emit_payload caps (Ip.RIpv4 v) udp_repr inner) b.

(** [InterfaceInner::dispatch_ip] for a datagram over IPv4, with the buffer of the
    device: a packet that is too long for the device is dropped. *)
Definition dispatch_ipv4 (caps : Capabilities) (v : Ip.VRepr) (udp_repr : UdpPacket.Repr) (inner tx_buffer : list Z) :
    outcome (option (list Z)) :=
  u ← Ipv4Packet.is_unspecified (Ip.v_dst v);
  _ ← assert_true (negb u);
  if max_transmission_unit caps <? 20 + Ip.v_payload_len v then Ret None
  else b ← emit_ip caps v udp_repr inner tx_buffer; Ret (Some b).

(** What becomes of a packet: it is dropped, handed to another protocol, taken by
    a socket, or answered with an ICMP message. *)
Inductive Verdict : Type :=
| Dropped | ToIcmp (payload : list Z) | ToIgmp (payload : list Z) | ToTcp (payload : list Z) | Taken | PortUnreachable | ProtoUnreachable.

(** [InterfaceInner::process_udp] over the UDP sockets of the set. *)
Fixpoint process_udp (cx : IfaceAddr.InterfaceInner) (ip_repr : Ip.Repr) (udp_repr : UdpPacket.Repr) (udp_payload : list Z)
    (sockets : list World) : outcome (list World * Verdict) :=
  match sockets with
  | [] => Ret ([], PortUnreachable)
  | w :: ws =>
      a ← accepts cx (socket w) ip_repr udp_repr;
      if (a : bool) then '(w', _) ← process ip_repr udp_repr udp_payload w; Ret (w' :: ws, Taken)
      else '(ws', v) ← process_udp cx ip_repr udp_repr udp_payload ws; Ret (w :: ws', v)
  end.

(** Whether [process_ipv4] takes a packet to [dst_addr]. *)
Definition for_us (cx : IfaceAddr.InterfaceInner) (dst_addr : list Z) : outcome bool :=
  if IfaceAddr.has_ip_addr cx (Ip.Ipv4 dst_addr) then Ret true
  else if IfaceAddr.has_multicast_group cx (Ip.Ipv4 dst_addr) then Ret true
  else b ← IfaceAddr.is_broadcast_v4 cx dst_addr;
       if (b : bool) then Ret true
       else if negb (IfaceAddr.any_ip cx) then Ret false
       else u ← Ipv4Packet.is_unicast dst_addr;
            if negb u then Ret false
            else router ← Routes.lookup (IfaceAddr.routes cx) (Ip.Ipv4 dst_addr) (IfaceAddr.now cx);
                 Ret (match router with None => false | Some r => IfaceAddr.has_ip_addr cx r end).

(** [InterfaceInner::process_ipv4] on the octets of a packet that
    [Ipv4Packet::new_checked] has accepted. *)
Definition process_ipv4 (cx : IfaceAddr.InterfaceInner) (caps : Capabilities) (sockets : list World) (p : list Z) :
    outcome (list World * Verdict) :=
  o ← Ipv4Packet.parse (c_ipv4 caps) p;
  match o with
  | Err _ => Ret (sockets, Dropped)
  | Ok r =>
      uni ← IfaceAddr.is_unicast_v4 cx (Ip.v_src r);
      uns ← Ipv4Packet.is_unspecified (Ip.v_src r);
      if negb uni && negb uns then Ret (sockets, Dropped)
      else
        ip_payload ← Ipv4Packet.payload p;
        ours ← for_us cx (Ip.v_dst r);
        if negb ours then Ret (sockets, Dropped)
        else match Ip.next_header r with
        | Ip.Icmp => Ret (sockets, ToIcmp ip_payload)
        | Ip.Igmp => Ret (sockets, ToIgmp ip_payload)
        | Ip.Udp =>
            c ← UdpPacket.new_checked ip_payload;
            match c with
            | Err _ => Ret (sockets, Dropped)
            | Ok udp_packet =>
                d ← UdpPacket.parse (Ip.Ipv4 (Ip.v_src r)) (Ip.Ipv4 (Ip.v_dst r)) (c_udp caps) udp_packet;
                match d with
                | Err _ => Ret (sockets, Dropped)
                | Ok udp_repr =>
                    udp_payload ← UdpPacket.payload udp_packet;
                    process_udp cx (Ip.RIpv4 r) udp_repr udp_payload sockets
                end
            end
        | Ip.TcpProtocol => Ret (sockets, ToTcp ip_payload)
        | _ => Ret (sockets, ProtoUnreachable)
        end
  end.

(** The octets of an IPv4 packet as they arrive in a frame. *)
Definition receive (cx : IfaceAddr.InterfaceInner) (caps : Capabilities) (sockets : list World) (p : list Z) :
    outcome (list World * Verdict) :=
  o ← Ipv4Packet.new_checked p;
  match o with Err _ => Ret (sockets, Dropped) | Ok p => process_ipv4 cx caps sockets p end.

End path.

(** ** What the socket does with its buffers *)

Import PacketBufferLaws.
Definition queued (b : PacketBuffer.t UdpMetadata) (q : list (UdpMetadata * list Z)) (fresh : bool) : Prop := models b (q, fresh).

Section laws.
Context {BE : ByteOrder} {HBE : ByteOrderLaws BE}.

Lemma udp_process_spec ip r payload w q fresh :
  queued (rx_buffer (socket w)) q fresh ->
  let remote := mkMetadata (Ip.mkEndpoint (Ip.src_addr ip) (UdpPacket.r_src_port r)) in
  exists w', process ip r payload w = Ret (w', tt) /\ endpoint (socket w') = endpoint (socket w) /\
    tx_buffer (socket w') = tx_buffer (socket w) /\ woken w' = woken w ++ option_list (rx_waker (socket w)) /\
    (queued (rx_buffer (socket w')) (q ++ [(remote, payload)]) false \/
     (queued (rx_buffer (socket w')) q fresh /\
      (fresh = true -> (PacketBuffer.payload_capacity (rx_buffer (socket w)) < length payload)%nat \/
        PacketBuffer.packet_capacity (rx_buffer (socket w)) = 0%nat))).
Proof.
  intros Hq remote. unfold process, ask, on_socket, wake_rx, id. sbind. unfold id. cbn beta. fold remote.
  destruct Hq as (es & Hb & Hp & Hf). cbn [fst snd] in Hp, Hf.
  destruct (enqueue_spec (length payload) remote (fun _ => payload) (rx_buffer (socket w)) es Hb ltac:(done)) as (b & x & es' & He & Hb' & _ & Hx).
  rewrite He. sbind. destruct x as [n|[]].
  - destruct Hx as (-> & old & _ & Hpk). unfold assert_true. rewrite Nat.eqb_refl. sbind. eexists. split; [done|]. cbn.
    do 3 (split; [done|]). left. exists es'. split; [done|]. cbn. by rewrite Hpk, Hp.
  - destruct Hx as [Hpk He0]. eexists. split; [done|]. cbn. do 3 (split; [done|]). right. split.
    + exists es'. split; [done|]. cbn. rewrite Hpk. split; [done|]. intros E. apply He0. auto.
    + intros E. apply He0. auto.
Qed.

Lemma recv_spec w m d q fresh :
  queued (rx_buffer (socket w)) ((m, d) :: q) fresh ->
  exists w', recv w = Ret (w', Ok (d, m)) /\ queued (rx_buffer (socket w')) q false.
Proof.
  intros (es & Hb & Hp & _). cbn [fst] in Hp. unfold recv, ask, on_socket, id. sbind.
  destruct (dequeue_spec (rx_buffer (socket w)) es Hb) as (b & x & es' & He & Hb' & _ & Hx). rewrite He. sbind.
  destruct x as [[m' d']|]; [|rewrite Hp in Hx; by destruct Hx].
  rewrite Hp in Hx. injection Hx as -> -> Hq. eexists. split; [done|]. exists es'. done.
Qed.

Lemma udp_dispatch_spec {E} cx (emit : Datagram -> result unit E) w q fresh :
  queued (tx_buffer (socket w)) q fresh ->
  match q with
  | [] => exists w', dispatch cx emit w = Ret (w', Ok tt) /\ emitted w' = emitted w /\ queued (tx_buffer (socket w')) [] true
  | (m, d) :: q' =>
      match datagram cx (socket w) m d with
      | Panic => dispatch cx emit w = Panic
      | Ret o => exists w' r, dispatch cx emit w = Ret (w', r) /\ endpoint (socket w') = endpoint (socket w) /\
          match o with
          | None => r = Ok tt /\ emitted w' = emitted w /\ queued (tx_buffer (socket w')) q' false
          | Some p => match emit p with
              | Ok _ => r = Ok tt /\ emitted w' = emitted w ++ [p] /\ queued (tx_buffer (socket w')) q' false
              | Err e => r = Err e /\ emitted w' = emitted w /\ queued (tx_buffer (socket w')) q false
              end
          end
      end
  end.
Proof.
  intros (es & Hb & Hp & _). cbn [fst] in Hp. unfold dispatch, ask, on_socket, wake_tx, id. sbind.
  match goal with |- context [PacketBuffer.dequeue_with ?f _] =>
    destruct (dequeue_with_spec f (tx_buffer (socket w)) es Hb) as (b & x & es' & He & Hb' & _ & Hx); [done|] end.
  destruct q as [|[m d] q'].
  - destruct x as [v|]; [destruct Hx as (h & d & q & Hx & _); rewrite Hp in Hx; done|]. destruct Hx as [_ ->]. rewrite He. sbind.
    eexists. split; [done|]. split; [done|]. by exists [].
  - destruct x as [v|]; [|rewrite Hp in Hx; by destruct Hx]. destruct Hx as (h & d' & q & Hx & Hv & Hpk). rewrite Hp in Hx.
    injection Hx as <- <- <-. cbn [fst snd] in Hv, Hpk. rewrite He. sbind.
    destruct (datagram cx (socket w) m d) as [[p|]|].
    + destruct (emit p); subst v; do 2 eexists; (split; [done|]); (split; [done|]); (split; [done|]); cbn [option_list]; rewrite ?app_nil_r;
        (split; [done|]); by exists es'.
    + subst v. do 2 eexists. split; [done|]. split; [done|]. split; [done|]. cbn [option_list emitted]. rewrite app_nil_r. split; [done|]. by exists es'.
    + by subst v.
Qed.

(** ** From one socket to another *)

(** A socket that is bound and can send from the address [a] to the port [pB] of
    [b]: it is bound to [a], or to no address and [a] is the one of the interface. *)
Record sends_from (cx : IfaceAddr.InterfaceInner) (s : Socket) (a b : list Z) (pB : Z) : Prop := mkSends {
  sf_a : Ipv4Packet.address_ok a; sf_b : Ipv4Packet.address_ok b;
  sf_specified : Ipv4Packet.is_unspecified b = Ret false;
  sf_source : Ip.listen_addr (endpoint s) = Some (Ip.Ipv4 a) \/
    (Ip.listen_addr (endpoint s) = None /\ IfaceAddr.get_source_address_ipv4 cx b = Some a);
  sf_ports : 0 <= Ip.listen_port (endpoint s) < 2 ^ 16 /\ 0 < pB < 2 ^ 16;
  sf_hop : octet (default 64 (hop_limit s))
}.

(** A socket that is bound to the port [pB] of an interface with the address [b],
    for which [a] is the address of a single host. *)
Record takes_at (cx : IfaceAddr.InterfaceInner) (s : Socket) (a b : list Z) (pB : Z) : Prop := mkTakes {
  ta_source : IfaceAddr.is_unicast_v4 cx a = Ret true;
  ta_address : IfaceAddr.has_ip_addr cx (Ip.Ipv4 b) = true;
  ta_port : Ip.listen_port (endpoint s) = pB;
  ta_bound : Ip.listen_addr (endpoint s) = None \/ Ip.listen_addr (endpoint s) = Some (Ip.Ipv4 b)
}.

Definition header_of (s : Socket) (a b data : list Z) : Ip.VRepr :=
  Ip.mkV a b Ip.Udp (8 + Z.of_nat (length data)) (default 64 (hop_limit s)).
Definition udp_of (s : Socket) (pB : Z) : UdpPacket.Repr := UdpPacket.mkRepr (Ip.listen_port (endpoint s)) pB.

Lemma datagram_spec cx s a b pB data :
  sends_from cx s a b pB ->
  datagram cx s (mkMetadata (Ip.mkEndpoint (Ip.Ipv4 b) pB)) data = Ret (Some (Ip.RIpv4 (header_of s a b data), udp_of s pB, data)).
Proof.
  intros []. unfold datagram. cbn [m_endpoint Ip.addr Ip.port]. destruct sf_source0 as [->|[-> Hs]]; rbind; [done|].
  unfold IfaceAddr.get_source_address. rewrite Hs. done.
Qed.

(** The octets that leave and what they are for the receiver. *)
Lemma emit_ip_spec cx s a b pB data sender receiver buf :
  sends_from cx s a b pB -> octets data -> octets buf -> length buf = (28 + length data)%nat -> Z.of_nat (length buf) < 2 ^ 16 ->
  (Caps.rx (c_ipv4 receiver) = true -> Caps.tx (c_ipv4 sender) = true) ->
  (Caps.rx (c_udp receiver) = true -> Caps.tx (c_udp sender) = true) ->
  exists frame inner, emit_ip sender (header_of s a b data) (udp_of s pB) data buf = Ret frame /\
    Ipv4Packet.new_checked frame = Ret (Ok frame) /\ Ipv4Packet.parse (c_ipv4 receiver) frame = Ret (Ok (header_of s a b data)) /\
    Ipv4Packet.payload frame = Ret inner /\ UdpPacket.new_checked inner = Ret (Ok inner) /\
    UdpPacket.parse (Ip.Ipv4 a) (Ip.Ipv4 b) (c_udp receiver) inner = Ret (Ok (udp_of s pB)) /\ UdpPacket.payload inner = Ret data.
Proof.
  intros [] Hdata Hbuf Hlen Hlt Hci Hcu. set (v := header_of s a b data). set (u := udp_of s pB).
  assert (Hv : Ipv4Packet.vrepr_ok v) by (split; cbn; try done; lia).
  assert (Hu : UdpPacket.repr_ok u) by (destruct sf_ports0; by split).
  assert (Hfam : same_family (Ip.Ipv4 a) (Ip.Ipv4 b)) by done.
  destruct (Ipv4Packet.ip_emit_spec v (c_ipv4 sender) buf Hv Hbuf ltac:(lia)) as (ci & Hcir & Hei & Hvi).
  pose proof (Ipv4Packet.ip_length_put _ (Ipv4Packet.written_ok v ci Hv Hcir)) as Hlp.
  destruct (UdpPacket.udp_emit_spec u data (Ip.Ipv4 a) (Ip.Ipv4 b) (c_udp sender) (drop 20 buf) Hu Hdata Hfam) as (cu & Hcur & Heu & Hvu);
    [by apply Forall_drop|rewrite length_drop; lia|rewrite length_drop; lia|].
  destruct (UdpPacket.udp_read_back u data (Ip.Ipv4 a) (Ip.Ipv4 b) (c_udp receiver) cu Hu Hdata ltac:(lia) Hcur ltac:(auto)) as (Ho & Hn & Hp & Hpl).
  set (inner := UdpPacket.written u data cu) in *. assert (Hli : length inner = (8 + length data)%nat) by apply UdpPacket.udp_length_written.
  exists (Ipv4Packet.put (Ipv4Packet.written v ci) ++ inner), inner. split.
  { unfold emit_ip. rewrite Hei. rbind. apply (edit_tail (Ipv4Packet.put (Ipv4Packet.written v ci)) (drop 20 buf)); [done..|]. exact Heu. }
  split; [apply Ipv4Packet.ip_new_checked; [done..|]; cbn; lia|].
  split; [|split; [apply Ipv4Packet.ip_payload_spec; [done..|]; cbn; lia|done]].
  apply Ipv4Packet.ip_parse_spec; [done..|]. intros Hx. specialize (Hvi (Hci Hx)).
  pose proof (Ipv4Packet.written_ok v ci Hv Hcir) as Hw. unfold Ipv4Packet.verify_checksum in *.
  by rewrite Ipv4Packet.header_sum_put in Hvi |- *.
Qed.

Lemma process_udp_spec cx before w after ip r payload :
  Forall (fun w => Ip.listen_port (endpoint (socket w)) <> UdpPacket.r_dst_port r) before -> accepts cx (socket w) ip r = Ret true ->
  process_udp cx ip r payload (before ++ w :: after) =
  ('(w', _) ← process ip r payload w; Ret (before ++ w' :: after, Taken)).
Proof.
  intros Hb Ha. induction before as [|x before IH]; cbn [app process_udp]; [by rewrite Ha|].
  apply Forall_cons in Hb as [Hx Hb]. unfold accepts at 1. rewrite (proj2 (Z.eqb_neq _ _)) by done. cbn [negb]. rbind.
  rewrite IH by done. by destruct (process ip r payload w) as [[]|].
Qed.

(** The receiver takes what it is sent. *)
Lemma receive_spec cx caps before w after a b frame inner v u data :
  takes_at cx (socket w) a b (UdpPacket.r_dst_port u) -> Ip.v_src v = a -> Ip.v_dst v = b -> Ip.next_header v = Ip.Udp ->
  Ipv4Packet.address_ok a ->
  Forall (fun w => Ip.listen_port (endpoint (socket w)) <> UdpPacket.r_dst_port u) before ->
  Ipv4Packet.new_checked frame = Ret (Ok frame) -> Ipv4Packet.parse (c_ipv4 caps) frame = Ret (Ok v) ->
  Ipv4Packet.payload frame = Ret inner -> UdpPacket.new_checked inner = Ret (Ok inner) ->
  UdpPacket.parse (Ip.Ipv4 a) (Ip.Ipv4 b) (c_udp caps) inner = Ret (Ok u) -> UdpPacket.payload inner = Ret data ->
  receive cx caps (before ++ w :: after) frame =
  ('(w', _) ← process (Ip.RIpv4 v) u data w; Ret (before ++ w' :: after, Taken)).
Proof.
  intros [Hsrc Hown Hport Hbound] <- <- Hnext Haok Hbef Hc Hp Hpl Huc Hup Hupl. unfold receive. rewrite Hc. rbind. unfold process_ipv4.
  rewrite Hp. rbind. rewrite Hsrc. rbind. destruct (Ipv4Packet.address_cases _ Haok) as (o1 & o2 & o3 & o4 & Hoct & _).
  assert (Huns : exists x, Ipv4Packet.is_unspecified (Ip.v_src v) = Ret x) by (rewrite Hoct; by eexists). destruct Huns as [x ->]. rbind.
  cbn [negb andb]. rewrite Hpl. rbind. unfold for_us. rewrite Hown. rbind. cbn [negb]. rewrite Hnext, Huc. rbind. rewrite Hup. rbind.
  rewrite Hupl. rbind. apply process_udp_spec; [done|]. unfold accepts. rewrite Hport, Z.eqb_refl. cbn [negb].
  destruct Hbound as [->| ->]; [done|]. by rewrite bool_decide_true.
Qed.


End laws.

(** ** Instances *)

Definition host_a : IfaceAddr.InterfaceInner :=
  IfaceAddr.mkInner [Routes.Cidr4 (Ipv4Packet.mkCidr [192; 168; 1; 42] 24)] false [] [] 0.
Definition host_b : IfaceAddr.InterfaceInner :=
  IfaceAddr.mkInner [Routes.Cidr4 (Ipv4Packet.mkCidr [10; 0; 0; 1] 8)] false [] [] 0.
Definition example_meta : UdpMetadata := mkMetadata (Ip.mkEndpoint (Ip.Ipv4 [10; 0; 0; 1]) 53).
Definition empty_buffer : PacketBuffer.t UdpMetadata := PacketBuffer.new (replicate 2 PacketBuffer.EMPTY) (replicate 8 0).
Definition full_buffer : PacketBuffer.t UdpMetadata :=
  PacketBuffer.mkPB (RingBuffer.mk [PacketBuffer.packet 3 example_meta; PacketBuffer.EMPTY] 0 1) (RingBuffer.mk [7; 8; 9; 0; 0; 0; 0; 0] 0 3).
Definition world_a : World := mkWorld (mkSocket (Ip.mkListen None 4000) empty_buffer full_buffer None None None) [] [].
Definition world_b : World := mkWorld (mkSocket (Ip.mkListen (Some (Ip.Ipv4 [10; 0; 0; 1])) 53) empty_buffer empty_buffer None (Some 5%nat) None) [] [].
Definition both_ways : Capabilities := mkCapabilities Caps.Both Caps.Both 1500.

Lemma empty_buffer_queued : queued empty_buffer [] true.
Proof. exists []. split; [|done]. split; try done; by apply RingBufferLaws.wf_new. Qed.

Lemma full_buffer_queued : queued full_buffer [(example_meta, [7; 8; 9])] false.
Proof.
  exists [(Some example_meta, [7; 8; 9])]. split; [|done].
  split; try done; [split; cbn; lia|split; cbn; lia|split; [cbn; lia|done]].
Qed.


(** A datagram to an IPv6 address in the queue of a socket that is bound to an IPv4
    address was accepted by [send_slice]; [dispatch] panics on it. *)
Theorem mixed_versions_panic :
  let w := mkWorld (mkSocket (Ip.mkListen (Some (Ip.Ipv4 [10; 0; 0; 1])) 53) empty_buffer empty_buffer None None None) [] [] in
  exists w', send_slice [1; 2] (mkMetadata (Ip.mkEndpoint (Ip.Ipv6 ([0x20; 0x01] ++ replicate 14 1)) 80)) w = Ret (w', Ok tt) /\
    dispatch (E := unit) host_b (fun _ => Ok tt) w' = Panic.
Proof. eexists. split; [vm_compute; reflexivity|]. vm_compute. reflexivity. Qed.

(** So does a datagram to an IPv6 address when the socket is bound to no address
    and the interface has no IPv6 address: there is no candidate to unwrap. *)
Theorem no_source_address_panics :
  let w := mkWorld (mkSocket (Ip.mkListen None 53) empty_buffer empty_buffer None None None) [] [] in
  exists w', send_slice [1; 2] (mkMetadata (Ip.mkEndpoint (Ip.Ipv6 ([0x20; 0x01] ++ replicate 14 1)) 80)) w = Ret (w', Ok tt) /\
    dispatch (E := unit) host_b (fun _ => Ok tt) w' = Panic.
Proof. eexists. split; [vm_compute; reflexivity|]. vm_compute. reflexivity. Qed.

End UdpPath.
